(* ===== verification/_CoqProject ===== *)
-Q . S2P
Prelude.v
StateResult.v
Text.v
BTree.v
Errors.v
Value.v
Attempt.v
Policy.v
Routing.v
Event.v
Session.v
Workflow.v
Ports.v
Orchestrator.v
Json.v
Wire.v
ProtoCommand.v
ProtoReply.v
Codec.v
Subscription.v
ConfigModel.v
ConfigValidate.v
ConfigMerge.v
ConfigPreflight.v
FileSystem.v
ConfigLock.v
McpPolicy.v
McpPin.v
McpGateway.v
OpenRouterProtocol.v
OpenRouterAdapter.v
StorageKeys.v
EventWire.v
StorageSample.v
StorageTables.v
StorageDb.v
StorageInv.v
StorageOps.v
StorageProps.v
StorageLive.v
StoragePages.v
StorageWitness.v
StorageView.v
StorageDisk.v
StorageExport.v
StorageExportProps.v
DaemonModel.v
DaemonWorkflow.v
DaemonHub.v
DaemonBackend.v
DaemonSqlite.v
StoragePorts.v
DaemonLocked.v
DaemonMachine.v
DaemonApp.v
DaemonHandlers.v
DaemonTasks.v
DaemonHistory.v
DaemonInv.v
DaemonLogic.v
DaemonPayload.v
DaemonSafe.v
DaemonCommands.v
DaemonTaskSafe.v
DaemonSteps.v
DaemonWitness.v
AgentFrames.v
AgentProtocol.v
AgentProcess.v
ClaudeProtocol.v
CodexProtocol.v
AgentAdapter.v
AgentStream.v
AgentShutdown.v
AgentLaws.v
AcpServer.v
AcpClient.v
AcpClientProps.v
AcpAdapter.v
DaemonProviders.v
