(* ===== verification/Prelude.v ===== *)
(** * Multi-agent development workbench: a verification development

    The workbench is a local daemon that runs coding agents (providers) for
    clients. A client sends commands over a local socket; the daemon turns them
    into durable, encrypted session events, resolves which role, model and tools may
    be used, asks a human where policy requires it, dispatches to a provider or to an
    MCP tool server, and streams events back. Providers are the Claude Code and Codex
    programs and any ACP agent, each a child process, and the OpenRouter service. An
    ACP client, such as an editor, reaches the daemon through a bridge that is itself
    an ACP agent. Paths below are under src/crates/.

    ** Files

    Shared ground.
    - Prelude: results with [let?], tactics ([break_results], [bool_to_prop],
      [crush_matches]), the hint database [workbench], saturating integers.
    - StateResult: fallible methods on [&mut self] as a monad with [let!], and a
      small Hoare logic for them.
    - Text, BTree: Rust strings as UTF-8 bytes, decimal numbers and binary64 values;
      B-tree maps as sorted association lists.
    - Json, Wire: serde_json values with the strict visitor of
      workbench-protocol/src/validation.rs, and serde's derived serializers as
      codecs with laws ([CodecLaws]), found by instance search.
    - FileSystem: the file-system interface and the executable checks shared by
      the lock and the MCP pins.

    workbench-core.
    - Errors (error.rs, identity.rs), Value (value.rs), Attempt (attempt.rs),
      Policy (policy.rs), Routing (routing.rs), Event (event.rs), EventWire (the
      derived JSON of event.rs), Session (session.rs), Workflow (workflow.rs), Ports
      (ports.rs), Orchestrator (orchestrator.rs). [Ports] states the event store as a
      class of operations with laws; [Orchestrator] is proved against that interface.
      An in-memory store and, in StoragePorts, the SQLite storage discharge it.

    workbench-protocol.
    - ProtoCommand (command.rs), ProtoReply (response.rs), Codec (codec.rs),
      Subscription (subscription.rs, event.rs).

    workbench-config.
    - ConfigModel (model.rs), ConfigValidate (validate.rs), ConfigMerge (merge.rs),
      ConfigPreflight (snapshot.rs, preflight.rs), ConfigLock (lock.rs).

    workbench-mcp.
    - McpPolicy (policy.rs, error.rs), McpPin (pin.rs), McpGateway (gateway.rs,
      redaction.rs, the pool of stdio.rs and the entry of http.rs).

    workbench-openrouter.
    - OpenRouterProtocol (protocol.rs, error.rs, the decoding of transport.rs),
      OpenRouterAdapter (adapter.rs, budget.rs, credential.rs).

    workbench-storage.
    - StorageKeys (crypto.rs, key_store.rs, lib.rs): the environment class
      [StorageEnv] (cipher, hash, base64, random source, JSON and time text) with its
      laws, the key-store interface [KeyStore] with its laws, envelopes and root keys.
    - StorageTables (migrations/0001_initial.sql): the rows and constraints.
    - StorageDb (sqlite.rs): every operation of an open database.
    - StorageInv, StorageOps, StorageView, StorageProps, StorageLive, StoragePages:
      the invariant, what each operation preserves, the storage as histories, and the
      theorems, those on paging and retention in StoragePages.
    - StorageDisk, StorageExport, StorageExportProps (export.rs): files whose system
      calls may fail, the export with its journal, and what exports do to the disk.
    - StoragePorts (ports.rs): the ports of the core over the SQLite storage.
    - StorageSample and StorageWitness instantiate the environment by concrete
      functions and evaluate the theorems.

    workbench-daemon.
    - DaemonModel, DaemonWorkflow, DaemonApp, DaemonHandlers, DaemonTasks
      (application.rs, workflow_exec.rs, startup.rs): the application state, one definition per command
      handler and per spawned task, recovery, maintenance and shutdown.
    - DaemonHub (subscription.rs): the hub of live subscriptions.
    - DaemonBackend, DaemonSqlite, DaemonLocked, DaemonMachine (storage_backend.rs):
      the storage as an interface [StorageBackend] with [BackendLaws], discharged by the
      SQLite storage together with the disk of the exports.
    - DaemonHistory, DaemonInv, DaemonLogic, DaemonPayload, DaemonSafe,
      DaemonCommands, DaemonTaskSafe, DaemonSteps: good histories, the invariant, a
      program logic for handlers, and the daemon as a transition system. DaemonWitness
      runs it on the SQLite storage.
    - DaemonProviders (providers.rs): starting and shutting down the providers.

    workbench-claude and workbench-codex.
    - AgentFrames, AgentProtocol, AgentProcess, AgentAdapter: the code the two crates
      share: lines from a pipe, errors, reaping, and the adapter with one child per
      attempt. [AgentProtocol] is the class of what the products differ in.
    - ClaudeProtocol, CodexProtocol: frames, normalization, launch and preflight of
      each product. AgentLaws: both satisfy [AgentProtocolLaws].
    - AgentStream, AgentShutdown: streams, cancellations and shutdowns of the adapter
      over any protocol with these laws.

    workbench-acp and workbench-acp-server.
    - AcpClient (protocol.rs, transport.rs), AcpAdapter (adapter.rs, supervisor.rs):
      the connection to an ACP agent and the adapter over it; AcpClientProps: the
      theorems on the connection.
    - AcpServer (bridge.rs, frame.rs, error.rs, and the loop of the agent in
      workbench-cli): the bridge over the socket of the daemon or over the application
      in the same process.

    ** How code is modelled

    A [&mut self] method takes the state and returns it with the result, also when
    it fails, so that a theorem can say what an error leaves behind. [Result] is a
    sum with the source's errors; a panic is [None]. Unsigned integers are values
    of [N] with the saturation or the bound of their width written out. Fresh
    identifiers are arguments. Sequences of operations are lists, and invariants
    are proved for every list.

    Where operations interleave, each is split into atomic steps at its waits, and the
    theorems hold for every order of the steps. A step of the daemon is what a handler
    or a task does while it holds the lock of its session; a step of an adapter or of
    an ACP connection is what runs between two waits, or under one lock. The answers of
    the outside (children, pipes, sockets, clocks) are arguments of the steps.

    Code outside the repository is a parameter with the documented behaviour as a
    hypothesis: JSON text (serde_json), UUID text (uuid), hashing (sha2, blake3),
    the cipher, age encryption, the file system and child processes. Every property
    with a hypothesis has a witness that instantiates these parameters by concrete
    functions.

    A statement of the database fails when the list [failures] of the storage says
    so; a transaction that does not commit restores the tables. The theorems hold
    for every list, so for an interruption at every statement; a restart keeps the
    tables and the key store and loses the cached keys. The disk of the exports has
    such a list for its system calls.

    ** Bounds

    Recursion is structural, on a measure, or on fuel: [Codec.decode_all] has one unit
    per frame, and the theorems hold for every amount above the number of frames;
    [decimal] has 20 digits, which hold every 64-bit value, as [decimal_spec] proves;
    the trimming of OpenRouterProtocol has one unit per byte of the string;
    [all_pages] has one unit per page, and the theorem holds for every amount above
    the number of sessions. In [AcpServer.collect_chunks] the number is how often the
    loop starts before its deadline, and in [AgentFrames.next_frames] how often a
    caller asks for a frame; these are not bounds, the theorems hold for every number.

    ** What the theorems show

    - Execution (Orchestrator): nothing reaches a provider before its plan is
      durable; whatever fails, the stored history folds to the state reported.
    - Daemon (DaemonSteps, DaemonHub): in every reachable state a started attempt
      follows a recorded approval that grants, calls to providers are backed by durable
      attempts, and histories are readable; subscribers miss nothing or are told.
    - Agents (AgentStream, AgentShutdown, ClaudeProtocol, AgentFrames): what a stream
      or a cancellation says of a child is what the child said; no child outlives a
      successful shutdown; a child runs only with the tools of the policy.
    - ACP (AcpClientProps, AcpAdapter, AcpServer): answers belong to their requests,
      every prompt settles, updates arrive once and in order; a client of the bridge
      reaches only sessions it created.
    - Providers (DaemonProviders): only adapters the lock pins are kept, and a failed
      start has shut down every one it connected.
    - Lifecycles (Session, Attempt, Workflow): histories are accepted exactly when
      every transition is legal; terminal states absorb; unknown outcomes are only
      retried after a human decision; workflow runs stay in bounds and terminate.
    - Permission (Policy, McpPolicy, McpGateway): layers only restrict; the gate is
      characterised exactly; no tool call reaches a server without it; audits and
      public results do not depend on payloads.
    - Pins (ConfigLock, McpPin): what may be started or contacted has the digest
      the lock pins; locks verify where they were produced; the text an endpoint is
      pinned by determines the endpoint.
    - Configuration (ConfigValidate, ConfigMerge, ConfigPreflight): validated
      configurations have referential integrity; merging layers only restricts;
      snapshots hold no secrets; role resolution is first-usable-wins.
    - Wire (Json, ProtoCommand, ProtoReply, Codec, Subscription): strict parsing,
      round trips of commands and replies, resynchronising frames, bounded queues.
    - Cost (OpenRouterProtocol, OpenRouterAdapter): streams decode completely or
      say so; no paid request passes the ceilings in any interleaving; spending
      survives a restart; sessions are released, except on the path shown by
      [unreleased_session_is_lost].
    - Storage (StorageProps, StorageLive, StoragePages, StorageKeys,
      StorageExportProps, StoragePorts): histories are gap-free and readable after any
      failures; appends replay exactly; commands take effect once; deletions,
      creations and attempts interrupted anywhere are settled by a restart; keys
      survive rotation; exports never overwrite; the port of the core is implemented.

    ** What is not modelled

    Opening, protecting and migrating the database file; discovering and reading
    configuration files (workbench-config/src/source.rs); the composition of the
    daemon process, its sockets, paths, telemetry and spend file; the MCP gateway
    as the daemon carries it; probing the versions of adapters for a new lock;
    spawning children, their pipes, and aborting tasks at the end of a shutdown;
    arguments and printing of the command line, the terminal client and the test
    kit: all of these are operating-system calls around the logic above, or code that
    only forwards to it. Poisoned locks and changes of the file system during one check
    are not modelled either. *)

From stdpp Require Export base option list strings gmap.
From Stdlib Require Export Ascii NArith Lia.

(** ** Notations *)

Declare Scope workbench_scope.
Delimit Scope workbench_scope with workbench.
Open Scope workbench_scope.

(** ** Rust's [Result] and the [?] operator *)

Inductive Result (A E : Type) : Type :=
| Ok (value : A)
| Err (error : E).
Arguments Ok {A E} value.
Arguments Err {A E} error.

#[export] Instance Result_eq_dec `{EqDecision A, EqDecision E} : EqDecision (Result A E).
Proof. solve_decision. Defined.

Notation "'let?' x := c 'in' k" :=
  (match c with Ok x => k | Err e => Err e end)
  (at level 10, x name, c at level 200, k at level 200,
   format "'let?'  x  :=  c  'in' '//' k") : workbench_scope.

Definition map_err {A E F} (f : E → F) (r : Result A E) : Result A F :=
  match r with Ok a => Ok a | Err e => Err (f e) end.

Definition result_map {A B E} (f : A → B) (r : Result A E) : Result B E :=
  match r with Ok a => Ok (f a) | Err e => Err e end.

Definition ok_or {A E} (o : option A) (e : E) : Result A E :=
  match o with Some a => Ok a | None => Err e end.

(** [Result::ok] *)
Definition ok {A E} (r : Result A E) : option A :=
  match r with Ok a => Some a | Err _ => None end.

Definition is_ok {A E} (r : Result A E) : bool :=
  match r with Ok _ => true | Err _ => false end.

(** A guard of the form [if c { return Err(e) }]. *)
Definition reject_if {E} (c : bool) (e : E) : Result unit E :=
  if c then Err e else Ok tt.

(** [Iterator::try_for_each]: the first error, in iteration order. *)
Fixpoint try_for_each {A E} (f : A → Result unit E) (l : list A) : Result unit E :=
  match l with
  | [] => Ok tt
  | x :: l => let? _ := f x in try_for_each f l
  end.

(** [Iterator::collect::<Result<Vec<_>, _>>()]. *)
Fixpoint try_collect {A B E} (f : A → Result B E) (l : list A) : Result (list B) E :=
  match l with
  | [] => Ok []
  | x :: l => let? y := f x in let? ys := try_collect f l in Ok (y :: ys)
  end.

(** ** Tactics *)

(** Destructs the scrutinee of a [match] in the goal or in a hypothesis. *)
Ltac break_match :=
  match goal with
  | |- context [match ?x with _ => _ end] => destruct x eqn:?
  | H : context [match ?x with _ => _ end] |- _ => destruct x eqn:?
  end.

(** Case analysis over every [match], closing the contradictory branches. *)
Ltac crush_matches :=
  repeat (first [progress simplify_eq/= | break_match]); try done.

(** Turns boolean facts into propositions. *)
Ltac bool_to_prop :=
  repeat match goal with
    | H : _ && _ = true |- _ => apply andb_true_iff in H; destruct H
    | H : _ && _ = false |- _ => apply andb_false_iff in H
    | H : _ || _ = true |- _ => apply orb_true_iff in H
    | H : _ || _ = false |- _ => apply orb_false_iff in H; destruct H
    | H : negb _ = true |- _ => apply negb_true_iff in H
    | H : negb _ = false |- _ => apply negb_false_iff in H
    | H : bool_decide _ = true |- _ => apply bool_decide_eq_true in H
    | H : bool_decide _ = false |- _ => apply bool_decide_eq_false in H
    | H : (_ =? _)%N = true |- _ => apply N.eqb_eq in H
    | H : (_ =? _)%N = false |- _ => apply N.eqb_neq in H
    | H : (_ <=? _)%N = true |- _ => apply N.leb_le in H
    | H : (_ <=? _)%N = false |- _ => apply N.leb_gt in H
    | H : (_ <? _)%N = true |- _ => apply N.ltb_lt in H
    | H : (_ <? _)%N = false |- _ => apply N.ltb_ge in H
    | H : (_ <=? _)%nat = true |- _ => apply Nat.leb_le in H
    | H : (_ <=? _)%nat = false |- _ => apply Nat.leb_gt in H
    end.

(** ** Generic lemmas about results *)

Create HintDb workbench discriminated.

Section results.
Context {A B E : Type}.
Implicit Types (r : Result A E) (l : list A).

Lemma bind_Ok (r : Result A E) (k : A → Result B E) b :
  (let? x := r in k x) = Ok b ↔ ∃ a, r = Ok a ∧ k a = Ok b.
Proof. destruct r; naive_solver. Qed.

Lemma bind_Err (r : Result A E) (k : A → Result B E) e :
  (let? x := r in k x) = Err e ↔ r = Err e ∨ ∃ a, r = Ok a ∧ k a = Err e.
Proof. destruct r; naive_solver. Qed.

Lemma reject_if_Ok (c : bool) (e : E) : reject_if c e = Ok tt ↔ c = false.
Proof. destruct c; naive_solver. Qed.

Lemma reject_if_Err (c : bool) (e e' : E) :
  reject_if c e = Err e' ↔ c = true ∧ e = e'.
Proof. destruct c; naive_solver. Qed.

Lemma map_err_Ok {F} (f : E → F) r a : map_err f r = Ok a ↔ r = Ok a.
Proof. destruct r; naive_solver. Qed.

Lemma ok_or_Ok (o : option A) (e : E) a : ok_or o e = Ok a ↔ o = Some a.
Proof. destruct o; naive_solver. Qed.

Lemma ok_Some r a : ok r = Some a ↔ r = Ok a.
Proof. destruct r; naive_solver. Qed.

Lemma try_for_each_Ok (f : A → Result unit E) l :
  try_for_each f l = Ok tt ↔ Forall (λ x, f x = Ok tt) l.
Proof.
  induction l as [|x l IH]; simpl; [split; auto|].
  rewrite Forall_cons, <-IH. destruct (f x) as [[]|]; naive_solver.
Qed.

(** The error reported is the one of the first offending element. *)
Lemma try_for_each_Err (f : A → Result unit E) l e :
  try_for_each f l = Err e ↔
  ∃ pre x post, l = pre ++ x :: post ∧ Forall (λ y, f y = Ok tt) pre ∧ f x = Err e.
Proof.
  induction l as [|x l IH]; simpl.
  - split; [done|]. intros (pre & x & post & ? & _). by destruct pre.
  - destruct (f x) as [[]|e'] eqn:Hx.
    + rewrite IH. split.
      * intros (pre & y & post & -> & Hpre & Hy). exists (x :: pre), y, post.
        split_and!; [done|by constructor|done].
      * intros ([|z pre] & y & post & Heq & Hpre & Hy); simplify_eq/=; [congruence|].
        exists pre, y, post. by inversion Hpre.
    + split; [intros; simplify_eq; by exists [], x, l|].
      intros ([|z pre] & y & post & Heq & Hpre & Hy); simplify_eq/=; [congruence|].
      inversion Hpre; congruence.
Qed.

Lemma try_collect_Ok (f : A → Result B E) l ys :
  try_collect f l = Ok ys ↔ Forall2 (λ x y, f x = Ok y) l ys.
Proof.
  revert ys. induction l as [|x l IH]; intros ys; simpl.
  - split; [intros; simplify_eq; constructor | by inversion 1].
  - destruct (f x) as [y|e] eqn:Hx; [|by split; [|inversion 1; congruence]].
    split.
    + destruct (try_collect f l) as [zs|]; intros; simplify_eq.
      constructor; [done|]. by apply IH.
    + inversion 1 as [|? y' ? zs Hy Hzs]; subst. apply IH in Hzs as ->. congruence.
Qed.

Lemma try_collect_length (f : A → Result B E) l ys :
  try_collect f l = Ok ys → length ys = length l.
Proof. intros H%try_collect_Ok. symmetry. by eapply Forall2_length. Qed.
End results.

(** Splits a hypothesis about a chain of [let?] into its successful steps. *)
Ltac break_results :=
  repeat match goal with
    | H : match ?r with Ok _ => _ | Err _ => Err _ end = Ok _ |- _ =>
        let E := fresh "Hok" in destruct r eqn:E; [|discriminate H]
    | H : reject_if _ _ = Ok _ |- _ =>
        let E := fresh "Hguard" in
        assert (E := proj1 (reject_if_Ok _ _) H);
        clear H
    | u : unit |- _ => destruct u
    end.

(** ** Fixed-width unsigned integers *)

(** Unsigned machine integers are values of [N]; these are the largest values
    of the widths the source uses. [usize] is 64 bits wide on the supported
    targets. *)
Definition u16_max : N := 65535.
Definition u32_max : N := 4294967295.
Definition u64_max : N := 18446744073709551615.
Definition usize_max : N := u64_max.

Definition saturating_add (max a b : N) : N := N.min (a + b) max.
Definition saturating_mul (max a b : N) : N := N.min (a * b) max.
Definition checked_add (max a b : N) : option N :=
  if (a + b <=? max)%N then Some (a + b)%N else None.

Lemma saturating_add_le max a b : (saturating_add max a b ≤ max)%N.
Proof. unfold saturating_add. lia. Qed.

Lemma saturating_add_mono max a b b' :
  (b ≤ b')%N → (saturating_add max a b ≤ saturating_add max a b')%N.
Proof. unfold saturating_add. lia. Qed.

#[export] Hint Resolve saturating_add_le : workbench.
