(* ===== verification/StateResult.v ===== *)
(** * StateResult: methods on [&mut self] that may fail

    A method that mutates its receiver and returns a [Result] is a function from
    the state to the state it leaves behind and the result; the state is returned
    with an error too. [let!] is the [?] operator on such methods. The lemmas are a
    small Hoare logic: [triple P m Q] relates the states before and after, and
    [keeps I m] says that a property of the state survives whatever happens. *)

From S2P Require Import Prelude.

Definition ST (S E A : Type) : Type := S → S * Result A E.

Definition st_ret {S E A} (a : A) : ST S E A := λ s, (s, Ok a).
Definition st_err {S E A} (e : E) : ST S E A := λ s, (s, Err e).
Definition st_lift {S E A} (r : Result A E) : ST S E A := λ s, (s, r).
Definition st_get {S E} : ST S E S := λ s, (s, Ok s).
Definition st_gets {S E A} (f : S → Result A E) : ST S E A := λ s, (s, f s).
Definition st_modify {S E} (f : S → S) : ST S E unit := λ s, (f s, Ok tt).
Definition st_bind {S E A B} (m : ST S E A) (k : A → ST S E B) : ST S E B :=
  λ s, match m s with (s', Ok a) => k a s' | (s', Err e) => (s', Err e) end.

(** Both outcomes of a method, as a value. *)
Definition st_try {S E F A} (m : ST S E A) : ST S F (Result A E) :=
  λ s, let '(s', r) := m s in (s', Ok r).

Notation "'let!' x := m 'in' k" := (st_bind m (λ x, k))
  (at level 10, x name, m at level 200, k at level 200,
   format "'let!'  x  :=  m  'in' '//' k") : workbench_scope.

(** [for x in l { body(x)?; }] *)
Fixpoint st_for {S E A} (body : A → ST S E unit) (l : list A) : ST S E unit :=
  match l with
  | [] => st_ret tt
  | x :: l => let! _ := body x in st_for body l
  end.

(** [for x in l { out.push(body(x)?); }] *)
Fixpoint st_map {S E A B} (body : A → ST S E B) (l : list A) : ST S E (list B) :=
  match l with
  | [] => st_ret []
  | x :: l => let! y := body x in let! ys := st_map body l in st_ret (y :: ys)
  end.

(** ** Hoare logic *)

Section logic.
Context {S E : Type}.
Implicit Types P I : S → Prop.

Definition triple {A} P (m : ST S E A) (Q : S → Result A E → Prop) : Prop :=
  ∀ s, P s → Q (m s).1 (m s).2.

Definition keeps {A} I (m : ST S E A) : Prop := ∀ s, I s → I (m s).1.

Lemma keeps_ret {A} I (a : A) : keeps I (st_ret a).
Proof. by intros s. Qed.

Lemma keeps_err {A} I (e : E) : keeps I (st_err (A := A) e).
Proof. by intros s. Qed.

Lemma keeps_lift {A} I (r : Result A E) : keeps I (st_lift r).
Proof. by intros s. Qed.

Lemma keeps_get I : keeps I (st_get (E := E)).
Proof. by intros s. Qed.

Lemma keeps_gets {A} I (f : S → Result A E) : keeps I (st_gets f).
Proof. by intros s. Qed.

Lemma keeps_bind {A B} I (m : ST S E A) (k : A → ST S E B) :
  keeps I m → (∀ a, keeps I (k a)) → keeps I (st_bind m k).
Proof.
  intros Hm Hk s Hs. unfold st_bind. specialize (Hm s Hs).
  destruct (m s) as [s' [a|e]]; [by apply Hk|done].
Qed.

(** The continuation may rely on what the result satisfies. *)
Lemma keeps_bind_post {A B} I (m : ST S E A) (k : A → ST S E B) (Q : A → Prop) :
  keeps I m → (∀ s s' a, m s = (s', Ok a) → Q a) → (∀ a, Q a → keeps I (k a)) →
  keeps I (st_bind m k).
Proof.
  intros Hm HQ Hk s Hs. unfold st_bind. specialize (Hm s Hs). specialize (HQ s).
  destruct (m s) as [s' [a|e]]; [|done]. by apply Hk; [eapply HQ|].
Qed.

Lemma keeps_for {A} I (body : A → ST S E unit) l :
  (∀ x, x ∈ l → keeps I (body x)) → keeps I (st_for body l).
Proof.
  intros Hb. induction l as [|x l IH]; simpl; [apply keeps_ret|].
  apply keeps_bind; [apply Hb; left|]. intros _. apply IH. intros y Hy. apply Hb. by right.
Qed.

Lemma keeps_map {A B} I (body : A → ST S E B) l :
  (∀ x, x ∈ l → keeps I (body x)) → keeps I (st_map body l).
Proof.
  intros Hb. induction l as [|x l IH]; simpl; [apply keeps_ret|].
  apply keeps_bind; [apply Hb; left|]. intros y. apply keeps_bind.
  - apply IH. intros z Hz. apply Hb. by right.
  - intros ys. apply keeps_ret.
Qed.

Lemma st_triple_bind {A B} P Q R (m : ST S E A) (k : A → ST S E B) :
  triple P m Q →
  (∀ a, triple (λ s, Q s (Ok a)) (k a) R) →
  (∀ s e, Q s (Err e) → R s (Err e)) →
  triple P (st_bind m k) R.
Proof.
  intros Hm Hk He s Hs. unfold st_bind. specialize (Hm s Hs).
  destruct (m s) as [s' [a|e]]; [by apply (Hk a s')|by apply He].
Qed.

Lemma st_triple_weaken {A} P P' (m : ST S E A) Q Q' :
  (∀ s, P' s → P s) → (∀ s r, Q s r → Q' s r) → triple P m Q → triple P' m Q'.
Proof. intros HP HQ Hm s Hs. by apply HQ, Hm, HP. Qed.

Lemma st_bind_Ok {A B} (m : ST S E A) (k : A → ST S E B) s s' b :
  st_bind m k s = (s', Ok b) ↔ ∃ s1 a, m s = (s1, Ok a) ∧ k a s1 = (s', Ok b).
Proof. unfold st_bind. destruct (m s) as [s1 [a|e]]; naive_solver. Qed.

Lemma st_bind_Err {A B} (m : ST S E A) (k : A → ST S E B) s s' e :
  st_bind m k s = (s', Err e) ↔
  m s = (s', Err e) ∨ ∃ s1 a, m s = (s1, Ok a) ∧ k a s1 = (s', Err e).
Proof. unfold st_bind. destruct (m s) as [s1 [a|e']]; naive_solver. Qed.

Lemma st_map_length {A B} (body : A → ST S E B) l s s' ys :
  st_map body l s = (s', Ok ys) → length ys = length l.
Proof.
  revert s ys. induction l as [|x l IH]; intros s ys; simpl.
  - by intros [= <- <-].
  - rewrite st_bind_Ok. intros (s1 & y & _ & H). apply st_bind_Ok in H as (s2 & ys' & H & Hr).
    injection Hr as <- <-. simpl. f_equal. by eapply IH.
Qed.
Lemma st_map_Forall2 {A B} (body : A → ST S E B) (R : A → B → Prop) l s s' ys :
  (∀ x s s' y, body x s = (s', Ok y) → R x y) →
  st_map body l s = (s', Ok ys) → Forall2 R l ys.
Proof.
  intros HR. revert s ys. induction l as [|x l IH]; intros s ys; simpl.
  - by intros [= <- <-].
  - rewrite st_bind_Ok. intros (s1 & y & Hy & Hm). apply st_bind_Ok in Hm as (s2 & ys' & Hm & Hr).
    injection Hr as <- <-. constructor; eauto.
Qed.
End logic.

(** Splits a successful chain of [let!] into its steps. *)
Ltac break_state :=
  repeat match goal with
    | H : st_bind _ _ _ = (_, Ok _) |- _ =>
        let s := fresh "s" in let a := fresh "a" in let H1 := fresh "Hstep" in
        apply st_bind_Ok in H as (s & a & H1 & H)
    | H : st_ret _ _ = (_, _) |- _ => injection H as H; simplify_eq
    | H : st_lift _ _ = (_, _) |- _ => injection H as H; simplify_eq
    | H : st_gets _ _ = (_, _) |- _ => injection H as H; simplify_eq
    | H : st_get _ = (_, _) |- _ => injection H as H; simplify_eq
    | H : st_modify _ _ = (_, _) |- _ => injection H as H; simplify_eq
    | H : st_err _ _ = (_, Ok _) |- _ => discriminate H
    end.

#[export] Hint Resolve keeps_ret keeps_err keeps_lift keeps_get keeps_gets : workbench.
