(* ===== verification/Text.v ===== *)
(** * Text: Rust's [str] and [String] at the level the workbench uses them

    A Rust string is its UTF-8 bytes, so a [String] is a Rocq [string] whose
    characters are bytes and [len] counts bytes. This file models the library
    operations the workbench calls: byte classes, [is_char_boundary] and the
    panicking [String::truncate], prefixes and splits, ASCII case folding,
    decoding to Unicode scalar values, and the duplicate test that collecting
    into a [BTreeSet] and comparing lengths performs. The printing and parsing of
    unsigned integers and binary64 values follow at the end. *)

From S2P Require Import Prelude.
From Stdlib Require Import SpecFloat.

(** ** Bytes *)

Definition byte_of (c : ascii) : N := N_of_ascii c.

Definition in_range (lo hi : N) (c : ascii) : bool :=
  (lo <=? byte_of c)%N && (byte_of c <=? hi)%N.

Definition is_ascii_lowercase (c : ascii) : bool := in_range 97 122 c.
Definition is_ascii_uppercase (c : ascii) : bool := in_range 65 90 c.
Definition is_ascii_digit (c : ascii) : bool := in_range 48 57 c.
Definition is_ascii_alphanumeric (c : ascii) : bool :=
  is_ascii_lowercase c || is_ascii_uppercase c || is_ascii_digit c.
Definition is_lower_hex_letter (c : ascii) : bool := in_range 97 102 c.

Definition is_byte (n : N) (c : ascii) : bool := (byte_of c =? n)%N.
Definition DASH : N := 45.
Definition COLON : N := 58.
Definition SLASH : N := 47.
Definition DOT : N := 46.
Definition UNDERSCORE : N := 95.

(** ** Strings as byte sequences *)

Definition len (s : string) : N := N.of_nat (String.length s).

Definition is_empty (s : string) : bool :=
  match s with EmptyString => true | String _ _ => false end.

(** [s.bytes().all(p)] *)
Fixpoint all_bytes (p : ascii → bool) (s : string) : bool :=
  match s with
  | EmptyString => true
  | String c s => p c && all_bytes p s
  end.

(** [s.bytes().any(p)] *)
Fixpoint any_byte (p : ascii → bool) (s : string) : bool :=
  match s with
  | EmptyString => false
  | String c s => p c || any_byte p s
  end.

Fixpoint starts_with (prefix s : string) : bool :=
  match prefix, s with
  | EmptyString, _ => true
  | String c p, String d s => bool_decide (c = d) && starts_with p s
  | String _ _, EmptyString => false
  end.

(** [s.contains(needle)] *)
Fixpoint contains (needle s : string) : bool :=
  starts_with needle s ||
  match s with EmptyString => false | String _ s => contains needle s end.

(** [s.split_once(c)] at the first occurrence of the byte [n]. *)
Fixpoint split_once (n : N) (s : string) : option (string * string) :=
  match s with
  | EmptyString => None
  | String c s' =>
      if is_byte n c then Some (EmptyString, s')
      else match split_once n s' with
           | Some (a, b) => Some (String c a, b)
           | None => None
           end
  end.

(** [s.rsplit_once(c)] at the last occurrence of the byte [n]. *)
Fixpoint rsplit_once (n : N) (s : string) : option (string * string) :=
  match s with
  | EmptyString => None
  | String c s' =>
      match rsplit_once n s' with
      | Some (a, b) => Some (String c a, b)
      | None => if is_byte n c then Some (EmptyString, s') else None
      end
  end.

(** [s.split_once(sep)] for a string separator. *)
Fixpoint strip_prefix (prefix s : string) : option string :=
  match prefix, s with
  | EmptyString, _ => Some s
  | String c p, String d s => if decide (c = d) then strip_prefix p s else None
  | String _ _, EmptyString => None
  end.

Fixpoint split_once_str (sep s : string) : option (string * string) :=
  match strip_prefix sep s with
  | Some rest => Some (EmptyString, rest)
  | None =>
      match s with
      | EmptyString => None
      | String c s' =>
          match split_once_str sep s' with
          | Some (a, b) => Some (String c a, b)
          | None => None
          end
      end
  end.

(** [s.split(c)]: the pieces between the occurrences of the byte [n]. *)
Fixpoint split_byte (n : N) (s : string) : list string :=
  match s with
  | EmptyString => [EmptyString]
  | String c s' =>
      match split_byte n s' with
      | piece :: pieces =>
          if is_byte n c then EmptyString :: piece :: pieces else String c piece :: pieces
      | [] => []
      end
  end.

Definition ends_with (suffix s : string) : bool :=
  let n := String.length s in
  let m := String.length suffix in
  (m <=? n)%nat && bool_decide (String.substring (n - m) m s = suffix).

Definition to_lower_byte (c : ascii) : ascii :=
  if is_ascii_uppercase c then ascii_of_N (byte_of c + 32) else c.

Fixpoint to_ascii_lowercase (s : string) : string :=
  match s with
  | EmptyString => EmptyString
  | String c s => String (to_lower_byte c) (to_ascii_lowercase s)
  end.

(** ** Character boundaries and truncation *)

(** A byte starts a character exactly when it is not a UTF-8 continuation byte. *)
Definition is_continuation (c : ascii) : bool := in_range 128 191 c.

Definition is_char_boundary (s : string) (i : N) : bool :=
  match String.get (N.to_nat i) s with
  | Some c => negb (is_continuation c)
  | None => (i =? len s)%N
  end.

(** [String::truncate]: [None] is the panic it raises off a character boundary. *)
Definition truncate (n : N) (s : string) : option string :=
  if (n <=? len s)%N then
    if is_char_boundary s n then Some (String.substring 0 (N.to_nat n) s) else None
  else Some s.

(** ** Unicode scalar values *)

Definition in_tail (n : N) : bool := (128 <=? n)%N && (n <=? 191)%N.

Definition is_scalar (n : N) : bool :=
  (n <? 55296)%N || ((57344 <=? n)%N && (n <=? 1114111)%N).

(** Decodes UTF-8; [None] for a byte sequence that is not well formed (a
    truncated, overlong or surrogate encoding), which no Rust [str] holds. *)
Fixpoint decode_utf8 (s : string) : option (list N) :=
  match s with
  | EmptyString => Some []
  | String a s1 =>
      let x := byte_of a in
      if (x <? 128)%N then cons x <$> decode_utf8 s1
      else match s1 with
      | EmptyString => None
      | String b s2 =>
          let y := byte_of b in
          if negb (in_tail y) then None
          else if (194 <=? x)%N && (x <? 224)%N then
            cons ((x - 192) * 64 + (y - 128))%N <$> decode_utf8 s2
          else match s2 with
          | EmptyString => None
          | String c s3 =>
              let z := byte_of c in
              if negb (in_tail z) then None
              else if (224 <=? x)%N && (x <? 240)%N then
                let n := ((x - 224) * 4096 + (y - 128) * 64 + (z - 128))%N in
                if (2048 <=? n)%N && is_scalar n then cons n <$> decode_utf8 s3 else None
              else match s3 with
              | EmptyString => None
              | String d s4 =>
                  let w := byte_of d in
                  let n := ((x - 240) * 262144 + (y - 128) * 4096 + (z - 128) * 64
                            + (w - 128))%N in
                  if in_tail w && (240 <=? x)%N && (65536 <=? n)%N && is_scalar n
                  then cons n <$> decode_utf8 s4 else None
              end
          end
      end
  end.

Definition utf8_valid (s : string) : bool :=
  match decode_utf8 s with Some _ => true | None => false end.

(** [str::chars] *)
Definition chars (s : string) : list N := default [] (decode_utf8 s).

Definition char_is_ascii_lowercase (n : N) : bool := (97 <=? n)%N && (n <=? 122)%N.
Definition char_is_ascii_digit (n : N) : bool := (48 <=? n)%N && (n <=? 57)%N.

(** [char::is_control]: the general category Cc. *)
Definition is_control (n : N) : bool :=
  (n <? 32)%N || ((127 <=? n)%N && (n <=? 159)%N).

(** ** Duplicates *)

(** [values.iter().collect::<BTreeSet<_>>().len() == values.len()] *)
Definition all_distinct {A} `{EqDecision A} (l : list A) : bool :=
  bool_decide (length (remove_dups l) = length l).

(** ** Lemmas *)

Lemma len_zero s : len s = 0%N ↔ s = EmptyString.
Proof. unfold len. destruct s; simpl; [done|]. split; [lia|done]. Qed.

Lemma string_app_assoc (a b c : string) : (a +:+ b) +:+ c = a +:+ (b +:+ c).
Proof.
  induction a as [|x a IH]; [done|].
  change (String x ((a +:+ b) +:+ c) = String x (a +:+ (b +:+ c))). by rewrite IH.
Qed.

Lemma string_app_nil (a : string) : a +:+ EmptyString = a.
Proof.
  induction a as [|x a IH]; [done|].
  change (String x (a +:+ EmptyString) = String x a). by rewrite IH.
Qed.

Lemma string_length_app (a b : string) :
  String.length (a +:+ b) = (String.length a + String.length b)%nat.
Proof.
  induction a as [|x a IH]; [done|].
  change (S (String.length (a +:+ b)) = S (String.length a + String.length b)). by rewrite IH.
Qed.

Lemma starts_with_app p s : starts_with p (p +:+ s) = true.
Proof.
  induction p as [|c p IH]; [by destruct s|].
  change (starts_with (String c p) (String c (p +:+ s)) = true). simpl.
  by rewrite bool_decide_eq_true_2.
Qed.

Lemma starts_with_app_app a p q : starts_with (a +:+ p) (a +:+ q) = starts_with p q.
Proof.
  induction a as [|c a IH]; [done|].
  change (starts_with (String c (a +:+ p)) (String c (a +:+ q)) = starts_with p q). simpl.
  by rewrite bool_decide_eq_true_2.
Qed.

Lemma string_app_inj_l (p a b : string) : p +:+ a = p +:+ b → a = b.
Proof.
  induction p as [|c p IH]; [done|]. intros Heq.
  change (String c (p +:+ a) = String c (p +:+ b)) in Heq. apply IH. congruence.
Qed.

Lemma string_app_inj_r (a b s : string) : a +:+ s = b +:+ s → a = b.
Proof.
  revert b. induction a as [|c a IH]; intros [|d b] Heq; [done|..].
  - apply (f_equal String.length) in Heq. rewrite !string_length_app in Heq. simpl in Heq. lia.
  - apply (f_equal String.length) in Heq. rewrite !string_length_app in Heq. simpl in Heq. lia.
  - change (String c (a +:+ s) = String d (b +:+ s)) in Heq. injection Heq as -> Heq.
    f_equal. by apply IH.
Qed.

Lemma is_empty_true s : is_empty s = true ↔ s = EmptyString.
Proof. by destruct s. Qed.

Lemma is_empty_false s : is_empty s = false ↔ s ≠ EmptyString.
Proof. by destruct s. Qed.

Lemma is_empty_len s : is_empty s = (len s =? 0)%N.
Proof. by destruct s. Qed.

Lemma all_bytes_impl (p q : ascii → bool) s :
  (∀ c, p c = true → q c = true) → all_bytes p s = true → all_bytes q s = true.
Proof. intros Hpq. induction s; simpl; intros; bool_to_prop; auto using andb_true_intro. Qed.

Lemma any_byte_false (p : ascii → bool) s :
  any_byte p s = false ↔ all_bytes (λ c, negb (p c)) s = true.
Proof.
  induction s as [|c s IH]; simpl; [done|].
  rewrite orb_false_iff, andb_true_iff, negb_true_iff. naive_solver.
Qed.

(** Every byte of [s] satisfies [p] exactly when the byte at each index does. *)
Lemma all_bytes_get (p : ascii → bool) s :
  all_bytes p s = true ↔ ∀ i c, String.get i s = Some c → p c = true.
Proof.
  induction s as [|d s IH]; simpl.
  - split; [by intros _ []|done].
  - rewrite andb_true_iff, IH. split.
    + intros [Hd Hs] [|i] c; simpl; [naive_solver|apply Hs].
    + intros H. split; [by apply (H 0)|]. intros i c. apply (H (S i)).
Qed.

Lemma get_None s i : String.get i s = None ↔ (String.length s ≤ i)%nat.
Proof.
  revert i. induction s as [|c s IH]; intros [|i]; simpl; try (split; [done|lia]).
  - split; [lia|done].
  - split; [lia|done].
  - rewrite IH. lia.
Qed.

Lemma substring_length n s :
  (n ≤ String.length s)%nat → String.length (String.substring 0 n s) = n.
Proof.
  revert n. induction s as [|c s IH]; intros [|n]; simpl; try lia.
  intros. rewrite IH; lia.
Qed.

Lemma truncate_short n s : (len s < n)%N → truncate n s = Some s.
Proof. intros. unfold truncate. by rewrite (proj2 (N.leb_gt _ _)). Qed.

Lemma truncate_exact s : truncate (len s) s = Some (String.substring 0 (String.length s) s).
Proof.
  unfold truncate. rewrite N.leb_refl. unfold is_char_boundary.
  rewrite (proj2 (get_None s (N.to_nat (len s)))); [|unfold len; lia].
  rewrite N.eqb_refl. unfold len. by rewrite Nat2N.id.
Qed.

Lemma substring_full s : String.substring 0 (String.length s) s = s.
Proof. induction s as [|c s IH]; simpl; [done|]. by rewrite IH. Qed.

(** A string no longer than the bound is left alone. *)
Lemma truncate_id n s : (len s ≤ n)%N → truncate n s = Some s.
Proof.
  intros H. destruct (decide (len s = n)) as [<-|].
  - by rewrite truncate_exact, substring_full.
  - apply truncate_short. lia.
Qed.

Lemma truncate_len n s t : truncate n s = Some t → (len t ≤ n)%N ∧ (len t ≤ len s)%N.
Proof.
  unfold truncate. repeat case_match; intros; simplify_eq; bool_to_prop.
  - unfold len in *. rewrite substring_length; lia.
  - lia.
Qed.

Lemma truncate_nonempty n s t :
  (0 < n)%N → s ≠ EmptyString → truncate n s = Some t → t ≠ EmptyString.
Proof.
  unfold truncate. intros Hn Hs. repeat case_match; intros; simplify_eq; [|done].
  bool_to_prop. rewrite <-len_zero. unfold len in *. rewrite substring_length; lia.
Qed.

(** Truncation panics exactly when the cut falls inside a character. *)
Lemma truncate_panics n s :
  truncate n s = None ↔ ∃ c, String.get (N.to_nat n) s = Some c ∧ is_continuation c = true.
Proof.
  unfold truncate, is_char_boundary. destruct (n <=? len s)%N eqn:Hn.
  - destruct (String.get (N.to_nat n) s) as [c|] eqn:Hc.
    + destruct (is_continuation c) eqn:Hcont; simpl.
      * split; [by exists c|done].
      * split; [done|]. intros (d & ? & ?). congruence.
    + apply get_None in Hc. bool_to_prop.
      rewrite (proj2 (N.eqb_eq _ _)); [|unfold len in *; lia].
      split; [done|]. by intros (d & ? & _).
  - bool_to_prop. split; [done|]. intros (c & Hc & _).
    rewrite (proj2 (get_None _ _)) in Hc; [done|]. unfold len in *. lia.
Qed.

Lemma remove_dups_length `{EqDecision A} (l : list A) :
  (length (remove_dups l) ≤ length l)%nat.
Proof. induction l; simpl; [lia|]. case_decide; simpl; lia. Qed.

Lemma all_distinct_NoDup `{EqDecision A} (l : list A) :
  all_distinct l = true ↔ NoDup l.
Proof.
  unfold all_distinct. rewrite bool_decide_eq_true.
  induction l as [|x l IH]; simpl; [split; [constructor|done]|].
  rewrite NoDup_cons. pose proof (remove_dups_length l).
  case_decide as Hx; simpl.
  - split; [lia|]. naive_solver.
  - rewrite <-IH. naive_solver.
Qed.

(** *** Characters and bytes *)

(** An ASCII byte always starts a one-byte character. *)
Lemma decode_utf8_ascii a s :
  (byte_of a < 128)%N → decode_utf8 (String a s) = cons (byte_of a) <$> decode_utf8 s.
Proof. intros H. simpl. by rewrite (proj2 (N.ltb_lt _ _) H). Qed.

(** A lead byte that is not ASCII decodes to a scalar value that is not ASCII. *)
Lemma decode_utf8_non_ascii a s ns :
  (128 ≤ byte_of a)%N → decode_utf8 (String a s) = Some ns →
  ∃ n ns', ns = n :: ns' ∧ (128 ≤ n)%N.
Proof.
  intros Ha. simpl. rewrite (proj2 (N.ltb_ge _ _) Ha).
  repeat case_match; try done; intros Hns; apply fmap_Some in Hns as (ns' & _ & ->);
    (do 2 eexists; split; [done|]); bool_to_prop; lia.
Qed.

(** A predicate on characters that holds only of ASCII characters holds of every
    character of a string exactly when it holds of every byte. *)
Lemma all_chars_bytes (p : N → bool) s :
  (∀ n, p n = true → (n < 128)%N) →
  utf8_valid s = true →
  forallb p (chars s) = all_bytes (λ c, p (byte_of c)) s.
Proof.
  intros Hp. unfold utf8_valid, chars. induction s as [|a s IH]; [done|].
  intros Hv. destruct (N.lt_ge_cases (byte_of a) 128) as [Ha|Ha].
  - rewrite decode_utf8_ascii in * by done.
    change (all_bytes _ (String a s)) with (p (byte_of a) && all_bytes (λ c, p (byte_of c)) s).
    destruct (decode_utf8 s); simpl in *; [|done]. f_equal. by apply IH.
  - destruct (decode_utf8 (String a s)) as [ns|] eqn:Hd; [|done].
    apply decode_utf8_non_ascii in Hd as (n & ns' & -> & Hn); [|done]. simpl.
    assert (p n = false) as -> by (apply not_true_iff_false; intros ?%Hp; lia).
    assert (p (byte_of a) = false) as -> by (apply not_true_iff_false; intros ?%Hp; lia).
    done.
Qed.

(** The first character of a string is the ASCII character [a] exactly when its
    first byte is. *)
Lemma head_char_byte (p : N → bool) s :
  (∀ n, p n = true → (n < 128)%N) →
  utf8_valid s = true →
  match chars s with [] => false | n :: _ => p n end =
  match s with EmptyString => false | String c _ => p (byte_of c) end.
Proof.
  intros Hp. unfold utf8_valid, chars. destruct s as [|a s]; [done|].
  destruct (N.lt_ge_cases (byte_of a) 128) as [Ha|Ha].
  - rewrite decode_utf8_ascii by done. by destruct (decode_utf8 s).
  - destruct (decode_utf8 (String a s)) as [ns|] eqn:Hd; [|done]. intros _.
    apply decode_utf8_non_ascii in Hd as (n & ns' & -> & Hn); [|done]. simpl.
    assert (p n = false) as -> by (apply not_true_iff_false; intros ?%Hp; lia).
    assert (p (byte_of a) = false) as -> by (apply not_true_iff_false; intros ?%Hp; lia).
    done.
Qed.

(** The characters after an ASCII first character are those of the remaining bytes. *)
Lemma tail_chars_ascii a s :
  (byte_of a < 128)%N → utf8_valid (String a s) = true →
  tail (chars (String a s)) = chars s ∧ utf8_valid s = true.
Proof.
  intros Ha. unfold utf8_valid, chars. rewrite decode_utf8_ascii by done.
  by destruct (decode_utf8 s).
Qed.

(** ** Decimal: printing and parsing unsigned integers

    [decimal] is Rust's [Display] for unsigned integers and [parse_uint] its
    [FromStr]: an optional [+] before at least one digit, and a value within the
    bound. *)

Definition digit_char (d : N) : ascii := ascii_of_N (48 + d).

(** The decimal digits of [n]; 20 digits hold every 64-bit value. *)
Fixpoint decimal_fuel (fuel : nat) (n : N) : string :=
  match fuel with
  | O => EmptyString
  | S fuel =>
      if (n <? 10)%N then String (digit_char n) EmptyString
      else decimal_fuel fuel (n / 10) +:+ String (digit_char (n mod 10)) EmptyString
  end.

Definition decimal (n : N) : string := decimal_fuel 20 n.

Fixpoint parse_digits (acc : N) (s : string) : option N :=
  match s with
  | EmptyString => Some acc
  | String c s =>
      if is_ascii_digit c then parse_digits (acc * 10 + (byte_of c - 48)) s else None
  end.

(** [str::parse] for an unsigned type with the largest value [max]. *)
Definition parse_uint (max : N) (s : string) : option N :=
  let s := match s with
           | String c (String _ _ as rest) => if is_byte 43 c then rest else s
           | _ => s
           end in
  if is_empty s then None
  else n ← parse_digits 0 s; if (n <=? max)%N then Some n else None.

(** ** Lemmas *)

Lemma digit_char_byte d : (d < 10)%N → byte_of (digit_char d) = (48 + d)%N.
Proof. intros. unfold digit_char, byte_of. apply N_ascii_embedding. lia. Qed.

Lemma digit_char_digit d : (d < 10)%N → is_ascii_digit (digit_char d) = true.
Proof.
  intros. unfold is_ascii_digit, in_range. rewrite digit_char_byte by done.
  apply andb_true_iff. rewrite !N.leb_le. lia.
Qed.

Lemma string_app_cons c (a b : string) : String c a +:+ b = String c (a +:+ b).
Proof. done. Qed.

Lemma all_bytes_app p (a b : string) : all_bytes p (a +:+ b) = all_bytes p a && all_bytes p b.
Proof.
  induction a as [|c a IH]; [done|]. rewrite string_app_cons. simpl. by rewrite IH, andb_assoc.
Qed.

Lemma parse_digits_app acc (a b : string) :
  parse_digits acc (a +:+ b) = n ← parse_digits acc a; parse_digits n b.
Proof.
  revert acc. induction a as [|c a IH]; intros acc; [done|]. rewrite string_app_cons. simpl.
  by case_match.
Qed.

Lemma decimal_fuel_spec fuel n :
  (n < 10 ^ N.of_nat fuel)%N → (0 < fuel)%nat →
  parse_digits 0 (decimal_fuel fuel n) = Some n ∧
  all_bytes is_ascii_digit (decimal_fuel fuel n) = true ∧
  decimal_fuel fuel n ≠ EmptyString.
Proof.
  revert n. induction fuel as [|fuel IH]; intros n Hn Hf; [lia|].
  cbn [decimal_fuel]. destruct (n <? 10)%N eqn:Hlt; bool_to_prop.
  - cbn [parse_digits all_bytes]. rewrite digit_char_digit, digit_char_byte by done. split_and!; [f_equal; lia|done|done].
  - assert (Hmod : (n mod 10 < 10)%N) by (apply N.mod_lt; lia).
    destruct fuel as [|fuel]; [simpl in Hn; lia|].
    destruct (IH (n / 10)%N) as (Hp & Ha & Hne); [|lia|].
    { rewrite Nat2N.inj_succ, N.pow_succ_r' in Hn. apply N.Div0.div_lt_upper_bound. done. }
    rewrite parse_digits_app, Hp, all_bytes_app, Ha. cbn [parse_digits all_bytes mbind option_bind andb].
    rewrite digit_char_digit, digit_char_byte by done. split_and!; [|done|].
    + apply (f_equal Some). pose proof (N.div_mod' n 10) as Hdm. revert Hdm Hmod.
      generalize (n / 10)%N (n mod 10)%N. intros q r -> ?. lia.
    + intros Heq. revert Hne. by destruct (decimal_fuel (S fuel) (n / 10)).
Qed.

Lemma decimal_spec n :
  (n ≤ u64_max)%N → parse_digits 0 (decimal n) = Some n ∧
  all_bytes is_ascii_digit (decimal n) = true ∧ decimal n ≠ EmptyString.
Proof.
  intros Hn. apply decimal_fuel_spec; [|lia]. unfold u64_max in Hn.
  replace (10 ^ N.of_nat 20)%N with 100000000000000000000%N by reflexivity. lia.
Qed.

(** Parsing what was printed gives the number back. *)
Lemma parse_uint_decimal max n :
  (n ≤ max)%N → (max ≤ u64_max)%N → parse_uint max (decimal n) = Some n.
Proof.
  intros Hn Hm. destruct (decimal_spec n) as (Hp & Ha & Hne); [lia|].
  unfold parse_uint. destruct (decimal n) as [|c s] eqn:Hd; [done|].
  assert (is_byte 43 c = false) as Hplus.
  { simpl in Ha. bool_to_prop. unfold is_ascii_digit, in_range, is_byte in *. bool_to_prop.
    apply N.eqb_neq. lia. }
  assert (match s with EmptyString => String c s | String _ _ =>
            if is_byte 43 c then s else String c s end = String c s) as ->
    by (rewrite Hplus; by destruct s).
  simpl is_empty. cbv iota. rewrite Hp. simpl. by rewrite (proj2 (N.leb_le _ _) Hn).
Qed.

Lemma parse_uint_bound max s n : parse_uint max s = Some n → (n ≤ max)%N.
Proof.
  unfold parse_uint. cbv zeta. destruct (is_empty _); [done|].
  intros (m & _ & Hm)%bind_Some. destruct (m <=? max)%N eqn:Hle; simplify_eq.
  by apply N.leb_le.
Qed.

(** ** Float: IEEE 754 binary64 values

    Rust's [f64] in the representation of the standard library's [SpecFloat];
    comparisons follow IEEE 754, so every comparison with a NaN is false. *)

Definition f64 : Type := spec_float.

#[export] Instance f64_eq_dec : EqDecision f64.
Proof. unfold f64. solve_decision. Defined.

Definition f64_le (a b : f64) : bool := SFleb a b.
Definition is_nan (a : f64) : bool := match a with S754_nan => true | _ => false end.

(** [f64::is_finite] *)
Definition is_finite (a : f64) : bool :=
  match a with S754_nan | S754_infinity _ => false | _ => true end.

Definition f64_zero : f64 := S754_zero false.
Definition f64_one : f64 := S754_finite false 4503599627370496 (-52).
(** The double nearest to 0.85. *)
Definition f64_085 : f64 := S754_finite false 7656119366529843 (-53).

(** [(0.0..=1.0).contains(&x)] *)
Definition in_unit_interval (x : f64) : bool := f64_le f64_zero x && f64_le x f64_one.

(** [z as f64]: rounding to nearest, ties to even. *)
Definition f64_of_Z (z : Z) : f64 := binary_normalize 53 1024 z 0 false.
