(* ===== verification/BTree.v ===== *)
(** * BTree: [BTreeMap<String, V>] and [BTreeSet<String>]

    The workbench keeps its configuration, its policy layers and its JSON
    objects in B-tree maps, and iterates over them: the first offending key in
    key order decides which error a validation reports. A map is therefore the
    list of its entries in strictly increasing byte order of the keys, [bt_wf]
    states that order, and every operation here preserves it. Two well-formed
    maps with the same lookups are equal ([bt_ext]). *)

From Stdlib Require Import Sorting.Sorted.
From S2P Require Import Prelude Text.

(** ** The byte-lexicographic order of strings *)

Definition str_lt (a b : string) : Prop := String.compare a b = Lt.

Lemma str_compare_refl a : String.compare a a = Eq.
Proof.
  induction a as [|c a IH]; simpl; [done|].
  unfold Ascii.compare. by rewrite N.compare_refl.
Qed.

Lemma str_compare_Eq a b : String.compare a b = Eq ↔ a = b.
Proof. split; [apply String.compare_eq_iff|intros ->; apply str_compare_refl]. Qed.

Lemma str_compare_Gt a b : String.compare a b = Gt ↔ str_lt b a.
Proof.
  unfold str_lt. rewrite String.compare_antisym.
  destruct (String.compare b a); simpl; naive_solver.
Qed.

#[export] Instance str_lt_dec : RelDecision str_lt.
Proof. unfold str_lt. solve_decision. Defined.

#[export] Instance str_lt_strict : StrictOrder str_lt.
Proof.
  split.
  - intros a. unfold complement, str_lt. by rewrite str_compare_refl.
  - unfold str_lt. intros a. induction a as [|c a IH]; intros [|d b] [|e z]; simpl; try done.
    unfold Ascii.compare.
    destruct (N.compare_spec (N_of_ascii c) (N_of_ascii d)) as [H1|H1|H1]; try done;
      destruct (N.compare_spec (N_of_ascii d) (N_of_ascii e)) as [H2|H2|H2]; try done; intros.
    + rewrite H1, H2, N.compare_refl. eauto.
    + by rewrite (proj2 (N.compare_lt_iff _ _)) by lia.
    + by rewrite (proj2 (N.compare_lt_iff _ _)) by lia.
    + by rewrite (proj2 (N.compare_lt_iff _ _)) by lia.
Qed.

Lemma str_lt_irrefl a : ¬ str_lt a a.
Proof. apply irreflexivity. apply _. Qed.

Lemma str_lt_ne a b : str_lt a b → a ≠ b.
Proof. intros H ->. by apply str_lt_irrefl in H. Qed.

#[export] Hint Resolve str_lt_irrefl str_lt_ne : workbench.

(** ** Maps *)

Definition BTreeMap (V : Type) : Type := list (string * V).

Section btree.
Context {V : Type}.
Implicit Types (m : BTreeMap V) (k : string) (v : V).

(** [BTreeMap::get] *)
Fixpoint bt_get (k : string) (m : BTreeMap V) : option V :=
  match m with
  | [] => None
  | (k', v) :: m => if decide (k = k') then Some v else bt_get k m
  end.

(** [BTreeMap::insert] *)
Fixpoint bt_insert (k : string) (v : V) (m : BTreeMap V) : BTreeMap V :=
  match m with
  | [] => [(k, v)]
  | (k', v') :: m' =>
      match String.compare k k' with
      | Lt => (k, v) :: m
      | Eq => (k, v) :: m'
      | Gt => (k', v') :: bt_insert k v m'
      end
  end.

Definition bt_contains_key (k : string) (m : BTreeMap V) : bool :=
  match bt_get k m with Some _ => true | None => false end.

Definition bt_keys (m : BTreeMap V) : list string := m.*1.

Definition bt_is_empty (m : BTreeMap V) : bool :=
  match m with [] => true | _ => false end.

(** Collecting an iterator of entries: later entries replace earlier ones. *)
Definition bt_from_list (l : list (string * V)) : BTreeMap V :=
  foldl (λ m kv, bt_insert kv.1 kv.2 m) [] l.

(** The entries are in strictly increasing key order. *)
Definition bt_wf (m : BTreeMap V) : Prop := StronglySorted str_lt (bt_keys m).

Fixpoint keys_sorted (ks : list string) : bool :=
  match ks with
  | a :: (b :: _) as ks' => bool_decide (str_lt a b) && keys_sorted ks'
  | _ => true
  end.

(** *** Lookup *)

Lemma bt_get_In k v m : bt_get k m = Some v → (k, v) ∈ m.
Proof.
  induction m as [|[k' v'] m IH]; simpl; [done|].
  case_decide; intros; simplify_eq; [left|right; auto].
Qed.

Lemma bt_get_None k m : bt_get k m = None ↔ k ∉ bt_keys m.
Proof.
  unfold bt_keys. induction m as [|[k' v'] m IH]; simpl.
  - split; [intros _ ?%elem_of_nil|]; done.
  - case_decide; subst.
    + split; [done|]. intros []. left.
    + rewrite IH, not_elem_of_cons. naive_solver.
Qed.

Lemma bt_contains_key_true k m :
  bt_contains_key k m = true ↔ ∃ v, bt_get k m = Some v.
Proof. unfold bt_contains_key. destruct (bt_get k m); naive_solver. Qed.

Lemma bt_wf_cons k v m :
  bt_wf ((k, v) :: m) ↔ bt_wf m ∧ Forall (str_lt k) (bt_keys m).
Proof.
  unfold bt_wf. simpl. split.
  - inversion 1; subst. split; [done|]. apply Forall_forall. intros x Hx.
    by eapply List.Forall_forall; [|apply list_elem_of_In].
  - intros [? HF]. constructor; [done|]. apply List.Forall_forall. intros x Hx.
    rewrite Forall_forall in HF. apply HF. by apply list_elem_of_In.
Qed.

Lemma bt_get_below k m : Forall (str_lt k) (bt_keys m) → bt_get k m = None.
Proof.
  intros H. apply bt_get_None. intros Hk.
  rewrite Forall_forall in H. by apply H, str_lt_irrefl in Hk.
Qed.

Lemma bt_In_get k v m : bt_wf m → (k, v) ∈ m → bt_get k m = Some v.
Proof.
  induction m as [|[k' v'] m IH]; simpl; [by intros _ ?%elem_of_nil|].
  intros [Hm Hk]%bt_wf_cons [?|Hin]%elem_of_cons; simplify_eq.
  - by rewrite decide_True.
  - rewrite decide_False; [auto|]. rewrite Forall_forall in Hk.
    intros ->. apply (str_lt_irrefl k'), Hk.
    apply list_elem_of_fmap. by exists (k', v).
Qed.

(** *** Insertion *)

Lemma bt_get_insert_eq k v m : bt_get k (bt_insert k v m) = Some v.
Proof.
  induction m as [|[k' v'] m IH]; simpl; [by rewrite decide_True|].
  destruct (String.compare k k') eqn:Hc; simpl; [by rewrite decide_True..|].
  apply str_compare_Gt in Hc. rewrite decide_False; [done|].
  intros ->. by apply str_lt_irrefl in Hc.
Qed.

Lemma bt_get_insert_ne k k' v m :
  k ≠ k' → bt_get k' (bt_insert k v m) = bt_get k' m.
Proof.
  intros Hne. induction m as [|[k2 v2] m IH]; simpl; [by rewrite decide_False|].
  destruct (String.compare k k2) eqn:Hc; simpl.
  - apply str_compare_Eq in Hc as <-. by rewrite !decide_False.
  - by rewrite decide_False.
  - by rewrite IH.
Qed.

Lemma bt_get_insert k k' v m :
  bt_get k' (bt_insert k v m) = if decide (k = k') then Some v else bt_get k' m.
Proof.
  case_decide; subst; [apply bt_get_insert_eq|by apply bt_get_insert_ne].
Qed.

Lemma bt_keys_insert_Forall (P : string → Prop) k v m :
  P k → Forall P (bt_keys m) → Forall P (bt_keys (bt_insert k v m)).
Proof.
  intros Hk. induction m as [|[k' v'] m IH]; simpl; [by repeat constructor|].
  intros [Hk' Hm]%Forall_cons.
  destruct (String.compare k k'); simpl; repeat constructor; auto.
Qed.

Lemma bt_insert_wf k v m : bt_wf m → bt_wf (bt_insert k v m).
Proof.
  induction m as [|[k' v'] m IH]; simpl.
  - intros _. apply bt_wf_cons. repeat constructor.
  - intros Hwf. pose proof Hwf as [Hm Hk]%bt_wf_cons.
    destruct (String.compare k k') eqn:Hc.
    + apply str_compare_Eq in Hc as <-. by apply bt_wf_cons.
    + apply bt_wf_cons. split; [done|]. simpl. constructor; [done|].
      eapply Forall_impl; [done|]. intros x Hx. by transitivity k'.
    + apply str_compare_Gt in Hc. apply bt_wf_cons. split; [auto|].
      by apply bt_keys_insert_Forall.
Qed.

Lemma bt_empty_wf : bt_wf [].
Proof. constructor. Qed.

Lemma bt_from_list_wf l : bt_wf (bt_from_list l).
Proof.
  unfold bt_from_list. assert (H : bt_wf ([] : BTreeMap V)) by apply bt_empty_wf.
  revert H. generalize ([] : BTreeMap V). induction l as [|[k v] l IH]; simpl; auto.
  intros m Hm. apply IH. by apply bt_insert_wf.
Qed.

(** *** Extensionality *)

Lemma bt_ext m1 m2 :
  bt_wf m1 → bt_wf m2 → (∀ k, bt_get k m1 = bt_get k m2) → m1 = m2.
Proof.
  revert m2. induction m1 as [|[k1 v1] m1 IH]; intros [|[k2 v2] m2] Hw1 Hw2 Heq.
  - done.
  - specialize (Heq k2). simpl in Heq. by rewrite decide_True in Heq.
  - specialize (Heq k1). simpl in Heq. by rewrite decide_True in Heq.
  - apply bt_wf_cons in Hw1 as [Hw1 Hk1], Hw2 as [Hw2 Hk2].
    assert (k1 = k2) as <-.
    { destruct (String.compare k1 k2) eqn:Hc.
      - by apply str_compare_Eq.
      - exfalso. pose proof (Heq k1) as H. simpl in H.
        rewrite decide_True, decide_False in H by (done || by apply str_lt_ne).
        rewrite bt_get_below in H; [done|].
        eapply Forall_impl; [done|]. intros x Hx. by transitivity k2.
      - apply str_compare_Gt in Hc. exfalso. pose proof (Heq k2) as H. simpl in H.
        rewrite decide_False, decide_True in H by (done || by apply str_lt_ne).
        rewrite bt_get_below in H; [done|].
        eapply Forall_impl; [done|]. intros x Hx. by transitivity k1. }
    pose proof (Heq k1) as H. simpl in H. rewrite !decide_True in H by done.
    simplify_eq. f_equal. apply IH; [done..|]. intros k.
    destruct (decide (k = k1)) as [->|Hne].
    + by rewrite !bt_get_below.
    + specialize (Heq k). simpl in Heq. by rewrite !decide_False in Heq.
Qed.

Lemma bt_insert_id k v m : bt_wf m → bt_get k m = Some v → bt_insert k v m = m.
Proof.
  intros Hwf Hk. apply bt_ext; auto using bt_insert_wf. intros k'.
  rewrite bt_get_insert. by case_decide; subst.
Qed.

Lemma bt_insert_last k v m :
  Forall (λ k', str_lt k' k) (bt_keys m) → bt_insert k v m = m ++ [(k, v)].
Proof.
  induction m as [|[k' v'] m IH]; simpl; [done|]. intros [Hk Hm]%Forall_cons.
  rewrite (proj2 (str_compare_Gt k k') Hk). by rewrite IH.
Qed.

Lemma bt_wf_snoc k v m :
  bt_wf (m ++ [(k, v)]) → bt_wf m ∧ Forall (λ k', str_lt k' k) (bt_keys m).
Proof.
  induction m as [|[k' v'] m IH]; simpl; [by split; [constructor|]|].
  intros [Hm Hk]%bt_wf_cons. destruct (IH Hm) as [Hwf Hlt].
  unfold bt_keys in Hk. rewrite fmap_app, Forall_app in Hk. destruct Hk as [Hk Hk1].
  simpl in Hk1. rewrite Forall_singleton in Hk1.
  split; [apply bt_wf_cons|constructor]; tauto.
Qed.

(** Collecting entries that are already in key order keeps them as they are. *)
Lemma bt_from_list_id m : bt_wf m → bt_from_list m = m.
Proof.
  induction m as [|[k v] m IH] using rev_ind; [done|].
  intros [Hm Hk]%bt_wf_snoc. unfold bt_from_list in *. rewrite foldl_app, (IH Hm). simpl.
  by apply bt_insert_last.
Qed.

Lemma keys_sorted_wf m : keys_sorted (bt_keys m) = true → bt_wf m.
Proof.
  unfold bt_wf. generalize (bt_keys m). intros ks H.
  apply Sorted_StronglySorted; [intros ???; apply transitivity|].
  induction ks as [|a ks IH]; [constructor|].
  destruct ks as [|b ks]; [repeat constructor|].
  simpl in H. bool_to_prop. constructor; [auto|]. by constructor.
Qed.
End btree.

#[export] Hint Resolve bt_insert_wf bt_empty_wf bt_from_list_wf : workbench.

(** ** Sets: the keys of a map to [unit] *)

(** [BTreeSet<&str>] is represented by the list it was collected from where only
    membership is asked, and by [all_distinct] where its length is compared. *)
Definition set_contains (k : string) (l : list string) : bool := bool_decide (k ∈ l).

Lemma set_contains_true k l : set_contains k l = true ↔ k ∈ l.
Proof. apply bool_decide_eq_true. Qed.
