(* ===== verification/Errors.v ===== *)
(** * Errors: stable, redacted domain failures (workbench-core/src/error.rs)

    [CoreError::new(category, message)] is the only way the domain code builds a
    failure, and the fresh correlation identifier it draws is never inspected. A
    failing operation therefore returns the pair of arguments, [new_error], and
    [with_retryability] is the constructor itself, with the fresh identifier as
    an argument and [None] for the panic of [String::truncate]. *)

From S2P Require Import Prelude Text.

(** Identifiers (identity.rs) are 128-bit UUIDs compared for equality only; the
    generator is the uuid crate's, so fresh identifiers are arguments. *)
Definition Uuid : Type := N.

(** The closed error taxonomy exposed by protocol version 1. *)
Inductive FailureCategory : Type :=
| FC_InvalidRequest | FC_UnsupportedVersion | FC_FrameTooLarge | FC_UnauthorizedPeer
| FC_SessionNotFound | FC_InvalidTransition | FC_CapabilityUnavailable
| FC_PolicyDenied | FC_ApprovalRequired | FC_ProviderUnavailable
| FC_ProviderTimeout | FC_OutcomeUnknown | FC_ClientLagged
| FC_StorageUnavailable | FC_KeyStoreUnavailable | FC_Internal.

#[export] Instance FailureCategory_eq_dec : EqDecision FailureCategory.
Proof. solve_decision. Defined.

(** Whether a caller may retry when no external attempt has started. *)
Definition conditionally_retryable (c : FailureCategory) : bool :=
  match c with
  | FC_ProviderUnavailable | FC_ProviderTimeout | FC_StorageUnavailable
  | FC_ClientLagged => true
  | _ => false
  end.

(** The arguments of one call of [CoreError::new]. *)
Record NewError : Type := new_error {
  ne_category : FailureCategory;
  ne_message : string;
}.

#[export] Instance NewError_eq_dec : EqDecision NewError.
Proof. solve_decision. Defined.

(** A user-safe failure with a stable category and fresh correlation ID. *)
Record CoreError : Type := {
  category : FailureCategory;
  message : string;
  retryable : bool;
  correlation_id : Uuid;
}.

Definition MAX_MESSAGE_BYTES : N := 512.

(** [CoreError::with_retryability]; [None] is a panic. *)
Definition with_retryability (c : FailureCategory) (m : string)
    (requested_retryable : bool) (fresh : Uuid) : option CoreError :=
  let m := if is_empty m then "operation failed" else m in
  m ← truncate MAX_MESSAGE_BYTES m;
  Some {| category := c;
          message := m;
          retryable := requested_retryable && conditionally_retryable c;
          correlation_id := fresh |}.

(** [CoreError::new] *)
Definition CoreError_new (e : NewError) (fresh : Uuid) : option CoreError :=
  with_retryability (ne_category e) (ne_message e) false fresh.

(** ** Lemmas *)

(** A message within the bound is kept as it is. *)
Lemma CoreError_new_short c m fresh :
  m ≠ EmptyString → (len m ≤ MAX_MESSAGE_BYTES)%N →
  CoreError_new (new_error c m) fresh =
  Some {| category := c; message := m; retryable := false; correlation_id := fresh |}.
Proof.
  intros Hm Hl. unfold CoreError_new, with_retryability. simpl.
  rewrite (proj2 (is_empty_false m) Hm). by rewrite truncate_id.
Qed.

(** ** Properties *)

(** A failure that is built carries a message of 1 to 512 bytes, and is
    retryable exactly when a retry was requested for one of the four
    availability categories. *)
Theorem with_retryability_bounded c m r fresh e :
  with_retryability c m r fresh = Some e →
  (1 ≤ len (message e) ≤ MAX_MESSAGE_BYTES)%N ∧
  category e = c ∧
  (retryable e = true ↔
   r = true ∧ c ∈ [FC_ProviderUnavailable; FC_ProviderTimeout;
                   FC_StorageUnavailable; FC_ClientLagged]).
Proof.
  unfold with_retryability. intros H. apply bind_Some in H as (t & Ht & [= <-]). simpl.
  assert (t ≠ EmptyString).
  { eapply truncate_nonempty; [|..|exact Ht]; [done|]. by destruct m. }
  apply truncate_len in Ht as [Ht _]. rewrite <-len_zero in *.
  split_and!; [lia|done|done|].
  destruct c, r; simpl; split; try done; set_solver.
Qed.

Lemma with_retryability_bounded_witness :
  (1 ≤ len (message {| category := FC_PolicyDenied; message := "operation failed";
                       retryable := false; correlation_id := 7%N |}) ≤ MAX_MESSAGE_BYTES)%N.
Proof.
  apply (with_retryability_bounded FC_PolicyDenied EmptyString true 7%N). reflexivity.
Defined.

(** Building a failure panics exactly when byte 512 of the message is a UTF-8
    continuation byte: the bound is applied to bytes, not to characters. *)
Theorem with_retryability_panics c m r fresh :
  with_retryability c m r fresh = None ↔
  ∃ b, String.get 512 m = Some b ∧ is_continuation b = true.
Proof.
  unfold with_retryability. rewrite bind_None.
  assert (Hm : ∀ t, truncate MAX_MESSAGE_BYTES t = None ↔
      ∃ b, String.get 512 t = Some b ∧ is_continuation b = true)
    by (intros; apply truncate_panics).
  destruct m as [|a m]; simpl is_empty; cbn iota.
  - rewrite Hm. split; [|by intros (b & ? & _)].
    intros [(b & Hb & _)|(? & ? & ?)]; by vm_compute in Hb || done.
  - rewrite Hm. split; [intros [?|(? & ? & ?)]|by left]; done.
Qed.
