(* ===== verification/Value.v ===== *)
(** * Value: validated scalar value objects (workbench-core/src/value.rs)

    Sequences, replay cursors, content hashes, configuration identifiers and
    non-empty text. A newtype over [String] is the string itself; its parser is
    the only constructor, and the theorems say what it lets through. *)

From S2P Require Import Prelude Text Errors.

(** ** Sequences and cursors *)

(** A [NonZeroU64]. *)
Definition Sequence : Type := N.

Definition Sequence_ok (s : Sequence) : Prop := (0 < s ≤ u64_max)%N.

(** [NonZeroU64::new] *)
Definition nonzero (n : N) : option N := if (n =? 0)%N then None else Some n.

Definition Sequence_FIRST : Sequence := 1%N.

Definition Sequence_new (value : N) : Result Sequence NewError :=
  ok_or (nonzero value)
    (new_error FC_InvalidRequest "session sequence must be greater than zero").

(** [Sequence::checked_next] *)
Definition checked_next (s : Sequence) : Result Sequence NewError :=
  ok_or (n ← checked_add u64_max s 1; nonzero n)
    (new_error FC_Internal "session sequence is exhausted").

(** Zero means replay from the beginning. *)
Definition Cursor : Type := N.
Definition Cursor_after (sequence : N) : Cursor := sequence.

(** ** Content hashes *)

Definition ContentHash : Type := string.

Definition is_digest (value : string) : bool :=
  (len value =? 64)%N && all_bytes (λ b, is_ascii_digit b || is_lower_hex_letter b) value.

Definition ContentHash_parse (value : string) : Result ContentHash NewError :=
  if is_digest value then Ok value
  else Err (new_error FC_InvalidRequest
              "content hash must be 64 lowercase hexadecimal characters").

(** ** Identifiers *)

(** [RoleId], [ModelAlias], [ProviderId], [ToolId], [DataSourceId] and
    [WorkflowId] are the six instances of the [identifier!] macro. *)
Definition Identifier : Type := string.
Definition RoleId : Type := Identifier.
Definition ModelAlias : Type := Identifier.
Definition ProviderId : Type := Identifier.
Definition ToolId : Type := Identifier.
Definition DataSourceId : Type := Identifier.
Definition WorkflowId : Type := Identifier.

Definition identifier_byte (b : ascii) : bool :=
  is_ascii_lowercase b || is_ascii_digit b || is_byte DASH b.

(** The body of the macro's [parse]. *)
Definition identifier_valid (value : string) : bool :=
  match value with
  | EmptyString => false
  | String first rest => is_ascii_lowercase first && all_bytes identifier_byte rest
  end && (len value <=? 63)%N.

Definition Identifier_parse (value : string) : Result Identifier NewError :=
  if identifier_valid value then Ok value
  else Err (new_error FC_InvalidRequest "identifier must match ^[a-z][a-z0-9-]{0,62}$").

(** ** Non-empty text *)

Definition NonEmptyText : Type := string.

Definition NonEmptyText_parse (value : string) : Result NonEmptyText NewError :=
  if is_empty value then Err (new_error FC_InvalidRequest "text must not be empty")
  else Ok value.

(** ** Lemmas *)

Lemma NonEmptyText_parse_Ok v t : NonEmptyText_parse v = Ok t ↔ t = v ∧ v ≠ EmptyString.
Proof. unfold NonEmptyText_parse. destruct v; simpl; naive_solver. Qed.

Lemma Identifier_parse_Ok v t : Identifier_parse v = Ok t ↔ t = v ∧ identifier_valid v = true.
Proof. unfold Identifier_parse. destruct (identifier_valid v); naive_solver. Qed.

Lemma ContentHash_parse_Ok v t : ContentHash_parse v = Ok t ↔ t = v ∧ is_digest v = true.
Proof. unfold ContentHash_parse. destruct (is_digest v); naive_solver. Qed.

Lemma checked_next_Ok s t : checked_next s = Ok t ↔ t = (s + 1)%N ∧ (s < u64_max)%N.
Proof.
  unfold checked_next, checked_add, nonzero. destruct (s + 1 <=? u64_max)%N eqn:H; simpl.
  - rewrite (proj2 (N.eqb_neq _ _)) by lia. simpl. bool_to_prop.
    split; [intros [= <-]; lia|]. by intros [-> _].
  - bool_to_prop. split; [done|lia].
Qed.


(** ** Properties *)

(** The pattern the error message of the identifier parser promises, stated on
    byte positions. *)
Definition identifier_pattern (s : string) : Prop :=
  (1 ≤ String.length s ≤ 63)%nat ∧
  (∀ b, String.get 0 s = Some b → is_ascii_lowercase b = true) ∧
  (∀ i b, String.get (S i) s = Some b →
     is_ascii_lowercase b = true ∨ is_ascii_digit b = true ∨ b = "-"%char).

Lemma identifier_byte_iff b :
  identifier_byte b = true ↔
  is_ascii_lowercase b = true ∨ is_ascii_digit b = true ∨ b = "-"%char.
Proof.
  unfold identifier_byte, is_byte, DASH, byte_of. rewrite !orb_true_iff, N.eqb_eq.
  split; intros [[]|]; auto.
  - right; right. rewrite <-(ascii_N_embedding b). by rewrite H.
  - naive_solver.
Qed.

(** The identifier parser accepts exactly the documented pattern and returns its
    argument unchanged. *)
Theorem Identifier_parse_pattern v t :
  Identifier_parse v = Ok t ↔ t = v ∧ identifier_pattern v.
Proof.
  rewrite Identifier_parse_Ok. unfold identifier_valid, identifier_pattern.
  apply and_iff_compat_l. rewrite andb_true_iff, N.leb_le. unfold len.
  destruct v as [|a v]; simpl; [split; [by intros []|lia]|].
  rewrite andb_true_iff, all_bytes_get. setoid_rewrite identifier_byte_iff.
  split.
  - intros [[Ha Hv] Hl]. split_and!; [lia|lia|naive_solver|done].
  - intros (Hl & Ha & Hv). split_and!; [by apply Ha|done|lia].
Qed.
