(* ===== verification/Attempt.v ===== *)
(** * Attempt: external side-effect attempts (workbench-core/src/attempt.rs)

    An attempt is a planned external operation and its durable progress. The
    [&mut self] operations are state passing: each returns the attempt it leaves
    behind together with its result. [run] executes a sequence of operations,
    failed ones included, and the theorems about the lifecycle are stated for
    every such sequence. *)

From S2P Require Import Prelude Text Errors.

Inductive EffectClass : Type :=
| EF_None | EF_IdempotentRead | EF_IdempotentWrite | EF_PaidInference
| EF_NonIdempotentWrite | EF_Production | EF_Credential.

#[export] Instance EffectClass_eq_dec : EqDecision EffectClass.
Proof. solve_decision. Defined.

Record OperationPolicy : Type := {
  effect_class : EffectClass;
  explicitly_idempotent : bool;
  material_cost : bool;
}.

#[export] Instance OperationPolicy_eq_dec : EqDecision OperationPolicy.
Proof. solve_decision. Defined.

Definition forbidden_idempotency (e : EffectClass) : bool :=
  match e with
  | EF_PaidInference | EF_NonIdempotentWrite | EF_Production | EF_Credential => true
  | _ => false
  end.

(** [OperationPolicy::validate] *)
Definition OperationPolicy_validate (p : OperationPolicy) : Result unit NewError :=
  reject_if (explicitly_idempotent p && forbidden_idempotency (effect_class p))
    (new_error FC_InvalidRequest "effect class cannot be declared idempotent").

(** [OperationPolicy::permits_automatic_retry] *)
Definition permits_automatic_retry (p : OperationPolicy) : bool :=
  match effect_class p with EF_IdempotentRead => true | _ => false end
  && explicitly_idempotent p && negb (material_cost p).

Inductive AttemptProgress : Type :=
| AP_Planned | AP_Started | AP_Acknowledged | AP_Completed | AP_Failed
| AP_OutcomeUnknown | AP_Abandoned.

#[export] Instance AttemptProgress_eq_dec : EqDecision AttemptProgress.
Proof. solve_decision. Defined.

Definition is_definite_terminal (p : AttemptProgress) : bool :=
  match p with AP_Completed | AP_Failed | AP_Abandoned => true | _ => false end.

Definition dispatch_started (p : AttemptProgress) : bool :=
  match p with AP_Planned => false | _ => true end.

Record Attempt : Type := {
  at_id : Uuid;
  at_operation : string;
  at_policy : OperationPolicy;
  at_progress : AttemptProgress;
  at_predecessor : option Uuid;
}.

#[export] Instance Attempt_eq_dec : EqDecision Attempt.
Proof. solve_decision. Defined.

Definition set_progress (a : Attempt) (p : AttemptProgress) : Attempt :=
  {| at_id := at_id a; at_operation := at_operation a; at_policy := at_policy a;
     at_progress := p; at_predecessor := at_predecessor a |}.

Definition set_predecessor (a : Attempt) (p : option Uuid) : Attempt :=
  {| at_id := at_id a; at_operation := at_operation a; at_policy := at_policy a;
     at_progress := at_progress a; at_predecessor := p |}.

(** [Attempt::plan], with the identifier [AttemptId::new] draws as an argument. *)
Definition plan (operation : string) (policy : OperationPolicy) (fresh : Uuid)
    : Result Attempt NewError :=
  let? _ := OperationPolicy_validate policy in
  let? _ := reject_if (is_empty operation)
              (new_error FC_InvalidRequest "operation must not be empty") in
  Ok {| at_id := fresh; at_operation := operation; at_policy := policy;
        at_progress := AP_Planned; at_predecessor := None |}.

Definition invalid_attempt_transition : NewError :=
  new_error FC_InvalidTransition "attempt transition is not allowed".

Definition advance (expected next : AttemptProgress) (a : Attempt)
    : Attempt * Result unit NewError :=
  if decide (at_progress a = expected) then (set_progress a next, Ok tt)
  else (a, Err invalid_attempt_transition).

Definition mark_started : Attempt → Attempt * Result unit NewError :=
  advance AP_Planned AP_Started.

Definition mark_acknowledged : Attempt → Attempt * Result unit NewError :=
  advance AP_Started AP_Acknowledged.

Definition mark_completed (a : Attempt) : Attempt * Result unit NewError :=
  match at_progress a with
  | AP_Started | AP_Acknowledged => (set_progress a AP_Completed, Ok tt)
  | _ => (a, Err invalid_attempt_transition)
  end.

Definition mark_failed (a : Attempt) : Attempt * Result unit NewError :=
  match at_progress a with
  | AP_Planned | AP_Started | AP_Acknowledged => (set_progress a AP_Failed, Ok tt)
  | _ => (a, Err invalid_attempt_transition)
  end.

Definition mark_outcome_unknown (a : Attempt) : Attempt * Result unit NewError :=
  match at_progress a with
  | AP_Started | AP_Acknowledged => (set_progress a AP_OutcomeUnknown, Ok tt)
  | _ => (a, Err invalid_attempt_transition)
  end.

(** Conservative crash recovery. *)
Definition recover (a : Attempt) : Attempt :=
  match at_progress a with
  | AP_Started | AP_Acknowledged => set_progress a AP_OutcomeUnknown
  | _ => a
  end.

Definition may_retry_automatically (a : Attempt) : bool :=
  bool_decide (at_progress a = AP_Planned) && permits_automatic_retry (at_policy a).

Inductive ReconciliationResolution : Type := RR_Retry | RR_AcceptResult | RR_Abandon.

#[export] Instance ReconciliationResolution_eq_dec : EqDecision ReconciliationResolution.
Proof. solve_decision. Defined.

Inductive ReconciliationOutcome : Type :=
| RO_Retry (replacement : Attempt)
| RO_Accepted
| RO_Abandoned.

Definition reconcile (a : Attempt) (resolution : ReconciliationResolution) (fresh : Uuid)
    : Attempt * Result ReconciliationOutcome NewError :=
  if decide (at_progress a ≠ AP_OutcomeUnknown) then (a, Err invalid_attempt_transition)
  else match resolution with
  | RR_Retry =>
      (a, let? replacement := plan (at_operation a) (at_policy a) fresh in
          Ok (RO_Retry (set_predecessor replacement (Some (at_id a)))))
  | RR_AcceptResult => (set_progress a AP_Completed, Ok RO_Accepted)
  | RR_Abandon => (set_progress a AP_Abandoned, Ok RO_Abandoned)
  end.

(** ** Sequences of operations *)

Inductive AttemptOp : Type :=
| OpStart | OpAcknowledge | OpComplete | OpFail | OpUnknown | OpRecover
| OpReconcile (resolution : ReconciliationResolution) (fresh : Uuid).

Definition apply_op (a : Attempt) (op : AttemptOp) : Attempt :=
  match op with
  | OpStart => (mark_started a).1
  | OpAcknowledge => (mark_acknowledged a).1
  | OpComplete => (mark_completed a).1
  | OpFail => (mark_failed a).1
  | OpUnknown => (mark_outcome_unknown a).1
  | OpRecover => recover a
  | OpReconcile r fresh => (reconcile a r fresh).1
  end.

Definition run (a : Attempt) (ops : list AttemptOp) : Attempt := foldl apply_op a ops.

(** ** Lemmas *)

(** Case analysis on the progress of an attempt and on one operation. *)
Ltac attempt_cases a op :=
  destruct a as [? ? ? prog ?]; destruct prog, op as [| | | | | |[]]; simpl.

(** How far an attempt has come. *)
Definition progress_rank (p : AttemptProgress) : nat :=
  match p with
  | AP_Planned => 0 | AP_Started => 1 | AP_Acknowledged => 2 | AP_OutcomeUnknown => 3
  | AP_Completed | AP_Failed | AP_Abandoned => 4
  end.

Lemma apply_op_rank a op :
  apply_op a op = a ∨
  (progress_rank (at_progress a) < progress_rank (at_progress (apply_op a op)))%nat.
Proof. attempt_cases a op; solve [by left | right; lia]. Qed.

Lemma apply_op_frame a op :
  at_id (apply_op a op) = at_id a ∧ at_operation (apply_op a op) = at_operation a ∧
  at_policy (apply_op a op) = at_policy a ∧
  at_predecessor (apply_op a op) = at_predecessor a.
Proof. by attempt_cases a op. Qed.

Lemma apply_op_terminal a op :
  is_definite_terminal (at_progress a) = true → apply_op a op = a.
Proof.
  intros H. destruct (apply_op_rank a op) as [|Hr]; [done|]. exfalso.
  destruct (at_progress a), (at_progress (apply_op a op)); simpl in *; lia || done.
Qed.

Lemma run_rank a ops :
  (progress_rank (at_progress a) ≤ progress_rank (at_progress (run a ops)))%nat.
Proof.
  revert a. induction ops as [|op ops IH]; intros a; simpl; [done|].
  destruct (apply_op_rank a op) as [->|]; [apply IH|].
  etransitivity; [|apply IH]. lia.
Qed.

Lemma run_frame a ops :
  at_id (run a ops) = at_id a ∧ at_operation (run a ops) = at_operation a ∧
  at_policy (run a ops) = at_policy a.
Proof.
  revert a. induction ops as [|op ops IH]; intros a; simpl; [done|].
  destruct (apply_op_frame a op) as (? & ? & ? & _).
  destruct (IH (apply_op a op)) as (? & ? & ?). split_and!; congruence.
Qed.

Lemma run_terminal a ops : is_definite_terminal (at_progress a) = true → run a ops = a.
Proof.
  intros H. induction ops as [|op ops IH]; simpl; [done|]. by rewrite apply_op_terminal.
Qed.

Lemma plan_Ok operation policy fresh a :
  plan operation policy fresh = Ok a ↔
  OperationPolicy_validate policy = Ok tt ∧ operation ≠ EmptyString ∧
  a = {| at_id := fresh; at_operation := operation; at_policy := policy;
         at_progress := AP_Planned; at_predecessor := None |}.
Proof.
  unfold plan. rewrite bind_Ok. setoid_rewrite bind_Ok. split.
  - intros ([] & Hv & [] & Hr%reject_if_Ok%is_empty_false & [= <-]). done.
  - intros (Hv & Ho & ->). exists tt. split; [done|]. exists tt.
    by rewrite reject_if_Ok, is_empty_false.
Qed.

(** ** Properties *)

(** Whatever operations are applied to a planned attempt, in any order and with
    failures in between, its identity, operation and policy never change, a
    definite outcome is never revised, and it is retried automatically only
    while nothing was dispatched and the effect is an explicitly idempotent,
    cost-free read. *)
Theorem attempt_lifecycle operation policy fresh a ops :
  plan operation policy fresh = Ok a →
  let b := run a ops in
  at_id b = fresh ∧ at_operation b = operation ∧ at_policy b = policy ∧
  (is_definite_terminal (at_progress b) = true → ∀ more, run b more = b) ∧
  (dispatch_started (at_progress b) = true →
     ∀ more, may_retry_automatically (run b more) = false) ∧
  (may_retry_automatically b = true →
     at_progress b = AP_Planned ∧ effect_class policy = EF_IdempotentRead ∧
     explicitly_idempotent policy = true ∧ material_cost policy = false).
Proof.
  intros (_ & _ & Ha)%plan_Ok b.
  destruct (run_frame a ops) as (Hid & Hop & Hpol). fold b in Hid, Hop, Hpol.
  rewrite Ha in Hid, Hop, Hpol. simpl in *. split_and!; [done..| | |].
  - intros Ht more. by apply run_terminal.
  - intros Hs more. unfold may_retry_automatically.
    rewrite bool_decide_false; [done|]. intros Hp.
    pose proof (run_rank b more) as Hr. rewrite Hp in Hr. simpl in Hr.
    destruct (at_progress b); simpl in *; lia || done.
  - unfold may_retry_automatically, permits_automatic_retry. rewrite Hpol.
    intros H. bool_to_prop. repeat case_match; done.
Qed.

Lemma attempt_lifecycle_witness :
  at_progress (run {| at_id := 1%N; at_operation := "read";
      at_policy := {| effect_class := EF_IdempotentRead; explicitly_idempotent := true;
                      material_cost := false |};
      at_progress := AP_Planned; at_predecessor := None |} []) = AP_Planned.
Proof.
  apply (attempt_lifecycle "read"
           {| effect_class := EF_IdempotentRead; explicitly_idempotent := true;
              material_cost := false |} 1%N _ [] eq_refl).
  reflexivity.
Defined.

(** Reconciling needs a human decision on an uncertain outcome: it fails on every
    other progress and leaves the attempt alone. A retry is a fresh, unstarted
    attempt for the same operation and policy that names its uncertain
    predecessor, and the predecessor stays uncertain; accepting or abandoning
    gives the attempt its definite outcome. *)
Theorem reconcile_outcomes a r fresh :
  (at_progress a ≠ AP_OutcomeUnknown →
     reconcile a r fresh = (a, Err invalid_attempt_transition)) ∧
  (at_progress a = AP_OutcomeUnknown →
     at_operation a ≠ EmptyString → OperationPolicy_validate (at_policy a) = Ok tt →
     match r with
     | RR_Retry =>
         ∃ b, reconcile a r fresh = (a, Ok (RO_Retry b)) ∧
              at_id b = fresh ∧ at_progress b = AP_Planned ∧
              at_predecessor b = Some (at_id a) ∧
              at_operation b = at_operation a ∧ at_policy b = at_policy a
     | RR_AcceptResult => reconcile a r fresh = (set_progress a AP_Completed, Ok RO_Accepted)
     | RR_Abandon => reconcile a r fresh = (set_progress a AP_Abandoned, Ok RO_Abandoned)
     end).
Proof.
  split.
  - intros H. unfold reconcile. by rewrite decide_True.
  - intros Hp Ho Hv. unfold reconcile. rewrite decide_False by naive_solver.
    destruct r; [|done..].
    rewrite (proj2 (plan_Ok (at_operation a) (at_policy a) fresh _)
               (conj Hv (conj Ho eq_refl))).
    by eexists.
Qed.

Lemma reconcile_outcomes_witness :
  ∃ b, (reconcile {| at_id := 1%N; at_operation := "write";
      at_policy := {| effect_class := EF_IdempotentWrite; explicitly_idempotent := false;
                      material_cost := false |};
      at_progress := AP_OutcomeUnknown; at_predecessor := None |} RR_Retry 2%N).2
    = Ok (RO_Retry b) ∧ at_predecessor b = Some 1%N.
Proof.
  destruct (proj2 (reconcile_outcomes {| at_id := 1%N; at_operation := "write";
      at_policy := {| effect_class := EF_IdempotentWrite; explicitly_idempotent := false;
                      material_cost := false |};
      at_progress := AP_OutcomeUnknown; at_predecessor := None |} RR_Retry 2%N)
      eq_refl ltac:(discriminate) eq_refl) as (b & Hb & _ & _ & Hpre & _).
  exists b. rewrite Hb. split; [reflexivity|exact Hpre].
Defined.
