(* ===== verification/Policy.v ===== *)
(** * Policy: monotonic policy resolution and durable approvals
      (workbench-core/src/policy.rs)

    [resolve_tool_policy] folds the layers in order and keeps the most
    restrictive proposal together with the layer that first made it. The
    theorems characterise that fold, show that the resulting mode does not
    depend on the order of the layers and that adding layers never widens it. *)

From S2P Require Import Prelude Text BTree Errors Value Attempt.

Inductive PermissionMode : Type := PM_ReadOnly | PM_ApprovalRequired | PM_Denied.

#[export] Instance PermissionMode_eq_dec : EqDecision PermissionMode.
Proof. solve_decision. Defined.

Definition restriction_rank (m : PermissionMode) : N :=
  match m with PM_ReadOnly => 0 | PM_ApprovalRequired => 1 | PM_Denied => 2 end%N.

(** [PermissionMode::intersect] *)
Definition intersect (self other : PermissionMode) : PermissionMode :=
  if (restriction_rank other <=? restriction_rank self)%N then self else other.

Inductive PolicySource : Type :=
| PS_BuiltIn | PS_User | PS_Repository | PS_Session | PS_Role | PS_Workflow | PS_EffectClass.

#[export] Instance PolicySource_eq_dec : EqDecision PolicySource.
Proof. solve_decision. Defined.

Record PolicyLayer : Type := {
  pl_source : PolicySource;
  pl_default_mode : PermissionMode;
  pl_tool_modes : BTreeMap PermissionMode;
  pl_denied_tools : list ToolId;
}.

Record PolicyDecision : Type := {
  pd_mode : PermissionMode;
  pd_authoritative_source : PolicySource;
}.

#[export] Instance PolicyDecision_eq_dec : EqDecision PolicyDecision.
Proof. solve_decision. Defined.

(** What one layer proposes for a tool. *)
Definition proposed (tool : ToolId) (layer : PolicyLayer) : PermissionMode :=
  if set_contains tool (pl_denied_tools layer) then PM_Denied
  else default (pl_default_mode layer) (bt_get tool (pl_tool_modes layer)).

(** The body of the loop of [resolve_tool_policy]. *)
Definition resolve_step (tool : ToolId) (decision : PolicyDecision) (layer : PolicyLayer)
    : PolicyDecision :=
  let intersected := intersect (pd_mode decision) (proposed tool layer) in
  if decide (intersected ≠ pd_mode decision) then
    {| pd_mode := intersected; pd_authoritative_source := pl_source layer |}
  else decision.

Definition resolve_tool_policy (tool : ToolId) (layers : list PolicyLayer) : PolicyDecision :=
  foldl (resolve_step tool)
    {| pd_mode := PM_ReadOnly; pd_authoritative_source := PS_BuiltIn |} layers.

(** Mandatory protection based on the external effect class. *)
Definition protect_effect (current : PolicyDecision) (effect : EffectClass)
    (material_cost : bool) : PolicyDecision :=
  let mandatory :=
    match effect with
    | EF_None | EF_IdempotentRead => if negb material_cost then PM_ReadOnly else PM_ApprovalRequired
    | EF_IdempotentWrite | EF_PaidInference | EF_NonIdempotentWrite | EF_Production
    | EF_Credential => PM_ApprovalRequired
    end in
  let protected := intersect (pd_mode current) mandatory in
  if decide (protected = pd_mode current) then current
  else {| pd_mode := protected; pd_authoritative_source := PS_EffectClass |}.

Inductive ApprovalDecision : Type := AD_Grant | AD_Deny.

#[export] Instance ApprovalDecision_eq_dec : EqDecision ApprovalDecision.
Proof. solve_decision. Defined.

Record ApprovalRecord : Type := {
  ar_approval_id : Uuid;
  ar_actor : NonEmptyText;
  ar_decision : ApprovalDecision;
}.

Record PendingApproval : Type := {
  pa_id : Uuid;
  pa_recorded : option ApprovalRecord;
}.

Definition PendingApproval_new (fresh : Uuid) : PendingApproval :=
  {| pa_id := fresh; pa_recorded := None |}.

(** [PendingApproval::resolve] *)
Definition resolve_approval (self : PendingApproval) (actor : NonEmptyText)
    (decision : ApprovalDecision) : PendingApproval * Result ApprovalRecord NewError :=
  match pa_recorded self with
  | Some recorded =>
      if decide (ar_decision recorded = decision) then (self, Ok recorded)
      else (self, Err (new_error FC_InvalidTransition
                         "approval already has a conflicting decision"))
  | None =>
      let record := {| ar_approval_id := pa_id self; ar_actor := actor;
                       ar_decision := decision |} in
      ({| pa_id := pa_id self; pa_recorded := Some record |}, Ok record)
  end.

(** Successive decisions by several clients; every result is kept. *)
Fixpoint resolve_all (self : PendingApproval) (calls : list (NonEmptyText * ApprovalDecision))
    : PendingApproval * list (Result ApprovalRecord NewError) :=
  match calls with
  | [] => (self, [])
  | (actor, decision) :: calls =>
      let '(self, r) := resolve_approval self actor decision in
      let '(self, rs) := resolve_all self calls in
      (self, r :: rs)
  end.

(** ** Lemmas *)

Lemma intersect_rank a b :
  restriction_rank (intersect a b) = N.max (restriction_rank a) (restriction_rank b).
Proof. by destruct a, b. Qed.

Lemma restriction_rank_inj a b : restriction_rank a = restriction_rank b → a = b.
Proof. by destruct a, b. Qed.

Lemma intersect_comm a b : intersect a b = intersect b a.
Proof. by destruct a, b. Qed.

Lemma intersect_assoc a b c : intersect a (intersect b c) = intersect (intersect a b) c.
Proof. by destruct a, b, c. Qed.

Lemma resolve_step_mode tool d l :
  pd_mode (resolve_step tool d l) = intersect (pd_mode d) (proposed tool l).
Proof. unfold resolve_step. by case_decide. Qed.

(** The mode is the intersection of all proposals. *)
Lemma resolve_mode_foldl tool d layers :
  pd_mode (foldl (resolve_step tool) d layers) =
  foldr (λ l m, intersect (proposed tool l) m) (pd_mode d) layers.
Proof.
  revert d. induction layers as [|l layers IH]; intros d; simpl; [done|].
  rewrite IH, resolve_step_mode. clear IH.
  induction layers as [|l' layers IH]; simpl; [apply intersect_comm|].
  rewrite IH, !intersect_assoc. f_equal. apply intersect_comm.
Qed.

Lemma resolve_mode_app tool layers more :
  pd_mode (resolve_tool_policy tool (layers ++ more)) =
  foldr (λ l m, intersect (proposed tool l) m)
    (pd_mode (resolve_tool_policy tool layers)) more.
Proof. unfold resolve_tool_policy. by rewrite foldl_app, resolve_mode_foldl. Qed.

Lemma foldr_intersect_le tool m layers :
  (restriction_rank m ≤
   restriction_rank (foldr (λ l m, intersect (proposed tool l) m) m layers))%N.
Proof. induction layers; simpl; [done|]. rewrite intersect_rank. lia. Qed.

Lemma resolve_tool_policy_snoc tool layers l :
  resolve_tool_policy tool (layers ++ [l]) =
  resolve_step tool (resolve_tool_policy tool layers) l.
Proof. unfold resolve_tool_policy. by rewrite foldl_app. Qed.

(** The mode of a resolution depends on the layers only up to reordering. *)
#[export] Instance resolve_mode_Permutation tool :
  Proper ((≡ₚ) ==> (=)) (λ layers, pd_mode (resolve_tool_policy tool layers)).
Proof.
  intros l1 l2 Hp. unfold resolve_tool_policy. rewrite !resolve_mode_foldl. simpl.
  induction Hp; simpl; [done|congruence| |congruence].
  rewrite !intersect_assoc. f_equal. apply intersect_comm.
Qed.

(** When protection leaves an action unattended or denied. *)
Lemma protect_effect_modes d effect cost :
  (pd_mode (protect_effect d effect cost) = PM_ReadOnly ↔
     pd_mode d = PM_ReadOnly ∧ cost = false ∧
     (effect = EF_None ∨ effect = EF_IdempotentRead)) ∧
  (pd_mode (protect_effect d effect cost) = PM_Denied ↔ pd_mode d = PM_Denied).
Proof.
  destruct d as [m src]. destruct m, effect, cost; simpl; split; split; naive_solver.
Qed.

(** ** Properties *)

(** A resolution is as restrictive as its most restrictive layer, and it names
    the first layer that imposed that restriction; when no layer restricts, the
    built-in default is the authority. *)
Theorem resolve_tool_policy_spec tool layers :
  let d := resolve_tool_policy tool layers in
  Forall (λ l, (restriction_rank (proposed tool l) ≤ restriction_rank (pd_mode d))%N) layers ∧
  ((pd_mode d = PM_ReadOnly ∧ pd_authoritative_source d = PS_BuiltIn) ∨
   ∃ pre l post, layers = pre ++ l :: post ∧
     proposed tool l = pd_mode d ∧ pd_authoritative_source d = pl_source l ∧
     Forall (λ l', (restriction_rank (proposed tool l') < restriction_rank (pd_mode d))%N) pre).
Proof.
  induction layers as [|l layers [IHle IHsrc]] using rev_ind; [by split; [|left]|].
  rewrite resolve_tool_policy_snoc. set (d := resolve_tool_policy tool layers) in *.
  pose proof (intersect_rank (pd_mode d) (proposed tool l)) as Hmax. cbv zeta. split.
  - rewrite resolve_step_mode, Forall_app, Forall_singleton, Hmax. split; [|lia].
    eapply Forall_impl; [done|]. simpl. lia.
  - unfold resolve_step. case_decide as Hne; simpl.
    + assert (Hlt : (restriction_rank (pd_mode d) < restriction_rank (proposed tool l))%N).
      { apply N.nle_gt. intros Hle. apply Hne, restriction_rank_inj. lia. }
      right. exists layers, l, []. split_and!; [done| |done|].
      * apply restriction_rank_inj. lia.
      * eapply Forall_impl; [done|]. simpl. lia.
    + destruct IHsrc as [|(pre & l' & post & -> & ?)]; [by left|right].
      exists pre, l', (post ++ [l]). by rewrite <-app_assoc.
Qed.

(** Adding layers, wherever they are inserted, never widens the authority
    granted, and reordering the layers never changes it. *)
Theorem resolve_tool_policy_monotone tool layers more all :
  layers ++ more ≡ₚ all →
  (restriction_rank (pd_mode (resolve_tool_policy tool layers)) ≤
   restriction_rank (pd_mode (resolve_tool_policy tool all)))%N.
Proof.
  intros Hp. rewrite <-(resolve_mode_Permutation tool _ _ Hp), resolve_mode_app.
  apply foldr_intersect_le.
Qed.

Lemma resolve_tool_policy_monotone_witness :
  (restriction_rank (pd_mode (resolve_tool_policy "terminal"
     [{| pl_source := PS_User; pl_default_mode := PM_ReadOnly; pl_tool_modes := [];
         pl_denied_tools := ["terminal"] |}])) ≤
   restriction_rank (pd_mode (resolve_tool_policy "terminal"
     [{| pl_source := PS_User; pl_default_mode := PM_ReadOnly; pl_tool_modes := [];
         pl_denied_tools := ["terminal"] |};
      {| pl_source := PS_Repository; pl_default_mode := PM_ReadOnly;
         pl_tool_modes := [("terminal", PM_ReadOnly)]; pl_denied_tools := [] |}])))%N.
Proof.
  apply (resolve_tool_policy_monotone "terminal" _
    [{| pl_source := PS_Repository; pl_default_mode := PM_ReadOnly;
        pl_tool_modes := [("terminal", PM_ReadOnly)]; pl_denied_tools := [] |}]).
  reflexivity.
Defined.

(** Effect protection never relaxes a decision, and it leaves an action
    unattended only when policy already did and the effect is a cost-free read
    or no effect at all. *)
Theorem protect_effect_spec d effect cost :
  (restriction_rank (pd_mode d) ≤ restriction_rank (pd_mode (protect_effect d effect cost)))%N ∧
  (pd_mode (protect_effect d effect cost) = PM_ReadOnly ↔
     pd_mode d = PM_ReadOnly ∧ cost = false ∧
     (effect = EF_None ∨ effect = EF_IdempotentRead)) ∧
  (pd_mode (protect_effect d effect cost) = PM_Denied ↔ pd_mode d = PM_Denied) ∧
  (protect_effect d effect cost = d ∨
   pd_authoritative_source (protect_effect d effect cost) = PS_EffectClass).
Proof.
  pose proof (protect_effect_modes d effect cost) as [Hread Hdeny].
  split_and!; [|exact Hread|exact Hdeny|]; clear.
  all: destruct d as [[] src], effect, cost; simpl; first [done | by left | by right].
Qed.

(** The first decision on an approval wins: after it every later call either
    replays that very record or is rejected as a conflict, and the record is
    never replaced. *)
Theorem first_decision_wins id actor decision calls :
  let '(self, first) := resolve_approval (PendingApproval_new id) actor decision in
  let record := {| ar_approval_id := id; ar_actor := actor; ar_decision := decision |} in
  first = Ok record ∧
  resolve_all self calls =
    (self, map (λ call : NonEmptyText * ApprovalDecision,
       if decide (call.2 = decision) then Ok record
       else Err (new_error FC_InvalidTransition
                   "approval already has a conflicting decision")) calls) ∧
  pa_recorded self = Some record.
Proof.
  simpl. split_and!; [done| |done].
  induction calls as [|[actor' decision'] calls IH]; simpl; [done|].
  unfold resolve_approval. simpl.
  destruct (decide (decision = decision')) as [<-|Hne]; rewrite IH.
  - by rewrite decide_True.
  - by rewrite decide_False.
Qed.
