(* ===== verification/Routing.v ===== *)
(** * Routing: deterministic, ordered routing (workbench-core/src/routing.rs)

    Confidences are binary64 values, compared as Rust compares [f64]: every
    comparison with a NaN is false. *)

From Stdlib Require Import SpecFloat.
From S2P Require Import Prelude Text Errors Value.

(** ** Data *)

Inductive Risk : Type := Risk_Low | Risk_Medium | Risk_High.

Inductive PermissionScope : Type := SC_ReadOnly | SC_ApprovalRequired | SC_Denied.

Record RouteDestination : Type := {
  rd_role : RoleId;
  rd_model_alias : ModelAlias;
  rd_provider : ProviderId;
  rd_runtime_model : string;
}.

Record RouteContext : Type := {
  rc_tools : list ToolId;
  rc_data_sources : list DataSourceId;
  rc_permission : PermissionScope;
}.

Inductive SelectedRule : Type := SR_Explicit | SR_Workflow | SR_Resolver | SR_Coordinator.

Record RoutingPlan : Type := {
  rp_intent : string;
  rp_destination : RouteDestination;
  rp_context : RouteContext;
  rp_risk : Risk;
  rp_confidence : f64;
  rp_selected_by : SelectedRule;
}.

Record RouteCandidate : Type := {
  rca_intent : string;
  rca_destination : RouteDestination;
  rca_context : RouteContext;
  rca_risk : Risk;
  rca_confidence : f64;
}.

#[export] Instance Risk_eq_dec : EqDecision Risk.
Proof. solve_decision. Defined.
#[export] Instance PermissionScope_eq_dec : EqDecision PermissionScope.
Proof. solve_decision. Defined.
#[export] Instance SelectedRule_eq_dec : EqDecision SelectedRule.
Proof. solve_decision. Defined.
#[export] Instance RouteDestination_eq_dec : EqDecision RouteDestination.
Proof. solve_decision. Defined.
#[export] Instance RouteContext_eq_dec : EqDecision RouteContext.
Proof. solve_decision. Defined.
#[export] Instance RoutingPlan_eq_dec : EqDecision RoutingPlan.
Proof. solve_decision. Defined.

(** [RouteCandidate::new] *)
Definition RouteCandidate_new (intent : string) (destination : RouteDestination)
    (context : RouteContext) (risk : Risk) (confidence : f64)
    : Result RouteCandidate NewError :=
  if is_empty intent || negb (in_unit_interval confidence) || is_nan confidence then
    Err (new_error FC_InvalidRequest "route intent and confidence are invalid")
  else Ok {| rca_intent := intent; rca_destination := destination;
             rca_context := context; rca_risk := risk; rca_confidence := confidence |}.

Definition into_plan (c : RouteCandidate) (selected_by : SelectedRule) : RoutingPlan :=
  {| rp_intent := rca_intent c; rp_destination := rca_destination c;
     rp_context := rca_context c; rp_risk := rca_risk c;
     rp_confidence := rca_confidence c; rp_selected_by := selected_by |}.

Record RoutingInputs : Type := {
  ri_explicit : option RouteCandidate;
  ri_workflow : option RouteCandidate;
  ri_deterministic : option RouteCandidate;
  ri_coordinator : option RouteCandidate;
}.

Inductive RoutingOutcome : Type :=
| RO_Selected (plan : RoutingPlan)
| RO_NeedsClarification (reason : string) (confidence : option f64).

Record OrderedRouter : Type := { confidence_threshold : f64 }.

Definition OrderedRouter_new (threshold : f64) : Result OrderedRouter NewError :=
  if in_unit_interval threshold && negb (is_nan threshold) then
    Ok {| confidence_threshold := threshold |}
  else Err (new_error FC_InvalidRequest "routing threshold must be between zero and one").

(** [OrderedRouter::resolve] *)
Definition resolve (self : OrderedRouter) (inputs : RoutingInputs) : RoutingOutcome :=
  match ri_explicit inputs with
  | Some candidate => RO_Selected (into_plan candidate SR_Explicit)
  | None =>
  match ri_workflow inputs with
  | Some candidate => RO_Selected (into_plan candidate SR_Workflow)
  | None =>
  match ri_deterministic inputs with
  | Some candidate => RO_Selected (into_plan candidate SR_Resolver)
  | None =>
  match ri_coordinator inputs with
  | Some candidate =>
      if f64_le (confidence_threshold self) (rca_confidence candidate) then
        RO_Selected (into_plan candidate SR_Coordinator)
      else RO_NeedsClarification "coordinator confidence is below the configured threshold"
             (Some (rca_confidence candidate))
  | None => RO_NeedsClarification "no routing rule selected an executor" None
  end end end end.

(** ** Lemmas *)

(** The candidate each rule offers, in the documented order of priority. *)
Definition rule_candidates (inputs : RoutingInputs) : list (SelectedRule * option RouteCandidate) :=
  [(SR_Explicit, ri_explicit inputs); (SR_Workflow, ri_workflow inputs);
   (SR_Resolver, ri_deterministic inputs); (SR_Coordinator, ri_coordinator inputs)].

(** The first rule that offers a candidate. *)
Fixpoint first_offer (l : list (SelectedRule * option RouteCandidate))
    : option (SelectedRule * RouteCandidate) :=
  match l with
  | [] => None
  | (r, Some c) :: _ => Some (r, c)
  | (_, None) :: l => first_offer l
  end.

Lemma in_unit_interval_not_nan x : in_unit_interval x = true → is_nan x = false.
Proof. by destruct x. Qed.

(** ** Properties *)

(** Routing selects at most one executor: the first rule in the order explicit,
    workflow, deterministic, coordinator that offers a candidate decides, its
    candidate becomes the plan unchanged, and only a coordinator whose
    confidence does not reach the threshold, or the absence of any candidate,
    asks for clarification. *)
Theorem resolve_first_offer self inputs :
  match first_offer (rule_candidates inputs) with
  | None => resolve self inputs =
      RO_NeedsClarification "no routing rule selected an executor" None
  | Some (SR_Coordinator, c) =>
      if f64_le (confidence_threshold self) (rca_confidence c)
      then resolve self inputs = RO_Selected (into_plan c SR_Coordinator)
      else resolve self inputs =
        RO_NeedsClarification "coordinator confidence is below the configured threshold"
          (Some (rca_confidence c))
  | Some (r, c) => resolve self inputs = RO_Selected (into_plan c r)
  end.
Proof.
  destruct inputs as [[?|] [?|] [?|] [c|]]; unfold resolve; simpl; try done.
  by case_match.
Qed.
