(* ===== verification/Event.v ===== *)
(** * Event: the immutable domain event model (workbench-core/src/event.rs)

    Every variant of [EventPayload] with its fields. Instants are an opaque
    count of nanoseconds. *)

From S2P Require Import Prelude Text Errors Value Attempt Policy Routing.

Inductive EventKind : Type :=
| EK_SessionCreated | EK_ConfigurationResolved | EK_InputRecorded | EK_RoutingPlanned
| EK_ClarificationRequested | EK_ApprovalRequested | EK_ApprovalRecorded
| EK_DispatchPlanned | EK_DispatchStarted | EK_DispatchAcknowledged | EK_ProviderEvent
| EK_ToolEvent | EK_PauseRequested | EK_SessionPaused | EK_SessionResumed
| EK_SessionRedirected | EK_CancelRequested | EK_CancelConfirmed | EK_OutcomeUnknown
| EK_OutcomeReconciled | EK_SessionCompleted | EK_SessionFailed | EK_SessionCancelled
| EK_SessionAbandoned | EK_SessionExported | EK_SessionDeletionRequested
| EK_SessionDeleted | EK_WorkflowTransition.

#[export] Instance EventKind_eq_dec : EqDecision EventKind.
Proof. solve_decision. Defined.

Definition OffsetDateTime : Type := Z.

Record RoleMapping : Type := {
  rm_role : RoleId;
  rm_provider : ProviderId;
  rm_runtime_model : string;
}.

Inductive EventPayload : Type :=
| EP_SessionCreated (configuration_hash lock_hash : ContentHash)
| EP_ConfigurationResolved (snapshot_hash : ContentHash) (sources : list string)
    (role_mappings : list RoleMapping)
| EP_InputRecorded (input_id : Uuid) (content : NonEmptyText)
| EP_RoutingPlanned (plan : RoutingPlan)
| EP_ClarificationRequested (question : NonEmptyText) (reason : string)
| EP_ApprovalRequested (approval_id : Uuid) (action risk : string) (scope : list string)
| EP_ApprovalRecorded (approval_id : Uuid) (actor : NonEmptyText) (decision : ApprovalDecision)
| EP_DispatchPlanned (attempt_id : Uuid) (effect_class : EffectClass) (operation : string)
    (idempotent : bool)
| EP_DispatchStarted (attempt_id : Uuid) (adapter_session_id : option string)
| EP_DispatchAcknowledged (attempt_id : Uuid) (provider_request_id : option string)
| EP_ProviderEvent (attempt_id : Uuid) (event_type : string) (content : NonEmptyText)
| EP_ToolEvent (attempt_id : Uuid) (event_type : string) (content : NonEmptyText)
| EP_PauseRequested (control_id : Uuid) (actor : NonEmptyText)
| EP_SessionPaused (control_id : Uuid) (actor : NonEmptyText)
| EP_SessionResumed (control_id : Uuid) (actor : NonEmptyText)
| EP_SessionRedirected (control_id : Uuid) (actor instruction : NonEmptyText)
| EP_CancelRequested (control_id : Uuid) (actor : NonEmptyText)
| EP_CancelConfirmed (control_id : Uuid)
| EP_OutcomeUnknown (attempt_id : Uuid) (reason : string)
    (reconciliation_options : list ReconciliationResolution)
| EP_OutcomeReconciled (attempt_id : Uuid) (resolution : ReconciliationResolution)
    (replacement_attempt_id : option Uuid)
| EP_SessionCompleted (attempt_id : option Uuid) (summary : string) (correlation_id : Uuid)
| EP_SessionFailed (attempt_id : option Uuid) (summary : string) (correlation_id : Uuid)
| EP_SessionCancelled (attempt_id : option Uuid) (summary : string) (correlation_id : Uuid)
| EP_SessionAbandoned (attempt_id : Uuid) (summary : string) (correlation_id : Uuid)
| EP_SessionExported (export_id : Uuid) (recipient_fingerprints : list string)
| EP_SessionDeletionRequested (deletion_id : Uuid) (actor : NonEmptyText)
| EP_SessionDeleted (deletion_id : Uuid) (key_destroyed : bool)
| EP_WorkflowTransition (workflow_id : WorkflowId) (run_id step_id : NonEmptyText)
    (iteration : N) (phase reason : string).

(** [EventPayload::kind] *)
Definition kind (p : EventPayload) : EventKind :=
  match p with
  | EP_SessionCreated _ _ => EK_SessionCreated
  | EP_ConfigurationResolved _ _ _ => EK_ConfigurationResolved
  | EP_InputRecorded _ _ => EK_InputRecorded
  | EP_RoutingPlanned _ => EK_RoutingPlanned
  | EP_ClarificationRequested _ _ => EK_ClarificationRequested
  | EP_ApprovalRequested _ _ _ _ => EK_ApprovalRequested
  | EP_ApprovalRecorded _ _ _ => EK_ApprovalRecorded
  | EP_DispatchPlanned _ _ _ _ => EK_DispatchPlanned
  | EP_DispatchStarted _ _ => EK_DispatchStarted
  | EP_DispatchAcknowledged _ _ => EK_DispatchAcknowledged
  | EP_ProviderEvent _ _ _ => EK_ProviderEvent
  | EP_ToolEvent _ _ _ => EK_ToolEvent
  | EP_PauseRequested _ _ => EK_PauseRequested
  | EP_SessionPaused _ _ => EK_SessionPaused
  | EP_SessionResumed _ _ => EK_SessionResumed
  | EP_SessionRedirected _ _ _ => EK_SessionRedirected
  | EP_CancelRequested _ _ => EK_CancelRequested
  | EP_CancelConfirmed _ => EK_CancelConfirmed
  | EP_OutcomeUnknown _ _ _ => EK_OutcomeUnknown
  | EP_OutcomeReconciled _ _ _ => EK_OutcomeReconciled
  | EP_SessionCompleted _ _ _ => EK_SessionCompleted
  | EP_SessionFailed _ _ _ => EK_SessionFailed
  | EP_SessionCancelled _ _ _ => EK_SessionCancelled
  | EP_SessionAbandoned _ _ _ => EK_SessionAbandoned
  | EP_SessionExported _ _ => EK_SessionExported
  | EP_SessionDeletionRequested _ _ => EK_SessionDeletionRequested
  | EP_SessionDeleted _ _ => EK_SessionDeleted
  | EP_WorkflowTransition _ _ _ _ _ _ => EK_WorkflowTransition
  end.

(** [EventPayload::is_sensitive] *)
Definition is_sensitive (p : EventPayload) : bool :=
  match p with
  | EP_ConfigurationResolved _ _ _ | EP_InputRecorded _ _ | EP_RoutingPlanned _
  | EP_ClarificationRequested _ _ | EP_ApprovalRequested _ _ _ _ | EP_ProviderEvent _ _ _
  | EP_ToolEvent _ _ _ | EP_SessionRedirected _ _ _ | EP_SessionCompleted _ _ _
  | EP_SessionFailed _ _ _ | EP_SessionCancelled _ _ _ | EP_SessionAbandoned _ _ _ => true
  | _ => false
  end.

(** [EventPayload::attempt_id] *)
Definition attempt_id (p : EventPayload) : option Uuid :=
  match p with
  | EP_DispatchPlanned a _ _ _ | EP_DispatchStarted a _ | EP_DispatchAcknowledged a _
  | EP_ProviderEvent a _ _ | EP_ToolEvent a _ _ | EP_OutcomeUnknown a _ _
  | EP_OutcomeReconciled a _ _ | EP_SessionAbandoned a _ _ => Some a
  | EP_SessionCompleted a _ _ | EP_SessionFailed a _ _ | EP_SessionCancelled a _ _ => a
  | _ => None
  end.

Record NewEvent : Type := {
  ne_session_id : Uuid;
  ne_causation_request_id : option Uuid;
  ne_payload : EventPayload;
}.

Record PersistedEvent : Type := {
  pe_event_id : Uuid;
  pe_session_id : Uuid;
  pe_sequence : Sequence;
  pe_causation_request_id : option Uuid;
  pe_occurred_at : OffsetDateTime;
  pe_payload : EventPayload;
}.
