(* ===== verification/Session.v ===== *)
(** * Session: session state folding and control decisions
      (workbench-core/src/session.rs)

    A session is its event history; its state is the fold of [transition] over
    it. The theorems say which histories [fold_history] accepts, that controls
    propose exactly the events the fold accepts, and that the human gates of the
    lifecycle (approval, reconciliation, deletion) cannot be bypassed in any
    accepted history. *)

From S2P Require Import Prelude Text Errors Value Attempt Policy Routing Event.

Inductive SessionState : Type :=
| SS_Ready | SS_Running | SS_Pausing | SS_Paused | SS_AwaitingClarification
| SS_AwaitingApproval | SS_CancelRequested | SS_OutcomeUnknown | SS_Completed
| SS_Failed | SS_Cancelled | SS_Abandoned | SS_Deleting | SS_Deleted.

#[export] Instance SessionState_eq_dec : EqDecision SessionState.
Proof. solve_decision. Defined.

Definition permits_new_action (s : SessionState) : bool :=
  match s with SS_Ready => true | _ => false end.

Definition is_terminal (s : SessionState) : bool :=
  match s with
  | SS_Completed | SS_Failed | SS_Cancelled | SS_Abandoned | SS_Deleted => true
  | _ => false
  end.

Definition invalid_transition : NewError :=
  new_error FC_InvalidTransition "session transition is not allowed".

Definition is_non_transitioning (state : SessionState) (payload : EventPayload) : bool :=
  match state, payload with
  | SS_Ready, (EP_ConfigurationResolved _ _ _ | EP_InputRecorded _ _ | EP_RoutingPlanned _
               | EP_DispatchPlanned _ _ _ _) => true
  | SS_Running, (EP_DispatchPlanned _ _ _ _ | EP_DispatchAcknowledged _ _
                 | EP_ProviderEvent _ _ _ | EP_ToolEvent _ _ _
                 | EP_WorkflowTransition _ _ _ _ _ _ | EP_RoutingPlanned _
                 | EP_InputRecorded _ _) => true
  | (SS_Ready | SS_Paused), EP_WorkflowTransition _ _ _ _ _ _ => true
  | _, _ => false
  end
  || (bool_decide (state ≠ SS_Deleted)
      && match payload with EP_SessionExported _ _ => true | _ => false end).

Definition transition (current : option SessionState) (payload : EventPayload)
    : Result SessionState NewError :=
  match current, payload with
  | None, EP_SessionCreated _ _ => Ok SS_Ready
  | Some (SS_Ready | SS_Running), EP_DispatchStarted _ _ => Ok SS_Running
  | Some SS_Ready, EP_ClarificationRequested _ _ => Ok SS_AwaitingClarification
  | Some (SS_Ready | SS_Running), EP_ApprovalRequested _ _ _ _ => Ok SS_AwaitingApproval
  | Some SS_AwaitingApproval, EP_ApprovalRecorded _ _ AD_Grant => Ok SS_Running
  | Some SS_AwaitingApproval, EP_ApprovalRecorded _ _ AD_Deny => Ok SS_Paused
  | Some SS_Running, EP_PauseRequested _ _ => Ok SS_Pausing
  | Some SS_Pausing, EP_SessionPaused _ _ => Ok SS_Paused
  | Some SS_Paused, EP_SessionResumed _ _ => Ok SS_Running
  | Some SS_Paused, EP_SessionRedirected _ _ _ => Ok SS_Paused
  | Some SS_AwaitingClarification, EP_SessionRedirected _ _ _ => Ok SS_Ready
  | Some (SS_Ready | SS_Running | SS_Pausing | SS_Paused | SS_AwaitingClarification
          | SS_AwaitingApproval), EP_CancelRequested _ _ => Ok SS_CancelRequested
  | Some SS_CancelRequested, EP_CancelConfirmed _ => Ok SS_CancelRequested
  | Some SS_CancelRequested, EP_SessionCancelled _ _ _ => Ok SS_Cancelled
  | Some (SS_Running | SS_CancelRequested), EP_OutcomeUnknown _ _ _ => Ok SS_OutcomeUnknown
  | Some SS_OutcomeUnknown, EP_OutcomeReconciled _ RR_Retry _ => Ok SS_Running
  | Some SS_OutcomeUnknown, EP_OutcomeReconciled _ RR_AcceptResult _ => Ok SS_Completed
  | Some SS_OutcomeUnknown, EP_OutcomeReconciled _ RR_Abandon _ => Ok SS_Abandoned
  | Some SS_Running, EP_SessionCompleted _ _ _ => Ok SS_Completed
  | Some SS_Running, EP_SessionFailed _ _ _ => Ok SS_Failed
  | Some SS_OutcomeUnknown, EP_SessionAbandoned _ _ _ => Ok SS_Abandoned
  | Some (SS_Completed | SS_Failed | SS_Cancelled | SS_Abandoned),
    EP_SessionDeletionRequested _ _ => Ok SS_Deleting
  | Some SS_Deleting, EP_SessionDeleted _ _ => Ok SS_Deleted
  | Some state, payload =>
      if is_non_transitioning state payload then Ok state else Err invalid_transition
  | None, _ => Err invalid_transition
  end.

Definition fold_event (current : option SessionState) (event : PersistedEvent)
    : Result SessionState NewError :=
  transition current (pe_payload event).

(** The loop of [fold_history]: the folded state and the previous sequence. *)
Fixpoint fold_loop (state : option SessionState) (previous : option Sequence)
    (events : list PersistedEvent) : Result (option SessionState) NewError :=
  match events with
  | [] => Ok state
  | event :: events =>
      let? _ :=
        match previous with
        | Some previous =>
            let? expected := checked_next previous in
            reject_if (negb (pe_sequence event =? expected)%N)
              (new_error FC_StorageUnavailable "session history contains a sequence gap")
        | None => Ok tt
        end in
      let? next := fold_event state event in
      fold_loop (Some next) (Some (pe_sequence event)) events
  end.

Definition fold_history (events : list PersistedEvent) : Result SessionState NewError :=
  let? state := fold_loop None None events in
  ok_or state (new_error FC_SessionNotFound "session history is empty").

Inductive SessionControl : Type :=
| CT_Pause (actor : NonEmptyText)
| CT_Resume (actor : NonEmptyText)
| CT_Redirect (actor instruction : NonEmptyText)
| CT_Cancel (actor : NonEmptyText).

Inductive ControlOutcome : Type :=
| CO_Append (payload : EventPayload)
| CO_AlreadyApplied.

(** [decide_control], with the identifier [ControlId::new] draws as an argument. *)
Definition decide_control (state : SessionState) (control : SessionControl) (control_id : Uuid)
    : Result ControlOutcome NewError :=
  match state, control with
  | SS_Running, CT_Pause actor => Ok (CO_Append (EP_PauseRequested control_id actor))
  | (SS_Pausing | SS_Paused), CT_Pause _ => Ok CO_AlreadyApplied
  | SS_Paused, CT_Resume actor => Ok (CO_Append (EP_SessionResumed control_id actor))
  | SS_Running, CT_Resume _ => Ok CO_AlreadyApplied
  | (SS_Paused | SS_AwaitingClarification), CT_Redirect actor instruction =>
      Ok (CO_Append (EP_SessionRedirected control_id actor instruction))
  | state, CT_Cancel actor =>
      if negb (is_terminal state)
         && negb (match state with SS_Deleting | SS_OutcomeUnknown => true | _ => false end)
      then if decide (state = SS_CancelRequested) then Ok CO_AlreadyApplied
           else Ok (CO_Append (EP_CancelRequested control_id actor))
      else Err invalid_transition
  | _, _ => Err invalid_transition
  end.

(** ** Legal runs *)

(** Folding payloads one after the other, without the sequence checks. *)
Fixpoint replay (current : option SessionState) (ps : list EventPayload)
    : Result (option SessionState) NewError :=
  match ps with
  | [] => Ok current
  | p :: ps => let? next := transition current p in replay (Some next) ps
  end.

(** Consecutive events carry consecutive sequences, none beyond [u64::MAX]. *)
Fixpoint contiguous (previous : option Sequence) (events : list PersistedEvent) : Prop :=
  match events with
  | [] => True
  | event :: events =>
      match previous with
      | Some p => pe_sequence event = (p + 1)%N ∧ (p < u64_max)%N
      | None => True
      end ∧ contiguous (Some (pe_sequence event)) events
  end.

(** ** Lemmas *)

Arguments transition !current !payload /.

Lemma fold_loop_Ok state previous events s :
  fold_loop state previous events = Ok s ↔
  contiguous previous events ∧ replay state (pe_payload <$> events) = Ok s.
Proof.
  revert state previous. induction events as [|e events IH]; intros state previous; simpl.
  { naive_solver. }
  rewrite bind_Ok. setoid_rewrite bind_Ok. setoid_rewrite IH. unfold fold_event.
  assert (Hseq : (match previous with
       | Some p => let? expected := checked_next p in
           reject_if (negb (pe_sequence e =? expected)%N)
             (new_error FC_StorageUnavailable "session history contains a sequence gap")
       | None => Ok tt
       end = Ok tt) ↔
       match previous with
       | Some p => pe_sequence e = (p + 1)%N ∧ (p < u64_max)%N
       | None => True
       end).
  { destruct previous as [p|]; [|done]. rewrite bind_Ok. setoid_rewrite checked_next_Ok.
    setoid_rewrite reject_if_Ok. setoid_rewrite negb_false_iff. setoid_rewrite N.eqb_eq.
    naive_solver. }
  split.
  - intros ([] & Hp & next & Hnext & Hc & Hr). split; [|by exists next].
    split; [by apply Hseq|done].
  - intros ([Hp Hc] & next & Hnext & Hr). exists tt. split; [by apply Hseq|by exists next].
Qed.

Lemma fold_history_Ok events s :
  fold_history events = Ok s ↔
  contiguous None events ∧ replay None (pe_payload <$> events) = Ok (Some s).
Proof.
  unfold fold_history. rewrite bind_Ok. setoid_rewrite ok_or_Ok. setoid_rewrite fold_loop_Ok.
  naive_solver.
Qed.

Lemma contiguous_snoc previous events event :
  contiguous previous (events ++ [event]) ↔
  contiguous previous events ∧
  match last (pe_sequence <$> events) with
  | Some p => contiguous (Some p) [event]
  | None => contiguous previous [event]
  end.
Proof.
  revert previous. induction events as [|e events IH]; intros previous; [simpl; naive_solver|].
  cbn [contiguous app]. rewrite IH, fmap_cons.
  destruct (pe_sequence <$> events) as [|q qs] eqn:Hq; simpl; [naive_solver|].
  change (last (pe_sequence e :: q :: qs)) with (last (q :: qs)).
  destruct (last (q :: qs)) eqn:Hlast; [naive_solver|].
  by apply last_None in Hlast.
Qed.

Lemma replay_app c ps qs :
  replay c (ps ++ qs) = let? m := replay c ps in replay m qs.
Proof.
  revert c. induction ps as [|p ps IH]; intros c; simpl; [done|].
  by destruct (transition c p).
Qed.

(** Appending one event to a foldable history: the event must be the successor of
    the last one and a legal transition. *)
Lemma fold_history_snoc events event s s' :
  fold_history events = Ok s →
  (∀ l, last (pe_sequence <$> events) = Some l → checked_next l = Ok (pe_sequence event)) →
  transition (Some s) (pe_payload event) = Ok s' →
  fold_history (events ++ [event]) = Ok s'.
Proof.
  rewrite !fold_history_Ok, contiguous_snoc, fmap_app, replay_app. intros [Hc Hr] Hl Ht.
  rewrite Hr. simpl. rewrite Ht. split; [split; [done|]|done].
  destruct (last _) as [l|] eqn:Hlast; simpl; [|done].
  specialize (Hl l eq_refl). apply checked_next_Ok in Hl. naive_solver.
Qed.

(** A session that exists keeps a state. *)
Lemma replay_Some s ps o : replay (Some s) ps = Ok o → ∃ s', o = Some s'.
Proof.
  revert s. induction ps as [|p ps IH]; intros s; simpl; [naive_solver|].
  destruct (transition (Some s) p); [apply IH|done].
Qed.

(** An invariant of the lifecycle is established by rule induction: a set of
    states closed under every accepted event that does not satisfy [Q] is left
    only through an event that satisfies [Q]. *)
Lemma replay_guarded (P : SessionState → Prop) (Q : EventPayload → Prop)
    `{∀ p, Decision (Q p)} s ps s' :
  (∀ s p s', P s → ¬ Q p → transition (Some s) p = Ok s' → P s') →
  P s → replay (Some s) ps = Ok (Some s') → P s' ∨ Exists Q ps.
Proof.
  intros Hstep. revert s. induction ps as [|p ps IH]; intros s Hs; simpl.
  { intros [= <-]. by left. }
  destruct (transition (Some s) p) as [s1|] eqn:Ht; [|done]. intros Hr.
  destruct (decide (Q p)); [right; by left|].
  destruct (IH s1) as [|]; [by eapply Hstep|done|by left|right; by right].
Qed.

(** Case analysis over the states and the events the lifecycle accepts. *)
Ltac lifecycle :=
  repeat match goal with
    | H : transition (Some ?s) ?p = Ok _ |- _ =>
        first [is_var s; destruct s | idtac]; destruct p; simpl in H; try done
    | H : (match ?d with AD_Grant => _ | AD_Deny => _ end) = Ok _ |- _ => destruct d
    | H : (match ?r with RR_Retry => _ | RR_AcceptResult => _ | RR_Abandon => _ end) = Ok _ |- _ =>
        destruct r
    end; simplify_eq/=.

(** ** Properties *)

(** C28: [fold_history] accepts exactly the non-empty histories whose sequences are
    consecutive and whose events are, in order, legal transitions from the
    creation of the session; the state it returns is the last one reached. *)
Theorem fold_history_spec events s :
  fold_history events = Ok s ↔
  contiguous None events ∧ replay None (pe_payload <$> events) = Ok (Some s).
Proof. apply fold_history_Ok. Qed.

(** The event a control asks for, and the states in which it already holds. *)
Definition control_event (c : SessionControl) (id : Uuid) : EventPayload :=
  match c with
  | CT_Pause actor => EP_PauseRequested id actor
  | CT_Resume actor => EP_SessionResumed id actor
  | CT_Redirect actor instruction => EP_SessionRedirected id actor instruction
  | CT_Cancel actor => EP_CancelRequested id actor
  end.

Definition control_in_force (s : SessionState) (c : SessionControl) : bool :=
  match c, s with
  | CT_Pause _, (SS_Pausing | SS_Paused) => true
  | CT_Resume _, SS_Running => true
  | CT_Cancel _, SS_CancelRequested => true
  | _, _ => false
  end.

(** C39: Controls propose exactly the events the lifecycle accepts: the event of a
    control is appended when, and only when, the fold accepts it in the current
    state, with the state the control asks for as a result; a control that is
    already in force appends nothing; anything else is rejected. *)
Theorem decide_control_exact s c id :
  (∀ p, decide_control s c id = Ok (CO_Append p) ↔
     p = control_event c id ∧ is_ok (transition (Some s) p) = true) ∧
  (decide_control s c id = Ok CO_AlreadyApplied ↔ control_in_force s c = true) ∧
  (∀ e, decide_control s c id = Err e → e = invalid_transition ∧
     transition (Some s) (control_event c id) = Err invalid_transition).
Proof.
  split_and!.
  - intros p. destruct s, c; simpl; split; solve [intros; simplify_eq; done | intros [-> ?]; done].
  - destruct s, c; simpl; split; done.
  - intros e. destruct s, c; simpl; intros; by simplify_eq.
Qed.

(** The human decisions that let an interrupted session dispatch again. *)
Definition is_retry (p : EventPayload) : bool :=
  match p with EP_OutcomeReconciled _ RR_Retry _ => true | _ => false end.

Definition is_decision (p : EventPayload) : bool :=
  match p with EP_ApprovalRecorded _ _ _ => true | _ => is_retry p end.

(** The states an uncertain session stays in until a retry is decided. *)
Definition closed_without_retry (s : SessionState) : bool :=
  match s with
  | SS_OutcomeUnknown | SS_Completed | SS_Failed | SS_Cancelled | SS_Abandoned
  | SS_Deleting | SS_Deleted => true
  | _ => false
  end.

(** The states a session awaiting approval stays in until one is recorded and no
    uncertain outcome is retried. *)
Definition closed_without_approval (s : SessionState) : bool :=
  match s with SS_AwaitingApproval | SS_CancelRequested => true | _ => closed_without_retry s end.

(** C29: In every legal continuation of a session whose outcome is unknown, an
    external dispatch is preceded by a human decision to retry; and from the
    moment an approval is awaited no dispatch happens before a human has either
    decided the approval or decided to retry an uncertain outcome. *)
Theorem dispatch_needs_human_decision ps attempt handle s' :
  (replay (Some SS_OutcomeUnknown) (ps ++ [EP_DispatchStarted attempt handle]) = Ok (Some s') →
     Exists (λ p, is_retry p = true) ps) ∧
  (replay (Some SS_AwaitingApproval) (ps ++ [EP_DispatchStarted attempt handle]) = Ok (Some s') →
     Exists (λ p, is_decision p = true) ps).
Proof.
  split; rewrite replay_app; intros (o & Hps & Hd)%bind_Ok;
    apply replay_Some in Hps as Ho; destruct Ho as [s ->]; simpl in Hd.
  - destruct (replay_guarded (λ s, closed_without_retry s = true)
        (λ p, is_retry p = true) SS_OutcomeUnknown ps s) as [Hs|]; [|done..| |done].
    + clear. intros s p s' Hs Hp Ht. by lifecycle.
    + exfalso. by destruct s.
  - destruct (replay_guarded (λ s, closed_without_approval s = true)
        (λ p, is_decision p = true) SS_AwaitingApproval ps s) as [Hs|]; [|done..| |done].
    + clear. intros s p s' Hs Hp Ht. by lifecycle.
    + exfalso. by destruct s.
Qed.

Lemma dispatch_needs_human_decision_witness :
  Exists (λ p, is_retry p = true) [EP_OutcomeReconciled 1%N RR_Retry (Some 2%N)].
Proof.
  apply (proj1 (dispatch_needs_human_decision
    [EP_OutcomeReconciled 1%N RR_Retry (Some 2%N)] 2%N (Some "handle") SS_Running)).
  reflexivity.
Defined.

(** A session that reached a terminal state can only be exported or deleted: from
    then on every accepted history stays in that state, or moves to [Deleting] by
    an explicit deletion request and from there only to [Deleted], in which
    nothing at all is accepted. *)
Theorem terminal_absorbing s ps s' :
  is_terminal s = true → replay (Some s) ps = Ok (Some s') →
  (s = SS_Deleted → ps = []) ∧
  (s' = s ∨ s' = SS_Deleting ∨ s' = SS_Deleted) ∧
  (s' ≠ s → Exists (λ p, kind p = EK_SessionDeletionRequested) ps).
Proof.
  intros Hs Hr. split_and!.
  - intros ->. destruct ps as [|p ps]; [done|]. simpl in Hr. by destruct p.
  - destruct (replay_guarded (λ t, t = s ∨ t = SS_Deleting ∨ t = SS_Deleted)
      (λ _, False) s ps s') as [|Hf]; [|naive_solver..|].
    + intros t p t' Hor _ Ht. destruct Hor as [-> | [-> | ->]]; lifecycle; naive_solver.
    + by apply Exists_exists in Hf as (? & ? & []).
  - intros Hne. destruct (replay_guarded (λ t, t = s)
      (λ p, kind p = EK_SessionDeletionRequested) s ps s') as [|]; try done.
    intros t p t' -> Hp Ht. lifecycle; try done; by destruct Hp.
Qed.

Lemma terminal_absorbing_witness :
  SS_Deleted = SS_Completed ∨ SS_Deleted = SS_Deleting ∨ SS_Deleted = SS_Deleted.
Proof.
  apply (terminal_absorbing SS_Completed
    [EP_SessionDeletionRequested 1%N "user"; EP_SessionDeleted 1%N true] SS_Deleted);
  reflexivity.
Defined.
