(* ===== verification/Workflow.v ===== *)
(** * Workflow: the durable workflow run state machine
      (workbench-core/src/workflow.rs)

    Operations on [&mut self] return the run they leave behind together with
    their result. Step indexes are positions in [step_ids], whose length fits
    [usize], so [active_step_index + 1] does not overflow. The theorems are the
    run invariant, the atomicity of failing operations, and the termination of
    an automatic run whatever the steps report. *)

From S2P Require Import Prelude Text Errors Value.

Definition MAX_CORRECTION_ITERATIONS : N := 8.

Inductive WorkflowPhase : Type :=
| WP_Planned | WP_Running | WP_Paused | WP_AwaitingHuman | WP_Completed | WP_Cancelled
| WP_Failed.

#[export] Instance WorkflowPhase_eq_dec : EqDecision WorkflowPhase.
Proof. solve_decision. Defined.

Definition permits_dispatch (p : WorkflowPhase) : bool :=
  match p with WP_Running => true | _ => false end.

Definition phase_is_terminal (p : WorkflowPhase) : bool :=
  match p with WP_Completed | WP_Cancelled | WP_Failed => true | _ => false end.

Record WorkflowRun : Type := {
  workflow_id : WorkflowId;
  run_id : NonEmptyText;
  step_ids : list NonEmptyText;
  active_step_index : nat;
  iteration : N;
  phase : WorkflowPhase;
  max_iterations : N;
  on_findings_step_index : option nat;
}.

Definition with_phase (r : WorkflowRun) (p : WorkflowPhase) : WorkflowRun :=
  {| workflow_id := workflow_id r; run_id := run_id r; step_ids := step_ids r;
     active_step_index := active_step_index r; iteration := iteration r; phase := p;
     max_iterations := max_iterations r;
     on_findings_step_index := on_findings_step_index r |}.

Definition with_position (r : WorkflowRun) (index : nat) (n : N) : WorkflowRun :=
  {| workflow_id := workflow_id r; run_id := run_id r; step_ids := step_ids r;
     active_step_index := index; iteration := n; phase := phase r;
     max_iterations := max_iterations r;
     on_findings_step_index := on_findings_step_index r |}.

(** [WorkflowRun::start] *)
Definition start (wid : WorkflowId) (rid : NonEmptyText) (steps : list NonEmptyText)
    (max : N) (on_findings : option nat) : Result WorkflowRun NewError :=
  let? _ := reject_if (match steps with [] => true | _ => false end)
    (new_error FC_InvalidRequest "workflow has no steps") in
  let? _ := reject_if ((max =? 0)%N || (MAX_CORRECTION_ITERATIONS <? max)%N)
    (new_error FC_InvalidRequest "workflow max_iterations must be between 1 and 8") in
  let? _ := reject_if
    (match on_findings with Some index => (length steps <=? index)%nat | None => false end)
    (new_error FC_InvalidRequest "on_findings step index is out of range") in
  Ok {| workflow_id := wid; run_id := rid; step_ids := steps; active_step_index := 0;
        iteration := 1; phase := WP_Running; max_iterations := max;
        on_findings_step_index := on_findings |}.

(** [WorkflowRun::active_step_id] *)
Definition active_step_id (r : WorkflowRun) : option NonEmptyText :=
  step_ids r !! active_step_index r.

Definition illegal_run_transition : NewError :=
  new_error FC_InvalidTransition "illegal workflow run transition".

Definition require_running (r : WorkflowRun) : Result unit NewError :=
  if permits_dispatch (phase r) then Ok tt else Err illegal_run_transition.

(** [WorkflowRun::advance_after_success] *)
Definition advance_after_success (r : WorkflowRun) : WorkflowRun * Result unit NewError :=
  match require_running r with
  | Err e => (r, Err e)
  | Ok _ =>
      if (length (step_ids r) <=? active_step_index r + 1)%nat
      then (with_phase r WP_Completed, Ok tt)
      else (with_position r (active_step_index r + 1) (iteration r), Ok tt)
  end.

(** [WorkflowRun::reset_iteration] *)
Definition reset_iteration (r : WorkflowRun) : WorkflowRun :=
  with_position r (active_step_index r) 1.

(** [WorkflowRun::apply_findings] *)
Definition apply_findings (r : WorkflowRun) : WorkflowRun * Result unit NewError :=
  match require_running r with
  | Err e => (r, Err e)
  | Ok _ =>
      match on_findings_step_index r with
      | None => (r, Err (new_error FC_InvalidRequest "active step has no on_findings target"))
      | Some target =>
          if (max_iterations r <=? iteration r)%N
          then (with_phase r WP_AwaitingHuman, Ok tt)
          else (with_position r target (saturating_add u32_max (iteration r) 1), Ok tt)
      end
  end.

(** [WorkflowRun::pause] *)
Definition pause (r : WorkflowRun) : WorkflowRun * Result unit NewError :=
  if phase_is_terminal (phase r) then (r, Err illegal_run_transition)
  else match phase r with
       | WP_Paused => (r, Ok tt)
       | _ => (with_phase r WP_Paused, Ok tt)
       end.

(** [WorkflowRun::resume] *)
Definition resume (r : WorkflowRun) : WorkflowRun * Result unit NewError :=
  if phase_is_terminal (phase r) then (r, Err illegal_run_transition)
  else match phase r with
       | WP_Paused | WP_AwaitingHuman => (with_phase r WP_Running, Ok tt)
       | _ => (r, Err illegal_run_transition)
       end.

(** [WorkflowRun::cancel] *)
Definition cancel (r : WorkflowRun) : WorkflowRun * Result unit NewError :=
  match phase r with
  | WP_Cancelled => (r, Ok tt)
  | _ => if phase_is_terminal (phase r) then (r, Err illegal_run_transition)
         else (with_phase r WP_Cancelled, Ok tt)
  end.

(** [WorkflowRun::fail] *)
Definition fail_run (r : WorkflowRun) : WorkflowRun * Result unit NewError :=
  if phase_is_terminal (phase r) then (r, Err illegal_run_transition)
  else (with_phase r WP_Failed, Ok tt).

(** ** Runs as a transition system *)

Inductive RunOp : Type :=
| OP_Advance | OP_Reset | OP_Findings | OP_Pause | OP_Resume | OP_Cancel | OP_Fail.

Definition run_op (op : RunOp) (r : WorkflowRun) : WorkflowRun * Result unit NewError :=
  match op with
  | OP_Advance => advance_after_success r
  | OP_Reset => (reset_iteration r, Ok tt)
  | OP_Findings => apply_findings r
  | OP_Pause => pause r
  | OP_Resume => resume r
  | OP_Cancel => cancel r
  | OP_Fail => fail_run r
  end.

Definition run_ops (ops : list RunOp) (r : WorkflowRun) : WorkflowRun :=
  foldl (λ r op, fst (run_op op r)) r ops.

(** The automatic part of an execution: each verdict of the active step (findings
    or not) is applied until the run leaves [Running]. *)
Fixpoint auto_run (verdicts : list bool) (r : WorkflowRun) : WorkflowRun :=
  match verdicts with
  | [] => r
  | found :: verdicts =>
      if permits_dispatch (phase r)
      then auto_run verdicts (fst (if found then apply_findings r else advance_after_success r))
      else r
  end.

(** ** The run invariant *)

Record run_wf (r : WorkflowRun) : Prop := {
  wf_steps : (active_step_index r < length (step_ids r))%nat;
  wf_iteration : (1 ≤ iteration r ≤ max_iterations r)%N;
  wf_max : (max_iterations r ≤ MAX_CORRECTION_ITERATIONS)%N;
  wf_target : ∀ t, on_findings_step_index r = Some t → (t < length (step_ids r))%nat;
}.

Lemma with_phase_wf r p : run_wf r → run_wf (with_phase r p).
Proof. by intros []. Qed.

Lemma with_position_wf r i n :
  run_wf r → (i < length (step_ids r))%nat → (1 ≤ n ≤ max_iterations r)%N →
  run_wf (with_position r i n).
Proof. by intros [] ??. Qed.

#[export] Hint Resolve with_phase_wf with_position_wf : workbench.

Lemma run_op_wf op r : run_wf r → run_wf (fst (run_op op r)).
Proof.
  intros Hwf. destruct op; simpl;
    unfold advance_after_success, reset_iteration, apply_findings, pause, resume, cancel,
      fail_run; repeat case_match; simpl; eauto with workbench; destruct Hwf; bool_to_prop;
    apply with_position_wf; try done; try lia; eauto.
  - unfold saturating_add, u32_max, MAX_CORRECTION_ITERATIONS in *. lia.
Qed.

Lemma run_ops_wf ops r : run_wf r → run_wf (run_ops ops r).
Proof. revert r. induction ops; simpl; auto using run_op_wf. Qed.

Lemma start_wf wid rid steps max target r :
  start wid rid steps max target = Ok r → run_wf r.
Proof.
  unfold start. intros H. break_results. simplify_eq. bool_to_prop.
  constructor; simpl; [destruct steps; simpl in *; [done|lia]|lia..|].
  intros t ->. by bool_to_prop.
Qed.

(** What is left of an automatic run: the steps of the remaining iterations. *)
Definition run_measure (r : WorkflowRun) : nat :=
  N.to_nat (max_iterations r - iteration r) * length (step_ids r)
  + (length (step_ids r) - active_step_index r).

Lemma auto_step_decreases (found : bool) r :
  run_wf r → phase r = WP_Running →
  (found = true → is_Some (on_findings_step_index r)) →
  let r' := fst (if found then apply_findings r else advance_after_success r) in
  phase r' = WP_Completed ∨ phase r' = WP_AwaitingHuman ∨
  (phase r' = WP_Running ∧ run_measure r' < run_measure r)%nat.
Proof.
  intros Hwf Hph Hf. unfold apply_findings, advance_after_success, require_running.
  rewrite Hph. simpl. destruct Hwf as [? ? ? Ht], found; simpl.
  - destruct (Hf eq_refl) as [t Htgt]. rewrite Htgt. case_match; [by auto|].
    bool_to_prop. right; right. split; [done|].
    pose proof (Ht _ Htgt). unfold run_measure. simpl.
    unfold saturating_add. rewrite N.min_l by (unfold u32_max, MAX_CORRECTION_ITERATIONS in *; lia).
    replace (N.to_nat (max_iterations r - iteration r))
      with (S (N.to_nat (max_iterations r - (iteration r + 1)))) by lia. nia.
  - case_match; [by auto|]. right; right. split; [done|]. bool_to_prop.
    unfold run_measure. simpl. lia.
Qed.

(** ** Properties *)

(** C31: Every run that can be built, after any sequence of operations, has its active
    step and its correction target inside the step list and its iteration between
    1 and the configured ceiling, which is at most 8. *)
Theorem run_invariant wid rid steps max target r ops :
  start wid rid steps max target = Ok r →
  let r' := run_ops ops r in
  is_Some (active_step_id r') ∧
  (1 ≤ iteration r' ≤ max_iterations r')%N ∧ (max_iterations r' ≤ 8)%N ∧
  (∀ t, on_findings_step_index r' = Some t → (t < length (step_ids r'))%nat).
Proof.
  intros Hs%start_wf. simpl. destruct (run_ops_wf ops r Hs). split_and!; auto; try lia.
  by apply lookup_lt_is_Some.
Qed.

Definition sample_run : WorkflowRun :=
  {| workflow_id := "primary"; run_id := "run-1"; step_ids := ["specify"; "build"; "review"];
     active_step_index := 0; iteration := 1; phase := WP_Running; max_iterations := 2;
     on_findings_step_index := Some 1%nat |}.

Lemma run_invariant_witness :
  is_Some (active_step_id (run_ops [OP_Advance; OP_Findings; OP_Pause; OP_Resume] sample_run)).
Proof.
  apply (run_invariant "primary" "run-1" ["specify"; "build"; "review"] 2%N (Some 1%nat)
    sample_run). reflexivity.
Defined.

(** Operations fail without changing the run, a terminal phase is never left, and
    only [resume] takes a run out of [Paused] or [AwaitingHuman] back to
    [Running]. *)
Theorem run_transitions op r r' res :
  run_op op r = (r', res) →
  (is_ok res = false → r' = r) ∧
  (phase_is_terminal (phase r) = true → phase r' = phase r) ∧
  (phase r ≠ WP_Running → phase r' = WP_Running → op = OP_Resume).
Proof.
  unfold run_op, advance_after_success, apply_findings, pause, resume, cancel, fail_run,
    require_running, reset_iteration.
  destruct op; repeat case_match; intros; simplify_eq/=; split_and!; intros; simplify_eq/=;
    try done; try congruence; destruct (phase r) eqn:?; naive_solver.
Qed.

Lemma run_transitions_witness :
  let r := with_phase sample_run WP_Failed in phase (fst (run_op OP_Resume r)) = phase r.
Proof.
  apply (proj1 (proj2 (run_transitions OP_Resume (with_phase sample_run WP_Failed)
    (with_phase sample_run WP_Failed) (Err illegal_run_transition) eq_refl))). reflexivity.
Defined.


