(* ===== verification/Ports.v ===== *)
(** * Ports: the interfaces of the orchestration domain (workbench-core/src/ports.rs)

    The data that crosses the ports, and the event store port as a type class:
    [EventStore] holds the operations and [EventStoreLaws] the promises their
    documentation makes. Clients are verified against the laws; the in-memory store
    below and the SQLite storage ([StoragePorts]) discharge them. *)

From S2P Require Import Prelude Text Errors Value Attempt Policy Routing Event.

Inductive AuthenticationStatus : Type :=
| AS_Available | AS_Unavailable | AS_Expired | AS_InteractiveRequired.

#[export] Instance AuthenticationStatus_eq_dec : EqDecision AuthenticationStatus.
Proof. solve_decision. Defined.

Inductive ProviderCapability : Type :=
| PC_Streaming | PC_ToolCalling | PC_StructuredOutput | PC_SessionResume | PC_Cancellation
| PC_Vision | PC_Mcp | PC_Acp.

#[export] Instance ProviderCapability_eq_dec : EqDecision ProviderCapability.
Proof. solve_decision. Defined.

Record ProviderCapabilities : Type := {
  pc_adapter_id : ProviderId;
  pc_adapter_version : string;
  pc_protocol : string;
  pc_authentication : AuthenticationStatus;
  pc_capabilities : list ProviderCapability;
  pc_context_window_tokens : option N;
}.

Definition ProviderSessionHandle : Type := string.

(** [ProviderSessionHandle::new] *)
Definition ProviderSessionHandle_new (value : string) : Result ProviderSessionHandle NewError :=
  if is_empty value
  then Err (new_error FC_ProviderUnavailable "provider returned an empty session handle")
  else Ok value.

Record ProviderPrompt : Type := {
  pp_session_id : Uuid;
  pp_attempt_id : Uuid;
  pp_runtime_model : string;
  pp_content : NonEmptyText;
}.

Inductive ProviderOutput : Type :=
| PO_Acknowledged (provider_request_id : option string)
| PO_Content (event_type : string) (content : NonEmptyText)
| PO_Tool (event_type : string) (content : NonEmptyText)
| PO_Completed (summary : string).

Record ProviderFailure : Type := {
  pf_category : FailureCategory;
  pf_user_safe_message : string;
  pf_definite : bool;
}.

Inductive CancellationStatus : Type := CS_Confirmed | CS_Unconfirmed.

(** The part of [ProviderAdapter] an execution uses. The adapter is vendor code
    behind the port, so an execution is given its answers; a stream is the list of
    items it yields before it ends. *)
Record ProviderAdapter : Type := {
  start_session : Result ProviderSessionHandle ProviderFailure;
  prompt_stream : ProviderSessionHandle → ProviderPrompt →
    Result (list (Result ProviderOutput ProviderFailure)) ProviderFailure;
}.

(** ** The event store port *)

Class EventStore (St : Type) : Type := {
  store_append : St → NewEvent → OffsetDateTime → St * Result PersistedEvent NewError;
  store_load_after : St → Uuid → Cursor → St * Result (list PersistedEvent) NewError;
  store_history : St → Uuid → list PersistedEvent;
}.

(** [append] atomically allocates the next sequence and appends one event, or
    changes nothing; [load_after] replays strictly after the cursor. *)
Class EventStoreLaws (St : Type) `{EventStore St} : Prop := {
  append_Ok st st' ev t pe :
    store_append st ev t = (st', Ok pe) →
    pe_session_id pe = ne_session_id ev ∧
    pe_causation_request_id pe = ne_causation_request_id ev ∧
    pe_payload pe = ne_payload ev ∧
    pe_occurred_at pe = t ∧
    (∀ l, last (pe_sequence <$> store_history st (ne_session_id ev)) = Some l →
       checked_next l = Ok (pe_sequence pe)) ∧
    store_history st' (ne_session_id ev) = store_history st (ne_session_id ev) ++ [pe] ∧
    (∀ other, other ≠ ne_session_id ev → store_history st' other = store_history st other);
  append_Err st st' ev t e sid :
    store_append st ev t = (st', Err e) → store_history st' sid = store_history st sid;
  load_after_Ok st st' sid cursor events :
    store_load_after st sid cursor = (st', Ok events) →
    events = filter (λ e, (cursor < pe_sequence e)%N) (store_history st sid);
  load_after_same st st' sid cursor r x :
    store_load_after st sid cursor = (st', r) → store_history st' x = store_history st x;
}.

(** ** The command store port *)

Record RecordedCommand : Type := {
  rc_method : string;
  rc_canonical_parameter_hash : string;
  rc_outcome : string;
}.

#[export] Instance RecordedCommand_eq_dec : EqDecision RecordedCommand.
Proof. solve_decision. Defined.

Inductive CommandCommit : Type :=
| CC_Applied (event : PersistedEvent)
| CC_Replayed (command : RecordedCommand).

(** ** An in-memory event store

    The reference implementation of the port: one list of events per session and
    a counter of event identifiers. *)
Record MemoryStore : Type := {
  ms_events : gmap N (list PersistedEvent);
  ms_next_id : N;
}.

Definition memory_history (st : MemoryStore) (sid : Uuid) : list PersistedEvent :=
  default [] (ms_events st !! sid).

Definition memory_append (st : MemoryStore) (ev : NewEvent) (t : OffsetDateTime)
    : MemoryStore * Result PersistedEvent NewError :=
  let history := memory_history st (ne_session_id ev) in
  match match last (pe_sequence <$> history) with
        | Some l => checked_next l
        | None => Ok Sequence_FIRST
        end with
  | Err e => (st, Err e)
  | Ok sequence =>
      let pe := {| pe_event_id := ms_next_id st; pe_session_id := ne_session_id ev;
                   pe_sequence := sequence;
                   pe_causation_request_id := ne_causation_request_id ev;
                   pe_occurred_at := t; pe_payload := ne_payload ev |} in
      ({| ms_events := <[ne_session_id ev := history ++ [pe]]> (ms_events st);
          ms_next_id := ms_next_id st + 1 |}, Ok pe)
  end.

#[export] Instance MemoryStore_EventStore : EventStore MemoryStore := {
  store_append := memory_append;
  store_load_after := λ st sid cursor,
    (st, Ok (filter (λ e, (cursor < pe_sequence e)%N) (memory_history st sid)));
  store_history := memory_history;
}.

#[export] Instance MemoryStore_laws : EventStoreLaws MemoryStore.
Proof.
  split.
  - intros st st' ev t pe. simpl. unfold memory_append.
    destruct (last _) as [l|] eqn:Hl; [destruct (checked_next l) eqn:Hn; [|done]|];
      intros [= <- <-]; unfold memory_history in *; simpl; rewrite lookup_insert_eq;
      split_and!; try done; intros; rewrite ?lookup_insert_ne by done; congruence.
  - intros st st' ev t e sid. simpl. unfold memory_append. by repeat case_match; intros; simplify_eq.
  - intros st st' sid cursor events. simpl. congruence.
  - intros st st' sid cursor r x. simpl. congruence.
Qed.
