(* ===== verification/Orchestrator.v ===== *)
(** * Orchestrator: persist-before-effect execution
      (workbench-core/src/orchestrator.rs)

    [execute] runs in a state-and-error monad over a [World]: the event store, the
    number of clock readings so far, and the trace of what the execution did (every
    append with its success, every call of the adapter). The store is any
    implementation of the [EventStore] port; the theorems use its laws only. *)

From S2P Require Import Prelude Text Errors Value Attempt Policy Routing Event Session Ports.

Inductive ExecutionOutcome : Type := XO_Completed | XO_Failed | XO_OutcomeUnknown.

Record ExecutionRequest : Type := {
  xr_session_id : Uuid;
  xr_request_id : Uuid;
  xr_content : NonEmptyText;
  xr_plan : RoutingPlan;
  xr_operation : string;
  xr_operation_policy : OperationPolicy;
  xr_adapter : ProviderAdapter;
}.

(** The identifiers an execution draws; each is drawn at most once. *)
Record FreshIds : Type := {
  fi_input : Uuid;
  fi_attempt : Uuid;
  fi_correlation : Uuid;
}.

Inductive Effect : Type :=
| FX_Append (payload : EventPayload) (persisted : bool)
| FX_StartSession
| FX_PromptStream (handle : ProviderSessionHandle) (prompt : ProviderPrompt).

Section orchestrator.
  Context {St : Type} `{EventStore St}.
  Context (now : nat → OffsetDateTime) (ids : FreshIds).

Record World : Type := {
  w_store : St;
  w_clock : nat;
  w_trace : list Effect;
}.

Definition M (A : Type) : Type := World → World * Result A NewError.

Definition ret {A} (a : A) : M A := λ w, (w, Ok a).
Definition raise {A} (e : NewError) : M A := λ w, (w, Err e).
Definition lift {A} (r : Result A NewError) : M A := λ w, (w, r).
Definition bind {A B} (m : M A) (k : A → M B) : M B :=
  λ w, match m w with (w, Ok a) => k a w | (w, Err e) => (w, Err e) end.

Local Notation "'do?' x := m 'in' k" := (bind m (λ x, k))
  (at level 10, x name, m at level 200, k at level 200).

(** [Orchestrator::append] *)
Definition append (session_id request_id : Uuid) (payload : EventPayload) : M PersistedEvent :=
  λ w,
    let '(store, r) :=
      store_append (w_store w)
        {| ne_session_id := session_id; ne_causation_request_id := Some request_id;
           ne_payload := payload |}
        (now (w_clock w)) in
    ({| w_store := store; w_clock := S (w_clock w);
        w_trace := w_trace w ++ [FX_Append payload (is_ok r)] |}, r).

(** A call of the adapter is recorded in the trace. *)
Definition external {A} (fx : Effect) (answer : A) : M A :=
  λ w, ({| w_store := w_store w; w_clock := w_clock w; w_trace := w_trace w ++ [fx] |}, Ok answer).

(** [Orchestrator::record_unknown] *)
Definition record_unknown (session_id request_id attempt_id : Uuid) (reason : string)
    : M ExecutionOutcome :=
  do? _ := append session_id request_id
    (EP_OutcomeUnknown attempt_id reason [RR_Retry; RR_AcceptResult; RR_Abandon]) in
  ret XO_OutcomeUnknown.

(** [Orchestrator::record_stream_failure] *)
Definition record_stream_failure (session_id request_id attempt_id : Uuid)
    (failure : ProviderFailure) : M ExecutionOutcome :=
  if pf_definite failure then
    do? _ := append session_id request_id
      (EP_SessionFailed (Some attempt_id) (pf_user_safe_message failure)
         (fi_correlation ids)) in
    ret XO_Failed
  else record_unknown session_id request_id attempt_id (pf_user_safe_message failure).

(** [Orchestrator::record_provider_setup_failure] *)
Definition record_provider_setup_failure (session_id request_id attempt_id : Uuid)
    (failure : ProviderFailure) : M ExecutionOutcome :=
  record_stream_failure session_id request_id attempt_id failure.

(** The [while let] loop of [execute] and the tail after it. *)
Fixpoint consume_stream (session_id request_id attempt_id : Uuid)
    (stream : list (Result ProviderOutput ProviderFailure)) : M ExecutionOutcome :=
  match stream with
  | [] => record_unknown session_id request_id attempt_id
            "provider stream ended without a definite terminal result"
  | Ok (PO_Acknowledged provider_request_id) :: stream =>
      do? _ := append session_id request_id
        (EP_DispatchAcknowledged attempt_id provider_request_id) in
      consume_stream session_id request_id attempt_id stream
  | Ok (PO_Content event_type content) :: stream =>
      do? _ := append session_id request_id (EP_ProviderEvent attempt_id event_type content) in
      consume_stream session_id request_id attempt_id stream
  | Ok (PO_Tool event_type content) :: stream =>
      do? _ := append session_id request_id (EP_ToolEvent attempt_id event_type content) in
      consume_stream session_id request_id attempt_id stream
  | Ok (PO_Completed summary) :: _ =>
      do? _ := append session_id request_id
        (EP_SessionCompleted (Some attempt_id) summary (fi_correlation ids)) in
      ret XO_Completed
  | Err failure :: _ => record_stream_failure session_id request_id attempt_id failure
  end.

(** [execute] from the durable [DispatchStarted] on: the external calls. *)
Definition dispatch (request : ExecutionRequest) (attempt : Attempt) : M ExecutionOutcome :=
  let session_id := xr_session_id request in
  let request_id := xr_request_id request in
  do? started := external FX_StartSession (start_session (xr_adapter request)) in
  match started with
  | Err error => record_provider_setup_failure session_id request_id (at_id attempt) error
  | Ok handle =>
      let prompt :=
        {| pp_session_id := session_id; pp_attempt_id := at_id attempt;
           pp_runtime_model := rd_runtime_model (rp_destination (xr_plan request));
           pp_content := xr_content request |} in
      do? stream := external (FX_PromptStream handle prompt)
                      (prompt_stream (xr_adapter request) handle prompt) in
      match stream with
      | Err error => record_provider_setup_failure session_id request_id (at_id attempt) error
      | Ok stream => consume_stream session_id request_id (at_id attempt) stream
      end
  end.

(** The permission gate of [execute]. *)
Definition permission_gate (permission : PermissionScope) : Result unit NewError :=
  match permission with
  | SC_Denied => Err (new_error FC_PolicyDenied "route is denied by effective policy")
  | SC_ApprovalRequired =>
      Err (new_error FC_ApprovalRequired "route requires recorded approval before dispatch")
  | SC_ReadOnly => Ok tt
  end.

(** [Orchestrator::execute] *)
Definition execute (request : ExecutionRequest) : M ExecutionOutcome :=
  let session_id := xr_session_id request in
  let request_id := xr_request_id request in
  do? _ := append session_id request_id (EP_InputRecorded (fi_input ids) (xr_content request)) in
  do? _ := append session_id request_id (EP_RoutingPlanned (xr_plan request)) in
  do? _ := lift (permission_gate (rc_permission (rp_context (xr_plan request)))) in
  do? attempt := lift (plan (xr_operation request) (xr_operation_policy request)
                         (fi_attempt ids)) in
  do? _ := append session_id request_id
    (EP_DispatchPlanned (at_id attempt) (effect_class (at_policy attempt))
       (at_operation attempt) (explicitly_idempotent (at_policy attempt))) in
  let '(attempt, marked) := mark_started attempt in
  do? _ := lift marked in
  do? _ := append session_id request_id (EP_DispatchStarted (at_id attempt) None) in
  dispatch request attempt.

(** ** Lemmas *)

(** [m] run in any world satisfying [P] leaves a world satisfying [Q] with its
    value, or [E] with its error. *)
Definition triple {A} (P : World → Prop) (m : M A) (Q : A → World → Prop)
    (E : NewError → World → Prop) : Prop :=
  ∀ w, P w → match m w with (w', Ok a) => Q a w' | (w', Err e) => E e w' end.

Lemma triple_bind {A B} P (m : M A) (k : A → M B) R Q E :
  triple P m R E → (∀ a, triple (R a) (k a) Q E) → triple P (bind m k) Q E.
Proof.
  intros Hm Hk w Hw. unfold bind. specialize (Hm w Hw).
  destruct (m w) as [w1 [a|e]]; [by apply (Hk a)|done].
Qed.

Lemma triple_ret {A} (P : World → Prop) (a : A) (Q : A → World → Prop) E :
  (∀ w, P w → Q a w) → triple P (ret a) Q E.
Proof. intros HQ w Hw. by apply HQ. Qed.

Lemma triple_lift {A} P (r : Result A NewError) :
  triple P (lift r) (λ a w, r = Ok a ∧ P w) (λ e w, r = Err e ∧ P w).
Proof. intros w Hw. unfold lift. by destruct r. Qed.

Lemma triple_lift_Ok {A} P (a : A) E : triple P (lift (Ok a)) (λ _, P) E.
Proof. by intros w Hw. Qed.

Lemma triple_lift_any {A} P (r : Result A NewError) : triple P (lift r) (λ _, P) (λ _, P).
Proof. intros w Hw. unfold lift. by destruct r. Qed.

Lemma triple_weaken {A} P (m : M A) (Q Q' : A → World → Prop) (E E' : NewError → World → Prop) :
  triple P m Q E → (∀ a w, Q a w → Q' a w) → (∀ e w, E e w → E' e w) → triple P m Q' E'.
Proof. intros Hm HQ HE w Hw. specialize (Hm w Hw). destruct (m w) as [w' []]; auto. Qed.

(** *** Trace reasoning *)

(** The appends that must be durable before the adapter is called. *)
Definition dispatch_record (request : ExecutionRequest) : list Effect :=
  [FX_Append (EP_InputRecorded (fi_input ids) (xr_content request)) true;
   FX_Append (EP_RoutingPlanned (xr_plan request)) true;
   FX_Append (EP_DispatchPlanned (fi_attempt ids)
                (effect_class (xr_operation_policy request)) (xr_operation request)
                (explicitly_idempotent (xr_operation_policy request))) true;
   FX_Append (EP_DispatchStarted (fi_attempt ids) None) true].

Definition is_append (fx : Effect) : bool :=
  match fx with FX_Append _ _ => true | _ => false end.

(** A world whose trace is [t] followed by appends only. *)
Definition appended_since (t : list Effect) (w : World) : Prop :=
  ∃ appends, w_trace w = t ++ appends ∧ Forall (λ fx, is_append fx = true) appends.

Lemma triple_append_trace t s r p :
  triple (λ w, w_trace w = t) (append s r p)
    (λ _ w, w_trace w = t ++ [FX_Append p true]) (λ _ w, w_trace w = t ++ [FX_Append p false]).
Proof. intros w <-. unfold append. by destruct (store_append _ _ _) as [? []]. Qed.

Lemma triple_append_since t s r p :
  triple (appended_since t) (append s r p) (λ _, appended_since t) (λ _, appended_since t).
Proof.
  intros w (l & Hw & Hl). unfold append. destruct (store_append _ _ _) as [? []]; simpl;
    eexists (l ++ [_]); (split; [simpl; by rewrite Hw, <-app_assoc|]);
    apply Forall_app; split; auto.
Qed.

Lemma triple_record_unknown_since t s r a reason :
  triple (appended_since t) (record_unknown s r a reason)
    (λ _, appended_since t) (λ _, appended_since t).
Proof. eapply triple_bind; [apply triple_append_since|]. intros. by apply triple_ret. Qed.

Lemma triple_failure_since t s r a f :
  triple (appended_since t) (record_stream_failure s r a f)
    (λ _, appended_since t) (λ _, appended_since t).
Proof.
  unfold record_stream_failure. case_match; [|apply triple_record_unknown_since].
  eapply triple_bind; [apply triple_append_since|]. intros. by apply triple_ret.
Qed.

Lemma triple_consume_since t s r a stream :
  triple (appended_since t) (consume_stream s r a stream)
    (λ _, appended_since t) (λ _, appended_since t).
Proof.
  induction stream as [|[[]|f] stream IH]; simpl;
    [apply triple_record_unknown_since| | | | |apply triple_failure_since];
    (eapply triple_bind; [apply triple_append_since|]; intros; try apply IH; by apply triple_ret).
Qed.

(** What the adapter is asked for the request. *)
Definition request_prompt (request : ExecutionRequest) : ProviderPrompt :=
  {| pp_session_id := xr_session_id request; pp_attempt_id := fi_attempt ids;
     pp_runtime_model := rd_runtime_model (rp_destination (xr_plan request));
     pp_content := xr_content request |}.

(** The adapter calls an execution can make, in order. *)
Definition adapter_calls (request : ExecutionRequest) (calls : list Effect) : Prop :=
  calls = [FX_StartSession] ∨
  ∃ handle, calls = [FX_StartSession; FX_PromptStream handle (request_prompt request)].

Definition gate_open (request : ExecutionRequest) : Prop :=
  rc_permission (rp_context (xr_plan request)) = SC_ReadOnly ∧
  OperationPolicy_validate (xr_operation_policy request) = Ok tt.

(** The trace of an execution: appends only, or the dispatch record, the adapter
    calls and further appends. *)
Definition trace_shape (request : ExecutionRequest) (w : World) : Prop :=
  Forall (λ fx, is_append fx = true) (w_trace w) ∨
  gate_open request ∧
  ∃ calls, adapter_calls request calls ∧ appended_since (dispatch_record request ++ calls) w.

Lemma triple_dispatch_shape request attempt :
  gate_open request → at_id attempt = fi_attempt ids →
  triple (λ w, w_trace w = dispatch_record request) (dispatch request attempt)
    (λ _, trace_shape request) (λ _, trace_shape request).
Proof.
  intros Hgate Hid w Hw. unfold dispatch, bind, external. rewrite Hid.
  set (t1 := dispatch_record request ++ [FX_StartSession]).
  destruct (start_session _) as [handle|f].
  - set (t2 := dispatch_record request ++
      [FX_StartSession; FX_PromptStream handle (request_prompt request)]).
    set (w2 := {| w_store := w_store w; w_clock := w_clock w; w_trace := t2 |}).
    assert (Hw2 : appended_since t2 w2) by (exists []; by rewrite app_nil_r).
    assert (Hshape : ∀ w', appended_since t2 w' → trace_shape request w').
    { intros w' Hw'. right. split; [done|]. eexists. split; [right; by exists handle|done]. }
    simpl. rewrite Hw, <-app_assoc. simpl. fold (request_prompt request). fold t2. fold w2.
    destruct (prompt_stream _ _ _) as [stream|f].
    + by refine (triple_weaken _ _ _ _ _ _ (triple_consume_since t2 _ _ _ stream) _ _ w2 Hw2);
        intros; apply Hshape.
    + by refine (triple_weaken _ _ _ _ _ _ (triple_failure_since t2 _ _ _ f) _ _ w2 Hw2);
        intros; apply Hshape.
  - simpl. rewrite Hw. fold t1.
    set (w1 := {| w_store := w_store w; w_clock := w_clock w; w_trace := t1 |}).
    refine (triple_weaken _ _ _ _ _ _ (triple_failure_since t1 _ _ _ f) _ _ w1 _);
      [..|exists []; by rewrite app_nil_r];
      (intros x w' Hw'; right; split; [done|]; eexists; split; [by left|done]).
Qed.

Lemma triple_execute_shape request :
  triple (λ w, w_trace w = []) (execute request)
    (λ _, trace_shape request) (λ _, trace_shape request).
Proof.
  assert (Herr : ∀ t p, Forall (λ fx, is_append fx = true) t →
    ∀ (e : NewError) w, w_trace w = t ++ [FX_Append p false] → trace_shape request w).
  { intros t p Ht e w Hw. left. rewrite Hw. apply Forall_app; auto. }
  unfold execute.
  eapply triple_bind; [eapply triple_weaken; [apply triple_append_trace|done|by apply Herr]|].
  intros ?. eapply triple_bind;
    [eapply triple_weaken; [apply triple_append_trace|done|apply Herr; by repeat constructor]|].
  intros ?. simpl. eapply triple_bind; [eapply triple_weaken; [apply triple_lift|done|]|].
  { intros e w [_ Hw]. left. rewrite Hw. by repeat constructor. }
  intros u. eapply triple_bind; [eapply triple_weaken; [apply triple_lift|done|]|].
  { intros e w (_ & _ & Hw). left. rewrite Hw. by repeat constructor. }
  intros attempt w (Hplan & Hgate & Hw).
  assert (gate_open request) as Hopen.
  { unfold permission_gate in Hgate. split; [by destruct (rc_permission _)|].
    unfold plan in Hplan. by destruct (OperationPolicy_validate _) as [[]|]. }
  unfold plan in Hplan. break_results. injection Hplan as <-. simpl.
  revert w Hw. eapply triple_bind.
  { eapply triple_weaken; [apply triple_append_trace|done|apply Herr; by repeat constructor]. }
  intros ?. eapply triple_bind; [apply triple_lift_Ok|]. intros ?.
  eapply triple_bind.
  { eapply triple_weaken; [apply triple_append_trace|done|apply Herr; by repeat constructor]. }
  intros ?. by apply triple_dispatch_shape.
Qed.

(** An element outside [P] comes after every leading element inside it. *)
Lemma prefix_of_first_violation {A} (P : A → Prop) l m pre x post :
  Forall P l → ¬ P x → l ++ m = pre ++ x :: post → l `prefix_of` pre.
Proof.
  intros Hl Hx. revert pre. induction Hl as [|y l Hy Hl IH]; intros pre Heq.
  - apply prefix_nil.
  - destruct pre as [|z pre]; simplify_eq/=; [done|]. apply prefix_cons. by eapply IH.
Qed.

(** *** Durable reasoning *)

(** The session's history folds to one of the states [ss]. *)
Definition folds_to (sid : Uuid) (ss : list SessionState) (w : World) : Prop :=
  ∃ s, fold_history (store_history (w_store w) sid) = Ok s ∧ s ∈ ss.

Context `{!EventStoreLaws St}.

Lemma triple_append_legal sid rid p ss ss' :
  (∀ s, s ∈ ss → ∃ s', transition (Some s) p = Ok s' ∧ s' ∈ ss') →
  triple (folds_to sid ss) (append sid rid p) (λ _, folds_to sid ss') (λ _, folds_to sid ss).
Proof.
  intros Hss w (s & Hs & Hin). unfold append.
  destruct (store_append _ _ _) as [store' [pe|e]] eqn:Happ; unfold folds_to; simpl.
  - apply append_Ok in Happ as (_ & _ & Hp & _ & Hseq & Hhist & _). simpl in *.
    destruct (Hss s Hin) as (s' & Ht & Hin'). exists s'. split; [|done].
    rewrite Hhist. eapply fold_history_snoc; [done|done|by rewrite Hp].
  - exists s. by rewrite (append_Err _ _ _ _ _ sid Happ).
Qed.

Definition active_states : list SessionState := [SS_Ready; SS_Running].

Definition outcome_state (o : ExecutionOutcome) : SessionState :=
  match o with
  | XO_Completed => SS_Completed
  | XO_Failed => SS_Failed
  | XO_OutcomeUnknown => SS_OutcomeUnknown
  end.

Lemma triple_record_unknown_legal sid rid a reason :
  triple (folds_to sid [SS_Running]) (record_unknown sid rid a reason)
    (λ o, folds_to sid [outcome_state o]) (λ _, folds_to sid [SS_Running]).
Proof.
  eapply triple_bind; [apply (triple_append_legal _ _ _ _ [SS_OutcomeUnknown])|];
    [set_solver|]. intros. by apply triple_ret.
Qed.

Lemma triple_failure_legal sid rid a f :
  triple (folds_to sid [SS_Running]) (record_stream_failure sid rid a f)
    (λ o, folds_to sid [outcome_state o]) (λ _, folds_to sid [SS_Running]).
Proof.
  unfold record_stream_failure. case_match; [|apply triple_record_unknown_legal].
  eapply triple_bind; [apply (triple_append_legal _ _ _ _ [SS_Failed])|]; [set_solver|].
  intros. by apply triple_ret.
Qed.

Lemma triple_consume_legal sid rid a stream :
  triple (folds_to sid [SS_Running]) (consume_stream sid rid a stream)
    (λ o, folds_to sid [outcome_state o]) (λ _, folds_to sid [SS_Running]).
Proof.
  induction stream as [|[[]|f] stream IH]; simpl;
    [apply triple_record_unknown_legal| | | | |apply triple_failure_legal].
  1-3: eapply triple_bind; [apply (triple_append_legal _ _ _ _ [SS_Running]); set_solver|];
    intros; apply IH.
  eapply triple_bind; [apply (triple_append_legal _ _ _ _ [SS_Completed])|]; [set_solver|].
  intros. by apply triple_ret.
Qed.

Lemma triple_dispatch_legal request attempt :
  triple (folds_to (xr_session_id request) [SS_Running]) (dispatch request attempt)
    (λ o, folds_to (xr_session_id request) [outcome_state o])
    (λ _, folds_to (xr_session_id request) [SS_Running]).
Proof.
  intros w Hw. unfold dispatch, bind, external. destruct (start_session _) as [handle|f].
  - destruct (prompt_stream _ _ _) as [stream|f].
    + by apply triple_consume_legal.
    + by apply triple_failure_legal.
  - by apply triple_failure_legal.
Qed.

Lemma triple_execute_legal request :
  triple (folds_to (xr_session_id request) active_states) (execute request)
    (λ o, folds_to (xr_session_id request) [outcome_state o])
    (λ _, folds_to (xr_session_id request) active_states).
Proof.
  assert (Hstay : ∀ p, (∀ s, s ∈ active_states → transition (Some s) p = Ok s) →
    triple (folds_to (xr_session_id request) active_states)
      (append (xr_session_id request) (xr_request_id request) p)
      (λ _, folds_to (xr_session_id request) active_states)
      (λ _, folds_to (xr_session_id request) active_states))
    by (intros p Hp; apply triple_append_legal; naive_solver).
  unfold execute.
  eapply triple_bind; [apply Hstay; set_solver|]; intros ?.
  eapply triple_bind; [apply Hstay; set_solver|]; intros ?.
  eapply triple_bind; [apply triple_lift_any|]; intros ?.
  eapply triple_bind; [apply triple_lift_any|].
  intros attempt.
  eapply triple_bind; [apply Hstay; set_solver|]; intros ?.
  destruct (mark_started attempt) as [started marked].
  eapply triple_bind; [apply triple_lift_any|].
  intros ?. eapply triple_bind; [apply (triple_append_legal _ _ _ _ [SS_Running]); set_solver|].
  intros ?. eapply triple_weaken; [apply triple_dispatch_legal|done|].
  intros e w (s & Hs & Hin). exists s. set_solver.
Qed.

(** ** Properties *)

(** C1: Persist before effect: at the moment of any call to the provider adapter, the
    input, the routing plan, the planned dispatch and the started dispatch have
    all been durably appended, in that order and for the attempt that is sent; the
    route is read-only and the operation policy valid; and an execution calls the
    adapter at most once to start a session and once to prompt it, with the
    recorded content. *)
Theorem persist_before_effect request w w' r :
  w_trace w = [] → execute request w = (w', r) →
  (∀ pre fx post, w_trace w' = pre ++ fx :: post → is_append fx = false →
     dispatch_record request `prefix_of` pre ∧ gate_open request) ∧
  (filter (λ fx, is_append fx = false) (w_trace w') = [] ∨
   adapter_calls request (filter (λ fx, is_append fx = false) (w_trace w'))).
Proof.
  intros Hw Hex. assert (trace_shape request w') as Hshape.
  { pose proof (triple_execute_shape request w Hw) as Ht. rewrite Hex in Ht. by destruct r. }
  assert (Hnone : ∀ l, Forall (λ fx, is_append fx = true) l →
    filter (λ fx, is_append fx = false) l = []).
  { intros l Hl. induction Hl as [|x l Hx Hl IH]; [done|]. rewrite filter_cons, decide_False; [done|].
    by rewrite Hx. }
  destruct Hshape as [Hall|(Hopen & calls & Hcalls & apps & Htr & Happs)].
  - split; [|left; by apply Hnone]. intros pre fx post Heq Hfx. rewrite Heq in Hall.
    apply Forall_app in Hall as [_ [Hbad _]%Forall_cons]. congruence.
  - rewrite Htr, <-!app_assoc. split.
    + intros pre fx post Heq Hfx. split; [|done].
      eapply (prefix_of_first_violation (λ fx, is_append fx = true)); [| |exact Heq];
        [by repeat constructor|by rewrite Hfx].
    + right. rewrite !filter_app, (Hnone apps) by done. rewrite app_nil_r.
      destruct Hcalls as [->|[handle ->]]; [by left|right; by exists handle].
Qed.

(** C2: Durable outcome: an execution of a session whose history folds to [Ready] or
    [Running] always leaves a history that folds. When it returns an outcome, the
    folded state is that outcome; when it returns an error, the session is still
    [Ready] or [Running], so the attempt remains visible to recovery. *)
Theorem execution_durable request w w' r s :
  fold_history (store_history (w_store w) (xr_session_id request)) = Ok s →
  s = SS_Ready ∨ s = SS_Running →
  execute request w = (w', r) →
  ∃ s', fold_history (store_history (w_store w') (xr_session_id request)) = Ok s' ∧
    match r with
    | Ok outcome => s' = outcome_state outcome
    | Err _ => s' = SS_Ready ∨ s' = SS_Running
    end.
Proof.
  intros Hs Hin Hex.
  pose proof (triple_execute_legal request w) as Ht. rewrite Hex in Ht.
  assert (folds_to (xr_session_id request) active_states w) as Hw
    by (exists s; split; [done|]; set_solver).
  destruct r as [o|e]; destruct (Ht Hw) as (s' & Hs' & Hin'); exists s'; split; try done;
    unfold active_states in *; set_solver.
Qed.

End orchestrator.

(** ** A concrete execution over the in-memory store *)

Definition sample_plan : RoutingPlan :=
  {| rp_intent := "implement";
     rp_destination := {| rd_role := "engineer"; rd_model_alias := "primary";
                          rd_provider := "claude"; rd_runtime_model := "model" |};
     rp_context := {| rc_tools := []; rc_data_sources := []; rc_permission := SC_ReadOnly |};
     rp_risk := Risk_Low; rp_confidence := f64_one; rp_selected_by := SR_Explicit |}.

Definition sample_request : ExecutionRequest :=
  {| xr_session_id := 1; xr_request_id := 2; xr_content := "hello"; xr_plan := sample_plan;
     xr_operation := "prompt";
     xr_operation_policy := {| effect_class := EF_PaidInference;
                               explicitly_idempotent := false; material_cost := true |};
     xr_adapter := {| start_session := Ok "handle";
                      prompt_stream := λ _ _, Ok [Ok (PO_Content "text" "hi");
                                                  Ok (PO_Completed "done")] |} |}%N.

Definition sample_ids : FreshIds := {| fi_input := 3; fi_attempt := 4; fi_correlation := 5 |}%N.

(** A store in which session 1 has just been created. *)
Definition sample_world : World (St := MemoryStore) :=
  {| w_store := fst (memory_append {| ms_events := ∅; ms_next_id := 10%N |}
       {| ne_session_id := 1%N; ne_causation_request_id := None;
          ne_payload := EP_SessionCreated "config" "lock" |} 0%Z);
     w_clock := 0; w_trace := [] |}.

Definition sample_clock (n : nat) : OffsetDateTime := Z.of_nat n.

Lemma persist_before_effect_witness :
  let w' := fst (execute sample_clock sample_ids sample_request sample_world) in
  dispatch_record sample_ids sample_request `prefix_of` take 4 (w_trace w') ∧
  gate_open sample_request.
Proof.
  intros w'.
  apply (proj1 (persist_before_effect (St := MemoryStore) (H := MemoryStore_EventStore) sample_clock sample_ids sample_request sample_world w'
    (Ok XO_Completed) eq_refl ltac:(vm_compute; reflexivity)) (take 4 (w_trace w'))
    FX_StartSession (drop 5 (w_trace w'))); vm_compute; reflexivity.
Defined.

Lemma execution_durable_witness :
  let w' := fst (execute sample_clock sample_ids sample_request sample_world) in
  ∃ s', fold_history (store_history (w_store w') 1%N) = Ok s' ∧ s' = SS_Completed.
Proof.
  apply (execution_durable sample_clock sample_ids sample_request sample_world
    (fst (execute sample_clock sample_ids sample_request sample_world))
    (Ok XO_Completed) SS_Ready); 
    [vm_compute; reflexivity | left; reflexivity | vm_compute; reflexivity].
Defined.
