(* ===== verification/Json.v ===== *)
(** * Json: JSON documents and strict parsing
      (serde_json's value model and workbench-protocol/src/validation.rs)

    A [Value] is a JSON document. serde_json's [Map] is a B-tree map, so the
    values the program holds have their object keys in strictly increasing order
    ([value_wf]); a document as it is presented to a deserializer may have its
    keys in any order and repeated. [canonical] is the value such a document
    denotes, and [strict_value] the visitor that refuses repeated keys. *)

From Stdlib Require Import Sorting.Sorted.
From S2P Require Import Prelude Text BTree.

(** [serde_json::Number]: unsigned, negative, or finite binary64. *)
Inductive Number : Type :=
| PosInt (n : N)
| NegInt (z : Z)
| Float (f : f64).

#[export] Instance Number_eq_dec : EqDecision Number.
Proof. solve_decision. Defined.

Inductive Value : Type :=
| VNull
| VBool (b : bool)
| VNumber (n : Number)
| VString (s : string)
| VArray (vs : list Value)
| VObject (es : list (string * Value)).

(** Induction over a value and, at the same time, over the values it contains. *)
Section value_ind.
Context (P : Value → Prop).
Context (Hnull : P VNull) (Hbool : ∀ b, P (VBool b)) (Hnum : ∀ n, P (VNumber n))
  (Hstr : ∀ s, P (VString s)).
Context (Harr : ∀ vs, Forall P vs → P (VArray vs)).
Context (Hobj : ∀ es, Forall (λ e, P e.2) es → P (VObject es)).

Fixpoint Value_nested_ind (v : Value) : P v :=
  match v with
  | VNull => Hnull
  | VBool b => Hbool b
  | VNumber n => Hnum n
  | VString s => Hstr s
  | VArray vs =>
      Harr vs ((fix go vs : Forall P vs :=
        match vs with
        | [] => Forall_nil_2 _
        | v :: vs => Forall_cons_2 _ _ _ (Value_nested_ind v) (go vs)
        end) vs)
  | VObject es =>
      Hobj es ((fix go es : Forall (λ e, P e.2) es :=
        match es with
        | [] => Forall_nil_2 _
        | e :: es => Forall_cons_2 _ e es (Value_nested_ind e.2) (go es)
        end) es)
  end.
End value_ind.

Definition is_object (v : Value) : bool := match v with VObject _ => true | _ => false end.
Definition as_object (v : Value) : option (BTreeMap Value) :=
  match v with VObject m => Some m | _ => None end.
Definition as_str (v : Value) : option string :=
  match v with VString s => Some s | _ => None end.

(** The keys of a document, at every depth, are distinct in each object. *)
Fixpoint duplicate_free (v : Value) : bool :=
  match v with
  | VArray vs => forallb duplicate_free vs
  | VObject es => all_distinct (es.*1) && forallb (λ e, duplicate_free (snd e)) es
  | _ => true
  end.

Definition number_finite (n : Number) : bool :=
  match n with Float f => is_finite f | _ => true end.

Fixpoint numbers_finite (v : Value) : bool :=
  match v with
  | VNumber n => number_finite n
  | VArray vs => forallb numbers_finite vs
  | VObject es => forallb (λ e, numbers_finite (snd e)) es
  | _ => true
  end.

(** The value a document denotes: every object as a map. *)
Fixpoint canonical (v : Value) : Value :=
  match v with
  | VArray vs => VArray (List.map canonical vs)
  | VObject es => VObject (bt_from_list (List.map (λ e, (fst e, canonical (snd e))) es))
  | v => v
  end.

Fixpoint value_wf (v : Value) : bool :=
  match v with
  | VNumber n => number_finite n
  | VArray vs => forallb value_wf vs
  | VObject es => keys_sorted (es.*1) && forallb (λ e, value_wf (snd e)) es
  | _ => true
  end.

(** [StrictValueVisitor]: the keys seen so far and the map built so far. *)
Fixpoint strict_value (doc : Value) : Result Value string :=
  match doc with
  | VNumber (Float f) =>
      if is_finite f then Ok (VNumber (Float f)) else Err "non-finite JSON number"
  | VArray vs =>
      let? values :=
        (fix visit_seq (vs : list Value) : Result (list Value) string :=
           match vs with
           | [] => Ok []
           | v :: vs => let? value := strict_value v in
                        let? values := visit_seq vs in Ok (value :: values)
           end) vs in
      Ok (VArray values)
  | VObject es =>
      let? values :=
        (fix visit_map (keys : list string) (values : BTreeMap Value)
             (es : list (string * Value)) : Result (BTreeMap Value) string :=
           match es with
           | [] => Ok values
           | (key, v) :: es =>
               if set_contains key keys then Err ("duplicate JSON key: " +:+ key)
               else let? value := strict_value v in
                    visit_map (key :: keys) (bt_insert key value values) es
           end) [] [] es in
      Ok (VObject values)
  | doc => Ok doc
  end.

(** ** Lemmas *)

(** The two loops of the visitor, with the recursive call as an argument. *)
Fixpoint visit_map (f : Value → Result Value string) (keys : list string)
    (values : BTreeMap Value) (es : list (string * Value)) : Result (BTreeMap Value) string :=
  match es with
  | [] => Ok values
  | (key, v) :: es =>
      if set_contains key keys then Err ("duplicate JSON key: " +:+ key)
      else let? value := f v in
           visit_map f (key :: keys) (bt_insert key value values) es
  end.

Lemma strict_value_array vs :
  strict_value (VArray vs) = let? values := try_collect strict_value vs in Ok (VArray values).
Proof.
  simpl. match goal with |- match ?x with _ => _ end = _ =>
    enough (x = try_collect strict_value vs) as -> by done end.
  induction vs as [|v vs IH]; simpl; [done|].
  destruct (strict_value v); [|done]. by rewrite IH.
Qed.

Lemma strict_value_object es :
  strict_value (VObject es) =
  let? values := visit_map strict_value [] [] es in Ok (VObject values).
Proof.
  simpl. match goal with |- match ?x with _ => _ end = _ =>
    enough (x = visit_map strict_value [] [] es) as -> by done end.
  generalize (@nil string) ([] : BTreeMap Value).
  induction es as [|[k v] es IH]; intros ks m; simpl; [done|].
  destruct (set_contains k ks); [done|]. destruct (strict_value v); [|done]. apply IH.
Qed.

Definition insert_entry (m : BTreeMap Value) (kv : string * Value) : BTreeMap Value :=
  bt_insert kv.1 kv.2 m.

(** The map loop succeeds exactly on fresh, distinct keys with accepted values. *)
Lemma visit_map_Ok f keys values es m :
  visit_map f keys values es = Ok m ↔
  NoDup (es.*1) ∧ Forall (λ k, k ∉ keys) (es.*1) ∧
  ∃ vs, Forall2 (λ e v, f e.2 = Ok v) es vs ∧
        m = foldl insert_entry values (zip (es.*1) vs).
Proof.
  revert keys values. induction es as [|[k v] es IH]; intros keys values; simpl.
  { split.
    - intros [= ->]. split_and!; [constructor|constructor|]. by exists [].
    - intros (_ & _ & vs & Hvs & ->). by apply Forall2_nil_inv_l in Hvs as ->. }
  destruct (set_contains k keys) eqn:Hk.
  { apply set_contains_true in Hk. split; [done|]. intros (_ & Hf & _).
    by apply Forall_cons in Hf as [[] _]. }
  apply not_true_iff_false in Hk. rewrite set_contains_true in Hk.
  destruct (f v) as [w|e] eqn:Hv.
  2:{ split; [done|]. intros (_ & _ & vs & Hvs & _). inversion Hvs; subst; simpl in *; congruence. }
  rewrite IH, NoDup_cons, Forall_cons. split.
  - intros (Hnd & Hf & vs & Hvs & ->). split_and!; try done.
    + intros Hin. rewrite Forall_forall in Hf. apply (Hf k); [done|left].
    + eapply Forall_impl; [exact Hf|]. intros x Hx. set_solver.
    + exists (w :: vs). by split; [constructor|].
  - intros ([Hnin Hnd] & [_ Hf] & vs & Hvs & ->). inversion Hvs as [|? w' ? vs' Hw Hvs']; subst.
    simpl in Hw. rewrite Hv in Hw. simplify_eq. split_and!; [done| |by exists vs'].
    rewrite Forall_forall in *. intros x Hx. specialize (Hf x Hx). set_solver.
Qed.

Lemma forallb_Forall {A} (p : A → bool) l : forallb p l = true ↔ Forall (λ x, p x = true) l.
Proof.
  induction l as [|x l IH]; simpl; [by split; [constructor|]|].
  rewrite andb_true_iff, IH, Forall_cons. done.
Qed.

Lemma Forall2_function {A B} (f : A → B) (P : A → Prop) (R : A → B → Prop) l k :
  Forall (λ x, ∀ y, R x y ↔ P x ∧ y = f x) l →
  Forall2 R l k ↔ Forall P l ∧ k = List.map f l.
Proof.
  intros Hl. revert k. induction Hl as [|x l Hx Hl IH]; intros k; simpl.
  - split; [by inversion 1|]. intros [_ ->]. constructor.
  - split.
    + inversion 1 as [|? y ? k' Hy Hk]; subst. apply Hx in Hy as [? ->].
      apply IH in Hk as [? ->]. split; [by constructor|done].
    + intros [[? ?]%Forall_cons ->]. constructor; [by apply Hx|]. by apply IH.
Qed.

Lemma zip_fst_map (es : list (string * Value)) (f : Value → Value) :
  zip (es.*1) (List.map (λ e, f (snd e)) es) = List.map (λ e, (fst e, f (snd e))) es.
Proof. induction es as [|[k v] es IH]; simpl; [done|]. f_equal. apply IH. Qed.

(** What the visitor accepts and what it returns. *)
Lemma strict_value_Ok doc v :
  strict_value doc = Ok v ↔
  (duplicate_free doc = true ∧ numbers_finite doc = true) ∧ v = canonical doc.
Proof.
  revert v. induction doc as [|b|n|s|vs IH|es IH] using Value_nested_ind; intros w;
    try (simpl; split; [by intros [= <-]|by intros [_ ->]]).
  - destruct n as [| |f]; simpl; try (split; [by intros [= <-]|by intros [_ ->]]).
    destruct (is_finite f); (split; [by intros [= <-]|by intros [[_ ?] ->]]).
  - rewrite strict_value_array, bind_Ok. setoid_rewrite try_collect_Ok.
    setoid_rewrite (Forall2_function canonical
      (λ x, duplicate_free x = true ∧ numbers_finite x = true)); [|done].
    simpl. rewrite !forallb_Forall, <-Forall_and. split.
    + by intros (vs' & [? ->] & [= <-]).
    + intros [? ->]. by eexists.
  - rewrite strict_value_object, bind_Ok. setoid_rewrite visit_map_Ok.
    setoid_rewrite (Forall2_function (λ e, canonical (snd e))
      (λ e, duplicate_free e.2 = true ∧ numbers_finite e.2 = true)); [|done].
    simpl. rewrite andb_true_iff, all_distinct_NoDup, !forallb_Forall. split.
    + intros (m & (Hnd & _ & vs & (Hall & ->) & ->) & [= <-]).
      apply Forall_and in Hall as [? ?]. by rewrite zip_fst_map.
    + intros [[[Hnd Hd] Hn] ->]. eexists. split; [|done].
      split_and!; [done|apply Forall_forall; intros ???; by apply elem_of_nil in H0|].
      eexists. split; [split; [by apply Forall_and|done]|]. by rewrite zip_fst_map.
Qed.

(** *** Well-formed values *)

Lemma keys_sorted_iff {V} (m : BTreeMap V) : keys_sorted (m.*1) = true ↔ bt_wf m.
Proof.
  split; [apply keys_sorted_wf|]. unfold bt_wf, bt_keys. generalize (m.*1). intros ks.
  induction 1 as [|a ks Hks IH Ha]; [done|]. destruct ks as [|b ks]; [done|].
  simpl. rewrite bool_decide_eq_true_2 by (by apply Forall_cons in Ha as [? _]). done.
Qed.

(** The entries of a collected map come from the list. *)
Lemma bt_from_list_Forall {V} (P : string * V → Prop) l :
  Forall P l → Forall P (bt_from_list l).
Proof.
  unfold bt_from_list. intros Hl. assert (Hm : Forall P ([] : BTreeMap V)) by constructor.
  revert Hm. generalize ([] : BTreeMap V). induction Hl as [|[k v] l Hkv Hl IH]; intros m Hm;
    simpl; [done|]. apply IH. clear -Hkv Hm. induction Hm as [|[k' v'] m Hx Hm IH]; simpl.
  - by repeat constructor.
  - case_match; repeat constructor; auto.
Qed.

(** The denotation of a document with finite numbers is well formed. *)
Lemma canonical_wf v : numbers_finite v = true → value_wf (canonical v) = true.
Proof.
  induction v as [|b|n|s|vs IH|es IH] using Value_nested_ind; simpl; try done.
  - rewrite !forallb_Forall. intros H. apply Forall_map. by eapply Forall_impl; [apply Forall_and|];
      [exact (conj IH H)|]; simpl; intros x [??]; auto.
  - rewrite andb_true_iff, !forallb_Forall. intros H. split.
    + apply keys_sorted_iff. auto with workbench.
    + apply bt_from_list_Forall, Forall_map. eapply Forall_impl; [apply Forall_and|];
        [exact (conj IH H)|]; simpl; intros x [??]; auto.
Qed.

Lemma map_id_Forall {A} (f : A → A) l : Forall (λ x, f x = x) l → List.map f l = l.
Proof. induction 1 as [|x l Hx _ IH]; simpl; [done|]. by rewrite Hx, IH. Qed.

(** Lookup in a collected list of entries with distinct keys. *)
Lemma bt_get_from_list {V} (l : list (string * V)) k :
  NoDup (l.*1) → bt_get k (bt_from_list l) = bt_get k l.
Proof.
  unfold bt_from_list.
  assert (H : ∀ m : BTreeMap V, NoDup (l.*1) →
    bt_get k (foldl (λ m kv, bt_insert kv.1 kv.2 m) m l) =
    match bt_get k l with Some v => Some v | None => bt_get k m end).
  { induction l as [|[k' v] l IH]; intros m; simpl; [done|].
    intros [Hnin Hnd]%NoDup_cons. rewrite IH by done. rewrite bt_get_insert.
    destruct (decide (k = k')) as [->|Hne].
    - rewrite (proj2 (bt_get_None k' l)) by done. by rewrite decide_True.
    - by destruct (bt_get k l); rewrite ?decide_False. }
  intros Hnd. rewrite H by done. by destruct (bt_get k l).
Qed.

Lemma bt_wf_NoDup {V} (m : BTreeMap V) : bt_wf m → NoDup (m.*1).
Proof.
  unfold bt_wf, bt_keys. induction 1 as [|a ks _ IH Ha]; constructor; [|done].
  intros Hin. rewrite Forall_forall in Ha. by apply (str_lt_irrefl a), Ha.
Qed.

(** A well-formed value is its own denotation. *)
Lemma canonical_id v : value_wf v = true → canonical v = v.
Proof.
  induction v as [|b|n|s|vs IH|es IH] using Value_nested_ind; simpl; try done.
  - rewrite forallb_Forall. intros H. f_equal. apply map_id_Forall.
    eapply Forall_impl; [apply Forall_and; exact (conj IH H)|]. by intros x [Hx ?]; apply Hx.
  - rewrite andb_true_iff, forallb_Forall, keys_sorted_iff. intros [Hs H]. f_equal.
    rewrite map_id_Forall; [by apply bt_from_list_id|].
    eapply Forall_impl; [apply Forall_and; exact (conj IH H)|].
    intros [k x] [Hx ?]; simpl in *. by rewrite Hx.
Qed.

Lemma value_wf_accepted v :
  value_wf v = true → duplicate_free v = true ∧ numbers_finite v = true.
Proof.
  induction v as [|b|n|s|vs IH|es IH] using Value_nested_ind; simpl; try done.
  - rewrite !forallb_Forall, <-Forall_and. intros H.
    eapply Forall_impl; [apply Forall_and; exact (conj IH H)|]. naive_solver.
  - rewrite !andb_true_iff, !forallb_Forall, keys_sorted_iff, all_distinct_NoDup.
    intros [Hs H]. rewrite <-(and_assoc (NoDup _)), <-Forall_and. split; [by apply bt_wf_NoDup|].
    eapply Forall_impl; [apply Forall_and; exact (conj IH H)|]. naive_solver.
Qed.

(** ** Properties *)

(** The strict visitor accepts a document exactly when no object in it, at any
    depth, repeats a key (and its numbers are finite); it then returns the value
    the document denotes, which is well formed, and accepts that value again as
    it is. *)
Theorem strict_value_spec doc v :
  strict_value doc = Ok v ↔
  duplicate_free doc = true ∧ numbers_finite doc = true ∧ v = canonical doc ∧
  value_wf v = true ∧ strict_value v = Ok v.
Proof.
  rewrite strict_value_Ok. split; [|naive_solver]. intros [[Hd Hn] ->].
  pose proof (canonical_wf doc Hn) as Hwf. split_and!; try done.
  apply strict_value_Ok. split; [by apply value_wf_accepted|].
  by rewrite (canonical_id (canonical doc)).
Qed.
