(* ===== verification/Wire.v ===== *)
(** * Wire: serialization of the protocol's data types

    The protocol types derive serde's [Serialize] and [Deserialize]. This file is
    the meaning of those derivations on JSON documents: a [Codec] is the document
    a value is written as and the reading of a document back, [Fields] the
    field-by-field description of a struct, and [struct_codec] the derived
    implementation with [deny_unknown_fields]. A derived struct is also read from
    an array that lists its fields in order, and an enum of unit variants from an
    object with one key and a null value, as serde_json does.

    [CodecLaws c P]: what is written for a value satisfying [P] is accepted by
    the strict visitor and read back as that value, and whatever is read from a
    well-formed document satisfies [P]. *)

From S2P Require Import Prelude Text BTree Json.

(** An error of serde's own, or one a hand-written implementation reports. *)
Inductive DecodeError : Type :=
| DE_Serde
| DE_Custom (message : string).

Record Codec (A : Type) : Type := {
  enc : A → Value;
  dec : Value → Result A DecodeError;
}.
Arguments enc {A} c a.
Arguments dec {A} c v.

(** A document the strict visitor accepts. *)
Definition doc_ok (v : Value) : Prop := duplicate_free v = true ∧ numbers_finite v = true.

Class CodecLaws {A} (c : Codec A) (P : A → Prop) : Prop := {
  enc_ok a : P a → doc_ok (enc c a);
  dec_enc a : P a → dec c (canonical (enc c a)) = Ok a;
  dec_sound v a : value_wf v = true → dec c v = Ok a → P a;
}.

(** Types whose values are never written as null. *)
Class NonNull {A} (c : Codec A) (P : A → Prop) : Prop :=
  enc_non_null a : P a → canonical (enc c a) ≠ VNull.

(** The default of a field is in the domain of its codec. *)
Class DefaultOk {A} (P : A → Prop) (d : A) : Prop := default_ok : P d.

(** A field is skipped only at its default. *)
Class SkipsDefault {A} (skip : A → bool) (d : A) : Prop :=
  skips_default a : skip a = true → a = d.

#[export] Hint Extern 2 (DefaultOk _ _) =>
  red; simpl; first [done | by constructor | by split; constructor] : typeclass_instances.

(** ** Leaf types *)

Definition string_codec : Codec string := {|
  enc s := VString s;
  dec v := match v with VString s => Ok s | _ => Err DE_Serde end;
|}.

Definition bool_codec : Codec bool := {|
  enc b := VBool b;
  dec v := match v with VBool b => Ok b | _ => Err DE_Serde end;
|}.

(** An unsigned integer of the width with this largest value. *)
Definition uint_codec (max : N) : Codec N := {|
  enc n := VNumber (PosInt n);
  dec v := match v with
           | VNumber (PosInt n) => if (n <=? max)%N then Ok n else Err DE_Serde
           | _ => Err DE_Serde
           end;
|}.

(** [f64]: integers are converted; the conversion of a 64-bit integer is finite. *)
Definition f64_codec : Codec f64 :=
  let finite f := if is_finite f then Ok f else Err DE_Serde in {|
  enc f := if is_finite f then VNumber (Float f) else VNull;
  dec v := match v with
           | VNumber (Float f) => finite f
           | VNumber (PosInt n) => finite (f64_of_Z (Z.of_N n))
           | VNumber (NegInt z) => finite (f64_of_Z z)
           | _ => Err DE_Serde
           end;
|}.

Definition value_codec : Codec Value := {| enc v := v; dec v := Ok v |}.

(** A type read from and written to a string, such as [Uuid]. *)
Definition via_string {A} (print : A → string) (parse : string → option A) : Codec A := {|
  enc a := VString (print a);
  dec v := match v with VString s => ok_or (parse s) DE_Serde | _ => Err DE_Serde end;
|}.

(** An enum of unit variants with the names [name] gives them. *)
Definition enum_codec {A} (variants : list A) (name : A → string) : Codec A :=
  let lookup s := ok_or (snd <$> list_find (λ a, name a = s) variants) DE_Serde in {|
  enc a := VString (name a);
  dec v := match v with
           | VString s => lookup s
           | VObject [(s, VNull)] => lookup s
           | _ => Err DE_Serde
           end;
|}.

Definition vec_codec {A} (c : Codec A) : Codec (list A) := {|
  enc l := VArray (List.map (enc c) l);
  dec v := match v with VArray vs => try_collect (dec c) vs | _ => Err DE_Serde end;
|}.

(** [HashMap<String, A>], as the map of its entries. *)
Definition map_codec {A} (c : Codec A) : Codec (BTreeMap A) := {|
  enc m := VObject (List.map (λ e, (fst e, enc c (snd e))) m);
  dec v := match v with
           | VObject m => try_collect (λ e, result_map (pair (fst e)) (dec c (snd e))) m
           | _ => Err DE_Serde
           end;
|}.

(** ** Structs *)

Record Fields (A : Type) : Type := {
  f_names : list string;
  f_enc : A → list (string * Value);
  f_map : (string → option Value) → Result A DecodeError;
  f_seq : list Value → Result A DecodeError;
}.
Arguments f_names {A} f.
Arguments f_enc {A} f a.
Arguments f_map {A} f get.
Arguments f_seq {A} f vs.

Definition no_fields : Fields unit := {|
  f_names := [];
  f_enc _ := [];
  f_map _ := Ok tt;
  f_seq vs := match vs with [] => Ok tt | _ => Err DE_Serde end;
|}.

(** A field without attributes, of a type other than [Option]. *)
Definition required {A B} (name : string) (c : Codec A) (rest : Fields B) : Fields (A * B) := {|
  f_names := name :: f_names rest;
  f_enc p := (name, enc c p.1) :: f_enc rest p.2;
  f_map get :=
    match get name with
    | Some v => let? a := dec c v in let? b := f_map rest get in Ok (a, b)
    | None => Err DE_Serde
    end;
  f_seq vs :=
    match vs with
    | v :: vs => let? a := dec c v in let? b := f_seq rest vs in Ok (a, b)
    | [] => Err DE_Serde
    end;
|}.

(** A field with [serde(default = "d")]. *)
Definition defaulted {A B} (name : string) (d : A) (c : Codec A) (rest : Fields B)
    : Fields (A * B) := {|
  f_names := name :: f_names rest;
  f_enc p := (name, enc c p.1) :: f_enc rest p.2;
  f_map get :=
    let? a := match get name with Some v => dec c v | None => Ok d end in
    let? b := f_map rest get in Ok (a, b);
  f_seq vs :=
    match vs with
    | v :: vs => let? a := dec c v in let? b := f_seq rest vs in Ok (a, b)
    | [] => let? b := f_seq rest [] in Ok (d, b)
    end;
|}.

Definition dec_option {A} (c : Codec A) (v : Value) : Result (option A) DecodeError :=
  match v with VNull => Ok None | _ => result_map Some (dec c v) end.

(** An [Option] field that is skipped when [None]; [default] says whether it has
    the attribute [serde(default)], which matters when read from an array. *)
Definition optional {A B} (default : bool) (name : string) (c : Codec A) (rest : Fields B)
    : Fields (option A * B) := {|
  f_names := name :: f_names rest;
  f_enc p :=
    match p.1 with Some a => [(name, enc c a)] | None => [] end ++ f_enc rest p.2;
  f_map get :=
    let? a := match get name with Some v => dec_option c v | None => Ok None end in
    let? b := f_map rest get in Ok (a, b);
  f_seq vs :=
    match vs with
    | v :: vs => let? a := dec_option c v in let? b := f_seq rest vs in Ok (a, b)
    | [] => if default then let? b := f_seq rest [] in Ok (None, b) else Err DE_Serde
    end;
|}.

(** A field with [serde(default)] that is skipped when [skip] holds of it. *)
Definition skipped {A B} (name : string) (d : A) (skip : A → bool) (c : Codec A)
    (rest : Fields B) : Fields (A * B) := {|
  f_names := name :: f_names rest;
  f_enc p := (if skip p.1 then [] else [(name, enc c p.1)]) ++ f_enc rest p.2;
  f_map := f_map (defaulted name d c rest);
  f_seq := f_seq (defaulted name d c rest);
|}.

(** An [Option] field without attributes: written as null when [None]. *)
Definition nullable {A B} (name : string) (c : Codec A) (rest : Fields B)
    : Fields (option A * B) := {|
  f_names := name :: f_names rest;
  f_enc p := (name, match p.1 with Some a => enc c a | None => VNull end) :: f_enc rest p.2;
  f_map := f_map (optional false name c rest);
  f_seq := f_seq (optional false name c rest);
|}.

(** A derived struct with [deny_unknown_fields]. *)
Definition struct_codec {R T} (fields : Fields T) (unpack : R → T) (pack : T → R) : Codec R := {|
  enc r := VObject (f_enc fields (unpack r));
  dec v :=
    match v with
    | VObject m =>
        if forallb (λ k, set_contains k (f_names fields)) (bt_keys m)
        then result_map pack (f_map fields (λ k, bt_get k m))
        else Err DE_Serde
    | VArray vs => result_map pack (f_seq fields vs)
    | _ => Err DE_Serde
    end;
|}.

Class FieldsLaws {A} (f : Fields A) (P : A → Prop) : Prop := {
  f_sublist a : (f_enc f a).*1 `sublist_of` f_names f;
  f_enc_ok a : P a → Forall (λ e, doc_ok e.2) (f_enc f a);
  f_map_enc a get :
    NoDup (f_names f) → P a →
    (∀ k, k ∈ f_names f → get k = canonical <$> bt_get k (f_enc f a)) →
    f_map f get = Ok a;
  f_map_sound get a :
    (∀ k v, get k = Some v → value_wf v = true) → f_map f get = Ok a → P a;
  f_seq_sound vs a :
    Forall (λ v, value_wf v = true) vs → f_seq f vs = Ok a → P a;
}.

(** ** Laws of the leaf types *)

Lemma Forall_true_iff {A} (l : list A) : Forall (λ _, True) l ↔ True.
Proof. split; [done|]. intros _. by apply Forall_true. Qed.

#[export] Instance string_laws : CodecLaws string_codec (λ _, True).
Proof. by split. Qed.

#[export] Instance bool_laws : CodecLaws bool_codec (λ _, True).
Proof. by split. Qed.

#[export] Instance uint_laws max : CodecLaws (uint_codec max) (λ n, (n ≤ max)%N).
Proof.
  split; simpl; [done| |].
  - intros n Hn. by rewrite (proj2 (N.leb_le _ _) Hn).
  - intros v n _ H. crush_matches. by bool_to_prop.
Qed.

#[export] Instance f64_laws : CodecLaws f64_codec (λ f, is_finite f = true).
Proof.
  split; simpl.
  - intros f Hf. rewrite Hf. by split.
  - intros f Hf. rewrite Hf. simpl. by rewrite Hf.
  - intros v f _ H. crush_matches.
Qed.

#[export] Instance value_laws : CodecLaws value_codec (λ v, value_wf v = true).
Proof.
  split; simpl.
  - intros v Hv. by apply value_wf_accepted.
  - intros v Hv. by rewrite canonical_id.
  - congruence.
Qed.

Lemma via_string_laws {A} (print : A → string) parse :
  (∀ a, parse (print a) = Some a) → CodecLaws (via_string print parse) (λ _, True).
Proof. intros H. split; simpl; [done| |done]. intros a _. by rewrite H. Qed.

(** The names of the variants tell them apart, and every value is a variant. *)
Lemma enum_laws {A} (variants : list A) name :
  (∀ a, a ∈ variants) → (∀ a b, name a = name b → a = b) →
  CodecLaws (enum_codec variants name) (λ _, True).
Proof.
  intros Hall Hinj. split; simpl; [done| |done]. intros a _.
  destruct (list_find (λ b, name b = name a) variants) as [[i b]|] eqn:Hf; simpl.
  - apply list_find_Some in Hf as (_ & Hb & _). apply Hinj in Hb as ->. done.
  - apply list_find_None in Hf. rewrite Forall_forall in Hf. exfalso. by apply (Hf a).
Qed.

#[export] Instance vec_laws {A} (c : Codec A) P :
  CodecLaws c P → CodecLaws (vec_codec c) (Forall P).
Proof.
  intros Hc. split; simpl.
  - intros l Hl. split; simpl; apply forallb_Forall, Forall_map;
      (eapply Forall_impl; [exact Hl|]); intros a Ha; by apply (enc_ok (c := c)).
  - intros l Hl. apply try_collect_Ok. rewrite List.map_map.
    induction Hl; simpl; constructor; [by apply (dec_enc (c := c))|done].
  - intros v l Hv. destruct v as [| | | |vs|]; try done. simpl in Hv.
    rewrite forallb_Forall in Hv. intros Hl%try_collect_Ok.
    induction Hl; [constructor|]. apply Forall_cons in Hv as [? ?].
    constructor; [by eapply (dec_sound (c := c))|auto].
Qed.

#[export] Instance map_laws {A} (c : Codec A) P :
  CodecLaws c P → CodecLaws (map_codec c) (λ m, bt_wf m ∧ Forall (λ e, P e.2) m).
Proof.
  intros Hc. assert (Hkeys : ∀ (g : A → Value) (m : list (string * A)),
    (List.map (λ e, (fst e, g (snd e))) m).*1 = m.*1).
  { intros g m. induction m as [|e m IH]; simpl; [done|]. by f_equal. }
  split; simpl.
  - intros m [Hwf Hm]. split; simpl.
    + rewrite Hkeys. apply andb_true_iff. split; [by apply all_distinct_NoDup, bt_wf_NoDup|].
      apply forallb_Forall, Forall_map. eapply Forall_impl; [exact Hm|]. intros e He.
      by apply (enc_ok (c := c)).
    + apply forallb_Forall, Forall_map. eapply Forall_impl; [exact Hm|]. intros e He.
      by apply (enc_ok (c := c)).
  - intros m [Hwf Hm]. rewrite List.map_map. simpl. rewrite bt_from_list_id.
    2:{ unfold bt_wf, bt_keys. by rewrite (Hkeys (λ a, canonical (enc c a))). }
    apply try_collect_Ok. clear Hwf. induction Hm as [|[k a] m Ha Hm IH]; simpl; constructor; [|done].
    simpl in *. by rewrite dec_enc.
  - intros v m Hv. destruct v as [| | | | |es]; try done. simpl in Hv.
    apply andb_true_iff in Hv as [Hs Hv]. apply keys_sorted_iff in Hs.
    rewrite forallb_Forall in Hv. intros Hl%try_collect_Ok.
    assert (es.*1 = m.*1) as Heq.
    { clear -Hl. induction Hl as [|[k v] [k' a] es m Hx Hl IH]; [done|].
      simpl in *. destruct (dec c v); simplify_eq/=. by f_equal. }
    split; [unfold bt_wf, bt_keys in *; by rewrite <-Heq|].
    clear -Hl Hv Hc. induction Hl as [|[k v] [k' a] es m Hx Hl IH]; [constructor|].
    apply Forall_cons in Hv as [??]. simpl in *. destruct (dec c v) eqn:Hd; simplify_eq/=.
    constructor; [by eapply dec_sound|auto].
Qed.

(** ** Laws of structs *)

#[export] Instance no_fields_laws : FieldsLaws no_fields (λ _, True).
Proof. split; simpl; try done. by intros [] get. Qed.

(** Looking up a later field skips the entries written for this one. *)
Lemma bt_get_rest (name k : string) (es rest : list (string * Value)) names :
  (∀ e, e ∈ es → e.1 = name) → NoDup (name :: names) → k ∈ names →
  bt_get k (es ++ rest) = bt_get k rest.
Proof.
  intros Hes [Hnin _]%NoDup_cons Hk. induction es as [|[k' v] es IH]; simpl; [done|].
  assert (k' = name) as -> by (apply (Hes (k', v)); left).
  rewrite decide_False by congruence. apply IH. intros e He. apply Hes. by right.
Qed.

Section field_laws.
Context {A B : Type} (c : Codec A) (P : A → Prop) (rest : Fields B) (Q : B → Prop).
Context `{!CodecLaws c P, !FieldsLaws rest Q}.

#[export] Instance required_laws name :
  FieldsLaws (required name c rest) (λ p, P p.1 ∧ Q p.2).
Proof.
  split; simpl.
  - intros [a b]. simpl. apply sublist_skip. apply f_sublist.
  - intros [a b] [Ha Hb]. constructor; [by apply (enc_ok (c := c))|by apply f_enc_ok].
  - intros [a b] get Hnd [Ha Hb] Hget. simpl in *.
    rewrite (Hget name) by left. simpl. rewrite decide_True by done. simpl.
    rewrite dec_enc by done. rewrite (f_map_enc b get); [done| |done|].
    + by apply NoDup_cons in Hnd as [_ ?].
    + intros k Hk. rewrite Hget by (by right).
      f_equal.
      apply (bt_get_rest name k [(name, enc c a)] (f_enc rest b) (f_names rest)); [set_solver|done..].
  - intros get [a b] Hwf. destruct (get name) as [v|] eqn:Hv; [|done].
    destruct (dec c v) eqn:Ha; [|done]. destruct (f_map rest get) eqn:Hb; [|done].
    intros [= -> ->]. split; [by eapply dec_sound; [eapply Hwf|]|by eapply f_map_sound].
  - intros [|v vs] [a b] Hwf; [done|]. apply Forall_cons in Hwf as [??].
    destruct (dec c v) eqn:Ha; [|done]. destruct (f_seq rest vs) eqn:Hb; [|done].
    intros [= -> ->]. split; [by eapply dec_sound|by eapply f_seq_sound].
Qed.

Lemma defaulted_sound name d :
  P d →
  (∀ get p, (∀ k v, get k = Some v → value_wf v = true) →
     f_map (defaulted name d c rest) get = Ok p → P p.1 ∧ Q p.2) ∧
  (∀ vs p, Forall (λ v, value_wf v = true) vs →
     f_seq (defaulted name d c rest) vs = Ok p → P p.1 ∧ Q p.2).
Proof.
  intros Hdef. split; simpl.
  - intros get [a b] Hwf. destruct (get name) as [v|] eqn:Hv.
    + destruct (dec c v) eqn:Ha; [|done]. destruct (f_map rest get) eqn:Hb; [|done].
      intros [= -> ->]. split; [by eapply dec_sound; [eapply Hwf|]|by eapply f_map_sound].
    + destruct (f_map rest get) eqn:Hb; [|done]. intros [= <- ->].
      split; [done|by eapply f_map_sound].
  - intros [|v vs] [a b] Hwf.
    + destruct (f_seq rest []) eqn:Hb; [|done]. intros [= <- ->].
      split; [done|by eapply f_seq_sound].
    + apply Forall_cons in Hwf as [??].
      destruct (dec c v) eqn:Ha; [|done]. destruct (f_seq rest vs) eqn:Hb; [|done].
      intros [= -> ->]. split; [by eapply dec_sound|by eapply f_seq_sound].
Qed.

#[export] Instance defaulted_laws name d `{!DefaultOk P d} :
  FieldsLaws (defaulted name d c rest) (λ p, P p.1 ∧ Q p.2).
Proof.
  destruct (defaulted_sound name d default_ok) as [Hmap Hseq]. split; [..|exact Hmap|exact Hseq]; simpl.
  - intros [a b]. simpl. apply sublist_skip. apply f_sublist.
  - intros [a b] [Ha Hb]. constructor; [by apply (enc_ok (c := c))|by apply f_enc_ok].
  - intros [a b] get Hnd [Ha Hb] Hget. simpl in *.
    rewrite (Hget name) by left. simpl. rewrite decide_True by done. simpl.
    rewrite dec_enc by done. rewrite (f_map_enc b get); [done| |done|].
    + by apply NoDup_cons in Hnd as [_ ?].
    + intros k Hk. rewrite Hget by (by right).
      f_equal.
      apply (bt_get_rest name k [(name, enc c a)] (f_enc rest b) (f_names rest)); [set_solver|done..].
Qed.

#[export] Instance skipped_laws name d skip `{!DefaultOk P d, !SkipsDefault skip d} :
  FieldsLaws (skipped name d skip c rest) (λ p, P p.1 ∧ Q p.2).
Proof.
  destruct (defaulted_sound name d default_ok) as [Hmap Hseq]. split; [..|exact Hmap|exact Hseq]; simpl.
  - intros [a b]; simpl. destruct (skip a); [apply sublist_cons|apply sublist_skip]; apply f_sublist.
  - intros [a b] [Ha Hb]. apply Forall_app. split; [|by apply f_enc_ok]. simpl in *.
    destruct (skip a); repeat constructor; by apply (enc_ok (c := c)).
  - intros [a b] get Hnd [Ha Hb] Hget. simpl in *.
    assert (Hrest : f_map rest get = Ok b).
    { apply (f_map_enc b get); [by apply NoDup_cons in Hnd as [_ ?]|done|].
      intros k Hk. rewrite Hget by (by right). f_equal.
      apply (bt_get_rest name k _ (f_enc rest b) (f_names rest)); [destruct (skip a); set_solver|done..]. }
    rewrite Hrest, (Hget name) by left. destruct (skip a) eqn:Hs; simpl.
    + apply (skips_default (d := d)) in Hs as ->.
      assert (bt_get name (f_enc rest b) = None) as ->; [|done].
      apply bt_get_None. intros Hin. apply NoDup_cons in Hnd as [Hnin _]. apply Hnin.
      eapply elem_of_sublist; [exact Hin|apply f_sublist].
    + rewrite decide_True by done. simpl. by rewrite dec_enc.
Qed.

Lemma dec_option_Some a :
  P a → canonical (enc c a) ≠ VNull → dec_option c (canonical (enc c a)) = Ok (Some a).
Proof.
  intros Ha Hn. unfold dec_option. destruct (canonical (enc c a)) eqn:Heq; try done;
    by rewrite <-Heq, dec_enc.
Qed.

Lemma dec_option_sound v o :
  value_wf v = true → dec_option c v = Ok o → ∀ a, o = Some a → P a.
Proof.
  intros Hv. assert (Hr : ∀ r : Result A DecodeError, result_map Some r = Ok o →
    ∀ a, o = Some a → r = Ok a) by (intros [] ??; naive_solver).
  destruct v; simpl; intros H a Ho; try (by eapply dec_sound, Hr); simplify_eq.
Qed.

#[export] Instance optional_laws `{!NonNull c P} default name :
  FieldsLaws (optional default name c rest) (λ p, (∀ a, p.1 = Some a → P a) ∧ Q p.2).
Proof.
  split; simpl.
  - intros [[a|] b]; simpl; [apply sublist_skip|apply sublist_cons]; apply f_sublist.
  - intros [o b] [Ha Hb]. simpl in *. apply Forall_app. split; [|by apply f_enc_ok].
    destruct o as [a|]; constructor; [|constructor]. by apply (enc_ok (c := c)), Ha.
  - intros [o b] get Hnd [Ha Hb] Hget. simpl in *.
    assert (Hrest : f_map rest get = Ok b).
    { apply (f_map_enc b get); [by apply NoDup_cons in Hnd as [_ ?]|done|].
      intros k Hk. rewrite Hget by (by right).
      f_equal.
      apply (bt_get_rest name k _ (f_enc rest b) (f_names rest)); [destruct o; set_solver|done..]. }
    rewrite Hrest, (Hget name) by left. destruct o as [a|]; simpl.
    + rewrite decide_True by done. simpl. rewrite dec_option_Some; [done|auto|].
      by apply (enc_non_null (c := c)), Ha.
    + assert (bt_get name (f_enc rest b) = None) as ->; [|done].
      apply bt_get_None. intros Hin. apply NoDup_cons in Hnd as [Hnin _]. apply Hnin.
      eapply elem_of_sublist; [exact Hin|apply f_sublist].
  - intros get [o b] Hwf. destruct (get name) as [v|] eqn:Hv.
    + destruct (dec_option c v) eqn:Ha; [|done]. destruct (f_map rest get) eqn:Hb; [|done].
      intros [= -> ->]. split; [|by eapply f_map_sound].
      by eapply dec_option_sound; [eapply Hwf|].
    + destruct (f_map rest get) eqn:Hb; [|done]. intros [= <- ->].
      split; [done|by eapply f_map_sound].
  - intros [|v vs] [o b] Hwf.
    + destruct default; [|done]. destruct (f_seq rest []) eqn:Hb; [|done].
      intros [= <- ->]. split; [done|by eapply f_seq_sound].
    + apply Forall_cons in Hwf as [??]. destruct (dec_option c v) eqn:Ha; [|done].
      destruct (f_seq rest vs) eqn:Hb; [|done]. intros [= -> ->].
      split; [by eapply dec_option_sound|by eapply f_seq_sound].
Qed.

#[export] Instance nullable_laws `{!NonNull c P} name :
  FieldsLaws (nullable name c rest) (λ p, (∀ a, p.1 = Some a → P a) ∧ Q p.2).
Proof.
  destruct (optional_laws false name) as [_ _ _ Hmap Hseq].
  split; [..|exact Hmap|exact Hseq]; simpl.
  - intros [a b]. simpl. apply sublist_skip. apply f_sublist.
  - intros [o b] [Ha Hb]. simpl in *. constructor; [|by apply f_enc_ok].
    destruct o as [a|]; [by apply (enc_ok (c := c)), Ha|done].
  - intros [o b] get Hnd [Ha Hb] Hget. simpl in *.
    rewrite (Hget name) by left. simpl. rewrite decide_True by done. simpl.
    assert (dec_option c (canonical match o with Some a => enc c a | None => VNull end) = Ok o) as ->.
    { destruct o as [a|]; [|done]. apply dec_option_Some; [auto|].
      by apply (enc_non_null (c := c)), Ha. }
    rewrite (f_map_enc b get); [done| |done|].
    + by apply NoDup_cons in Hnd as [_ ?].
    + intros k Hk. rewrite Hget by (by right). f_equal.
      apply (bt_get_rest name k [(name, _)] (f_enc rest b) (f_names rest)); [set_solver|done..].
Qed.
End field_laws.

Lemma bt_get_map_canonical k (es : list (string * Value)) :
  bt_get k (List.map (λ e, (fst e, canonical (snd e))) es) = canonical <$> bt_get k es.
Proof. induction es as [|[k' v] es IH]; simpl; [done|]. by case_decide. Qed.

Lemma map_entries_keys (es : list (string * Value)) (f : Value → Value) :
  (List.map (λ e, (fst e, f (snd e))) es).*1 = es.*1.
Proof. induction es as [|e es IH]; simpl; [done|]. by f_equal. Qed.

(** A struct whose fields are distinct and satisfy the laws. *)
Lemma struct_laws {R T} (fields : Fields T) (PT : T → Prop) (unpack : R → T) (pack : T → R) :
  FieldsLaws fields PT → NoDup (f_names fields) →
  (∀ r, pack (unpack r) = r) → (∀ t, unpack (pack t) = t) →
  CodecLaws (struct_codec fields unpack pack) (λ r, PT (unpack r)).
Proof.
  intros Hf Hnd Hpu Hup.
  assert (Hkeys : ∀ r, NoDup ((f_enc fields (unpack r)).*1))
    by (intros r; eapply sublist_NoDup; [done|apply f_sublist]).
  split; simpl.
  - intros r Hr. pose proof (f_enc_ok _ Hr) as Hok. split; simpl.
    + apply andb_true_iff. split; [by apply all_distinct_NoDup|].
      apply forallb_Forall. eapply Forall_impl; [exact Hok|]. by intros e [].
    + apply forallb_Forall. eapply Forall_impl; [exact Hok|]. by intros e [].
  - intros r Hr. set (es := f_enc fields (unpack r)).
    assert (Hget : ∀ k, bt_get k (bt_from_list (List.map (λ e, (fst e, canonical (snd e))) es))
      = canonical <$> bt_get k es).
    { intros k. rewrite bt_get_from_list, bt_get_map_canonical; [done|].
      rewrite map_entries_keys. apply Hkeys. }
    assert (forallb (λ k, set_contains k (f_names fields))
      (bt_keys (bt_from_list (List.map (λ e, (fst e, canonical (snd e))) es))) = true) as ->.
    { apply forallb_Forall, Forall_forall. intros k Hk. apply set_contains_true.
      destruct (bt_get k es) as [v|] eqn:Hv.
      - apply bt_get_In in Hv. eapply elem_of_sublist; [|apply (f_sublist (unpack r))].
        by apply list_elem_of_fmap_2' with (x := (k, v)).
      - apply bt_get_None in Hk as []. by rewrite Hget, Hv. }
    rewrite (f_map_enc (unpack r)); simpl; [by rewrite Hpu|done|done|]. intros k _. apply Hget.
  - intros v r Hv. destruct v as [| | | |vs|m]; try done; simpl in Hv.
    + destruct (f_seq fields vs) as [t|] eqn:Ht; [|done]. intros [= <-]. rewrite Hup.
      eapply f_seq_sound; [|done]. by apply forallb_Forall.
    + destruct (forallb _ (bt_keys m)); [|done].
      destruct (f_map fields _) as [t|] eqn:Ht; [|done]. intros [= <-]. rewrite Hup.
      eapply f_map_sound; [|done]. simpl. intros k v Hk%bt_get_In.
      apply andb_true_iff in Hv as [_ Hv]. rewrite forallb_Forall, Forall_forall in Hv.
      by apply (Hv (k, v)).
Qed.

(** A derived struct without [deny_unknown_fields]: other keys are ignored. *)
Definition open_struct_codec {R T} (fields : Fields T) (unpack : R → T) (pack : T → R)
    : Codec R := {|
  enc r := VObject (f_enc fields (unpack r));
  dec v :=
    match v with
    | VObject m => result_map pack (f_map fields (λ k, bt_get k m))
    | VArray vs => result_map pack (f_seq fields vs)
    | _ => Err DE_Serde
    end;
|}.

(** What the strict struct reads, the open one reads as well. *)
Lemma open_struct_dec {R T} (fields : Fields T) (unpack : R → T) (pack : T → R) v r :
  dec (struct_codec fields unpack pack) v = Ok r →
  dec (open_struct_codec fields unpack pack) v = Ok r.
Proof. destruct v; simpl; try done. by case_match. Qed.

Lemma open_struct_laws {R T} (fields : Fields T) (PT : T → Prop) (unpack : R → T) (pack : T → R) :
  FieldsLaws fields PT → NoDup (f_names fields) →
  (∀ r, pack (unpack r) = r) → (∀ t, unpack (pack t) = t) →
  CodecLaws (open_struct_codec fields unpack pack) (λ r, PT (unpack r)).
Proof.
  intros Hf Hnd Hpu Hup. pose proof (struct_laws fields PT unpack pack Hf Hnd Hpu Hup) as Hs.
  split.
  - apply (enc_ok (c := struct_codec fields unpack pack)).
  - intros r Hr. apply open_struct_dec.
    by apply (dec_enc (c := struct_codec fields unpack pack)).
  - intros v r Hv. destruct v as [| | | |vs|m]; try done; simpl in Hv |- *.
    + destruct (f_seq fields vs) as [t|] eqn:Ht; [|done]. intros [= <-]. rewrite Hup.
      eapply f_seq_sound; [|done]. by apply forallb_Forall.
    + destruct (f_map fields _) as [t|] eqn:Ht; [|done]. intros [= <-]. rewrite Hup.
      eapply f_map_sound; [|done]. simpl. intros k v Hk%bt_get_In.
      apply andb_true_iff in Hv as [_ Hv]. rewrite forallb_Forall, Forall_forall in Hv.
      by apply (Hv (k, v)).
Qed.

(** Reading the first of the remaining fields of an object. *)
Lemma required_inv {A B} name (c : Codec A) (rest : Fields B) get a b :
  f_map (required name c rest) get = Ok (a, b) →
  (∃ v, get name = Some v ∧ dec c v = Ok a) ∧ f_map rest get = Ok b.
Proof.
  simpl. destruct (get name) as [v|]; [|done]. destruct (dec c v) eqn:Hd; [|done].
  destruct (f_map rest get); [|done]. intros [= <- <-]. split; [by exists v|done].
Qed.

(** Reading a struct from an object. *)
Lemma struct_object_inv {R T} (fields : Fields T) (unpack : R → T) pack es r :
  dec (struct_codec fields unpack pack) (VObject es) = Ok r →
  ∃ t, f_map fields (λ k, bt_get k es) = Ok t ∧ r = pack t.
Proof.
  simpl. destruct (forallb _ _); [|done]. destruct (f_map fields _) as [t|]; [|done].
  intros [= <-]. by exists t.
Qed.

(** Reading an object reads its first field. *)
Lemma struct_first_field {A B} name (c : Codec A) (rest : Fields B) es p :
  dec (struct_codec (required name c rest) id id) (VObject es) = Ok p →
  ∃ v, bt_get name es = Some v ∧ dec c v = Ok p.1.
Proof.
  simpl. destruct (forallb _ _); [|done]. destruct (bt_get name es) as [v|]; [|done].
  destruct (dec c v) as [a|] eqn:Ha; [|done]. destruct (f_map rest _); [|done].
  intros [= <-]. by exists v.
Qed.

Lemma CodecLaws_iff {A} (c : Codec A) (P Q : A → Prop) :
  CodecLaws c P → (∀ a, P a ↔ Q a) → CodecLaws c Q.
Proof.
  intros Hc HPQ. split.
  - intros a Ha%HPQ. by apply (enc_ok (c := c)).
  - intros a Ha%HPQ. by apply dec_enc.
  - intros v a Hv Hd. apply HPQ. by eapply dec_sound.
Qed.

(** *** Types that are never written as null *)

#[export] Instance string_non_null P : NonNull string_codec P.
Proof. by intros s _. Qed.

#[export] Instance uint_non_null max P : NonNull (uint_codec max) P.
Proof. by intros s _. Qed.

#[export] Instance via_string_non_null {A} (print : A → string) parse P :
  NonNull (via_string print parse) P.
Proof. by intros s _. Qed.

#[export] Instance map_non_null {A} (c : Codec A) P : NonNull (map_codec c) P.
Proof. by intros s _. Qed.

#[export] Instance struct_non_null {R T} (fields : Fields T) (unpack : R → T) pack P :
  NonNull (struct_codec fields unpack pack) P.
Proof. by intros s _. Qed.

(** The derived codecs, by evaluation. *)
#[export] Hint Extern 5 (NonNull _ _) =>
  let a := fresh in let H := fresh in intros a H; discriminate : typeclass_instances.

(** Derives the laws of a struct codec: the laws of its fields by instance search,
    distinct names by evaluation, and the two packings. What is left is that the
    conjunction of the fields' domains is the stated domain. *)
Ltac derive_struct_with laws :=
  eapply CodecLaws_iff;
  [ eapply laws;
    [ apply _
    | apply all_distinct_NoDup; reflexivity
    | by intros []
    | intros;
      repeat match goal with
        | p : (_ * _)%type |- _ => destruct p
        | u : unit |- _ => destruct u
        end;
      reflexivity ]
  | let r := fresh "r" in intros r; simpl; rewrite ?Forall_true_iff ].
Ltac derive_struct := derive_struct_with struct_laws.
Ltac derive_open_struct := derive_struct_with open_struct_laws.

(** Derives the laws of an enum codec. *)
Ltac derive_enum :=
  apply enum_laws; [intros []; set_solver | intros [] []; done].
