(* ===== verification/ProtoCommand.v ===== *)
(** * ProtoCommand: client commands and their wire form
      (workbench-protocol/src/command.rs)

    The UUID text form and the version test are the uuid crate's: they are the
    parameters [uuid_print], [uuid_parse] and [is_v7] of this file, and the only
    assumption is that a printed UUID is read back. *)

From S2P Require Import Prelude Text BTree Errors Value Policy Attempt Json Wire.

Definition PROTOCOL_V1 : string := "workbench/1".

Record InitializeParams : Type := {
  client_name : string;
  client_version : string;
  supported_protocols : list string;
}.

Record CreateSessionParams : Type := {
  persistent : bool;
  configuration_overrides : option (BTreeMap Value);
  workflow : option string;
}.

Record ListSessionsParams : Type := {
  limit : N;
  before_session_id : option Uuid;
}.

Definition default_session_list_limit : N := 50.

Record PromptParams : Type := {
  text : string;
  explicit_target : option string;
}.

Record ApprovalParams : Type := {
  ap_approval_id : Uuid;
  ap_decision : ApprovalDecision;
}.

Record ReconciliationParams : Type := {
  rp_attempt_id : Uuid;
  rp_resolution : ReconciliationResolution;
  rp_evidence : option string;
}.

Record ExportParams : Type := {
  output_path : string;
  age_recipients : list string;
}.

(** [EmptyParams] is [unit]; the parameters with one field are that field. *)
Inductive Command : Type :=
| Initialize (params : InitializeParams)
| StatusGet
| SessionCreate (params : CreateSessionParams)
| SessionList (params : ListSessionsParams)
| SessionGet
| SessionAttach (after_sequence : N)
| SessionPrompt (params : PromptParams)
| SessionPause
| SessionResume
| SessionRedirect (instruction : string)
| SessionCancel
| SessionApprovalResolve (params : ApprovalParams)
| SessionReconcile (params : ReconciliationParams)
| SessionExport (params : ExportParams)
| SessionDelete (confirm_session_id : Uuid).

Record ClientCommand : Type := {
  cc_protocol : string;
  cc_request_id : Uuid;
  cc_session_id : option Uuid;
  cc_command : Command;
}.

(** [Command::method] *)
Definition method (c : Command) : string :=
  match c with
  | Initialize _ => "initialize"
  | StatusGet => "status.get"
  | SessionCreate _ => "session.create"
  | SessionList _ => "session.list"
  | SessionGet => "session.get"
  | SessionAttach _ => "session.attach"
  | SessionPrompt _ => "session.prompt"
  | SessionPause => "session.pause"
  | SessionResume => "session.resume"
  | SessionRedirect _ => "session.redirect"
  | SessionCancel => "session.cancel"
  | SessionApprovalResolve _ => "session.approval.resolve"
  | SessionReconcile _ => "session.reconcile"
  | SessionExport _ => "session.export"
  | SessionDelete _ => "session.delete"
  end.

(** [Command::requires_session] *)
Definition requires_session (c : Command) : bool :=
  match c with
  | Initialize _ | StatusGet | SessionCreate _ | SessionList _ => false
  | _ => true
  end.

(** ** Validation *)

Definition validate_content (value field : string) : Result unit string :=
  reject_if (is_empty value || (1048576 <? len value)%N)
    (field +:+ " must contain 1 to 1048576 bytes").

Definition identifier_char (c : N) : bool :=
  char_is_ascii_lowercase c || char_is_ascii_digit c || (c =? DASH)%N.

Definition validate_identifier (value : string) : Result unit string :=
  if match chars value with
     | first :: rest => char_is_ascii_lowercase first && forallb identifier_char rest
     | [] => false
     end && (len value <=? 63)%N
  then Ok tt
  else Err "explicit_target has an invalid identifier".

(** On Unix a path is absolute when it starts with a slash, and a component is a
    parent directory when the text between two slashes is two dots. *)
Definition validate_output_path (value : string) : Result unit string :=
  reject_if ((4096 <? len value)%N || negb (starts_with "/" value)
             || existsb (String.eqb "..") (split_byte SLASH value))
    "output_path must be an absolute non-traversing path".

(** ** The wire form *)

Section wire.
Context (uuid_print : Uuid → string) (uuid_parse : string → option Uuid).
Context (is_v7 : Uuid → bool).

Definition uuid_codec : Codec Uuid := via_string uuid_print uuid_parse.

Definition InitializeParams_codec : Codec InitializeParams :=
  struct_codec
    (required "client_name" string_codec
      (required "client_version" string_codec
        (required "supported_protocols" (vec_codec string_codec) no_fields)))
    (λ p, (client_name p, (client_version p, (supported_protocols p, tt))))
    (λ '(a, (b, (c, _))),
       {| client_name := a; client_version := b; supported_protocols := c |}).

Definition EmptyParams_codec : Codec unit := struct_codec no_fields id id.

Definition CreateSessionParams_codec : Codec CreateSessionParams :=
  struct_codec
    (required "persistent" bool_codec
      (optional true "configuration_overrides" (map_codec value_codec)
        (optional true "workflow" string_codec no_fields)))
    (λ p, (persistent p, (configuration_overrides p, (workflow p, tt))))
    (λ '(a, (b, (c, _))),
       {| persistent := a; configuration_overrides := b; workflow := c |}).

Definition ListSessionsParams_codec : Codec ListSessionsParams :=
  struct_codec
    (defaulted "limit" default_session_list_limit (uint_codec u16_max)
      (optional true "before_session_id" uuid_codec no_fields))
    (λ p, (limit p, (before_session_id p, tt)))
    (λ '(a, (b, _)), {| limit := a; before_session_id := b |}).

(** A struct with the single field [name]. *)
Definition single {A} (name : string) (c : Codec A) : Codec A :=
  struct_codec (required name c no_fields) (λ a, (a, tt)) (λ '(a, _), a).

Definition AttachSessionParams_codec : Codec N := single "after_sequence" (uint_codec u64_max).

Definition PromptParams_codec : Codec PromptParams :=
  struct_codec
    (required "text" string_codec (optional true "explicit_target" string_codec no_fields))
    (λ p, (text p, (explicit_target p, tt)))
    (λ '(a, (b, _)), {| text := a; explicit_target := b |}).

Definition RedirectParams_codec : Codec string := single "instruction" string_codec.

Definition ApprovalDecision_codec : Codec ApprovalDecision :=
  enum_codec [AD_Grant; AD_Deny] (λ d, match d with AD_Grant => "grant" | AD_Deny => "deny" end).

Definition ApprovalParams_codec : Codec ApprovalParams :=
  struct_codec
    (required "approval_id" uuid_codec (required "decision" ApprovalDecision_codec no_fields))
    (λ p, (ap_approval_id p, (ap_decision p, tt)))
    (λ '(a, (b, _)), {| ap_approval_id := a; ap_decision := b |}).

Definition ReconciliationResolution_codec : Codec ReconciliationResolution :=
  enum_codec [RR_Retry; RR_AcceptResult; RR_Abandon]
    (λ r, match r with
          | RR_Retry => "retry" | RR_AcceptResult => "accept_result" | RR_Abandon => "abandon"
          end).

Definition ReconciliationParams_codec : Codec ReconciliationParams :=
  struct_codec
    (required "attempt_id" uuid_codec
      (required "resolution" ReconciliationResolution_codec
        (optional true "evidence" string_codec no_fields)))
    (λ p, (rp_attempt_id p, (rp_resolution p, (rp_evidence p, tt))))
    (λ '(a, (b, (c, _))), {| rp_attempt_id := a; rp_resolution := b; rp_evidence := c |}).

Definition ExportParams_codec : Codec ExportParams :=
  struct_codec
    (required "output_path" string_codec
      (required "age_recipients" (vec_codec string_codec) no_fields))
    (λ p, (output_path p, (age_recipients p, tt)))
    (λ '(a, (b, _)), {| output_path := a; age_recipients := b |}).

Definition DeleteParams_codec : Codec Uuid := single "confirm_session_id" uuid_codec.

(** [Command::wire_parts]: the method and the parameters as a [Value]. *)
Definition wire_parts (c : Command) : string * Value :=
  (method c,
   canonical
     match c with
     | Initialize p => enc InitializeParams_codec p
     | StatusGet | SessionGet | SessionPause | SessionResume | SessionCancel =>
         enc EmptyParams_codec tt
     | SessionCreate p => enc CreateSessionParams_codec p
     | SessionList p => enc ListSessionsParams_codec p
     | SessionAttach p => enc AttachSessionParams_codec p
     | SessionPrompt p => enc PromptParams_codec p
     | SessionRedirect p => enc RedirectParams_codec p
     | SessionApprovalResolve p => enc ApprovalParams_codec p
     | SessionReconcile p => enc ReconciliationParams_codec p
     | SessionExport p => enc ExportParams_codec p
     | SessionDelete p => enc DeleteParams_codec p
     end).

Definition require_uuid_v7 (value : Uuid) (field : string) : Result unit string :=
  if is_v7 value then Ok tt else Err (field +:+ " must be a UUIDv7").

(** [Command::validate] *)
Definition validate (c : Command) : Result unit string :=
  match c with
  | Initialize p =>
      let? _ := reject_if
        (is_empty (client_name p) || (128 <? len (client_name p))%N
         || is_empty (client_version p) || (128 <? len (client_version p))%N)
        "client name and version must contain 1 to 128 bytes" in
      reject_if
        (match supported_protocols p with [] => true | _ => false end
         || negb (all_distinct (supported_protocols p))
         || existsb (λ protocol, (32 <? len protocol)%N) (supported_protocols p))
        "supported_protocols must be non-empty and unique"
  | SessionCreate p =>
      let? _ := reject_if (negb (persistent p))
        "feature 001 supports persistent sessions only" in
      match workflow p with Some w => validate_identifier w | None => Ok tt end
  | SessionList p =>
      let? _ := reject_if (negb ((1 <=? limit p)%N && (limit p <=? 100)%N))
        "limit must be between 1 and 100" in
      match before_session_id p with
      | Some id => require_uuid_v7 id "before_session_id"
      | None => Ok tt
      end
  | SessionPrompt p =>
      let? _ := validate_content (text p) "text" in
      match explicit_target p with Some t => validate_identifier t | None => Ok tt end
  | SessionRedirect instruction => validate_content instruction "instruction"
  | SessionApprovalResolve p => require_uuid_v7 (ap_approval_id p) "approval_id"
  | SessionReconcile p =>
      let? _ := require_uuid_v7 (rp_attempt_id p) "attempt_id" in
      reject_if (match rp_evidence p with Some e => (4096 <? len e)%N | None => false end)
        "evidence exceeds 4096 bytes"
  | SessionExport p =>
      let? _ := validate_output_path (output_path p) in
      reject_if
        (match age_recipients p with [] => true | _ => false end
         || negb (all_distinct (age_recipients p))
         || existsb (λ r, is_empty r || (512 <? len r)%N) (age_recipients p))
        "age_recipients must be non-empty, valid, and unique"
  | SessionDelete id => require_uuid_v7 id "confirm_session_id"
  | StatusGet | SessionGet | SessionAttach _ | SessionPause | SessionResume | SessionCancel =>
      Ok tt
  end.

(** [parse_command] *)
Definition parse_command (m : string) (params : Value) : Result Command DecodeError :=
  let parse {A} (variant : A → Command) (c : Codec A) := result_map variant (dec c params) in
  if String.eqb m "initialize" then parse Initialize InitializeParams_codec
  else if String.eqb m "status.get" then parse (λ _, StatusGet) EmptyParams_codec
  else if String.eqb m "session.create" then parse SessionCreate CreateSessionParams_codec
  else if String.eqb m "session.list" then parse SessionList ListSessionsParams_codec
  else if String.eqb m "session.get" then parse (λ _, SessionGet) EmptyParams_codec
  else if String.eqb m "session.attach" then parse SessionAttach AttachSessionParams_codec
  else if String.eqb m "session.prompt" then parse SessionPrompt PromptParams_codec
  else if String.eqb m "session.pause" then parse (λ _, SessionPause) EmptyParams_codec
  else if String.eqb m "session.resume" then parse (λ _, SessionResume) EmptyParams_codec
  else if String.eqb m "session.redirect" then parse SessionRedirect RedirectParams_codec
  else if String.eqb m "session.cancel" then parse (λ _, SessionCancel) EmptyParams_codec
  else if String.eqb m "session.approval.resolve" then
    parse SessionApprovalResolve ApprovalParams_codec
  else if String.eqb m "session.reconcile" then parse SessionReconcile ReconciliationParams_codec
  else if String.eqb m "session.export" then parse SessionExport ExportParams_codec
  else if String.eqb m "session.delete" then parse SessionDelete DeleteParams_codec
  else Err (DE_Custom "unknown protocol method").

(** [RawCommand]: protocol, request_id, method, session_id, params. *)
Definition RawCommand : Type := string * (Uuid * (string * (option Uuid * (Value * unit)))).

Definition RawCommand_fields : Fields RawCommand :=
  required "protocol" string_codec
    (required "request_id" uuid_codec
      (required "method" string_codec
        (optional true "session_id" uuid_codec
          (required "params" value_codec no_fields)))).

Definition RawCommand_codec : Codec RawCommand := struct_codec RawCommand_fields id id.

(** [ClientCommand::deserialize] *)
Definition decode_command (v : Value) : Result ClientCommand DecodeError :=
  let? raw := dec RawCommand_codec v in
  let '(protocol, (request_id, (m, (session_id, (params, _))))) := raw in
  let? _ := reject_if (negb (String.eqb protocol PROTOCOL_V1))
    (DE_Custom "unsupported protocol major") in
  let? _ := map_err DE_Custom (require_uuid_v7 request_id "request_id") in
  let? _ := match session_id with
            | Some id => map_err DE_Custom (require_uuid_v7 id "session_id")
            | None => Ok tt
            end in
  let? command := parse_command m params in
  let session_required := requires_session command in
  let? _ := reject_if (negb (Bool.eqb session_required (bool_decide (is_Some session_id))))
    (DE_Custom (if session_required then "session_id is required for this method"
                else "session_id is forbidden for this method")) in
  let? _ := map_err DE_Custom (validate command) in
  Ok {| cc_protocol := protocol; cc_request_id := request_id;
        cc_session_id := session_id; cc_command := command |}.

(** [ClientCommand::serialize] *)
Definition encode_command (c : ClientCommand) : Value :=
  let '(m, params) := wire_parts (cc_command c) in
  VObject ([("protocol", VString (cc_protocol c));
            ("request_id", VString (uuid_print (cc_request_id c)));
            ("method", VString m)]
           ++ match cc_session_id c with
              | Some id => [("session_id", VString (uuid_print id))]
              | None => []
              end
           ++ [("params", params)]).

(** ** Laws of the parameter types *)

Hypothesis uuid_roundtrip : ∀ u, uuid_parse (uuid_print u) = Some u.

#[local] Instance uuid_laws : CodecLaws uuid_codec (λ _, True) :=
  via_string_laws _ _ uuid_roundtrip.

#[local] Instance uuid_non_null P : NonNull uuid_codec P.
Proof. apply via_string_non_null. Qed.

#[local] Instance ApprovalDecision_laws : CodecLaws ApprovalDecision_codec (λ _, True).
Proof. derive_enum. Qed.

#[local] Instance ReconciliationResolution_laws :
  CodecLaws ReconciliationResolution_codec (λ _, True).
Proof. derive_enum. Qed.

#[local] Instance single_laws {A} name (c : Codec A) P :
  CodecLaws c P → CodecLaws (single name c) (λ a, P a ∧ True).
Proof.
  intros Hc. apply (struct_laws (required name c no_fields) (λ p, P p.1 ∧ True));
    [apply (required_laws c P no_fields (λ _, True))|apply NoDup_singleton|done|by intros [? []]].
Qed.

(** The values of a command fit the widths and map order of the wire form. *)
Definition command_in_range (c : Command) : Prop :=
  match c with
  | SessionCreate p =>
      ∀ m, configuration_overrides p = Some m →
        bt_wf m ∧ Forall (λ e, value_wf e.2 = true) m
  | SessionList p => (limit p ≤ u16_max)%N
  | SessionAttach after_sequence => (after_sequence ≤ u64_max)%N
  | _ => True
  end.

#[local] Instance InitializeParams_laws : CodecLaws InitializeParams_codec (λ _, True).
Proof. derive_struct. naive_solver. Qed.

#[local] Instance EmptyParams_laws : CodecLaws EmptyParams_codec (λ _, True).
Proof. derive_struct. naive_solver. Qed.

#[local] Instance CreateSessionParams_laws :
  CodecLaws CreateSessionParams_codec (λ p, command_in_range (SessionCreate p)).
Proof. derive_struct. naive_solver. Qed.

#[local] Instance ListSessionsParams_laws :
  CodecLaws ListSessionsParams_codec (λ p, command_in_range (SessionList p)).
Proof. derive_struct. naive_solver. Qed.

#[local] Instance PromptParams_laws : CodecLaws PromptParams_codec (λ _, True).
Proof. derive_struct. naive_solver. Qed.

#[local] Instance ApprovalParams_laws : CodecLaws ApprovalParams_codec (λ _, True).
Proof. derive_struct. naive_solver. Qed.

#[local] Instance ReconciliationParams_laws : CodecLaws ReconciliationParams_codec (λ _, True).
Proof. derive_struct. naive_solver. Qed.

#[local] Instance ExportParams_laws : CodecLaws ExportParams_codec (λ _, True).
Proof. derive_struct. naive_solver. Qed.

#[local] Instance RawCommand_laws :
  CodecLaws RawCommand_codec (λ raw, value_wf raw.2.2.2.2.1 = true).
Proof. derive_struct. unfold id. naive_solver. Qed.

(** The parameters of a codec with these laws, as [parse_command] reads them. *)
Lemma parse_params {A} (c : Codec A) P (variant : A → Command) a :
  CodecLaws c P → P a → result_map variant (dec c (canonical (enc c a))) = Ok (variant a).
Proof. intros Hc Ha. by rewrite dec_enc. Qed.

Lemma parse_sound {A} (c : Codec A) P (variant : A → Command) v cmd :
  CodecLaws c P → value_wf v = true → result_map variant (dec c v) = Ok cmd →
  ∃ a, P a ∧ cmd = variant a.
Proof.
  intros Hc Hv. destruct (dec c v) as [a|] eqn:Ha; simpl; [|done].
  intros [= <-]. exists a. split; [by eapply dec_sound|done].
Qed.

Lemma parse_command_enc c :
  command_in_range c → parse_command (wire_parts c).1 (wire_parts c).2 = Ok c.
Proof.
  intros Hc. destruct c; cbn -[canonical enc dec]; by eapply parse_params; [apply _|].
Qed.

Lemma parse_command_sound m v c :
  value_wf v = true → parse_command m v = Ok c → command_in_range c ∧ m = method c.
Proof.
  intros Hv. unfold parse_command.
  repeat (match goal with |- context [String.eqb m ?x] => destruct (String.eqb_spec m x) end;
    [intros Hp; destruct (parse_sound _ _ _ v c _ Hv Hp) as (a & Ha & ->); destruct_and?; by split|]).
  done.
Qed.

Lemma encode_command_raw c :
  encode_command c =
  enc RawCommand_codec (cc_protocol c, (cc_request_id c, ((wire_parts (cc_command c)).1,
    (cc_session_id c, ((wire_parts (cc_command c)).2, tt))))).
Proof. unfold encode_command. destruct (wire_parts _). by destruct (cc_session_id c). Qed.

Lemma wire_parts_wf c : command_in_range c → value_wf (wire_parts c).2 = true.
Proof.
  intros Hc. apply canonical_wf. destruct c; simpl in Hc;
    match goal with |- numbers_finite (enc ?cd _) = true => apply (enc_ok (c := cd)) end;
    try done; by split.
Qed.

(** What a decoded command satisfies. *)
Record command_ok (c : ClientCommand) : Prop := {
  ok_protocol : cc_protocol c = PROTOCOL_V1;
  ok_request : is_v7 (cc_request_id c) = true;
  ok_session : ∀ id, cc_session_id c = Some id → is_v7 id = true;
  ok_presence : requires_session (cc_command c) = bool_decide (is_Some (cc_session_id c));
  ok_valid : validate (cc_command c) = Ok tt;
  ok_range : command_in_range (cc_command c);
}.

Lemma require_uuid_v7_Ok {E} (f : string → E) u field :
  map_err f (require_uuid_v7 u field) = Ok tt ↔ is_v7 u = true.
Proof. unfold require_uuid_v7. destruct (is_v7 u); simpl; naive_solver. Qed.

(** The checks [decode_command] makes on a raw command. *)
Lemma decode_command_Ok v c :
  decode_command v = Ok c ↔
  ∃ m params, dec RawCommand_codec v =
      Ok (cc_protocol c, (cc_request_id c, (m, (cc_session_id c, (params, tt))))) ∧
    cc_protocol c = PROTOCOL_V1 ∧ is_v7 (cc_request_id c) = true ∧
    (∀ id, cc_session_id c = Some id → is_v7 id = true) ∧
    parse_command m params = Ok (cc_command c) ∧
    requires_session (cc_command c) = bool_decide (is_Some (cc_session_id c)) ∧
    validate (cc_command c) = Ok tt.
Proof.
  unfold decode_command. split.
  - destruct (dec RawCommand_codec v) as [(p & q & m & sid & params & [])|]; [|done].
    intros H. break_results. simplify_eq/=. exists m, params.
    apply negb_false_iff, String.eqb_eq in Hguard0. apply negb_false_iff, Bool.eqb_prop in Hguard.
    apply require_uuid_v7_Ok in Hok0. apply map_err_Ok in Hok4.
    split_and!; try done. intros id ->. by apply require_uuid_v7_Ok in Hok1.
  - intros (m & params & Hraw & Hp & Hq & Hs & Hcmd & Hreq & Hval). rewrite Hraw, Hp.
    rewrite (proj2 (require_uuid_v7_Ok DE_Custom _ "request_id") Hq). simpl.
    assert (match cc_session_id c with
            | Some id => map_err DE_Custom (require_uuid_v7 id "session_id")
            | None => Ok tt end = Ok tt) as ->.
    { destruct (cc_session_id c); [|done]. by apply require_uuid_v7_Ok, Hs. }
    rewrite Hcmd, Hreq, Bool.eqb_reflx, Hval. simpl. destruct c; simpl in *. by subst.
Qed.

(** A valid command is written as a document without repeated keys that decodes
    back to it. *)
Lemma command_decodes c :
  command_ok c →
  doc_ok (encode_command c) ∧ decode_command (canonical (encode_command c)) = Ok c.
Proof.
  intros [? ? ? ? ? Hrange]. pose proof (wire_parts_wf _ Hrange) as Hwf.
  rewrite encode_command_raw. split; [by apply (enc_ok (c := RawCommand_codec))|].
  apply decode_command_Ok. do 2 eexists. split; [by apply dec_enc|].
  split_and!; try done. by apply parse_command_enc.
Qed.

(** Wire round trip: decoding accepts exactly the commands that carry the
    protocol version, UUIDv7 identifiers, a session exactly when the method needs
    one, and valid parameters; and every such command, once encoded, is a document
    without repeated keys that decodes back to it. *)
Theorem command_roundtrip c :
  (command_ok c ↔ ∃ v, value_wf v = true ∧ decode_command v = Ok c) ∧
  (command_ok c → doc_ok (encode_command c) ∧
     decode_command (canonical (encode_command c)) = Ok c).
Proof.
  split; [|apply command_decodes]. split.
  - intros Hc. exists (canonical (encode_command c)).
    destruct (command_decodes c Hc) as [[? ?] ?]. split; [by apply canonical_wf|done].
  - intros (v & Hv & (m & params & Hraw & ? & ? & ? & Hcmd & ? & ?)%decode_command_Ok).
    pose proof (dec_sound _ _ Hv Hraw) as Hwf. simpl in Hwf.
    split; try done. by apply (parse_command_sound m params).
Qed.

End wire.

(** ** A concrete text form of identifiers *)

Fixpoint positive_print (p : positive) : string :=
  match p with
  | xH => EmptyString
  | xO p => String "0" (positive_print p)
  | xI p => String "1" (positive_print p)
  end.

Fixpoint positive_parse (s : string) : option positive :=
  match s with
  | EmptyString => Some xH
  | String c s =>
      p ← positive_parse s;
      if decide (c = "0"%char) then Some (xO p)
      else if decide (c = "1"%char) then Some (xI p) else None
  end.

Definition binary_print (n : Uuid) : string := positive_print (N.succ_pos n).
Definition binary_parse (s : string) : option Uuid := Pos.pred_N <$> positive_parse s.

Lemma positive_roundtrip p : positive_parse (positive_print p) = Some p.
Proof. induction p as [p IH|p IH|]; simpl; by rewrite ?IH. Qed.

Lemma binary_roundtrip u : binary_parse (binary_print u) = Some u.
Proof.
  unfold binary_parse, binary_print. rewrite positive_roundtrip. simpl. f_equal. destruct u; simpl; [done|]. by rewrite Pos.pred_N_succ.
Qed.

Definition sample_command : ClientCommand :=
  {| cc_protocol := PROTOCOL_V1; cc_request_id := 7%N; cc_session_id := Some 11%N;
     cc_command := SessionPrompt {| text := "hello"; explicit_target := Some "engineer" |} |}.

Lemma command_roundtrip_witness :
  decode_command binary_print binary_parse (λ _, true)
    (canonical (encode_command binary_print binary_parse sample_command)) = Ok sample_command.
Proof.
  apply (command_roundtrip binary_print binary_parse (λ _, true) binary_roundtrip).
  split; [reflexivity | reflexivity | intros; reflexivity | reflexivity | reflexivity | exact I].
Defined.

(** The three identifier validators *)

Lemma identifier_char_ascii n : identifier_char n = true → (n < 128)%N.
Proof.
  unfold identifier_char, char_is_ascii_lowercase, char_is_ascii_digit, DASH.
  intros H. repeat (bool_to_prop; try destruct H as [H|H]); lia.
Qed.

Lemma lowercase_char_ascii n : char_is_ascii_lowercase n = true → (n < 128)%N.
Proof. unfold char_is_ascii_lowercase. intros H. bool_to_prop. lia. Qed.

(** The protocol's identifier check, which walks over characters, accepts exactly
    the strings the domain's identifier parser, which walks over bytes, accepts. *)
Theorem validate_identifier_agrees value :
  utf8_valid value = true →
  (validate_identifier value = Ok tt ↔ Identifier_parse value = Ok value).
Proof.
  intros Hv. rewrite Identifier_parse_Ok. unfold validate_identifier, identifier_valid.
  assert (∀ b : bool, (if b then Ok tt else Err "explicit_target has an invalid identifier")
    = (Ok tt : Result unit string) ↔ value = value ∧ b = true) as ->
    by (intros []; naive_solver).
  do 3 f_equiv. destruct value as [|a s]; [done|].
  pose proof (head_char_byte char_is_ascii_lowercase (String a s) lowercase_char_ascii Hv) as Hhead.
  cbn iota beta in Hhead.
  change (char_is_ascii_lowercase (byte_of a)) with (is_ascii_lowercase a) in Hhead.
  destruct (is_ascii_lowercase a) eqn:Ha.
  - assert (byte_of a < 128)%N as Hlt by (by apply lowercase_char_ascii).
    destruct (tail_chars_ascii a s Hlt Hv) as [Htail Hs].
    destruct (chars (String a s)) as [|n ns]; [done|]. cbn [tail] in Htail.
    by rewrite Hhead, Htail, all_chars_bytes by (done || apply identifier_char_ascii).
  - destruct (chars (String a s)) as [|n ns]; [done|]. by rewrite Hhead.
Qed.

Lemma validate_identifier_agrees_witness :
  validate_identifier "engineer-2" = Ok tt ↔ Identifier_parse "engineer-2" = Ok "engineer-2".
Proof. apply (validate_identifier_agrees "engineer-2"). reflexivity. Defined.
