(* ===== verification/ProtoReply.v ===== *)
(** * ProtoReply: server replies and their wire form
      (workbench-protocol/src/response.rs)

    Every result type with its derived codec, the error of a failed command with
    its validation, and the reply envelope. *)

From S2P Require Import Prelude Text BTree Errors Value Policy Attempt Json Wire ProtoCommand.

Inductive ErrorCode : Type :=
| EC_InvalidRequest | EC_UnsupportedVersion | EC_FrameTooLarge | EC_UnauthorizedPeer
| EC_SessionNotFound | EC_InvalidTransition | EC_CapabilityUnavailable | EC_PolicyDenied
| EC_ApprovalRequired | EC_ProviderUnavailable | EC_ProviderTimeout | EC_OutcomeUnknown
| EC_ClientLagged | EC_StorageUnavailable | EC_KeyStoreUnavailable | EC_Internal.

#[export] Instance ErrorCode_eq_dec : EqDecision ErrorCode.
Proof. solve_decision. Defined.

Record ProtocolError : Type := {
  er_code : ErrorCode;
  er_message : string;
  er_retryable : bool;
  er_correlation_id : Uuid;
}.

Inductive ServerReply (T : Type) : Type :=
| Success (request_id : Uuid) (result : T)
| Failure (request_id : Uuid) (error : ProtocolError).
Arguments Success {T} request_id result.
Arguments Failure {T} request_id error.

(** The categories that may not be retried. *)
Definition never_retryable (c : ErrorCode) : bool :=
  match c with
  | EC_InvalidRequest | EC_UnsupportedVersion | EC_FrameTooLarge | EC_UnauthorizedPeer
  | EC_SessionNotFound | EC_InvalidTransition | EC_CapabilityUnavailable | EC_PolicyDenied
  | EC_ApprovalRequired | EC_OutcomeUnknown | EC_ClientLagged | EC_KeyStoreUnavailable
  | EC_Internal => true
  | EC_ProviderUnavailable | EC_ProviderTimeout | EC_StorageUnavailable => false
  end.

(** [ProtocolError::validate] *)
Definition ProtocolError_validate (e : ProtocolError) : Result unit string :=
  let? _ := reject_if (is_empty (er_message e) || (512 <? len (er_message e))%N)
    "error message must contain 1 to 512 bytes" in
  reject_if (never_retryable (er_code e) && er_retryable e)
    "error category cannot be marked retryable".

(** ** Result types *)

Inductive ProtocolVersion : Type := PV_V1.
Inductive KeyStoreStatus : Type := KS_Available | KS_Locked | KS_Unavailable.
Inductive MigrationStatus : Type := MS_Ready | MS_Failed.
Inductive AdapterStatus : Type := AH_Available | AH_Unavailable.
Inductive ReadyState : Type := RS_Ready.
Inductive Control : Type := CN_Pause | CN_Resume | CN_Redirect | CN_Cancel.
Inductive ExportFormat : Type := XF_AgeV1.
Inductive DeleteState : Type := DS_Deleting | DS_Deleted.

(** The public states: a deleted session has none. *)
Inductive WireState : Type :=
| WS_Ready | WS_Running | WS_Pausing | WS_Paused | WS_AwaitingClarification
| WS_AwaitingApproval | WS_CancelRequested | WS_OutcomeUnknown | WS_Completed | WS_Failed
| WS_Cancelled | WS_Abandoned | WS_Deleting.

#[export] Instance WireState_eq_dec : EqDecision WireState.
Proof. solve_decision. Defined.

Record InitializeResult : Type := {
  ir_selected_protocol : ProtocolVersion;
  ir_max_frame_bytes : N;
  ir_max_client_queue_events : N;
  ir_max_client_queue_bytes : N;
}.

Record AdapterHealth : Type := {
  ah_id : string;
  ah_status : AdapterStatus;
}.

Record StatusResult : Type := {
  sr_daemon_version : string;
  sr_protocol : ProtocolVersion;
  sr_storage_schema_version : N;
  sr_key_store : KeyStoreStatus;
  sr_migration : MigrationStatus;
  sr_active_sessions : N;
  sr_adapters : list AdapterHealth;
}.

Record CreateSessionResult : Type := {
  cr_session_id : Uuid;
  cr_configuration_hash : string;
  cr_lock_hash : string;
  cr_state : ReadyState;
}.

Record SessionSummary : Type := {
  su_session_id : Uuid;
  su_state : WireState;
  su_created_at : string;
  su_terminal_at : option string;
}.

Record ListSessionsResult : Type := {
  lr_sessions : list SessionSummary;
  lr_next_before_session_id : option Uuid;
}.

Record SessionResult : Type := {
  se_session_id : Uuid;
  se_state : WireState;
  se_last_sequence : N;
  se_pending_approval_id : option Uuid;
  se_uncertain_attempt_id : option Uuid;
}.

Record AttachSessionResult : Type := {
  at_session_id : Uuid;
  at_state : WireState;
  at_replay_after_sequence : N;
  at_last_sequence : N;
}.

Record PromptResult : Type := {
  pr_input_id : Uuid;
  pr_sequence : N;
}.

Record ControlResult : Type := {
  co_control_id : Uuid;
  co_control : Control;
  co_state : WireState;
}.

Record ApprovalResult : Type := {
  ao_approval_id : Uuid;
  ao_decision : ApprovalDecision;
  ao_state : WireState;
}.

Record ReconciliationResult : Type := {
  ro_attempt_id : Uuid;
  ro_resolution : ReconciliationResolution;
  ro_replacement_attempt_id : option Uuid;
  ro_state : WireState;
}.

Record ExportResult : Type := {
  xo_export_id : Uuid;
  xo_format : ExportFormat;
  xo_recipient_fingerprints : list string;
}.

Record DeleteResult : Type := {
  do_deletion_id : Uuid;
  do_state : DeleteState;
}.

(** ** Names of the variants *)

Definition ErrorCode_name (c : ErrorCode) : string :=
  match c with
  | EC_InvalidRequest => "invalid_request"
  | EC_UnsupportedVersion => "unsupported_version"
  | EC_FrameTooLarge => "frame_too_large"
  | EC_UnauthorizedPeer => "unauthorized_peer"
  | EC_SessionNotFound => "session_not_found"
  | EC_InvalidTransition => "invalid_transition"
  | EC_CapabilityUnavailable => "capability_unavailable"
  | EC_PolicyDenied => "policy_denied"
  | EC_ApprovalRequired => "approval_required"
  | EC_ProviderUnavailable => "provider_unavailable"
  | EC_ProviderTimeout => "provider_timeout"
  | EC_OutcomeUnknown => "outcome_unknown"
  | EC_ClientLagged => "client_lagged"
  | EC_StorageUnavailable => "storage_unavailable"
  | EC_KeyStoreUnavailable => "key_store_unavailable"
  | EC_Internal => "internal"
  end.

Definition ErrorCode_codec : Codec ErrorCode :=
  enum_codec
    [EC_InvalidRequest; EC_UnsupportedVersion; EC_FrameTooLarge; EC_UnauthorizedPeer;
     EC_SessionNotFound; EC_InvalidTransition; EC_CapabilityUnavailable; EC_PolicyDenied;
     EC_ApprovalRequired; EC_ProviderUnavailable; EC_ProviderTimeout; EC_OutcomeUnknown;
     EC_ClientLagged; EC_StorageUnavailable; EC_KeyStoreUnavailable; EC_Internal]
    ErrorCode_name.

Definition WireState_name (s : WireState) : string :=
  match s with
  | WS_Ready => "ready" | WS_Running => "running" | WS_Pausing => "pausing"
  | WS_Paused => "paused" | WS_AwaitingClarification => "awaiting_clarification"
  | WS_AwaitingApproval => "awaiting_approval" | WS_CancelRequested => "cancel_requested"
  | WS_OutcomeUnknown => "outcome_unknown" | WS_Completed => "completed"
  | WS_Failed => "failed" | WS_Cancelled => "cancelled" | WS_Abandoned => "abandoned"
  | WS_Deleting => "deleting"
  end.

Definition WireState_codec : Codec WireState :=
  enum_codec
    [WS_Ready; WS_Running; WS_Pausing; WS_Paused; WS_AwaitingClarification;
     WS_AwaitingApproval; WS_CancelRequested; WS_OutcomeUnknown; WS_Completed; WS_Failed;
     WS_Cancelled; WS_Abandoned; WS_Deleting] WireState_name.

Definition ProtocolVersion_codec : Codec ProtocolVersion :=
  enum_codec [PV_V1] (λ _, "workbench/1").

Definition KeyStoreStatus_codec : Codec KeyStoreStatus :=
  enum_codec [KS_Available; KS_Locked; KS_Unavailable]
    (λ s, match s with
          | KS_Available => "available" | KS_Locked => "locked"
          | KS_Unavailable => "unavailable"
          end).

Definition MigrationStatus_codec : Codec MigrationStatus :=
  enum_codec [MS_Ready; MS_Failed]
    (λ s, match s with MS_Ready => "ready" | MS_Failed => "failed" end).

Definition AdapterStatus_codec : Codec AdapterStatus :=
  enum_codec [AH_Available; AH_Unavailable]
    (λ s, match s with AH_Available => "available" | AH_Unavailable => "unavailable" end).

Definition ReadyState_codec : Codec ReadyState := enum_codec [RS_Ready] (λ _, "ready").

Definition Control_codec : Codec Control :=
  enum_codec [CN_Pause; CN_Resume; CN_Redirect; CN_Cancel]
    (λ c, match c with
          | CN_Pause => "pause" | CN_Resume => "resume" | CN_Redirect => "redirect"
          | CN_Cancel => "cancel"
          end).

Definition ExportFormat_codec : Codec ExportFormat := enum_codec [XF_AgeV1] (λ _, "age-v1").

Definition DeleteState_codec : Codec DeleteState :=
  enum_codec [DS_Deleting; DS_Deleted]
    (λ s, match s with DS_Deleting => "deleting" | DS_Deleted => "deleted" end).

(** ** Codecs *)

Definition u64_codec : Codec N := uint_codec u64_max.
Definition u32_codec : Codec N := uint_codec u32_max.

Section wire.
Context (uuid_print : Uuid → string) (uuid_parse : string → option Uuid).
Let uuid := uuid_codec uuid_print uuid_parse.

Definition ProtocolError_codec : Codec ProtocolError :=
  struct_codec
    (required "code" ErrorCode_codec
      (required "message" string_codec
        (required "retryable" bool_codec
          (required "correlation_id" uuid no_fields))))
    (λ e, (er_code e, (er_message e, (er_retryable e, (er_correlation_id e, tt)))))
    (λ '(a, (b, (c, (d, _)))),
       {| er_code := a; er_message := b; er_retryable := c; er_correlation_id := d |}).

Definition InitializeResult_codec : Codec InitializeResult :=
  struct_codec
    (required "selected_protocol" ProtocolVersion_codec
      (required "max_frame_bytes" u64_codec
        (required "max_client_queue_events" u64_codec
          (required "max_client_queue_bytes" u64_codec no_fields))))
    (λ r, (ir_selected_protocol r, (ir_max_frame_bytes r, (ir_max_client_queue_events r,
            (ir_max_client_queue_bytes r, tt)))))
    (λ '(a, (b, (c, (d, _)))),
       {| ir_selected_protocol := a; ir_max_frame_bytes := b;
          ir_max_client_queue_events := c; ir_max_client_queue_bytes := d |}).

Definition AdapterHealth_codec : Codec AdapterHealth :=
  struct_codec
    (required "id" string_codec (required "status" AdapterStatus_codec no_fields))
    (λ h, (ah_id h, (ah_status h, tt)))
    (λ '(a, (b, _)), {| ah_id := a; ah_status := b |}).

Definition StatusResult_codec : Codec StatusResult :=
  struct_codec
    (required "daemon_version" string_codec
      (required "protocol" ProtocolVersion_codec
        (required "storage_schema_version" u32_codec
          (required "key_store" KeyStoreStatus_codec
            (required "migration" MigrationStatus_codec
              (required "active_sessions" u64_codec
                (required "adapters" (vec_codec AdapterHealth_codec) no_fields)))))))
    (λ r, (sr_daemon_version r, (sr_protocol r, (sr_storage_schema_version r, (sr_key_store r,
            (sr_migration r, (sr_active_sessions r, (sr_adapters r, tt))))))))
    (λ '(a, (b, (c, (d, (e, (f, (g, _))))))),
       {| sr_daemon_version := a; sr_protocol := b; sr_storage_schema_version := c;
          sr_key_store := d; sr_migration := e; sr_active_sessions := f; sr_adapters := g |}).

Definition CreateSessionResult_codec : Codec CreateSessionResult :=
  struct_codec
    (required "session_id" uuid
      (required "configuration_hash" string_codec
        (required "lock_hash" string_codec (required "state" ReadyState_codec no_fields))))
    (λ r, (cr_session_id r, (cr_configuration_hash r, (cr_lock_hash r, (cr_state r, tt)))))
    (λ '(a, (b, (c, (d, _)))),
       {| cr_session_id := a; cr_configuration_hash := b; cr_lock_hash := c; cr_state := d |}).

Definition SessionSummary_codec : Codec SessionSummary :=
  struct_codec
    (required "session_id" uuid
      (required "state" WireState_codec
        (required "created_at" string_codec
          (optional false "terminal_at" string_codec no_fields))))
    (λ s, (su_session_id s, (su_state s, (su_created_at s, (su_terminal_at s, tt)))))
    (λ '(a, (b, (c, (d, _)))),
       {| su_session_id := a; su_state := b; su_created_at := c; su_terminal_at := d |}).

Definition ListSessionsResult_codec : Codec ListSessionsResult :=
  struct_codec
    (required "sessions" (vec_codec SessionSummary_codec)
      (optional false "next_before_session_id" uuid no_fields))
    (λ r, (lr_sessions r, (lr_next_before_session_id r, tt)))
    (λ '(a, (b, _)), {| lr_sessions := a; lr_next_before_session_id := b |}).

Definition SessionResult_codec : Codec SessionResult :=
  struct_codec
    (required "session_id" uuid
      (required "state" WireState_codec
        (required "last_sequence" u64_codec
          (optional false "pending_approval_id" uuid
            (optional false "uncertain_attempt_id" uuid no_fields)))))
    (λ r, (se_session_id r, (se_state r, (se_last_sequence r, (se_pending_approval_id r,
            (se_uncertain_attempt_id r, tt))))))
    (λ '(a, (b, (c, (d, (e, _))))),
       {| se_session_id := a; se_state := b; se_last_sequence := c;
          se_pending_approval_id := d; se_uncertain_attempt_id := e |}).

Definition AttachSessionResult_codec : Codec AttachSessionResult :=
  struct_codec
    (required "session_id" uuid
      (required "state" WireState_codec
        (required "replay_after_sequence" u64_codec
          (required "last_sequence" u64_codec no_fields))))
    (λ r, (at_session_id r, (at_state r, (at_replay_after_sequence r, (at_last_sequence r, tt)))))
    (λ '(a, (b, (c, (d, _)))),
       {| at_session_id := a; at_state := b; at_replay_after_sequence := c;
          at_last_sequence := d |}).

Definition PromptResult_codec : Codec PromptResult :=
  struct_codec (required "input_id" uuid (required "sequence" u64_codec no_fields))
    (λ r, (pr_input_id r, (pr_sequence r, tt)))
    (λ '(a, (b, _)), {| pr_input_id := a; pr_sequence := b |}).

Definition ControlResult_codec : Codec ControlResult :=
  struct_codec
    (required "control_id" uuid
      (required "control" Control_codec (required "state" WireState_codec no_fields)))
    (λ r, (co_control_id r, (co_control r, (co_state r, tt))))
    (λ '(a, (b, (c, _))), {| co_control_id := a; co_control := b; co_state := c |}).

Definition ApprovalResult_codec : Codec ApprovalResult :=
  struct_codec
    (required "approval_id" uuid
      (required "decision" ApprovalDecision_codec (required "state" WireState_codec no_fields)))
    (λ r, (ao_approval_id r, (ao_decision r, (ao_state r, tt))))
    (λ '(a, (b, (c, _))), {| ao_approval_id := a; ao_decision := b; ao_state := c |}).

Definition ReconciliationResult_codec : Codec ReconciliationResult :=
  struct_codec
    (required "attempt_id" uuid
      (required "resolution" ReconciliationResolution_codec
        (optional false "replacement_attempt_id" uuid
          (required "state" WireState_codec no_fields))))
    (λ r, (ro_attempt_id r, (ro_resolution r, (ro_replacement_attempt_id r, (ro_state r, tt)))))
    (λ '(a, (b, (c, (d, _)))),
       {| ro_attempt_id := a; ro_resolution := b; ro_replacement_attempt_id := c;
          ro_state := d |}).

Definition ExportResult_codec : Codec ExportResult :=
  struct_codec
    (required "export_id" uuid
      (required "format" ExportFormat_codec
        (required "recipient_fingerprints" (vec_codec string_codec) no_fields)))
    (λ r, (xo_export_id r, (xo_format r, (xo_recipient_fingerprints r, tt))))
    (λ '(a, (b, (c, _))),
       {| xo_export_id := a; xo_format := b; xo_recipient_fingerprints := c |}).

Definition DeleteResult_codec : Codec DeleteResult :=
  struct_codec (required "deletion_id" uuid (required "state" DeleteState_codec no_fields))
    (λ r, (do_deletion_id r, (do_state r, tt)))
    (λ '(a, (b, _)), {| do_deletion_id := a; do_state := b |}).

(** ** The envelope *)

(** [RawReply]: protocol, request_id, ok, result, error. *)
Definition RawReply_fields {T} (c : Codec T) :=
  required "protocol" string_codec
    (required "request_id" uuid
      (required "ok" bool_codec
        (optional true "result" c
          (optional true "error" ProtocolError_codec no_fields)))).

(** [ServerReply::deserialize] *)
Definition decode_reply {T} (c : Codec T) (v : Value) : Result (ServerReply T) DecodeError :=
  let? raw := dec (struct_codec (RawReply_fields c) id id) v in
  let '(protocol, (request_id, (success, (result, (error, _))))) := raw in
  let? _ := reject_if (negb (String.eqb protocol PROTOCOL_V1))
    (DE_Custom "unsupported protocol major") in
  match success, result, error with
  | true, Some result, None => Ok (Success request_id result)
  | false, None, Some error =>
      let? _ := map_err DE_Custom (ProtocolError_validate error) in
      Ok (Failure request_id error)
  | _, _, _ => Err (DE_Custom "reply must contain exactly one valid outcome")
  end.

(** [ServerReply::serialize] *)
Definition encode_reply {T} (c : Codec T) (r : ServerReply T) : Result Value string :=
  match r with
  | Success request_id result =>
      Ok (VObject [("protocol", VString PROTOCOL_V1);
                   ("request_id", VString (uuid_print request_id));
                   ("ok", VBool true); ("result", enc c result)])
  | Failure request_id error =>
      let? _ := ProtocolError_validate error in
      Ok (VObject [("protocol", VString PROTOCOL_V1);
                   ("request_id", VString (uuid_print request_id));
                   ("ok", VBool false); ("error", enc ProtocolError_codec error)])
  end.

(** ** Laws *)

Hypothesis uuid_roundtrip : ∀ u, uuid_parse (uuid_print u) = Some u.

#[local] Instance reply_uuid_laws : CodecLaws uuid (λ _, True) :=
  via_string_laws _ _ uuid_roundtrip.

#[local] Instance reply_uuid_non_null P : NonNull uuid P.
Proof. apply via_string_non_null. Qed.

#[local] Instance ErrorCode_laws : CodecLaws ErrorCode_codec (λ _, True).
Proof. derive_enum. Qed.

#[local] Instance ProtocolError_laws : CodecLaws ProtocolError_codec (λ _, True).
Proof. derive_struct. naive_solver. Qed.

#[local] Instance ProtocolError_non_null P : NonNull ProtocolError_codec P.
Proof. apply struct_non_null. Qed.

Lemma ProtocolError_validate_Ok e :
  ProtocolError_validate e = Ok tt ↔
  (1 ≤ len (er_message e) ≤ 512)%N ∧
  (er_retryable e = true →
     er_code e ∈ [EC_ProviderUnavailable; EC_ProviderTimeout; EC_StorageUnavailable]).
Proof.
  unfold ProtocolError_validate. rewrite bind_Ok, is_empty_len. split.
  - intros ([] & Hm%reject_if_Ok & Hr%reject_if_Ok). bool_to_prop. split; [lia|]. intros Hret.
    destruct Hr as [Hr|Hr]; [|congruence]. destruct (er_code e); simpl in Hr; set_solver.
  - intros [Hm Hr]. exists tt. rewrite !reject_if_Ok. split.
    + apply orb_false_iff; split; [apply N.eqb_neq|apply N.ltb_ge]; lia.
    + destruct (er_retryable e); [|by rewrite andb_false_r]. specialize (Hr eq_refl).
      destruct (er_code e); simpl; try done; set_solver.
Qed.

(** *** Every result type satisfies the laws on the values that fit its widths *)

#[local] Instance WireState_laws : CodecLaws WireState_codec (λ _, True).
Proof. derive_enum. Qed.

#[local] Instance ProtocolVersion_laws : CodecLaws ProtocolVersion_codec (λ _, True).
Proof. derive_enum. Qed.

#[local] Instance KeyStoreStatus_laws : CodecLaws KeyStoreStatus_codec (λ _, True).
Proof. derive_enum. Qed.

#[local] Instance MigrationStatus_laws : CodecLaws MigrationStatus_codec (λ _, True).
Proof. derive_enum. Qed.

#[local] Instance AdapterStatus_laws : CodecLaws AdapterStatus_codec (λ _, True).
Proof. derive_enum. Qed.

#[local] Instance ReadyState_laws : CodecLaws ReadyState_codec (λ _, True).
Proof. derive_enum. Qed.

#[local] Instance Control_laws : CodecLaws Control_codec (λ _, True).
Proof. derive_enum. Qed.

#[local] Instance ExportFormat_laws : CodecLaws ExportFormat_codec (λ _, True).
Proof. derive_enum. Qed.

#[local] Instance DeleteState_laws : CodecLaws DeleteState_codec (λ _, True).
Proof. derive_enum. Qed.

#[local] Instance reply_ApprovalDecision_laws : CodecLaws ApprovalDecision_codec (λ _, True).
Proof. derive_enum. Qed.

#[local] Instance reply_ReconciliationResolution_laws :
  CodecLaws ReconciliationResolution_codec (λ _, True).
Proof. derive_enum. Qed.

#[local] Instance InitializeResult_laws :
  CodecLaws InitializeResult_codec (λ r, (ir_max_frame_bytes r ≤ u64_max ∧ ir_max_client_queue_events r ≤ u64_max ∧
    ir_max_client_queue_bytes r ≤ u64_max)%N).
Proof. derive_struct. naive_solver. Qed.

#[local] Instance AdapterHealth_laws :
  CodecLaws AdapterHealth_codec (λ _, True).
Proof. derive_struct. naive_solver. Qed.

#[local] Instance StatusResult_laws :
  CodecLaws StatusResult_codec (λ r, (sr_storage_schema_version r ≤ u32_max ∧ sr_active_sessions r ≤ u64_max)%N).
Proof. derive_struct. naive_solver. Qed.

#[local] Instance CreateSessionResult_laws :
  CodecLaws CreateSessionResult_codec (λ _, True).
Proof. derive_struct. naive_solver. Qed.

#[local] Instance SessionSummary_laws :
  CodecLaws SessionSummary_codec (λ _, True).
Proof. derive_struct. naive_solver. Qed.

#[local] Instance ListSessionsResult_laws :
  CodecLaws ListSessionsResult_codec (λ _, True).
Proof. derive_struct. naive_solver. Qed.

#[local] Instance SessionResult_laws :
  CodecLaws SessionResult_codec (λ r, (se_last_sequence r ≤ u64_max)%N).
Proof. derive_struct. naive_solver. Qed.

#[local] Instance AttachSessionResult_laws :
  CodecLaws AttachSessionResult_codec (λ r, (at_replay_after_sequence r ≤ u64_max ∧ at_last_sequence r ≤ u64_max)%N).
Proof. derive_struct. naive_solver. Qed.

#[local] Instance PromptResult_laws :
  CodecLaws PromptResult_codec (λ r, (pr_sequence r ≤ u64_max)%N).
Proof. derive_struct. naive_solver. Qed.

#[local] Instance ControlResult_laws :
  CodecLaws ControlResult_codec (λ _, True).
Proof. derive_struct. naive_solver. Qed.

#[local] Instance ApprovalResult_laws :
  CodecLaws ApprovalResult_codec (λ _, True).
Proof. derive_struct. naive_solver. Qed.

#[local] Instance ReconciliationResult_laws :
  CodecLaws ReconciliationResult_codec (λ _, True).
Proof. derive_struct. naive_solver. Qed.

#[local] Instance ExportResult_laws :
  CodecLaws ExportResult_codec (λ _, True).
Proof. derive_struct. naive_solver. Qed.

#[local] Instance DeleteResult_laws :
  CodecLaws DeleteResult_codec (λ _, True).
Proof. derive_struct. naive_solver. Qed.

Section envelope.
Context {T : Type} (c : Codec T) (P : T → Prop) `{!CodecLaws c P, !NonNull c P}.

Definition raw_domain (raw : string * (Uuid * (bool * (option T * (option ProtocolError * unit)))))
    : Prop :=
  ∀ t, raw.2.2.2.1 = Some t → P t.

Lemma RawReply_laws : CodecLaws (struct_codec (RawReply_fields c) id id) raw_domain.
Proof. derive_struct. unfold id, raw_domain. naive_solver. Qed.

(** What a reply must satisfy to be sent. *)
Definition reply_ok (r : ServerReply T) : Prop :=
  match r with
  | Success _ result => P result
  | Failure _ error => ProtocolError_validate error = Ok tt
  end.

(** Reply round trip: a reply is written exactly when its outcome is valid, what
    is written is accepted by the strict visitor and decodes to the same reply,
    and every decoded reply carries exactly one valid outcome. *)
Theorem reply_roundtrip r :
  (reply_ok r → ∃ v, encode_reply c r = Ok v ∧ doc_ok v ∧ decode_reply c (canonical v) = Ok r) ∧
  (∀ v, value_wf v = true → decode_reply c v = Ok r → reply_ok r).
Proof.
  pose proof RawReply_laws as Hraw. split.
  - set (raw := match r with
      | Success id t => (PROTOCOL_V1, (id, (true, (Some t, (None, tt)))))
      | Failure id e => (PROTOCOL_V1, (id, (false, (None, (Some e, tt)))))
      end).
    intros Hr. exists (enc (struct_codec (RawReply_fields c) id id) raw).
    assert (Hdom : raw_domain raw) by (unfold raw, raw_domain; destruct r; simpl; naive_solver).
    split_and!.
    + destruct r; simpl in *; [done|]. by rewrite Hr.
    + by apply (enc_ok (c := struct_codec (RawReply_fields c) id id)).
    + unfold decode_reply. rewrite dec_enc by done. unfold raw.
      destruct r; simpl in *; [done|]. by rewrite Hr.
  - intros v Hv. unfold decode_reply.
    destruct (dec _ v) as [(p & q & s & res & err & [])|] eqn:Hd; [|done].
    pose proof (dec_sound _ _ Hv Hd) as Hdom. unfold raw_domain in Hdom. simpl in *.
    destruct (negb _); [done|]. simpl.
    destruct s, res as [t|], err as [e|]; simpl; try done.
    + intros [= <-]. by apply Hdom.
    + destruct (ProtocolError_validate e) as [[]|] eqn:He; simpl; [|done]. by intros [= <-].
Qed.
End envelope.
End wire.

(** A reply to [session.get], over the concrete text form of identifiers. *)
Definition sample_reply : ServerReply SessionResult :=
  Success 7%N {| se_session_id := 11%N; se_state := WS_AwaitingApproval; se_last_sequence := 4%N;
                 se_pending_approval_id := Some 12%N; se_uncertain_attempt_id := None |}.

Lemma reply_roundtrip_witness :
  ∃ v, encode_reply binary_print binary_parse (SessionResult_codec binary_print binary_parse)
         sample_reply = Ok v ∧ doc_ok v ∧
       decode_reply binary_print binary_parse (SessionResult_codec binary_print binary_parse)
         (canonical v) = Ok sample_reply.
Proof.
  apply (reply_roundtrip binary_print binary_parse binary_roundtrip
    (SessionResult_codec binary_print binary_parse) (λ r, (se_last_sequence r ≤ u64_max)%N)
    (CodecLaws0 := SessionResult_laws binary_print binary_parse binary_roundtrip)
    (NonNull0 := struct_non_null _ _ _ _)).
  vm_compute. discriminate.
Defined.
