(* ===== verification/Codec.v ===== *)
(** * Codec: newline-delimited framing (workbench-protocol/src/codec.rs)

    A buffer is a byte string. Parsing and printing JSON text is serde_json's:
    [parse_json] reads one complete document from a frame, [to_vec] prints one. *)

From stdpp Require Import countable.
From Stdlib Require Import SpecFloat.
From S2P Require Import Prelude Text BTree Errors Json Wire ProtoCommand.

Definition MAX_FRAME_BYTES : N := 8388608.
Definition NEWLINE : N := 10.
Definition LF : ascii := ascii_of_N NEWLINE.

(** The text of serde_json's messages is not kept. *)
Inductive ProtocolCodecError : Type :=
| CE_FrameTooLarge | CE_UnsupportedVersion | CE_IncompleteFrame | CE_InvalidJson.

#[export] Instance ProtocolCodecError_eq_dec : EqDecision ProtocolCodecError.
Proof. solve_decision. Defined.

Section codec.
Context {Inbound Outbound : Type}.
Context (parse_json : string → option Value).
Context (from_value : Value → Result Inbound DecodeError).
Context (serialize : Outbound → option Value) (print_json : Value → string).

(** The test for another protocol version, made before the typed reading. *)
Definition other_version (v : Value) : bool :=
  match m ← as_object v; p ← bt_get "protocol" m; as_str p with
  | Some protocol => negb (String.eqb protocol PROTOCOL_V1)
  | None => false
  end.

Definition decode_frame (frame : string) : Result Inbound ProtocolCodecError :=
  let? _ := reject_if (is_empty frame) CE_InvalidJson in
  let? doc := ok_or (parse_json frame) CE_InvalidJson in
  let? strict := map_err (λ _, CE_InvalidJson) (strict_value doc) in
  let? _ := reject_if (other_version strict) CE_UnsupportedVersion in
  map_err (λ _, CE_InvalidJson) (from_value strict).

(** [Decoder::decode]: the buffer left behind and the result. *)
Definition decode (source : string) : string * Result (option Inbound) ProtocolCodecError :=
  match split_once NEWLINE source with
  | None =>
      if (MAX_FRAME_BYTES <? len source)%N then (EmptyString, Err CE_FrameTooLarge)
      else (source, Ok None)
  | Some (frame, rest) =>
      if (MAX_FRAME_BYTES <? len frame)%N then (rest, Err CE_FrameTooLarge)
      else (rest, result_map Some (decode_frame frame))
  end.

(** [Decoder::decode_eof] *)
Definition decode_eof (source : string) : string * Result (option Inbound) ProtocolCodecError :=
  if is_empty source then (source, Ok None)
  else if (MAX_FRAME_BYTES <? len source)%N then (EmptyString, Err CE_FrameTooLarge)
  else (EmptyString, Err CE_IncompleteFrame).

(** [Encoder::encode] appends to the destination buffer. *)
Definition encode (item : Outbound) (destination : string)
    : string * Result unit ProtocolCodecError :=
  match serialize item with
  | None => (destination, Err CE_InvalidJson)
  | Some doc =>
      let encoded := print_json doc in
      if (MAX_FRAME_BYTES <? len encoded)%N then (destination, Err CE_FrameTooLarge)
      else (destination +:+ encoded +:+ String LF EmptyString, Ok tt)
  end.

(** Successive calls of the decoder on one buffer, until it asks for more input or
    the given number of calls has been made. *)
Fixpoint decode_all (calls : nat) (source : string)
    : string * list (Result Inbound ProtocolCodecError) :=
  match calls with
  | O => (source, [])
  | S calls =>
      match decode source with
      | (rest, Ok None) => (rest, [])
      | (rest, Ok (Some item)) =>
          let '(rest, items) := decode_all calls rest in (rest, Ok item :: items)
      | (rest, Err e) =>
          let '(rest, items) := decode_all calls rest in (rest, Err e :: items)
      end
  end.

(** Successive writes to one buffer; failed ones write nothing. *)
Definition encode_all (items : list Outbound) (destination : string) : string :=
  foldl (λ buffer item, (encode item buffer).1) destination items.

(** ** Lemmas *)

Definition newline_free (s : string) : Prop := all_bytes (λ c, negb (is_byte NEWLINE c)) s = true.

Lemma split_once_frame frame rest :
  newline_free frame →
  split_once NEWLINE (frame +:+ String LF rest) = Some (frame, rest).
Proof.
  unfold newline_free. induction frame as [|c frame IH]; intros Hf; [done|].
  simpl in Hf |- *. apply andb_true_iff in Hf as [Hc Hf]. apply negb_true_iff in Hc.
  rewrite Hc. by rewrite IH.
Qed.

Lemma split_once_none s : newline_free s → split_once NEWLINE s = None.
Proof.
  unfold newline_free. induction s as [|c s IH]; intros Hs; [done|].
  simpl in Hs |- *. apply andb_true_iff in Hs as [Hc Hs]. apply negb_true_iff in Hc.
  rewrite Hc. by rewrite IH.
Qed.

(** A terminated frame is consumed whole, whatever it holds. *)
Lemma decode_terminated frame rest :
  newline_free frame →
  decode (frame +:+ String LF rest) =
  (rest, if (MAX_FRAME_BYTES <? len frame)%N then Err CE_FrameTooLarge
         else result_map Some (decode_frame frame)).
Proof. intros Hf. unfold decode. rewrite split_once_frame by done. by case_match. Qed.

(** One result per frame, in order. *)
Definition frame_result (frame : string) : Result Inbound ProtocolCodecError :=
  if (MAX_FRAME_BYTES <? len frame)%N then Err CE_FrameTooLarge else decode_frame frame.

Fixpoint frames (fs : list string) (tail : string) : string :=
  match fs with
  | [] => tail
  | f :: fs => f +:+ String LF (frames fs tail)
  end.

Lemma decode_all_frames fs tail n :
  Forall newline_free fs → newline_free tail → (len tail ≤ MAX_FRAME_BYTES)%N →
  (length fs < n)%nat →
  decode_all n (frames fs tail) = (tail, frame_result <$> fs).
Proof.
  intros Hfs Ht Hlen. revert n. induction Hfs as [|f fs Hf Hfs IH]; intros [|n] Hn; simpl in *; try lia.
  - unfold decode. rewrite split_once_none by done. by rewrite (proj2 (N.ltb_ge _ _) Hlen).
  - rewrite decode_terminated by done. unfold frame_result at 1.
    rewrite IH by lia. destruct (MAX_FRAME_BYTES <? len f)%N; [done|].
    by destruct (decode_frame f).
Qed.

(** ** Properties *)

(** Framing: whatever the frames hold, a buffer of terminated frames followed by
    an unfinished one yields exactly one result per frame, in order, and keeps
    the unfinished bytes; an oversized or malformed frame never disturbs its
    neighbours. *)
Theorem decode_resynchronizes fs tail n :
  Forall newline_free fs → newline_free tail → (len tail ≤ MAX_FRAME_BYTES)%N →
  (length fs < n)%nat →
  decode_all n (frames fs tail) = (tail, frame_result <$> fs).
Proof. apply decode_all_frames. Qed.
End codec.

Lemma decode_resynchronizes_witness :
  decode_all (Inbound := Value) (λ s, if String.eqb s "1" then Some (VNumber (PosInt 1)) else None)
    Ok 3 (frames ["x"; "1"] "2") = ("2", [Err CE_InvalidJson; Ok (VNumber (PosInt 1))]).
Proof.
  apply (decode_resynchronizes
    (λ s, if String.eqb s "1" then Some (VNumber (PosInt 1)) else None) Ok ["x"; "1"] "2" 3);
    [repeat constructor | reflexivity | vm_compute; discriminate | simpl; lia].
Defined.

(** ** Commands over the wire *)

Section transport.
Context (uuid_print : Uuid → string) (uuid_parse : string → option Uuid) (is_v7 : Uuid → bool).
Hypothesis uuid_roundtrip : ∀ u, uuid_parse (uuid_print u) = Some u.
Context (parse_json : string → option Value) (print_json : Value → string).

(** serde_json reads back what it prints, and its compact form has no newline. *)
Hypothesis json_roundtrip : ∀ doc, doc_ok doc → parse_json (print_json doc) = Some doc.
Hypothesis json_compact : ∀ doc, newline_free (print_json doc).
Hypothesis json_nonempty : ∀ doc, print_json doc ≠ EmptyString.

Let send := encode_all (λ c, Some (encode_command uuid_print uuid_parse c)) print_json.
Let receive := decode_all parse_json (decode_command uuid_print uuid_parse is_v7).

(** The frame of a command. *)
Definition command_frame (c : ClientCommand) : string :=
  print_json (encode_command uuid_print uuid_parse c).

Lemma encode_all_frames cs buffer :
  Forall (λ c, (len (command_frame c) ≤ MAX_FRAME_BYTES)%N) cs →
  send cs buffer = buffer +:+ frames (command_frame <$> cs) EmptyString.
Proof.
  intros Hcs. revert buffer. unfold send, encode_all.
  induction Hcs as [|c cs Hc Hcs IH]; intros buffer; simpl; [by rewrite string_app_nil|].
  unfold encode at 2. fold (command_frame c). rewrite (proj2 (N.ltb_ge _ _) Hc). simpl.
  rewrite IH. by rewrite !string_app_assoc.
Qed.

(** A command that is read carries this protocol version, if it is an object. *)
Lemma decode_command_version v c :
  decode_command uuid_print uuid_parse is_v7 v = Ok c → other_version v = false.
Proof.
  intros (m & params & Hraw & Hp & _)%decode_command_Ok. unfold other_version.
  destruct v as [| | | |vs|es]; simpl; try done.
  apply struct_first_field in Hraw as (pv & -> & Hpv). simpl in Hpv |- *.
  destruct pv; simplify_eq/=. by rewrite Hp.
Qed.

Lemma decode_command_frame c :
  command_ok is_v7 c →
  decode_frame parse_json (decode_command uuid_print uuid_parse is_v7) (command_frame c) = Ok c.
Proof.
  intros Hc. destruct (command_decodes uuid_print uuid_parse is_v7 uuid_roundtrip c Hc) as [Hok Hdec].
  unfold decode_frame, command_frame. rewrite (proj2 (is_empty_false _) (json_nonempty _)).
  cbn [reject_if].
  rewrite json_roundtrip by done. cbn [ok_or].
  rewrite (proj2 (strict_value_Ok _ _) (conj Hok eq_refl)). cbn [map_err].
  assert (other_version (canonical (encode_command uuid_print uuid_parse c)) = false) as ->.
  { by apply decode_command_version in Hdec. }
  cbn [reject_if]. by rewrite Hdec.
Qed.

End transport.

(** ** A concrete text form of documents

    The assumptions on JSON text can hold: documents are encoded as trees, trees
    as positive numbers and those as binary digits. *)

Definition FloatCode : Type := (bool + bool) + (unit + (bool * positive * Z)).

Definition float_to_code (f : f64) : FloatCode :=
  match f with
  | S754_zero b => inl (inl b)
  | S754_infinity b => inl (inr b)
  | S754_nan => inr (inl tt)
  | S754_finite b m e => inr (inr (b, m, e))
  end.

Definition code_to_float (c : FloatCode) : f64 :=
  match c with
  | inl (inl b) => S754_zero b
  | inl (inr b) => S754_infinity b
  | inr (inl _) => S754_nan
  | inr (inr (b, m, e)) => S754_finite b m e
  end.

Definition Leaf : Type := (unit + bool) + ((N + Z) + (FloatCode + string)).

Fixpoint value_to_tree (v : Value) : gen_tree Leaf :=
  match v with
  | VNull => GenLeaf (inl (inl tt))
  | VBool b => GenLeaf (inl (inr b))
  | VNumber (PosInt n) => GenLeaf (inr (inl (inl n)))
  | VNumber (NegInt z) => GenLeaf (inr (inl (inr z)))
  | VNumber (Float f) => GenLeaf (inr (inr (inl (float_to_code f))))
  | VString s => GenLeaf (inr (inr (inr s)))
  | VArray vs => GenNode 0 (List.map value_to_tree vs)
  | VObject es =>
      GenNode 1 (List.map (λ e, GenNode 2 [GenLeaf (inr (inr (inr (fst e)))); value_to_tree (snd e)])
                   es)
  end.

Fixpoint tree_to_value (t : gen_tree Leaf) : Value :=
  match t with
  | GenLeaf (inl (inl _)) => VNull
  | GenLeaf (inl (inr b)) => VBool b
  | GenLeaf (inr (inl (inl n))) => VNumber (PosInt n)
  | GenLeaf (inr (inl (inr z))) => VNumber (NegInt z)
  | GenLeaf (inr (inr (inl c))) => VNumber (Float (code_to_float c))
  | GenLeaf (inr (inr (inr s))) => VString s
  | GenNode 0 ts => VArray (List.map tree_to_value ts)
  | GenNode _ ts =>
      VObject (List.map (λ t, match t with
        | GenNode _ [GenLeaf (inr (inr (inr k))); t] => (k, tree_to_value t)
        | _ => (EmptyString, VNull)
        end) ts)
  end.

Lemma tree_roundtrip v : tree_to_value (value_to_tree v) = v.
Proof.
  induction v as [|b|n|s|vs IH|es IH] using Value_nested_ind; simpl; try done.
  - by destruct n as [| |[]].
  - rewrite List.map_map. f_equal. by apply map_id_Forall.
  - rewrite List.map_map. f_equal. apply map_id_Forall.
    eapply Forall_impl; [exact IH|]. intros [k v] Hv. simpl in *. by rewrite Hv.
Qed.

Definition digits_print (v : Value) : string :=
  String "v" (positive_print (countable.encode (value_to_tree v))).

Definition digits_parse (s : string) : option Value :=
  match s with
  | String _ digits =>
      p ← positive_parse digits;
      t ← @countable.decode (gen_tree Leaf) _ _ p;
      Some (tree_to_value t)
  | EmptyString => None
  end.

Lemma digits_roundtrip v : digits_parse (digits_print v) = Some v.
Proof.
  unfold digits_parse, digits_print. rewrite positive_roundtrip. simpl.
  rewrite decode_encode. simpl. by rewrite tree_roundtrip.
Qed.

Lemma digits_compact v : newline_free (digits_print v).
Proof.
  unfold newline_free, digits_print. generalize (countable.encode (value_to_tree v)). intros p. simpl.
  induction p as [p IH|p IH|]; simpl; by rewrite ?IH.
Qed.

