(* ===== verification/Subscription.v ===== *)
(** * Subscription: session events and the bounded client queue
      (workbench-protocol/src/event.rs and subscription.rs)

    The encoded size of an event is serde_json's: [encoded_len] is a parameter,
    [None] for an encoding error. *)

From S2P Require Import Prelude Text BTree Errors Event Json Wire ProtoCommand.

Record SessionEvent : Type := {
  sev_protocol : string;
  sev_event_id : Uuid;
  sev_session_id : Uuid;
  sev_sequence : N;
  sev_causation_request_id : option Uuid;
  sev_kind : EventKind;
  sev_occurred_at : string;
  sev_data : Value;
}.

(** [SessionEvent::validate] *)
Definition SessionEvent_validate (e : SessionEvent) : Result unit string :=
  let? _ := reject_if (negb (String.eqb (sev_protocol e) PROTOCOL_V1))
    "unsupported protocol major" in
  let? _ := reject_if (sev_sequence e =? 0)%N "event sequence must be positive" in
  reject_if (negb (is_object (sev_data e))) "event data must be an object".

Definition MAX_QUEUE_EVENTS : N := 1024.
Definition MAX_QUEUE_BYTES : N := 8388608.

Inductive SubscriptionError : Type := SE_ClientLagged | SE_Closed | SE_Encoding.

#[export] Instance SubscriptionError_eq_dec : EqDecision SubscriptionError.
Proof. solve_decision. Defined.

Record SubscriptionQueue : Type := {
  q_events : list (SessionEvent * N);
  q_encoded_bytes : N;
  q_max_events : N;
  q_max_bytes : N;
  q_closed : bool;
}.

(** [SubscriptionQueue::new] *)
Definition queue_new (max_events max_bytes : N) : SubscriptionQueue :=
  {| q_events := []; q_encoded_bytes := 0; q_max_events := max_events;
     q_max_bytes := max_bytes; q_closed := false |}.

Definition queue_default : SubscriptionQueue := queue_new MAX_QUEUE_EVENTS MAX_QUEUE_BYTES.

Section queue.
Context (encoded_len : SessionEvent → option N).

(** [SubscriptionQueue::push] *)
Definition push (q : SubscriptionQueue) (event : SessionEvent)
    : SubscriptionQueue * Result unit SubscriptionError :=
  if q_closed q then (q, Err SE_Closed)
  else match SessionEvent_validate event with
  | Err _ => (q, Err SE_Encoding)
  | Ok _ =>
      match encoded_len event with
      | None => (q, Err SE_Encoding)
      | Some n =>
          let encoded_bytes := (n + 1)%N in
          if (N.of_nat (length (q_events q)) =? q_max_events q)%N
             || (q_max_bytes q <? saturating_add usize_max (q_encoded_bytes q) encoded_bytes)%N
          then ({| q_events := q_events q; q_encoded_bytes := q_encoded_bytes q;
                   q_max_events := q_max_events q; q_max_bytes := q_max_bytes q;
                   q_closed := true |}, Err SE_ClientLagged)
          else ({| q_events := q_events q ++ [(event, encoded_bytes)];
                   q_encoded_bytes := q_encoded_bytes q + encoded_bytes;
                   q_max_events := q_max_events q; q_max_bytes := q_max_bytes q;
                   q_closed := q_closed q |}, Ok tt)
      end
  end.

(** [SubscriptionQueue::pop]; [pop_front] and the subtraction of its size. *)
Definition pop (q : SubscriptionQueue) : SubscriptionQueue * option SessionEvent :=
  match q_events q with
  | [] => (q, None)
  | (event, encoded_bytes) :: events =>
      ({| q_events := events; q_encoded_bytes := q_encoded_bytes q - encoded_bytes;
          q_max_events := q_max_events q; q_max_bytes := q_max_bytes q;
          q_closed := q_closed q |}, Some event)
  end.

(** [replay_after] *)
Definition replay_after (events : list SessionEvent) (after_sequence : N) : list SessionEvent :=
  filter (λ e, (after_sequence < sev_sequence e)%N) events.

(** ** Runs of the queue *)

Inductive QueueOp : Type := QPush (event : SessionEvent) | QPop.

(** A run: the queue, the accepted events, the delivered events, and whether a
    push has reported the client as lagging. *)
Record QueueRun : Type := {
  run_queue : SubscriptionQueue;
  run_accepted : list SessionEvent;
  run_delivered : list SessionEvent;
  run_lagged : bool;
}.

Definition run_step (r : QueueRun) (op : QueueOp) : QueueRun :=
  match op with
  | QPush e =>
      let '(q, res) := push (run_queue r) e in
      {| run_queue := q;
         run_accepted := run_accepted r ++ (if is_ok res then [e] else []);
         run_delivered := run_delivered r;
         run_lagged := run_lagged r || bool_decide (res = Err SE_ClientLagged) |}
  | QPop =>
      let '(q, res) := pop (run_queue r) in
      {| run_queue := q; run_accepted := run_accepted r;
         run_delivered := run_delivered r ++ option_list res;
         run_lagged := run_lagged r |}
  end.

Definition run_ops (max_events max_bytes : N) (ops : list QueueOp) : QueueRun :=
  foldl run_step {| run_queue := queue_new max_events max_bytes; run_accepted := [];
                    run_delivered := []; run_lagged := false |} ops.

(** ** Lemmas *)

Definition sizes (l : list (SessionEvent * N)) : N := foldr (λ e n, (e.2 + n)%N) 0%N l.

Lemma sizes_app l k : sizes (l ++ k) = (sizes l + sizes k)%N.
Proof. induction l as [|e l IH]; simpl; [done|]. rewrite IH. lia. Qed.

(** Every queue that can be reached, and its history. *)
Record run_inv (r : QueueRun) : Prop := {
  inv_bytes : q_encoded_bytes (run_queue r) = sizes (q_events (run_queue r));
  inv_count : (N.of_nat (length (q_events (run_queue r))) ≤ q_max_events (run_queue r))%N;
  inv_limit : (q_encoded_bytes (run_queue r) ≤ q_max_bytes (run_queue r))%N;
  inv_fifo : run_accepted r = run_delivered r ++ (q_events (run_queue r)).*1;
  inv_valid : Forall (λ e, SessionEvent_validate e = Ok tt) (run_accepted r);
  inv_lagged : run_lagged r = q_closed (run_queue r);
}.

Lemma run_step_bounds r op :
  q_max_events (run_queue (run_step r op)) = q_max_events (run_queue r) ∧
  q_max_bytes (run_queue (run_step r op)) = q_max_bytes (run_queue r).
Proof.
  destruct op as [e|]; simpl; unfold push, pop; repeat case_match; simplify_eq/=; done.
Qed.

Lemma run_step_inv r op :
  (q_max_bytes (run_queue r) < usize_max)%N → run_inv r → run_inv (run_step r op).
Proof.
  intros Hmax [Hb Hc Hl Hf Hv Hg]. destruct op as [e|]; simpl.
  - unfold push. destruct (q_closed (run_queue r)) eqn:Hcl; simpl.
    { split; simpl; rewrite ?app_nil_r; try done. by rewrite Hcl, Hg. }
    destruct (SessionEvent_validate e) as [[]|] eqn:Hval; simpl.
    2:{ split; simpl; rewrite ?app_nil_r; try done. by rewrite Hcl, Hg. }
    destruct (encoded_len e) as [n|]; simpl.
    2:{ split; simpl; rewrite ?app_nil_r; try done. by rewrite Hcl, Hg. }
    destruct (_ || _) eqn:Hfull; simpl.
    { split; simpl; rewrite ?app_nil_r; try done.
      by rewrite orb_true_r. }
    bool_to_prop. unfold saturating_add in *. split; simpl.
    + rewrite sizes_app, Hb. simpl. lia.
    + rewrite length_app. simpl. lia.
    + lia.
    + by rewrite Hf, fmap_app, app_assoc.
    + apply Forall_app; auto.
    + by rewrite orb_false_r, Hg.
  - unfold pop. destruct (q_events (run_queue r)) as [|[e n] es] eqn:He; simpl in *.
    { split; simpl; rewrite ?app_nil_r; rewrite ?He; done. }
    split; simpl; try done; try lia. by rewrite <-app_assoc.
Qed.

Lemma run_ops_inv max_events max_bytes ops :
  (max_bytes < usize_max)%N →
  run_inv (run_ops max_events max_bytes ops) ∧
  q_max_events (run_queue (run_ops max_events max_bytes ops)) = max_events ∧
  q_max_bytes (run_queue (run_ops max_events max_bytes ops)) = max_bytes.
Proof.
  intros Hmax. unfold run_ops. induction ops as [|op ops IH] using rev_ind.
  { simpl. split; [split; simpl; try done; lia|done]. }
  rewrite foldl_app. simpl. destruct IH as (Hinv & He & Hb).
  destruct (run_step_bounds (foldl run_step
    {| run_queue := queue_new max_events max_bytes; run_accepted := [];
       run_delivered := []; run_lagged := false |} ops) op) as [He' Hb'].
  split_and!; [apply run_step_inv; [by rewrite Hb|done]|congruence..].
Qed.

(** ** Properties *)

(** The client queue, in every run of pushes and pops from a new queue: the byte
    count is the sum of the sizes of the queued events and stays within the
    limit, as does their number; what is delivered followed by what is queued is
    exactly what was accepted, in order; only valid events are accepted; and the
    queue is closed exactly when a push has reported the client as lagging, after
    which every push is refused. *)
Theorem queue_run max_events max_bytes ops :
  (max_bytes < usize_max)%N →
  let r := run_ops max_events max_bytes ops in
  let q := run_queue r in
  q_encoded_bytes q = sizes (q_events q) ∧
  (q_encoded_bytes q ≤ max_bytes)%N ∧ (N.of_nat (length (q_events q)) ≤ max_events)%N ∧
  run_accepted r = run_delivered r ++ (q_events q).*1 ∧
  Forall (λ e, SessionEvent_validate e = Ok tt) (run_accepted r) ∧
  q_closed q = run_lagged r ∧
  (run_lagged r = true → ∀ e, push q e = (q, Err SE_Closed)).
Proof.
  intros Hmax. simpl. destruct (run_ops_inv max_events max_bytes ops Hmax) as ([] & He & Hb).
  rewrite He, Hb in *. split_and!; try done. intros Hl e. unfold push.
  by rewrite <-inv_lagged0, Hl.
Qed.
End queue.

Definition sample_event (n : N) : SessionEvent :=
  {| sev_protocol := PROTOCOL_V1; sev_event_id := n; sev_session_id := 1%N; sev_sequence := n;
     sev_causation_request_id := None; sev_kind := EK_InputRecorded; sev_occurred_at := "t";
     sev_data := VObject [] |}.

Lemma queue_run_witness :
  let r := run_ops (λ _, Some 4%N) 2 100
             [QPush (sample_event 1); QPush (sample_event 2); QPop; QPush (sample_event 3);
              QPush (sample_event 4)] in
  run_accepted r = run_delivered r ++ (q_events (run_queue r)).*1.
Proof.
  apply (queue_run (λ _, Some 4%N) 2 100
    [QPush (sample_event 1); QPush (sample_event 2); QPop; QPush (sample_event 3);
     QPush (sample_event 4)]). reflexivity.
Defined.
