(* ===== verification/ConfigModel.v ===== *)
(** * ConfigModel: the configuration data model (workbench-config/src/model.rs)

    Every struct and enum of the configuration with its derived codec, and the
    built-in configuration. A [BTreeMap] is its sorted list of entries. *)

From S2P Require Import Prelude Text BTree Json Wire.

(** ** Enums *)

Inductive ProviderType : Type := PT_SubscriptionCli | PT_Api | PT_Acp | PT_Fake.

#[export] Instance ProviderType_eq_dec : EqDecision ProviderType.
Proof. solve_decision. Defined.

Inductive ProviderDriver : Type := PD_ClaudeCode | PD_Codex.

#[export] Instance ProviderDriver_eq_dec : EqDecision ProviderDriver.
Proof. solve_decision. Defined.

Inductive DataCollection : Type := DC_Deny | DC_Allow.

#[export] Instance DataCollection_eq_dec : EqDecision DataCollection.
Proof. solve_decision. Defined.

Inductive Capability : Type :=
| CAP_Streaming | CAP_ToolCalling | CAP_StructuredOutput | CAP_SessionResume | CAP_Cancellation | CAP_Vision | CAP_Mcp | CAP_Acp.

#[export] Instance Capability_eq_dec : EqDecision Capability.
Proof. solve_decision. Defined.

Inductive EffectClass : Type :=
| CE_IdempotentRead | CE_IdempotentWrite | CE_PaidInference | CE_NonIdempotentWrite | CE_Production | CE_Credential.

#[export] Instance EffectClass_eq_dec : EqDecision EffectClass.
Proof. solve_decision. Defined.

Inductive ToolKind : Type := TK_Builtin | TK_Mcp.

#[export] Instance ToolKind_eq_dec : EqDecision ToolKind.
Proof. solve_decision. Defined.

Inductive ApprovalMode : Type := AM_Never | AM_Policy | AM_Always.

#[export] Instance ApprovalMode_eq_dec : EqDecision ApprovalMode.
Proof. solve_decision. Defined.

Inductive McpTransport : Type := MT_Stdio | MT_Http.

#[export] Instance McpTransport_eq_dec : EqDecision McpTransport.
Proof. solve_decision. Defined.

Inductive NativeWriteMode : Type := NW_Disabled | NW_ApprovalRequired.

#[export] Instance NativeWriteMode_eq_dec : EqDecision NativeWriteMode.
Proof. solve_decision. Defined.

Inductive DefaultToolMode : Type := DM_ReadOnly | DM_ApprovalRequired | DM_Denied.

#[export] Instance DefaultToolMode_eq_dec : EqDecision DefaultToolMode.
Proof. solve_decision. Defined.

Inductive ProductionMutations : Type := PMU_ApprovalRequired.

#[export] Instance ProductionMutations_eq_dec : EqDecision ProductionMutations.
Proof. solve_decision. Defined.

Inductive Encryption : Type := ENC_Required.

#[export] Instance Encryption_eq_dec : EqDecision Encryption.
Proof. solve_decision. Defined.

Inductive ExportFormat : Type := XFMT_AgeV1.

#[export] Instance ExportFormat_eq_dec : EqDecision ExportFormat.
Proof. solve_decision. Defined.

(** ** Structs *)

Record Privacy : Type := {
  pv_zero_data_retention : bool;
  pv_data_collection : DataCollection;
}.

Record Provider : Type := {
  pr_kind : ProviderType;
  pr_driver : option ProviderDriver;
  pr_executable : option string;
  pr_credential_ref : option string;
  pr_privacy : option Privacy;
  pr_base_url : option string;
}.

Record Model : Type := {
  md_provider : string;
  md_runtime_model : string;
}.

Record Role : Type := {
  ro_model : string;
  ro_tools : list string;
  ro_data_sources : list string;
  ro_required_capabilities : list Capability;
  ro_fallback_models : list string;
}.

Record Operation : Type := {
  op_name : string;
  op_effect_class : EffectClass;
  op_idempotent : bool;
  op_material_cost : bool;
  op_approval : ApprovalMode;
}.

Record Tool : Type := {
  tl_kind : ToolKind;
  tl_mcp_server : option string;
  tl_operations : list Operation;
}.

Record DataSource : Type := {
  ds_tool : string;
  ds_operation : string;
}.

Record McpServer : Type := {
  ms_transport : McpTransport;
  ms_version : string;
  ms_sha256 : string;
  ms_executable : option string;
  ms_args : list string;
  ms_env : BTreeMap string;
  ms_url : option string;
  ms_headers : BTreeMap string;
  ms_max_response_bytes : option N;
}.

Record WorkflowStep : Type := {
  ws_id : string;
  ws_role : string;
  ws_on_findings : option string;
  ws_max_iterations : option N;
  ws_tools : list string;
  ws_fallbacks : list string;
}.

Record Workflow : Type := {
  wf_steps : list WorkflowStep;
}.

Record Routing : Type := {
  rt_default_role : string;
  rt_confidence_threshold : f64;
}.

Record ProviderNativeWritePolicy : Type := {
  nw_mode : NativeWriteMode;
  nw_allowlist : list string;
}.

#[export] Instance ProviderNativeWritePolicy_eq_dec : EqDecision ProviderNativeWritePolicy.
Proof. solve_decision. Defined.

(** [ProviderNativeWritePolicy::default] and [is_default] *)
Definition NativeWritePolicy_default : ProviderNativeWritePolicy :=
  {| nw_mode := NW_Disabled; nw_allowlist := [] |}.

Definition is_default (p : ProviderNativeWritePolicy) : bool :=
  bool_decide (p = NativeWritePolicy_default).

(** [ProviderNativeWritePolicy::allows] *)
Definition allows (p : ProviderNativeWritePolicy) (provider_id : string) : bool :=
  match nw_mode p with NW_ApprovalRequired => true | _ => false end
  && existsb (String.eqb provider_id) (nw_allowlist p).

Record CostPolicy : Type := {
  cp_max_session_usd_micros : N;
  cp_max_attempt_usd_micros : option N;
}.

#[export] Instance CostPolicy_eq_dec : EqDecision CostPolicy.
Proof. solve_decision. Defined.

Record Policies : Type := {
  po_default_tool_mode : DefaultToolMode;
  po_global_deny : list string;
  po_production_mutations : ProductionMutations;
  po_cost : option CostPolicy;
  po_provider_native_writes : ProviderNativeWritePolicy;
}.

Record Storage : Type := {
  st_encryption : Encryption;
  st_retention_days : option N;
  st_export_format : ExportFormat;
}.

Record ProtocolLimits : Type := {
  pl_max_frame_bytes : N;
  pl_max_client_queue_events : N;
  pl_max_client_queue_bytes : N;
  pl_cancellation_deadline_ms : N;
}.

Record WorkbenchConfiguration : Type := {
  cf_version : N;
  cf_providers : BTreeMap Provider;
  cf_models : BTreeMap Model;
  cf_roles : BTreeMap Role;
  cf_tools : BTreeMap Tool;
  cf_data_sources : BTreeMap DataSource;
  cf_mcp_servers : BTreeMap McpServer;
  cf_workflows : BTreeMap Workflow;
  cf_routing : Routing;
  cf_policies : Policies;
  cf_storage : Storage;
  cf_protocol : ProtocolLimits;
}.

(** ** Codecs *)

Definition is_nil {A} (l : list A) : bool := match l with [] => true | _ => false end.

Definition ProviderType_codec : Codec ProviderType :=
  enum_codec [PT_SubscriptionCli; PT_Api; PT_Acp; PT_Fake]
    (λ x, match x with
          | PT_SubscriptionCli => "subscription-cli"
          | PT_Api => "api"
          | PT_Acp => "acp"
          | PT_Fake => "fake"
          end).

Definition ProviderDriver_codec : Codec ProviderDriver :=
  enum_codec [PD_ClaudeCode; PD_Codex]
    (λ x, match x with
          | PD_ClaudeCode => "claude-code"
          | PD_Codex => "codex"
          end).

Definition DataCollection_codec : Codec DataCollection :=
  enum_codec [DC_Deny; DC_Allow]
    (λ x, match x with
          | DC_Deny => "deny"
          | DC_Allow => "allow"
          end).

Definition Capability_codec : Codec Capability :=
  enum_codec [CAP_Streaming; CAP_ToolCalling; CAP_StructuredOutput; CAP_SessionResume;
              CAP_Cancellation; CAP_Vision; CAP_Mcp; CAP_Acp]
    (λ x, match x with
          | CAP_Streaming => "streaming"
          | CAP_ToolCalling => "tool-calling"
          | CAP_StructuredOutput => "structured-output"
          | CAP_SessionResume => "session-resume"
          | CAP_Cancellation => "cancellation"
          | CAP_Vision => "vision"
          | CAP_Mcp => "mcp"
          | CAP_Acp => "acp"
          end).

Definition EffectClass_codec : Codec EffectClass :=
  enum_codec [CE_IdempotentRead; CE_IdempotentWrite; CE_PaidInference; CE_NonIdempotentWrite;
              CE_Production; CE_Credential]
    (λ x, match x with
          | CE_IdempotentRead => "idempotent-read"
          | CE_IdempotentWrite => "idempotent-write"
          | CE_PaidInference => "paid-inference"
          | CE_NonIdempotentWrite => "non-idempotent-write"
          | CE_Production => "production"
          | CE_Credential => "credential"
          end).

Definition ToolKind_codec : Codec ToolKind :=
  enum_codec [TK_Builtin; TK_Mcp]
    (λ x, match x with
          | TK_Builtin => "builtin"
          | TK_Mcp => "mcp"
          end).

Definition ApprovalMode_codec : Codec ApprovalMode :=
  enum_codec [AM_Never; AM_Policy; AM_Always]
    (λ x, match x with
          | AM_Never => "never"
          | AM_Policy => "policy"
          | AM_Always => "always"
          end).

Definition McpTransport_codec : Codec McpTransport :=
  enum_codec [MT_Stdio; MT_Http]
    (λ x, match x with
          | MT_Stdio => "stdio"
          | MT_Http => "http"
          end).

Definition NativeWriteMode_codec : Codec NativeWriteMode :=
  enum_codec [NW_Disabled; NW_ApprovalRequired]
    (λ x, match x with
          | NW_Disabled => "disabled"
          | NW_ApprovalRequired => "approval-required"
          end).

Definition DefaultToolMode_codec : Codec DefaultToolMode :=
  enum_codec [DM_ReadOnly; DM_ApprovalRequired; DM_Denied]
    (λ x, match x with
          | DM_ReadOnly => "read-only"
          | DM_ApprovalRequired => "approval-required"
          | DM_Denied => "denied"
          end).

Definition ProductionMutations_codec : Codec ProductionMutations :=
  enum_codec [PMU_ApprovalRequired]
    (λ x, match x with
          | PMU_ApprovalRequired => "approval-required"
          end).

Definition Encryption_codec : Codec Encryption :=
  enum_codec [ENC_Required]
    (λ x, match x with
          | ENC_Required => "required"
          end).

Definition ExportFormat_codec : Codec ExportFormat :=
  enum_codec [XFMT_AgeV1]
    (λ x, match x with
          | XFMT_AgeV1 => "age/v1"
          end).

Definition Privacy_codec : Codec Privacy :=
  struct_codec
    (required "zero_data_retention" bool_codec
    (required "data_collection" DataCollection_codec no_fields))
    (λ r, (pv_zero_data_retention r, (pv_data_collection r, tt)))
    (λ '(x0, (x1, _)),
       {| pv_zero_data_retention := x0; pv_data_collection := x1 |}).

Definition Provider_codec : Codec Provider :=
  struct_codec
    (required "type" ProviderType_codec
    (optional false "driver" ProviderDriver_codec
    (optional false "executable" string_codec
    (optional false "credential_ref" string_codec
    (optional false "privacy" Privacy_codec
    (optional false "base_url" string_codec no_fields))))))
    (λ r, (pr_kind r, (pr_driver r, (pr_executable r, (pr_credential_ref r, (pr_privacy r,
          (pr_base_url r, tt)))))))
    (λ '(x0, (x1, (x2, (x3, (x4, (x5, _)))))),
       {| pr_kind := x0; pr_driver := x1; pr_executable := x2; pr_credential_ref := x3;
          pr_privacy := x4; pr_base_url := x5 |}).

Definition Model_codec : Codec Model :=
  struct_codec
    (required "provider" string_codec
    (required "runtime_model" string_codec no_fields))
    (λ r, (md_provider r, (md_runtime_model r, tt)))
    (λ '(x0, (x1, _)),
       {| md_provider := x0; md_runtime_model := x1 |}).

Definition Role_codec : Codec Role :=
  struct_codec
    (required "model" string_codec
    (defaulted "tools" [] (vec_codec string_codec)
    (defaulted "data_sources" [] (vec_codec string_codec)
    (defaulted "required_capabilities" [] (vec_codec Capability_codec)
    (defaulted "fallback_models" [] (vec_codec string_codec) no_fields)))))
    (λ r, (ro_model r, (ro_tools r, (ro_data_sources r, (ro_required_capabilities r,
          (ro_fallback_models r, tt))))))
    (λ '(x0, (x1, (x2, (x3, (x4, _))))),
       {| ro_model := x0; ro_tools := x1; ro_data_sources := x2;
          ro_required_capabilities := x3; ro_fallback_models := x4 |}).

Definition Operation_codec : Codec Operation :=
  struct_codec
    (required "name" string_codec
    (required "effect_class" EffectClass_codec
    (required "idempotent" bool_codec
    (required "material_cost" bool_codec
    (required "approval" ApprovalMode_codec no_fields)))))
    (λ r, (op_name r, (op_effect_class r, (op_idempotent r, (op_material_cost r,
          (op_approval r, tt))))))
    (λ '(x0, (x1, (x2, (x3, (x4, _))))),
       {| op_name := x0; op_effect_class := x1; op_idempotent := x2; op_material_cost := x3;
          op_approval := x4 |}).

Definition Tool_codec : Codec Tool :=
  struct_codec
    (required "kind" ToolKind_codec
    (optional false "mcp_server" string_codec
    (required "operations" (vec_codec Operation_codec) no_fields)))
    (λ r, (tl_kind r, (tl_mcp_server r, (tl_operations r, tt))))
    (λ '(x0, (x1, (x2, _))),
       {| tl_kind := x0; tl_mcp_server := x1; tl_operations := x2 |}).

Definition DataSource_codec : Codec DataSource :=
  struct_codec
    (required "tool" string_codec
    (required "operation" string_codec no_fields))
    (λ r, (ds_tool r, (ds_operation r, tt)))
    (λ '(x0, (x1, _)),
       {| ds_tool := x0; ds_operation := x1 |}).

Definition McpServer_codec : Codec McpServer :=
  struct_codec
    (required "transport" McpTransport_codec
    (required "version" string_codec
    (required "sha256" string_codec
    (optional false "executable" string_codec
    (skipped "args" [] is_nil (vec_codec string_codec)
    (skipped "env" [] is_nil (map_codec string_codec)
    (optional false "url" string_codec
    (skipped "headers" [] is_nil (map_codec string_codec)
    (optional false "max_response_bytes" (uint_codec u64_max) no_fields)))))))))
    (λ r, (ms_transport r, (ms_version r, (ms_sha256 r, (ms_executable r, (ms_args r,
          (ms_env r, (ms_url r, (ms_headers r, (ms_max_response_bytes r, tt))))))))))
    (λ '(x0, (x1, (x2, (x3, (x4, (x5, (x6, (x7, (x8, _))))))))),
       {| ms_transport := x0; ms_version := x1; ms_sha256 := x2; ms_executable := x3;
          ms_args := x4; ms_env := x5; ms_url := x6; ms_headers := x7;
          ms_max_response_bytes := x8 |}).

Definition WorkflowStep_codec : Codec WorkflowStep :=
  struct_codec
    (required "id" string_codec
    (required "role" string_codec
    (optional false "on_findings" string_codec
    (optional false "max_iterations" (uint_codec u32_max)
    (skipped "tools" [] is_nil (vec_codec string_codec)
    (skipped "fallbacks" [] is_nil (vec_codec string_codec) no_fields))))))
    (λ r, (ws_id r, (ws_role r, (ws_on_findings r, (ws_max_iterations r, (ws_tools r,
          (ws_fallbacks r, tt)))))))
    (λ '(x0, (x1, (x2, (x3, (x4, (x5, _)))))),
       {| ws_id := x0; ws_role := x1; ws_on_findings := x2; ws_max_iterations := x3;
          ws_tools := x4; ws_fallbacks := x5 |}).

Definition Workflow_codec : Codec Workflow :=
  struct_codec
    (required "steps" (vec_codec WorkflowStep_codec) no_fields)
    (λ r, (wf_steps r, tt))
    (λ '(x0, _),
       {| wf_steps := x0 |}).

Definition Routing_codec : Codec Routing :=
  struct_codec
    (required "default_role" string_codec
    (required "confidence_threshold" f64_codec no_fields))
    (λ r, (rt_default_role r, (rt_confidence_threshold r, tt)))
    (λ '(x0, (x1, _)),
       {| rt_default_role := x0; rt_confidence_threshold := x1 |}).

Definition ProviderNativeWritePolicy_codec : Codec ProviderNativeWritePolicy :=
  struct_codec
    (defaulted "mode" NW_Disabled NativeWriteMode_codec
    (skipped "allowlist" [] is_nil (vec_codec string_codec) no_fields))
    (λ r, (nw_mode r, (nw_allowlist r, tt)))
    (λ '(x0, (x1, _)),
       {| nw_mode := x0; nw_allowlist := x1 |}).

Definition CostPolicy_codec : Codec CostPolicy :=
  struct_codec
    (required "max_session_usd_micros" (uint_codec u64_max)
    (optional true "max_attempt_usd_micros" (uint_codec u64_max) no_fields))
    (λ r, (cp_max_session_usd_micros r, (cp_max_attempt_usd_micros r, tt)))
    (λ '(x0, (x1, _)),
       {| cp_max_session_usd_micros := x0; cp_max_attempt_usd_micros := x1 |}).

Definition Policies_codec : Codec Policies :=
  struct_codec
    (required "default_tool_mode" DefaultToolMode_codec
    (required "global_deny" (vec_codec string_codec)
    (required "production_mutations" ProductionMutations_codec
    (optional true "cost" CostPolicy_codec
    (skipped "provider_native_writes" NativeWritePolicy_default is_default ProviderNativeWritePolicy_codec no_fields)))))
    (λ r, (po_default_tool_mode r, (po_global_deny r, (po_production_mutations r, (po_cost r,
          (po_provider_native_writes r, tt))))))
    (λ '(x0, (x1, (x2, (x3, (x4, _))))),
       {| po_default_tool_mode := x0; po_global_deny := x1; po_production_mutations := x2;
          po_cost := x3; po_provider_native_writes := x4 |}).

Definition Storage_codec : Codec Storage :=
  struct_codec
    (required "encryption" Encryption_codec
    (nullable "retention_days" (uint_codec u32_max)
    (required "export_format" ExportFormat_codec no_fields)))
    (λ r, (st_encryption r, (st_retention_days r, (st_export_format r, tt))))
    (λ '(x0, (x1, (x2, _))),
       {| st_encryption := x0; st_retention_days := x1; st_export_format := x2 |}).

Definition ProtocolLimits_codec : Codec ProtocolLimits :=
  struct_codec
    (required "max_frame_bytes" (uint_codec u64_max)
    (required "max_client_queue_events" (uint_codec u64_max)
    (required "max_client_queue_bytes" (uint_codec u64_max)
    (required "cancellation_deadline_ms" (uint_codec u64_max) no_fields))))
    (λ r, (pl_max_frame_bytes r, (pl_max_client_queue_events r, (pl_max_client_queue_bytes r,
          (pl_cancellation_deadline_ms r, tt)))))
    (λ '(x0, (x1, (x2, (x3, _)))),
       {| pl_max_frame_bytes := x0; pl_max_client_queue_events := x1;
          pl_max_client_queue_bytes := x2; pl_cancellation_deadline_ms := x3 |}).

Definition WorkbenchConfiguration_codec : Codec WorkbenchConfiguration :=
  struct_codec
    (required "version" (uint_codec u32_max)
    (required "providers" (map_codec Provider_codec)
    (required "models" (map_codec Model_codec)
    (required "roles" (map_codec Role_codec)
    (required "tools" (map_codec Tool_codec)
    (required "data_sources" (map_codec DataSource_codec)
    (required "mcp_servers" (map_codec McpServer_codec)
    (required "workflows" (map_codec Workflow_codec)
    (required "routing" Routing_codec
    (required "policies" Policies_codec
    (required "storage" Storage_codec
    (required "protocol" ProtocolLimits_codec no_fields))))))))))))
    (λ r, (cf_version r, (cf_providers r, (cf_models r, (cf_roles r, (cf_tools r,
          (cf_data_sources r, (cf_mcp_servers r, (cf_workflows r, (cf_routing r,
          (cf_policies r, (cf_storage r, (cf_protocol r, tt)))))))))))))
    (λ '(x0, (x1, (x2, (x3, (x4, (x5, (x6, (x7, (x8, (x9, (x10, (x11, _)))))))))))),
       {| cf_version := x0; cf_providers := x1; cf_models := x2; cf_roles := x3;
          cf_tools := x4; cf_data_sources := x5; cf_mcp_servers := x6; cf_workflows := x7;
          cf_routing := x8; cf_policies := x9; cf_storage := x10; cf_protocol := x11 |}).

(** ** The built-in configuration *)

(** [WorkbenchConfiguration::safe_builtins] *)
Definition safe_builtins : WorkbenchConfiguration :=
  {| cf_version := 1;
     cf_providers :=
       [("fake", {| pr_kind := PT_Fake; pr_driver := None; pr_executable := None;
                    pr_credential_ref := None; pr_privacy := None; pr_base_url := None |})];
     cf_models :=
       [("fake-default", {| md_provider := "fake"; md_runtime_model := "deterministic-v1" |})];
     cf_roles :=
       [("workspace-coordinator",
         {| ro_model := "fake-default"; ro_tools := []; ro_data_sources := [];
            ro_required_capabilities := []; ro_fallback_models := [] |})];
     cf_tools := []; cf_data_sources := []; cf_mcp_servers := []; cf_workflows := [];
     cf_routing := {| rt_default_role := "workspace-coordinator";
                      rt_confidence_threshold := f64_085 |};
     cf_policies :=
       {| po_default_tool_mode := DM_ReadOnly; po_global_deny := [];
          po_production_mutations := PMU_ApprovalRequired; po_cost := None;
          po_provider_native_writes := NativeWritePolicy_default |};
     cf_storage := {| st_encryption := ENC_Required; st_retention_days := None;
                      st_export_format := XFMT_AgeV1 |};
     cf_protocol := {| pl_max_frame_bytes := 8388608; pl_max_client_queue_events := 1024;
                       pl_max_client_queue_bytes := 8388608;
                       pl_cancellation_deadline_ms := 5000 |} |}%N.

(** ** Laws *)

#[export] Instance is_nil_skips {A} : SkipsDefault (@is_nil A) [].
Proof. by intros []. Qed.

#[export] Instance is_default_skips : SkipsDefault is_default NativeWritePolicy_default.
Proof. intros p. apply bool_decide_eq_true_1. Qed.

#[export] Instance ProviderType_laws : CodecLaws ProviderType_codec (λ _, True).
Proof. derive_enum. Qed.

#[export] Instance ProviderDriver_laws : CodecLaws ProviderDriver_codec (λ _, True).
Proof. derive_enum. Qed.

#[export] Instance DataCollection_laws : CodecLaws DataCollection_codec (λ _, True).
Proof. derive_enum. Qed.

#[export] Instance Capability_laws : CodecLaws Capability_codec (λ _, True).
Proof. derive_enum. Qed.

#[export] Instance EffectClass_laws : CodecLaws EffectClass_codec (λ _, True).
Proof. derive_enum. Qed.

#[export] Instance ToolKind_laws : CodecLaws ToolKind_codec (λ _, True).
Proof. derive_enum. Qed.

#[export] Instance ApprovalMode_laws : CodecLaws ApprovalMode_codec (λ _, True).
Proof. derive_enum. Qed.

#[export] Instance McpTransport_laws : CodecLaws McpTransport_codec (λ _, True).
Proof. derive_enum. Qed.

#[export] Instance NativeWriteMode_laws : CodecLaws NativeWriteMode_codec (λ _, True).
Proof. derive_enum. Qed.

#[export] Instance DefaultToolMode_laws : CodecLaws DefaultToolMode_codec (λ _, True).
Proof. derive_enum. Qed.

#[export] Instance ProductionMutations_laws : CodecLaws ProductionMutations_codec (λ _, True).
Proof. derive_enum. Qed.

#[export] Instance Encryption_laws : CodecLaws Encryption_codec (λ _, True).
Proof. derive_enum. Qed.

#[export] Instance ExportFormat_laws : CodecLaws ExportFormat_codec (λ _, True).
Proof. derive_enum. Qed.

#[export] Instance Privacy_codec_laws :
  CodecLaws Privacy_codec (λ _, True).
Proof. derive_struct. naive_solver. Qed.

#[export] Instance Provider_codec_laws :
  CodecLaws Provider_codec (λ _, True).
Proof. derive_struct. naive_solver. Qed.

#[export] Instance Model_codec_laws :
  CodecLaws Model_codec (λ _, True).
Proof. derive_struct. naive_solver. Qed.

#[export] Instance Role_codec_laws :
  CodecLaws Role_codec (λ _, True).
Proof. derive_struct. naive_solver. Qed.

#[export] Instance Operation_codec_laws :
  CodecLaws Operation_codec (λ _, True).
Proof. derive_struct. naive_solver. Qed.

#[export] Instance Tool_codec_laws :
  CodecLaws Tool_codec (λ _, True).
Proof. derive_struct. naive_solver. Qed.

#[export] Instance DataSource_codec_laws :
  CodecLaws DataSource_codec (λ _, True).
Proof. derive_struct. naive_solver. Qed.

#[export] Instance McpServer_codec_laws :
  CodecLaws McpServer_codec (λ s, bt_wf (ms_env s) ∧ bt_wf (ms_headers s) ∧
    ∀ n, ms_max_response_bytes s = Some n → (n ≤ u64_max)%N).
Proof. derive_struct. naive_solver. Qed.

#[export] Instance WorkflowStep_codec_laws :
  CodecLaws WorkflowStep_codec (λ s, ∀ n, ws_max_iterations s = Some n → (n ≤ u32_max)%N).
Proof. derive_struct. naive_solver. Qed.

#[export] Instance Workflow_codec_laws :
  CodecLaws Workflow_codec (λ w, Forall (λ s, ∀ n, ws_max_iterations s = Some n → (n ≤ u32_max)%N) (wf_steps w)).
Proof. derive_struct. naive_solver. Qed.

#[export] Instance Routing_codec_laws :
  CodecLaws Routing_codec (λ r, is_finite (rt_confidence_threshold r) = true).
Proof. derive_struct. naive_solver. Qed.

#[export] Instance ProviderNativeWritePolicy_codec_laws :
  CodecLaws ProviderNativeWritePolicy_codec (λ _, True).
Proof. derive_struct. naive_solver. Qed.

#[export] Instance CostPolicy_codec_laws :
  CodecLaws CostPolicy_codec (λ c, (cp_max_session_usd_micros c ≤ u64_max)%N ∧
    ∀ n, cp_max_attempt_usd_micros c = Some n → (n ≤ u64_max)%N).
Proof. derive_struct. naive_solver. Qed.

#[export] Instance Storage_codec_laws :
  CodecLaws Storage_codec (λ s, ∀ n, st_retention_days s = Some n → (n ≤ u32_max)%N).
Proof. derive_struct. naive_solver. Qed.

#[export] Instance ProtocolLimits_codec_laws :
  CodecLaws ProtocolLimits_codec (λ p, (pl_max_frame_bytes p ≤ u64_max ∧ pl_max_client_queue_events p ≤ u64_max ∧
    pl_max_client_queue_bytes p ≤ u64_max ∧ pl_cancellation_deadline_ms p ≤ u64_max)%N).
Proof. derive_struct. naive_solver. Qed.

#[export] Instance Policies_codec_laws :
  CodecLaws Policies_codec (λ p, ∀ c, po_cost p = Some c →
    (cp_max_session_usd_micros c ≤ u64_max)%N ∧
    ∀ n, cp_max_attempt_usd_micros c = Some n → (n ≤ u64_max)%N).
Proof. derive_struct. tauto. Qed.

(** A configuration whose maps are in key order and whose numbers fit. *)
Record config_in_range (c : WorkbenchConfiguration) : Prop := {
  cr_version : (cf_version c ≤ u32_max)%N;
  cr_maps : bt_wf (cf_providers c) ∧ bt_wf (cf_models c) ∧ bt_wf (cf_roles c) ∧
    bt_wf (cf_tools c) ∧ bt_wf (cf_data_sources c) ∧ bt_wf (cf_mcp_servers c) ∧
    bt_wf (cf_workflows c);
  cr_servers : Forall (λ e, bt_wf (ms_env e.2) ∧ bt_wf (ms_headers e.2) ∧
    ∀ n, ms_max_response_bytes e.2 = Some n → (n ≤ u64_max)%N) (cf_mcp_servers c);
  cr_workflows : Forall (λ e, Forall (λ s, ∀ n, ws_max_iterations s = Some n → (n ≤ u32_max)%N)
    (wf_steps e.2)) (cf_workflows c);
  cr_routing : is_finite (rt_confidence_threshold (cf_routing c)) = true;
  cr_cost : ∀ p, po_cost (cf_policies c) = Some p →
    (cp_max_session_usd_micros p ≤ u64_max)%N ∧
    ∀ n, cp_max_attempt_usd_micros p = Some n → (n ≤ u64_max)%N;
  cr_storage : ∀ n, st_retention_days (cf_storage c) = Some n → (n ≤ u32_max)%N;
  cr_protocol : (pl_max_frame_bytes (cf_protocol c) ≤ u64_max ∧
    pl_max_client_queue_events (cf_protocol c) ≤ u64_max ∧
    pl_max_client_queue_bytes (cf_protocol c) ≤ u64_max ∧
    pl_cancellation_deadline_ms (cf_protocol c) ≤ u64_max)%N;
}.

#[export] Instance WorkbenchConfiguration_codec_laws :
  CodecLaws WorkbenchConfiguration_codec config_in_range.
Proof.
  derive_struct. split.
  - intros (? & [? _] & [? _] & [? _] & [? _] & [? _] & [? ?] & [? ?] & ? & ? & ? & ? & _).
    by constructor.
  - intros [? (? & ? & ? & ? & ? & ? & ?) ? ? ? ? ? (? & ? & ? & ?)].
    split_and!; first [assumption | done | by apply Forall_true].
Qed.

Lemma safe_builtins_in_range : config_in_range safe_builtins.
Proof. split; simpl; try done; repeat split; try (by repeat constructor); done. Qed.
