(* ===== verification/ConfigValidate.v ===== *)
(** * ConfigValidate: configuration validation (workbench-config/src/validate.rs)

    [validate] is one pass over the configuration that stops at the first error;
    here each of its loops is a definition of its own, and [validate] runs them in
    the order of the source. The theorem says what a configuration that passes
    guarantees to the rest of the program. *)

From S2P Require Import Prelude Text BTree Value Json Wire ProtoCommand ConfigModel.

Inductive ConfigError : Type :=
| CErr_Syntax (message : string)
| CErr_Invalid (path message : string)
| CErr_UnsafeSource (message : string)
| CErr_Io (message : string)
| CErr_Lock (message : string)
| CErr_CapabilityUnavailable (role : string).

#[export] Instance ConfigError_eq_dec : EqDecision ConfigError.
Proof. solve_decision. Defined.

(** [if c { return invalid(path, message) }] *)
Definition invalid_if (c : bool) (path message : string) : Result unit ConfigError :=
  reject_if c (CErr_Invalid path message).

Definition is_none_or_empty (o : option string) : bool :=
  match o with Some s => is_empty s | None => true end.

(** ** Scalar checks *)

Definition validate_identifier (value path : string) : Result unit ConfigError :=
  invalid_if
    (negb (match chars value with
           | first :: rest => char_is_ascii_lowercase first && forallb identifier_char rest
           | [] => false
           end && (len value <=? 63)%N))
    path "must match ^[a-z][a-z0-9-]{0,62}$".

Definition validate_digest (value path : string) : Result unit ConfigError :=
  invalid_if
    (negb ((len value =? 64)%N
           && all_bytes (λ b, is_ascii_digit b || is_lower_hex_letter b) value))
    path "must be a lowercase 64-character hexadecimal digest".

Definition handle_byte (b : ascii) : bool :=
  is_ascii_alphanumeric b || is_byte DOT b || is_byte UNDERSCORE b || is_byte SLASH b
  || is_byte DASH b.

Definition validate_secret_handle (reference path : string) : Result unit ConfigError :=
  let accepted_prefix :=
    existsb (λ prefix, starts_with prefix reference)
      ["platform:"; "keychain:"; "secret-service:"] in
  let suffix := match split_once COLON reference with Some (_, v) => v | None => EmptyString end in
  invalid_if (negb (accepted_prefix && negb (is_empty suffix) && all_bytes handle_byte suffix))
    path "must be an opaque platform credential reference".

Definition validate_credential_reference (reference provider : string) : Result unit ConfigError :=
  validate_secret_handle reference ("providers." +:+ provider +:+ ".credential_ref").

Definition validate_api_base_url (base_url provider : string) : Result unit ConfigError :=
  let path := "providers." +:+ provider +:+ ".base_url" in
  let? _ := invalid_if (is_empty base_url || (2048 <? len base_url)%N)
    path "must contain 1 to 2048 bytes" in
  invalid_if
    (negb (starts_with "https://" base_url || starts_with "http://127.0.0.1" base_url
           || starts_with "http://localhost" base_url || starts_with "http://[::1]" base_url
           || String.eqb base_url "fake://openrouter"))
    path "must be https, loopback http, or fake://openrouter".

Definition validate_unique (values : list string) (path : string) : Result unit ConfigError :=
  invalid_if (negb (all_distinct values)) path "values must be unique".

(** ** The loops of [validate] *)

Definition validate_provider (entry : string * Provider) : Result unit ConfigError :=
  let '(name, provider) := entry in
  let path := "providers." +:+ name in
  let? _ := validate_identifier name path in
  let? _ :=
    if decide (pr_kind provider = PT_Api) then
      let? _ := invalid_if
        (match pr_credential_ref provider, pr_privacy provider with
         | Some _, Some _ => false
         | _, _ => true
         end) path "API providers require credential_ref and privacy" in
      match pr_base_url provider with
      | Some base_url => validate_api_base_url base_url name
      | None => Ok tt
      end
    else Ok tt in
  let? _ := invalid_if
    (bool_decide (pr_kind provider = PT_Acp) && is_none_or_empty (pr_executable provider))
    (path +:+ ".executable") "ACP providers require an explicit executable" in
  let? _ :=
    if decide (pr_kind provider = PT_SubscriptionCli) then
      let? _ := invalid_if
        (match pr_driver provider with Some (PD_ClaudeCode | PD_Codex) => false | None => true end)
        (path +:+ ".driver") "subscription CLI providers require a supported driver" in
      invalid_if (is_none_or_empty (pr_executable provider))
        (path +:+ ".executable") "subscription CLI providers require an explicit executable"
    else
      invalid_if (bool_decide (is_Some (pr_driver provider)))
        (path +:+ ".driver") "driver is only valid for subscription CLI providers" in
  let? _ := invalid_if
    (bool_decide (pr_kind provider ≠ PT_Api) && bool_decide (is_Some (pr_base_url provider)))
    (path +:+ ".base_url") "base_url is only valid for API providers" in
  match pr_credential_ref provider with
  | Some reference => validate_credential_reference reference name
  | None => Ok tt
  end.

Definition has_api_provider (config : WorkbenchConfiguration) : bool :=
  existsb (λ e, bool_decide (pr_kind (snd e) = PT_Api)) (cf_providers config).

Definition validate_cost (config : WorkbenchConfiguration) : Result unit ConfigError :=
  if has_api_provider config then
    match po_cost (cf_policies config) with
    | None => Err (CErr_Invalid "policies.cost"
                     "API providers require policies.cost with a positive session budget")
    | Some cost =>
        let? _ := invalid_if (cp_max_session_usd_micros cost =? 0)%N
          "policies.cost.max_session_usd_micros" "must be greater than zero" in
        invalid_if (bool_decide (cp_max_attempt_usd_micros cost = Some 0%N))
          "policies.cost.max_attempt_usd_micros" "must be greater than zero when set"
    end
  else Ok tt.

Definition validate_model (config : WorkbenchConfiguration) (entry : string * Model)
    : Result unit ConfigError :=
  let '(name, model) := entry in
  let path := "models." +:+ name in
  let? _ := validate_identifier name path in
  let? _ := invalid_if (negb (bt_contains_key (md_provider model) (cf_providers config)))
    (path +:+ ".provider") "references an unknown provider" in
  invalid_if (is_empty (md_runtime_model model) || (255 <? len (md_runtime_model model))%N)
    (path +:+ ".runtime_model") "must contain 1 to 255 bytes".

Definition validate_mcp_server (entry : string * McpServer) : Result unit ConfigError :=
  let '(name, server) := entry in
  let path := "mcp_servers." +:+ name in
  let? _ := validate_identifier name path in
  let? _ := validate_digest (ms_sha256 server) (path +:+ ".sha256") in
  let? _ := invalid_if (is_empty (ms_version server)) (path +:+ ".version") "must not be empty" in
  match ms_transport server with
  | MT_Stdio =>
      let? _ := invalid_if (is_none_or_empty (ms_executable server))
        (path +:+ ".executable") "stdio MCP servers require an absolute executable path" in
      let? _ := invalid_if (bool_decide (is_Some (ms_url server)))
        (path +:+ ".url") "stdio MCP servers cannot declare a URL" in
      let? _ := invalid_if (negb (bt_is_empty (ms_headers server)))
        (path +:+ ".headers") "stdio MCP servers cannot declare HTTP headers" in
      try_for_each (λ '(key, handle), validate_secret_handle handle (path +:+ ".env." +:+ key))
        (ms_env server)
  | MT_Http =>
      let? _ := invalid_if (is_none_or_empty (ms_url server))
        (path +:+ ".url") "HTTP MCP servers require an absolute URL" in
      let? _ := invalid_if
        (bool_decide (is_Some (ms_executable server)) || negb (is_nil (ms_args server))
         || negb (bt_is_empty (ms_env server)))
        path "HTTP MCP servers cannot declare stdio launch fields" in
      let? _ := invalid_if
        (match ms_max_response_bytes server with
         | Some limit => negb ((1 <=? limit)%N && (limit <=? 8388608)%N)
         | None => false
         end) (path +:+ ".max_response_bytes") "must be between 1 and 8388608" in
      try_for_each (λ '(key, handle), validate_secret_handle handle (path +:+ ".headers." +:+ key))
        (ms_headers server)
  end.

Definition never_idempotent (e : EffectClass) : bool :=
  match e with
  | CE_PaidInference | CE_NonIdempotentWrite | CE_Production | CE_Credential => true
  | CE_IdempotentRead | CE_IdempotentWrite => false
  end.

(** The operations of a tool, with the names seen so far. *)
Fixpoint validate_operations (path : string) (seen : list string) (operations : list Operation)
    : Result unit ConfigError :=
  match operations with
  | [] => Ok tt
  | operation :: operations =>
      let? _ := validate_identifier (op_name operation)
        (path +:+ ".operations." +:+ op_name operation) in
      let? _ := invalid_if (set_contains (op_name operation) seen)
        (path +:+ ".operations") "operation names must be unique" in
      let? _ := invalid_if (op_idempotent operation && never_idempotent (op_effect_class operation))
        (path +:+ ".operations." +:+ op_name operation +:+ ".idempotent")
        "effect class cannot be declared idempotent" in
      validate_operations path (op_name operation :: seen) operations
  end.

Definition validate_tool (config : WorkbenchConfiguration) (entry : string * Tool)
    : Result unit ConfigError :=
  let '(name, tool) := entry in
  let path := "tools." +:+ name in
  let? _ := validate_identifier name path in
  let? _ := invalid_if (is_nil (tl_operations tool)) (path +:+ ".operations") "must not be empty" in
  let? _ :=
    match tl_kind tool, tl_mcp_server tool with
    | TK_Mcp, None => Err (CErr_Invalid path "MCP tool requires mcp_server")
    | TK_Mcp, Some server =>
        invalid_if (negb (bt_contains_key server (cf_mcp_servers config)))
          (path +:+ ".mcp_server") "references an unknown MCP server"
    | TK_Builtin, Some _ =>
        Err (CErr_Invalid (path +:+ ".mcp_server") "built-in tool cannot reference an MCP server")
    | TK_Builtin, None => Ok tt
    end in
  validate_operations path [] (tl_operations tool).

Definition validate_data_source (config : WorkbenchConfiguration) (entry : string * DataSource)
    : Result unit ConfigError :=
  let '(name, source) := entry in
  let path := "data_sources." +:+ name in
  let? _ := validate_identifier name path in
  match bt_get (ds_tool source) (cf_tools config) with
  | None => Err (CErr_Invalid (path +:+ ".tool") "references an unknown tool")
  | Some tool =>
      match list_find (λ o, op_name o = ds_operation source) (tl_operations tool) with
      | None => Err (CErr_Invalid (path +:+ ".operation") "references an unknown operation")
      | Some (_, operation) =>
          invalid_if (bool_decide (op_effect_class operation ≠ CE_IdempotentRead)
                      || negb (op_idempotent operation))
            path "data source must resolve to an explicitly idempotent read"
      end
  end.

(** [for value in values { if !map.contains_key(value) { return invalid(..) } }] *)
Definition require_known {V} (m : BTreeMap V) (path message : string) (values : list string)
    : Result unit ConfigError :=
  try_for_each (λ value, invalid_if (negb (bt_contains_key value m)) path message) values.

Definition validate_role (config : WorkbenchConfiguration) (entry : string * Role)
    : Result unit ConfigError :=
  let '(name, role) := entry in
  let path := "roles." +:+ name in
  let? _ := validate_identifier name path in
  let? _ := invalid_if (negb (bt_contains_key (ro_model role) (cf_models config)))
    (path +:+ ".model") "references an unknown model" in
  let? _ := validate_unique (ro_tools role) (path +:+ ".tools") in
  let? _ := validate_unique (ro_data_sources role) (path +:+ ".data_sources") in
  let? _ := validate_unique (ro_fallback_models role) (path +:+ ".fallback_models") in
  let? _ := invalid_if (negb (all_distinct (ro_required_capabilities role)))
    (path +:+ ".required_capabilities") "values must be unique" in
  let? _ := require_known (cf_tools config) (path +:+ ".tools") "references an unknown tool"
    (ro_tools role) in
  let? _ := require_known (cf_data_sources config) (path +:+ ".data_sources")
    "references an unknown data source" (ro_data_sources role) in
  require_known (cf_models config) (path +:+ ".fallback_models") "references an unknown model"
    (ro_fallback_models role).

Definition validate_step (config : WorkbenchConfiguration) (name : string) (ids : list string)
    (step : WorkflowStep) : Result unit ConfigError :=
  let steps := "workflows." +:+ name +:+ ".steps" in
  let path := steps +:+ "." +:+ ws_id step in
  let? _ := validate_identifier (ws_id step) steps in
  let? _ := invalid_if (negb (bt_contains_key (ws_role step) (cf_roles config)))
    (path +:+ ".role") "references an unknown role" in
  let? _ := invalid_if
    (match ws_on_findings step with Some target => negb (set_contains target ids) | None => false end)
    (path +:+ ".on_findings") "references an unknown workflow step" in
  let? _ := invalid_if
    (match ws_max_iterations step with
     | Some max_iterations => (max_iterations =? 0)%N || (8 <? max_iterations)%N
     | None => false
     end) (path +:+ ".max_iterations") "must be between 1 and 8" in
  let? _ := validate_unique (ws_tools step) (path +:+ ".tools") in
  let? _ := require_known (cf_tools config) (path +:+ ".tools") "references an unknown tool"
    (ws_tools step) in
  let? _ := validate_unique (ws_fallbacks step) (path +:+ ".fallbacks") in
  require_known (cf_models config) (path +:+ ".fallbacks") "references an unknown model alias"
    (ws_fallbacks step).

Definition validate_workflow (config : WorkbenchConfiguration) (entry : string * Workflow)
    : Result unit ConfigError :=
  let '(name, workflow) := entry in
  let path := "workflows." +:+ name in
  let? _ := validate_identifier name path in
  let? _ := invalid_if (is_nil (wf_steps workflow)) (path +:+ ".steps") "must not be empty" in
  let ids := ws_id <$> wf_steps workflow in
  let? _ := invalid_if (negb (all_distinct ids)) (path +:+ ".steps")
    "step identifiers must be unique" in
  try_for_each (validate_step config name ids) (wf_steps workflow).

(** [validate] *)
Definition validate (config : WorkbenchConfiguration) : Result unit ConfigError :=
  let? _ := invalid_if (negb (cf_version config =? 1)%N)
    "version" "only schema version 1 is supported" in
  let? _ := invalid_if
    (bt_is_empty (cf_providers config) || bt_is_empty (cf_models config)
     || bt_is_empty (cf_roles config))
    "configuration" "providers, models, and roles must not be empty" in
  let? _ := invalid_if (negb (in_unit_interval (rt_confidence_threshold (cf_routing config))))
    "routing.confidence_threshold" "must be between 0 and 1" in
  let? _ := invalid_if (bool_decide (st_retention_days (cf_storage config) = Some 0%N))
    "storage.retention_days" "must be at least 1 when configured" in
  let limits := cf_protocol config in
  let? _ := invalid_if
    (negb (pl_max_frame_bytes limits =? 8388608)%N
     || negb (pl_max_client_queue_events limits =? 1024)%N
     || negb (pl_max_client_queue_bytes limits =? 8388608)%N
     || negb (pl_cancellation_deadline_ms limits =? 5000)%N)
    "protocol" "feature 001 protocol limits are fixed" in
  let? _ := try_for_each validate_provider (cf_providers config) in
  let? _ := validate_cost config in
  let? _ := try_for_each (validate_model config) (cf_models config) in
  let? _ := try_for_each validate_mcp_server (cf_mcp_servers config) in
  let? _ := try_for_each (validate_tool config) (cf_tools config) in
  let? _ := try_for_each (validate_data_source config) (cf_data_sources config) in
  let? _ := try_for_each (validate_role config) (cf_roles config) in
  let? _ := invalid_if
    (negb (bt_contains_key (rt_default_role (cf_routing config)) (cf_roles config)))
    "routing.default_role" "references an unknown role" in
  let? _ := require_known (cf_tools config) "policies.global_deny" "references an unknown tool"
    (po_global_deny (cf_policies config)) in
  try_for_each (validate_workflow config) (cf_workflows config).

(** ** Lemmas *)

Lemma invalid_if_Ok c path message : invalid_if c path message = Ok tt ↔ c = false.
Proof. apply reject_if_Ok. Qed.

Definition known {V} (m : BTreeMap V) (k : string) : Prop := is_Some (bt_get k m).

Lemma known_contains {V} (m : BTreeMap V) k :
  negb (bt_contains_key k m) = false ↔ known m k.
Proof.
  unfold known, bt_contains_key. destruct (bt_get k m); simpl; [naive_solver|].
  split; [done|]. by intros [? ?].
Qed.

Lemma require_known_Ok {V} (m : BTreeMap V) path message values :
  require_known m path message values = Ok tt ↔ Forall (known m) values.
Proof.
  unfold require_known. rewrite try_for_each_Ok.
  split; intros H; (eapply Forall_impl; [exact H|]); intros x Hx; simpl in *.
  - by apply invalid_if_Ok, known_contains in Hx.
  - by apply invalid_if_Ok, known_contains.
Qed.

Lemma validate_unique_Ok values path : validate_unique values path = Ok tt ↔ NoDup values.
Proof. unfold validate_unique. by rewrite invalid_if_Ok, negb_false_iff, all_distinct_NoDup. Qed.

(** Reads every successful guard of a chain of checks. *)
Ltac read_checks :=
  repeat match goal with
    | H : match ?r with Ok _ => _ | Err _ => Err _ end = Ok _ |- _ =>
        let E := fresh "Hc" in destruct r as [[]|] eqn:E; [|discriminate H]
    | H : invalid_if _ _ _ = Ok _ |- _ => apply invalid_if_Ok in H
    | H : require_known _ _ _ _ = Ok _ |- _ => apply require_known_Ok in H
    | H : validate_unique _ _ = Ok _ |- _ => apply validate_unique_Ok in H
    | H : negb (bt_contains_key _ _) = false |- _ => apply known_contains in H
    | H : try_for_each _ _ = Ok _ |- _ => apply try_for_each_Ok in H
    end; bool_to_prop.

(** An operation that may be declared idempotent if it is. *)
Definition operation_ok (o : Operation) : Prop :=
  op_idempotent o = true → never_idempotent (op_effect_class o) = false.

Lemma validate_operations_Ok path seen operations :
  validate_operations path seen operations = Ok tt →
  NoDup (op_name <$> operations) ∧ Forall operation_ok operations ∧
  Forall (λ o, op_name o ∉ seen) operations.
Proof.
  revert seen. induction operations as [|o os IH]; intros seen; simpl.
  { intros _. split_and!; constructor. }
  intros H. read_checks. destruct (IH _ H) as (Hnd & Hok & Hseen). split_and!.
  - constructor; [|done]. intros Hin. apply list_elem_of_fmap in Hin as (o' & Heq & Ho').
    rewrite Forall_forall in Hseen. apply (Hseen o' Ho'). rewrite Heq. left.
  - constructor; [|done]. intros Hi.
    match goal with H : _ ∨ _ |- _ => destruct H end; congruence.
  - constructor.
    + intros Hin%set_contains_true. congruence.
    + eapply Forall_impl; [exact Hseen|]. intros x Hx. set_solver.
Qed.

(** ** What validation guarantees *)

Definition role_ok (c : WorkbenchConfiguration) (r : Role) : Prop :=
  Forall (known (cf_models c)) (ro_model r :: ro_fallback_models r) ∧
  Forall (known (cf_tools c)) (ro_tools r) ∧
  Forall (known (cf_data_sources c)) (ro_data_sources r) ∧
  NoDup (ro_fallback_models r).

Definition tool_ok (c : WorkbenchConfiguration) (t : Tool) : Prop :=
  tl_operations t ≠ [] ∧ NoDup (op_name <$> tl_operations t) ∧
  Forall operation_ok (tl_operations t) ∧
  match tl_kind t with
  | TK_Mcp => ∃ server, tl_mcp_server t = Some server ∧ known (cf_mcp_servers c) server
  | TK_Builtin => tl_mcp_server t = None
  end.

Definition source_ok (c : WorkbenchConfiguration) (s : DataSource) : Prop :=
  ∃ tool o, bt_get (ds_tool s) (cf_tools c) = Some tool ∧ o ∈ tl_operations tool ∧
    op_name o = ds_operation s ∧ op_effect_class o = CE_IdempotentRead ∧
    op_idempotent o = true.

Definition step_ok (c : WorkbenchConfiguration) (ids : list string) (s : WorkflowStep) : Prop :=
  known (cf_roles c) (ws_role s) ∧
  (∀ target, ws_on_findings s = Some target → target ∈ ids) ∧
  (∀ n, ws_max_iterations s = Some n → (1 ≤ n ≤ 8)%N) ∧
  Forall (known (cf_tools c)) (ws_tools s) ∧ Forall (known (cf_models c)) (ws_fallbacks s).

Definition workflow_ok (c : WorkbenchConfiguration) (w : Workflow) : Prop :=
  wf_steps w ≠ [] ∧ NoDup (ws_id <$> wf_steps w) ∧
  Forall (step_ok c (ws_id <$> wf_steps w)) (wf_steps w).

Record integrity (c : WorkbenchConfiguration) : Prop := {
  in_models : ∀ k m, bt_get k (cf_models c) = Some m → known (cf_providers c) (md_provider m);
  in_roles : ∀ k r, bt_get k (cf_roles c) = Some r → role_ok c r;
  in_tools : ∀ k t, bt_get k (cf_tools c) = Some t → tool_ok c t;
  in_sources : ∀ k s, bt_get k (cf_data_sources c) = Some s → source_ok c s;
  in_workflows : ∀ k w, bt_get k (cf_workflows c) = Some w → workflow_ok c w;
  in_default_role : known (cf_roles c) (rt_default_role (cf_routing c));
  in_global_deny : Forall (known (cf_tools c)) (po_global_deny (cf_policies c));
  in_budget : ∀ k p, bt_get k (cf_providers c) = Some p → pr_kind p = PT_Api →
    is_Some (pr_credential_ref p) ∧ is_Some (pr_privacy p) ∧
    ∃ cost, po_cost (cf_policies c) = Some cost ∧ (0 < cp_max_session_usd_micros cost)%N;
  in_threshold : in_unit_interval (rt_confidence_threshold (cf_routing c)) = true;
}.

(** A loop over a map checks each entry the map holds. *)
Lemma Forall_bt_get {V} (P : string * V → Prop) (m : BTreeMap V) k v :
  Forall P m → bt_get k m = Some v → P (k, v).
Proof. intros Hm Hk%bt_get_In. rewrite Forall_forall in Hm. by apply Hm. Qed.

Lemma validate_model_ok c k m : validate_model c (k, m) = Ok tt → known (cf_providers c) (md_provider m).
Proof. unfold validate_model. intros H. by read_checks. Qed.

Lemma validate_role_ok c k r : validate_role c (k, r) = Ok tt → role_ok c r.
Proof. unfold validate_role. intros H. read_checks. split_and!; [by constructor|done..]. Qed.

Lemma validate_tool_ok c k t : validate_tool c (k, t) = Ok tt → tool_ok c t.
Proof.
  unfold validate_tool. intros H. read_checks.
  apply validate_operations_Ok in H as (? & ? & _). split_and!; [|done..|].
  - intros He. by rewrite He in *.
  - destruct (tl_kind t), (tl_mcp_server t) as [server|]; try done. read_checks. by exists server.
Qed.

Lemma validate_data_source_ok c k s : validate_data_source c (k, s) = Ok tt → source_ok c s.
Proof.
  unfold validate_data_source. intros H. read_checks.
  destruct (bt_get (ds_tool s) (cf_tools c)) as [tool|] eqn:Ht; [|done].
  destruct (list_find _ _) as [[i o]|] eqn:Ho; [|done].
  apply list_find_Some in Ho as (Hi & Hn & _). read_checks.
  exists tool, o. split_and!; try done.
  - by eapply list_elem_of_lookup_2.
  - by apply dec_stable.
Qed.

Lemma validate_step_ok c name ids s : validate_step c name ids s = Ok tt → step_ok c ids s.
Proof.
  unfold validate_step. intros H. read_checks. split_and!; try done.
  - intros target Ht. rewrite Ht in *. bool_to_prop. by apply set_contains_true.
  - intros n Hn. rewrite Hn in *. bool_to_prop. lia.
Qed.

Lemma validate_workflow_ok c k w : validate_workflow c (k, w) = Ok tt → workflow_ok c w.
Proof.
  unfold validate_workflow. intros H. read_checks. split_and!.
  - intros He. by rewrite He in *.
  - by apply all_distinct_NoDup.
  - eapply Forall_impl; [exact H|]. intros s. apply validate_step_ok.
Qed.

Lemma validate_budget_ok c k p :
  bt_get k (cf_providers c) = Some p → pr_kind p = PT_Api →
  validate_provider (k, p) = Ok tt → validate_cost c = Ok tt →
  is_Some (pr_credential_ref p) ∧ is_Some (pr_privacy p) ∧
  ∃ cost, po_cost (cf_policies c) = Some cost ∧ (0 < cp_max_session_usd_micros cost)%N.
Proof.
  intros Hk Hapi Hp Hcost. unfold validate_cost in Hcost.
  assert (has_api_provider c = true) as Hhas.
  { apply existsb_exists. exists (k, p). split; [apply list_elem_of_In; by apply bt_get_In|].
    by apply bool_decide_eq_true. }
  rewrite Hhas in Hcost. destruct (po_cost (cf_policies c)) as [cost|]; [|done]. read_checks.
  unfold validate_provider in Hp. rewrite decide_True in Hp by done. read_checks.
  destruct (pr_credential_ref p), (pr_privacy p); try done.
  split_and!; [done..|]. exists cost. split; [done|lia].
Qed.

Lemma validated c : validate c = Ok tt → integrity c.
Proof.
  unfold validate. intros H. read_checks.
  split; try done; intros k v Hk; try (intros Hapi);
    repeat match goal with
      | Hf : Forall _ ?m, Hk : bt_get _ ?m = Some _ |- _ =>
          pose proof (Forall_bt_get _ _ _ _ Hf Hk); clear Hf
      end; simpl in *.
  - by eapply validate_model_ok.
  - by eapply validate_role_ok.
  - by eapply validate_tool_ok.
  - by eapply validate_data_source_ok.
  - by eapply validate_workflow_ok.
  - by eapply validate_budget_ok.
Qed.

(** ** Properties *)



(** The base-URL check compares a prefix of the text and not the host, so it lets
    a clear-text URL of another host through. *)
Example base_url_foreign_host :
  validate_api_base_url "http://127.0.0.1.other.example/v1" "openrouter" = Ok tt.
Proof. reflexivity. Qed.
