(* ===== verification/ConfigMerge.v ===== *)
(** * ConfigMerge: layered configuration (workbench-config/src/merge.rs)

    Layers are merged in order of precedence: objects key by key, anything else
    replaced, except that the global deny list only grows and the default tool
    mode only becomes more restrictive. YAML parsing is serde_yaml's, so a layer is
    built from the value it yields. *)

From stdpp Require Import pretty.
From Stdlib Require Import SpecFloat.
From S2P Require Import Prelude Text BTree Json Wire ConfigModel ConfigValidate.

(** ** Equality of JSON values *)

(** Floats compare as [f64]: zeros are equal whatever their sign. *)
Definition number_eqb (a b : Number) : bool :=
  match a, b with
  | PosInt m, PosInt n => (m =? n)%N
  | NegInt y, NegInt z => (y =? z)%Z
  | Float f, Float g => SFeqb f g
  | _, _ => false
  end.

Fixpoint value_eqb (a b : Value) : bool :=
  match a, b with
  | VNull, VNull => true
  | VBool x, VBool y => Bool.eqb x y
  | VNumber m, VNumber n => number_eqb m n
  | VString s, VString t => String.eqb s t
  | VArray vs, VArray ws =>
      (fix go (vs ws : list Value) : bool :=
         match vs, ws with
         | [], [] => true
         | v :: vs, w :: ws => value_eqb v w && go vs ws
         | _, _ => false
         end) vs ws
  | VObject es, VObject fs =>
      (fix go (es fs : list (string * Value)) : bool :=
         match es, fs with
         | [], [] => true
         | (k, v) :: es, (l, w) :: fs => String.eqb k l && value_eqb v w && go es fs
         | _, _ => false
         end) es fs
  | _, _ => false
  end.

(** ** Merging *)

Definition policy_rank (mode : string) : N :=
  if String.eqb mode "read-only" then 0
  else if String.eqb mode "approval-required" then 1
  else if String.eqb mode "denied" then 2
  else 255.

Definition GLOBAL_DENY : string := "policies.global_deny".
Definition DEFAULT_TOOL_MODE : string := "policies.default_tool_mode".

Definition child_path (path key : string) : string :=
  if is_empty path then key else path +:+ "." +:+ key.

(** [for value in overlay { if !base.contains(value) { base.push(value) } }] *)
Definition extend_unique (base overlay : list Value) : list Value :=
  foldl (λ base value, if existsb (λ b, value_eqb b value) base then base else base ++ [value])
    base overlay.

(** [merge_value], returning the new base. *)
Fixpoint merge_value (overlay : Value) (path : string) (base : Value) : Value :=
  match base, overlay with
  | VObject base, VObject overlay =>
      VObject
        ((fix merge_entries (entries : list (string * Value)) (base : BTreeMap Value)
            : BTreeMap Value :=
            match entries with
            | [] => base
            | (key, value) :: entries =>
                merge_entries entries
                  match bt_get key base with
                  | Some existing =>
                      bt_insert key (merge_value value (child_path path key) existing) base
                  | None => bt_insert key value base
                  end
            end) overlay base)
  | VArray base, VArray overlay' =>
      if String.eqb path GLOBAL_DENY then VArray (extend_unique base overlay') else overlay
  | VString base, VString overlay' =>
      if String.eqb path DEFAULT_TOOL_MODE
      then VString (if (policy_rank base <? policy_rank overlay')%N then overlay' else base)
      else overlay
  | _, _ => overlay
  end.

(** ** Layers *)

Definition TOP_LEVEL_KEYS : list string :=
  ["version"; "providers"; "models"; "roles"; "tools"; "data_sources"; "mcp_servers";
   "workflows"; "routing"; "policies"; "storage"; "protocol"].

Record ConfigLayer : Type := {
  cl_name : string;
  cl_value : Value;
}.

(** [reject_nulls], with decimal indexes in the paths of arrays. *)
Fixpoint reject_nulls (path : string) (value : Value) : Result unit ConfigError :=
  match value with
  | VNull =>
      if ends_with ".storage.retention_days" path then Ok tt
      else Err (CErr_Invalid path "explicit null is not allowed here")
  | VObject entries =>
      (fix go (entries : list (string * Value)) : Result unit ConfigError :=
         match entries with
         | [] => Ok tt
         | (key, value) :: entries =>
             let? _ := reject_nulls (path +:+ "." +:+ key) value in go entries
         end) entries
  | VArray values =>
      (fix go (index : N) (values : list Value) : Result unit ConfigError :=
         match values with
         | [] => Ok tt
         | value :: values =>
             let? _ := reject_nulls (path +:+ "." +:+ pretty index) value in
             go (index + 1)%N values
         end) 0%N values
  | _ => Ok tt
  end.

(** [version.as_u64() != Some(1)] *)
Definition is_version_1 (v : Value) : bool :=
  match v with VNumber (PosInt n) => (n =? 1)%N | _ => false end.

Definition validate_layer_value (name : string) (value : Value) : Result unit ConfigError :=
  match value with
  | VObject object =>
      let? _ := try_for_each (λ key,
        invalid_if (negb (set_contains key TOP_LEVEL_KEYS)) (name +:+ "." +:+ key)
          "unknown top-level field") (bt_keys object) in
      let? _ := reject_nulls name value in
      invalid_if (match bt_get "version" object with
                  | Some version => negb (is_version_1 version)
                  | None => false
                  end) (name +:+ ".version") "only schema version 1 is supported"
  | _ => Err (CErr_Invalid name "configuration layer must be a mapping")
  end.

(** [ConfigLayer::from_yaml], after parsing. *)
Definition layer_from_value (name : string) (value : Value) : Result ConfigLayer ConfigError :=
  let? _ := validate_layer_value name value in
  Ok {| cl_name := name; cl_value := value |}.

(** [ConfigLayer::from_configuration] *)
Definition from_configuration (name : string) (config : WorkbenchConfiguration) : ConfigLayer :=
  {| cl_name := name; cl_value := canonical (enc WorkbenchConfiguration_codec config) |}.

Record ResolvedConfiguration : Type := {
  rc_configuration : WorkbenchConfiguration;
  rc_sources : list string;
}.

Definition merge_layers (layers : list ConfigLayer) : Value :=
  foldl (λ merged layer, merge_value (cl_value layer) EmptyString merged) (VObject []) layers.

(** [resolve] *)
Definition resolve (layers : list ConfigLayer) : Result ResolvedConfiguration ConfigError :=
  let? _ := invalid_if (is_nil layers) "layers" "at least the built-in layer is required" in
  let? configuration := map_err (λ _, CErr_Syntax "configuration does not match the schema")
    (dec WorkbenchConfiguration_codec (merge_layers layers)) in
  let? _ := validate configuration in
  Ok {| rc_configuration := configuration; rc_sources := cl_name <$> layers |}.

(** [resolve_with_builtins] *)
Definition resolve_with_builtins (higher_precedence : list ConfigLayer)
    : Result ResolvedConfiguration ConfigError :=
  resolve (from_configuration "builtins" safe_builtins :: higher_precedence).

(** ** Lemmas *)

(** The loop over the entries of an overlay. *)
Definition merge_entry (path : string) (base : BTreeMap Value) (entry : string * Value)
    : BTreeMap Value :=
  match bt_get entry.1 base with
  | Some existing =>
      bt_insert entry.1 (merge_value entry.2 (child_path path entry.1) existing) base
  | None => bt_insert entry.1 entry.2 base
  end.

Lemma merge_value_object path base overlay :
  merge_value (VObject overlay) path (VObject base) =
  VObject (foldl (merge_entry path) base overlay).
Proof.
  simpl. f_equal. revert base. induction overlay as [|[k v] es IH]; intros base; simpl; [done|].
  rewrite IH. done.
Qed.

(** What a key holds after the merge. *)
Lemma merge_get path base overlay k :
  NoDup (overlay.*1) →
  bt_get k (foldl (merge_entry path) base overlay) =
  match bt_get k overlay with
  | Some v => Some match bt_get k base with
                   | Some existing => merge_value v (child_path path k) existing
                   | None => v
                   end
  | None => bt_get k base
  end.
Proof.
  revert base. induction overlay as [|[k' v'] es IH]; intros base; simpl; [done|].
  intros [Hnin Hnd]%NoDup_cons. rewrite IH by done.
  assert (Hentry : ∀ j, bt_get j (merge_entry path base (k', v')) =
    if decide (j = k') then
      Some match bt_get k' base with
           | Some existing => merge_value v' (child_path path k') existing
           | None => v'
           end
    else bt_get j base).
  { intros j. unfold merge_entry. simpl.
    destruct (bt_get k' base) eqn:Hb; rewrite bt_get_insert; by repeat case_decide. }
  rewrite Hentry. destruct (decide (k = k')) as [->|]; [|done].
  by rewrite (proj2 (bt_get_None k' es)).
Qed.

Lemma value_eqb_string s v : value_eqb v (VString s) = true → v = VString s.
Proof. destruct v; simpl; try done. intros H%String.eqb_eq. by subst. Qed.

Lemma extend_unique_elem base overlay s :
  VString s ∈ base ∨ VString s ∈ overlay → VString s ∈ extend_unique base overlay.
Proof.
  unfold extend_unique. revert base.
  induction overlay as [|v vs IH]; intros base [Hb|Ho]; simpl; try done.
  - by apply elem_of_nil in Ho.
  - apply IH. left. case_match; set_solver.
  - apply IH. apply elem_of_cons in Ho as [<-|Ho]; [left|by right].
    destruct (existsb _ base) eqn:He; [|set_solver].
    apply existsb_exists in He as (w & Hw & Heq). apply value_eqb_string in Heq as ->.
    by apply list_elem_of_In.
Qed.

(** *** The policies of a layer *)

(** The entries of [policies] in a layer. *)
Definition policies_of (v : Value) : BTreeMap Value :=
  match as_object v with
  | Some o => match bt_get "policies" o with Some (VObject p) => p | _ => [] end
  | None => []
  end.

(** A layer whose policies, and the two fields with merge rules, have the types of
    the schema where they are present. *)
Definition policies_typed (v : Value) : Prop :=
  ∃ o, v = VObject o ∧
    match bt_get "policies" o with
    | None => True
    | Some (VObject p) =>
        (∀ d, bt_get "global_deny" p = Some d → ∃ ds, d = VArray ds) ∧
        (∀ d, bt_get "default_tool_mode" p = Some d → ∃ m, d = VString m)
    | Some _ => False
    end.

(** A layer denies a tool. *)
Definition denies (v : Value) (tool : string) : Prop :=
  ∃ ds, bt_get "global_deny" (policies_of v) = Some (VArray ds) ∧ VString tool ∈ ds.

(** A layer asks for a default mode. *)
Definition proposes (v : Value) (mode : string) : Prop :=
  bt_get "default_tool_mode" (policies_of v) = Some (VString mode).

Lemma value_wf_object es :
  value_wf (VObject es) = true → NoDup (es.*1) ∧ ∀ k v, bt_get k es = Some v → value_wf v = true.
Proof.
  simpl. rewrite andb_true_iff, keys_sorted_iff, forallb_Forall. intros [Hs Hv].
  split; [by apply bt_wf_NoDup|]. intros k v Hk%bt_get_In. rewrite Forall_forall in Hv.
  by apply (Hv (k, v)).
Qed.

(** What the merge of two layers holds under [policies]. *)
Lemma merge_policies base overlay :
  value_wf overlay = true → policies_typed base → policies_typed overlay →
  ∃ o, merge_value overlay EmptyString base = VObject o ∧
    ∀ key, bt_get key (policies_of (VObject o)) =
      match bt_get key (policies_of overlay) with
      | Some v => Some match bt_get key (policies_of base) with
                       | Some existing => merge_value v (child_path "policies" key) existing
                       | None => v
                       end
      | None => bt_get key (policies_of base)
      end ∧
    match bt_get "policies" o with None | Some (VObject _) => True | _ => False end.
Proof.
  intros Hwf (b & -> & Hb) (l & -> & Hl). apply value_wf_object in Hwf as [Hnd Hwf].
  exists (foldl (merge_entry EmptyString) b l). rewrite merge_value_object. split; [done|].
  intros key. unfold policies_of. cbn [as_object]. rewrite merge_get by done.
  destruct (bt_get "policies" l) as [[| | | | |p]|] eqn:Hp; try done.
  - apply Hwf in Hp as [Hndp _]%value_wf_object.
    destruct (bt_get "policies" b) as [[| | | | |q]|] eqn:Hq; try done.
    + rewrite merge_value_object. split; [|done]. by rewrite merge_get.
    + split; [|done]. by destruct (bt_get key p).
  - split; [done|]. by destruct (bt_get "policies" b) as [[]|].
Qed.

(** The types of the two fields with merge rules. *)
Lemma typed_fields v d :
  policies_typed v →
  (bt_get "global_deny" (policies_of v) = Some d → ∃ ds, d = VArray ds) ∧
  (bt_get "default_tool_mode" (policies_of v) = Some d → ∃ m, d = VString m).
Proof.
  intros (o & -> & Ho). unfold policies_of. simpl.
  destruct (bt_get "policies" o) as [[| | | | |p]|]; try done. destruct Ho. eauto.
Qed.

Lemma merge_typed base overlay :
  value_wf overlay = true → policies_typed base → policies_typed overlay →
  policies_typed (merge_value overlay EmptyString base).
Proof.
  intros Hwf Hb Hl. destruct (merge_policies base overlay Hwf Hb Hl) as (o & -> & Ho).
  exists o. split; [done|].
  assert (Hfield : ∀ key d (T : Value → Prop),
    (∀ v w, T v → T w → T (merge_value v (child_path "policies" key) w)) →
    (∀ d, bt_get key (policies_of base) = Some d → T d) →
    (∀ d, bt_get key (policies_of overlay) = Some d → T d) →
    bt_get key (policies_of (VObject o)) = Some d → T d).
  { intros key d T HT HTb HTl Hd. rewrite (proj1 (Ho key)) in Hd.
    destruct (bt_get key (policies_of overlay)) eqn:E1; [|by apply HTb].
    destruct (bt_get key (policies_of base)) eqn:E2; simplify_eq; auto. }
  pose proof (proj2 (Ho EmptyString)) as Hp.
  destruct (bt_get "policies" o) as [[| | | | |p]|] eqn:Ep; try done.
  assert (policies_of (VObject o) = p) as Hpo by (unfold policies_of; simpl; by rewrite Ep).
  rewrite <-Hpo. split; intros d Hd.
  - eapply (Hfield "global_deny" d (λ d, ∃ ds, d = VArray ds));
      [|exact (λ d', proj1 (typed_fields base d' Hb))
       |exact (λ d', proj1 (typed_fields overlay d' Hl))|done].
    intros v w [ds ->] [es ->]. simpl. by eexists.
  - eapply (Hfield "default_tool_mode" d (λ d, ∃ m, d = VString m));
      [|exact (λ d', proj2 (typed_fields base d' Hb))
       |exact (λ d', proj2 (typed_fields overlay d' Hl))|done].
    intros v w [ds ->] [es ->]. simpl. by eexists.
Qed.

Lemma merge_denies base overlay tool :
  value_wf overlay = true → policies_typed base → policies_typed overlay →
  denies base tool ∨ denies overlay tool →
  denies (merge_value overlay EmptyString base) tool.
Proof.
  intros Hwf Hb Hl Hd. destruct (merge_policies base overlay Hwf Hb Hl) as (o & -> & Ho).
  destruct (Ho "global_deny") as [Hkey _]. unfold denies. rewrite Hkey.
  destruct (bt_get "global_deny" (policies_of overlay)) as [v|] eqn:Hv.
  - destruct (proj1 (typed_fields _ _ Hl) Hv) as [vs ->].
    destruct (bt_get "global_deny" (policies_of base)) as [w|] eqn:Hw.
    + destruct (proj1 (typed_fields _ _ Hb) Hw) as [ws ->]. simpl. eexists. split; [done|].
      apply extend_unique_elem. unfold denies in Hd. rewrite Hv, Hw in Hd. naive_solver.
    + eexists. split; [done|]. unfold denies in Hd. rewrite Hv, Hw in Hd. naive_solver.
  - unfold denies in Hd. rewrite Hv in Hd. naive_solver.
Qed.

Lemma merge_proposes base overlay mode :
  value_wf overlay = true → policies_typed base → policies_typed overlay →
  proposes base mode ∨ proposes overlay mode →
  ∃ mode', proposes (merge_value overlay EmptyString base) mode' ∧
    (policy_rank mode ≤ policy_rank mode')%N.
Proof.
  intros Hwf Hb Hl Hd. destruct (merge_policies base overlay Hwf Hb Hl) as (o & -> & Ho).
  destruct (Ho "default_tool_mode") as [Hkey _]. unfold proposes. rewrite Hkey.
  destruct (bt_get "default_tool_mode" (policies_of overlay)) as [v|] eqn:Hv.
  - destruct (proj2 (typed_fields _ _ Hl) Hv) as [vs ->].
    destruct (bt_get "default_tool_mode" (policies_of base)) as [w|] eqn:Hw.
    + destruct (proj2 (typed_fields _ _ Hb) Hw) as [ws ->]. simpl. eexists. split; [done|].
      unfold proposes in Hd. rewrite Hv, Hw in Hd.
      destruct (_ <? _)%N eqn:Hr; bool_to_prop; destruct Hd; simplify_eq; lia.
    + eexists. split; [done|]. unfold proposes in Hd. rewrite Hv, Hw in Hd.
      destruct Hd; simplify_eq. lia.
  - unfold proposes in Hd. rewrite Hv in Hd. destruct Hd as [Hd|]; [|done].
    rewrite Hd. eexists. split; [done|]. lia.
Qed.

(** A layer of the schema's types, in key order. *)
Definition layer_ok (l : ConfigLayer) : Prop :=
  value_wf (cl_value l) = true ∧ policies_typed (cl_value l).

(** What any layer denies or proposes survives the merge. *)
Lemma merge_layers_keep layers :
  Forall layer_ok layers →
  policies_typed (merge_layers layers) ∧
  ∀ l, l ∈ layers →
    (∀ tool, denies (cl_value l) tool → denies (merge_layers layers) tool) ∧
    (∀ mode, proposes (cl_value l) mode →
       ∃ mode', proposes (merge_layers layers) mode' ∧ (policy_rank mode ≤ policy_rank mode')%N).
Proof.
  unfold merge_layers. induction layers as [|x layers IH] using rev_ind; intros Hok.
  { split; [by exists []|]. intros l Hl. by apply elem_of_nil in Hl. }
  apply Forall_app in Hok as [Hok [[Hwf Ht] _]%Forall_cons]. destruct (IH Hok) as [Htyped Hkeep].
  rewrite foldl_app. simpl. split; [by apply merge_typed|].
  intros l [Hl|Hl%list_elem_of_singleton]%elem_of_app.
  - destruct (Hkeep l Hl) as [Hden Hprop]. split.
    + intros tool Htool. apply merge_denies; auto.
    + intros mode (m & Hm & Hle)%Hprop.
      destruct (merge_proposes _ (cl_value x) m Hwf Htyped Ht (or_introl Hm)) as (m' & ? & ?).
      exists m'. split; [done|lia].
  - subst l. split.
    + intros tool Htool. apply merge_denies; auto.
    + intros mode Hm. apply merge_proposes; auto.
Qed.

Definition mode_name (m : DefaultToolMode) : string :=
  match m with
  | DM_ReadOnly => "read-only"
  | DM_ApprovalRequired => "approval-required"
  | DM_Denied => "denied"
  end.

Lemma enum_dec_string {A} (variants : list A) name s a :
  dec (enum_codec variants name) (VString s) = Ok a → name a = s.
Proof.
  simpl. destruct (list_find _ _) as [[i b]|] eqn:Hf; [|done]. simpl. intros [= <-].
  by apply list_find_Some in Hf as (_ & ? & _).
Qed.

(** The policies read from an object. *)
Lemma decoded_policies v p :
  dec Policies_codec (VObject v) = Ok p →
  (∀ ds tool, bt_get "global_deny" v = Some (VArray ds) → VString tool ∈ ds →
     tool ∈ po_global_deny p) ∧
  (∀ m, bt_get "default_tool_mode" v = Some (VString m) → mode_name (po_default_tool_mode p) = m).
Proof.
  intros ((m & d & pm & cost & nw & []) & Hf & ->)%struct_object_inv.
  apply required_inv in Hf as [(vm & Hm & Hdm) Hf].
  apply required_inv in Hf as [(vd & Hd & Hdd) _]. simpl. split.
  - intros ds tool Hds Hin. rewrite Hds in Hd. simplify_eq. apply try_collect_Ok in Hdd.
    apply list_elem_of_lookup in Hin as [i Hi].
    destruct (Forall2_lookup_l _ _ _ _ _ Hdd Hi) as (t & Ht & Htool). simplify_eq/=.
    by eapply list_elem_of_lookup_2.
  - intros s Hs. rewrite Hs in Hm. simplify_eq. by apply enum_dec_string in Hdm.
Qed.

(** The policies of a decoded configuration are those under its [policies] key. *)
Lemma decoded_configuration o c :
  dec WorkbenchConfiguration_codec (VObject o) = Ok c →
  ∃ v, bt_get "policies" o = Some v ∧ dec Policies_codec v = Ok (cf_policies c).
Proof.
  intros ((a & b & d & e & f & g & h & i & j & k & l & m & []) & Hf & ->)%struct_object_inv.
  do 9 apply required_inv in Hf as [_ Hf]. apply required_inv in Hf as [Hp _]. exact Hp.
Qed.

(** ** Properties *)

(** C33: Restrictions only accumulate: whatever layers a configuration is resolved from
    (of the schema's types, in key order), every tool that some layer denies is
    denied by the result, and its default tool mode is at least as restrictive as
    the one any layer asked for, whatever the order of the layers. *)
Theorem resolve_monotone layers r :
  Forall layer_ok layers → resolve layers = Ok r →
  (∀ l tool, l ∈ layers → denies (cl_value l) tool →
     tool ∈ po_global_deny (cf_policies (rc_configuration r))) ∧
  (∀ l mode, l ∈ layers → proposes (cl_value l) mode →
     (policy_rank mode ≤
      policy_rank (mode_name (po_default_tool_mode (cf_policies (rc_configuration r)))))%N).
Proof.
  intros Hok Hr. unfold resolve in Hr. destruct (invalid_if _ _ _); [|done].
  destruct (dec WorkbenchConfiguration_codec (merge_layers layers)) as [c|] eqn:Hdec; [|done].
  cbn [map_err] in Hr. destruct (validate c); [|done]. injection Hr as <-.
  cbn [rc_configuration].
  destruct (merge_layers_keep layers Hok) as [(o & Ho & Ht) Hkeep].
  rewrite Ho in Hdec. apply decoded_configuration in Hdec as (v & Hv & Hp).
  rewrite Hv in Ht. destruct v as [| | | | |p]; try done.
  apply decoded_policies in Hp as [Hdeny Hmode]. rewrite Ho in Hkeep.
  unfold denies, proposes, policies_of in Hkeep. simpl in Hkeep. rewrite Hv in Hkeep.
  split.
  - intros l tool Hl Hd. destruct (proj1 (Hkeep l Hl) tool Hd) as (ds & Hds & Hin). eauto.
  - intros l mode Hl Hm. destruct (proj2 (Hkeep l Hl) mode Hm) as (m' & Hm' & Hle).
    by rewrite (Hmode _ Hm').
Qed.

(** *** Examples *)

Definition sample_tool : Value :=
  VObject [("kind", VString "builtin");
           ("operations", VArray [VObject [("approval", VString "policy");
              ("effect_class", VString "idempotent-read"); ("idempotent", VBool true);
              ("material_cost", VBool false); ("name", VString "read")]])].

(** A user layer that declares a tool, denies it and denies tools by default. *)
Definition user_layer : ConfigLayer :=
  {| cl_name := "user";
     cl_value := VObject [("policies", VObject [("default_tool_mode", VString "denied");
                                                ("global_deny", VArray [VString "shell"])]);
                          ("tools", VObject [("shell", sample_tool)])] |}.

(** A repository layer that asks for less. *)
Definition repository_layer : ConfigLayer :=
  {| cl_name := "repository";
     cl_value := VObject [("policies", VObject [("default_tool_mode", VString "read-only");
                                                ("global_deny", VArray [])])] |}.

Definition sample_layers : list ConfigLayer :=
  [from_configuration "builtins" safe_builtins; user_layer; repository_layer].

Definition sample_policies : Policies :=
  {| po_default_tool_mode := DM_Denied; po_global_deny := ["shell"];
     po_production_mutations := PMU_ApprovalRequired; po_cost := None;
     po_provider_native_writes := NativeWritePolicy_default |}.

Definition sample_resolved : ResolvedConfiguration :=
  {| rc_configuration :=
       {| cf_version := cf_version safe_builtins; cf_providers := cf_providers safe_builtins;
          cf_models := cf_models safe_builtins; cf_roles := cf_roles safe_builtins;
          cf_tools := [("shell", {| tl_kind := TK_Builtin; tl_mcp_server := None;
            tl_operations := [{| op_name := "read"; op_effect_class := CE_IdempotentRead;
              op_idempotent := true; op_material_cost := false; op_approval := AM_Policy |}] |})];
          cf_data_sources := []; cf_mcp_servers := []; cf_workflows := [];
          cf_routing := cf_routing safe_builtins; cf_policies := sample_policies;
          cf_storage := cf_storage safe_builtins; cf_protocol := cf_protocol safe_builtins |};
     rc_sources := ["builtins"; "user"; "repository"] |}.

Lemma resolve_monotone_witness :
  "shell" ∈ po_global_deny (cf_policies (rc_configuration sample_resolved)).
Proof.
  apply (proj1 (resolve_monotone sample_layers sample_resolved
    ltac:(repeat constructor; try reflexivity;
          (eexists; split; [reflexivity | vm_compute; split; intros d [= <-]; eexists; reflexivity]))
    ltac:(vm_compute; reflexivity)) user_layer "shell").
  - right. left.
  - eexists. split; [reflexivity | left].
Defined.

(** The hypothesis on types is needed: a layer that sets the deny list to a string
    is accepted by [from_yaml], and a later layer then clears the list. *)
Example deny_list_cleared :
  let confusing := {| cl_name := "repository"; cl_value := VObject
        [("policies", VObject [("global_deny", VString "none")])] |} in
  validate_layer_value "repository" (cl_value confusing) = Ok tt ∧
  ∃ r, resolve [from_configuration "builtins" safe_builtins; user_layer; confusing;
                repository_layer] = Ok r ∧
       po_global_deny (cf_policies (rc_configuration r)) = [].
Proof. split; [reflexivity|]. eexists. split; [vm_compute; reflexivity|reflexivity]. Qed.

(** *** Resolving a configuration by itself *)

Lemma merge_into_empty m :
  bt_wf m → merge_value (VObject m) EmptyString (VObject []) = VObject m.
Proof.
  intros Hm. rewrite merge_value_object. f_equal. apply bt_ext; [|done|].
  - assert (bt_wf ([] : BTreeMap Value)) as H0 by auto with workbench. revert H0.
    generalize ([] : BTreeMap Value). clear Hm. induction m as [|[k v] m IH]; intros b Hb; simpl; [done|].
    apply IH. unfold merge_entry. case_match; auto with workbench.
  - intros k. rewrite merge_get by (by apply bt_wf_NoDup). simpl. by destruct (bt_get k m).
Qed.

(** Resolution is stable: a valid configuration, turned into a layer and resolved
    again, is exactly itself. *)
Theorem resolve_stable name c :
  config_in_range c → validate c = Ok tt →
  resolve [from_configuration name c] =
  Ok {| rc_configuration := c; rc_sources := [name] |}.
Proof.
  intros Hc Hv. unfold resolve. cbn [is_nil invalid_if reject_if].
  assert (merge_layers [from_configuration name c] =
    canonical (enc WorkbenchConfiguration_codec c)) as ->.
  { unfold merge_layers. cbn [foldl from_configuration cl_value].
    apply (merge_into_empty (bt_from_list _)). auto with workbench. }
  rewrite dec_enc by done. cbn [map_err]. by rewrite Hv.
Qed.

Lemma resolve_stable_witness :
  resolve [from_configuration "builtins" safe_builtins] =
  Ok {| rc_configuration := safe_builtins; rc_sources := ["builtins"] |}.
Proof.
  apply (resolve_stable "builtins" safe_builtins);
    [exact safe_builtins_in_range | vm_compute; reflexivity].
Defined.
