(* ===== verification/ConfigPreflight.v ===== *)
(** * ConfigPreflight: redacted snapshots and role resolution
      (workbench-config/src/snapshot.rs and preflight.rs)

    Indexing a map with a missing key panics, so [resolve_role] returns [None] for
    that panic. Hashing (blake3) and JSON text are parameters. *)

From S2P Require Import Prelude Text BTree Ports Json Wire ConfigModel ConfigValidate.
From S2P Require Import ConfigMerge.

(** ** Snapshots *)

Definition secret_key (key : string) : bool :=
  set_contains key ["credential_ref"; "executable"; "url"; "env"; "headers"; "args"].

Definition REDACTED : Value := VString "[redacted]".

(** [redact], returning the new value. *)
Fixpoint redact (key : option string) (value : Value) : Value :=
  if match key with Some key => secret_key key | None => false end then REDACTED
  else match value with
  | VObject entries => VObject (List.map (λ e, (fst e, redact (Some (fst e)) (snd e))) entries)
  | VArray values => VArray (List.map (redact None) values)
  | value => value
  end.

Record ConfigurationSnapshot : Type := {
  cs_schema_version : N;
  cs_sources : list string;
  cs_content_hash : string;
  cs_configuration : Value;
}.

(** [ConfigurationSnapshot::create] *)
Definition snapshot_create (canonical_json : Value → string) (blake3 : string → string)
    (config : WorkbenchConfiguration) (sources : list string) : ConfigurationSnapshot :=
  let value := redact None (canonical (enc WorkbenchConfiguration_codec config)) in
  {| cs_schema_version := 1; cs_sources := sources;
     cs_content_hash := blake3 (canonical_json value); cs_configuration := value |}.

(** ** Provider capabilities *)

Record ProviderOperation : Type := {
  po_name : string;
  po_effect_class : EffectClass;
  po_idempotent : bool;
  po_material_cost : bool;
  po_approval : ApprovalMode;
}.

Record PreflightCapabilities : Type := {
  pf_adapter_id : string;
  pf_adapter_version : string;
  pf_protocol : string;
  pf_authentication : AuthenticationStatus;
  pf_capabilities : list Capability;
  pf_context_window_tokens : option N;
  pf_operations : list ProviderOperation;
}.

Fixpoint validate_provider_operations (seen : list string) (operations : list ProviderOperation)
    : Result unit ConfigError :=
  match operations with
  | [] => Ok tt
  | operation :: operations =>
      let? _ := invalid_if (is_empty (po_name operation) || set_contains (po_name operation) seen)
        "provider_capabilities.operations" "operation names must be non-empty and unique" in
      let? _ := invalid_if
        (po_idempotent operation && never_idempotent (po_effect_class operation))
        ("provider_capabilities.operations." +:+ po_name operation)
        "effect class cannot be declared idempotent" in
      validate_provider_operations (po_name operation :: seen) operations
  end.

(** [ProviderCapabilities::validate] *)
Definition capabilities_validate (c : PreflightCapabilities) : Result unit ConfigError :=
  let? _ := invalid_if
    (is_empty (pf_adapter_id c) || is_empty (pf_adapter_version c) || is_empty (pf_protocol c)
     || is_nil (pf_operations c))
    "provider_capabilities" "adapter fields and operations must not be empty" in
  let? _ := invalid_if (negb (all_distinct (pf_capabilities c)))
    "provider_capabilities.capabilities" "capabilities must be unique" in
  validate_provider_operations [] (pf_operations c).

Record ResolvedModel : Type := {
  rm_role : string;
  rm_model_alias : string;
  rm_provider : string;
  rm_runtime_model : string;
  rm_used_fallback : bool;
}.

(** The provider is authenticated and offers what the role requires. *)
Definition usable (role : Role) (c : PreflightCapabilities) : bool :=
  bool_decide (pf_authentication c = AS_Available)
  && forallb (λ cap, bool_decide (cap ∈ pf_capabilities c)) (ro_required_capabilities role).

(** The loop of [resolve_role] over the model and its fallbacks. *)
Fixpoint resolve_aliases (config : WorkbenchConfiguration) (role_name : string) (role : Role)
    (available : BTreeMap PreflightCapabilities) (index : nat) (aliases : list string)
    : option (Result ResolvedModel ConfigError) :=
  match aliases with
  | [] => Some (Err (CErr_CapabilityUnavailable role_name))
  | alias :: aliases =>
      model ← bt_get alias (cf_models config);
      match bt_get (md_provider model) available with
      | None => resolve_aliases config role_name role available (S index) aliases
      | Some capabilities =>
          match capabilities_validate capabilities with
          | Err e => Some (Err e)
          | Ok _ =>
              if usable role capabilities then
                Some (Ok {| rm_role := role_name; rm_model_alias := alias;
                            rm_provider := md_provider model;
                            rm_runtime_model := md_runtime_model model;
                            rm_used_fallback := (0 <? index)%nat |})
              else resolve_aliases config role_name role available (S index) aliases
          end
      end
  end.

(** [resolve_role] *)
Definition resolve_role (config : WorkbenchConfiguration) (role_name : string)
    (available : BTreeMap PreflightCapabilities) : option (Result ResolvedModel ConfigError) :=
  match validate_identifier role_name "role" with
  | Err e => Some (Err e)
  | Ok _ =>
      match bt_get role_name (cf_roles config) with
      | None => Some (Err (CErr_Invalid "role" "unknown role"))
      | Some role =>
          resolve_aliases config role_name role available 0
            (ro_model role :: ro_fallback_models role)
      end
  end.

(** ** Lemmas *)

(** No secret-keyed entry, at any depth, holds anything but the marker. *)
Fixpoint no_secrets (value : Value) : Prop :=
  match value with
  | VObject entries =>
      (fix go (entries : list (string * Value)) : Prop :=
         match entries with
         | [] => True
         | (k, v) :: entries => (secret_key k = true → v = REDACTED) ∧ no_secrets v ∧ go entries
         end) entries
  | VArray values =>
      (fix go (values : list Value) : Prop :=
         match values with [] => True | v :: values => no_secrets v ∧ go values end) values
  | _ => True
  end.

Lemma no_secrets_object entries :
  no_secrets (VObject entries) ↔
  Forall (λ e, (secret_key e.1 = true → e.2 = REDACTED) ∧ no_secrets e.2) entries.
Proof.
  simpl. induction entries as [|[k v] entries IH]; [by split; [constructor|]|].
  rewrite Forall_cons, IH. simpl. tauto.
Qed.

Lemma no_secrets_array values : no_secrets (VArray values) ↔ Forall no_secrets values.
Proof.
  simpl. induction values as [|v values IH]; [by split; [constructor|]|].
  rewrite Forall_cons, IH. done.
Qed.

Definition keyed_secret (key : option string) : bool :=
  match key with Some key => secret_key key | None => false end.

Lemma redact_secret key value : keyed_secret key = true → redact key value = REDACTED.
Proof. unfold keyed_secret. intros H. destruct value; simpl; by rewrite H. Qed.

Lemma redact_public key value :
  keyed_secret key = false →
  redact key value =
  match value with
  | VObject entries => VObject (List.map (λ e, (fst e, redact (Some (fst e)) (snd e))) entries)
  | VArray values => VArray (List.map (redact None) values)
  | value => value
  end.
Proof. unfold keyed_secret. intros H. destruct value; simpl; by rewrite H. Qed.

Lemma redact_no_secrets key value : no_secrets (redact key value).
Proof.
  revert key. induction value as [|b|n|s|vs IH|es IH] using Value_nested_ind; intros key;
    destruct (keyed_secret key) eqn:Hk;
    try (rewrite redact_secret by done; exact I); rewrite redact_public by done; try exact I.
  - apply no_secrets_array, Forall_map. eapply Forall_impl; [exact IH|]. simpl. auto.
  - apply no_secrets_object, Forall_map. eapply Forall_impl; [exact IH|].
    intros [k v] Hv. simpl in *. split; [|auto]. intros Hs. by apply redact_secret.
Qed.

(** Redaction leaves a value without secrets alone. *)
Lemma redact_fixpoint value : no_secrets value → redact None value = value.
Proof.
  assert (H : ∀ key, no_secrets value → (keyed_secret key = true → value = REDACTED) →
    redact key value = value); [|intros; by apply H].
  induction value as [|b|n|s|vs IH|es IH] using Value_nested_ind; intros key Hns Hkey;
    (destruct (keyed_secret key) eqn:Hk; [by rewrite redact_secret, <-Hkey|]);
    rewrite redact_public by done; try done.
  - f_equal. apply map_id_Forall. apply no_secrets_array in Hns.
    eapply Forall_impl; [apply Forall_and; exact (conj IH Hns)|].
    intros v [Hv ?]. by apply Hv.
  - f_equal. apply map_id_Forall. apply no_secrets_object in Hns.
    eapply Forall_impl; [apply Forall_and; exact (conj IH Hns)|].
    intros [k v] (Hv & Hs & ?). simpl in *. f_equal. by apply Hv.
Qed.

(** A role resolves without a panic when its models exist. *)
Lemma resolve_aliases_total config role_name role available index aliases :
  Forall (known (cf_models config)) aliases →
  is_Some (resolve_aliases config role_name role available index aliases).
Proof.
  intros Hk. revert index. induction Hk as [|alias aliases [m Hm] Hk IH]; intros index; simpl; [done|].
  rewrite Hm. simpl. repeat case_match; eauto.
Qed.

(** An alias that resolution passes over. *)
Definition unusable (config : WorkbenchConfiguration) (role : Role)
    (available : BTreeMap PreflightCapabilities) (alias : string) : Prop :=
  ∃ m, bt_get alias (cf_models config) = Some m ∧
    ∀ c, bt_get (md_provider m) available = Some c → usable role c = false.

Lemma resolve_aliases_Ok config role_name role available index aliases r :
  resolve_aliases config role_name role available index aliases = Some (Ok r) →
  ∃ pre post m c,
    aliases = pre ++ rm_model_alias r :: post ∧
    Forall (unusable config role available) pre ∧
    bt_get (rm_model_alias r) (cf_models config) = Some m ∧
    bt_get (md_provider m) available = Some c ∧ usable role c = true ∧
    capabilities_validate c = Ok tt ∧
    r = {| rm_role := role_name; rm_model_alias := rm_model_alias r;
           rm_provider := md_provider m; rm_runtime_model := md_runtime_model m;
           rm_used_fallback := (0 <? index + length pre)%nat |}.
Proof.
  revert index. induction aliases as [|alias aliases IH]; intros index; simpl; [done|].
  destruct (bt_get alias (cf_models config)) as [m|] eqn:Hm; simpl; [|done].
  assert (Hskip : (∀ c, bt_get (md_provider m) available = Some c → usable role c = false) →
    resolve_aliases config role_name role available (S index) aliases = Some (Ok r) →
    ∃ pre post m0 c, alias :: aliases = pre ++ rm_model_alias r :: post ∧
      Forall (unusable config role available) pre ∧
      bt_get (rm_model_alias r) (cf_models config) = Some m0 ∧
      bt_get (md_provider m0) available = Some c ∧ usable role c = true ∧
      capabilities_validate c = Ok tt ∧
      r = {| rm_role := role_name; rm_model_alias := rm_model_alias r;
             rm_provider := md_provider m0; rm_runtime_model := md_runtime_model m0;
             rm_used_fallback := (0 <? index + length pre)%nat |}).
  { intros Hun Hr. destruct (IH _ Hr) as (pre & post & m' & c & -> & Hpre & H1 & H2 & H3 & H4 & H5).
    exists (alias :: pre), post, m', c. split_and!; try done.
    - constructor; [by exists m|done].
    - simpl. by rewrite Nat.add_succ_r. }
  destruct (bt_get (md_provider m) available) as [c|] eqn:Hc; [|by apply Hskip].
  destruct (capabilities_validate c) as [[]|] eqn:Hv; [|done].
  destruct (usable role c) eqn:Hu; [|apply Hskip; intros; by simplify_eq].
  intros [= <-]. exists [], aliases, m, c. split_and!; try done. simpl. by rewrite Nat.add_0_r.
Qed.

(** ** Properties *)

(** A snapshot never holds a secret: under the keys that carry credentials,
    commands and endpoints, at any depth, its configuration has only the marker;
    redaction changes nothing else that is public, and redacting again changes
    nothing. *)
Theorem snapshot_redacted json hash config sources :
  let s := snapshot_create json hash config sources in
  no_secrets (cs_configuration s) ∧
  redact None (cs_configuration s) = cs_configuration s ∧
  (no_secrets (canonical (enc WorkbenchConfiguration_codec config)) →
   cs_configuration s = canonical (enc WorkbenchConfiguration_codec config)) ∧
  cs_content_hash s = hash (json (cs_configuration s)).
Proof.
  unfold snapshot_create. cbn [cs_configuration cs_content_hash]. split_and!; [|..|done].
  - apply redact_no_secrets.
  - apply redact_fixpoint, redact_no_secrets.
  - apply redact_fixpoint.
Qed.

Lemma snapshot_redacted_witness :
  let s := snapshot_create (λ _, "json") (λ _, "hash") safe_builtins ["builtins"] in
  cs_configuration s = canonical (enc WorkbenchConfiguration_codec safe_builtins).
Proof.
  apply (snapshot_redacted (λ _, "json") (λ _, "hash") safe_builtins ["builtins"]).
  vm_compute. repeat split; intros; discriminate.
Defined.

(** Role resolution on a validated configuration never panics, and what it selects
    is the first model of the role, in declared order, whose provider is available,
    valid, authenticated and has every required capability; every earlier one is
    unusable, and the result says whether a fallback was used. *)
Theorem resolve_role_spec config role_name available :
  validate config = Ok tt →
  ∃ result, resolve_role config role_name available = Some result ∧
  ∀ r, result = Ok r →
    ∃ role pre post m c,
      bt_get role_name (cf_roles config) = Some role ∧
      ro_model role :: ro_fallback_models role = pre ++ rm_model_alias r :: post ∧
      Forall (unusable config role available) pre ∧
      bt_get (rm_model_alias r) (cf_models config) = Some m ∧
      bt_get (md_provider m) available = Some c ∧ usable role c = true ∧
      capabilities_validate c = Ok tt ∧
      rm_provider r = md_provider m ∧ rm_runtime_model r = md_runtime_model m ∧
      (rm_used_fallback r = true ↔ pre ≠ []).
Proof.
  intros Hv. pose proof (in_roles _ (validated _ Hv)) as Hroles. unfold resolve_role.
  destruct (validate_identifier role_name "role") as [u|e]; [|by eexists].
  destruct (bt_get role_name (cf_roles config)) as [role|] eqn:Hrole; [|by eexists].
  destruct (Hroles _ _ Hrole) as (Hmodels & _).
  destruct (resolve_aliases_total config role_name role available 0 _ Hmodels) as [result Hr].
  exists result. split; [done|]. intros r ->.
  destruct (resolve_aliases_Ok _ _ _ _ _ _ _ Hr) as (pre & post & m & c & H1 & H2 & H3 & H4 & H5 & H6 & H7).
  destruct r as [rr alias rp rm rf]. simpl in *. simplify_eq.
  exists role, pre, post, m, c. split_and!; try done. by destruct pre.
Qed.

Definition sample_available : BTreeMap PreflightCapabilities :=
  [("fake", {| pf_adapter_id := "fake"; pf_adapter_version := "1"; pf_protocol := "fake/1";
               pf_authentication := AS_Available; pf_capabilities := [CAP_Streaming];
               pf_context_window_tokens := None;
               pf_operations := [{| po_name := "prompt"; po_effect_class := CE_PaidInference;
                                    po_idempotent := false; po_material_cost := true;
                                    po_approval := AM_Never |}] |})].

Lemma resolve_role_spec_witness :
  ∃ result, resolve_role safe_builtins "workspace-coordinator" sample_available = Some result.
Proof.
  destruct (resolve_role_spec safe_builtins "workspace-coordinator" sample_available
    ltac:(vm_compute; reflexivity)) as (result & H & _).
  exists result. exact H.
Defined.
