(* ===== verification/FileSystem.v ===== *)
(** * FileSystem: what the workbench asks of the file system, and the executable
      checks built on it (workbench-config/src/lock.rs and
      workbench-mcp/src/pin.rs)

    [FileSystem] is the observation of the file system one check makes: the
    operating system's answers are parameters, the checks are the program's. Both
    crates carry the same check, with their own label in the messages, so it is
    defined once over the label. Paths are absolute Unix paths. *)

From S2P Require Import Prelude Text BTree ConfigValidate.

Record Metadata : Type := {
  fm_is_symlink : bool;
  fm_is_dir : bool;
  fm_is_file : bool;
  fm_mode : N;
  fm_uid : N;
}.

(** The system calls and the hash function; an error carries its text. *)
Class FileSystem : Type := {
  symlink_metadata : string → Result Metadata string;
  fs_canonicalize : string → Result string string;
  (** [open] with [O_NOFOLLOW] followed by [fstat] *)
  open_metadata : string → Result Metadata string;
  (** the bytes a read loop collects from the opened file *)
  read_to_end : string → Result string string;
  getuid : N;
  (** [hex::encode(Sha256::digest(bytes))] *)
  sha256_hex : string → string;
}.

(** ** Paths *)

Definition is_absolute (path : string) : bool := starts_with "/" path.

(** The components after the root: empty and [.] components disappear. *)
Definition components (path : string) : list string :=
  List.filter (λ c, negb (is_empty c) && negb (bool_decide (c = ".")))
    (split_byte SLASH path).

Definition has_parent_dir (path : string) : bool := set_contains ".." (components path).

(** The successive values of [current] when components are pushed on it. *)
Fixpoint pushes (current : string) (cs : list string) : list string :=
  match cs with
  | [] => []
  | c :: cs =>
      let current := (if bool_decide (current = "/") then "/" +:+ c
                      else current +:+ "/" +:+ c) in
      current :: pushes current cs
  end.

Definition ancestors (path : string) : list string := "/" :: pushes "/" (components path).

(** ** Executable checks *)

Definition group_or_world_writable (m : Metadata) : bool := negb (N.land (fm_mode m) 18 =? 0)%N.
Definition no_execute_bit (m : Metadata) : bool := (N.land (fm_mode m) 73 =? 0)%N.

Section checks.
Context `{FileSystem}.

(** [canonicalize_adapter_executable] and [canonicalize_mcp_executable]. *)
Definition canonicalize_executable (label path : string) : Result string ConfigError :=
  let? _ := reject_if (negb (is_absolute path) || has_parent_dir path)
    (CErr_UnsafeSource
       (label +:+ " must be an absolute path without parent traversal")) in
  let? _ := try_for_each (λ current,
    let? metadata := map_err CErr_UnsafeSource (symlink_metadata current) in
    let? _ := reject_if (fm_is_symlink metadata)
      (CErr_UnsafeSource (label +:+ " " +:+ path +:+ " must not contain symbolic links")) in
    reject_if (fm_is_dir metadata && group_or_world_writable metadata)
      (CErr_UnsafeSource
         (label +:+ " " +:+ path +:+ " must not traverse writable directories")))
    (ancestors path) in
  let? canonical := map_err CErr_UnsafeSource (fs_canonicalize path) in
  let? metadata := map_err CErr_UnsafeSource (open_metadata canonical) in
  let? _ := reject_if
    (negb (fm_is_file metadata) || negb (fm_uid metadata =? getuid)%N
     || group_or_world_writable metadata || no_execute_bit metadata)
    (CErr_UnsafeSource (label +:+ " " +:+ path +:+
       " must be an executable regular file without group or world write access")) in
  Ok canonical.

(** [sha256_file]; hashing chunk by chunk is hashing their concatenation. *)
Definition sha256_file (label path : string) : Result string ConfigError :=
  let? metadata := map_err CErr_Lock (open_metadata path) in
  let? _ := reject_if
    (negb (fm_is_file metadata) || group_or_world_writable metadata || no_execute_bit metadata)
    (CErr_UnsafeSource (label +:+ " " +:+ path +:+ " became unsafe")) in
  let? content := map_err CErr_Lock (read_to_end path) in
  Ok (sha256_hex content).

(** ** What a path that passes the checks is *)

(** No symbolic link and no directory others may write on the way. *)
Definition safe_path (path : string) : Prop :=
  is_absolute path = true ∧ (".." ∉ components path) ∧
  Forall (λ current, ∃ m, symlink_metadata current = Ok m ∧ fm_is_symlink m = false ∧
            (fm_is_dir m = true → N.land (fm_mode m) 18 = 0%N)) (ancestors path).

(** An executable regular file that only its owner, this user, may write, with
    the given digest. *)
Definition safe_executable (path digest : string) : Prop :=
  safe_path path ∧ ∃ canonical m content,
    fs_canonicalize path = Ok canonical ∧ open_metadata canonical = Ok m ∧
    fm_is_file m = true ∧ fm_uid m = getuid ∧ N.land (fm_mode m) 18 = 0%N ∧
    N.land (fm_mode m) 73 ≠ 0%N ∧ read_to_end canonical = Ok content ∧
    sha256_hex content = digest.

Lemma canonicalize_executable_Ok label path canonical digest :
  canonicalize_executable label path = Ok canonical →
  sha256_file label canonical = Ok digest →
  safe_executable path digest.
Proof.
  unfold canonicalize_executable, sha256_file, group_or_world_writable, no_execute_bit.
  intros H1 H2. break_results. simplify_eq. 
  repeat match goal with H : map_err _ _ = Ok _ |- _ => apply map_err_Ok in H end.
  simplify_eq. unfold safe_executable, safe_path, has_parent_dir in *. bool_to_prop.
  split; [split_and!; [done|intros Hin%set_contains_true; congruence|]|].
  - match goal with H : try_for_each _ _ = Ok _ |- _ => apply try_for_each_Ok in H end.
    eapply Forall_impl; [done|]. intros c Hc. simpl in Hc.
    destruct (symlink_metadata c) as [m|] eqn:Hm; [|done]. simpl in Hc.
    break_results. exists m. split_and!; [done..|]. intros Hd. rewrite Hd in *.
    simpl in *. bool_to_prop. done.
  - match goal with
    | Hc : fs_canonicalize path = Ok ?c, Ho : open_metadata ?c = Ok ?m,
      Hr : read_to_end ?c = Ok ?b |- _ => exists c, m, b
    end. split_and!; congruence.
Qed.
End checks.
