(* ===== verification/ConfigLock.v ===== *)
(** * ConfigLock: the reproducibility lock (workbench-config/src/lock.rs)

    A lock pins the resolved configuration, the provider executables, the models
    and the MCP artifacts. The canonical JSON text and blake3 are parameters, the
    file system is the interface of [FileSystem], and every check of one call
    sees the same file system. *)

From S2P Require Import Prelude Text BTree Json Wire ConfigModel ConfigValidate.
From S2P Require Import ConfigPreflight FileSystem.

Definition ACP_PROTOCOL : string := "acp/1".
Definition CLAUDE_CODE_STREAM_PROTOCOL : string := "claude-code-stream-json/1".
Definition CODEX_EXEC_JSONL_PROTOCOL : string := "codex-exec-jsonl/1".

Record AdapterInput : Type := {
  ai_protocol : string;
  ai_version : string;
  ai_executable : string;
  ai_executable_sha256 : string;
}.

Inductive LockScope : Type := LS_Repository | LS_Session.

#[export] Instance LockScope_eq_dec : EqDecision LockScope.
Proof. solve_decision. Defined.

Record LockedConfiguration : Type := {
  lc_schema_version : N;
  lc_hash_algorithm : string;
  lc_resolved_hash : string;
}.

Record LockedProtocol : Type := { lp_major : N; lp_minor : N }.

Record LockedAdapter : Type := {
  la_protocol : string;
  la_version : string;
  la_executable_sha256 : string;
}.

Record LockedModel : Type := { lm_provider : string; lm_runtime_model : string }.

Record LockedMcp : Type := { lk_version : string; lk_sha256 : string }.

Record WorkbenchLock : Type := {
  wl_version : N;
  wl_scope : LockScope;
  wl_base_lock_hash : option string;
  wl_configuration : LockedConfiguration;
  wl_protocol : LockedProtocol;
  wl_adapters : BTreeMap LockedAdapter;
  wl_models : BTreeMap LockedModel;
  wl_mcps : BTreeMap LockedMcp;
}.

(** ** The derived serializers *)

Definition LockScope_codec : Codec LockScope :=
  enum_codec [LS_Repository; LS_Session]
    (λ s, match s with LS_Repository => "repository" | LS_Session => "session" end).

Definition LockedConfiguration_codec : Codec LockedConfiguration :=
  struct_codec
    (required "schema_version" (uint_codec u32_max)
    (required "hash_algorithm" string_codec
    (required "resolved_hash" string_codec no_fields)))
    (λ r, (lc_schema_version r, (lc_hash_algorithm r, (lc_resolved_hash r, tt))))
    (λ '(a, (b, (c, _))),
       {| lc_schema_version := a; lc_hash_algorithm := b; lc_resolved_hash := c |}).

Definition LockedProtocol_codec : Codec LockedProtocol :=
  struct_codec
    (required "major" (uint_codec u32_max)
    (required "minor" (uint_codec u32_max) no_fields))
    (λ r, (lp_major r, (lp_minor r, tt)))
    (λ '(a, (b, _)), {| lp_major := a; lp_minor := b |}).

Definition LockedAdapter_codec : Codec LockedAdapter :=
  struct_codec
    (required "protocol" string_codec
    (required "version" string_codec
    (required "executable_sha256" string_codec no_fields)))
    (λ r, (la_protocol r, (la_version r, (la_executable_sha256 r, tt))))
    (λ '(a, (b, (c, _))),
       {| la_protocol := a; la_version := b; la_executable_sha256 := c |}).

Definition LockedModel_codec : Codec LockedModel :=
  struct_codec
    (required "provider" string_codec
    (required "runtime_model" string_codec no_fields))
    (λ r, (lm_provider r, (lm_runtime_model r, tt)))
    (λ '(a, (b, _)), {| lm_provider := a; lm_runtime_model := b |}).

Definition LockedMcp_codec : Codec LockedMcp :=
  struct_codec
    (required "version" string_codec
    (required "sha256" string_codec no_fields))
    (λ r, (lk_version r, (lk_sha256 r, tt)))
    (λ '(a, (b, _)), {| lk_version := a; lk_sha256 := b |}).

Definition WorkbenchLock_codec : Codec WorkbenchLock :=
  struct_codec
    (required "version" (uint_codec u32_max)
    (required "scope" LockScope_codec
    (optional false "base_lock_hash" string_codec
    (required "configuration" LockedConfiguration_codec
    (required "protocol" LockedProtocol_codec
    (required "adapters" (map_codec LockedAdapter_codec)
    (required "models" (map_codec LockedModel_codec)
    (required "mcps" (map_codec LockedMcp_codec) no_fields))))))))
    (λ r, (wl_version r, (wl_scope r, (wl_base_lock_hash r, (wl_configuration r,
          (wl_protocol r, (wl_adapters r, (wl_models r, (wl_mcps r, tt)))))))))
    (λ '(a, (b, (c, (d, (e, (f, (g, (h, _)))))))),
       {| wl_version := a; wl_scope := b; wl_base_lock_hash := c; wl_configuration := d;
          wl_protocol := e; wl_adapters := f; wl_models := g; wl_mcps := h |}).

(** ** Operations *)

Definition locked_configuration (snapshot : ConfigurationSnapshot) : LockedConfiguration :=
  {| lc_schema_version := 1; lc_hash_algorithm := "blake3-256";
     lc_resolved_hash := cs_content_hash snapshot |}.

Definition lock_models (config : WorkbenchConfiguration) : BTreeMap LockedModel :=
  bt_from_list (List.map (λ '(name, model),
    (name, {| lm_provider := md_provider model; lm_runtime_model := md_runtime_model model |}))
    (cf_models config)).

Definition lock_mcps (config : WorkbenchConfiguration) : BTreeMap LockedMcp :=
  bt_from_list (List.map (λ '(name, mcp),
    (name, {| lk_version := ms_version mcp; lk_sha256 := ms_sha256 mcp |}))
    (cf_mcp_servers config)).

Definition expected_adapter_protocol (provider : Provider) : Result string ConfigError :=
  match pr_kind provider, pr_driver provider with
  | PT_Acp, None => Ok ACP_PROTOCOL
  | PT_SubscriptionCli, Some PD_ClaudeCode => Ok CLAUDE_CODE_STREAM_PROTOCOL
  | PT_SubscriptionCli, Some PD_Codex => Ok CODEX_EXEC_JSONL_PROTOCOL
  | PT_Fake, None => Err (CErr_Lock "fake providers do not have executable adapter protocols")
  | _, _ => Err (CErr_Lock "provider has an unsupported executable adapter identity")
  end.

(** The identity check shared by new and stored pins. *)
Definition bad_identity (protocol version : string) : bool :=
  is_empty protocol || is_empty version || (255 <? len version)%N
  || existsb is_control (chars version).

Definition validate_adapter_identity (name : string) (provider : Provider) (input : AdapterInput)
    : Result unit ConfigError :=
  let? _ := reject_if (bad_identity (ai_protocol input) (ai_version input))
    (CErr_Lock ("adapter " +:+ name +:+ " reported an invalid version")) in
  let? expected := expected_adapter_protocol provider in
  reject_if (negb (bool_decide (ai_protocol input = expected)))
    (CErr_Lock ("adapter " +:+ name +:+ " must use protocol " +:+ expected)).

Definition is_fake (p : Provider) : bool := bool_decide (pr_kind p = PT_Fake).
Definition has_executable (p : Provider) : bool :=
  match pr_executable p with Some _ => true | None => false end.

Definition adapter_label : string := "adapter executable".

Section lock.
Context `{FileSystem}.
Context (canonical_json : Value → string) (blake3_hex : string → string).

Definition canonicalize_adapter_executable (path : string) : Result string ConfigError :=
  canonicalize_executable adapter_label path.

Definition adapter_sha256_file (path : string) : Result string ConfigError :=
  sha256_file adapter_label path.

(** [AdapterInput::acp], [AdapterInput::claude_code] and [AdapterInput::codex]
    differ in the protocol they claim. *)
Definition AdapterInput_capture (protocol executable version : string)
    : Result AdapterInput ConfigError :=
  let? executable := canonicalize_adapter_executable executable in
  let? digest := adapter_sha256_file executable in
  Ok {| ai_protocol := protocol; ai_version := version; ai_executable := executable;
        ai_executable_sha256 := digest |}.

Definition AdapterInput_acp : string → string → Result AdapterInput ConfigError :=
  AdapterInput_capture ACP_PROTOCOL.
Definition AdapterInput_claude_code : string → string → Result AdapterInput ConfigError :=
  AdapterInput_capture CLAUDE_CODE_STREAM_PROTOCOL.
Definition AdapterInput_codex : string → string → Result AdapterInput ConfigError :=
  AdapterInput_capture CODEX_EXEC_JSONL_PROTOCOL.

(** The pin of one adapter input: the closure of [WorkbenchLock::repository]. *)
Definition pin_adapter (config : WorkbenchConfiguration) (entry : string * AdapterInput)
    : Result (string * LockedAdapter) ConfigError :=
  let '(name, input) := entry in
  let? provider := ok_or (bt_get name (cf_providers config))
    (CErr_Lock ("adapter input " +:+ name +:+ " has no matching configured provider")) in
  let? configured := ok_or (pr_executable provider)
    (CErr_Lock ("adapter input " +:+ name +:+ " has no configured executable")) in
  let? configured := canonicalize_adapter_executable configured in
  let? executable := canonicalize_adapter_executable (ai_executable input) in
  let? _ := reject_if (negb (bool_decide (configured = executable)))
    (CErr_Lock ("adapter input " +:+ name +:+ " differs from its configured executable")) in
  let? _ := validate_adapter_identity name provider input in
  let? _ := validate_digest (ai_executable_sha256 input)
    ("adapter_inputs." +:+ name +:+ ".executable_sha256") in
  let? digest := adapter_sha256_file executable in
  let? _ := reject_if (negb (bool_decide (digest = ai_executable_sha256 input)))
    (CErr_Lock ("adapter input " +:+ name +:+ " changed after identity capture")) in
  Ok (name, {| la_protocol := ai_protocol input; la_version := ai_version input;
               la_executable_sha256 := ai_executable_sha256 input |}).

(** The providers a lock has to pin. *)
Definition require_pinned (adapters : BTreeMap LockedAdapter) (entry : string * Provider)
    : Result unit ConfigError :=
  let '(name, provider) := entry in
  let? _ := reject_if (bool_decide (pr_kind provider = PT_Acp) && negb (has_executable provider))
    (CErr_Lock ("ACP provider " +:+ name +:+ " has no configured executable")) in
  let? _ := reject_if
    (bool_decide (pr_kind provider = PT_SubscriptionCli)
     && (match pr_driver provider with Some (PD_ClaudeCode | PD_Codex) => false | None => true end
         || negb (has_executable provider)))
    (CErr_Lock ("subscription CLI provider " +:+ name
                +:+ " has no configured driver or executable")) in
  reject_if (negb (is_fake provider) && has_executable provider
             && negb (bt_contains_key name adapters))
    (CErr_Lock ("provider " +:+ name +:+ " has no pinned adapter executable")).

(** [WorkbenchLock::repository] *)
Definition lock_repository (config : WorkbenchConfiguration) (snapshot : ConfigurationSnapshot)
    (adapter_inputs : BTreeMap AdapterInput) : Result WorkbenchLock ConfigError :=
  let? pinned := try_collect (pin_adapter config) adapter_inputs in
  let adapters := bt_from_list pinned in
  let? _ := try_for_each (require_pinned adapters) (cf_providers config) in
  Ok {| wl_version := 1; wl_scope := LS_Repository; wl_base_lock_hash := None;
        wl_configuration := locked_configuration snapshot;
        wl_protocol := {| lp_major := 1; lp_minor := 0 |};
        wl_adapters := adapters; wl_models := lock_models config;
        wl_mcps := lock_mcps config |}.

(** [WorkbenchLock::hash] *)
Definition lock_hash (self : WorkbenchLock) : string :=
  blake3_hex (canonical_json (enc WorkbenchLock_codec self)).

(** [WorkbenchLock::session] *)
Definition lock_session (base : WorkbenchLock) (config : WorkbenchConfiguration)
    (snapshot : ConfigurationSnapshot) : Result WorkbenchLock ConfigError :=
  let? _ := try_for_each (λ '(name, provider),
    reject_if (negb (is_fake provider) && has_executable provider
               && negb (bt_contains_key name (wl_adapters base)))
      (CErr_Lock ("session override introduced unpinned adapter " +:+ name)))
    (cf_providers config) in
  let? _ := reject_if
    (existsb (λ name, negb (bt_contains_key name (wl_mcps base)))
       (bt_keys (cf_mcp_servers config)))
    (CErr_Lock "session override introduced an MCP absent from the base lock") in
  Ok {| wl_version := 1; wl_scope := LS_Session; wl_base_lock_hash := Some (lock_hash base);
        wl_configuration := locked_configuration snapshot;
        wl_protocol := wl_protocol base; wl_adapters := wl_adapters base;
        wl_models := lock_models config; wl_mcps := lock_mcps config |}.

(** [WorkbenchLock::verify] *)
Definition lock_verify (self : WorkbenchLock) : Result unit ConfigError :=
  let? _ := reject_if (negb (wl_version self =? 1)%N
                       || negb (lc_schema_version (wl_configuration self) =? 1)%N)
    (CErr_Lock "unsupported lock version") in
  let? _ := reject_if
    (negb (bool_decide (lc_hash_algorithm (wl_configuration self) = "blake3-256")))
    (CErr_Lock "unsupported lock hash algorithm") in
  let? _ := reject_if (negb (lp_major (wl_protocol self) =? 1)%N)
    (CErr_Lock "unsupported protocol major") in
  let? _ := validate_digest (lc_resolved_hash (wl_configuration self))
    "lock.configuration.resolved_hash" in
  let? _ := try_for_each (λ '(name, adapter),
    let? _ := reject_if (bad_identity (la_protocol adapter) (la_version adapter))
      (CErr_Lock ("locked adapter " +:+ name +:+ " has an invalid identity")) in
    validate_digest (la_executable_sha256 adapter)
      ("lock.adapters." +:+ name +:+ ".executable_sha256")) (wl_adapters self) in
  let? _ := try_for_each (λ '(name, mcp),
    validate_digest (lk_sha256 mcp) ("lock.mcps." +:+ name +:+ ".sha256")) (wl_mcps self) in
  let? _ := match wl_base_lock_hash self with
            | Some base_hash => validate_digest base_hash "lock.base_lock_hash"
            | None => Ok tt
            end in
  match wl_scope self, wl_base_lock_hash self with
  | LS_Repository, Some _ => Err (CErr_Lock "repository lock cannot have a base hash")
  | LS_Session, None => Err (CErr_Lock "session lock requires a base hash")
  | _, _ => Ok tt
  end.

(** [WorkbenchLock::verify_executables] *)
Definition lock_verify_executables (self : WorkbenchLock)
    (adapter_inputs : BTreeMap AdapterInput) : Result unit ConfigError :=
  let? _ := lock_verify self in
  let? _ := reject_if (negb (length (wl_adapters self) =? length adapter_inputs)%nat)
    (CErr_Lock "adapter inputs do not match the lock") in
  try_for_each (λ '(name, adapter),
    let? input := ok_or (bt_get name adapter_inputs)
      (CErr_Lock ("locked adapter " +:+ name +:+ " has no executable input")) in
    let differs := Err (CErr_Lock ("adapter " +:+ name +:+ " differs from its lock pin")) in
    if negb (bool_decide (la_protocol adapter = ai_protocol input))
       || negb (bool_decide (la_version adapter = ai_version input))
       || negb (bool_decide (la_executable_sha256 adapter = ai_executable_sha256 input))
    then differs
    else
      let? executable := canonicalize_adapter_executable (ai_executable input) in
      let? digest := adapter_sha256_file executable in
      if negb (bool_decide (ai_executable_sha256 input = digest)) then differs else Ok tt)
    (wl_adapters self).

(** [WorkbenchLock::verify_configured_executables] *)
Definition lock_verify_configured_executables (self : WorkbenchLock)
    (config : WorkbenchConfiguration) : Result unit ConfigError :=
  let? _ := lock_verify self in
  try_for_each (λ '(name, provider),
    if is_fake provider then Ok tt
    else match pr_executable provider with
    | None => Ok tt
    | Some executable =>
        let? adapter := ok_or (bt_get name (wl_adapters self))
          (CErr_Lock ("provider " +:+ name +:+ " has no pinned adapter")) in
        let? executable := canonicalize_adapter_executable executable in
        let? expected := expected_adapter_protocol provider in
        let differs := Err (CErr_Lock ("provider " +:+ name +:+ " differs from its lock pin")) in
        if negb (bool_decide (la_protocol adapter = expected)) then differs
        else
          let? digest := adapter_sha256_file executable in
          if negb (bool_decide (la_executable_sha256 adapter = digest)) then differs else Ok tt
    end) (cf_providers config).

(** [WorkbenchLock::verify_linked_to] *)
Definition lock_verify_linked_to (self base : WorkbenchLock) : Result unit ConfigError :=
  let? _ := lock_verify self in
  let? _ := lock_verify base in
  reject_if (negb (bool_decide (wl_scope self = LS_Session))
             || negb (bool_decide (wl_base_lock_hash self = Some (lock_hash base))))
    (CErr_Lock "session lock does not link to the supplied base lock").

(** ** Lemmas *)

Definition digest_valid (value : string) : Prop := ∀ path, validate_digest value path = Ok tt.

Lemma validate_digest_valid value path : validate_digest value path = Ok tt → digest_valid value.
Proof. unfold digest_valid, validate_digest, invalid_if. rewrite reject_if_Ok. intros ->. done. Qed.

Lemma try_for_each_intro {A} (f : A → Result unit ConfigError) l :
  (∀ x, x ∈ l → f x = Ok tt) → try_for_each f l = Ok tt.
Proof. intros Hf. apply try_for_each_Ok, Forall_forall, Hf. Qed.

(** What pinning an adapter input established. *)
Lemma pin_adapter_Ok config name input entry :
  pin_adapter config (name, input) = Ok entry →
  entry = (name, {| la_protocol := ai_protocol input; la_version := ai_version input;
                    la_executable_sha256 := ai_executable_sha256 input |}) ∧
  digest_valid (ai_executable_sha256 input) ∧
  bad_identity (ai_protocol input) (ai_version input) = false ∧
  ∃ provider configured executable,
    bt_get name (cf_providers config) = Some provider ∧
    pr_executable provider = Some configured ∧
    canonicalize_adapter_executable configured = Ok executable ∧
    canonicalize_adapter_executable (ai_executable input) = Ok executable ∧
    expected_adapter_protocol provider = Ok (ai_protocol input) ∧
    adapter_sha256_file executable = Ok (ai_executable_sha256 input).
Proof.
  unfold pin_adapter, validate_adapter_identity. intros H0. break_results. simplify_eq.
  repeat match goal with H : ok_or _ _ = Ok _ |- _ => apply ok_or_Ok in H end.
  bool_to_prop. subst. split_and!; eauto 10 using validate_digest_valid.
Qed.

Lemma pinned_entries config inputs pinned :
  bt_wf inputs → try_collect (pin_adapter config) inputs = Ok pinned →
  bt_from_list pinned = pinned ∧ length pinned = length inputs ∧
  (∀ name adapter, bt_get name pinned = Some adapter ↔
     ∃ input, bt_get name inputs = Some input ∧
       pin_adapter config (name, input) = Ok (name, adapter)).
Proof.
  intros Hwf Hc. pose proof (try_collect_length _ _ _ Hc) as Hlen.
  apply try_collect_Ok in Hc.
  assert (Hkeys : bt_keys pinned = bt_keys inputs).
  { unfold bt_keys. clear -Hc. induction Hc as [|[k i] e ? ? Hp _ IH]; [done|].
    apply pin_adapter_Ok in Hp as [-> _]. simpl. by f_equal. }
  assert (Hwf' : bt_wf pinned) by (unfold bt_wf in *; by rewrite Hkeys).
  split_and!; [by apply bt_from_list_id|done|]. intros name adapter. split.
  - intros Hin%bt_get_In. apply list_elem_of_lookup in Hin as [i Hi].
    destruct (Forall2_lookup_r _ _ _ _ _ Hc Hi) as ([n input] & Hin & Hp).
    destruct (pin_adapter_Ok _ _ _ _ Hp) as [Heq _]. simplify_eq. exists input. split; [|done].
    apply bt_In_get; [done|]. by eapply list_elem_of_lookup_2.
  - intros (input & Hin%bt_get_In & Hp). apply list_elem_of_lookup in Hin as [i Hi].
    destruct (Forall2_lookup_l _ _ _ _ _ Hc Hi) as (e & He & Hp'). rewrite Hp in Hp'.
    injection Hp' as <-. apply bt_In_get; [done|]. by eapply list_elem_of_lookup_2.
Qed.

Lemma lock_mcps_digests config :
  bt_wf (cf_mcp_servers config) →
  (∀ name server, bt_get name (cf_mcp_servers config) = Some server →
     digest_valid (ms_sha256 server)) →
  ∀ x, x ∈ lock_mcps config → digest_valid (lk_sha256 x.2).
Proof.
  intros Hwf Hd x. unfold lock_mcps. rewrite bt_from_list_id.
  - change (@List.map) with (@fmap list _). intros ([n s] & -> & Hin)%list_elem_of_fmap.
    eapply Hd. by apply bt_In_get.
  - unfold bt_wf, bt_keys in *. rewrite <-list_fmap_compose.
    erewrite list_fmap_ext; [exact Hwf|]. by intros ? [].
Qed.

(** The structural check, from its parts. *)
Lemma lock_verify_intro self :
  wl_version self = 1%N → wl_configuration self =
    {| lc_schema_version := 1; lc_hash_algorithm := "blake3-256";
       lc_resolved_hash := lc_resolved_hash (wl_configuration self) |} →
  lp_major (wl_protocol self) = 1%N →
  digest_valid (lc_resolved_hash (wl_configuration self)) →
  (∀ x, x ∈ wl_adapters self → bad_identity (la_protocol x.2) (la_version x.2) = false ∧
     digest_valid (la_executable_sha256 x.2)) →
  (∀ x, x ∈ wl_mcps self → digest_valid (lk_sha256 x.2)) →
  (∀ h, wl_base_lock_hash self = Some h → digest_valid h) →
  (wl_scope self = LS_Session ↔ is_Some (wl_base_lock_hash self)) →
  lock_verify self = Ok tt.
Proof.
  intros Hv Hc Hp Hr Ha Hm Hb Hs. unfold lock_verify. rewrite Hv, Hc, Hp. simpl.
  rewrite Hr. rewrite try_for_each_intro; [|intros [n a] Hin; simpl].
  2: { destruct (Ha _ Hin) as [Hi Hd]. simpl in Hi. rewrite Hi. apply Hd. }
  rewrite try_for_each_intro; [|intros [n m] Hin; apply (Hm _ Hin)].
  destruct (wl_base_lock_hash self) as [h|].
  - rewrite (Hb h eq_refl). by rewrite (proj2 Hs) by done.
  - destruct (wl_scope self); [done|]. by destruct (proj1 Hs eq_refl).
Qed.

Lemma lock_verify_parts self :
  lock_verify self = Ok tt →
  lp_major (wl_protocol self) = 1%N ∧
  (∀ x, x ∈ wl_adapters self → bad_identity (la_protocol x.2) (la_version x.2) = false ∧
     digest_valid (la_executable_sha256 x.2)).
Proof.
  unfold lock_verify. intros Hv. break_results. bool_to_prop. split; [done|].
  intros [n a] Hin.
  match goal with H : try_for_each _ (wl_adapters self) = Ok _ |- _ =>
    apply try_for_each_Ok, (proj1 (Forall_forall _ _)) with (x := (n, a)) in H as Ha;
      [|done] end.
  simpl in Ha. break_results. eauto using validate_digest_valid.
Qed.

Lemma repository_verifies config snapshot inputs lock :
  bt_wf inputs → bt_wf (cf_mcp_servers config) →
  digest_valid (cs_content_hash snapshot) →
  (∀ name server, bt_get name (cf_mcp_servers config) = Some server →
     digest_valid (ms_sha256 server)) →
  lock_repository config snapshot inputs = Ok lock →
  lock_verify lock = Ok tt.
Proof.
  intros Hwf Hwfm Hs Hm. unfold lock_repository. intros Hl. break_results. simplify_eq.
  match goal with H : try_collect _ _ = Ok ?p |- _ =>
    destruct (pinned_entries _ _ _ Hwf H) as (-> & _ & Hpin);
    assert (Hwfp : bt_wf p) by (rewrite <-(proj1 (pinned_entries _ _ _ Hwf H));
                                apply bt_from_list_wf) end.
  apply lock_verify_intro; simpl; try done.
  - intros [n a] Hin%bt_In_get; [|done]. apply Hpin in Hin as (input & _ & Hp).
    apply pin_adapter_Ok in Hp as (? & ? & ? & _). by simplify_eq.
  - by apply lock_mcps_digests.
Qed.

(** ** Properties *)

(** A repository lock verifies on the machine that produced it: when the captured
    adapter inputs, the digests of the configuration and of its MCP servers are
    well formed, a lock that [repository] builds passes the structural check, the
    check against the captured inputs and the check against the configured
    executables, as long as the file system is the same. *)
Theorem lock_repository_verifies config snapshot inputs lock :
  bt_wf inputs → bt_wf (cf_mcp_servers config) → bt_wf (cf_providers config) →
  digest_valid (cs_content_hash snapshot) →
  (∀ name server, bt_get name (cf_mcp_servers config) = Some server →
     digest_valid (ms_sha256 server)) →
  lock_repository config snapshot inputs = Ok lock →
  lock_verify lock = Ok tt ∧
  lock_verify_executables lock inputs = Ok tt ∧
  lock_verify_configured_executables lock config = Ok tt.
Proof.
  intros Hwf Hwfm Hwfp Hs Hm Hl.
  pose proof (repository_verifies _ _ _ _ Hwf Hwfm Hs Hm Hl) as Hv.
  split; [done|]. unfold lock_verify_executables, lock_verify_configured_executables.
  rewrite Hv. unfold lock_repository in Hl. break_results. simplify_eq. simpl.
  match goal with H : try_collect _ _ = Ok ?p |- _ =>
    destruct (pinned_entries _ _ _ Hwf H) as (Hid & Hlen & Hpin) end.
  rewrite Hid in *. rewrite Hlen, Nat.eqb_refl. split; apply try_for_each_intro.
  - intros [n a] Hin%bt_In_get; [|rewrite <-Hid; apply bt_from_list_wf].
    apply Hpin in Hin as (input & Hg & Hp). rewrite Hg. simpl.
    apply pin_adapter_Ok in Hp as ([= ->] & _ & _ & p & c & e & _ & _ & _ & He & _ & Hsha).
    simpl. rewrite !bool_decide_true by done. simpl. rewrite He, Hsha.
    by rewrite bool_decide_true.
  - intros [n p] Hin. destruct (is_fake p) eqn:Hf; [done|].
    destruct (pr_executable p) as [c|] eqn:Hc; [|done].
    match goal with H : try_for_each (require_pinned _) _ = Ok _ |- _ =>
      apply try_for_each_Ok, (proj1 (Forall_forall _ _)) with (x := (n, p)) in H as Hreq;
        [|done] end.
    unfold require_pinned in Hreq. break_results. unfold has_executable in *.
    rewrite Hf, Hc in *. simpl in *. bool_to_prop.
    match goal with H : bt_contains_key _ _ = true |- _ =>
      apply bt_contains_key_true in H as [a Ha] end.
    rewrite Ha. simpl. apply Hpin in Ha as (input & _ & Hp).
    apply pin_adapter_Ok in Hp as ([= ->] & _ & _ & p' & c' & e & Hg & Hc' & He & _ & Hx & Hsha).
    apply bt_In_get in Hin; [|done]. simplify_eq. rewrite He, Hx. simpl.
    rewrite bool_decide_true by done. simpl. rewrite Hsha. by rewrite bool_decide_true.
Qed.


(** A session lock that [session] derives from a verified base links to that base,
    keeps the base's executable pins, and covers every executable provider and
    every MCP server of the session's configuration with an entry of the base;
    [blake3] is only assumed to print 64 lowercase hexadecimal digits. *)
Theorem lock_session_links base config snapshot lock :
  (∀ text, digest_valid (blake3_hex text)) →
  bt_wf (cf_mcp_servers config) →
  digest_valid (cs_content_hash snapshot) →
  (∀ name server, bt_get name (cf_mcp_servers config) = Some server →
     digest_valid (ms_sha256 server)) →
  lock_verify base = Ok tt →
  lock_session base config snapshot = Ok lock →
  lock_verify_linked_to lock base = Ok tt ∧
  wl_adapters lock = wl_adapters base ∧
  (∀ name provider, (name, provider) ∈ cf_providers config →
     is_fake provider = false → has_executable provider = true →
     is_Some (bt_get name (wl_adapters base))) ∧
  (∀ name, name ∈ bt_keys (cf_mcp_servers config) → is_Some (bt_get name (wl_mcps base))).
Proof.
  intros Hb3 Hwf Hs Hm Hbase Hl. unfold lock_session in Hl. break_results. simplify_eq.
  split_and!; [|done| |].
  - unfold lock_verify_linked_to. rewrite Hbase. rewrite lock_verify_intro; simpl; try done.
    + by rewrite bool_decide_true.
    + apply (lock_verify_parts base Hbase).
    + apply (lock_verify_parts base Hbase).
    + by apply lock_mcps_digests.
    + intros h [= <-]. apply Hb3.
  - intros n p Hin Hf He.
    match goal with H : try_for_each _ _ = Ok _ |- _ =>
      apply try_for_each_Ok, (proj1 (Forall_forall _ _)) with (x := (n, p)) in H as Hreq;
        [|done] end.
    simpl in Hreq. rewrite Hf, He in Hreq. apply reject_if_Ok in Hreq. simpl in Hreq.
    bool_to_prop. by apply bt_contains_key_true.
  - intros n Hn. apply bt_contains_key_true.
    match goal with H : existsb _ _ = false |- _ => rename H into Hex end.
    destruct (bt_contains_key n (wl_mcps base)) eqn:Hk; [done|].
    rewrite <-not_true_iff_false, existsb_exists in Hex. destruct Hex. exists n.
    split; [by apply list_elem_of_In|by rewrite Hk].
Qed.
End lock.

(** ** Witnesses *)

(** A machine whose every path is a directory of mode 755 or, for the agent, an
    executable of mode 755, and whose digests are all zeros. *)
Definition zeros : string := "0000000000000000000000000000000000000000000000000000000000000000".

Definition plain_machine : FileSystem := {|
  symlink_metadata path := Ok {| fm_is_symlink := false;
    fm_is_dir := negb (bool_decide (path = "/bin/agent"));
    fm_is_file := bool_decide (path = "/bin/agent"); fm_mode := 493; fm_uid := 501 |};
  fs_canonicalize path := Ok path;
  open_metadata path := Ok {| fm_is_symlink := false; fm_is_dir := false; fm_is_file := true;
    fm_mode := 493; fm_uid := 501 |};
  read_to_end path := Ok "#!";
  getuid := 501;
  sha256_hex _ := zeros;
|}.

Definition agent_provider : Provider :=
  {| pr_kind := PT_Acp; pr_driver := None; pr_executable := Some "/bin/agent";
     pr_credential_ref := None; pr_privacy := None; pr_base_url := None |}.

Definition agent_config : WorkbenchConfiguration :=
  {| cf_version := 1; cf_providers := [("agent", agent_provider)]; cf_models := [];
     cf_roles := []; cf_tools := []; cf_data_sources := []; cf_mcp_servers := [];
     cf_workflows := []; cf_routing := cf_routing safe_builtins;
     cf_policies := cf_policies safe_builtins; cf_storage := cf_storage safe_builtins;
     cf_protocol := cf_protocol safe_builtins |}.

Definition agent_inputs : BTreeMap AdapterInput :=
  [("agent", {| ai_protocol := ACP_PROTOCOL; ai_version := "1.0"; ai_executable := "/bin/agent";
                ai_executable_sha256 := zeros |})].

Definition agent_snapshot : ConfigurationSnapshot :=
  {| cs_schema_version := 1; cs_sources := []; cs_content_hash := zeros;
     cs_configuration := VNull |}.

Definition agent_lock : WorkbenchLock :=
  {| wl_version := 1; wl_scope := LS_Repository; wl_base_lock_hash := None;
     wl_configuration := locked_configuration agent_snapshot;
     wl_protocol := {| lp_major := 1; lp_minor := 0 |};
     wl_adapters := [("agent", {| la_protocol := ACP_PROTOCOL; la_version := "1.0";
                                  la_executable_sha256 := zeros |})];
     wl_models := []; wl_mcps := [] |}.

Lemma zeros_valid : digest_valid zeros.
Proof. intros path. reflexivity. Qed.

Lemma lock_repository_verifies_witness :
  @lock_verify_configured_executables plain_machine agent_lock agent_config = Ok tt.
Proof.
  apply (@lock_repository_verifies plain_machine agent_config agent_snapshot agent_inputs).
  - apply keys_sorted_wf. reflexivity.
  - apply keys_sorted_wf. reflexivity.
  - apply keys_sorted_wf. reflexivity.
  - apply zeros_valid.
  - intros name server Hn. discriminate Hn.
  - vm_compute. reflexivity.
Defined.


Definition session_lock : WorkbenchLock :=
  {| wl_version := 1; wl_scope := LS_Session; wl_base_lock_hash := Some zeros;
     wl_configuration := locked_configuration agent_snapshot;
     wl_protocol := wl_protocol agent_lock; wl_adapters := wl_adapters agent_lock;
     wl_models := []; wl_mcps := [] |}.

Lemma lock_session_links_witness :
  lock_verify_linked_to (λ _, EmptyString) (λ _, zeros) session_lock agent_lock = Ok tt.
Proof.
  apply (lock_session_links (λ _, EmptyString) (λ _, zeros) agent_lock agent_config
           agent_snapshot).
  - intros text. apply zeros_valid.
  - apply keys_sorted_wf. reflexivity.
  - apply zeros_valid.
  - intros name server Hn. discriminate Hn.
  - vm_compute. reflexivity.
  - vm_compute. reflexivity.
Defined.
