(* ===== verification/McpPolicy.v ===== *)
(** * McpPolicy: access decisions for MCP tools
      (workbench-mcp/src/error.rs and policy.rs)

    [resolve_mcp_tool_access] turns a configuration and a request context into
    the policy layers of the core, and [gate_before_transport] into permission to
    reach a server. A [BTreeSet] of names is the list it is collected from, since
    only membership and emptiness are asked of it. *)

From S2P Require Import Prelude Text BTree Errors Value Attempt Policy ConfigModel.

(** ** Errors *)

Inductive McpErrorKind : Type :=
| ME_InvalidConfiguration | ME_PinMismatch | ME_Unavailable | ME_PolicyDenied
| ME_ApprovalRequired | ME_ApprovalDenied | ME_TransportFailed | ME_ResponseTooLarge
| ME_RedirectRejected | ME_Timeout | ME_Cancelled | ME_OutcomeUnknown
| ME_ShuttingDown | ME_ReapFailed | ME_Internal.

#[export] Instance McpErrorKind_eq_dec : EqDecision McpErrorKind.
Proof. solve_decision. Defined.

(** [McpErrorKind::failure_category] *)
Definition failure_category (k : McpErrorKind) : FailureCategory :=
  match k with
  | ME_InvalidConfiguration | ME_ResponseTooLarge | ME_RedirectRejected => FC_InvalidRequest
  | ME_PinMismatch | ME_Unavailable | ME_TransportFailed => FC_ProviderUnavailable
  | ME_PolicyDenied | ME_ApprovalDenied => FC_PolicyDenied
  | ME_ApprovalRequired => FC_ApprovalRequired
  | ME_Timeout => FC_ProviderTimeout
  | ME_Cancelled | ME_OutcomeUnknown => FC_OutcomeUnknown
  | ME_ShuttingDown => FC_InvalidTransition
  | ME_ReapFailed | ME_Internal => FC_Internal
  end.

Record McpError : Type := mcp_error { me_kind : McpErrorKind; me_message : string }.

#[export] Instance McpError_eq_dec : EqDecision McpError.
Proof. solve_decision. Defined.

Definition pin_mismatch : McpError := mcp_error ME_PinMismatch "MCP artifact pin mismatch".
Definition unavailable : McpError := mcp_error ME_Unavailable "MCP server is unavailable".
Definition policy_denied : McpError := mcp_error ME_PolicyDenied "tool denied by policy".
Definition approval_required : McpError :=
  mcp_error ME_ApprovalRequired "tool requires human approval".
Definition approval_denied : McpError :=
  mcp_error ME_ApprovalDenied "tool approval was denied".
Definition response_too_large : McpError :=
  mcp_error ME_ResponseTooLarge "MCP response exceeded size ceiling".
Definition redirect_rejected : McpError :=
  mcp_error ME_RedirectRejected "MCP redirect to unpinned host rejected".
Definition transport_failed : McpError :=
  mcp_error ME_TransportFailed "MCP transport failed".
Definition shutting_down : McpError :=
  mcp_error ME_ShuttingDown "MCP gateway is shutting down".
Definition reap_failed : McpError :=
  mcp_error ME_ReapFailed "MCP child could not be reaped".
Definition outcome_unknown : McpError :=
  mcp_error ME_OutcomeUnknown "MCP call outcome is unknown after start".
Definition invalid_configuration : McpError :=
  mcp_error ME_InvalidConfiguration "MCP configuration is invalid".

(** ** Inputs and outputs of a resolution *)

Record ToolPolicyContext : Type := {
  tc_config : WorkbenchConfiguration;
  tc_tool_id : string;
  tc_operation : string;
  tc_role_id : option string;
  tc_workflow_id : option string;
  tc_workflow_step_id : option string;
  tc_session_denied : list string;
}.

Record ResolvedToolAccess : Type := {
  ra_decision : PolicyDecision;
  ra_operation : OperationPolicy;
  ra_approval_mode : ApprovalMode;
  ra_tool_kind : ToolKind;
  ra_mcp_server : option string;
}.

Definition map_default_mode (mode : DefaultToolMode) : PermissionMode :=
  match mode with
  | DM_ReadOnly => PM_ReadOnly
  | DM_ApprovalRequired => PM_ApprovalRequired
  | DM_Denied => PM_Denied
  end.

Definition map_effect (effect : ConfigModel.EffectClass) : Attempt.EffectClass :=
  match effect with
  | CE_IdempotentRead => EF_IdempotentRead
  | CE_IdempotentWrite => EF_IdempotentWrite
  | CE_PaidInference => EF_PaidInference
  | CE_NonIdempotentWrite => EF_NonIdempotentWrite
  | CE_Production => EF_Production
  | CE_Credential => EF_Credential
  end.

(** [IntersectExt::intersect], the private copy of the core's ranking. *)
Definition mcp_rank (mode : PermissionMode) : N :=
  match mode with PM_ReadOnly => 0 | PM_ApprovalRequired => 1 | PM_Denied => 2 end%N.

Definition mcp_intersect (self other : PermissionMode) : PermissionMode :=
  if (mcp_rank other <=? mcp_rank self)%N then self else other.

Definition apply_approval_mode (current : PolicyDecision) (mode : ApprovalMode)
    : PolicyDecision :=
  match mode with
  | AM_Never | AM_Policy => current
  | AM_Always =>
      let forced := mcp_intersect (pd_mode current) PM_ApprovalRequired in
      if decide (forced = pd_mode current) then current
      else {| pd_mode := forced; pd_authoritative_source := PS_EffectClass |}
  end.

(** Locates an MCP-backed tool definition. *)
Definition mcp_tool (config : WorkbenchConfiguration) (tool_id : string) : option Tool :=
  match bt_get tool_id (cf_tools config) with
  | Some tool => if decide (tl_kind tool = TK_Mcp) then Some tool else None
  | None => None
  end.

(** Locates one named operation. *)
Definition tool_operation (tool : Tool) (operation : string) : option Operation :=
  List.find (λ item, bool_decide (op_name item = operation)) (tl_operations tool).

(** [names.filter_map(|name| ToolId::parse(name).ok())] *)
Definition parsed_ids (names : list string) : list ToolId :=
  omap (λ name, ok (Identifier_parse name)) names.

(** The map [allowed.into_iter().map(|id| (id, ReadOnly)).collect()]. *)
Definition read_only_modes (ids : list ToolId) : BTreeMap PermissionMode :=
  bt_from_list (List.map (λ id, (id, PM_ReadOnly)) ids).

Definition built_in_layer (config : WorkbenchConfiguration) : PolicyLayer :=
  {| pl_source := PS_BuiltIn; pl_default_mode := PM_Denied;
     pl_tool_modes := read_only_modes (parsed_ids (bt_keys (cf_tools config)));
     pl_denied_tools := [] |}.

Definition user_layer (config : WorkbenchConfiguration) : PolicyLayer :=
  {| pl_source := PS_User;
     pl_default_mode := map_default_mode (po_default_tool_mode (cf_policies config));
     pl_tool_modes := [];
     pl_denied_tools := parsed_ids (po_global_deny (cf_policies config)) |}.

Definition repository_layer (config : WorkbenchConfiguration) : PolicyLayer :=
  {| pl_source := PS_Repository;
     pl_default_mode := map_default_mode (po_default_tool_mode (cf_policies config));
     pl_tool_modes := []; pl_denied_tools := [] |}.

Definition session_layer (denied : list string) : PolicyLayer :=
  {| pl_source := PS_Session; pl_default_mode := PM_ReadOnly; pl_tool_modes := [];
     pl_denied_tools := parsed_ids denied |}.

(** The allowlist layer of a role; the second condition repeats the first one
    for an empty list. *)
Definition role_layer (role : Role) (tool_id : ToolId) : PolicyLayer :=
  let allowed := parsed_ids (ro_tools role) in
  {| pl_source := PS_Role; pl_default_mode := PM_Denied;
     pl_tool_modes := read_only_modes allowed;
     pl_denied_tools :=
       (if negb (set_contains tool_id allowed) then [tool_id] else []) ++
       (match allowed with [] => [tool_id] | _ => [] end) |}.

Definition workflow_layer (step : WorkflowStep) (tool_id : ToolId) : PolicyLayer :=
  let allowed := parsed_ids (ws_tools step) in
  {| pl_source := PS_Workflow; pl_default_mode := PM_Denied;
     pl_tool_modes := read_only_modes allowed;
     pl_denied_tools := if negb (set_contains tool_id allowed) then [tool_id] else [] |}.

(** The role the context names, when the configuration has it. *)
Definition context_role (ctx : ToolPolicyContext) : option Role :=
  match tc_role_id ctx with
  | Some role_id => bt_get role_id (cf_roles (tc_config ctx))
  | None => None
  end.

(** The workflow step the context names, when it exists and lists tools. *)
Definition context_step (ctx : ToolPolicyContext) : option WorkflowStep :=
  match tc_workflow_id ctx, tc_workflow_step_id ctx with
  | Some workflow_id, Some step_id =>
      match bt_get workflow_id (cf_workflows (tc_config ctx)) with
      | Some workflow =>
          match List.find (λ step, bool_decide (ws_id step = step_id)) (wf_steps workflow) with
          | Some step => match ws_tools step with [] => None | _ => Some step end
          | None => None
          end
      | None => None
      end
  | _, _ => None
  end.

Definition build_layers (ctx : ToolPolicyContext) (tool_id : ToolId) : list PolicyLayer :=
  [built_in_layer (tc_config ctx); user_layer (tc_config ctx);
   repository_layer (tc_config ctx); session_layer (tc_session_denied ctx)] ++
  match context_role ctx with Some role => [role_layer role tool_id] | None => [] end ++
  match context_step ctx with Some step => [workflow_layer step tool_id] | None => [] end.

Definition resolve_mcp_tool_access (ctx : ToolPolicyContext)
    : Result ResolvedToolAccess McpError :=
  let? tool := ok_or (mcp_tool (tc_config ctx) (tc_tool_id ctx)) policy_denied in
  let? operation := ok_or (tool_operation tool (tc_operation ctx)) policy_denied in
  let? tool_id := map_err (λ _, invalid_configuration) (Identifier_parse (tc_tool_id ctx)) in
  let layers := build_layers ctx tool_id in
  let base := resolve_tool_policy tool_id layers in
  let effect := map_effect (op_effect_class operation) in
  let protected := protect_effect base effect (op_material_cost operation) in
  let with_approval := apply_approval_mode protected (op_approval operation) in
  Ok {| ra_decision := with_approval;
        ra_operation := {| effect_class := effect;
                           explicitly_idempotent := op_idempotent operation;
                           material_cost := op_material_cost operation |};
        ra_approval_mode := op_approval operation;
        ra_tool_kind := tl_kind tool;
        ra_mcp_server := tl_mcp_server tool |}.

Definition gate_before_transport (access : ResolvedToolAccess) (granted : option bool)
    : Result unit McpError :=
  match pd_mode (ra_decision access) with
  | PM_Denied => Err policy_denied
  | PM_ApprovalRequired =>
      match granted with
      | Some true => Ok tt
      | Some false => Err approval_denied
      | None => Err approval_required
      end
  | PM_ReadOnly => Ok tt
  end.

(** ** Specification *)

(** No source of policy denies the tool to the context. *)
Definition permitted (ctx : ToolPolicyContext) : Prop :=
  let tool := tc_tool_id ctx in
  po_default_tool_mode (cf_policies (tc_config ctx)) ≠ DM_Denied ∧
  (tool ∉ po_global_deny (cf_policies (tc_config ctx))) ∧
  (tool ∉ tc_session_denied ctx) ∧
  (∀ role, context_role ctx = Some role → tool ∈ ro_tools role) ∧
  (∀ step, context_step ctx = Some step → tool ∈ ws_tools step).

(** The operation is one that nobody has to approve. *)
Definition unattended (ctx : ToolPolicyContext) (o : Operation) : Prop :=
  po_default_tool_mode (cf_policies (tc_config ctx)) = DM_ReadOnly ∧
  op_effect_class o = CE_IdempotentRead ∧ op_material_cost o = false ∧
  op_approval o ≠ AM_Always.

(** ** Lemmas *)

(** The private ranking is the core's. *)
Lemma mcp_intersect_core a b : mcp_intersect a b = intersect a b.
Proof. by destruct a, b. Qed.

Lemma parsed_ids_elem t names :
  identifier_valid t = true → t ∈ parsed_ids names ↔ t ∈ names.
Proof.
  intros Ht. unfold parsed_ids. rewrite list_elem_of_omap. split.
  - intros (n & Hn & Hp). apply ok_Some, Identifier_parse_Ok in Hp as [-> _]. done.
  - intros Hn. exists t. split; [done|]. by apply ok_Some, Identifier_parse_Ok.
Qed.

Lemma bt_get_foldl_same (l : list ToolId) t m :
  t ∈ l ∨ bt_get t m = Some PM_ReadOnly →
  bt_get t (foldl (λ m kv, bt_insert kv.1 kv.2 m) m
              (List.map (λ id : ToolId, (id, PM_ReadOnly)) l)) = Some PM_ReadOnly.
Proof.
  revert m. induction l as [|x l IH]; intros m; simpl.
  - by intros [?%elem_of_nil|].
  - intros H. apply IH. rewrite bt_get_insert. case_decide as Hx; [by right|].
    destruct H as [[->|?]%elem_of_cons|]; naive_solver.
Qed.

Lemma read_only_modes_get t ids : t ∈ ids → bt_get t (read_only_modes ids) = Some PM_ReadOnly.
Proof. intros. apply bt_get_foldl_same. by left. Qed.

Lemma proposed_built_in config t tool :
  identifier_valid t = true → bt_get t (cf_tools config) = Some tool →
  proposed t (built_in_layer config) = PM_ReadOnly.
Proof.
  intros Ht Hg. unfold proposed. simpl. rewrite read_only_modes_get; [done|].
  apply parsed_ids_elem; [done|]. apply bt_get_In in Hg.
  apply list_elem_of_fmap. by exists (t, tool).
Qed.

Lemma proposed_deny_list t src d names :
  identifier_valid t = true →
  proposed t {| pl_source := src; pl_default_mode := d; pl_tool_modes := [];
                pl_denied_tools := parsed_ids names |} =
  if decide (t ∈ names) then PM_Denied else d.
Proof.
  intros Ht. unfold proposed, set_contains. simpl. case_decide as Hin.
  - by rewrite bool_decide_true by by apply parsed_ids_elem.
  - by rewrite bool_decide_false by by rewrite parsed_ids_elem.
Qed.

(** An allowlist layer proposes read-only for its tools and denies the others. *)
Lemma proposed_allowlist t src names extra :
  identifier_valid t = true → (t ∈ names → extra = []) →
  proposed t {| pl_source := src; pl_default_mode := PM_Denied;
                pl_tool_modes := read_only_modes (parsed_ids names);
                pl_denied_tools :=
                  (if negb (set_contains t (parsed_ids names)) then [t] else []) ++ extra |} =
  if decide (t ∈ names) then PM_ReadOnly else PM_Denied.
Proof.
  intros Ht Hextra. unfold proposed, set_contains. simpl.
  destruct (decide (t ∈ names)) as [Hin|Hout].
  - rewrite (bool_decide_true (t ∈ parsed_ids names)) by by apply parsed_ids_elem.
    rewrite (Hextra Hin). simpl.
    by rewrite read_only_modes_get by by apply parsed_ids_elem.
  - rewrite (bool_decide_false (t ∈ parsed_ids names)) by by rewrite parsed_ids_elem.
    simpl. by rewrite bool_decide_true by left.
Qed.

Lemma proposed_role role t :
  identifier_valid t = true →
  proposed t (role_layer role t) = if decide (t ∈ ro_tools role) then PM_ReadOnly else PM_Denied.
Proof.
  intros Ht. apply proposed_allowlist; [done|]. intros Hin%parsed_ids_elem; [|done].
  destruct (parsed_ids (ro_tools role)); [by apply not_elem_of_nil in Hin|done].
Qed.

Lemma proposed_workflow step t :
  identifier_valid t = true →
  proposed t (workflow_layer step t) =
  if decide (t ∈ ws_tools step) then PM_ReadOnly else PM_Denied.
Proof.
  intros Ht. rewrite <-(proposed_allowlist t PS_Workflow (ws_tools step) [] Ht) by done.
  unfold workflow_layer. by rewrite app_nil_r.
Qed.

Lemma resolve_read_only t layers :
  pd_mode (resolve_tool_policy t layers) = PM_ReadOnly ↔
  Forall (λ l, proposed t l = PM_ReadOnly) layers.
Proof.
  unfold resolve_tool_policy. rewrite resolve_mode_foldl. simpl.
  induction layers as [|l layers IH]; simpl; [by split|].
  rewrite Forall_cons, <-IH. destruct (proposed t l), (foldr _ _ layers); naive_solver.
Qed.

Lemma resolve_not_denied t layers :
  pd_mode (resolve_tool_policy t layers) ≠ PM_Denied ↔
  Forall (λ l, proposed t l ≠ PM_Denied) layers.
Proof.
  unfold resolve_tool_policy. rewrite resolve_mode_foldl. simpl.
  induction layers as [|l layers IH]; simpl; [by split|].
  rewrite Forall_cons, <-IH. destruct (proposed t l), (foldr _ _ layers); naive_solver.
Qed.

Lemma Forall_option_singleton {A B} (P : B → Prop) (f : A → B) (o : option A) :
  Forall P (match o with Some a => [f a] | None => [] end) ↔ ∀ a, o = Some a → P (f a).
Proof. destruct o; rewrite ?Forall_singleton, ?Forall_nil; naive_solver. Qed.

(** What holds of every layer, source by source. *)
Lemma build_layers_Forall (P : PermissionMode → Prop) ctx tool :
  identifier_valid (tc_tool_id ctx) = true →
  bt_get (tc_tool_id ctx) (cf_tools (tc_config ctx)) = Some tool →
  P PM_ReadOnly → ¬ P PM_Denied →
  Forall (λ l, P (proposed (tc_tool_id ctx) l)) (build_layers ctx (tc_tool_id ctx)) ↔
  permitted ctx ∧ P (map_default_mode (po_default_tool_mode (cf_policies (tc_config ctx)))).
Proof.
  intros Ht Htool Hro Hden. unfold build_layers, permitted.
  set (t := tc_tool_id ctx) in *. set (mode := po_default_tool_mode _).
  rewrite !Forall_app, (Forall_option_singleton _ (λ r, role_layer r t)),
    (Forall_option_singleton _ (λ s, workflow_layer s t)), !Forall_cons, Forall_nil.
  rewrite (proposed_built_in _ t tool) by done.
  unfold user_layer, session_layer. rewrite !proposed_deny_list by done.
  change (proposed t (repository_layer (tc_config ctx))) with (map_default_mode mode).
  assert (Hallow : ∀ b : bool, P (if b then PM_ReadOnly else PM_Denied) ↔ b = true)
    by (intros []; naive_solver).
  assert (Hdeny : ∀ Q `{Decision Q}, P (if decide Q then PM_Denied else PM_ReadOnly) ↔ ¬ Q)
    by (intros; case_decide; naive_solver).
  assert (Hmode : P (map_default_mode mode) → mode ≠ DM_Denied) by (by intros ? ->).
  rewrite Hdeny.
  assert (Hrole : (∀ r, context_role ctx = Some r → P (proposed t (role_layer r t))) ↔
    (∀ r, context_role ctx = Some r → t ∈ ro_tools r)).
  { apply forall_proper. intros r. rewrite proposed_role by done. case_decide; naive_solver. }
  assert (Hstep : (∀ s, context_step ctx = Some s → P (proposed t (workflow_layer s t))) ↔
    (∀ s, context_step ctx = Some s → t ∈ ws_tools s)).
  { apply forall_proper. intros s. rewrite proposed_workflow by done. case_decide; naive_solver. }
  rewrite Hrole, Hstep. case_decide; naive_solver.
Qed.

Lemma apply_approval_mode_mode d mode :
  pd_mode (apply_approval_mode d mode) =
  match mode with AM_Always => intersect (pd_mode d) PM_ApprovalRequired | _ => pd_mode d end.
Proof. destruct d as [[] ?], mode; done. Qed.

Lemma approval_read_only m mode :
  match mode with AM_Always => intersect m PM_ApprovalRequired | _ => m end = PM_ReadOnly ↔
  m = PM_ReadOnly ∧ mode ≠ AM_Always.
Proof. destruct m, mode; naive_solver. Qed.

Lemma map_effect_unattended e :
  map_effect e = EF_None ∨ map_effect e = EF_IdempotentRead ↔ e = CE_IdempotentRead.
Proof. destruct e; naive_solver. Qed.

Lemma tool_operation_name tool name o :
  tool_operation tool name = Some o → o ∈ tl_operations tool ∧ op_name o = name.
Proof.
  intros [Hin Hn]%List.find_some. bool_to_prop. by rewrite list_elem_of_In.
Qed.

Lemma mcp_tool_Some config t tool :
  mcp_tool config t = Some tool ↔ bt_get t (cf_tools config) = Some tool ∧ tl_kind tool = TK_Mcp.
Proof. unfold mcp_tool. destruct (bt_get t (cf_tools config)); [case_decide|]; naive_solver. Qed.

(** What a successful resolution found and decided. *)
Lemma resolve_access_Ok ctx access :
  resolve_mcp_tool_access ctx = Ok access →
  ∃ tool o, bt_get (tc_tool_id ctx) (cf_tools (tc_config ctx)) = Some tool ∧
    tl_kind tool = TK_Mcp ∧
    tool_operation tool (tc_operation ctx) = Some o ∧
    ra_mcp_server access = tl_mcp_server tool ∧ ra_tool_kind access = TK_Mcp ∧
    ra_operation access = {| effect_class := map_effect (op_effect_class o);
                             explicitly_idempotent := op_idempotent o;
                             material_cost := op_material_cost o |} ∧
    (pd_mode (ra_decision access) ≠ PM_Denied ↔ permitted ctx) ∧
    (pd_mode (ra_decision access) = PM_ReadOnly ↔ permitted ctx ∧ unattended ctx o).
Proof.
  unfold resolve_mcp_tool_access. intros H. break_results. simplify_eq.
  match goal with H : ok_or (mcp_tool _ _) _ = Ok ?t |- _ =>
    apply ok_or_Ok, mcp_tool_Some in H as [Htool Hkind]; rename t into tool end.
  match goal with H : ok_or (tool_operation _ _) _ = Ok ?t |- _ =>
    apply ok_or_Ok in H as Ho; rename t into o end.
  destruct (Identifier_parse (tc_tool_id ctx)) as [tid|] eqn:Hid; [|done]. simplify_eq/=.
  apply Identifier_parse_Ok in Hid as [-> Hid].
  exists tool, o. simpl. split_and!; try done.
  all: rewrite apply_approval_mode_mode.
  all: set (base := resolve_tool_policy _ _).
  all: pose proof (protect_effect_modes base (map_effect (op_effect_class o))
                     (op_material_cost o)) as [Hread Hdeny].
  - assert (pd_mode base ≠ PM_Denied ↔ permitted ctx) as <-.
    { unfold base. rewrite resolve_not_denied.
      rewrite (build_layers_Forall (λ m, m ≠ PM_Denied) ctx tool) by (done || naive_solver).
      unfold permitted. destruct (po_default_tool_mode _); naive_solver. }
    destruct (op_approval o), (pd_mode (protect_effect _ _ _)); naive_solver.
  - assert (pd_mode base = PM_ReadOnly ↔
      permitted ctx ∧ po_default_tool_mode (cf_policies (tc_config ctx)) = DM_ReadOnly) as Hb.
    { unfold base. rewrite resolve_read_only.
      rewrite (build_layers_Forall (λ m, m = PM_ReadOnly) ctx tool) by done.
      destruct (po_default_tool_mode _); naive_solver. }
    rewrite approval_read_only, Hread, Hb, map_effect_unattended. unfold unattended. tauto.
Qed.

Lemma gate_outcomes access granted (P U : Prop) :
  (pd_mode (ra_decision access) ≠ PM_Denied ↔ P) →
  (pd_mode (ra_decision access) = PM_ReadOnly ↔ P ∧ U) →
  let verdict := gate_before_transport access granted in
  (verdict = Ok tt ↔ P ∧ (U ∨ granted = Some true)) ∧
  (verdict = Err policy_denied ↔ ¬ P) ∧
  (verdict = Err approval_required ↔ P ∧ ¬ U ∧ granted = None) ∧
  (verdict = Err approval_denied ↔ P ∧ ¬ U ∧ granted = Some false).
Proof.
  unfold gate_before_transport. intros Hden Hro. cbv zeta.
  destruct (pd_mode (ra_decision access)).
  - destruct (proj1 Hro eq_refl). naive_solver.
  - assert P by (by apply Hden). assert (¬ U) by (intros ?; by assert (PM_ApprovalRequired = PM_ReadOnly) by tauto).
    destruct granted as [[]|]; naive_solver.
  - assert (¬ P) by (intros HP; by apply (proj2 Hden HP)). naive_solver.
Qed.

(** ** Properties *)

(** The gate of an MCP tool call as one decision: a call of an unknown tool, of a
    tool that is not backed by a server or of an unknown operation is denied; a
    tool that a deny list, the default mode, the role's or the step's allowlist
    excludes is denied whatever the human decided; every other call passes
    exactly when it is a free idempotent read nobody has to approve, or a human
    granted it. *)
Theorem tool_gate_spec ctx granted :
  let verdict := (let? access := resolve_mcp_tool_access ctx in
                  gate_before_transport access granted) in
  match mcp_tool (tc_config ctx) (tc_tool_id ctx) with
  | Some tool =>
      match tool_operation tool (tc_operation ctx) with
      | Some o =>
          (identifier_valid (tc_tool_id ctx) = false ∧ verdict = Err invalid_configuration) ∨
          (identifier_valid (tc_tool_id ctx) = true ∧
           (verdict = Ok tt ↔ permitted ctx ∧ (unattended ctx o ∨ granted = Some true)) ∧
           (verdict = Err policy_denied ↔ ¬ permitted ctx) ∧
           (verdict = Err approval_required ↔
              permitted ctx ∧ ¬ unattended ctx o ∧ granted = None) ∧
           (verdict = Err approval_denied ↔
              permitted ctx ∧ ¬ unattended ctx o ∧ granted = Some false))
      | None => verdict = Err policy_denied
      end
  | None => verdict = Err policy_denied
  end.
Proof.
  cbv zeta. destruct (mcp_tool _ _) as [tool|] eqn:Ht;
    [|unfold resolve_mcp_tool_access; by rewrite Ht].
  destruct (tool_operation tool _) as [o|] eqn:Ho;
    [|unfold resolve_mcp_tool_access; rewrite Ht; simpl; by rewrite Ho].
  destruct (identifier_valid (tc_tool_id ctx)) eqn:Hid; [right|left]; (split; [done|]).
  - destruct (resolve_mcp_tool_access ctx) as [access|] eqn:Hr.
    + apply mcp_tool_Some in Ht as [Ht _].
      apply resolve_access_Ok in Hr as (tool' & o' & Ht' & _ & Ho' & _ & _ & _ & Hden & Hro).
      simplify_eq. by apply gate_outcomes.
    + unfold resolve_mcp_tool_access, Identifier_parse in Hr.
      rewrite Ht in Hr. simpl in Hr. rewrite Ho in Hr. simpl in Hr. by rewrite Hid in Hr.
  - unfold resolve_mcp_tool_access, Identifier_parse. rewrite Ht. simpl. rewrite Ho. simpl.
    by rewrite Hid.
Qed.
