(* ===== verification/McpPin.v ===== *)
(** * McpPin: pinned MCP artifacts and endpoints (workbench-mcp/src/pin.rs)

    A server is available only when its configured version and digest are the
    lock's and its artifact, an executable or an HTTP endpoint, has that digest.
    The theorems show what an available server is, that the text an endpoint is
    pinned by determines the endpoint, and where cleartext may go. *)

From S2P Require Import Prelude Text BTree ConfigModel ConfigValidate FileSystem.
From S2P Require Import ConfigLock McpPolicy.

(** ** HTTP endpoints *)

Record HttpIdentity : Type := {
  hi_scheme : string;
  hi_host : string;
  hi_port : N;
  hi_path : string;
  hi_loopback : bool;
}.

#[export] Instance HttpIdentity_eq_dec : EqDecision HttpIdentity.
Proof. solve_decision. Defined.

Definition AT : N := 64.
Definition SPACE : N := 32.

Definition loopback_host (host : string) : bool :=
  bool_decide (host = "127.0.0.1") || bool_decide (host = "localhost")
  || bool_decide (host = "::1").

(** The authority and the path of what follows the scheme. *)
Definition split_authority (rest : string) : string * string :=
  match split_once SLASH rest with
  | Some (authority, path) => (authority, "/" +:+ path)
  | None => (rest, "/")
  end.

(** The host and the port of an authority. *)
Definition parse_authority (scheme authority : string) : Result (string * N) McpError :=
  match rsplit_once COLON authority with
  | Some (host, port) =>
      let? port := ok_or (parse_uint u16_max port) invalid_configuration in
      Ok (to_ascii_lowercase host, port)
  | None =>
      Ok (to_ascii_lowercase authority, if bool_decide (scheme = "https") then 443%N else 80%N)
  end.

(** [HttpIdentity::parse] *)
Definition HttpIdentity_parse (url : string) : Result HttpIdentity McpError :=
  let? pair := ok_or (split_once_str "://" url) invalid_configuration in
  let '(scheme, rest) := pair in
  let scheme := to_ascii_lowercase scheme in
  let? _ := reject_if (negb (bool_decide (scheme = "http"))
                       && negb (bool_decide (scheme = "https"))) invalid_configuration in
  let '(authority, path) := split_authority rest in
  let? _ := reject_if (any_byte (is_byte AT) authority || is_empty authority)
              invalid_configuration in
  let? host_port := parse_authority scheme authority in
  let '(host, port) := host_port in
  let? _ := reject_if (is_empty host || any_byte (is_byte SPACE) host) invalid_configuration in
  let loopback := loopback_host host in
  let? _ := reject_if (bool_decide (scheme = "http") && negb loopback) invalid_configuration in
  Ok {| hi_scheme := scheme; hi_host := host; hi_port := port; hi_path := path;
        hi_loopback := loopback |}.

(** [HttpIdentity::pin_material] *)
Definition pin_material (self : HttpIdentity) : string :=
  hi_scheme self +:+ "://" +:+ hi_host self +:+ ":" +:+ decimal (hi_port self)
  +:+ hi_path self.

(** [HttpIdentity::allows_connection] *)
Definition allows_connection (self : HttpIdentity) : bool :=
  bool_decide (hi_scheme self = "https") || hi_loopback self.

(** [HttpIdentity::matches_redirect] *)
Definition matches_redirect (self : HttpIdentity) (location : string) : bool :=
  match HttpIdentity_parse location with
  | Ok other =>
      bool_decide (hi_scheme other = hi_scheme self)
      && bool_decide (hi_host other = hi_host self) && (hi_port other =? hi_port self)%N
  | Err _ => false
  end.

(** ** The registry *)

Record PinStatus : Type := {
  ps_server_id : string;
  ps_available : bool;
  ps_transport : McpTransport;
  ps_reason : option string;
}.

Definition require_available (status : PinStatus) : Result unit McpError :=
  if ps_available status then Ok tt
  else if bool_decide (ps_reason status = Some "pin mismatch") then Err pin_mismatch
  else Err unavailable.

Section registry.
Context `{FileSystem}.

Definition http_endpoint_sha256 (url : string) : Result string McpError :=
  let? identity := HttpIdentity_parse url in Ok (sha256_hex (pin_material identity)).

Definition canonicalize_mcp_executable (path : string) : Result string ConfigError :=
  canonicalize_executable "MCP executable" path.

Definition mcp_sha256_file (path : string) : Result string ConfigError :=
  sha256_file "MCP executable" path.

Definition verify_stdio_artifact (server : McpServer) : Result unit string :=
  let? path := ok_or (ms_executable server) "missing executable" in
  let? canonical := map_err (λ _, "unsafe path") (canonicalize_mcp_executable path) in
  let? digest := map_err (λ _, "missing artifact") (mcp_sha256_file canonical) in
  reject_if (negb (bool_decide (digest = ms_sha256 server))) "pin mismatch".

Definition verify_http_endpoint (server : McpServer) : Result unit string :=
  let? url := ok_or (ms_url server) "missing url" in
  let? identity := map_err (λ _, "invalid url") (HttpIdentity_parse url) in
  let digest := sha256_hex (pin_material identity) in
  let? _ := reject_if (negb (bool_decide (digest = ms_sha256 server))) "pin mismatch" in
  reject_if (negb (allows_connection identity)) "unsupported endpoint".

Definition verify_artifact (name : string) (server : McpServer) : PinStatus :=
  let verdict := match ms_transport server with
                 | MT_Stdio => verify_stdio_artifact server
                 | MT_Http => verify_http_endpoint server
                 end in
  match verdict with
  | Ok _ => {| ps_server_id := name; ps_available := true;
               ps_transport := ms_transport server; ps_reason := None |}
  | Err reason => {| ps_server_id := name; ps_available := false;
                     ps_transport := ms_transport server; ps_reason := Some reason |}
  end.

(** The status of one server: the body of the loop of [verify_registry]. *)
Definition server_status (lock : WorkbenchLock) (entry : string * McpServer) : PinStatus :=
  let '(name, server) := entry in
  match bt_get name (wl_mcps lock) with
  | None => {| ps_server_id := name; ps_available := false;
               ps_transport := ms_transport server; ps_reason := Some "missing lock pin" |}
  | Some pin =>
      if negb (bool_decide (lk_version pin = ms_version server))
         || negb (bool_decide (lk_sha256 pin = ms_sha256 server)) then
        {| ps_server_id := name; ps_available := false;
           ps_transport := ms_transport server; ps_reason := Some "pin mismatch" |}
      else verify_artifact name server
  end.

Definition verify_registry (servers : BTreeMap McpServer) (lock : WorkbenchLock)
    : Result (list PinStatus) McpError :=
  let? _ := map_err (λ _, invalid_configuration) (lock_verify lock) in
  Ok (List.map (server_status lock) servers).
End registry.

(** ** Lemmas *)

Lemma to_lower_byte_idem c : to_lower_byte (to_lower_byte c) = to_lower_byte c.
Proof. destruct c as [[] [] [] [] [] [] [] []]; reflexivity. Qed.

Lemma to_ascii_lowercase_idem s :
  to_ascii_lowercase (to_ascii_lowercase s) = to_ascii_lowercase s.
Proof. induction s; simpl; [done|]. by rewrite to_lower_byte_idem, IHs. Qed.

(** Folding case neither adds nor removes a byte that is not a letter. *)
Lemma to_lower_byte_is n c :
  (n < 65 ∨ (90 < n ∧ n < 97) ∨ 122 < n)%N → is_byte n (to_lower_byte c) = is_byte n c.
Proof.
  intros Hn. unfold to_lower_byte, is_ascii_uppercase, in_range. case_match; [|done].
  bool_to_prop. unfold is_byte, byte_of in *. rewrite N_ascii_embedding by lia.
  transitivity false; [apply N.eqb_neq; lia|symmetry; apply N.eqb_neq; lia].
Qed.

Lemma any_byte_lower n s :
  (n < 65 ∨ (90 < n ∧ n < 97) ∨ 122 < n)%N →
  any_byte (is_byte n) (to_ascii_lowercase s) = any_byte (is_byte n) s.
Proof. intros Hn. induction s; simpl; [done|]. by rewrite to_lower_byte_is, IHs. Qed.

Lemma any_byte_app p (a b : string) : any_byte p (a +:+ b) = any_byte p a || any_byte p b.
Proof.
  induction a as [|c a IH]; [done|]. rewrite string_app_cons. simpl. by rewrite IH, orb_assoc.
Qed.

Lemma split_once_app n (a b : string) c :
  is_byte n c = true → any_byte (is_byte n) a = false →
  split_once n (a +:+ String c b) = Some (a, b).
Proof.
  intros Hc. induction a as [|d a IH]; [simpl; by rewrite Hc|].
  rewrite string_app_cons. simpl. intros [-> Ha]%orb_false_iff. by rewrite IH.
Qed.

Lemma split_once_Some n s a b :
  split_once n s = Some (a, b) →
  any_byte (is_byte n) a = false ∧ (∀ p, any_byte p a = true → any_byte p s = true).
Proof.
  revert a. induction s as [|c s IH]; intros a; simpl; [done|].
  destruct (is_byte n c) eqn:Hc; [intros; by simplify_eq|].
  destruct (split_once n s) as [[a' b']|]; [|done]. intros; simplify_eq. simpl.
  destruct (IH a' eq_refl) as [Ha' Hp]. split; [by rewrite Hc|].
  intros p. rewrite !orb_true_iff. naive_solver.
Qed.

Lemma split_once_None n s : split_once n s = None → any_byte (is_byte n) s = false.
Proof. induction s; simpl; [done|]. repeat case_match; intros; simplify_eq; auto. Qed.

Lemma rsplit_once_None n s : any_byte (is_byte n) s = false → rsplit_once n s = None.
Proof. induction s; simpl; [done|]. intros [-> Hs]%orb_false_iff. by rewrite IHs. Qed.

Lemma rsplit_once_app n (a b : string) c :
  is_byte n c = true → any_byte (is_byte n) b = false →
  rsplit_once n (a +:+ String c b) = Some (a, b).
Proof.
  intros Hc Hb. induction a as [|d a IH].
  - simpl. by rewrite rsplit_once_None, Hc.
  - rewrite string_app_cons. simpl. by rewrite IH.
Qed.

Lemma rsplit_once_Some n s a b :
  rsplit_once n s = Some (a, b) → ∀ p, any_byte p a = true → any_byte p s = true.
Proof.
  revert a. induction s as [|c s IH]; intros a; simpl; [done|].
  destruct (rsplit_once n s) as [[a' b']|]; [|case_match; [by intros [= <- <-]|done]].
  intros [= <- <-] p. simpl. rewrite !orb_true_iff. naive_solver.
Qed.

Lemma all_digits_no_byte n s :
  (n < 48 ∨ 57 < n)%N → all_bytes is_ascii_digit s = true → any_byte (is_byte n) s = false.
Proof.
  intros Hn. induction s; simpl; [done|]. intros [Ha Hs]%andb_true_iff. rewrite IHs by done.
  unfold is_ascii_digit, in_range, is_byte in *. bool_to_prop.
  apply orb_false_iff. split; [apply N.eqb_neq; lia|done].
Qed.

(** What every parsed endpoint satisfies. *)
Record identity_ok (i : HttpIdentity) : Prop := {
  io_scheme : hi_scheme i = "http" ∨ hi_scheme i = "https";
  io_host : hi_host i ≠ EmptyString;
  io_lower : to_ascii_lowercase (hi_host i) = hi_host i;
  io_slash : any_byte (is_byte SLASH) (hi_host i) = false;
  io_at : any_byte (is_byte AT) (hi_host i) = false;
  io_space : any_byte (is_byte SPACE) (hi_host i) = false;
  io_port : (hi_port i ≤ u16_max)%N;
  io_path : ∃ p, hi_path i = "/" +:+ p;
  io_loopback : hi_loopback i = loopback_host (hi_host i);
  io_cleartext : hi_scheme i = "http" → hi_loopback i = true;
}.

Lemma parse_authority_Ok scheme authority host port :
  parse_authority scheme authority = Ok (host, port) →
  to_ascii_lowercase host = host ∧ (port ≤ u16_max)%N ∧
  (∀ n, (n < 65 ∨ (90 < n ∧ n < 97) ∨ 122 < n)%N →
     any_byte (is_byte n) authority = false → any_byte (is_byte n) host = false).
Proof.
  unfold parse_authority. destruct (rsplit_once COLON authority) as [[h p]|] eqn:Hr; intros Hp.
  - break_results. simplify_eq.
    match goal with H : ok_or _ _ = Ok _ |- _ => apply ok_or_Ok in H; apply parse_uint_bound in H end.
    split_and!; [apply to_ascii_lowercase_idem|done|]. intros n Hn Ha.
    rewrite any_byte_lower by done. destruct (any_byte (is_byte n) h) eqn:Hh; [|done].
    by rewrite (rsplit_once_Some _ _ _ _ Hr _ Hh) in Ha.
  - simplify_eq. split_and!; [apply to_ascii_lowercase_idem|unfold u16_max; case_match; lia|].
    intros n Hn Ha. by rewrite any_byte_lower.
Qed.

Lemma HttpIdentity_parse_ok url i : HttpIdentity_parse url = Ok i → identity_ok i.
Proof.
  unfold HttpIdentity_parse. intros Hp. break_results.
  match goal with p : (string * string)%type |- _ => destruct p as [scheme rest] end.
  set (ap := split_authority rest) in Hp.
  assert (Hap : any_byte (is_byte SLASH) ap.1 = false ∧ ∃ p, ap.2 = "/" +:+ p).
  { unfold ap, split_authority. destruct (split_once SLASH rest) as [[a p]|] eqn:Hs; simpl.
    - apply split_once_Some in Hs as [Ha _]. eauto.
    - apply split_once_None in Hs. split; [done|]. by exists EmptyString. }
  clearbody ap. destruct ap as [authority path]. destruct Hap as [Hslash Hpath].
  break_results. destruct_and?.
  match goal with p : (string * N)%type |- _ => destruct p as [host port] end.
  break_results. simplify_eq.
  match goal with H : parse_authority _ _ = _ |- _ =>
    apply parse_authority_Ok in H as (Hlow & Hport & Hbytes) end.
  bool_to_prop. simpl in *. split; simpl; try done.
  - match goal with H : negb (bool_decide _) = false ∨ _ |- _ => destruct H end;
      bool_to_prop; auto.
  - by apply is_empty_false.
  - apply Hbytes; [|done]. unfold SLASH. lia.
  - apply Hbytes; [|done]. unfold AT. lia.
  - intros Hs. rewrite Hs in *.
    match goal with H : bool_decide _ = false ∨ _ |- _ => destruct H; by bool_to_prop end.
Qed.

Lemma split_scheme (i : HttpIdentity) (rest : string) :
  hi_scheme i = "http" ∨ hi_scheme i = "https" →
  split_once_str "://" (hi_scheme i +:+ "://" +:+ rest) = Some (hi_scheme i, rest).
Proof. by intros [-> | ->]. Qed.

(** Parsing the text an endpoint is pinned by gives the endpoint back. *)
Lemma pin_material_parse i : identity_ok i → HttpIdentity_parse (pin_material i) = Ok i.
Proof.
  intros [Hscheme Hhost Hlow Hslash Hat Hspace Hport [p Hpath] Hloop Hclear].
  destruct (decimal_spec (hi_port i)) as (_ & Hdig & _); [unfold u16_max, u64_max in *; lia|].
  assert (Hnodig : ∀ n, (n < 48 ∨ 57 < n)%N → any_byte (is_byte n) (decimal (hi_port i)) = false)
    by (intros; by apply all_digits_no_byte).
  unfold HttpIdentity_parse, pin_material. rewrite split_scheme by done. cbn [ok_or].
  assert (to_ascii_lowercase (hi_scheme i) = hi_scheme i) as -> by (by destruct Hscheme as [-> | ->]).
  assert (negb (bool_decide (hi_scheme i = "http")) && negb (bool_decide (hi_scheme i = "https"))
          = false) as -> by (by destruct Hscheme as [-> | ->]).
  cbn [reject_if]. rewrite Hpath.
  assert (hi_host i +:+ ":" +:+ decimal (hi_port i) +:+ "/" +:+ p =
          (hi_host i +:+ ":" +:+ decimal (hi_port i)) +:+ String "/" p) as ->
    by (by rewrite !string_app_assoc).
  unfold split_authority. rewrite split_once_app; [|done|].
  2: { rewrite !any_byte_app, Hslash, Hnodig by (unfold SLASH; lia). done. }
  rewrite !any_byte_app, Hat, Hnodig by (unfold AT; lia).
  assert (is_empty (hi_host i +:+ ":" +:+ decimal (hi_port i)) = false) as ->
    by (by destruct (hi_host i)).
  change (any_byte (is_byte AT) ":") with false. cbn [orb reject_if].
  unfold parse_authority.
  change (hi_host i +:+ ":" +:+ decimal (hi_port i))
    with (hi_host i +:+ String ":" (decimal (hi_port i))).
  rewrite rsplit_once_app; [|done|apply Hnodig; unfold COLON; lia].
  rewrite parse_uint_decimal by (unfold u16_max, u64_max in *; lia). cbn [ok_or].
  rewrite Hlow, Hspace, (proj2 (is_empty_false _) Hhost), <-Hloop. cbn [orb reject_if].
  assert (bool_decide (hi_scheme i = "http") && negb (hi_loopback i) = false) as ->.
  { destruct (bool_decide _) eqn:Hb; [|done]. bool_to_prop. by rewrite Hclear. }
  cbn [reject_if]. rewrite <-Hpath. by destruct i.
Qed.

Lemma allows_connection_ok i : identity_ok i → allows_connection i = true.
Proof.
  intros Hi. unfold allows_connection. destruct (io_scheme i Hi) as [Hs| ->]; [|done].
  rewrite (io_cleartext i Hi Hs). apply orb_true_r.
Qed.

(** An endpoint of a server and the digest it is pinned by. *)
Definition pinned_endpoint `{FileSystem} (url digest : string) (i : HttpIdentity) : Prop :=
  HttpIdentity_parse url = Ok i ∧ sha256_hex (pin_material i) = digest.

(** ** Properties *)

(** Endpoints are safe by construction: a URL that parses names http or https,
    cleartext only towards a loopback host, a non-empty lower-case host without
    user information, and so is always one the client may connect to; a redirect
    that is followed stays on the same scheme, host and port, in particular
    never leaves TLS or the loopback. *)
Theorem http_identity_safe url i :
  HttpIdentity_parse url = Ok i →
  allows_connection i = true ∧
  (hi_scheme i = "https" ∨
   hi_scheme i = "http" ∧ hi_host i ∈ ["127.0.0.1"; "localhost"; "::1"]) ∧
  (hi_host i ≠ EmptyString ∧ any_byte (is_byte AT) (hi_host i) = false ∧
   (hi_port i ≤ u16_max)%N) ∧
  (∀ location, matches_redirect i location = true →
     ∃ j, HttpIdentity_parse location = Ok j ∧
       hi_scheme j = hi_scheme i ∧ hi_host j = hi_host i ∧ hi_port j = hi_port i).
Proof.
  intros Hp. pose proof (HttpIdentity_parse_ok _ _ Hp) as Hi. split_and!.
  - by apply allows_connection_ok.
  - destruct (io_scheme i Hi) as [Hs|]; [right|by left]. split; [done|].
    pose proof (io_cleartext i Hi Hs) as Hl. rewrite (io_loopback i Hi) in Hl.
    unfold loopback_host in Hl. bool_to_prop.
    destruct Hl as [Hl|Hl]; bool_to_prop; [destruct Hl; bool_to_prop|]; set_solver.
  - apply Hi.
  - apply Hi.
  - apply Hi.
  - intros location. unfold matches_redirect.
    destruct (HttpIdentity_parse location) as [j|]; [|done]. intros. bool_to_prop. eauto.
Qed.

Definition sample_endpoint : HttpIdentity :=
  {| hi_scheme := "http"; hi_host := "localhost"; hi_port := 8080; hi_path := "/mcp";
     hi_loopback := true |}.

Lemma http_identity_safe_witness : allows_connection sample_endpoint = true.
Proof. apply (http_identity_safe "HTTP://LocalHost:+8080/mcp"). vm_compute. reflexivity. Defined.

(** The text an endpoint is pinned by determines the endpoint: parsing it gives
    the same endpoint, so two URLs are pinned by the same text exactly when they
    name the same scheme, host, port and path. *)
Theorem pin_material_injective url1 url2 i1 i2 :
  HttpIdentity_parse url1 = Ok i1 → HttpIdentity_parse url2 = Ok i2 →
  HttpIdentity_parse (pin_material i1) = Ok i1 ∧
  (pin_material i1 = pin_material i2 ↔ i1 = i2).
Proof.
  intros Hi1%HttpIdentity_parse_ok Hi2%HttpIdentity_parse_ok.
  apply pin_material_parse in Hi1, Hi2. split; [done|]. split; [|by intros ->].
  intros Heq. rewrite Heq in Hi1. congruence.
Qed.

Lemma pin_material_injective_witness :
  HttpIdentity_parse (pin_material sample_endpoint) = Ok sample_endpoint.
Proof.
  apply (pin_material_injective "http://localhost:8080/mcp" "http://localhost:8080/mcp"
           sample_endpoint sample_endpoint); vm_compute; reflexivity.
Defined.

(** An available server is the pinned one: verification reports one status per
    configured server, in order, and a server is reported available only when the
    lock is sound and pins the configured version and digest, and the artifact
    has that digest: a safe executable for a stdio server, an endpoint for an
    HTTP server. *)
Theorem verify_registry_spec `{FileSystem} servers lock statuses :
  verify_registry servers lock = Ok statuses →
  lock_verify lock = Ok tt ∧
  Forall2 (λ entry status,
    ps_server_id status = entry.1 ∧ ps_transport status = ms_transport entry.2 ∧
    (ps_available status = true →
       (∃ pin, bt_get entry.1 (wl_mcps lock) = Some pin ∧
          lk_version pin = ms_version entry.2 ∧ lk_sha256 pin = ms_sha256 entry.2) ∧
       match ms_transport entry.2 with
       | MT_Stdio => ∃ path, ms_executable entry.2 = Some path ∧
                       safe_executable path (ms_sha256 entry.2)
       | MT_Http => ∃ url i, ms_url entry.2 = Some url ∧
                      pinned_endpoint url (ms_sha256 entry.2) i
       end)) servers statuses.
Proof.
  unfold verify_registry. intros Hv. break_results. simplify_eq.
  match goal with H : map_err _ _ = Ok _ |- _ => apply map_err_Ok in H as Hlock end.
  split; [done|]. apply Forall2_fmap_r, Forall_Forall2_diag, Forall_forall.
  intros [name server] _. simpl.
  destruct (bt_get name (wl_mcps lock)) as [pin|] eqn:Hpin; [|done].
  case_match eqn:Hne; [done|]. bool_to_prop.
  unfold verify_artifact. destruct (ms_transport server) eqn:Ht;
    case_match eqn:Hverdict; try done; simpl; (split_and!; [done..|]); intros _;
    (split; [by eauto|]).
  - unfold verify_stdio_artifact in Hverdict. break_results. bool_to_prop.
    repeat match goal with
      | H : ok_or _ _ = Ok _ |- _ => apply ok_or_Ok in H
      | H : map_err _ _ = Ok _ |- _ => apply map_err_Ok in H end. subst.
    eexists. split; [done|]. by eapply canonicalize_executable_Ok.
  - unfold verify_http_endpoint in Hverdict. break_results. bool_to_prop.
    repeat match goal with
      | H : ok_or _ _ = Ok _ |- _ => apply ok_or_Ok in H
      | H : map_err _ _ = Ok _ |- _ => apply map_err_Ok in H end.
    unfold pinned_endpoint. eauto.
Qed.

Definition search_server : McpServer :=
  {| ms_transport := MT_Stdio; ms_version := "1"; ms_sha256 := zeros;
     ms_executable := Some "/bin/agent"; ms_args := []; ms_env := []; ms_url := None;
     ms_headers := []; ms_max_response_bytes := None |}.

Definition search_lock : WorkbenchLock :=
  {| wl_version := 1; wl_scope := LS_Repository; wl_base_lock_hash := None;
     wl_configuration := locked_configuration agent_snapshot;
     wl_protocol := {| lp_major := 1; lp_minor := 0 |}; wl_adapters := []; wl_models := [];
     wl_mcps := [("search", {| lk_version := "1"; lk_sha256 := zeros |})] |}.

Lemma verify_registry_spec_witness :
  Forall2 (λ entry status, ps_available status = true →
    ∃ path, ms_executable entry.2 = Some path ∧
      @safe_executable plain_machine path (ms_sha256 entry.2))
    [("search", search_server)]
    [{| ps_server_id := "search"; ps_available := true; ps_transport := MT_Stdio;
        ps_reason := None |}].
Proof.
  assert (Hr : @verify_registry plain_machine [("search", search_server)] search_lock =
    Ok [{| ps_server_id := "search"; ps_available := true; ps_transport := MT_Stdio;
           ps_reason := None |}]) by (vm_compute; reflexivity).
  pose proof (proj2 (@verify_registry_spec plain_machine _ _ _ Hr)) as Hall.
  inversion Hall as [|x y l l' Hxy Hnil]. constructor; [|constructor].
  intros Ha. apply (proj2 (proj2 (proj2 Hxy) Ha)).
Defined.
