(* ===== verification/McpGateway.v ===== *)
(** * McpGateway: governed tool calls (workbench-mcp/src/gateway.rs, redaction.rs,
      and the pool and client of stdio.rs and http.rs)

    [invoke] is one call of the gateway: policy and approval gate, pin, dispatch
    and outcome. The answers of the child process or of the endpoint are arguments
    of the call. The log of the gateway interleaves the audit facts it records
    with the processes it starts and the requests it sends, so that the theorems
    can speak about their order; the audit of the source is its projection on
    facts. An attempt identifier is printed by the uuid crate. *)

From S2P Require Import Prelude Text BTree Errors Attempt Policy Json ConfigModel FileSystem.
From S2P Require Import ConfigLock McpPolicy McpPin.

(** ** Public events *)

Inductive ToolLifecycle : Type :=
| TL_Planned | TL_Allowed | TL_Denied | TL_ApprovalRequired | TL_Approved | TL_Started
| TL_Succeeded | TL_Failed | TL_Cancelled | TL_OutcomeUnknown.

#[export] Instance ToolLifecycle_eq_dec : EqDecision ToolLifecycle.
Proof. solve_decision. Defined.

Record PublicToolEvent : Type := {
  pe_tool_name : string;
  pe_lifecycle : ToolLifecycle;
  pe_outcome : string;
  pe_attempt_id : string;
  pe_correlation_id : string;
  pe_policy_source : option string;
  pe_error_kind : option string;
}.

(** [PublicToolEvent::new] *)
Definition PublicToolEvent_new (tool_name : string) (lifecycle : ToolLifecycle)
    (outcome attempt_id correlation_id : string) : PublicToolEvent :=
  {| pe_tool_name := tool_name; pe_lifecycle := lifecycle; pe_outcome := outcome;
     pe_attempt_id := attempt_id; pe_correlation_id := correlation_id;
     pe_policy_source := None; pe_error_kind := None |}.

Definition policy_source_name (source : PolicySource) : string :=
  match source with
  | PS_BuiltIn => "built_in" | PS_User => "user" | PS_Repository => "repository"
  | PS_Session => "session" | PS_Role => "role" | PS_Workflow => "workflow"
  | PS_EffectClass => "effect_class"
  end.

Definition error_kind_name (kind : McpErrorKind) : string :=
  match kind with
  | ME_InvalidConfiguration => "invalid_configuration" | ME_PinMismatch => "pin_mismatch"
  | ME_Unavailable => "unavailable" | ME_PolicyDenied => "policy_denied"
  | ME_ApprovalRequired => "approval_required" | ME_ApprovalDenied => "approval_denied"
  | ME_TransportFailed => "transport_failed" | ME_ResponseTooLarge => "response_too_large"
  | ME_RedirectRejected => "redirect_rejected" | ME_Timeout => "timeout"
  | ME_Cancelled => "cancelled" | ME_OutcomeUnknown => "outcome_unknown"
  | ME_ShuttingDown => "shutting_down" | ME_ReapFailed => "reap_failed"
  | ME_Internal => "internal"
  end.

Definition with_policy_source (source : PolicySource) (e : PublicToolEvent) : PublicToolEvent :=
  {| pe_tool_name := pe_tool_name e; pe_lifecycle := pe_lifecycle e;
     pe_outcome := pe_outcome e; pe_attempt_id := pe_attempt_id e;
     pe_correlation_id := pe_correlation_id e;
     pe_policy_source := Some (policy_source_name source);
     pe_error_kind := pe_error_kind e |}.

Definition with_error_kind (kind : McpErrorKind) (e : PublicToolEvent) : PublicToolEvent :=
  {| pe_tool_name := pe_tool_name e; pe_lifecycle := pe_lifecycle e;
     pe_outcome := pe_outcome e; pe_attempt_id := pe_attempt_id e;
     pe_correlation_id := pe_correlation_id e;
     pe_policy_source := pe_policy_source e;
     pe_error_kind := Some (error_kind_name kind) |}.

Definition sensitive_key (key : string) : bool :=
  set_contains key ["arguments"; "result"; "env"; "headers"; "executable"; "url"; "token";
                    "password"; "secret"; "credential"; "credential_ref"].

(** [scrub_value], returning the new value. *)
Fixpoint scrub_value (value : Value) : Value :=
  match value with
  | VObject entries =>
      VObject (List.map (λ e, (fst e, if sensitive_key (fst e) then VString "[redacted]"
                                      else scrub_value (snd e))) entries)
  | VArray items => VArray (List.map scrub_value items)
  | value => value
  end.

(** ** The gateway *)

Record ToolAuditFact : Type := {
  ta_event : PublicToolEvent;
  ta_transport : option string;
}.

Record ToolInvokeRequest : Type := {
  rq_tool_id : string;
  rq_operation : string;
  rq_role_id : option string;
  rq_workflow_id : option string;
  rq_workflow_step_id : option string;
  rq_session_denied : list string;
  rq_approval_granted : option bool;
  rq_arguments : Value;
  rq_correlation_id : string;
  rq_simulate_cancel_after_start : bool;
  rq_simulate_pre_start_failure : bool;
  rq_simulate_post_start_crash : bool;
}.

Record ToolInvokeOutcome : Type := {
  to_attempt_id : Uuid;
  to_progress : AttemptProgress;
  to_public : PublicToolEvent;
  to_content : option Value;
  to_retried : bool;
}.

(** What the gateway does, in order. *)
Inductive GatewayEvent : Type :=
| GE_Audited (fact : ToolAuditFact)
| GE_Spawned (workspace_key server_id : string)
| GE_Called (transport : McpTransport) (server_id operation : string) (arguments : Value).

Record McpGateway : Type := {
  gw_config : WorkbenchConfiguration;
  gw_pins : BTreeMap PinStatus;
  gw_workspace_key : string;
  gw_children : list (string * string);
  gw_log : list GatewayEvent;
  gw_shutting_down : bool;
}.

Definition log (g : McpGateway) (event : GatewayEvent) : McpGateway :=
  {| gw_config := gw_config g; gw_pins := gw_pins g; gw_workspace_key := gw_workspace_key g;
     gw_children := gw_children g; gw_log := gw_log g ++ [event];
     gw_shutting_down := gw_shutting_down g |}.

Definition push_audit (g : McpGateway) (event : PublicToolEvent) (transport : option string)
    : McpGateway :=
  log g (GE_Audited {| ta_event := event; ta_transport := transport |}).

Definition set_children (g : McpGateway) (children : list (string * string)) : McpGateway :=
  {| gw_config := gw_config g; gw_pins := gw_pins g; gw_workspace_key := gw_workspace_key g;
     gw_children := children; gw_log := gw_log g; gw_shutting_down := gw_shutting_down g |}.

(** [audit_log] *)
Definition audit_log (g : McpGateway) : list ToolAuditFact :=
  omap (λ e, match e with GE_Audited fact => Some fact | _ => None end) (gw_log g).

Definition server_available (g : McpGateway) (server_id : string) : bool :=
  match bt_get server_id (gw_pins g) with Some status => ps_available status | None => false end.

Definition transport_name (transport : McpTransport) : string :=
  match transport with MT_Stdio => "stdio" | MT_Http => "http" end.

(** What the outside answers to one call: the start of a child process and the
    reply to the request. *)
Record Answers : Type := {
  an_spawn : Result unit McpError;
  an_reply : Result Value McpError;
}.

(** [StdioPool::get_or_spawn] *)
Definition get_or_spawn (g : McpGateway) (server_id : string) (spawn : Result unit McpError)
    : McpGateway * Result unit McpError :=
  let key := (gw_workspace_key g, server_id) in
  if decide (key ∈ gw_children g) then (g, Ok tt)
  else match spawn with
  | Err e => (g, Err e)
  | Ok _ => (log (set_children g (key :: gw_children g))
               (GE_Spawned (gw_workspace_key g) server_id), Ok tt)
  end.

(** [StdioPool::invoke] *)
Definition stdio_invoke (g : McpGateway) (server_id operation : string) (arguments : Value)
    (reply : Result Value McpError) : McpGateway * Result Value McpError :=
  if decide ((gw_workspace_key g, server_id) ∈ gw_children g) then
    (log g (GE_Called MT_Stdio server_id operation arguments), reply)
  else (g, Err unavailable).

(** [HttpMcpClient::invoke] up to the exchange with the endpoint. *)
Definition http_invoke (g : McpGateway) (server_id : string) (server : McpServer)
    (operation : string) (arguments : Value) (reply : Result Value McpError)
    : McpGateway * Result Value McpError :=
  match ms_url server with
  | None => (g, Err unavailable)
  | Some url =>
      match HttpIdentity_parse url with
      | Err e => (g, Err e)
      | Ok endpoint =>
          if negb (allows_connection endpoint) then (g, Err unavailable)
          else (log g (GE_Called MT_Http server_id operation arguments), reply)
      end
  end.

Section gateway.
Context (uuid_text : Uuid → string).

(** An event of the attempt of a request. *)
Definition tool_event (request : ToolInvokeRequest) (attempt : Attempt)
    (lifecycle : ToolLifecycle) (outcome : string) : PublicToolEvent :=
  PublicToolEvent_new (rq_tool_id request) lifecycle outcome (uuid_text (at_id attempt))
    (rq_correlation_id request).

(** The exchange with the server, after the start has been recorded. *)
Definition exchange (g : McpGateway) (attempt : Attempt) (request : ToolInvokeRequest)
    (server_id : string) (server : McpServer) (answers : Answers)
    : McpGateway * Attempt * Result Value McpError :=
  if rq_simulate_cancel_after_start request || rq_simulate_post_start_crash request then
    (g, (mark_outcome_unknown attempt).1, Err outcome_unknown)
  else match ms_transport server with
  | MT_Stdio =>
      match get_or_spawn g server_id (an_spawn answers) with
      | (g, Err e) => (g, attempt, Err e)
      | (g, Ok _) =>
          let '(g, reply) := stdio_invoke g server_id (rq_operation request)
                               (rq_arguments request) (an_reply answers) in
          (g, attempt, reply)
      end
  | MT_Http =>
      let '(g, reply) := http_invoke g server_id server (rq_operation request)
                           (rq_arguments request) (an_reply answers) in
      (g, attempt, reply)
  end.

Definition dispatch_transport (g : McpGateway) (attempt : Attempt) (request : ToolInvokeRequest)
    (server_id : string) (server : McpServer) (record_start : bool) (answers : Answers)
    : McpGateway * Attempt * Result Value McpError :=
  if record_start then
    match mark_started attempt with
    | (attempt, Err _) => (g, attempt, Err invalid_configuration)
    | (attempt, Ok _) =>
        exchange (push_audit g (tool_event request attempt TL_Started "started")
                    (Some (transport_name (ms_transport server))))
          attempt request server_id server answers
    end
  else exchange g attempt request server_id server answers.

Definition finish_outcome (g : McpGateway) (attempt : Attempt) (request : ToolInvokeRequest)
    (content : Result Value McpError) (retried : bool)
    : McpGateway * Result ToolInvokeOutcome McpError :=
  match content with
  | Ok value =>
      let attempt := if decide (at_progress attempt = AP_Planned)
                     then (mark_started attempt).1 else attempt in
      let attempt := (mark_completed attempt).1 in
      let public := tool_event request attempt TL_Succeeded "ok" in
      (push_audit g public None,
       Ok {| to_attempt_id := at_id attempt; to_progress := at_progress attempt;
             to_public := public; to_content := Some value; to_retried := retried |})
  | Err error =>
      let unknown := bool_decide (me_kind error = ME_OutcomeUnknown) in
      let '(attempt, lifecycle) :=
        if unknown then ((mark_outcome_unknown attempt).1, TL_OutcomeUnknown)
        else
          let progress := at_progress attempt in
          (if bool_decide (progress = AP_Planned)
              || (dispatch_started progress && negb (is_definite_terminal progress))
           then (mark_failed attempt).1 else attempt, TL_Failed) in
      let public := with_error_kind (me_kind error)
                      (tool_event request attempt lifecycle (me_message error)) in
      let g := push_audit g public None in
      (g, if unknown then
            Ok {| to_attempt_id := at_id attempt; to_progress := AP_OutcomeUnknown;
                  to_public := public; to_content := None; to_retried := retried |}
          else Err error)
  end.

Definition policy_context (g : McpGateway) (request : ToolInvokeRequest) : ToolPolicyContext :=
  {| tc_config := gw_config g; tc_tool_id := rq_tool_id request;
     tc_operation := rq_operation request; tc_role_id := rq_role_id request;
     tc_workflow_id := rq_workflow_id request;
     tc_workflow_step_id := rq_workflow_step_id request;
     tc_session_denied := rq_session_denied request |}.

(** The part of [invoke] after the gate: pin, dispatch and outcome. *)
Definition invoke_server (g : McpGateway) (attempt : Attempt) (request : ToolInvokeRequest)
    (access : ResolvedToolAccess) (answers : Answers)
    : McpGateway * Result ToolInvokeOutcome McpError :=
  let failed (error : McpError) :=
    (push_audit g (with_error_kind (me_kind error)
       (tool_event request attempt TL_Failed (me_message error))) None, Err error) in
  if decide (ra_tool_kind access ≠ TK_Mcp) then (g, Err policy_denied)
  else match ra_mcp_server access with
  | None => (g, Err unavailable)
  | Some server_id =>
      match bt_get server_id (gw_pins g) with
      | None => (g, Err unavailable)
      | Some pin =>
          match require_available pin with
          | Err error => failed error
          | Ok _ =>
              match bt_get server_id (cf_mcp_servers (gw_config g)) with
              | None => (g, Err unavailable)
              | Some server =>
                  if rq_simulate_pre_start_failure request then
                    if may_retry_automatically attempt then
                      let '(g, attempt, content) :=
                        dispatch_transport g attempt request server_id server false answers in
                      finish_outcome g attempt request content true
                    else failed unavailable
                  else
                    let '(g, attempt, content) :=
                      dispatch_transport g attempt request server_id server true answers in
                    finish_outcome g attempt request content false
              end
          end
      end
  end.

(** The lifecycle recorded for an error of the gate. *)
Definition gate_lifecycle (kind : McpErrorKind) : ToolLifecycle :=
  match kind with
  | ME_ApprovalRequired => TL_ApprovalRequired
  | ME_ApprovalDenied | ME_PolicyDenied => TL_Denied
  | _ => TL_Failed
  end.

(** [McpGateway::invoke]; [fresh] is the identifier the attempt draws. *)
Definition invoke (g : McpGateway) (request : ToolInvokeRequest) (fresh : Uuid)
    (answers : Answers) : McpGateway * Result ToolInvokeOutcome McpError :=
  if gw_shutting_down g then (g, Err shutting_down)
  else match resolve_mcp_tool_access (policy_context g request) with
  | Err error => (g, Err error)
  | Ok access =>
      match plan (rq_operation request) (ra_operation access) fresh with
      | Err _ => (g, Err invalid_configuration)
      | Ok attempt =>
          let source := pd_authoritative_source (ra_decision access) in
          let g := push_audit g (with_policy_source source
                     (tool_event request attempt TL_Planned "planned")) None in
          match gate_before_transport access (rq_approval_granted request) with
          | Err error =>
              (push_audit g (with_error_kind (me_kind error) (with_policy_source source
                 (tool_event request attempt (gate_lifecycle (me_kind error))
                    (me_message error)))) None, Err error)
          | Ok _ => invoke_server g attempt request access answers
          end
      end
  end.
End gateway.

(** [McpGateway::bootstrap]; no child process is started. *)
Definition bootstrap `{FileSystem} (config : WorkbenchConfiguration) (lock : WorkbenchLock)
    (workspace_key : string) : Result McpGateway McpError :=
  let? statuses := verify_registry (cf_mcp_servers config) lock in
  Ok {| gw_config := config;
        gw_pins := bt_from_list (List.map (λ status, (ps_server_id status, status)) statuses);
        gw_workspace_key := workspace_key; gw_children := []; gw_log := [];
        gw_shutting_down := false |}.

(** [McpGateway::ensure_stdio] *)
Definition ensure_stdio (g : McpGateway) (server_id : string) (spawn : Result unit McpError)
    : McpGateway * Result unit McpError :=
  match bt_get server_id (cf_mcp_servers (gw_config g)), bt_get server_id (gw_pins g) with
  | Some server, Some pin =>
      match require_available pin with
      | Ok _ => get_or_spawn g server_id spawn
      | Err e => (g, Err e)
      end
  | _, _ => (g, Err unavailable)
  end.

(** [StdioPool::shutdown]: the selected children are removed and reaped one by
    one; [reaped] is the outside's answer for each. *)
Definition pool_shutdown (children : list (string * string)) (workspace_key : option string)
    (reaped : string * string → bool) : list (string * string) * Result unit McpError :=
  let selected (key : string * string) :=
    match workspace_key with Some filter => bool_decide (key.1 = filter) | None => true end in
  let keys := List.filter selected children in
  (List.filter (λ key, negb (selected key)) children,
   if existsb (λ key, negb (reaped key)) keys then Err reap_failed else Ok tt).

(** [McpGateway::shutdown] and [McpGateway::shutdown_workspace] *)
Definition shutdown_children (g : McpGateway) (workspace_key : option string)
    (reaped : string * string → bool) : McpGateway * Result unit McpError :=
  let '(children, result) := pool_shutdown (gw_children g) workspace_key reaped in
  ({| gw_config := gw_config g; gw_pins := gw_pins g; gw_workspace_key := gw_workspace_key g;
      gw_children := children; gw_log := gw_log g; gw_shutting_down := true |}, result).

Definition shutdown (g : McpGateway) (reaped : string * string → bool)
    : McpGateway * Result unit McpError :=
  shutdown_children g None reaped.

Definition shutdown_workspace (g : McpGateway) (reaped : string * string → bool)
    : McpGateway * Result unit McpError :=
  shutdown_children g (Some (gw_workspace_key g)) reaped.

(** ** Specification *)

(** A step that reaches outside the process. *)
Definition is_effect (e : GatewayEvent) : bool :=
  match e with GE_Audited _ => false | _ => true end.

Definition audited_as (lifecycle : ToolLifecycle) (e : GatewayEvent) : Prop :=
  ∃ fact, e = GE_Audited fact ∧ pe_lifecycle (ta_event fact) = lifecycle.

(** What a dispatch to a server may do: start its child when it is a stdio server
    without one, and send it the request, once. *)
Definition dispatch_effects (g : McpGateway) (request : ToolInvokeRequest)
    (server_id : string) : list (list GatewayEvent) :=
  let called transport :=
    GE_Called transport server_id (rq_operation request) (rq_arguments request) in
  let spawned := GE_Spawned (gw_workspace_key g) server_id in
  [[]; [spawned]; [spawned; called MT_Stdio]; [called MT_Stdio]; [called MT_Http]].

(** The gate, the pin and the configuration let a request reach a server. *)
Definition governed (g : McpGateway) (request : ToolInvokeRequest) (server_id : string) : Prop :=
  gw_shutting_down g = false ∧
  permitted (policy_context g request) ∧
  (∃ tool o, mcp_tool (gw_config g) (rq_tool_id request) = Some tool ∧
     tool_operation tool (rq_operation request) = Some o ∧
     tl_mcp_server tool = Some server_id ∧
     (unattended (policy_context g request) o ∨ rq_approval_granted request = Some true)) ∧
  server_available g server_id = true ∧
  is_Some (bt_get server_id (cf_mcp_servers (gw_config g))).

(** The operation of the request is declared an idempotent read without cost. *)
Definition idempotent_read (g : McpGateway) (request : ToolInvokeRequest) : Prop :=
  ∃ tool o, mcp_tool (gw_config g) (rq_tool_id request) = Some tool ∧
    tool_operation tool (rq_operation request) = Some o ∧
    op_effect_class o = CE_IdempotentRead ∧ op_idempotent o = true ∧
    op_material_cost o = false.

(** The terminal fact of a dispatched attempt agrees with the result returned. *)
Definition terminal_agrees (finished : GatewayEvent)
    (result : Result ToolInvokeOutcome McpError) : Prop :=
  match result with
  | Ok o =>
      finished = GE_Audited {| ta_event := to_public o; ta_transport := None |} ∧
      (pe_lifecycle (to_public o) = TL_Succeeded ∧ to_progress o = AP_Completed ∧
         is_Some (to_content o) ∨
       pe_lifecycle (to_public o) = TL_OutcomeUnknown ∧ to_progress o = AP_OutcomeUnknown ∧
         to_content o = None)
  | Err e => audited_as TL_Failed finished ∧ me_kind e ≠ ME_OutcomeUnknown
  end.

(** ** Lemmas *)

(** What an exchange does to the gateway: nothing but extending the log and
    remembering a child it started. *)
Lemma exchange_log g attempt request server_id server answers :
  let '(g', attempt', content) := exchange g attempt request server_id server answers in
  ∃ effects, gw_log g' = gw_log g ++ effects ∧
    effects ∈ dispatch_effects g request server_id ∧
    (∀ v, content = Ok v → attempt' = attempt).
Proof.
  unfold exchange. destruct (_ || _); [exists []; rewrite app_nil_r; split_and!; [done|left|done]|].
  destruct (ms_transport server).
  - unfold get_or_spawn, stdio_invoke. case_decide as Hin.
    + rewrite decide_True by done. eexists. split_and!; [done| |done]. set_solver.
    + destruct (an_spawn answers); simpl.
      * rewrite decide_True by left. eexists [_; _].
        split_and!; [simpl; by rewrite <-app_assoc| |done]. set_solver.
      * exists []. rewrite app_nil_r. split_and!; [done|left|done].
  - unfold http_invoke. destruct (ms_url server) as [url|];
      [destruct (HttpIdentity_parse url) as [i|]; [destruct (negb _)|]|];
      first [ eexists [_]; split_and!; [done| |done]; set_solver
            | exists []; rewrite app_nil_r; split_and!; [done|left|done] ].
Qed.

Lemma dispatch_transport_log text g attempt request server_id server record_start answers :
  at_progress attempt = AP_Planned →
  let '(g', attempt', content) :=
    dispatch_transport text g attempt request server_id server record_start answers in
  ∃ started effects,
    gw_log g' = gw_log g ++ started ++ effects ∧
    (if record_start then ∃ e, started = [e] ∧ audited_as TL_Started e else started = []) ∧
    effects ∈ dispatch_effects g request server_id ∧
    (∀ v, content = Ok v →
       at_progress attempt' = if record_start then AP_Started else AP_Planned).
Proof.
  intros Hp. unfold dispatch_transport. destruct record_start.
  - unfold mark_started, advance. rewrite decide_True by done. simpl.
    set (g1 := push_audit _ _ _). set (a1 := set_progress _ _).
    pose proof (exchange_log g1 a1 request server_id server answers) as Hx.
    destruct (exchange _ _ _ _ _ _) as [[g' a'] content].
    destruct Hx as (effects & Hlog & Heff & Hc). eexists [_], effects.
    rewrite Hlog. simpl. rewrite <-app_assoc. split_and!; [done| |done|].
    + eexists. split; [done|]. by eexists.
    + intros v Hv. by rewrite (Hc v Hv).
  - pose proof (exchange_log g attempt request server_id server answers) as Hx.
    destruct (exchange _ _ _ _ _ _) as [[g' a'] content].
    destruct Hx as (effects & Hlog & Heff & Hc). exists [], effects.
    split_and!; [done..|]. intros v Hv. by rewrite (Hc v Hv).
Qed.

Lemma finish_outcome_log text g attempt request content retried :
  (∀ v, content = Ok v →
     at_progress attempt = AP_Planned ∨ at_progress attempt = AP_Started) →
  let '(g', result) := finish_outcome text g attempt request content retried in
  ∃ finished, gw_log g' = gw_log g ++ [finished] ∧ terminal_agrees finished result.
Proof.
  intros Hp. unfold finish_outcome. destruct content as [v|error].
  - eexists. split; [done|]. split; [done|]. left. simpl. split_and!; [done| |by eexists].
    unfold mark_started, advance, mark_completed. destruct (Hp v eq_refl) as [Ha|Ha].
    + by rewrite !decide_True by done.
    + rewrite decide_False by (by rewrite Ha). by rewrite Ha.
  - destruct (bool_decide _) eqn:Hk; bool_to_prop.
    + eexists. split; [done|]. split; [done|]. by right.
    + eexists. split; [done|]. split; [|done]. by eexists.
Qed.

Lemma dispatch_finish_log text g attempt request server_id server record_start retried answers :
  at_progress attempt = AP_Planned →
  let '(g1, attempt1, content) :=
    dispatch_transport text g attempt request server_id server record_start answers in
  let '(g', result) := finish_outcome text g1 attempt1 request content retried in
  ∃ started effects finished,
    gw_log g' = gw_log g ++ started ++ effects ++ [finished] ∧
    (if record_start then ∃ e, started = [e] ∧ audited_as TL_Started e else started = []) ∧
    effects ∈ dispatch_effects g request server_id ∧
    terminal_agrees finished result.
Proof.
  intros Hp.
  pose proof (dispatch_transport_log text g attempt request server_id server record_start
                answers Hp) as Hd.
  destruct (dispatch_transport _ _ _ _ _ _ _ _) as [[g1 a1] content].
  destruct Hd as (started & effects & Hlog & Hs & He & Hc).
  pose proof (finish_outcome_log text g1 a1 request content retried) as Hf.
  destruct (finish_outcome _ _ _ _ _ _) as [g' result]. destruct Hf as (finished & Hlog' & Ht).
  { intros v Hv. rewrite (Hc v Hv). destruct record_start; auto. }
  exists started, effects, finished. by rewrite Hlog', Hlog, <-!app_assoc.
Qed.

Lemma require_available_Ok pin : require_available pin = Ok tt → ps_available pin = true.
Proof. unfold require_available. repeat case_match; done. Qed.

Lemma plan_planned operation policy fresh attempt :
  plan operation policy fresh = Ok attempt →
  at_progress attempt = AP_Planned ∧ at_policy attempt = policy.
Proof. unfold plan. intros H. break_results. by simplify_eq. Qed.

(** What [invoke] does after the gate. *)
Lemma invoke_server_log text g attempt request access answers :
  at_progress attempt = AP_Planned → ra_tool_kind access = TK_Mcp →
  let '(g', result) := invoke_server text g attempt request access answers in
  ∃ events, gw_log g' = gw_log g ++ events ∧
  ((Forall (λ e, is_effect e = false) events ∧ ∃ e, result = Err e) ∨
   ∃ server_id started effects finished,
     ra_mcp_server access = Some server_id ∧ server_available g server_id = true ∧
     is_Some (bt_get server_id (cf_mcp_servers (gw_config g))) ∧
     events = started ++ effects ++ [finished] ∧
     (if rq_simulate_pre_start_failure request
      then started = [] ∧ permits_automatic_retry (at_policy attempt) = true
      else ∃ e, started = [e] ∧ audited_as TL_Started e) ∧
     effects ∈ dispatch_effects g request server_id ∧
     terminal_agrees finished result).
Proof.
  intros Hp Hmcp. unfold invoke_server. rewrite decide_False by (intros []; done).
  assert (Hstop : ∀ (error : McpError) (Q : list GatewayEvent → Prop), ∃ events,
    gw_log g = gw_log g ++ events ∧
    ((Forall (λ e, is_effect e = false) events ∧
      ∃ e, Err error = @Err ToolInvokeOutcome McpError e) ∨ Q events)).
  { intros error Q. exists []. rewrite app_nil_r. eauto. }
  assert (Hfail : ∀ fact (error : McpError) (Q : list GatewayEvent → Prop), ∃ events,
    gw_log (push_audit g fact None) = gw_log g ++ events ∧
    ((Forall (λ e, is_effect e = false) events ∧
      ∃ e, Err error = @Err ToolInvokeOutcome McpError e) ∨ Q events)).
  { intros fact error Q. eexists. split; [done|]. left. split; [by repeat constructor|eauto]. }
  destruct (ra_mcp_server access) as [server_id|] eqn:Hserver; [|apply Hstop].
  destruct (bt_get server_id (gw_pins g)) as [pin|] eqn:Hpin; [|apply Hstop].
  destruct (require_available pin) as [[]|error] eqn:Hreq; [|apply Hfail].
  destruct (bt_get server_id (cf_mcp_servers (gw_config g))) as [server|] eqn:Hcfg;
    [|apply Hstop].
  assert (Havail : server_available g server_id = true).
  { unfold server_available. rewrite Hpin. by apply require_available_Ok. }
  destruct (rq_simulate_pre_start_failure request);
    [destruct (may_retry_automatically attempt) eqn:Hretry; [|apply Hfail]|].
  1: apply andb_true_iff in Hretry as [_ Hretry].
  1: pose proof (dispatch_finish_log text g attempt request server_id server false true
                   answers Hp) as Hd.
  2: pose proof (dispatch_finish_log text g attempt request server_id server true false
                   answers Hp) as Hd.
  all: destruct (dispatch_transport _ _ _ _ _ _ _ _) as [[g1 a1] content];
    destruct (finish_outcome _ _ _ _ _ _) as [g' result];
    destruct Hd as (started & effects & finished & Hg' & Hs & He & Hterm);
    eexists; (split; [exact Hg'|]); right; exists server_id, started, effects, finished;
    split_and!; rewrite ?Hcfg; done.
Qed.

(** ** Properties *)


(** Replaces the arguments of a request. *)
Definition with_arguments (request : ToolInvokeRequest) (arguments : Value) : ToolInvokeRequest :=
  {| rq_tool_id := rq_tool_id request; rq_operation := rq_operation request;
     rq_role_id := rq_role_id request; rq_workflow_id := rq_workflow_id request;
     rq_workflow_step_id := rq_workflow_step_id request;
     rq_session_denied := rq_session_denied request;
     rq_approval_granted := rq_approval_granted request; rq_arguments := arguments;
     rq_correlation_id := rq_correlation_id request;
     rq_simulate_cancel_after_start := rq_simulate_cancel_after_start request;
     rq_simulate_pre_start_failure := rq_simulate_pre_start_failure request;
     rq_simulate_post_start_crash := rq_simulate_post_start_crash request |}.

(** What a client sees of a result: everything but the content. *)
Definition public_result (r : Result ToolInvokeOutcome McpError)
    : Result (Uuid * AttemptProgress * PublicToolEvent * bool) McpError :=
  result_map (λ o, (to_attempt_id o, to_progress o, to_public o, to_retried o)) r.

(** Two gateways that recorded the same facts and have the same children. *)
Definition same_facts (g1 g2 : McpGateway) : Prop :=
  gw_config g1 = gw_config g2 ∧ gw_pins g1 = gw_pins g2 ∧
  gw_workspace_key g1 = gw_workspace_key g2 ∧ gw_children g1 = gw_children g2 ∧
  gw_shutting_down g1 = gw_shutting_down g2 ∧ audit_log g1 = audit_log g2.

Definition shape {A} (r : Result A McpError) : Result unit McpError := result_map (λ _, tt) r.

Definition same_answers (a1 a2 : Answers) : Prop :=
  an_spawn a1 = an_spawn a2 ∧ shape (an_reply a1) = shape (an_reply a2).

#[export] Instance same_facts_equivalence : Equivalence same_facts.
Proof.
  unfold same_facts. split.
  - by intros g.
  - intros g1 g2 Hs. by destruct_and!; split_and!.
  - intros g1 g2 g3 H1 H2. destruct_and!. split_and!; congruence.
Qed.

Lemma audit_log_log g e :
  audit_log (log g e) = audit_log g ++ match e with GE_Audited fact => [fact] | _ => [] end.
Proof. unfold audit_log. simpl. rewrite omap_app. by destruct e. Qed.

(** Recording the same fact keeps gateways alike, and so does reaching out with
    different payloads. *)
#[export] Instance push_audit_same : Proper (same_facts ==> (=) ==> (=) ==> same_facts) push_audit.
Proof.
  intros g1 g2 Hs e ? <- t ? <-. unfold same_facts, push_audit in *.
  rewrite !audit_log_log. simpl. destruct_and!. split_and!; congruence.
Qed.

Lemma log_effect_same g1 g2 e1 e2 :
  same_facts g1 g2 → is_effect e1 = true → is_effect e2 = true →
  same_facts (log g1 e1) (log g2 e2).
Proof.
  intros Hs H1 H2. unfold same_facts in *. rewrite !audit_log_log. simpl. destruct_and!.
  destruct e1, e2; try done; rewrite !app_nil_r; by split_and!.
Qed.

Lemma set_children_same g1 g2 children :
  same_facts g1 g2 → same_facts (set_children g1 children) (set_children g2 children).
Proof. intros Hs. unfold same_facts in *. destruct_and!. by split_and!. Qed.

Lemma exchange_same g1 g2 attempt request server_id server a1 a2 v :
  same_facts g1 g2 → same_answers a1 a2 →
  let '(g1', attempt1, c1) := exchange g1 attempt request server_id server a1 in
  let '(g2', attempt2, c2) :=
    exchange g2 attempt (with_arguments request v) server_id server a2 in
  same_facts g1' g2' ∧ attempt1 = attempt2 ∧ shape c1 = shape c2.
Proof.
  intros Hs [Hspawn Hreply]. unfold exchange. simpl. destruct (_ || _); [done|].
  pose proof Hs as (_ & _ & Hws & Hch & _).
  destruct (ms_transport server).
  - unfold get_or_spawn. rewrite <-Hspawn, <-Hws, <-Hch.
    assert (Hcall : ∀ h1 h2, same_facts h1 h2 →
      let '(g1', c1) := stdio_invoke h1 server_id (rq_operation request)
                          (rq_arguments request) (an_reply a1) in
      let '(g2', c2) := stdio_invoke h2 server_id (rq_operation request) v (an_reply a2) in
      same_facts g1' g2' ∧ attempt = attempt ∧ shape c1 = shape c2).
    { intros h1 h2 Hh. unfold stdio_invoke. pose proof Hh as (_ & _ & Hw & Hc & _).
      rewrite <-Hw, <-Hc. case_decide; [|done].
      split_and!; [by apply log_effect_same|done|done]. }
    case_decide; [|destruct (an_spawn a1); [|done]].
    + specialize (Hcall g1 g2 Hs). by do 2 destruct (stdio_invoke _ _ _ _ _).
    + set (h1 := log _ _). set (h2 := log (set_children g2 _) _).
      specialize (Hcall h1 h2). do 2 destruct (stdio_invoke _ _ _ _ _).
      apply Hcall, log_effect_same; [by apply set_children_same|done|done].
  - unfold http_invoke. destruct (ms_url server) as [url|]; [|done].
    destruct (HttpIdentity_parse url) as [i|]; [|done]. destruct (negb _); [done|].
    split_and!; [by apply log_effect_same|done|done].
Qed.

Lemma dispatch_same text g1 g2 attempt request server_id server start a1 a2 v :
  same_facts g1 g2 → same_answers a1 a2 →
  let '(g1', attempt1, c1) :=
    dispatch_transport text g1 attempt request server_id server start a1 in
  let '(g2', attempt2, c2) :=
    dispatch_transport text g2 attempt (with_arguments request v) server_id server start a2 in
  same_facts g1' g2' ∧ attempt1 = attempt2 ∧ shape c1 = shape c2.
Proof.
  intros Hs Ha. unfold dispatch_transport. destruct start; [|by apply exchange_same].
  destruct (mark_started attempt) as [att [u|e]]; [|done].
  change (tool_event text (with_arguments request v)) with (tool_event text request).
  apply exchange_same; [|done]. by rewrite Hs.
Qed.

Lemma finish_same text g1 g2 attempt request c1 c2 retried v :
  same_facts g1 g2 → shape c1 = shape c2 →
  let '(g1', r1) := finish_outcome text g1 attempt request c1 retried in
  let '(g2', r2) := finish_outcome text g2 attempt (with_arguments request v) c2 retried in
  same_facts g1' g2' ∧ public_result r1 = public_result r2.
Proof.
  intros Hs Hc. unfold finish_outcome.
  change (tool_event text (with_arguments request v)) with (tool_event text request).
  destruct c1 as [v1|e1], c2 as [v2|e2]; simplify_eq/=; [by rewrite Hs|].
  destruct (bool_decide _); by rewrite Hs.
Qed.


(** After a shutdown the gateway refuses every call without recording or doing
    anything, every child process of the selected workspaces is gone from the
    pool, the others are kept, and the shutdown succeeds exactly when every
    selected child was reaped. *)
Theorem shutdown_spec g reaped workspace :
  let '(g', result) := shutdown_children g workspace reaped in
  (∀ text request fresh answers, invoke text g' request fresh answers = (g', Err shutting_down)) ∧
  (∀ key, key ∈ gw_children g' ↔
     key ∈ gw_children g ∧ ∃ filter, workspace = Some filter ∧ key.1 ≠ filter) ∧
  (result = Ok tt ↔
     ∀ key, key ∈ gw_children g → (∀ filter, workspace = Some filter → key.1 = filter) →
       reaped key = true) ∧
  (result = Ok tt ∨ result = Err reap_failed).
Proof.
  unfold shutdown_children, pool_shutdown. simpl.
  set (selected := λ key : string * string, match workspace with
    | Some filter => bool_decide (key.1 = filter) | None => true end).
  assert (Hsel : ∀ key, selected key = true ↔ ∀ filter, workspace = Some filter → key.1 = filter).
  { intros key. unfold selected. destruct workspace; [rewrite bool_decide_eq_true|]; naive_solver. }
  split_and!.
  - done.
  - intros key. rewrite list_elem_of_In, filter_In, <-list_elem_of_In, negb_true_iff.
    apply and_iff_compat_l. unfold selected. destruct workspace.
    + rewrite bool_decide_eq_false. naive_solver.
    + naive_solver.
  - destruct (existsb _ _) eqn:Hex.
    + split; [done|]. intros Hall. apply existsb_exists in Hex as (key & Hin & Hr).
      apply filter_In in Hin as [Hin Hs]. apply list_elem_of_In in Hin.
      by rewrite (Hall key Hin (proj1 (Hsel key) Hs)) in Hr.
    + split; [intros _|done]. intros key Hin Hs.
      destruct (reaped key) eqn:Hr; [done|].
      rewrite <-not_true_iff_false, existsb_exists in Hex. destruct Hex. exists key.
      rewrite filter_In, <-list_elem_of_In, Hsel, Hr. done.
  - destruct (existsb _ _); auto.
Qed.

(** ** Witnesses *)

(** A configuration with one MCP tool that reads and writes. *)
Definition search_config : WorkbenchConfiguration :=
  {| cf_version := 1; cf_providers := []; cf_models := []; cf_roles := [];
     cf_tools := [("notes", {| tl_kind := TK_Mcp; tl_mcp_server := Some "search";
       tl_operations :=
         [{| op_name := "read"; op_effect_class := CE_IdempotentRead; op_idempotent := true;
             op_material_cost := false; op_approval := AM_Policy |};
          {| op_name := "write"; op_effect_class := CE_NonIdempotentWrite;
             op_idempotent := false; op_material_cost := false; op_approval := AM_Policy |}] |})];
     cf_data_sources := []; cf_mcp_servers := [("search", search_server)]; cf_workflows := [];
     cf_routing := cf_routing safe_builtins; cf_policies := cf_policies safe_builtins;
     cf_storage := cf_storage safe_builtins; cf_protocol := cf_protocol safe_builtins |}.

Definition search_gateway : McpGateway :=
  {| gw_config := search_config;
     gw_pins := [("search", {| ps_server_id := "search"; ps_available := true;
                               ps_transport := MT_Stdio; ps_reason := None |})];
     gw_workspace_key := "workspace"; gw_children := []; gw_log := [];
     gw_shutting_down := false |}.

(** The gateway above is the one that a bootstrap on the sample machine returns. *)
Example bootstrap_search :
  @bootstrap plain_machine search_config search_lock "workspace" = Ok search_gateway.
Proof. vm_compute. reflexivity. Qed.

Definition write_request (granted : option bool) : ToolInvokeRequest :=
  {| rq_tool_id := "notes"; rq_operation := "write"; rq_role_id := None;
     rq_workflow_id := None; rq_workflow_step_id := None; rq_session_denied := [];
     rq_approval_granted := granted; rq_arguments := VString "secret";
     rq_correlation_id := "c"; rq_simulate_cancel_after_start := false;
     rq_simulate_pre_start_failure := false; rq_simulate_post_start_crash := false |}.

Definition timed_out : McpError := mcp_error ME_Timeout "MCP stdio call timed out".

Definition lifecycles (g : McpGateway) : list ToolLifecycle :=
  (λ fact, pe_lifecycle (ta_event fact)) <$> audit_log g.

(** A write nobody decided on waits for a human and reaches nothing. *)
Example write_needs_approval :
  let '(g, r) := invoke (λ _, "id") search_gateway (write_request None) 1%N
                   {| an_spawn := Ok tt; an_reply := Ok VNull |} in
  r = Err approval_required ∧ lifecycles g = [TL_Planned; TL_ApprovalRequired] ∧
  gw_children g = [].
Proof. vm_compute. split_and!; reflexivity. Qed.

(** A granted write whose server does not answer in time is recorded as a definite
    failure, although it was sent and may have taken effect. *)
Example timeout_after_start_is_failed :
  let '(g, r) := invoke (λ _, "id") search_gateway (write_request (Some true)) 1%N
                   {| an_spawn := Ok tt; an_reply := Err timed_out |} in
  r = Err timed_out ∧ lifecycles g = [TL_Planned; TL_Started; TL_Failed] ∧
  GE_Called MT_Stdio "search" "write" (VString "secret") ∈ gw_log g.
Proof.
  vm_compute. split_and!; [reflexivity|reflexivity|].
  do 3 right. left.
Qed.

