(* ===== verification/OpenRouterProtocol.v ===== *)
(** * OpenRouterProtocol: the chat-completions stream
      (workbench-openrouter/src/error.rs, protocol.rs and the decoding of transport.rs)

    A response body is split into server-sent events, each event is normalized to
    provider outputs, and the terminal usage is turned into micro-dollars. JSON
    text is read by serde_json, a parameter. [None] is a panic: the message of an
    error is cut at byte 256, and the provider chooses that message. *)

From Stdlib Require Import SpecFloat.
From S2P Require Import Prelude Text Errors Value Ports BTree Json.

(** ** Errors *)

Inductive OpenRouterErrorKind : Type :=
| OE_InvalidConfig | OE_CredentialMissing | OE_CredentialEmpty | OE_BudgetExceeded
| OE_Transport | OE_ResponseTooLarge | OE_MalformedStream | OE_Unavailable
| OE_Cancelled | OE_OutcomeUnknown | OE_ShuttingDown.

#[export] Instance OpenRouterErrorKind_eq_dec : EqDecision OpenRouterErrorKind.
Proof. solve_decision. Defined.

Record OpenRouterError : Type := or_error { oe_kind : OpenRouterErrorKind; oe_message : string }.

#[export] Instance OpenRouterError_eq_dec : EqDecision OpenRouterError.
Proof. solve_decision. Defined.

(** [OpenRouterError::new] *)
Definition OpenRouterError_new (kind : OpenRouterErrorKind) (message : string)
    : option OpenRouterError :=
  message ← truncate 256 message; Some (or_error kind message).

(** [OpenRouterError::into_core], up to the fresh correlation identifier. *)
Definition into_core (e : OpenRouterError) : NewError :=
  new_error
    match oe_kind e with
    | OE_InvalidConfig => FC_InvalidRequest
    | OE_CredentialMissing | OE_CredentialEmpty => FC_ProviderUnavailable
    | OE_BudgetExceeded => FC_PolicyDenied
    | OE_Transport | OE_ResponseTooLarge | OE_MalformedStream | OE_Unavailable
    | OE_ShuttingDown => FC_ProviderUnavailable
    | OE_Cancelled => FC_InvalidTransition
    | OE_OutcomeUnknown => FC_OutcomeUnknown
    end (oe_message e).

Definition into_provider_failure (e : OpenRouterError) (definite : bool) : ProviderFailure :=
  {| pf_category :=
       match oe_kind e with
       | OE_BudgetExceeded => FC_PolicyDenied
       | OE_CredentialMissing | OE_CredentialEmpty => FC_ProviderUnavailable
       | OE_OutcomeUnknown => FC_OutcomeUnknown
       | OE_InvalidConfig => FC_InvalidRequest
       | _ => FC_ProviderUnavailable
       end;
     pf_user_safe_message := oe_message e; pf_definite := definite |}.

(** ** Text *)

(** The UTF-8 encodings of the characters with the White_Space property. *)
Definition utf8_2 (a b : N) : string := String (ascii_of_N a) (String (ascii_of_N b) EmptyString).
Definition utf8_3 (a b c : N) : string := String (ascii_of_N a) (utf8_2 b c).
Definition byte_string (a : N) : string := String (ascii_of_N a) EmptyString.

Definition white_space : list string :=
  List.map byte_string [9; 10; 11; 12; 13; 32]%N ++
  [utf8_2 194 133; utf8_2 194 160; utf8_3 225 154 128] ++
  List.map (utf8_3 226 128) [128; 129; 130; 131; 132; 133; 134; 135; 136; 137; 138; 168; 169;
                             175]%N ++
  [utf8_3 226 129 159; utf8_3 227 128 128].

(** Removes one leading member of [ws]. *)
Fixpoint strip_one (ws : list string) (s : string) : option string :=
  match ws with
  | [] => None
  | w :: ws => match strip_prefix w s with Some rest => Some rest | None => strip_one ws s end
  end.

Fixpoint strip_all (fuel : nat) (ws : list string) (s : string) : string :=
  match fuel with
  | O => s
  | S fuel => match strip_one ws s with Some rest => strip_all fuel ws rest | None => s end
  end.

Fixpoint str_rev_append (s acc : string) : string :=
  match s with EmptyString => acc | String c s => str_rev_append s (String c acc) end.
Definition str_rev (s : string) : string := str_rev_append s EmptyString.

(** [str::trim_start], [str::trim_end] and [str::trim] *)
Definition trim_start (s : string) : string := strip_all (String.length s) white_space s.
Definition trim_end (s : string) : string :=
  str_rev (strip_all (String.length s) (List.map str_rev white_space) (str_rev s)).
Definition trim (s : string) : string := trim_end (trim_start s).

Definition LF : N := 10.
Definition CR : N := 13.

(** [s.trim_end_matches('\r')] *)
Definition trim_end_cr (s : string) : string :=
  str_rev (strip_all (String.length s) [byte_string CR] (str_rev s)).

(** One trailing carriage return, which [str::lines] removes. *)
Definition strip_cr (s : string) : string :=
  match str_rev s with
  | String c rest => if is_byte CR c then str_rev rest else s
  | EmptyString => s
  end.

(** [str::lines]: a final line ending does not open another line. *)
Fixpoint drop_last_empty (pieces : list string) : list string :=
  match pieces with
  | [] => []
  | [piece] => if is_empty piece then [] else [piece]
  | piece :: pieces => piece :: drop_last_empty pieces
  end.
Definition lines (s : string) : list string :=
  List.map strip_cr (drop_last_empty (split_byte LF s)).

(** [s.split] at two consecutive newlines. *)
Fixpoint split_blocks (s : string) : list string :=
  match s with
  | EmptyString => [EmptyString]
  | String c s' =>
      let keep := match split_blocks s' with
                  | block :: blocks => String c block :: blocks
                  | [] => []
                  end in
      match s' with
      | String d s'' =>
          if is_byte LF c && is_byte LF d then EmptyString :: split_blocks s'' else keep
      | EmptyString => keep
      end
  end.

(** ** Decoding *)

Definition MAX_BODY_BYTES : N := 8388608.

(** [Value::get] with a string index, and the accessors. *)
Definition v_get (key : string) (v : Value) : option Value :=
  match v with VObject es => bt_get key es | _ => None end.
Definition v_as_array (v : Value) : option (list Value) :=
  match v with VArray vs => Some vs | _ => None end.
Definition v_as_u64 (v : Value) : option N :=
  match v with VNumber (PosInt n) => Some n | _ => None end.
Definition v_as_f64 (v : Value) : option f64 :=
  match v with
  | VNumber (PosInt n) => Some (f64_of_Z (Z.of_N n))
  | VNumber (NegInt z) => Some (f64_of_Z z)
  | VNumber (Float f) => Some f
  | _ => None
  end.

Record UsageSummary : Type := {
  us_prompt_tokens : N;
  us_completion_tokens : N;
  us_cost_usd_micros : N;
}.

Definition UsageSummary_default : UsageSummary :=
  {| us_prompt_tokens := 0; us_completion_tokens := 0; us_cost_usd_micros := 0 |}.

(** [split_sse_data]: the second prefix of the source is never reached, because
    the first one matches whenever it does. *)
Definition line_payload (line : string) : option string :=
  let line := trim_end_cr line in
  match strip_prefix "data:" line with
  | Some data => Some (trim_start data)
  | None => strip_prefix "data: " line
  end.

Definition split_sse_data (body : string) : Result (list string) OpenRouterError :=
  if utf8_valid body then
    let payloads := omap line_payload (List.concat (List.map lines (split_blocks body))) in
    Ok (match payloads with
        | [] => if is_empty (trim body) then [] else [trim body]
        | _ => payloads
        end)
  else Err (or_error OE_MalformedStream "OpenRouter stream is not valid UTF-8").

(** The text of a choice, from its delta or from its message. *)
Definition content_output (v : option Value) : list ProviderOutput :=
  match v with
  | Some (VString content) =>
      if is_empty content then [] else [PO_Content "assistant_message" content]
  | _ => []
  end.

Definition choice_outputs (choice : Value) : list ProviderOutput :=
  content_output (v_get "delta" choice ≫= v_get "content") ++
  content_output (v_get "message" choice ≫= v_get "content").

Section decode.
Context (parse_json : string → option Value).

Definition normalize_sse_data (data : string)
    : option (Result (list ProviderOutput) OpenRouterError) :=
  if decide (trim data = "[DONE]") then Some (Ok [])
  else match parse_json data with
  | None => Some (Err (or_error OE_MalformedStream "OpenRouter stream frame is not valid JSON"))
  | Some value =>
      match v_get "error" value with
      | Some error =>
          let message := default "OpenRouter returned an error"
                           (v_get "message" error ≫= as_str) in
          Err <$> OpenRouterError_new OE_Unavailable message
      | None =>
          match v_get "choices" value ≫= v_as_array with
          | None => Some (Err (or_error OE_MalformedStream
                                 "OpenRouter stream frame is missing choices"))
          | Some choices => Some (Ok (List.concat (List.map choice_outputs choices)))
          end
      end
  end.

(** The loop of [decode_body] over the payloads. *)
Fixpoint decode_payloads (payloads : list string) (outputs : list ProviderOutput)
    (saw_done : bool) : option (Result (list ProviderOutput * bool) OpenRouterError) :=
  match payloads with
  | [] => Some (Ok (outputs, saw_done))
  | payload :: payloads =>
      if decide (trim payload = "[DONE]") then decode_payloads payloads outputs true
      else
        normalized ← normalize_sse_data payload;
        match normalized with
        | Err e => Some (Err e)
        | Ok more => decode_payloads payloads (outputs ++ more) saw_done
        end
  end.

Definition decode_body (body : string)
    : option (Result (list ProviderOutput * bool) OpenRouterError) :=
  if (MAX_BODY_BYTES <? len body)%N then
    Some (Err (or_error OE_ResponseTooLarge
                 "OpenRouter response exceeds the encoded body ceiling"))
  else match split_sse_data body with
  | Err e => Some (Err e)
  | Ok payloads => decode_payloads payloads [] false
  end.
End decode.

(** ** Usage *)

(** The integer [x.round()] denotes, for a finite [x]: ties away from zero. *)
Definition f64_round (x : f64) : Z :=
  match x with
  | S754_finite s m e =>
      let magnitude := if (0 <=? e)%Z then (Zpos m * 2 ^ e)%Z
                       else ((Zpos m + 2 ^ (- e - 1)) / 2 ^ (- e))%Z in
      if s then (- magnitude)%Z else magnitude
  | _ => 0%Z
  end.

Definition f64_mul (a b : f64) : f64 := SFmul 53 1024 a b.

(** [f64_to_usd_micros]; [u64::MAX / 4] rounds to 2^62 as a double. *)
Definition f64_to_usd_micros (cost_usd : f64) : N :=
  if negb (is_finite cost_usd) || f64_le cost_usd f64_zero then 0%N
  else match f64_mul cost_usd (f64_of_Z 1000000) with
  | S754_infinity _ => (u64_max / 4)%N
  | product =>
      let micros := f64_round product in
      if (micros <=? 0)%Z then 0%N
      else if (2 ^ 62 <=? micros)%Z then (u64_max / 4)%N else Z.to_N micros
  end.

Definition extract_usage (value : Value) : UsageSummary :=
  let usage := v_get "usage" value in
  let field key := default 0%N ((usage ≫= v_get key) ≫= v_as_u64) in
  let prompt_tokens := field "prompt_tokens" in
  let completion_tokens := field "completion_tokens" in
  let reported :=
    match (usage ≫= v_get "cost") ≫= v_as_f64 with
    | Some cost => f64_to_usd_micros cost
    | None => match (usage ≫= v_get "total_cost") ≫= v_as_f64 with
              | Some cost => f64_to_usd_micros cost
              | None => 0%N
              end
    end in
  let cost :=
    if (reported =? 0)%N then
      let input := (saturating_mul u64_max prompt_tokens 500000 / 1000000)%N in
      let output := (saturating_mul u64_max completion_tokens 1500000 / 1000000)%N in
      N.max (saturating_add u64_max input output) 1
    else reported in
  {| us_prompt_tokens := prompt_tokens; us_completion_tokens := completion_tokens;
     us_cost_usd_micros := cost |}.

(** ** Lemmas *)

Lemma extract_usage_positive value : (1 ≤ us_cost_usd_micros (extract_usage value))%N.
Proof. unfold extract_usage. simpl. destruct (_ =? 0)%N eqn:H; bool_to_prop; lia. Qed.

(** A line without newline characters. *)
Definition no_newline (s : string) : Prop := any_byte (is_byte LF) s = false.

Lemma split_byte_none n s : any_byte (is_byte n) s = false → split_byte n s = [s].
Proof. induction s; simpl; [done|]. intros [-> Hs]%orb_false_iff. by rewrite IHs. Qed.

Lemma split_blocks_app (p rest : string) :
  no_newline p →
  split_blocks (p +:+ String "010" (String "010" rest)) = p :: split_blocks rest.
Proof.
  unfold no_newline. induction p as [|c p IH]; [done|]. intros [Hc Hp]%orb_false_iff.
  change (String c p +:+ String "010" (String "010" rest))
    with (String c (p +:+ String "010" (String "010" rest))).
  cbn [split_blocks]. rewrite IH by done. rewrite Hc. simpl.
  by destruct (p +:+ String "010" (String "010" rest)).
Qed.

Lemma str_rev_append_spec s acc : str_rev_append s acc = str_rev s +:+ acc.
Proof.
  unfold str_rev. revert acc. induction s as [|c s IH]; intros acc; [done|]. cbn.
  rewrite (IH (String c acc)), (IH (String c EmptyString)), string_app_assoc. done.
Qed.

Lemma str_rev_cons c s : str_rev (String c s) = str_rev s +:+ String c EmptyString.
Proof. unfold str_rev. cbn. apply str_rev_append_spec. Qed.

Lemma str_rev_app (a b : string) : str_rev (a +:+ b) = str_rev b +:+ str_rev a.
Proof.
  induction a as [|c a IH]; [by rewrite string_app_nil|].
  change (String c a +:+ b) with (String c (a +:+ b)).
  by rewrite !str_rev_cons, IH, string_app_assoc.
Qed.

Lemma str_rev_involutive s : str_rev (str_rev s) = s.
Proof. induction s as [|c s IH]; [done|]. by rewrite str_rev_cons, str_rev_app, IH. Qed.

(** The last byte is a carriage return. *)
Definition ends_in_cr (s : string) : bool :=
  match str_rev s with String c _ => is_byte CR c | EmptyString => false end.

Lemma strip_all_none fuel ws s : strip_one ws s = None → strip_all fuel ws s = s.
Proof. destruct fuel; simpl; [done|]. by intros ->. Qed.

Lemma strip_one_cr s :
  match s with String c _ => is_byte CR c | EmptyString => false end = false →
  strip_one [byte_string CR] s = None.
Proof.
  destruct s as [|c s]; [done|]. simpl. case_decide as Hc; [|done]. by subst c.
Qed.

Lemma no_cr_kept s : ends_in_cr s = false → trim_end_cr s = s ∧ strip_cr s = s.
Proof.
  unfold ends_in_cr. intros Hs. split.
  - unfold trim_end_cr. rewrite strip_all_none by by apply strip_one_cr.
    apply str_rev_involutive.
  - unfold strip_cr. destruct (str_rev s); [done|]. by rewrite Hs.
Qed.

Lemma ends_in_cr_app (a b : string) :
  b ≠ EmptyString → ends_in_cr (a +:+ b) = ends_in_cr b.
Proof.
  intros Hb. unfold ends_in_cr. rewrite str_rev_app.
  destruct (str_rev b) as [|c r] eqn:Hr; [|done].
  destruct Hb. by rewrite <-(str_rev_involutive b), Hr.
Qed.

(** A payload that survives framing: one line of valid text that neither starts
    with white space nor ends with a carriage return. *)
Record payload_ok (e : string) : Prop := {
  py_nonempty : e ≠ EmptyString;
  py_line : no_newline e;
  py_cr : ends_in_cr e = false;
  py_start : strip_one white_space e = None;
  py_utf8 : utf8_valid e = true;
}.

(** One framed event, as a provider writes it. *)
Definition sse_frame (e : string) : string :=
  "data: " +:+ e +:+ String "010" (String "010" EmptyString).

Definition sse_body (events : list string) : string :=
  foldr (λ e rest, sse_frame e +:+ rest) EmptyString events.

Lemma line_payload_frame e : payload_ok e → line_payload ("data: " +:+ e) = Some e.
Proof.
  intros He. unfold line_payload.
  destruct (no_cr_kept ("data: " +:+ e)) as [-> _].
  { rewrite ends_in_cr_app; apply He. }
  change (strip_prefix "data:" ("data: " +:+ e)) with (Some (String " " e)).
  unfold trim_start. cbn [String.length strip_all].
  change (strip_one white_space (String " " e)) with (Some e).
  f_equal. by apply strip_all_none, He.
Qed.

Lemma lines_frame e : payload_ok e → lines ("data: " +:+ e) = ["data: " +:+ e].
Proof.
  intros He. unfold lines. rewrite split_byte_none.
  - cbn [drop_last_empty]. change (is_empty ("data: " +:+ e)) with false. cbn [List.map].
    f_equal. apply no_cr_kept. rewrite ends_in_cr_app; apply He.
  - change (any_byte (is_byte LF) e = false). apply He.
Qed.

Lemma sse_payloads events :
  Forall payload_ok events →
  omap line_payload (List.concat (List.map lines (split_blocks (sse_body events)))) = events.
Proof.
  induction 1 as [|e events He _ IH]; [done|]. cbn [sse_body foldr].
  unfold sse_frame. rewrite !string_app_assoc, <-string_app_assoc.
  change (String "010" (String "010" EmptyString) +:+ ?r) with (String "010" (String "010" r)).
  rewrite split_blocks_app by (change (any_byte (is_byte LF) e = false); apply He).
  cbn [List.map List.concat]. rewrite lines_frame by done. cbn [app omap list_omap].
  rewrite line_payload_frame by done. f_equal. exact IH.
Qed.

Lemma decode_utf8_app (a b : string) xs ys :
  decode_utf8 a = Some xs → decode_utf8 b = Some ys → decode_utf8 (a +:+ b) = Some (xs ++ ys).
Proof.
  intros Ha Hb. assert (Hlen : String.length a ≤ String.length a) by done. revert Hlen xs Ha.
  generalize (String.length a) at 2. intros n. revert a.
  induction n as [|n IH]; intros [|c1 s1] Hn xs Ha; cbn [String.length] in Hn;
    try (by simplify_eq/=); [lia|].
  assert (Hrec : ∀ x (s : string) zs, cons x <$> decode_utf8 s = Some zs →
    String.length s ≤ n → cons x <$> decode_utf8 (s +:+ b) = Some (zs ++ ys)).
  { intros x s zs (zs' & Hs & ->)%fmap_Some Hl. by rewrite (IH s Hl zs' Hs). }
  change (String c1 s1 +:+ b) with (String c1 (s1 +:+ b)).
  cbn [decode_utf8] in *. destruct (byte_of c1 <? 128)%N; [apply Hrec; [done|lia]|].
  destruct s1 as [|c2 s2]; [done|]. change (String c2 s2 +:+ b) with (String c2 (s2 +:+ b)).
  cbv beta iota in *. cbn [String.length] in Hn. destruct (negb _); [done|].
  destruct (_ && _); [apply Hrec; [done|lia]|].
  destruct s2 as [|c3 s3]; [done|]. change (String c3 s3 +:+ b) with (String c3 (s3 +:+ b)).
  cbv beta iota in *. cbn [String.length] in Hn. destruct (negb _); [done|]. destruct (_ && _).
  { destruct (_ && _); [|done]. apply Hrec; [done|lia]. }
  destruct s3 as [|c4 s4]; [done|]. change (String c4 s4 +:+ b) with (String c4 (s4 +:+ b)).
  cbv beta iota in *. cbn [String.length] in Hn. destruct (_ && _); [|done]. apply Hrec; [done|lia].
Qed.

Lemma utf8_valid_app (a b : string) :
  utf8_valid a = true → utf8_valid b = true → utf8_valid (a +:+ b) = true.
Proof.
  unfold utf8_valid. destruct (decode_utf8 a) eqn:Ha, (decode_utf8 b) eqn:Hb; try done.
  by rewrite (decode_utf8_app _ _ _ _ Ha Hb).
Qed.

Lemma sse_body_utf8 events : Forall payload_ok events → utf8_valid (sse_body events) = true.
Proof.
  induction 1 as [|e events He _ IH]; [done|]. cbn [sse_body foldr]. unfold sse_frame.
  repeat apply utf8_valid_app; (done || apply He).
Qed.

Lemma split_sse_body events :
  events ≠ [] → Forall payload_ok events → split_sse_data (sse_body events) = Ok events.
Proof.
  intros Hne Hok. unfold split_sse_data. rewrite sse_body_utf8, sse_payloads by done.
  by destruct events.
Qed.

(** An event that carries the next piece of the answer. *)
Definition delta_event (content : string) : Value :=
  VObject [("choices", VArray [VObject [("delta", VObject [("content", VString content)])]])].

Lemma normalize_delta parse_json e content :
  content ≠ EmptyString → trim e ≠ "[DONE]" → parse_json e = Some (delta_event content) →
  normalize_sse_data parse_json e = Some (Ok [PO_Content "assistant_message" content]).
Proof.
  intros Hc Hd Hp. unfold normalize_sse_data. rewrite decide_False, Hp by done. simpl.
  unfold choice_outputs. simpl. by rewrite (proj2 (is_empty_false _) Hc).
Qed.

Lemma decode_deltas parse_json events contents tail outputs done :
  Forall2 (λ e content, content ≠ EmptyString ∧ trim e ≠ "[DONE]" ∧
             parse_json e = Some (delta_event content)) events contents →
  decode_payloads parse_json (events ++ tail) outputs done =
  decode_payloads parse_json tail
    (outputs ++ List.map (PO_Content "assistant_message") contents) done.
Proof.
  intros Hall. revert outputs. induction Hall as [|e c es cs (Hc & Hd & Hp) _ IH];
    intros outputs; [by rewrite app_nil_r|]. cbn [app decode_payloads].
  rewrite decide_False by done. rewrite (normalize_delta parse_json e c) by done. simpl.
  rewrite IH. by rewrite <-app_assoc.
Qed.

(** ** Properties *)

(** A framed answer is decoded completely and in order: the pieces that a provider
    sends as one event each come out as they were sent, and the decoder says
    whether the terminal marker arrived, so that a stream that breaks off is
    never taken for a finished one. *)
Theorem decode_stream_complete parse_json events contents (finished : bool) :
  let sent := events ++ (if finished then ["[DONE]"] else []) in
  events ≠ [] → Forall payload_ok events →
  (len (sse_body sent) ≤ MAX_BODY_BYTES)%N →
  Forall2 (λ e content, content ≠ EmptyString ∧ trim e ≠ "[DONE]" ∧
             parse_json e = Some (delta_event content)) events contents →
  decode_body parse_json (sse_body sent) =
    Some (Ok (List.map (PO_Content "assistant_message") contents, finished)).
Proof.
  intros sent Hne Hok Hlen Hall. unfold decode_body.
  rewrite (proj2 (N.ltb_ge _ _) Hlen), split_sse_body.
  - unfold sent. rewrite (decode_deltas _ _ contents) by done. by destruct finished.
  - unfold sent. by destruct events.
  - unfold sent. apply Forall_app. split; [done|]. destruct finished; [|constructor].
    repeat constructor; done.
Qed.

Definition toy_parse (s : string) : option Value :=
  match s with String _ rest => Some (delta_event rest) | EmptyString => None end.

Lemma decode_stream_complete_witness :
  decode_body toy_parse (sse_body ["{offline"; "{router"; "[DONE]"]) =
  Some (Ok ([PO_Content "assistant_message" "offline"; PO_Content "assistant_message" "router"],
            true)).
Proof.
  apply (decode_stream_complete toy_parse ["{offline"; "{router"] ["offline"; "router"] true).
  - discriminate.
  - repeat constructor; vm_compute; (reflexivity || discriminate).
  - vm_compute. discriminate.
  - repeat constructor; (reflexivity || (vm_compute; discriminate)).
Defined.

(** A message of 255 ASCII bytes and one two-byte character. *)
Definition long_message : string :=
  foldr (λ _ s, String "a" s) (utf8_2 195 169) (seq 0 255).

(** An error event with a message whose byte 256 is inside a character makes the
    decoder panic, although the body is valid. *)
Example provider_message_panics :
  let parse_json := λ _ : string,
    Some (VObject [("error", VObject [("message", VString long_message)])]) in
  utf8_valid long_message = true ∧
  decode_body parse_json (sse_body ["{error"]) = None.
Proof. vm_compute. split; reflexivity. Qed.
