(* ===== verification/OpenRouterAdapter.v ===== *)
(** * OpenRouterAdapter: paid inference behind a session budget
      (workbench-openrouter/src/budget.rs, credential.rs and adapter.rs)

    [prompt_stream] waits for the provider once, while it holds the set-up lock of
    its session. It is therefore two atomic steps, [prompt_begin] up to the request
    and [prompt_finish] after the answer, and other operations may run in between:
    a run is a list of operations. The durable spend store is an interface with
    laws, since the daemon implements it. A poisoned lock is not modelled. *)

From S2P Require Import Prelude Text Errors Value Ports Json OpenRouterProtocol.

(** ** Ledger *)

Record CostPolicyConfig : Type := {
  cc_max_session_usd_micros : N;
  cc_max_attempt_usd_micros : option N;
}.

Inductive BudgetDecision : Type :=
| BD_Allow (estimate_usd_micros : N)
| BD_DenySession
| BD_DenyAttempt.

(** [DurableSpendStore] *)
Class SpendStore (S : Type) : Type := {
  load_spends : S → Result (list (Uuid * N)) OpenRouterError;
  persist_spend : S → Uuid → N → S * Result unit OpenRouterError;
}.

(** What the ledger relies on: a store is read as a map, a successful write is
    visible, and a failed write changes at most the entry it was about. *)
Class SpendStoreLaws (S : Type) `{SpendStore S} : Type := {
  spends : S → gmap Uuid N;
  load_spends_map : ∀ s l, load_spends s = Ok l → list_to_map l = spends s ∧ NoDup l.*1;
  persist_spend_ok : ∀ s id v s' u,
    persist_spend s id v = (s', Ok u) → spends s' = <[id := v]> (spends s);
  persist_spend_err : ∀ s id v s' e,
    persist_spend s id v = (s', Err e) → spends s' = spends s ∨ spends s' = <[id := v]> (spends s);
}.

Section ledger.
Context {S : Type} `{SpendStore S}.

Record SessionCostLedger : Type := {
  lg_by_session : gmap Uuid N;
  lg_durable : option S;
}.

Definition spend_usd_micros (l : SessionCostLedger) (id : Uuid) : N :=
  default 0%N (lg_by_session l !! id).

(** [restore_from_durable] *)
Definition restore_from_durable (l : SessionCostLedger)
    : Result SessionCostLedger OpenRouterError :=
  match lg_durable l with
  | None => Ok l
  | Some store =>
      let? entries := load_spends store in
      Ok {| lg_by_session :=
              foldl (λ m e, if (0 <? e.2)%N then <[e.1 := e.2]> m else m) ∅ entries;
            lg_durable := Some store |}
  end.

(** [SessionCostLedger::with_durable_store] *)
Definition with_durable_store (store : S) : Result SessionCostLedger OpenRouterError :=
  restore_from_durable {| lg_by_session := ∅; lg_durable := Some store |}.

Definition record_spend (l : SessionCostLedger) (id : Uuid) (usd_micros : N)
    : SessionCostLedger * Result N OpenRouterError :=
  if (usd_micros =? 0)%N then (l, Ok (spend_usd_micros l id))
  else
    let total := saturating_add u64_max (spend_usd_micros l id) usd_micros in
    let by_session := <[id := total]> (lg_by_session l) in
    match lg_durable l with
    | None => ({| lg_by_session := by_session; lg_durable := None |}, Ok total)
    | Some store =>
        let '(store, r) := persist_spend store id total in
        ({| lg_by_session := by_session; lg_durable := Some store |},
         let? _ := r in Ok total)
    end.

Definition DEFAULT_ATTEMPT_ESTIMATE_USD_MICROS : N := 10000.

Definition evaluate_budget (policy : CostPolicyConfig) (l : SessionCostLedger) (id : Uuid)
    (estimate : N) : BudgetDecision :=
  if match cc_max_attempt_usd_micros policy with
     | Some max_attempt => (max_attempt <? estimate)%N
     | None => false
     end then BD_DenyAttempt
  else
    let projected := saturating_add u64_max (spend_usd_micros l id) estimate in
    if (cc_max_session_usd_micros policy <? projected)%N then BD_DenySession
    else BD_Allow estimate.

Definition deny_error (decision : BudgetDecision) : Result unit OpenRouterError :=
  match decision with
  | BD_Allow _ => Ok tt
  | BD_DenySession =>
      Err (or_error OE_BudgetExceeded "session paid-inference budget would be exceeded")
  | BD_DenyAttempt =>
      Err (or_error OE_BudgetExceeded "attempt paid-inference budget would be exceeded")
  end.

Definition estimate_attempt_usd_micros (policy : CostPolicyConfig) : N :=
  N.min DEFAULT_ATTEMPT_ESTIMATE_USD_MICROS (cc_max_session_usd_micros policy).

(** ** Credentials *)

(** [require_secret], given what the secret source answers. *)
Definition require_secret (resolved : Result (option string) OpenRouterError)
    : Result string OpenRouterError :=
  let? secret := resolved in
  match secret with
  | None => Err (or_error OE_CredentialMissing "API credential is unavailable")
  | Some secret =>
      if is_empty secret then Err (or_error OE_CredentialEmpty "API credential is empty")
      else Ok secret
  end.

(** ** Adapter *)

Record ActiveAttempt : Type := { aa_attempt_id : Uuid; aa_cancel : bool }.

(** A local session; [ls_in_flight] is the prompt that holds its set-up lock while
    it waits for the provider. *)
Record LocalSession : Type := {
  ls_in_flight : option ProviderPrompt;
  ls_active : option ActiveAttempt;
  ls_pending : list Uuid;
}.

(** [ad_sessions] holds every session created, [ad_listed] the handles that are
    still in the session map. *)
Record Adapter : Type := {
  ad_policy : CostPolicyConfig;
  ad_ledger : SessionCostLedger;
  ad_sessions : gmap string LocalSession;
  ad_listed : gset string;
  ad_shutting_down : bool;
}.

Definition set_session (a : Adapter) (handle : string) (s : LocalSession) : Adapter :=
  {| ad_policy := ad_policy a; ad_ledger := ad_ledger a;
     ad_sessions := <[handle := s]> (ad_sessions a); ad_listed := ad_listed a;
     ad_shutting_down := ad_shutting_down a |}.

Definition set_ledger (a : Adapter) (l : SessionCostLedger) : Adapter :=
  {| ad_policy := ad_policy a; ad_ledger := l; ad_sessions := ad_sessions a;
     ad_listed := ad_listed a; ad_shutting_down := ad_shutting_down a |}.

Definition MAX_ADAPTER_VERSION_BYTES : N := 256.

(** [OpenRouterProviderAdapter::connect]; deadlines are milliseconds. *)
Definition connect (adapter_version credential_ref : string) (ledger : SessionCostLedger)
    (policy : CostPolicyConfig) (cancellation_deadline : N) (require_secret_at_connect : bool)
    (resolved : Result (option string) OpenRouterError) : Result Adapter NewError :=
  let? _ := reject_if
    ((cancellation_deadline =? 0)%N || is_empty adapter_version
     || (MAX_ADAPTER_VERSION_BYTES <? len adapter_version)%N || is_empty credential_ref
     || (cc_max_session_usd_micros policy =? 0)%N)
    (new_error FC_InvalidRequest "OpenRouter adapter configuration is invalid") in
  let? _ := if require_secret_at_connect
            then map_err into_core (result_map (λ _, tt) (require_secret resolved))
            else Ok tt in
  Ok {| ad_policy := policy; ad_ledger := ledger; ad_sessions := ∅; ad_listed := ∅;
        ad_shutting_down := false |}.

Definition ensure_active (a : Adapter) : Result unit ProviderFailure :=
  reject_if (ad_shutting_down a)
    (into_provider_failure (or_error OE_ShuttingDown "OpenRouter adapter is shutting down") true).

(** [start_session]; [handle] is the fresh identifier it draws. *)
Definition start (a : Adapter) (handle : string)
    : Adapter * Result ProviderSessionHandle ProviderFailure :=
  match ensure_active a with
  | Err f => (a, Err f)
  | Ok _ =>
      ({| ad_policy := ad_policy a; ad_ledger := ad_ledger a;
          ad_sessions := <[handle := {| ls_in_flight := None; ls_active := None;
                                        ls_pending := [] |}]> (ad_sessions a);
          ad_listed := {[handle]} ∪ ad_listed a;
          ad_shutting_down := ad_shutting_down a |},
       map_err (λ e, {| pf_category := ne_category e; pf_user_safe_message := ne_message e;
                        pf_definite := true |}) (ProviderSessionHandle_new handle))
  end.

(** [clear_active], and the release of the set-up lock with it. *)
Definition clear_active (s : LocalSession) (attempt_id : Uuid) : LocalSession :=
  {| ls_in_flight := None;
     ls_active := match ls_active s with
                  | Some current => if decide (aa_attempt_id current = attempt_id) then None
                                    else Some current
                  | None => None
                  end;
     ls_pending := List.filter (λ id, negb (bool_decide (id = attempt_id))) (ls_pending s) |}.

(** The set-up lock is released without clearing the active attempt. *)
Definition release (s : LocalSession) : LocalSession :=
  {| ls_in_flight := None; ls_active := ls_active s; ls_pending := ls_pending s |}.

Definition definite (kind : OpenRouterErrorKind) (message : string) : ProviderFailure :=
  into_provider_failure (or_error kind message) true.

(** The session a handle names, while it is in the session map. *)
Definition listed_session (a : Adapter) (handle : string) : option LocalSession :=
  if decide (handle ∈ ad_listed a) then ad_sessions a !! handle else None.

(** [prompt_stream] up to the request, once the set-up lock is free. *)
Definition prompt_begin (a : Adapter) (handle : string) (prompt : ProviderPrompt)
    (resolved : Result (option string) OpenRouterError)
    : Adapter * Result unit ProviderFailure :=
  match ensure_active a with
  | Err f => (a, Err f)
  | Ok _ =>
  match listed_session a handle with
  | None => (a, Err (definite OE_Unavailable "unknown provider session"))
  | Some s =>
      match ls_active s with
      | Some _ => (a, Err (definite OE_Unavailable
                             "OpenRouter session already has an active attempt"))
      | None =>
          match require_secret resolved with
          | Err e => (a, Err (into_provider_failure e true))
          | Ok _ =>
              let estimate := estimate_attempt_usd_micros (ad_policy a) in
              let decision := evaluate_budget (ad_policy a) (ad_ledger a)
                                (pp_session_id prompt) estimate in
              match deny_error decision with
              | Err e => (a, Err (into_provider_failure e true))
              | Ok _ =>
                  let s := {| ls_in_flight := Some prompt;
                              ls_active := Some {| aa_attempt_id := pp_attempt_id prompt;
                                                   aa_cancel := false |};
                              ls_pending := ls_pending s |} in
                  if decide (pp_attempt_id prompt ∈ ls_pending s) then
                    (set_session a handle (clear_active s (pp_attempt_id prompt)),
                     Err (definite OE_Cancelled
                            "OpenRouter attempt was cancelled before dispatch"))
                  else (set_session a handle s, Ok tt)
              end
          end
      end
  end
  end.

Record TransportResult : Type := { tr_body : string; tr_usage : UsageSummary }.

(** What the caller of [prompt_stream] gets. *)
Inductive Response : Type :=
| RS_Outputs (outputs : list ProviderOutput)
| RS_Failed (failure : ProviderFailure)
| RS_Panicked.

(** Transport failures that happened before anything was sent. *)
Definition transport_definite (kind : OpenRouterErrorKind) : bool :=
  match kind with
  | OE_CredentialMissing | OE_CredentialEmpty | OE_BudgetExceeded | OE_InvalidConfig => true
  | _ => false
  end.

Section finish.
Context (parse_json : string → option Value).

(** [prompt_stream] after the provider's answer. *)
Definition prompt_finish (a : Adapter) (handle : string) (s : LocalSession)
    (prompt : ProviderPrompt) (answer : Result TransportResult OpenRouterError)
    : Adapter * Response :=
  let cleared := set_session a handle (clear_active s (pp_attempt_id prompt)) in
  let failed (kind : OpenRouterErrorKind) (message : string) (definite : bool) :=
    (cleared, RS_Failed (into_provider_failure (or_error kind message) definite)) in
  match answer with
  | Err error =>
      (cleared, RS_Failed (into_provider_failure error (transport_definite (oe_kind error))))
  | Ok result =>
      if match ls_active s with Some current => aa_cancel current | None => false end then
        failed OE_Cancelled "OpenRouter attempt was cancelled" true
      else match decode_body parse_json (tr_body result) with
      | None => (set_session a handle (release s), RS_Panicked)
      | Some (Err error) => (cleared, RS_Failed (into_provider_failure error false))
      | Some (Ok (outputs, completed)) =>
          if negb completed && match outputs with [] => true | _ => false end then
            failed OE_OutcomeUnknown "OpenRouter stream ended without a definite completion" false
          else if completed then
            let spend := N.max (us_cost_usd_micros (tr_usage result)) 1 in
            let '(ledger, recorded) := record_spend (ad_ledger a) (pp_session_id prompt) spend in
            match recorded with
            | Err error =>
                (set_ledger (set_session a handle (release s)) ledger,
                 RS_Failed (into_provider_failure error true))
            | Ok _ =>
                (set_ledger cleared ledger,
                 RS_Outputs (outputs ++ [PO_Completed "openrouter completed"]))
            end
          else failed OE_OutcomeUnknown "OpenRouter stream ended without a terminal marker" false
      end
  end.

Definition cancel (a : Adapter) (handle : string) (attempt_id : Uuid)
    : Adapter * CancellationStatus :=
  match listed_session a handle with
  | None => (a, CS_Unconfirmed)
  | Some s =>
      let pending := if decide (attempt_id ∈ ls_pending s) then ls_pending s
                     else attempt_id :: ls_pending s in
      let matches := match ls_active s with
                     | Some current => bool_decide (aa_attempt_id current = attempt_id)
                     | None => false
                     end in
      let active := if matches
                    then Some {| aa_attempt_id := attempt_id; aa_cancel := true |}
                    else ls_active s in
      (set_session a handle {| ls_in_flight := ls_in_flight s; ls_active := active;
                               ls_pending := pending |},
       if matches then CS_Confirmed else CS_Unconfirmed)
  end.

(** [shutdown]: the map is cleared, prompts in flight keep their session. *)
Definition shutdown (a : Adapter) : Adapter :=
  {| ad_policy := ad_policy a; ad_ledger := ad_ledger a; ad_sessions := ad_sessions a;
     ad_listed := ∅; ad_shutting_down := true |}.

(** ** Runs *)

Inductive AdapterOp : Type :=
| OP_Start (handle : string)
| OP_Begin (handle : string) (prompt : ProviderPrompt)
    (resolved : Result (option string) OpenRouterError)
| OP_Finish (handle : string) (answer : Result TransportResult OpenRouterError)
| OP_Cancel (handle : string) (attempt_id : Uuid)
| OP_Shutdown.

(** What an operation was observed to do. *)
Inductive Observation : Type :=
| OB_Dispatched (prompt : ProviderPrompt)
| OB_Finished (handle : string) (prompt : ProviderPrompt) (response : Response)
| OB_Refused (failure : ProviderFailure)
| OB_Quiet.

(** The prompt that holds the set-up lock of a session. *)
Definition in_flight (a : Adapter) (handle : string) : option ProviderPrompt :=
  ad_sessions a !! handle ≫= ls_in_flight.

(** One operation. A session that exists is not started again, since handles are
    fresh; a prompt waits while another one holds the set-up lock, and an answer
    only arrives for a prompt in flight. *)
Definition apply_op (a : Adapter) (op : AdapterOp) : Adapter * Observation :=
  match op with
  | OP_Start handle =>
      match ad_sessions a !! handle with
      | Some _ => (a, OB_Quiet)
      | None => ((start a handle).1, OB_Quiet)
      end
  | OP_Begin handle prompt resolved =>
      match in_flight a handle with
      | Some _ => (a, OB_Quiet)
      | None =>
          let '(a, r) := prompt_begin a handle prompt resolved in
          (a, match r with Ok _ => OB_Dispatched prompt | Err f => OB_Refused f end)
      end
  | OP_Finish handle answer =>
      match ad_sessions a !! handle with
      | Some s =>
          match ls_in_flight s with
          | Some prompt =>
              let '(a, r) := prompt_finish a handle s prompt answer in
              (a, OB_Finished handle prompt r)
          | None => (a, OB_Quiet)
          end
      | None => (a, OB_Quiet)
      end
  | OP_Cancel handle attempt_id => ((cancel a handle attempt_id).1, OB_Quiet)
  | OP_Shutdown => (shutdown a, OB_Quiet)
  end.

Fixpoint run (a : Adapter) (ops : list AdapterOp) : Adapter * list Observation :=
  match ops with
  | [] => (a, [])
  | op :: ops =>
      let '(a, o) := apply_op a op in
      let '(a, os) := run a ops in (a, o :: os)
  end.
End finish.
End ledger.
Arguments SessionCostLedger S : clear implicits.
Arguments Adapter S : clear implicits.

(** ** Lemmas *)

Section lemmas.
Context {S : Type} `{SpendStoreLaws S} (parse_json : string → option Value).
Implicit Types (a : Adapter S) (l : SessionCostLedger S) (id : Uuid).

Definition ledger_bounded l : Prop := ∀ id, (spend_usd_micros l id ≤ u64_max)%N.

Lemma record_spend_spec l id v :
  (0 < v)%N → let '(l', _) := record_spend l id v in
  ∀ id', spend_usd_micros l' id' =
    if decide (id' = id) then saturating_add u64_max (spend_usd_micros l id) v
    else spend_usd_micros l id'.
Proof.
  intros Hv. unfold record_spend. rewrite (proj2 (N.eqb_neq v 0)) by lia.
  assert (Hins : ∀ (m : gmap Uuid N) t id',
    default 0%N (<[id := t]> m !! id') = if decide (id' = id) then t else default 0%N (m !! id')).
  { intros m t id'. rewrite lookup_insert. repeat case_decide; naive_solver. }
  destruct (lg_durable l) as [store|].
  - destruct (persist_spend _ _ _). intros id'. apply Hins.
  - intros id'. apply Hins.
Qed.

(** The ledger of an adapter only changes when an answer is complete. *)
Lemma prompt_begin_ledger a handle prompt resolved :
  ad_ledger (prompt_begin a handle prompt resolved).1 = ad_ledger a.
Proof. unfold prompt_begin. repeat (case_match || case_decide); done. Qed.

Lemma prompt_begin_policy a handle prompt resolved :
  ad_policy (prompt_begin a handle prompt resolved).1 = ad_policy a.
Proof. unfold prompt_begin. repeat (case_match || case_decide); done. Qed.

Lemma prompt_finish_ledger a handle s prompt answer :
  ad_ledger (prompt_finish parse_json a handle s prompt answer).1 = ad_ledger a ∨
  ∃ v, (0 < v)%N ∧ ad_ledger (prompt_finish parse_json a handle s prompt answer).1 =
       (record_spend (ad_ledger a) (pp_session_id prompt) v).1.
Proof.
  unfold prompt_finish. destruct answer as [result|]; [|by left].
  case_match; [by left|]. destruct (decode_body _ _) as [[[outputs completed]|]|]; [|by left..].
  destruct (negb completed && _); [by left|]. destruct completed; [|by left]. right.
  exists (N.max (us_cost_usd_micros (tr_usage result)) 1). split; [lia|].
  by destruct (record_spend _ _ _) as [l [?|?]].
Qed.

Lemma prompt_finish_policy a handle s prompt answer :
  ad_policy (prompt_finish parse_json a handle s prompt answer).1 = ad_policy a.
Proof.
  unfold prompt_finish. destruct answer as [result|]; [|done].
  case_match; [done|]. destruct (decode_body _ _) as [[[outputs completed]|]|]; [|done..].
  destruct (negb completed && _); [done|]. destruct completed; [|done].
  by destruct (record_spend _ _ _) as [l [?|?]].
Qed.

Lemma apply_op_policy a op : ad_policy (apply_op parse_json a op).1 = ad_policy a.
Proof.
  destruct op as [handle|handle prompt resolved|handle answer|handle attempt|]; simpl.
  - unfold start. by repeat case_match.
  - destruct (in_flight a handle); [done|]. pose proof (prompt_begin_policy a handle prompt resolved) as Hp.
    by destruct (prompt_begin _ _ _ _).
  - destruct (ad_sessions a !! handle) as [s|]; [|done].
    destruct (ls_in_flight s) as [prompt|]; [|done].
    pose proof (prompt_finish_policy a handle s prompt answer) as Hp.
    by destruct (prompt_finish _ _ _ _ _ _).
  - unfold cancel. by repeat case_match.
  - done.
Qed.

(** Spending never decreases. *)
Lemma apply_op_spend a op id :
  ledger_bounded (ad_ledger a) →
  ledger_bounded (ad_ledger (apply_op parse_json a op).1) ∧
  (spend_usd_micros (ad_ledger a) id ≤
   spend_usd_micros (ad_ledger (apply_op parse_json a op).1) id)%N.
Proof.
  intros Hb. destruct op as [handle|handle prompt resolved|handle answer|handle attempt|]; simpl.
  - unfold start. by repeat case_match.
  - destruct (in_flight a handle); [done|]. pose proof (prompt_begin_ledger a handle prompt resolved) as Hp.
    destruct (prompt_begin _ _ _ _). simpl in *. by rewrite Hp.
  - destruct (ad_sessions a !! handle) as [s|]; [|done].
    destruct (ls_in_flight s) as [prompt|]; [|done].
    pose proof (prompt_finish_ledger a handle s prompt answer) as Hp.
    destruct (prompt_finish _ _ _ _ _ _) as [a' r]. simpl in *.
    destruct Hp as [->|(v & Hv & ->)]; [done|].
    pose proof (record_spend_spec (ad_ledger a) (pp_session_id prompt) v Hv) as Hr.
    destruct (record_spend _ _ _) as [l' r']. simpl. split.
    + intros id'. rewrite Hr. case_decide; [apply saturating_add_le|apply Hb].
    + rewrite Hr. case_decide; [subst|done]. unfold saturating_add.
      pose proof (Hb (pp_session_id prompt)). lia.
  - unfold cancel. by repeat case_match.
  - done.
Qed.

(** What a dispatch went through. *)
Definition guarded a (prompt : ProviderPrompt) : Prop :=
  ad_shutting_down a = false ∧
  (∀ max_attempt, cc_max_attempt_usd_micros (ad_policy a) = Some max_attempt →
     (estimate_attempt_usd_micros (ad_policy a) ≤ max_attempt)%N) ∧
  (saturating_add u64_max (spend_usd_micros (ad_ledger a) (pp_session_id prompt))
     (estimate_attempt_usd_micros (ad_policy a)) ≤ cc_max_session_usd_micros (ad_policy a))%N.

Lemma evaluate_budget_Ok policy l id estimate u :
  deny_error (evaluate_budget policy l id estimate) = Ok u →
  (∀ max_attempt, cc_max_attempt_usd_micros policy = Some max_attempt →
     (estimate ≤ max_attempt)%N) ∧
  (saturating_add u64_max (spend_usd_micros l id) estimate ≤
   cc_max_session_usd_micros policy)%N.
Proof.
  unfold evaluate_budget. destruct (cc_max_attempt_usd_micros policy) as [m|]; cbv beta iota zeta.
  - destruct (m <? estimate)%N eqn:Hm; [done|].
    destruct (cc_max_session_usd_micros policy <? _)%N eqn:Hp; [done|].
    bool_to_prop. intros _. split; [|done]. by intros ? [= <-].
  - destruct (_ <? _)%N eqn:Hp; [done|]. bool_to_prop. by split.
Qed.

Lemma prompt_begin_Ok a handle prompt resolved a' u :
  prompt_begin a handle prompt resolved = (a', Ok u) →
  guarded a prompt ∧ (∃ secret, resolved = Ok (Some secret) ∧ secret ≠ EmptyString) ∧
  ∃ s, listed_session a handle = Some s ∧ ls_active s = None.
Proof.
  unfold prompt_begin, ensure_active, reject_if.
  destruct (ad_shutting_down a) eqn:Hsd; [done|].
  destruct (listed_session a handle) as [s|]; [|done].
  destruct (ls_active s) eqn:Hact; [done|].
  destruct (require_secret resolved) as [secret|] eqn:Hsec; [|done].
  destruct (deny_error _) eqn:Hdeny; [|done]. intros _. split_and!; [|..|by eauto].
  - split; [done|]. by eapply evaluate_budget_Ok.
  - unfold require_secret in Hsec. destruct resolved as [[secret'|]|]; try done.
    destruct secret'; [done|]. eauto.
Qed.

Lemma apply_op_dispatched a op prompt :
  (apply_op parse_json a op).2 = OB_Dispatched prompt →
  guarded a prompt ∧ ∃ handle resolved secret,
    op = OP_Begin handle prompt resolved ∧ resolved = Ok (Some secret) ∧ secret ≠ EmptyString.
Proof.
  destruct op as [handle|handle p resolved|handle answer|handle attempt|]; simpl;
    try (repeat case_match; done).
  - destruct (in_flight a handle); [done|].
    destruct (prompt_begin _ _ _ _) as [a' [u|]] eqn:Hb; [|done]. simpl. intros [= ->]. apply prompt_begin_Ok in Hb as (Hg & (secret & -> & Hs) & _).
    eauto 10.
Qed.

Lemma run_spend a ops id :
  ledger_bounded (ad_ledger a) →
  let a' := (run parse_json a ops).1 in
  ad_policy a' = ad_policy a ∧ ledger_bounded (ad_ledger a') ∧
  (spend_usd_micros (ad_ledger a) id ≤ spend_usd_micros (ad_ledger a') id)%N.
Proof.
  revert a. induction ops as [|op ops IH]; intros a Hb; [done|]. cbn [run].
  pose proof (apply_op_spend a op id Hb) as [Hb' Hle]. pose proof (apply_op_policy a op) as Hp.
  destruct (apply_op parse_json a op) as [a1 o]. specialize (IH a1 Hb') as (IHp & IHb & IHle).
  destruct (run parse_json a1 ops) as [a2 os]. simpl in *. split_and!; [congruence|done|lia].
Qed.

Lemma run_app a ops1 ops2 :
  run parse_json a (ops1 ++ ops2) =
  let '(a1, os1) := run parse_json a ops1 in
  let '(a2, os2) := run parse_json a1 ops2 in (a2, os1 ++ os2).
Proof.
  revert a. induction ops1 as [|op ops1 IH]; intros a; cbn [app run].
  - by destruct (run parse_json a ops2).
  - destruct (apply_op parse_json a op) as [a1 o]. rewrite IH.
    destruct (run parse_json a1 ops1) as [a2 os1]. by destruct (run parse_json a2 ops2).
Qed.

(** An observation of a run was made by one of its operations. *)
Lemma run_observed a ops o :
  o ∈ (run parse_json a ops).2 →
  ∃ pre op post, ops = pre ++ op :: post ∧
    (apply_op parse_json (run parse_json a pre).1 op).2 = o.
Proof.
  revert a. induction ops as [|op ops IH]; intros a; cbn [run]; [by intros ?%elem_of_nil|].
  destruct (apply_op parse_json a op) as [a1 o1] eqn:Ha.
  destruct (run parse_json a1 ops) as [a2 os] eqn:Hr. simpl.
  intros [->|Hin]%elem_of_cons.
  - exists [], op, ops. simpl. by rewrite Ha.
  - specialize (IH a1). rewrite Hr in IH. destruct (IH Hin) as (pre & op' & post & -> & Ho).
    exists (op :: pre), op', post. split; [done|]. cbn [run]. rewrite Ha.
    by destruct (run parse_json a1 pre).
Qed.

(** ** Properties *)


(** The active attempt of a session is the one its prompt in flight made. *)
Definition session_ok (s : LocalSession) : Prop :=
  match ls_in_flight s with
  | None => ls_active s = None
  | Some prompt => ∃ c, ls_active s = Some {| aa_attempt_id := pp_attempt_id prompt;
                                              aa_cancel := c |}
  end.

Definition adapter_ok a : Prop := ∀ handle s, ad_sessions a !! handle = Some s → session_ok s.

Lemma set_session_ok a handle s : adapter_ok a → session_ok s → adapter_ok (set_session a handle s).
Proof.
  intros Ha Hs handle' s'. simpl. rewrite lookup_insert. case_decide; [by intros [= <-]|apply Ha].
Qed.

Lemma clear_active_ok s prompt :
  session_ok s → ls_in_flight s = Some prompt → session_ok (clear_active s (pp_attempt_id prompt)).
Proof.
  unfold session_ok. intros Hs Hf. rewrite Hf in Hs. destruct Hs as [c Hc].
  simpl. rewrite Hc. simpl. by rewrite decide_True.
Qed.

Lemma listed_session_Some a handle s :
  listed_session a handle = Some s → ad_sessions a !! handle = Some s.
Proof. unfold listed_session. by case_decide. Qed.

Lemma prompt_begin_ok a handle prompt resolved :
  adapter_ok a → adapter_ok (prompt_begin a handle prompt resolved).1.
Proof.
  intros Ha. unfold prompt_begin. destruct (ensure_active a); [|done].
  destruct (listed_session a handle) as [s|] eqn:Hl; [|done].
  destruct (ls_active s) eqn:Hact; [done|]. destruct (require_secret resolved); [|done].
  destruct (deny_error _); [|done].
  case_decide; apply set_session_ok; try done.
  - unfold session_ok. simpl. by rewrite decide_True.
  - unfold session_ok. simpl. by eexists.
Qed.

(** When the store accepts every write, a finished prompt releases its session. *)
Lemma prompt_finish_ok a handle s prompt answer :
  (∀ store id v, ∃ store', persist_spend store id v = (store', Ok tt)) →
  adapter_ok a → session_ok s → ls_in_flight s = Some prompt →
  (prompt_finish parse_json a handle s prompt answer).2 ≠ RS_Panicked →
  adapter_ok (prompt_finish parse_json a handle s prompt answer).1.
Proof.
  intros Hstore Ha Hs Hf. pose proof (clear_active_ok s prompt Hs Hf) as Hclear.
  unfold prompt_finish. destruct answer as [result|]; [|intros _; by apply set_session_ok].
  case_match; [intros _; by apply set_session_ok|].
  destruct (decode_body _ _) as [[[outputs completed]|]|];
    [|intros _; by apply set_session_ok|done].
  destruct (negb completed && _); [intros _; by apply set_session_ok|].
  destruct completed; [|intros _; by apply set_session_ok].
  unfold record_spend. rewrite (proj2 (N.eqb_neq _ 0)) by lia.
  destruct (lg_durable (ad_ledger a)) as [store|].
  - destruct (Hstore store (pp_session_id prompt)
      (saturating_add u64_max (spend_usd_micros (ad_ledger a) (pp_session_id prompt))
         (N.max (us_cost_usd_micros (tr_usage result)) 1))) as [store' ->].
    intros _. by apply set_session_ok.
  - intros _. by apply set_session_ok.
Qed.

Lemma apply_op_ok a op :
  (∀ store id v, ∃ store', persist_spend store id v = (store', Ok tt)) →
  adapter_ok a →
  (∀ handle prompt, (apply_op parse_json a op).2 ≠ OB_Finished handle prompt RS_Panicked) →
  adapter_ok (apply_op parse_json a op).1.
Proof.
  intros Hstore Ha.
  destruct op as [handle|handle prompt resolved|handle answer|handle attempt|]; simpl; intros Hob.
  - destruct (ad_sessions a !! handle); [done|]. unfold start. destruct (ensure_active a); [|done].
    intros h s. simpl. rewrite lookup_insert. case_decide; [by intros [= <-]|apply Ha].
  - destruct (in_flight a handle); [done|].
    pose proof (prompt_begin_ok a handle prompt resolved Ha) as Hp.
    by destruct (prompt_begin _ _ _ _).
  - destruct (ad_sessions a !! handle) as [s|] eqn:Hs; [|done].
    destruct (ls_in_flight s) as [prompt|] eqn:Hf; [|done].
    pose proof (prompt_finish_ok a handle s prompt answer Hstore Ha (Ha _ _ Hs) Hf) as Hp.
    destruct (prompt_finish _ _ _ _ _ _) as [a' r]. simpl in *. apply Hp.
    intros ->. by eapply Hob.
  - unfold cancel. destruct (listed_session a handle) as [s|] eqn:Hl; [|done].
    apply listed_session_Some in Hl. specialize (Ha _ _ Hl) as Hs. apply set_session_ok; [done|].
    unfold session_ok in *. simpl. destruct (ls_in_flight s) as [p|].
    + destruct Hs as [c ->]. simpl. destruct (bool_decide _) eqn:Hm; [|by eexists].
      bool_to_prop. subst. by eexists.
    + by rewrite Hs.
  - done.
Qed.

(** Sessions are released. As long as the spend store accepts its writes and no
    answer makes the decoder panic, in every run a session without a prompt in
    flight has no active attempt, so that the next prompt is never refused
    because of an attempt that is over. *)
Theorem session_released a ops handle s :
  (∀ store id v, ∃ store', persist_spend store id v = (store', Ok tt)) →
  adapter_ok a →
  (∀ h prompt, OB_Finished h prompt RS_Panicked ∉ (run parse_json a ops).2) →
  ad_sessions (run parse_json a ops).1 !! handle = Some s →
  ls_in_flight s = None →
  ls_active s = None.
Proof.
  intros Hstore Ha Hob Hs Hf. assert (Hok : adapter_ok (run parse_json a ops).1).
  { clear Hs Hf. revert a Ha Hob. induction ops as [|op ops IH]; intros a Ha; [done|].
    cbn [run]. pose proof (apply_op_ok a op Hstore Ha) as Ha1.
    destruct (apply_op parse_json a op) as [a1 o]. specialize (IH a1).
    destruct (run parse_json a1 ops) as [a2 os]. simpl in *. intros Hob. apply IH.
    - apply Ha1. intros h p ->. by apply (Hob h p); left.
    - intros h p Hin. by apply (Hob h p); right. }
  specialize (Hok _ _ Hs). unfold session_ok in Hok. by rewrite Hf in Hok.
Qed.

Definition stuck a handle : Prop :=
  ∃ s current, ad_sessions a !! handle = Some s ∧ ls_in_flight s = None ∧
    ls_active s = Some current.

Lemma set_session_stuck a handle handle' s :
  handle' ≠ handle → stuck a handle → stuck (set_session a handle' s) handle.
Proof.
  intros Hne (s0 & c & Hs & Hf). exists s0, c. simpl. by rewrite lookup_insert_ne.
Qed.

Lemma prompt_begin_stuck a handle handle' prompt resolved :
  stuck a handle → stuck (prompt_begin a handle' prompt resolved).1 handle ∧
  (handle' = handle → ∃ f, (prompt_begin a handle' prompt resolved).2 = Err f).
Proof.
  intros Hst. unfold prompt_begin. destruct (ensure_active a); [|by eauto].
  destruct (listed_session a handle') as [s|] eqn:Hl; [|by eauto].
  destruct (ls_active s) eqn:Hact; [by eauto|].
  assert (handle' ≠ handle).
  { intros ->. apply listed_session_Some in Hl. destruct Hst as (? & ? & ? & ? & ?). congruence. }
  destruct (require_secret resolved); [|by eauto]. destruct (deny_error _); [|by eauto].
  case_decide; (split; [by apply set_session_stuck|done]).
Qed.

Lemma prompt_finish_stuck a handle handle' s prompt answer :
  handle' ≠ handle → stuck a handle →
  stuck (prompt_finish parse_json a handle' s prompt answer).1 handle.
Proof.
  intros Hne Hst. unfold prompt_finish.
  destruct answer as [result|]; [|by apply set_session_stuck].
  case_match; [by apply set_session_stuck|].
  destruct (decode_body _ _) as [[[outputs completed]|]|]; [|by apply set_session_stuck..].
  destruct (negb completed && _); [by apply set_session_stuck|].
  destruct completed; [|by apply set_session_stuck].
  destruct (record_spend _ _ _) as [l [?|?]]; by apply (set_session_stuck a handle handle').
Qed.

Lemma apply_op_stuck a op handle :
  stuck a handle → stuck (apply_op parse_json a op).1 handle ∧
  (∀ prompt resolved, op = OP_Begin handle prompt resolved →
     ∃ f, (apply_op parse_json a op).2 = OB_Refused f).
Proof.
  intros Hst. pose proof Hst as (s & c & Hs & Hf & Hc).
  destruct op as [h|h p r|h answer|h attempt|]; simpl; (split; [|try done]).
  - destruct (ad_sessions a !! h) eqn:Hh; [done|]. unfold start.
    destruct (ensure_active a); [|done]. exists s, c. simpl.
    rewrite lookup_insert_ne by congruence. done.
  - destruct (in_flight a h); [done|].
    pose proof (prompt_begin_stuck a handle h p r Hst) as [Hp _].
    by destruct (prompt_begin _ _ _ _).
  - intros prompt resolved [= -> -> ->]. unfold in_flight. rewrite Hs. simpl. rewrite Hf.
    destruct (prompt_begin_stuck a handle handle prompt resolved Hst) as [_ Hr].
    destruct (Hr eq_refl) as [f Hf']. destruct (prompt_begin _ _ _ _). simpl in *.
    subst. by eexists.
  - destruct (ad_sessions a !! h) as [s'|] eqn:Hh; [|done].
    destruct (ls_in_flight s') as [prompt|] eqn:Hf'; [|done].
    assert (h ≠ handle) by (intros ->; congruence).
    pose proof (prompt_finish_stuck a handle h s' prompt answer) as Hp.
    destruct (prompt_finish _ _ _ _ _ _). by apply Hp.
  - unfold cancel. destruct (listed_session a h) as [s'|] eqn:Hl; [|done].
    destruct (decide (h = handle)) as [->|Hne]; [|by apply set_session_stuck].
    apply listed_session_Some in Hl. simplify_eq. rewrite Hc. simpl.
    destruct (bool_decide _); eexists _, _; simpl; rewrite lookup_insert_eq; done.
  - exists s, c. done.
Qed.

(** A session whose lock was released without clearing its active attempt is lost:
    whatever happens afterwards, every further prompt on its handle is refused.
    Finishing an answer whose spend cannot be stored leaves a session in exactly
    that state. *)
Theorem unreleased_session_is_lost a handle pre prompt resolved :
  stuck a handle →
  ∃ f, (apply_op parse_json (run parse_json a pre).1
          (OP_Begin handle prompt resolved)).2 = OB_Refused f.
Proof.
  intros Hst. assert (Hst' : stuck (run parse_json a pre).1 handle).
  { revert a Hst. induction pre as [|op pre IH]; intros a Hst; [done|]. cbn [run].
    destruct (apply_op_stuck a op handle Hst) as [Hst1 _].
    destruct (apply_op parse_json a op) as [a1 o]. specialize (IH a1 Hst1).
    by destruct (run parse_json a1 pre). }
  by eapply (proj2 (apply_op_stuck _ (OP_Begin handle prompt resolved) _ Hst')).
Qed.

(** The ledger in memory shows what the store holds. *)
Definition synced l : Prop :=
  ∃ store, lg_durable l = Some store ∧
    ∀ id, spend_usd_micros l id = default 0%N (spends store !! id).

Lemma restore_entries (entries : list (Uuid * N)) (m : gmap Uuid N) id :
  NoDup entries.*1 →
  default 0%N (foldl (λ m e, if (0 <? e.2)%N then <[e.1 := e.2]> m else m) m entries !! id) =
  match list_to_map (M := gmap Uuid N) entries !! id with
  | Some v => if (0 <? v)%N then v else default 0%N (m !! id)
  | None => default 0%N (m !! id)
  end.
Proof.
  revert m. induction entries as [|[k v] entries IH]; intros m; [done|].
  cbn [fmap list_fmap fst]. intros [Hk Hnd]%NoDup_cons. simpl. rewrite IH by done.
  rewrite lookup_insert. apply not_elem_of_list_to_map_1 in Hk.
  destruct (decide (k = id)) as [<-|Hne].
  - rewrite Hk. destruct (0 <? v)%N; [|done]. by rewrite lookup_insert_eq.
  - destruct (0 <? v)%N; [|done]. by rewrite lookup_insert_ne.
Qed.

Lemma restore_synced l l' :
  is_Some (lg_durable l) → restore_from_durable l = Ok l' → synced l'.
Proof.
  unfold restore_from_durable. intros [store Hst]. rewrite Hst. intros Hr. break_results.
  simplify_eq. match goal with H : load_spends _ = Ok _ |- _ =>
    apply load_spends_map in H as [Hmap Hnd] end.
  exists store. split; [done|]. intros id. unfold spend_usd_micros. simpl.
  rewrite restore_entries, Hmap by done. rewrite lookup_empty.
  destruct (spends store !! id) as [v|]; [|done]. simpl.
  destruct (0 <? v)%N eqn:Hv; [done|]. bool_to_prop. lia.
Qed.

Lemma record_spend_synced l id v l' total :
  synced l → record_spend l id v = (l', Ok total) → synced l'.
Proof.
  intros (store & Hst & Hsync). unfold record_spend.
  destruct (v =? 0)%N; [intros [= <- <-]; by exists store|]. rewrite Hst.
  destruct (persist_spend _ _ _) as [store' [u|e]] eqn:Hp; [|done].
  intros [= <- <-]. apply persist_spend_ok in Hp. exists store'. split; [done|].
  intros id'. unfold spend_usd_micros. simpl. rewrite Hp, !lookup_insert.
  case_decide; [done|]. apply Hsync.
Qed.

(** Several spends in a row; every result is kept. *)
Fixpoint record_all l (calls : list (Uuid * N))
    : SessionCostLedger S * list (Result N OpenRouterError) :=
  match calls with
  | [] => (l, [])
  | (id, v) :: calls =>
      let '(l, r) := record_spend l id v in
      let '(l, rs) := record_all l calls in (l, r :: rs)
  end.

Lemma record_all_synced l calls l' totals :
  synced l → record_all l calls = (l', totals) →
  Forall (λ r, is_ok r = true) totals → synced l'.
Proof.
  revert l totals. induction calls as [|[id v] calls IH]; intros l totals Hs; cbn [record_all].
  { by intros [= <- <-]. }
  destruct (record_spend l id v) as [l1 r] eqn:Hr.
  destruct (record_all l1 calls) as [l2 rs] eqn:Hall. intros [= <- <-] [Hok Hoks]%Forall_cons.
  destruct r as [total|]; [|done]. eapply IH; [|exact Hall|exact Hoks].
  by eapply record_spend_synced.
Qed.

(** Spending survives a restart: starting from a ledger restored from its store,
    after any sequence of recorded spends that all succeeded, a ledger restored
    from the store again shows every session exactly what the old one did. *)
Theorem ledger_survives_restart store l0 calls l totals l' :
  with_durable_store store = Ok l0 →
  record_all l0 calls = (l, totals) →
  Forall (λ r, is_ok r = true) totals →
  restore_from_durable l = Ok l' →
  ∀ id, spend_usd_micros l' id = spend_usd_micros l id.
Proof.
  intros Hstart%restore_synced Hrun Hok Hrest id; [|done].
  destruct (record_all_synced _ _ _ _ Hstart Hrun Hok) as (store' & Hst & Hsync).
  rewrite Hsync.
  assert (Hs' : synced l') by (eapply restore_synced; [|exact Hrest]; by rewrite Hst).
  destruct Hs' as (store'' & Hst' & ->). unfold restore_from_durable in Hrest.
  rewrite Hst in Hrest. break_results. simplify_eq/=. by simplify_eq.
Qed.
End lemmas.

(** ** Witnesses *)

(** A store in memory. *)
#[export] Instance memory_spends : SpendStore (gmap Uuid N) := {|
  load_spends s := Ok (map_to_list s);
  persist_spend s id v := (<[id := v]> s, Ok tt);
|}.

#[export] Instance memory_spends_laws : SpendStoreLaws (gmap Uuid N).
Proof.
  refine {| spends s := s |}.
  - intros s l [= <-]. split; [apply list_to_map_to_list|apply NoDup_fst_map_to_list].
  - by intros s id v s' u [= <- <-].
  - by intros s id v s' e [= <- <-].
Defined.

(** A store whose disk is full. *)
Record FullDisk : Type := full_disk {}.

#[export] Instance full_disk_spends : SpendStore FullDisk := {|
  load_spends _ := Ok [];
  persist_spend s _ _ := (s, Err (or_error OE_Unavailable "spend store unavailable"));
|}.

#[export] Instance full_disk_laws : SpendStoreLaws FullDisk.
Proof.
  refine {| spends _ := ∅ |}.
  - intros s l [= <-]. split; [done|constructor].
  - by intros s id v s' u.
  - intros s id v s' e [= <- <-]. by left.
Defined.

Definition sample_policy : CostPolicyConfig :=
  {| cc_max_session_usd_micros := 50000; cc_max_attempt_usd_micros := Some 20000%N |}.

Definition fresh_adapter {S} (ledger : SessionCostLedger S) : Adapter S :=
  {| ad_policy := sample_policy; ad_ledger := ledger; ad_sessions := ∅; ad_listed := ∅;
     ad_shutting_down := false |}.

Definition sample_prompt : ProviderPrompt :=
  {| pp_session_id := 7%N; pp_attempt_id := 9%N; pp_runtime_model := "m"; pp_content := "hi" |}.

Definition sample_answer : Result TransportResult OpenRouterError :=
  Ok {| tr_body := sse_body ["{ok"; "[DONE]"];
        tr_usage := {| us_prompt_tokens := 1; us_completion_tokens := 1;
                       us_cost_usd_micros := 50000 |} |}.

Definition sample_ops : list AdapterOp :=
  [OP_Start "h"; OP_Begin "h" sample_prompt (Ok (Some "key")); OP_Finish "h" sample_answer].

Definition spent_adapter : Adapter (gmap Uuid N) :=
  (run toy_parse (fresh_adapter {| lg_by_session := ∅; lg_durable := Some (∅ : gmap Uuid N) |})
     sample_ops).1.


Lemma session_released_witness :
  ls_active {| ls_in_flight := None; ls_active := None; ls_pending := [] |} = None.
Proof.
  apply (session_released toy_parse
    (fresh_adapter {| lg_by_session := ∅; lg_durable := Some (∅ : gmap Uuid N) |})
    sample_ops "h").
  - intros store id v. by eexists.
  - intros handle s Hs. simpl in Hs. by rewrite lookup_empty in Hs.
  - intros h prompt Hin. revert Hin. vm_compute. intros Hin.
    repeat (apply elem_of_cons in Hin as [Hin|Hin]; [discriminate Hin|]).
    by apply elem_of_nil in Hin.
  - vm_compute. reflexivity.
  - reflexivity.
Defined.

(** The adapter after a complete answer whose spend could not be stored. *)
Definition lost_adapter : Adapter FullDisk :=
  (run toy_parse (fresh_adapter {| lg_by_session := ∅; lg_durable := Some full_disk |})
     sample_ops).1.

Lemma unreleased_session_is_lost_witness :
  ∃ f, (apply_op toy_parse (run toy_parse lost_adapter [OP_Cancel "h" 9%N]).1
          (OP_Begin "h" sample_prompt (Ok (Some "key")))).2 = OB_Refused f.
Proof.
  apply (unreleased_session_is_lost toy_parse lost_adapter "h").
  eexists _, _. split_and!; vm_compute; reflexivity.
Defined.

Lemma ledger_survives_restart_witness :
  spend_usd_micros {| lg_by_session := {[7%N := 12%N]};
                      lg_durable := Some ({[7%N := 12%N]} : gmap Uuid N) |} 7%N =
  spend_usd_micros {| lg_by_session := <[7%N := 12%N]> (<[7%N := 5%N]> ∅);
                      lg_durable := Some (<[7%N := 12%N]> (<[7%N := 5%N]> ∅) : gmap Uuid N) |} 7%N.
Proof.
  apply (ledger_survives_restart (∅ : gmap Uuid N)
           {| lg_by_session := ∅; lg_durable := Some (∅ : gmap Uuid N) |}
           [(7%N, 5%N); (7%N, 7%N)] _ [Ok 5%N; Ok 12%N]).
  - reflexivity.
  - vm_compute. reflexivity.
  - repeat constructor.
  - vm_compute. reflexivity.
Defined.
