(* ===== verification/StorageKeys.v ===== *)
(** * StorageKeys: sealed payloads and per-session keys
      (workbench-storage/src/lib.rs, crypto.rs, key_store.rs)

    Every payload is sealed under a key of its session, and every session key is
    kept in a key store, wrapped under a root key. [KeyStore] is the store as an
    interface with the promises clients rely on; the in-memory store discharges it,
    and the platform store is modelled over the key ring. [KeyManager] creates,
    opens, rotates and destroys session keys. The cipher, base64, JSON text, UUID
    text, hashing and the random source are parameters ([StorageEnv]); a random
    draw is an index into the source, and the number of draws so far is kept with
    the manager. *)

From S2P Require Import Prelude StateResult Text BTree Errors Json Wire Event.

(** ** Errors *)

(** The boxed cause of an unavailability is never inspected. *)
Inductive StorageError : Type :=
| SE_InvalidInput (message : string)
| SE_StorageUnavailable
| SE_KeyStoreUnavailable
| SE_AuthenticationFailed
| SE_SessionNotFound
| SE_RequestConflict
| SE_UnsafeExportPath.

#[export] Instance StorageError_eq_dec : EqDecision StorageError.
Proof. solve_decision. Defined.

(** ** The environment *)

Class StorageEnv : Type := {
  uuid_text : Uuid → string;
  uuid_parse : string → option Uuid;
  json_print : Value → string;
  json_parse : string → option Value;
  time_text : OffsetDateTime → string;
  time_parse : string → option OffsetDateTime;
  blake3_hex : string → string;
  base64_encode : string → string;
  base64_decode : string → option string;
  (** key, nonce, associated data, message *)
  aead_encrypt : string → string → string → string → option string;
  aead_decrypt : string → string → string → string → option string;
  (** the bytes and the identifier of the n-th draw *)
  random_bytes : N → N → string;
  now_v7 : N → Uuid;
}.

Definition KEY_BYTES : N := 32.
Definition NONCE_BYTES : N := 24.

Class StorageEnvLaws `{StorageEnv} : Prop := {
  uuid_roundtrip u : uuid_parse (uuid_text u) = Some u;
  json_roundtrip doc : doc_ok doc → json_parse (json_print doc) = Some doc;
  (** a number that does not fit a double is an error *)
  json_finite text doc : json_parse text = Some doc → numbers_finite doc = true;
  (** the text of an object contains its strings *)
  json_longer es k s : (k, VString s) ∈ es → (len s < len (json_print (VObject es)))%N;
  time_roundtrip t : time_parse (time_text t) = Some t;
  base64_roundtrip s : base64_decode (base64_encode s) = Some s;
  base64_length s : len (base64_encode s) = (4 * ((len s + 2) / 3))%N;
  aead_roundtrip k n a m c : aead_encrypt k n a m = Some c → aead_decrypt k n a c = Some m;
  aead_length k n a m c : aead_encrypt k n a m = Some c → len c = (len m + 16)%N;
  (** a ciphertext is authentic under one key only *)
  aead_one_key k k' n a c m m' :
    aead_decrypt k n a c = Some m → aead_decrypt k' n a c = Some m' → k = k';
  random_length i n : len (random_bytes i n) = n;
}.

(** [serde_json::from_slice] for a struct: a repeated field is an error. *)
Definition from_slice `{StorageEnv} {A} (c : Codec A) (s : string) : option A :=
  match json_parse s with
  | Some (VObject es) =>
      if all_distinct (es.*1) then ok (dec c (canonical (VObject es))) else None
  | Some doc => ok (dec c (canonical doc))
  | None => None
  end.

(** ** Sealed payloads *)

Definition SecretKey : Type := string.

Definition SecretKey_from_slice (bytes : string) : Result SecretKey StorageError :=
  if (len bytes =? KEY_BYTES)%N then Ok bytes else Err (SE_InvalidInput "key must be 256 bits").

Record AssociatedData : Type := {
  ad_schema_version : N;
  ad_session_id : Uuid;
  ad_object_id : string;
  ad_sequence : N;
  ad_kind : string;
}.

Record EncryptedPayload : Type := { ep_nonce : string; ep_ciphertext : string }.

#[export] Instance EncryptedPayload_eq_dec : EqDecision EncryptedPayload.
Proof. solve_decision. Defined.

Section crypto.
Context `{StorageEnv}.

Definition uuid_codec : Codec Uuid := via_string uuid_text uuid_parse.

(** [serde_json::to_vec(associated_data)] *)
Definition aad_text (ad : AssociatedData) : string :=
  json_print (VObject [
    ("schema_version", VNumber (PosInt (ad_schema_version ad)));
    ("session_id", VString (uuid_text (ad_session_id ad)));
    ("object_id", VString (ad_object_id ad));
    ("sequence", VNumber (PosInt (ad_sequence ad)));
    ("kind", VString (ad_kind ad))]).

(** [EncryptedPayload::encrypt], with the nonce it draws as an argument. *)
Definition encrypt (nonce : string) (key : SecretKey) (plaintext : string) (ad : AssociatedData)
    : Result EncryptedPayload StorageError :=
  match aead_encrypt key nonce (aad_text ad) plaintext with
  | Some ciphertext => Ok {| ep_nonce := nonce; ep_ciphertext := ciphertext |}
  | None => Err SE_AuthenticationFailed
  end.

(** [EncryptedPayload::decrypt] *)
Definition decrypt (p : EncryptedPayload) (key : SecretKey) (ad : AssociatedData)
    : Result string StorageError :=
  if (len (ep_nonce p) =? NONCE_BYTES)%N
  then ok_or (aead_decrypt key (ep_nonce p) (aad_text ad) (ep_ciphertext p)) SE_AuthenticationFailed
  else Err SE_AuthenticationFailed.
End crypto.

(** ** Key stores *)

(** The trait, and [ks_entry], the secret a store holds for an identifier. *)
Class KeyStore (K : Type) : Type := {
  ks_put : K → string → string → K * Result unit StorageError;
  ks_get : K → string → Result (option string) StorageError;
  ks_delete : K → string → K * Result unit StorageError;
  ks_list : K → string → Result (list string) StorageError;
  ks_entry : K → string → option string;
}.

(** What the clients rely on. A write that fails leaves the old or the new secret,
    and touches no other. *)
Class KeyStoreLaws (K : Type) `{KeyStore K} : Prop := {
  put_Ok k id s k' u : ks_put k id s = (k', Ok u) → ks_entry k' id = Some s;
  put_Err k id s k' e :
    ks_put k id s = (k', Err e) → ks_entry k' id = ks_entry k id ∨ ks_entry k' id = Some s;
  put_other k id s k' r i : ks_put k id s = (k', r) → i ≠ id → ks_entry k' i = ks_entry k i;
  get_Ok k id o : ks_get k id = Ok o → o = ks_entry k id;
  delete_Ok k id k' u : ks_delete k id = (k', Ok u) → ks_entry k' id = None;
  delete_Err k id k' e :
    ks_delete k id = (k', Err e) → ks_entry k' id = ks_entry k id ∨ ks_entry k' id = None;
  delete_other k id k' r i : ks_delete k id = (k', r) → i ≠ id → ks_entry k' i = ks_entry k i;
  list_Ok k p ids id :
    ks_list k p = Ok ids → starts_with p id = true → ks_entry k id ≠ None → id ∈ ids;
  list_prefix k p ids id : ks_list k p = Ok ids → id ∈ ids → starts_with p id = true;
}.

(** *** The in-memory store *)

(** The hash map is only enumerated in sorted order. *)
Record MemoryKeyStore : Type := { mk_entries : BTreeMap string; mk_available : bool }.

Definition MemoryKeyStore_new : MemoryKeyStore := {| mk_entries := []; mk_available := true |}.

Definition set_available (k : MemoryKeyStore) (available : bool) : MemoryKeyStore :=
  {| mk_entries := mk_entries k; mk_available := available |}.

Definition require_available (k : MemoryKeyStore) : Result unit StorageError :=
  if mk_available k then Ok tt else Err SE_KeyStoreUnavailable.

Definition memory_put (k : MemoryKeyStore) (id secret : string)
    : MemoryKeyStore * Result unit StorageError :=
  match require_available k with
  | Err e => (k, Err e)
  | Ok _ => ({| mk_entries := bt_insert id secret (mk_entries k);
                mk_available := mk_available k |}, Ok tt)
  end.

Definition memory_get (k : MemoryKeyStore) (id : string) : Result (option string) StorageError :=
  let? _ := require_available k in Ok (bt_get id (mk_entries k)).

Definition bt_remove {V} (id : string) (m : BTreeMap V) : BTreeMap V :=
  List.filter (λ e, bool_decide (e.1 ≠ id)) m.

Definition memory_delete (k : MemoryKeyStore) (id : string)
    : MemoryKeyStore * Result unit StorageError :=
  match require_available k with
  | Err e => (k, Err e)
  | Ok _ => ({| mk_entries := bt_remove id (mk_entries k);
                mk_available := mk_available k |}, Ok tt)
  end.

Definition memory_list (k : MemoryKeyStore) (prefix : string)
    : Result (list string) StorageError :=
  let? _ := require_available k in
  Ok (List.filter (starts_with prefix) (bt_keys (mk_entries k))).

#[export] Instance MemoryKeyStore_KeyStore : KeyStore MemoryKeyStore := {
  ks_put := memory_put;
  ks_get := memory_get;
  ks_delete := memory_delete;
  ks_list := memory_list;
  ks_entry k id := bt_get id (mk_entries k);
}.

Lemma bt_get_remove {V} k id (m : BTreeMap V) :
  bt_get k (bt_remove id m) = if decide (k = id) then None else bt_get k m.
Proof.
  induction m as [|[k' v] m IH]; simpl; [by case_decide|].
  case_bool_decide as Hk; simpl; rewrite IH; repeat case_decide; congruence.
Qed.

#[export] Instance MemoryKeyStore_laws : KeyStoreLaws MemoryKeyStore.
Proof.
  split; simpl; unfold memory_put, memory_get, memory_delete, memory_list, require_available;
    intros *; destruct (mk_available k) eqn:Hav; simpl; intros; simplify_eq/=;
    rewrite ?bt_get_insert, ?bt_get_remove; rewrite ?decide_True by done;
    rewrite ?decide_False by done; auto.
  - apply list_elem_of_In, filter_In. split; [|done]. apply list_elem_of_In.
    destruct (bt_get id (mk_entries k)) eqn:Hg; [|done].
    apply bt_get_In in Hg. unfold bt_keys. by apply list_elem_of_fmap_2' with (x := (id, s)).
  - match goal with Hin : _ ∈ _ |- _ => by apply list_elem_of_In, filter_In in Hin as [_ ?] end.
Qed.

(** *** The platform store *)

(** The key ring of the platform: one secret per identifier. [None] is a missing
    entry, an error any other failure of the key ring. *)
Class Keyring (R : Type) : Type := {
  kr_get : R → string → Result (option string) StorageError;
  kr_set : R → string → string → R * Result unit StorageError;
  kr_delete : R → string → R * Result unit StorageError;
}.

Definition PLATFORM_CATALOG_PREFIX : string := "workbench/key-catalog/v2".

(** The catalog of the namespace a key or a prefix belongs to. *)
Definition platform_catalog_id (key_or_prefix : string) : Result string StorageError :=
  match split_byte SLASH key_or_prefix with
  | "workbench" :: "storage" :: storage_id :: location_id :: _ =>
      if is_empty storage_id || is_empty location_id
      then Err (SE_InvalidInput "key-store access requires a complete database namespace")
      else Ok (PLATFORM_CATALOG_PREFIX +:+ "/" +:+ storage_id +:+ "/" +:+ location_id)
  | _ => Err (SE_InvalidInput "key-store access requires a complete database namespace")
  end.

(** [CatalogPutOps] *)
Class CatalogPutOps (T : Type) : Type := {
  op_get_secret : T → string → Result (option string) StorageError;
  op_set_secret : T → string → string → T * Result unit StorageError;
  op_delete_secret : T → string → T * Result unit StorageError;
  op_read_catalog : T → string → Result (BTreeMap unit) StorageError;
  op_write_catalog : T → string → BTreeMap unit → T * Result unit StorageError;
}.

(** Writes the secret and then its catalog; a failing catalog write is undone. *)
Definition cataloged_put {T} `{CatalogPutOps T} (t : T) (id secret catalog_id : string)
    : T * Result unit StorageError :=
  match op_get_secret t id with
  | Err e => (t, Err e)
  | Ok previous =>
      match op_read_catalog t catalog_id with
      | Err e => (t, Err e)
      | Ok catalog =>
          match op_set_secret t id secret with
          | (t, Err e) => (t, Err e)
          | (t, Ok _) =>
              match op_write_catalog t catalog_id (bt_insert id tt catalog) with
              | (t, Ok _) => (t, Ok tt)
              | (t, Err error) =>
                  match match previous with
                        | Some previous => op_set_secret t id previous
                        | None => op_delete_secret t id
                        end with
                  | (t, Err e) => (t, Err e)
                  | (t, Ok _) => (t, Err error)
                  end
              end
          end
      end
  end.

Section platform.
Context `{StorageEnv} {R : Type} `{Keyring R}.

Definition catalog_codec : Codec (list string) := vec_codec string_codec.

(** [PlatformKeyStore::catalog] *)
Definition read_catalog (r : R) (catalog_id : string) : Result (BTreeMap unit) StorageError :=
  let? secret := kr_get r catalog_id in
  match secret with
  | None => Ok []
  | Some bytes =>
      match from_slice catalog_codec bytes with
      | Some ids => Ok (bt_from_list (List.map (λ id, (id, tt)) ids))
      | None => Err SE_KeyStoreUnavailable
      end
  end.

(** [PlatformKeyStore::write_catalog] *)
Definition write_catalog (r : R) (catalog_id : string) (catalog : BTreeMap unit)
    : R * Result unit StorageError :=
  kr_set r catalog_id (json_print (enc catalog_codec (bt_keys catalog))).

#[export] Instance PlatformCatalogPutOps : CatalogPutOps R := {
  op_get_secret := kr_get;
  op_set_secret := kr_set;
  op_delete_secret := kr_delete;
  op_read_catalog := read_catalog;
  op_write_catalog := write_catalog;
}.

Definition platform_put (r : R) (id secret : string) : R * Result unit StorageError :=
  match platform_catalog_id id with
  | Err e => (r, Err e)
  | Ok catalog_id => cataloged_put r id secret catalog_id
  end.

Definition platform_delete (r : R) (id : string) : R * Result unit StorageError :=
  match platform_catalog_id id with
  | Err e => (r, Err e)
  | Ok catalog_id =>
      match kr_delete r id with
      | (r, Err e) => (r, Err e)
      | (r, Ok _) =>
          match read_catalog r catalog_id with
          | Err e => (r, Err e)
          | Ok catalog =>
              let catalog := bt_remove id catalog in
              if bt_is_empty catalog then kr_delete r catalog_id
              else write_catalog r catalog_id catalog
          end
      end
  end.

Definition platform_list (r : R) (prefix : string) : Result (list string) StorageError :=
  let? catalog_id := platform_catalog_id prefix in
  let? catalog := read_catalog r catalog_id in
  Ok (List.filter (starts_with prefix) (bt_keys catalog)).
End platform.

(** ** The key manager *)

Record SessionKeyEnvelope : Type := {
  ke_schema_version : N;
  ke_session_id : Uuid;
  ke_key_id : string;
  ke_root_key_id : string;
  ke_algorithm : string;
  ke_nonce : string;
  ke_wrapped_key : string;
}.

Record RootKeyRecord : Type := {
  rk_schema_version : N;
  rk_current : string;
  rk_previous : option string;
}.

Record KeyManager (K : Type) : Type := {
  km_store : K;
  km_root_key_id : string;
  km_session_key_prefix : string;
  km_cache : gmap Uuid SecretKey;
  km_draws : N;
}.
Arguments km_store {K}.
Arguments km_root_key_id {K}.
Arguments km_session_key_prefix {K}.
Arguments km_cache {K}.
Arguments km_draws {K}.

Section manager.
Context `{StorageEnv} {K : Type} `{KeyStore K}.
Implicit Types m : KeyManager K.

Definition KM : Type → Type := ST (KeyManager K) StorageError.

Definition envelope_codec : Codec SessionKeyEnvelope :=
  open_struct_codec
    (required "schema_version" (uint_codec u32_max)
    (required "session_id" uuid_codec
    (required "key_id" string_codec
    (required "root_key_id" string_codec
    (required "algorithm" string_codec
    (required "nonce" string_codec
    (required "wrapped_key" string_codec no_fields)))))))
    (λ e, (ke_schema_version e, (ke_session_id e, (ke_key_id e, (ke_root_key_id e,
           (ke_algorithm e, (ke_nonce e, (ke_wrapped_key e, tt))))))))
    (λ '(v, (s, (k, (r, (a, (n, (w, _))))))),
       {| ke_schema_version := v; ke_session_id := s; ke_key_id := k; ke_root_key_id := r;
          ke_algorithm := a; ke_nonce := n; ke_wrapped_key := w |}).

Definition root_codec : Codec RootKeyRecord :=
  open_struct_codec
    (required "schema_version" (uint_codec u32_max)
    (required "current" string_codec
    (nullable "previous" string_codec no_fields)))
    (λ r, (rk_schema_version r, (rk_current r, (rk_previous r, tt))))
    (λ '(v, (c, (p, _))), {| rk_schema_version := v; rk_current := c; rk_previous := p |}).

Definition with_store (m : KeyManager K) (store : K) : KeyManager K :=
  {| km_store := store; km_root_key_id := km_root_key_id m;
     km_session_key_prefix := km_session_key_prefix m; km_cache := km_cache m;
     km_draws := km_draws m |}.

Definition with_cache (m : KeyManager K) (cache : gmap Uuid SecretKey) : KeyManager K :=
  {| km_store := km_store m; km_root_key_id := km_root_key_id m;
     km_session_key_prefix := km_session_key_prefix m; km_cache := cache;
     km_draws := km_draws m |}.

Definition with_draws (m : KeyManager K) (draws : N) : KeyManager K :=
  {| km_store := km_store m; km_root_key_id := km_root_key_id m;
     km_session_key_prefix := km_session_key_prefix m; km_cache := km_cache m;
     km_draws := draws |}.

(** [KeyManager::for_storage] *)
Definition for_storage (store : K) (storage_id : Uuid) (location_scope : string) (draws : N)
    : KeyManager K :=
  let namespace :=
    "workbench/storage/" +:+ uuid_text storage_id +:+ "/" +:+ blake3_hex location_scope in
  {| km_store := store;
     km_root_key_id := namespace +:+ "/root/v1";
     km_session_key_prefix := namespace +:+ "/session/";
     km_cache := ∅;
     km_draws := draws |}.

Definition session_key_id (m : KeyManager K) (session_id : Uuid) : string :=
  km_session_key_prefix m +:+ uuid_text session_id +:+ "/v1".

Definition owns_session_key (m : KeyManager K) (session_id : Uuid) (key_id : string) : bool :=
  bool_decide (session_key_id m session_id = key_id).

(** A draw of [n] random bytes. *)
Definition draw (n : N) : KM string :=
  λ m, (with_draws m (km_draws m + 1), Ok (random_bytes (km_draws m) n)).

Definition store_put (id secret : string) : KM unit :=
  λ m, let '(k, r) := ks_put (km_store m) id secret in (with_store m k, r).

Definition store_get (id : string) : KM (option string) :=
  λ m, (m, ks_get (km_store m) id).

Definition store_delete (id : string) : KM unit :=
  λ m, let '(k, r) := ks_delete (km_store m) id in (with_store m k, r).

Definition cache_insert (session_id : Uuid) (key : SecretKey) : KM unit :=
  st_modify (λ m, with_cache m (<[session_id := key]> (km_cache m))).

Definition envelope_aad (session_id : Uuid) (key_id root_key_id : string) : AssociatedData :=
  {| ad_schema_version := 1; ad_session_id := session_id; ad_object_id := key_id;
     ad_sequence := 0; ad_kind := root_key_id |}.

Definition validate_envelope (e : SessionKeyEnvelope) (session_id : Uuid)
    (key_id root_key_id : string) : Result unit StorageError :=
  if negb (ke_schema_version e =? 1)%N
     || bool_decide (ke_session_id e ≠ session_id)
     || bool_decide (ke_key_id e ≠ key_id)
     || bool_decide (ke_root_key_id e ≠ root_key_id)
     || bool_decide (ke_algorithm e ≠ "xchacha20-poly1305")
  then Err SE_AuthenticationFailed
  else match base64_decode (ke_wrapped_key e) with
       | None => Err SE_AuthenticationFailed
       | Some wrapped =>
           reject_if (negb (len wrapped =? KEY_BYTES + 16)%N) SE_AuthenticationFailed
       end.

Definition decrypt_with_root_candidates (p : EncryptedPayload) (current : SecretKey)
    (previous : option SecretKey) (ad : AssociatedData) : Result string StorageError :=
  match decrypt p current ad with
  | Ok plaintext => Ok plaintext
  | Err SE_AuthenticationFailed =>
      match previous with
      | None => Err SE_AuthenticationFailed
      | Some key => decrypt p key ad
      end
  | Err e => Err e
  end.

(** The payload of an envelope; the decoding of [session_key] and of the rewrap loop. *)
Definition envelope_payload (e : SessionKeyEnvelope) : Result EncryptedPayload StorageError :=
  let? nonce := ok_or (base64_decode (ke_nonce e)) SE_AuthenticationFailed in
  let? ciphertext := ok_or (base64_decode (ke_wrapped_key e)) SE_AuthenticationFailed in
  Ok {| ep_nonce := nonce; ep_ciphertext := ciphertext |}.

(** The stored form of the root keys: 32 raw bytes, or a record. *)
Definition parse_root_keys (bytes : string)
    : Result (SecretKey * option SecretKey) StorageError :=
  if (len bytes =? KEY_BYTES)%N then
    let? key := SecretKey_from_slice bytes in Ok (key, None)
  else
    let? record := ok_or (from_slice root_codec bytes) SE_KeyStoreUnavailable in
    if negb (rk_schema_version record =? 1)%N then Err SE_KeyStoreUnavailable
    else
      let? current := ok_or (base64_decode (rk_current record)) SE_KeyStoreUnavailable in
      let? previous :=
        match rk_previous record with
        | None => Ok None
        | Some encoded =>
            let? bytes := ok_or (base64_decode encoded) SE_KeyStoreUnavailable in
            result_map Some (SecretKey_from_slice bytes)
        end in
      let? key := SecretKey_from_slice current in
      Ok (key, previous).

Definition root_keys : KM (SecretKey * option SecretKey) :=
  λ m, st_bind (store_get (km_root_key_id m)) (λ bytes,
    match bytes with
    | None => st_err SE_KeyStoreUnavailable
    | Some bytes => st_lift (parse_root_keys bytes)
    end) m.

Definition root_record_text (current : SecretKey) (previous : option SecretKey) : string :=
  json_print (enc root_codec {| rk_schema_version := 1;
                                rk_current := base64_encode current;
                                rk_previous := base64_encode <$> previous |}).

Definition write_root_record (current : SecretKey) (previous : option SecretKey) : KM unit :=
  λ m, store_put (km_root_key_id m) (root_record_text current previous) m.

Definition load_or_create_root_keys : KM (SecretKey * option SecretKey) :=
  λ m, st_bind (store_get (km_root_key_id m)) (λ bytes,
    match bytes with
    | Some _ => root_keys
    | None =>
        let! key := draw KEY_BYTES in
        let! _ := write_root_record key None in
        st_ret (key, None)
    end) m.

Definition envelope_text (e : SessionKeyEnvelope) : string := json_print (enc envelope_codec e).

(** [KeyManager::create_session_key] *)
Definition create_session_key (session_id : Uuid) : KM string :=
  λ m,
    let key_id := session_key_id m session_id in
    let root_key_id := km_root_key_id m in
    st_bind (store_get key_id) (λ existing,
      match existing with
      | Some _ => st_err (SE_InvalidInput "session key already exists")
      | None =>
          let! roots := load_or_create_root_keys in
          let! session_key := draw KEY_BYTES in
          let! nonce := draw NONCE_BYTES in
          let! wrapped := st_lift
            (encrypt nonce roots.1 session_key (envelope_aad session_id key_id root_key_id)) in
          let! _ := store_put key_id (envelope_text
            {| ke_schema_version := 1; ke_session_id := session_id; ke_key_id := key_id;
               ke_root_key_id := root_key_id; ke_algorithm := "xchacha20-poly1305";
               ke_nonce := base64_encode (ep_nonce wrapped);
               ke_wrapped_key := base64_encode (ep_ciphertext wrapped) |}) in
          let! _ := cache_insert session_id session_key in
          st_ret key_id
      end) m.

(** The checks of [session_key] on a stored envelope. *)
Definition open_envelope (session_id : Uuid) (key_id root_key_id encoded : string)
    : Result EncryptedPayload StorageError :=
  let? envelope := ok_or (from_slice envelope_codec encoded) SE_StorageUnavailable in
  let? _ := validate_envelope envelope session_id key_id root_key_id in
  let? encrypted := envelope_payload envelope in
  if negb (len (ep_nonce encrypted) =? NONCE_BYTES)%N then Err SE_AuthenticationFailed
  else Ok encrypted.

(** [KeyManager::session_key] *)
Definition session_key (session_id : Uuid) : KM SecretKey :=
  λ m,
    match km_cache m !! session_id with
    | Some key => (m, Ok key)
    | None =>
        let key_id := session_key_id m session_id in
        let root_key_id := km_root_key_id m in
        st_bind (store_get key_id) (λ encoded,
          match encoded with
          | None => st_err SE_KeyStoreUnavailable
          | Some encoded =>
              let! encrypted := st_lift (open_envelope session_id key_id root_key_id encoded) in
              let! roots := root_keys in
              let! plaintext := st_lift (decrypt_with_root_candidates encrypted roots.1 roots.2
                (envelope_aad session_id key_id root_key_id)) in
              let! session_key := st_lift (SecretKey_from_slice plaintext) in
              let! _ := cache_insert session_id session_key in
              st_ret session_key
          end) m
    end.

(** [KeyManager::destroy_session_key]: the cache entry goes even when the store fails. *)
Definition destroy_session_key (session_id : Uuid) : KM unit :=
  λ m,
    let '(m', r) := store_delete (session_key_id m session_id) m in
    (with_cache m' (delete session_id (km_cache m')), r).

Definition session_key_ids : KM (list string) :=
  λ m, (m, ks_list (km_store m) (km_session_key_prefix m)).

(** One iteration of the rewrap loop. *)
Definition rewrap_session_key (target_root : SecretKey) (fallback_root : option SecretKey)
    (key_id : string) : KM unit :=
  λ m,
    let root_key_id := km_root_key_id m in
    st_bind (store_get key_id) (λ encoded,
      match encoded with
      | None => st_err SE_KeyStoreUnavailable
      | Some encoded =>
          let! envelope := st_lift (ok_or (from_slice envelope_codec encoded) SE_StorageUnavailable) in
          let! encrypted := st_lift (envelope_payload envelope) in
          let ad := envelope_aad (ke_session_id envelope) (ke_key_id envelope) root_key_id in
          let! plaintext := st_lift
            (decrypt_with_root_candidates encrypted target_root fallback_root ad) in
          let! nonce := draw NONCE_BYTES in
          let! rewrapped := st_lift (encrypt nonce target_root plaintext ad) in
          store_put key_id (envelope_text
            {| ke_schema_version := ke_schema_version envelope;
               ke_session_id := ke_session_id envelope; ke_key_id := ke_key_id envelope;
               ke_root_key_id := ke_root_key_id envelope; ke_algorithm := ke_algorithm envelope;
               ke_nonce := base64_encode (ep_nonce rewrapped);
               ke_wrapped_key := base64_encode (ep_ciphertext rewrapped) |})
      end) m.

Definition rewrap_all_session_keys (target_root : SecretKey) (fallback_root : option SecretKey)
    : KM unit :=
  let! ids := session_key_ids in
  st_for (rewrap_session_key target_root fallback_root) ids.

(** [KeyManager::rotate_root_key] *)
Definition rotate_root_key : KM unit :=
  let! roots := load_or_create_root_keys in
  let! _ := match roots.2 with
            | Some previous =>
                let! _ := rewrap_all_session_keys roots.1 (Some previous) in
                write_root_record roots.1 None
            | None => st_ret tt
            end in
  let! new_root := draw KEY_BYTES in
  let! _ := write_root_record new_root (Some roots.1) in
  let! _ := rewrap_all_session_keys new_root (Some roots.1) in
  write_root_record new_root None.
End manager.

(** ** Lemmas *)

Section serialized.
Context `{StorageEnv} `{!StorageEnvLaws}.

Lemma uuid_text_inj u v : uuid_text u = uuid_text v → u = v.
Proof. intros Heq. pose proof (uuid_roundtrip u) as Hu. rewrite Heq, uuid_roundtrip in Hu. congruence. Qed.

#[export] Instance uuid_laws : CodecLaws uuid_codec (λ _, True).
Proof. apply via_string_laws. apply uuid_roundtrip. Qed.

(** What is written for a value is read back. *)
Lemma from_slice_enc {A} (c : Codec A) (P : A → Prop) `{!CodecLaws c P} a :
  P a → from_slice c (json_print (enc c a)) = Some a.
Proof.
  intros Ha. pose proof (enc_ok a Ha) as Hok. unfold from_slice.
  rewrite json_roundtrip by done. pose proof (dec_enc a Ha) as Hd.
  destruct (enc c a) as [| | | | |es]; try by rewrite Hd.
  destruct Hok as [[-> _]%andb_true_iff _]. by rewrite Hd.
Qed.

(** What is read satisfies what the codec promises. *)
Lemma from_slice_sound {A} (c : Codec A) (P : A → Prop) `{!CodecLaws c P} text a :
  from_slice c text = Some a → P a.
Proof.
  unfold from_slice. destruct (json_parse text) as [doc|] eqn:Hp; [|done].
  apply json_finite, canonical_wf in Hp.
  assert (∀ r : Result A DecodeError, ok r = Some a → r = Ok a) as Hok by (by intros []; intros [= ->]).
  destruct doc; try (by intros Hd%Hok; eapply dec_sound in Hd).
  destruct (all_distinct _); [|done]. by intros Hd%Hok; eapply dec_sound in Hd.
Qed.

#[export] Instance envelope_laws :
  CodecLaws envelope_codec (λ e, (ke_schema_version e ≤ u32_max)%N).
Proof. derive_open_struct. naive_solver. Qed.

#[export] Instance root_laws :
  CodecLaws root_codec (λ r, (rk_schema_version r ≤ u32_max)%N).
Proof. derive_open_struct. naive_solver. Qed.

Lemma decrypt_encrypt nonce key plaintext ad p :
  len nonce = NONCE_BYTES → encrypt nonce key plaintext ad = Ok p →
  decrypt p key ad = Ok plaintext ∧ ep_nonce p = nonce ∧
  len (ep_ciphertext p) = (len plaintext + 16)%N.
Proof.
  unfold encrypt, decrypt. intros Hn.
  destruct (aead_encrypt _ _ _ _) as [c|] eqn:Hc; [|done]. intros [= <-]. simpl.
  rewrite Hn, N.eqb_refl. erewrite aead_roundtrip by done. split_and!; [done|done|].
  by eapply aead_length.
Qed.

Lemma decrypt_Ok p key ad m :
  decrypt p key ad = Ok m ↔
  len (ep_nonce p) = NONCE_BYTES ∧
  aead_decrypt key (ep_nonce p) (aad_text ad) (ep_ciphertext p) = Some m.
Proof.
  unfold decrypt. destruct (_ =? _)%N eqn:Hl; bool_to_prop.
  - rewrite ok_or_Ok. naive_solver.
  - naive_solver.
Qed.

Lemma decrypt_Err p key ad e : decrypt p key ad = Err e → e = SE_AuthenticationFailed.
Proof. unfold decrypt, ok_or. repeat case_match; congruence. Qed.

(** A payload that opens under one of two roots is opened with that root. *)
Lemma decrypt_candidates p current previous ad m :
  decrypt p current ad = Ok m ∨ (∃ k, previous = Some k ∧ decrypt p k ad = Ok m) →
  decrypt_with_root_candidates p current previous ad = Ok m.
Proof.
  unfold decrypt_with_root_candidates. intros [->|(k & -> & Hk)]; [done|].
  destruct (decrypt p current ad) as [m'|e] eqn:Hc.
  - apply decrypt_Ok in Hc as [Hl Hc], Hk as [_ Hk].
    pose proof (aead_one_key _ _ _ _ _ _ _ Hc Hk). congruence.
  - by apply decrypt_Err in Hc as ->.
Qed.

Lemma decrypt_candidates_inv p current previous ad m :
  decrypt_with_root_candidates p current previous ad = Ok m →
  decrypt p current ad = Ok m ∨ (∃ k, previous = Some k ∧ decrypt p k ad = Ok m).
Proof.
  unfold decrypt_with_root_candidates. destruct (decrypt p current ad) as [m'|e] eqn:Hc; [auto|].
  apply decrypt_Err in Hc as ->. destruct previous; naive_solver.
Qed.

Definition key_ok (k : SecretKey) : Prop := len k = KEY_BYTES.

Lemma SecretKey_from_slice_Ok s k : SecretKey_from_slice s = Ok k ↔ k = s ∧ key_ok s.
Proof.
  unfold SecretKey_from_slice, key_ok. destruct (_ =? _)%N eqn:Hl; bool_to_prop; naive_solver.
Qed.

(** The record of the root keys is read back. *)
Lemma parse_root_record current previous :
  key_ok current → (∀ p, previous = Some p → key_ok p) →
  parse_root_keys (root_record_text current previous) = Ok (current, previous).
Proof.
  intros Hc Hp. unfold parse_root_keys, root_record_text.
  rewrite (from_slice_enc _ (λ r, (rk_schema_version r ≤ u32_max)%N)) by (simpl; done).
  destruct (len _ =? KEY_BYTES)%N eqn:Hl.
  { bool_to_prop. exfalso. simpl in Hl.
    assert ((44 < KEY_BYTES)%N) as Hlt; [|done]. rewrite <-Hl.
    replace 44%N with (len (base64_encode current)) by (rewrite base64_length, Hc; done).
    apply (json_longer _ "current"). right. left. }
  simpl. rewrite base64_roundtrip. simpl. destruct previous as [p|]; simpl.
  - rewrite base64_roundtrip. simpl.
    rewrite (proj2 (SecretKey_from_slice_Ok p p) (conj eq_refl (Hp p eq_refl))). simpl.
    by rewrite (proj2 (SecretKey_from_slice_Ok current current) (conj eq_refl Hc)).
  - by rewrite (proj2 (SecretKey_from_slice_Ok current current) (conj eq_refl Hc)).
Qed.

Lemma parse_root_keys_ok bytes current previous :
  parse_root_keys bytes = Ok (current, previous) →
  key_ok current ∧ ∀ p, previous = Some p → key_ok p.
Proof.
  unfold parse_root_keys. intros Hp. destruct (len bytes =? KEY_BYTES)%N.
  - break_results. apply SecretKey_from_slice_Ok in Hok as [-> ?]. by simplify_eq.
  - break_results. case_match; [done|]. break_results. simplify_eq.
    apply SecretKey_from_slice_Ok in Hok2 as [-> ?]. split; [done|].
    intros p ->. case_match; [|done]. break_results.
    match goal with Hs : result_map Some ?r = Ok _ |- _ =>
      destruct r eqn:Hk; simplify_eq/=; by apply SecretKey_from_slice_Ok in Hk as [-> ?] end.
Qed.
End serialized.

Section rotation.
Context `{StorageEnv} `{!StorageEnvLaws} {K : Type} `{KeyStore K} `{!KeyStoreLaws K}.
Implicit Types m : KeyManager K.

Definition entry (m : KeyManager K) (id : string) : option string := ks_entry (km_store m) id.

Definition stored_roots (m : KeyManager K) : Result (SecretKey * option SecretKey) StorageError :=
  match entry m (km_root_key_id m) with
  | Some bytes => parse_root_keys bytes
  | None => Err SE_KeyStoreUnavailable
  end.

Definition session_aad (m : KeyManager K) (sid : Uuid) : AssociatedData :=
  envelope_aad sid (session_key_id m sid) (km_root_key_id m).

(** The stored envelope of a session opens under a root key. *)
Definition opens (m : KeyManager K) (root : SecretKey) (sid : Uuid) (key : SecretKey) : Prop :=
  key_ok key ∧ ∃ text p,
    entry m (session_key_id m sid) = Some text ∧
    open_envelope sid (session_key_id m sid) (km_root_key_id m) text = Ok p ∧
    decrypt p root (session_aad m sid) = Ok key.

Definition opens_any (m : KeyManager K) (roots : SecretKey * option SecretKey) (sid : Uuid)
    (key : SecretKey) : Prop :=
  opens m roots.1 sid key ∨ ∃ p, roots.2 = Some p ∧ opens m p sid key.

(** The contents of the store determine the key of the session. *)
Definition readable (m : KeyManager K) (sid : Uuid) (key : SecretKey) : Prop :=
  ∃ roots, stored_roots m = Ok roots ∧ opens_any m roots sid key.

(** The identifier of the root record is no session key of the namespace. *)
Definition namespaced (m : KeyManager K) : Prop :=
  starts_with (km_session_key_prefix m) (km_root_key_id m) = false.

(** Two managers of the same namespace. *)
Definition same_space (m m' : KeyManager K) : Prop :=
  km_root_key_id m' = km_root_key_id m ∧ km_session_key_prefix m' = km_session_key_prefix m.

Lemma session_key_id_prefix m sid :
  starts_with (km_session_key_prefix m) (session_key_id m sid) = true.
Proof. apply starts_with_app. Qed.

Lemma session_key_id_root m sid : namespaced m → session_key_id m sid ≠ km_root_key_id m.
Proof. unfold namespaced. intros Hn Heq. rewrite <-Heq, session_key_id_prefix in Hn. done. Qed.

Lemma session_key_id_inj m s s' : session_key_id m s = session_key_id m s' → s = s'.
Proof.
  unfold session_key_id. intros Heq. by apply string_app_inj_l, string_app_inj_r, uuid_text_inj in Heq.
Qed.

(** Storing under an identifier other than the one read. *)
Lemma entry_put_other m id s m' r i :
  store_put id s m = (m', r) → i ≠ id → entry m' i = entry m i.
Proof.
  unfold store_put, entry. destruct (ks_put _ _ _) as [k r'] eqn:Hp. intros [= <- <-] Hi.
  simpl. by eapply put_other.
Qed.

Lemma entry_put_same m id s m' r :
  store_put id s m = (m', r) →
  match r with
  | Ok _ => entry m' id = Some s
  | Err _ => entry m' id = entry m id ∨ entry m' id = Some s
  end.
Proof.
  unfold store_put, entry. destruct (ks_put _ _ _) as [k r'] eqn:Hp. intros [= <- <-]. simpl.
  destruct r'; [by eapply put_Ok|by eapply put_Err].
Qed.

Lemma store_put_space m id s m' r : store_put id s m = (m', r) → same_space m m'.
Proof. unfold store_put. destruct (ks_put _ _ _). by intros [= <- <-]. Qed.

Lemma opens_entry m m' root sid key :
  same_space m m' → entry m' (session_key_id m sid) = entry m (session_key_id m sid) →
  opens m root sid key → opens m' root sid key.
Proof.
  intros [Hr Hp] He. unfold opens, session_aad, session_key_id in *. rewrite Hr, Hp.
  by rewrite He.
Qed.

Lemma namespaced_space m m' : same_space m m' → namespaced m → namespaced m'.
Proof. unfold namespaced. by intros [-> ->]. Qed.

Lemma stored_roots_entry m m' :
  same_space m m' → entry m' (km_root_key_id m) = entry m (km_root_key_id m) →
  stored_roots m' = stored_roots m.
Proof. intros [Hr _] He. unfold stored_roots. by rewrite Hr, He. Qed.

Lemma store_get_entry m id m' o : store_get id m = (m', Ok o) → m' = m ∧ o = entry m id.
Proof. unfold store_get, entry. intros [= <- Hg]. split; [done|]. by eapply get_Ok. Qed.

Lemma envelope_payload_Ok e p :
  envelope_payload e = Ok p ↔
  base64_decode (ke_nonce e) = Some (ep_nonce p) ∧
  base64_decode (ke_wrapped_key e) = Some (ep_ciphertext p).
Proof.
  unfold envelope_payload. destruct p as [n c]; simpl.
  destruct (base64_decode (ke_nonce e)); simpl; [|naive_solver].
  destruct (base64_decode (ke_wrapped_key e)); naive_solver.
Qed.

Lemma validate_envelope_Ok e sid key_id root_id :
  validate_envelope e sid key_id root_id = Ok tt ↔
  ke_schema_version e = 1%N ∧ ke_session_id e = sid ∧ ke_key_id e = key_id ∧
  ke_root_key_id e = root_id ∧ ke_algorithm e = "xchacha20-poly1305" ∧
  ∃ w, base64_decode (ke_wrapped_key e) = Some w ∧ len w = (KEY_BYTES + 16)%N.
Proof.
  unfold validate_envelope. split.
  - case_match eqn:Hc; [done|]. bool_to_prop. case_match; [|done].
    rewrite reject_if_Ok. intros Hw. bool_to_prop.
    repeat match goal with Hn : ¬ _ ≠ _ |- _ => apply dec_stable in Hn end. naive_solver.
  - intros (Hv & Hs & Hk & Hr & Ha & w & Hw & Hl).
    rewrite Hv, Hs, Hk, Hr, Ha, Hw, Hl. simpl. by rewrite !bool_decide_eq_false_2 by auto.
Qed.

(** An envelope written for a session key opens under the root it was written with. *)
Lemma open_envelope_written sid key_id root_id nonce root plaintext p :
  encrypt nonce root plaintext (envelope_aad sid key_id root_id) = Ok p →
  len nonce = NONCE_BYTES → key_ok plaintext →
  open_envelope sid key_id root_id (envelope_text
    {| ke_schema_version := 1; ke_session_id := sid; ke_key_id := key_id;
       ke_root_key_id := root_id; ke_algorithm := "xchacha20-poly1305";
       ke_nonce := base64_encode (ep_nonce p);
       ke_wrapped_key := base64_encode (ep_ciphertext p) |}) = Ok p ∧
  decrypt p root (envelope_aad sid key_id root_id) = Ok plaintext.
Proof.
  intros He Hn Hk. apply decrypt_encrypt in He as (Hd & Hnonce & Hl); [|done].
  split; [|done]. unfold open_envelope, envelope_text.
  rewrite (from_slice_enc _ (λ e, (ke_schema_version e ≤ u32_max)%N)) by done. simpl.
  rewrite (proj2 (validate_envelope_Ok _ _ _ _)); simpl.
  2:{ split_and!; try done. exists (ep_ciphertext p). rewrite base64_roundtrip, Hl, Hk. done. }
  rewrite (proj2 (envelope_payload_Ok _ p)); simpl; [|by rewrite !base64_roundtrip].
  by rewrite Hnonce, Hn.
Qed.

Section one_session.
Context (sid : Uuid) (key : SecretKey).

(** The roots in force, and the key of the session under one of them. *)
Definition held (roots : SecretKey * option SecretKey) (m : KeyManager K) : Prop :=
  namespaced m ∧ stored_roots m = Ok roots ∧ opens_any m roots sid key.

Lemma held_entry roots m m' :
  same_space m m' → (∀ i, entry m' i = entry m i) → held roots m → held roots m'.
Proof.
  intros Hs He (Hn & Hr & Ho). split_and!.
  - by eapply namespaced_space.
  - rewrite <-Hr. by apply stored_roots_entry.
  - destruct Ho as [Ho|(p & Hp & Ho)]; [left|right; exists p; split; [done|]];
      by eapply opens_entry.
Qed.

(** A put of an envelope that opens under the target keeps the key. *)
Lemma put_envelope m m' r text target fallback p :
  held (target, fallback) m →
  open_envelope sid (session_key_id m sid) (km_root_key_id m) text = Ok p →
  decrypt p target (session_aad m sid) = Ok key → key_ok key →
  store_put (session_key_id m sid) text m = (m', r) →
  held (target, fallback) m' ∧ (opens m target sid key → opens m' target sid key) ∧
  (r = Ok tt → opens m' target sid key).
Proof.
  intros (Hn & Hr & Ho) Hopen Hd Hk Hput.
  pose proof (store_put_space _ _ _ _ _ Hput) as Hsp.
  pose proof (session_key_id_root m sid Hn) as Hroot.
  pose proof (entry_put_same _ _ _ _ _ Hput) as Hsame.
  assert (Hnew : entry m' (session_key_id m sid) = Some text → opens m' target sid key).
  { intros He. split; [done|]. exists text, p. unfold session_aad, session_key_id in *.
    destruct Hsp as [-> ->]. done. }
  assert (Hold : entry m' (session_key_id m sid) = entry m (session_key_id m sid) →
                 ∀ root, opens m root sid key → opens m' root sid key)
    by (intros ??; by apply opens_entry).
  unfold held. split_and!.
  - by eapply namespaced_space.
  - rewrite <-Hr. apply stored_roots_entry; [done|]. eapply entry_put_other; [done|]. done.
  - destruct r as [u|e]; [by left; apply Hnew|]. destruct Hsame as [He|He]; [|by left; apply Hnew].
    destruct Ho as [Ho|(q & Hq & Ho)]; [left|right; exists q; split; [done|]]; by eapply Hold.
  - intros Hot. destruct r as [u|e]; [by apply Hnew|].
    destruct Hsame as [He|He]; [by eapply Hold|by apply Hnew].
  - intros ->. by apply Hnew.
Qed.

(** One iteration of the rewrap loop keeps the key, whatever fails. *)
Lemma rewrap_one target fallback id m m' r :
  held (target, fallback) m → starts_with (km_session_key_prefix m) id = true →
  rewrap_session_key target fallback id m = (m', r) →
  held (target, fallback) m' ∧ same_space m m' ∧
  (opens m target sid key → opens m' target sid key) ∧
  (r = Ok tt → id = session_key_id m sid → opens m' target sid key).
Proof.
  intros Hh Hid. unfold rewrap_session_key, st_bind, st_err, st_lift, draw.
  destruct (store_get id m) as [m1 [o|e]] eqn:Hg; [|by injection Hg as <- _; intros [= <- <-]].
  apply store_get_entry in Hg as [-> Ho].
  destruct o as [text|]; [|by intros [= <- <-]].
  destruct (from_slice envelope_codec text) as [env|] eqn:Henv; simpl; [|by intros [= <- <-]].
  destruct (envelope_payload env) as [enc|] eqn:Hpay; [|by intros [= <- <-]].
  destruct (decrypt_with_root_candidates _ _ _ _) as [plain|] eqn:Hdec; [|by intros [= <- <-]].
  set (m1 := with_draws m (km_draws m + 1)).
  assert (Hh1 : held (target, fallback) m1) by (by eapply held_entry; [| |exact Hh]).
  destruct (encrypt _ _ _ _) as [new|] eqn:Hnew; [|by intros [= <- <-]].
  intros Hput. destruct (decide (id = session_key_id m sid)) as [->|Hne].
  - assert (key_ok key ∧ ∃ p, open_envelope sid (session_key_id m sid) (km_root_key_id m) text = Ok p ∧
      (decrypt p target (session_aad m sid) = Ok key ∨
       ∃ q, fallback = Some q ∧ decrypt p q (session_aad m sid) = Ok key)) as (Hk & p & Hopen & Hor).
    { destruct Hh as (_ & _ & [(Hk & t & p & Ht & Hp & Hd)|(q & Hq & Hk & t & p & Ht & Hp & Hd)]);
        (split; [done|]); exists p; rewrite Ht in Ho; simplify_eq; naive_solver. }
    unfold open_envelope in Hopen. rewrite Henv in Hopen. simpl in Hopen. break_results.
    apply validate_envelope_Ok in Hok as (Hv & Hs & Hkid & Hrid & Ha & w & Hw & Hl).
    injection Hpay as <-. case_match; [done|]. injection Hopen as <-.
    rewrite Hs, Hkid in *.
    rewrite (decrypt_candidates _ _ _ _ key) in Hdec by done. injection Hdec as <-.
    assert (len (random_bytes (km_draws m) NONCE_BYTES) = NONCE_BYTES) as Hrl by apply random_length.
    destruct (open_envelope_written _ _ _ _ _ _ _ Hnew Hrl Hk) as [Hopen' Hd'].
    rewrite Hv, Hrid, Ha in Hput.
    destruct (put_envelope m1 m' r _ target fallback new Hh1 Hopen' Hd' Hk Hput) as (? & ? & ?).
    split_and!; auto. eapply store_put_space in Hput. done.
  - pose proof (store_put_space _ _ _ _ _ Hput) as Hsp.
    assert (He : ∀ i, i ≠ id → entry m' i = entry m i)
      by (intros i Hi; by apply (entry_put_other _ _ _ _ _ i) in Hput).
    assert (Hroot : km_root_key_id m ≠ id).
    { intros <-. destruct Hh as (Hn & _). unfold namespaced in Hn. congruence. }
    assert (Hkeep : ∀ root, opens m root sid key → opens m' root sid key).
    { intros root. apply opens_entry; [done|]. by apply He. }
    destruct Hh as (Hn & Hr & Hor). unfold held. split_and!; try done; try by apply Hkeep.
    + by eapply namespaced_space.
    + rewrite <-Hr. apply stored_roots_entry; [done|]. by apply He.
    + destruct Hor as [?|(q & ? & ?)]; [left|right; exists q]; auto.
Qed.

(** The loop keeps the key, and when it completes it has rewrapped it. *)
Lemma rewrap_loop target fallback ids m m' r :
  held (target, fallback) m →
  (∀ id, id ∈ ids → starts_with (km_session_key_prefix m) id = true) →
  st_for (rewrap_session_key target fallback) ids m = (m', r) →
  held (target, fallback) m' ∧ same_space m m' ∧
  (opens m target sid key → opens m' target sid key) ∧
  (r = Ok tt → session_key_id m sid ∈ ids → opens m' target sid key).
Proof.
  revert m. induction ids as [|id ids IH]; intros m Hh Hids; simpl.
  { intros [= <- <-]. split_and!; try done. by intros _ ?%elem_of_nil. }
  unfold st_bind. destruct (rewrap_session_key _ _ _ m) as [m1 [[]|e]] eqn:E1.
  - eapply rewrap_one in E1 as (Hh1 & Hs1 & Hk1 & Hd1); [|done|by apply Hids; left].
    intros E2. apply IH in E2 as (Hh2 & Hs2 & Hk2 & Hd2); [|done|].
    2:{ destruct Hs1 as [_ ->]. intros i Hi. apply Hids. by right. }
    assert (session_key_id m1 sid = session_key_id m sid) as Heq
      by (unfold session_key_id; by destruct Hs1 as [_ ->]).
    split_and!; [done| |auto|].
    + destruct Hs1 as [Ha Hb], Hs2 as [Hc Hd]. split; congruence.
    + intros Hr [<-|Hin]%elem_of_cons; [by apply Hk2, Hd1|]. apply Hd2; [done|]. by rewrite Heq.
  - intros [= <- <-]. eapply rewrap_one in E1 as (? & ? & ? & ?); [|done|by apply Hids; left].
    by split_and!.
Qed.

Lemma rewrap_all target fallback m m' r :
  held (target, fallback) m → rewrap_all_session_keys target fallback m = (m', r) →
  held (target, fallback) m' ∧ same_space m m' ∧ (r = Ok tt → opens m' target sid key).
Proof.
  intros Hh. unfold rewrap_all_session_keys, st_bind, session_key_ids.
  destruct (ks_list _ _) as [ids|e] eqn:Hl; [|by intros [= <- <-]].
  intros Hloop. apply rewrap_loop in Hloop as (? & ? & _ & Hd); [|done|].
  2:{ intros id Hid. by eapply list_prefix. }
  split_and!; [done..|]. intros Hr. apply Hd; [done|].
  eapply list_Ok; [done|apply session_key_id_prefix|].
  destruct Hh as (_ & _ & [(_ & t & p & Ht & _)|(q & _ & _ & t & p & Ht & _)]);
    unfold entry in Ht; congruence.
Qed.

(** Recording new roots under one of which the key opens. *)
Lemma write_roots roots current previous m m' r :
  held roots m → opens_any m (current, previous) sid key →
  key_ok current → (∀ p, previous = Some p → key_ok p) →
  write_root_record current previous m = (m', r) →
  same_space m m' ∧ (held roots m' ∨ held (current, previous) m') ∧
  (r = Ok tt → held (current, previous) m').
Proof.
  intros (Hn & Hr & Ho) Hnew Hc Hp Hput. unfold write_root_record in Hput.
  pose proof (store_put_space _ _ _ _ _ Hput) as Hsp.
  pose proof (session_key_id_root m sid Hn) as Hroot.
  pose proof (entry_put_same _ _ _ _ _ Hput) as Hsame.
  assert (Hkeep : ∀ root, opens m root sid key → opens m' root sid key).
  { intros root. apply opens_entry; [done|]. by eapply entry_put_other. }
  assert (Hany : ∀ rs, opens_any m rs sid key → opens_any m' rs sid key).
  { intros rs [?|(q & ? & ?)]; [left|right; exists q]; auto. }
  assert (Hw : entry m' (km_root_key_id m) = Some (root_record_text current previous) →
               held (current, previous) m').
  { intros He. split_and!; [by eapply namespaced_space| |by apply Hany].
    unfold stored_roots. destruct Hsp as [-> _]. rewrite He. by apply parse_root_record. }
  split_and!; [done| |intros ->; by apply Hw].
  destruct r as [u|e]; [by right; apply Hw|]. destruct Hsame as [He|He]; [left|by right; apply Hw].
  split_and!; [by eapply namespaced_space| |by apply Hany].
  rewrite <-Hr. by apply stored_roots_entry.
Qed.

Lemma held_readable roots m : held roots m → readable m sid key.
Proof. intros (_ & Hr & Ho). by exists roots. Qed.

Lemma stored_roots_ok m current previous :
  stored_roots m = Ok (current, previous) → key_ok current ∧ ∀ p, previous = Some p → key_ok p.
Proof. unfold stored_roots. case_match; [|done]. apply parse_root_keys_ok. Qed.

(** Loading the roots of a store that holds some. *)
Lemma load_roots_held roots m m' r :
  held roots m → load_or_create_root_keys m = (m', r) → m' = m ∧ (∀ rs, r = Ok rs → rs = roots).
Proof.
  intros (Hn & Hr & Ho). unfold load_or_create_root_keys, st_bind.
  destruct (store_get _ m) as [m1 [o|e]] eqn:Hg; [|by injection Hg as <- _; intros [= <- <-]].
  apply store_get_entry in Hg as [-> Ho1]. unfold stored_roots in Hr.
  destruct (entry m (km_root_key_id m)) as [b|] eqn:He; [|done]. subst o.
  unfold root_keys, st_bind.
  destruct (store_get _ m) as [m1 [o|e]] eqn:Hg; [|by injection Hg as <- _; intros [= <- <-]].
  apply store_get_entry in Hg as [-> ->]. rewrite He. unfold st_lift. rewrite Hr.
  intros [= <- <-]. split; [done|]. by intros rs [= <-].
Qed.

(** The second half of a rotation: fresh root, rewrap, forget the old one. *)
Lemma rotate_tail old m m' r :
  held (old, None) m →
  st_bind (draw KEY_BYTES) (λ new_root,
    let! _ := write_root_record new_root (Some old) in
    let! _ := rewrap_all_session_keys new_root (Some old) in
    write_root_record new_root None) m = (m', r) →
  readable m' sid key.
Proof.
  intros Hh. unfold st_bind at 1, draw. set (m1 := with_draws m (km_draws m + 1)).
  assert (Hh1 : held (old, None) m1) by (by eapply held_entry; [| |exact Hh]).
  set (new := random_bytes (km_draws m) KEY_BYTES).
  assert (Hnew : key_ok new) by apply random_length.
  assert (Hold : key_ok old) by (destruct Hh as (_ & Hr & _); by apply stored_roots_ok in Hr as [? _]).
  unfold st_bind at 1. destruct (write_root_record new (Some old) m1) as [m2 r2] eqn:E2.
  eapply write_roots in E2 as (Hs2 & Hor2 & Hok2); [|done| |done|by intros ? [= <-]].
  2:{ right. exists old. split; [done|]. destruct Hh1 as (_ & _ & [?|(? & ? & _)]); done. }
  destruct r2 as [[]|e]; [|intros [= <- <-]; destruct Hor2; by eapply held_readable].
  specialize (Hok2 eq_refl). unfold st_bind.
  destruct (rewrap_all_session_keys new (Some old) m2) as [m3 r3] eqn:E3.
  apply rewrap_all in E3 as (Hh3 & Hs3 & Hd3); [|done].
  destruct r3 as [[]|e]; [|intros [= <- <-]; by eapply held_readable].
  intros E4. eapply write_roots in E4 as (_ & Hor4 & _); [|exact Hh3| |done|done].
  - destruct Hor4; by eapply held_readable.
  - left. by apply Hd3.
Qed.
End one_session.

(** *** Reading a key back *)

(** The same store, opened again. *)
Definition reopened (m : KeyManager K) : KeyManager K := with_cache m ∅.

Lemma readable_unique m sid k k' : readable m sid k → readable m sid k' → k = k'.
Proof.
  intros (rs & Hr & Ho) (rs' & Hr' & Ho'). rewrite Hr in Hr'. injection Hr' as <-.
  assert (Ha : ∀ key, opens_any m rs sid key → ∃ root, opens m root sid key)
    by (intros key [?|(? & _ & ?)]; eauto).
  apply Ha in Ho as (r1 & _ & t & p & Ht & Hp & Hd), Ho' as (r2 & _ & t' & p' & Ht' & Hp' & Hd').
  rewrite Ht in Ht'. injection Ht' as <-. rewrite Hp in Hp'. injection Hp' as <-.
  apply decrypt_Ok in Hd as [_ Hd], Hd' as [_ Hd'].
  pose proof (aead_one_key _ _ _ _ _ _ _ Hd Hd'). congruence.
Qed.

Lemma root_keys_stored m m' rs : root_keys m = (m', Ok rs) → m' = m ∧ stored_roots m = Ok rs.
Proof.
  unfold root_keys. intros Hs. break_state. apply store_get_entry in Hstep as [-> ->].
  unfold stored_roots. destruct (entry m _); [|done]. by break_state.
Qed.

(** A key read from the store is the one its contents determine. *)
Lemma session_key_readable m m' sid k :
  km_cache m !! sid = None → session_key sid m = (m', Ok k) →
  readable m sid k ∧ m' = with_cache m (<[sid := k]> (km_cache m)).
Proof.
  intros Hc. unfold session_key. rewrite Hc. intros Hs. break_state.
  apply store_get_entry in Hstep as [-> ->].
  destruct (entry m (session_key_id m sid)) as [text|] eqn:He; [|done]. break_state.
  match goal with Hr : root_keys _ = _ |- _ => apply root_keys_stored in Hr as [-> Hr] end.
  unfold cache_insert, st_modify in *. simplify_eq.
  match goal with Hk : SecretKey_from_slice _ = Ok _ |- _ =>
    apply SecretKey_from_slice_Ok in Hk as [-> Hk] end.
  split; [|done]. eexists. split; [done|].
  match goal with Hd : decrypt_with_root_candidates _ _ _ _ = Ok _ |- _ =>
    apply decrypt_candidates_inv in Hd as [Hd|(q & Hq & Hd)] end;
    [left|right; exists q; split; [done|]]; (split; [done|]); by do 2 eexists.
Qed.

(** Reading succeeds while the store answers. *)
Lemma session_key_reads m sid k o o' :
  km_cache m !! sid = None → readable m sid k →
  ks_get (km_store m) (session_key_id m sid) = Ok o →
  ks_get (km_store m) (km_root_key_id m) = Ok o' →
  session_key sid m = (with_cache m (<[sid := k]> (km_cache m)), Ok k).
Proof.
  intros Hc (rs & Hr & Ho) Hg Hg'. pose proof (get_Ok _ _ _ Hg) as ->. pose proof (get_Ok _ _ _ Hg') as ->.
  assert (key_ok k ∧ ∃ text p, entry m (session_key_id m sid) = Some text ∧
    open_envelope sid (session_key_id m sid) (km_root_key_id m) text = Ok p ∧
    decrypt_with_root_candidates p rs.1 rs.2 (session_aad m sid) = Ok k)
    as (Hk & text & p & Ht & Hp & Hd).
  { destruct Ho as [(Hk & t & p & Ht & Hp & Hd)|(q & Hq & Hk & t & p & Ht & Hp & Hd)];
      (split; [done|]); exists t, p; split_and!; try done; apply decrypt_candidates; eauto. }
  unfold session_key. rewrite Hc. unfold st_bind, store_get. rewrite Hg.
  unfold entry in Ht. rewrite Ht. unfold st_lift. rewrite Hp.
  unfold root_keys, st_bind, store_get. rewrite Hg'. unfold stored_roots, entry in Hr.
  destruct (ks_entry (km_store m) (km_root_key_id m)); [|done]. unfold st_lift. rewrite Hr.
  fold (session_aad m sid). rewrite Hd.
  by rewrite (proj2 (SecretKey_from_slice_Ok k k) (conj eq_refl Hk)).
Qed.

(** The root keys in force after they were loaded or created. *)
Lemma load_roots_stored m m' rs :
  load_or_create_root_keys m = (m', Ok rs) → same_space m m' ∧ stored_roots m' = Ok rs.
Proof.
  unfold load_or_create_root_keys. intros Hs. break_state. apply store_get_entry in Hstep as [-> ->].
  destruct (entry m (km_root_key_id m)) as [b|] eqn:Hb.
  - by apply root_keys_stored in Hs as [-> ?].
  - break_state. unfold draw in Hstep. injection Hstep as <- <-. unfold write_root_record in Hstep0.
    pose proof (store_put_space _ _ _ _ _ Hstep0) as Hsp. split; [done|].
    apply entry_put_same in Hstep0. unfold stored_roots. destruct Hsp as [-> _].
    rewrite Hstep0. apply parse_root_record; [apply random_length|done].
Qed.

(** A created key is cached, and is what the store holds. *)
Lemma create_readable m m' sid id :
  namespaced m → create_session_key sid m = (m', Ok id) →
  id = session_key_id m sid ∧ entry m id = None ∧ same_space m m' ∧
  ∃ key, km_cache m' !! sid = Some key ∧ readable m' sid key.
Proof.
  intros Hn. unfold create_session_key. intros Hs. break_state.
  apply store_get_entry in Hstep as [-> ->].
  destruct (entry m (session_key_id m sid)) eqn:He; [done|]. break_state.
  unfold draw in *. simplify_eq. unfold cache_insert, st_modify in *. simplify_eq.
  apply load_roots_stored in Hstep as [Hsp Hroots].
  match goal with Hp : store_put _ _ _ = (?s, _) |- _ => rename Hp into Hput, s into after end.
  match goal with He : encrypt _ _ ?k _ = Ok _ |- _ => rename He into Henc; set (key := k) in * end.
  assert (Hk : key_ok key) by apply random_length.
  destruct (open_envelope_written _ _ _ _ _ _ _ Henc (random_length _ _) Hk) as [Hopen Hd].
  pose proof (store_put_space _ _ _ _ _ Hput) as Hsp2.
  assert (Hspace : same_space m after) by (unfold same_space in *; simpl in *; intuition congruence).
  split_and!; [done|done|done|]. exists key. split; [simpl; by rewrite lookup_insert_eq|].
  assert (Hroot : km_root_key_id m ≠ session_key_id m sid) by (intros ?; by eapply session_key_id_root).
  eexists. split.
  - rewrite <-Hroots. apply (stored_roots_entry s); [done|].
    eapply (entry_put_other _ _ _ _ _ (km_root_key_id s)) in Hput; [done|].
    destruct Hsp as [-> _]. done.
  - left. apply entry_put_same in Hput. split; [done|].
    unfold session_aad, session_key_id in *. simpl. destruct Hspace as [-> ->].
    by do 2 eexists.
Qed.

(** ** Properties *)

(** C27: A rotation of the root key never loses a session key: wherever it stops, and
    whichever write to the store fails, every session key that could be read from
    the store before can be read from it afterwards, and is the same key. *)
Theorem rotation_keeps_keys m m' r sid key :
  namespaced m → readable m sid key → rotate_root_key m = (m', r) → readable m' sid key.
Proof.
  intros Hn ([cur prev] & Hr & Ho). assert (Hh : held sid key (cur, prev) m) by done.
  unfold rotate_root_key. unfold st_bind at 1.
  destruct (load_or_create_root_keys m) as [m1 [rs|e]] eqn:E1; cycle 1.
  { eapply load_roots_held in E1 as [-> _]; [|done]. intros [= <- <-]. by eapply held_readable. }
  eapply load_roots_held in E1 as [-> Hrs]; [|done]. rewrite (Hrs rs eq_refl). simpl. clear rs Hrs.
  destruct prev as [prev|]; [|by apply rotate_tail].
  unfold st_bind at 1. destruct (st_bind _ _ m) as [m2 r2] eqn:E2.
  unfold st_bind at 1 in E2.
  destruct (rewrap_all_session_keys cur (Some prev) m) as [m3 r3] eqn:E3.
  eapply rewrap_all in E3 as (Hh3 & Hs3 & Hd3); [|done].
  destruct r3 as [[]|e]; cycle 1.
  { injection E2 as <- <-. intros [= <- <-]. by eapply held_readable. }
  specialize (Hd3 eq_refl). apply stored_roots_ok in Hr as [Hcur _].
  eapply write_roots in E2 as (_ & Hor & Hok); [|exact Hh3|by left|done|done].
  destruct r2 as [[]|e]; [|intros [= <- <-]; destruct Hor; by eapply held_readable].
  apply rotate_tail. by apply Hok.
Qed.

(** The life of a session key: a key that was created is cached, a manager opened
    on the same store reads that key while the store answers, and never another;
    once destroyed it is neither cached nor readable, by any manager. *)
Theorem session_key_lifecycle m m' sid id :
  namespaced m → create_session_key sid m = (m', Ok id) →
  ∃ key, km_cache m' !! sid = Some key ∧
    (∀ o o', ks_get (km_store m') (session_key_id m' sid) = Ok o →
       ks_get (km_store m') (km_root_key_id m') = Ok o' →
       (session_key sid (reopened m')).2 = Ok key) ∧
    (∀ m1 k, session_key sid (reopened m') = (m1, Ok k) → k = key) ∧
    (∀ m2, destroy_session_key sid m' = (m2, Ok tt) →
       ∀ m3 k, session_key sid m2 ≠ (m3, Ok k)).
Proof.
  intros Hn Hc. apply create_readable in Hc as (-> & He & Hsp & key & Hkey & Hr); [|done].
  exists key. split_and!; [done| | |].
  - intros o o' Hg Hg'. by erewrite session_key_reads by done.
  - intros m1 k Hs. apply session_key_readable in Hs as [Hk _]; [|done].
    by eapply readable_unique.
  - intros m2. unfold destroy_session_key, store_delete.
    destruct (ks_delete _ _) as [k r] eqn:Hd. intros [= <- ->] m3 k' Hs.
    apply session_key_readable in Hs as [(rs & _ & Ho) _]; [|simpl; apply lookup_delete_eq].
    apply delete_Ok in Hd.
    destruct Ho as [(_ & t & p & Ht & _)|(_ & _ & _ & t & p & Ht & _)];
      unfold entry, session_key_id in *; simpl in Ht; congruence.
Qed.
End rotation.
