(* ===== verification/EventWire.v ===== *)
(** * EventWire: domain events as JSON (workbench-core/src/event.rs, the serde derives)

    An event payload is written as an object with its kind and its data, and read back
    from one. Identifiers, texts and hashes are read through their parsers. *)

From S2P Require Import Prelude Text BTree Errors Value Attempt Policy Routing Event.
From S2P Require Import Json Wire ProtoCommand StorageKeys.

(** ** Leaf types *)

Definition Identifier_codec : Codec Identifier := via_string id (λ s, ok (Identifier_parse s)).
Definition NonEmptyText_codec : Codec NonEmptyText := via_string id (λ s, ok (NonEmptyText_parse s)).
Definition ContentHash_codec : Codec ContentHash := via_string id (λ s, ok (ContentHash_parse s)).

Definition EffectClass_name (c : EffectClass) : string :=
  match c with
  | EF_None => "none"
  | EF_IdempotentRead => "idempotent-read"
  | EF_IdempotentWrite => "idempotent-write"
  | EF_PaidInference => "paid-inference"
  | EF_NonIdempotentWrite => "non-idempotent-write"
  | EF_Production => "production"
  | EF_Credential => "credential"
  end.

Definition EffectClass_codec : Codec EffectClass :=
  enum_codec [EF_None; EF_IdempotentRead; EF_IdempotentWrite; EF_PaidInference;
              EF_NonIdempotentWrite; EF_Production; EF_Credential] EffectClass_name.

Definition Risk_codec : Codec Risk :=
  enum_codec [Risk_Low; Risk_Medium; Risk_High]
    (λ r, match r with Risk_Low => "low" | Risk_Medium => "medium" | Risk_High => "high" end).

Definition PermissionScope_codec : Codec PermissionScope :=
  enum_codec [SC_ReadOnly; SC_ApprovalRequired; SC_Denied]
    (λ p, match p with
          | SC_ReadOnly => "read-only" | SC_ApprovalRequired => "approval-required"
          | SC_Denied => "denied"
          end).

Definition SelectedRule_codec : Codec SelectedRule :=
  enum_codec [SR_Explicit; SR_Workflow; SR_Resolver; SR_Coordinator]
    (λ r, match r with
          | SR_Explicit => "explicit" | SR_Workflow => "workflow" | SR_Resolver => "resolver"
          | SR_Coordinator => "coordinator"
          end).

Definition EventKind_name (k : EventKind) : string :=
  match k with
  | EK_SessionCreated => "session_created"
  | EK_ConfigurationResolved => "configuration_resolved"
  | EK_InputRecorded => "input_recorded"
  | EK_RoutingPlanned => "routing_planned"
  | EK_ClarificationRequested => "clarification_requested"
  | EK_ApprovalRequested => "approval_requested"
  | EK_ApprovalRecorded => "approval_recorded"
  | EK_DispatchPlanned => "dispatch_planned"
  | EK_DispatchStarted => "dispatch_started"
  | EK_DispatchAcknowledged => "dispatch_acknowledged"
  | EK_ProviderEvent => "provider_event"
  | EK_ToolEvent => "tool_event"
  | EK_PauseRequested => "pause_requested"
  | EK_SessionPaused => "session_paused"
  | EK_SessionResumed => "session_resumed"
  | EK_SessionRedirected => "session_redirected"
  | EK_CancelRequested => "cancel_requested"
  | EK_CancelConfirmed => "cancel_confirmed"
  | EK_OutcomeUnknown => "outcome_unknown"
  | EK_OutcomeReconciled => "outcome_reconciled"
  | EK_SessionCompleted => "session_completed"
  | EK_SessionFailed => "session_failed"
  | EK_SessionCancelled => "session_cancelled"
  | EK_SessionAbandoned => "session_abandoned"
  | EK_SessionExported => "session_exported"
  | EK_SessionDeletionRequested => "session_deletion_requested"
  | EK_SessionDeleted => "session_deleted"
  | EK_WorkflowTransition => "workflow_transition"
  end.

Definition EventKind_codec : Codec EventKind :=
  enum_codec
    [EK_SessionCreated; EK_ConfigurationResolved; EK_InputRecorded; EK_RoutingPlanned;
     EK_ClarificationRequested; EK_ApprovalRequested; EK_ApprovalRecorded; EK_DispatchPlanned;
     EK_DispatchStarted; EK_DispatchAcknowledged; EK_ProviderEvent; EK_ToolEvent;
     EK_PauseRequested; EK_SessionPaused; EK_SessionResumed; EK_SessionRedirected;
     EK_CancelRequested; EK_CancelConfirmed; EK_OutcomeUnknown; EK_OutcomeReconciled;
     EK_SessionCompleted; EK_SessionFailed; EK_SessionCancelled; EK_SessionAbandoned;
     EK_SessionExported; EK_SessionDeletionRequested; EK_SessionDeleted; EK_WorkflowTransition]
    EventKind_name.

(** ** Structs *)

Definition RouteDestination_codec : Codec RouteDestination :=
  open_struct_codec
    (required "role" Identifier_codec (required "model_alias" Identifier_codec
    (required "provider" Identifier_codec (required "runtime_model" string_codec no_fields))))
    (λ d, (rd_role d, (rd_model_alias d, (rd_provider d, (rd_runtime_model d, tt)))))
    (λ '(a, (b, (c, (d, _)))),
       {| rd_role := a; rd_model_alias := b; rd_provider := c; rd_runtime_model := d |}).

Definition RouteContext_codec : Codec RouteContext :=
  open_struct_codec
    (required "tools" (vec_codec Identifier_codec)
    (required "data_sources" (vec_codec Identifier_codec)
    (required "permission" PermissionScope_codec no_fields)))
    (λ c, (rc_tools c, (rc_data_sources c, (rc_permission c, tt))))
    (λ '(a, (b, (c, _))), {| rc_tools := a; rc_data_sources := b; rc_permission := c |}).

Definition RoutingPlan_codec : Codec RoutingPlan :=
  open_struct_codec
    (required "intent" string_codec (required "destination" RouteDestination_codec
    (required "context" RouteContext_codec (required "risk" Risk_codec
    (required "confidence" f64_codec (required "selected_by" SelectedRule_codec no_fields))))))
    (λ p, (rp_intent p, (rp_destination p, (rp_context p, (rp_risk p, (rp_confidence p,
           (rp_selected_by p, tt)))))))
    (λ '(a, (b, (c, (d, (e, (f, _)))))),
       {| rp_intent := a; rp_destination := b; rp_context := c; rp_risk := d; rp_confidence := e;
          rp_selected_by := f |}).

Definition RoleMapping_codec : Codec RoleMapping :=
  open_struct_codec
    (required "role" Identifier_codec (required "provider" Identifier_codec
    (required "runtime_model" string_codec no_fields)))
    (λ m, (rm_role m, (rm_provider m, (rm_runtime_model m, tt))))
    (λ '(a, (b, (c, _))), {| rm_role := a; rm_provider := b; rm_runtime_model := c |}).

(** ** Payloads *)

(** The data of a variant: its named fields, other keys ignored. *)
Definition data {T} (fields : Fields T) : Codec T := open_struct_codec fields id id.

Section payloads.
Context `{StorageEnv}.
Local Abbreviation text := NonEmptyText_codec.

Definition created_fields :=
  required "configuration_hash" ContentHash_codec (required "lock_hash" ContentHash_codec no_fields).
Definition resolved_fields :=
  required "snapshot_hash" ContentHash_codec (required "sources" (vec_codec string_codec)
  (required "role_mappings" (vec_codec RoleMapping_codec) no_fields)).
Definition input_fields := required "input_id" uuid_codec (required "content" text no_fields).
Definition plan_fields := required "plan" RoutingPlan_codec no_fields.
Definition clarification_fields := required "question" text (required "reason" string_codec no_fields).
Definition approval_fields :=
  required "approval_id" uuid_codec (required "action" string_codec (required "risk" string_codec
  (required "scope" (vec_codec string_codec) no_fields))).
Definition approved_fields :=
  required "approval_id" uuid_codec (required "actor" text
  (required "decision" ApprovalDecision_codec no_fields)).
Definition planned_fields :=
  required "attempt_id" uuid_codec (required "effect_class" EffectClass_codec
  (required "operation" string_codec (required "idempotent" bool_codec no_fields))).
Definition started_fields :=
  required "attempt_id" uuid_codec (nullable "adapter_session_id" string_codec no_fields).
Definition acknowledged_fields :=
  required "attempt_id" uuid_codec (nullable "provider_request_id" string_codec no_fields).
Definition output_fields :=
  required "attempt_id" uuid_codec (required "event_type" string_codec (required "content" text no_fields)).
Definition control_fields := required "control_id" uuid_codec (required "actor" text no_fields).
Definition redirect_fields :=
  required "control_id" uuid_codec (required "actor" text (required "instruction" text no_fields)).
Definition confirmed_fields := required "control_id" uuid_codec no_fields.
Definition unknown_fields :=
  required "attempt_id" uuid_codec (required "reason" string_codec
  (required "reconciliation_options" (vec_codec ReconciliationResolution_codec) no_fields)).
Definition reconciled_fields :=
  required "attempt_id" uuid_codec (required "resolution" ReconciliationResolution_codec
  (nullable "replacement_attempt_id" uuid_codec no_fields)).
Definition ended_fields :=
  nullable "attempt_id" uuid_codec (required "summary" string_codec
  (required "correlation_id" uuid_codec no_fields)).
Definition abandoned_fields :=
  required "attempt_id" uuid_codec (required "summary" string_codec
  (required "correlation_id" uuid_codec no_fields)).
Definition exported_fields :=
  required "export_id" uuid_codec (required "recipient_fingerprints" (vec_codec string_codec) no_fields).
Definition deletion_fields := required "deletion_id" uuid_codec (required "actor" text no_fields).
Definition deleted_fields :=
  required "deletion_id" uuid_codec (required "key_destroyed" bool_codec no_fields).
Definition transition_fields :=
  required "workflow_id" Identifier_codec (required "run_id" text (required "step_id" text
  (required "iteration" (uint_codec u32_max) (required "phase" string_codec
  (required "reason" string_codec no_fields))))).

Definition payload_data (p : EventPayload) : Value :=
  match p with
  | EP_SessionCreated c l => enc (data created_fields) (c, (l, tt))
  | EP_ConfigurationResolved h s r => enc (data resolved_fields) (h, (s, (r, tt)))
  | EP_InputRecorded i c => enc (data input_fields) (i, (c, tt))
  | EP_RoutingPlanned plan => enc (data plan_fields) (plan, tt)
  | EP_ClarificationRequested q r => enc (data clarification_fields) (q, (r, tt))
  | EP_ApprovalRequested i a r s => enc (data approval_fields) (i, (a, (r, (s, tt))))
  | EP_ApprovalRecorded i a d => enc (data approved_fields) (i, (a, (d, tt)))
  | EP_DispatchPlanned a e o i => enc (data planned_fields) (a, (e, (o, (i, tt))))
  | EP_DispatchStarted a s => enc (data started_fields) (a, (s, tt))
  | EP_DispatchAcknowledged a r => enc (data acknowledged_fields) (a, (r, tt))
  | EP_ProviderEvent a t c | EP_ToolEvent a t c => enc (data output_fields) (a, (t, (c, tt)))
  | EP_PauseRequested c a | EP_SessionPaused c a | EP_SessionResumed c a | EP_CancelRequested c a =>
      enc (data control_fields) (c, (a, tt))
  | EP_SessionRedirected c a i => enc (data redirect_fields) (c, (a, (i, tt)))
  | EP_CancelConfirmed c => enc (data confirmed_fields) (c, tt)
  | EP_OutcomeUnknown a r o => enc (data unknown_fields) (a, (r, (o, tt)))
  | EP_OutcomeReconciled a r b => enc (data reconciled_fields) (a, (r, (b, tt)))
  | EP_SessionCompleted a s c | EP_SessionFailed a s c | EP_SessionCancelled a s c =>
      enc (data ended_fields) (a, (s, (c, tt)))
  | EP_SessionAbandoned a s c => enc (data abandoned_fields) (a, (s, (c, tt)))
  | EP_SessionExported i r => enc (data exported_fields) (i, (r, tt))
  | EP_SessionDeletionRequested d a => enc (data deletion_fields) (d, (a, tt))
  | EP_SessionDeleted d k => enc (data deleted_fields) (d, (k, tt))
  | EP_WorkflowTransition w r s i p q => enc (data transition_fields) (w, (r, (s, (i, (p, (q, tt))))))
  end.

Definition payload_of (k : EventKind) (v : Value) : Result EventPayload DecodeError :=
  let read {T} (fields : Fields T) (make : T → EventPayload) := result_map make (dec (data fields) v) in
  match k with
  | EK_SessionCreated => read created_fields (λ '(c, (l, _)), EP_SessionCreated c l)
  | EK_ConfigurationResolved =>
      read resolved_fields (λ '(h, (s, (r, _))), EP_ConfigurationResolved h s r)
  | EK_InputRecorded => read input_fields (λ '(i, (c, _)), EP_InputRecorded i c)
  | EK_RoutingPlanned => read plan_fields (λ '(plan, _), EP_RoutingPlanned plan)
  | EK_ClarificationRequested =>
      read clarification_fields (λ '(q, (r, _)), EP_ClarificationRequested q r)
  | EK_ApprovalRequested => read approval_fields (λ '(i, (a, (r, (s, _)))), EP_ApprovalRequested i a r s)
  | EK_ApprovalRecorded => read approved_fields (λ '(i, (a, (d, _))), EP_ApprovalRecorded i a d)
  | EK_DispatchPlanned => read planned_fields (λ '(a, (e, (o, (i, _)))), EP_DispatchPlanned a e o i)
  | EK_DispatchStarted => read started_fields (λ '(a, (s, _)), EP_DispatchStarted a s)
  | EK_DispatchAcknowledged => read acknowledged_fields (λ '(a, (r, _)), EP_DispatchAcknowledged a r)
  | EK_ProviderEvent => read output_fields (λ '(a, (t, (c, _))), EP_ProviderEvent a t c)
  | EK_ToolEvent => read output_fields (λ '(a, (t, (c, _))), EP_ToolEvent a t c)
  | EK_PauseRequested => read control_fields (λ '(c, (a, _)), EP_PauseRequested c a)
  | EK_SessionPaused => read control_fields (λ '(c, (a, _)), EP_SessionPaused c a)
  | EK_SessionResumed => read control_fields (λ '(c, (a, _)), EP_SessionResumed c a)
  | EK_SessionRedirected => read redirect_fields (λ '(c, (a, (i, _))), EP_SessionRedirected c a i)
  | EK_CancelRequested => read control_fields (λ '(c, (a, _)), EP_CancelRequested c a)
  | EK_CancelConfirmed => read confirmed_fields (λ '(c, _), EP_CancelConfirmed c)
  | EK_OutcomeUnknown => read unknown_fields (λ '(a, (r, (o, _))), EP_OutcomeUnknown a r o)
  | EK_OutcomeReconciled => read reconciled_fields (λ '(a, (r, (b, _))), EP_OutcomeReconciled a r b)
  | EK_SessionCompleted => read ended_fields (λ '(a, (s, (c, _))), EP_SessionCompleted a s c)
  | EK_SessionFailed => read ended_fields (λ '(a, (s, (c, _))), EP_SessionFailed a s c)
  | EK_SessionCancelled => read ended_fields (λ '(a, (s, (c, _))), EP_SessionCancelled a s c)
  | EK_SessionAbandoned => read abandoned_fields (λ '(a, (s, (c, _))), EP_SessionAbandoned a s c)
  | EK_SessionExported => read exported_fields (λ '(i, (r, _)), EP_SessionExported i r)
  | EK_SessionDeletionRequested =>
      read deletion_fields (λ '(d, (a, _)), EP_SessionDeletionRequested d a)
  | EK_SessionDeleted => read deleted_fields (λ '(d, (k, _)), EP_SessionDeleted d k)
  | EK_WorkflowTransition =>
      read transition_fields (λ '(w, (r, (s, (i, (p, (q, _)))))), EP_WorkflowTransition w r s i p q)
  end.

(** An adjacently tagged enum: the kind beside the data, in an object or a pair. *)
Definition EventPayload_codec : Codec EventPayload :=
  let tagged tag v := let? k := dec EventKind_codec tag in payload_of k v in {|
  enc p := VObject [("kind", enc EventKind_codec (kind p)); ("data", payload_data p)];
  dec v :=
    match v with
    | VObject m =>
        match bt_get "kind" m, bt_get "data" m with
        | Some tag, Some v => tagged tag v
        | _, _ => Err DE_Serde
        end
    | VArray [tag; v] => tagged tag v
    | _ => Err DE_Serde
    end;
|}.
End payloads.

(** ** What the types admit *)

Definition hash_ok (s : string) : bool := is_digest s.
Definition text_ok (s : string) : bool := negb (is_empty s).

Definition plan_ok (p : RoutingPlan) : bool :=
  identifier_valid (rd_role (rp_destination p)) && identifier_valid (rd_model_alias (rp_destination p))
  && identifier_valid (rd_provider (rp_destination p))
  && forallb identifier_valid (rc_tools (rp_context p))
  && forallb identifier_valid (rc_data_sources (rp_context p))
  && is_finite (rp_confidence p).

(** Identifiers, texts and hashes are what their parsers accept, a confidence is a
    number, an iteration fits its width. *)
Definition payload_typed (p : EventPayload) : bool :=
  match p with
  | EP_SessionCreated c l => hash_ok c && hash_ok l
  | EP_ConfigurationResolved h _ r =>
      hash_ok h && forallb (λ m, identifier_valid (rm_role m) && identifier_valid (rm_provider m)) r
  | EP_InputRecorded _ c => text_ok c
  | EP_RoutingPlanned plan => plan_ok plan
  | EP_ClarificationRequested q _ => text_ok q
  | EP_ApprovalRecorded _ a _ => text_ok a
  | EP_ProviderEvent _ _ c | EP_ToolEvent _ _ c => text_ok c
  | EP_PauseRequested _ a | EP_SessionPaused _ a | EP_SessionResumed _ a | EP_CancelRequested _ a
  | EP_SessionDeletionRequested _ a => text_ok a
  | EP_SessionRedirected _ a i => text_ok a && text_ok i
  | EP_WorkflowTransition w r s i _ _ =>
      identifier_valid w && text_ok r && text_ok s && (i <=? u32_max)%N
  | _ => true
  end.

(** ** Laws *)

(** A text that a parser accepts or refuses unchanged. *)
Lemma checked_string_laws (parse : string → Result string NewError) (valid : string → bool) :
  (∀ s, ok (parse s) = if valid s then Some s else None) →
  CodecLaws (via_string id (λ s, ok (parse s))) (λ s, valid s = true).
Proof.
  intros Hp. split; simpl; [done| |].
  - intros s Hs. by rewrite Hp, Hs.
  - intros v s _. destruct v; try done. rewrite Hp. destruct (valid s0) eqn:Hv; [|done]. by intros [= <-].
Qed.

#[export] Instance Identifier_laws : CodecLaws Identifier_codec (λ s, identifier_valid s = true).
Proof. apply checked_string_laws. intros s. unfold Identifier_parse. by destruct (identifier_valid s). Qed.
#[export] Instance NonEmptyText_laws : CodecLaws NonEmptyText_codec (λ s, text_ok s = true).
Proof. apply checked_string_laws. intros s. unfold NonEmptyText_parse, text_ok. by destruct (is_empty s). Qed.
#[export] Instance ContentHash_laws : CodecLaws ContentHash_codec (λ s, hash_ok s = true).
Proof. apply checked_string_laws. intros s. unfold ContentHash_parse, hash_ok. by destruct (is_digest s). Qed.
#[export] Instance core_effect_laws : CodecLaws EffectClass_codec (λ _, True).
Proof. derive_enum. Qed.
#[export] Instance Risk_laws : CodecLaws Risk_codec (λ _, True).
Proof. derive_enum. Qed.
#[export] Instance PermissionScope_laws : CodecLaws PermissionScope_codec (λ _, True).
Proof. derive_enum. Qed.
#[export] Instance SelectedRule_laws : CodecLaws SelectedRule_codec (λ _, True).
Proof. derive_enum. Qed.
#[export] Instance EventKind_laws : CodecLaws EventKind_codec (λ _, True).
Proof. derive_enum. Qed.

Lemma forallb_iff {A} (p : A → bool) l : Forall (λ a, p a = true) l ↔ forallb p l = true.
Proof. by rewrite forallb_Forall. Qed.

#[export] Instance RouteDestination_laws : CodecLaws RouteDestination_codec
  (λ d, identifier_valid (rd_role d) = true ∧ identifier_valid (rd_model_alias d) = true ∧
        identifier_valid (rd_provider d) = true).
Proof. derive_open_struct. naive_solver. Qed.
#[export] Instance RouteContext_laws : CodecLaws RouteContext_codec
  (λ c, forallb identifier_valid (rc_tools c) = true ∧ forallb identifier_valid (rc_data_sources c) = true).
Proof. derive_open_struct. rewrite !forallb_iff. naive_solver. Qed.
#[export] Instance RoutingPlan_laws : CodecLaws RoutingPlan_codec (λ p, plan_ok p = true).
Proof. derive_open_struct. unfold plan_ok. rewrite !andb_true_iff. naive_solver. Qed.
#[export] Instance RoleMapping_laws : CodecLaws RoleMapping_codec
  (λ m, identifier_valid (rm_role m) && identifier_valid (rm_provider m) = true).
Proof. derive_open_struct. rewrite !andb_true_iff. naive_solver. Qed.

Lemma data_laws {T} (fields : Fields T) P :
  FieldsLaws fields P → NoDup (f_names fields) → CodecLaws (data fields) P.
Proof. intros Hf Hn. by apply open_struct_laws. Qed.

Section laws.
Context `{StorageEnv} `{!StorageEnvLaws}.

#[local] Instance decision_laws : CodecLaws ApprovalDecision_codec (λ _, True).
Proof. derive_enum. Qed.
#[local] Instance resolution_laws : CodecLaws ReconciliationResolution_codec (λ _, True).
Proof. derive_enum. Qed.

(** The laws of the data of a variant, by the instances of its fields. *)
Ltac field_laws HL :=
  match goal with |- context [data ?f] =>
    eassert (CodecLaws (data f) _) as HL;
    [eapply (data_laws f); [match f with ?h _ => unfold h | _ => unfold f end; apply _|apply all_distinct_NoDup; reflexivity]|] end.

(** What the fields ask for is what [payload_typed] checks. *)
Ltac typed :=
  simpl in *; rewrite ?Forall_true_iff, ?forallb_iff, ?andb_true_iff, ?N.leb_le in *; naive_solver.

Lemma payload_dec_enc p :
  payload_typed p = true → payload_of (kind p) (canonical (payload_data p)) = Ok p.
Proof.
  intros Hp. destruct p; cbn [payload_of payload_data kind]; field_laws HL;
    (rewrite (dec_enc (CodecLaws := HL)); [reflexivity|typed]).
Qed.

Lemma payload_data_ok p : payload_typed p = true → doc_ok (payload_data p).
Proof.
  intros Hp. destruct p; cbn [payload_data]; field_laws HL; apply (enc_ok (CodecLaws := HL)); typed.
Qed.

Lemma payload_of_sound k v p :
  value_wf v = true → payload_of k v = Ok p → payload_typed p = true ∧ kind p = k.
Proof.
  intros Hv. destruct k; cbn [payload_of]; field_laws HL; intros Hp;
    (match type of Hp with result_map _ (dec ?c v) = _ => destruct (dec c v) as [t|] eqn:Hd; [|done] end;
     apply (dec_sound (CodecLaws := HL)) in Hd; [|done]; simpl in Hp;
     repeat match goal with x : (_ * _)%type |- _ => destruct x end; injection Hp as <-;
     split; [typed|done]).
Qed.

#[export] Instance EventPayload_laws : CodecLaws EventPayload_codec (λ p, payload_typed p = true).
Proof.
  split.
  - intros p Hp. destruct (payload_data_ok p Hp) as [Hd Hn]. split; simpl; rewrite ?Hd, ?Hn; done.
  - intros p Hp. change (canonical (enc EventPayload_codec p)) with
      (VObject [("data", canonical (payload_data p)); ("kind", VString (EventKind_name (kind p)))]).
    simpl. pose proof (dec_enc (c := EventKind_codec) (kind p) I) as Hk. simpl in Hk. rewrite Hk. simpl.
    by apply payload_dec_enc.
  - assert (∀ tag v p, value_wf v = true → (let? k := dec EventKind_codec tag in payload_of k v) = Ok p →
      payload_typed p = true) as Ht.
    { intros tag v p Hv. destruct (dec EventKind_codec tag) as [k|]; [|done]. by intros []%payload_of_sound. }
    intros v p Hv. destruct v as [| | | |vs|m]; try done; simpl in Hv |- *.
    + destruct vs as [|tag [|v []]]; try done. simpl in Hv.
      rewrite !andb_true_iff in Hv. apply Ht. naive_solver.
    + apply andb_true_iff in Hv as [_ Hv]. rewrite forallb_Forall, Forall_forall in Hv.
      destruct (bt_get "kind" m); [|done]. destruct (bt_get "data" m) eqn:Hb; [|done].
      apply Ht. apply bt_get_In in Hb. by apply Hv in Hb.
Qed.
End laws.
