(* ===== verification/StorageSample.v ===== *)
(** * StorageSample: a concrete environment for the storage theorems

    The assumptions of [StorageEnvLaws] can hold together: documents have a
    self-delimiting text form, identifiers and instants are binary digits, the
    cipher appends the significant half of the key, base64 is padding to the right
    length, and the random source counts. The witnesses of the storage and daemon
    theorems evaluate in this environment. *)

From S2P Require Import Prelude StateResult Text BTree Errors Json Wire Event ProtoCommand Codec.
From S2P Require Import StorageKeys.

(** ** Documents as text *)

(** Each byte after a point, and a semicolon at the end. *)
Fixpoint put_text (s : string) : string :=
  match s with
  | EmptyString => ";"
  | String c s => String "." (String c (put_text s))
  end.

Fixpoint take_text (s : string) : option (string * string) :=
  match s with
  | String ";" r => Some (EmptyString, r)
  | String "." (String c r) =>
      match take_text r with Some (t, r) => Some (String c t, r) | None => None end
  | _ => None
  end.

Definition float_digits (f : f64) : string := positive_print (countable.encode (float_to_code f)).
Definition int_digits (z : Z) : string := positive_print (countable.encode z).

Fixpoint sample_print (v : Value) : string :=
  match v with
  | VNull => "n"
  | VBool true => "t"
  | VBool false => "f"
  | VNumber (PosInt n) => String "p" (put_text (binary_print n))
  | VNumber (NegInt z) => String "m" (put_text (int_digits z))
  | VNumber (Float f) => String "d" (put_text (float_digits f))
  | VString s => String "s" (put_text s)
  | VArray vs =>
      String "[" ((fix go vs := match vs with
                                | [] => EmptyString
                                | v :: vs => sample_print v +:+ go vs
                                end) vs +:+ "]")
  | VObject es =>
      String "{" ((fix go es := match es with
                                | [] => EmptyString
                                | e :: es => (put_text (fst e) +:+ sample_print (snd e)) +:+ go es
                                end) es +:+ "}")
  end.

(** Items up to the closing byte. *)
Fixpoint take_items {A} (p : string → option (A * string)) (close : ascii) (n : nat) (s : string)
    : option (list A * string) :=
  match n, s with
  | S n, String c r =>
      if decide (c = close) then Some ([], r)
      else match p s with
           | Some (a, r) =>
               match take_items p close n r with
               | Some (l, r) => Some (a :: l, r)
               | None => None
               end
           | None => None
           end
  | _, _ => None
  end.

Definition take_digits {A} (f : string → option A) (s : string) : option (A * string) :=
  match take_text s with
  | Some (t, r) => match f t with Some a => Some (a, r) | None => None end
  | None => None
  end.

Definition read_int (s : string) : option Z := p ← positive_parse s; countable.decode p.
Definition read_float (s : string) : option f64 :=
  p ← positive_parse s; c ← @countable.decode FloatCode _ _ p; Some (code_to_float c).

Definition take_entry (p : string → option (Value * string)) (s : string)
    : option (string * Value * string) :=
  match take_text s with
  | Some (k, r) => match p r with Some (v, r) => Some ((k, v), r) | None => None end
  | None => None
  end.

Fixpoint take_value (fuel : nat) (s : string) : option (Value * string) :=
  match fuel with
  | O => None
  | S fuel =>
      match s with
      | String "n" r => Some (VNull, r)
      | String "t" r => Some (VBool true, r)
      | String "f" r => Some (VBool false, r)
      | String "p" r => prod_map (VNumber ∘ PosInt) id <$> take_digits binary_parse r
      | String "m" r => prod_map (VNumber ∘ NegInt) id <$> take_digits read_int r
      | String "d" r => prod_map (VNumber ∘ Float) id <$> take_digits read_float r
      | String "s" r => prod_map VString id <$> take_text r
      | String "[" r => prod_map VArray id <$> take_items (take_value fuel) "]" (S (String.length r)) r
      | String "{" r =>
          prod_map VObject id <$> take_items (take_entry (take_value fuel)) "}" (S (String.length r)) r
      | _ => None
      end
  end.

Definition sample_parse (s : string) : option Value :=
  match take_value (S (String.length s)) s with
  | Some (v, EmptyString) => Some v
  | _ => None
  end.

Lemma string_cons_app c (a b : string) : String c a +:+ b = String c (a +:+ b).
Proof. done. Qed.

Lemma take_put_text s r : take_text (put_text s +:+ r) = Some (s, r).
Proof.
  induction s as [|c s IH]; [done|]. change (put_text (String c s)) with (String "." (String c (put_text s))).
  rewrite !string_cons_app. change (take_text (String "." (String c (put_text s +:+ r)))) with
    (match take_text (put_text s +:+ r) with Some (t, r) => Some (String c t, r) | None => None end).
  by rewrite IH.
Qed.

Lemma take_digits_put {A} (f : string → option A) s a r :
  f s = Some a → take_digits f (put_text s +:+ r) = Some (a, r).
Proof. intros Hf. unfold take_digits. by rewrite take_put_text, Hf. Qed.

Lemma put_text_length s : String.length (put_text s) = S (2 * String.length s).
Proof. induction s; simpl; [done|]. rewrite IHs. lia. Qed.

Section items.
Context {A : Type} (p : string → option (A * string)) (pr : A → string) (close : ascii).

Fixpoint put_items (l : list A) : string :=
  match l with [] => EmptyString | a :: l => pr a +:+ put_items l end.

Lemma take_put_items l r n :
  Forall (λ a, (∀ r, p (pr a +:+ r) = Some (a, r)) ∧
               ∃ c s, pr a = String c s ∧ c ≠ close) l →
  (length l < n)%nat →
  take_items p close n (put_items l +:+ String close r) = Some (l, r).
Proof.
  intros Hl. revert n. induction Hl as [|a l (Hp & c & s & Hc & Hne) Hl IH]; intros [|n] Hn; simpl in Hn; try lia.
  - simpl. by rewrite decide_True.
  - simpl put_items. rewrite string_app_assoc. simpl take_items.
    pose proof (Hp (put_items l +:+ String close r)) as Hpa. rewrite Hc in *.
    rewrite !string_cons_app in *. simpl. rewrite decide_False by done. rewrite Hpa.
    rewrite IH by lia. done.
Qed.

Lemma put_items_length l : (∀ a, pr a ≠ EmptyString) → (length l ≤ String.length (put_items l))%nat.
Proof.
  intros Hne. induction l as [|a l IH]; simpl; [lia|]. rewrite string_length_app.
  specialize (Hne a). destruct (pr a); simpl; [done|lia].
Qed.
End items.

Lemma sample_print_array vs :
  sample_print (VArray vs) = String "[" (put_items sample_print vs +:+ "]").
Proof. reflexivity. Qed.

Definition entry_print (e : string * Value) : string := put_text e.1 +:+ sample_print e.2.

Lemma sample_print_object es :
  sample_print (VObject es) = String "{" (put_items entry_print es +:+ "}").
Proof. reflexivity. Qed.

Lemma sample_print_head v : ∃ c s, sample_print v = String c s ∧ c ≠ "]"%char.
Proof. destruct v as [|[]|[]| | |]; do 2 eexists; (split; [reflexivity|done]). Qed.

Lemma entry_print_head e : ∃ c s, entry_print e = String c s ∧ c ≠ "}"%char.
Proof. destruct e as [[|c k] v]; do 2 eexists; (split; [reflexivity|done]). Qed.

Lemma put_items_member {A} (pr : A → string) l a :
  a ∈ l → (String.length (pr a) ≤ String.length (put_items pr l))%nat.
Proof.
  induction 1 as [|a b l Ha IH]; simpl; rewrite string_length_app; lia.
Qed.

Lemma take_value_print v fuel r :
  (String.length (sample_print v) ≤ fuel)%nat →
  take_value fuel (sample_print v +:+ r) = Some (v, r).
Proof.
  revert fuel r. induction v as [|b|n|s|vs IH|es IH] using Value_nested_ind; intros fuel r Hf.
  - destruct fuel; [simpl in Hf; lia|done].
  - destruct fuel; [destruct b; simpl in Hf; lia|by destruct b].
  - destruct fuel; [destruct n; simpl in Hf; lia|]. destruct n as [n|z|f]; simpl sample_print;
      rewrite string_cons_app; cbn [take_value].
    + erewrite take_digits_put by apply binary_roundtrip. done.
    + erewrite take_digits_put; [done|]. unfold read_int, int_digits.
      rewrite positive_roundtrip. simpl. by rewrite decode_encode.
    + erewrite take_digits_put; [done|]. unfold read_float, float_digits.
      rewrite positive_roundtrip. cbn [mbind option_bind]. rewrite decode_encode. by destruct f.
  - destruct fuel; [simpl in Hf; lia|]. simpl sample_print. rewrite string_cons_app.
    cbn [take_value]. by rewrite take_put_text.
  - rewrite sample_print_array in *. destruct fuel as [|fuel]; [simpl in Hf; lia|].
    rewrite string_cons_app, string_app_assoc. cbn [take_value]. change ("]" +:+ r) with (String "]" r).
    rewrite (take_put_items _ sample_print); [done| |].
    + apply Forall_forall. intros v Hv. split; [|apply sample_print_head]. intros r'.
      rewrite Forall_forall in IH. apply IH; [done|]. simpl in Hf. rewrite string_length_app in Hf.
      pose proof (put_items_member sample_print vs v Hv). simpl in Hf. lia.
    + rewrite string_length_app. pose proof (put_items_length sample_print vs) as Hl.
      simpl. assert (∀ a, sample_print a ≠ EmptyString) as Hne
        by (intros a; destruct (sample_print_head a) as (? & ? & -> & _); done).
      specialize (Hl Hne). lia.
  - rewrite sample_print_object in *. destruct fuel as [|fuel]; [simpl in Hf; lia|].
    rewrite string_cons_app, string_app_assoc. cbn [take_value]. change ("}" +:+ r) with (String "}" r).
    rewrite (take_put_items _ entry_print); [done| |].
    + apply Forall_forall. intros [k v] Hv. split; [|apply entry_print_head]. intros r'.
      unfold take_entry, entry_print. simpl. rewrite string_app_assoc, take_put_text.
      rewrite Forall_forall in IH. rewrite (IH _ Hv); [done|]. simpl in Hf. rewrite string_length_app in Hf.
      pose proof (put_items_member entry_print es (k, v) Hv) as Hm. unfold entry_print in Hm at 1.
      rewrite string_length_app in Hm. simpl in *. lia.
    + rewrite string_length_app. pose proof (put_items_length entry_print es) as Hl.
      simpl. assert (∀ a, entry_print a ≠ EmptyString) as Hne
        by (intros a; destruct (entry_print_head a) as (? & ? & -> & _); done).
      specialize (Hl Hne). lia.
Qed.

Lemma sample_json_roundtrip v : sample_parse (sample_print v) = Some v.
Proof.
  unfold sample_parse. pose proof (take_value_print v (S (String.length (sample_print v))) EmptyString) as Hp.
  rewrite string_app_nil in Hp. rewrite Hp by lia. done.
Qed.

Lemma sample_json_longer es k s :
  (k, VString s) ∈ es → (len s < len (sample_print (VObject es)))%N.
Proof.
  intros Hin. unfold len. rewrite sample_print_object. simpl. rewrite string_length_app.
  apply (put_items_member entry_print) in Hin. unfold entry_print in Hin at 1.
  rewrite string_length_app in Hin. simpl in Hin. rewrite !put_text_length in Hin. simpl. lia.
Qed.

(** ** The cipher *)

Definition zeros (n : nat) : string := String.concat "" (repeat "0" n).

(** A key has sixteen significant bytes. *)
Definition key_head (k : string) : string := String.substring 0 16 k.
Definition key_valid (k : string) : bool := bool_decide (k = key_head k +:+ zeros 16).

Definition sample_encrypt (k nonce aad m : string) : option string :=
  if key_valid k && (len k =? KEY_BYTES)%N then Some (m +:+ key_head k) else None.

Definition sample_decrypt (k nonce aad c : string) : option string :=
  let n := (String.length c - 16)%nat in
  if key_valid k && (len k =? KEY_BYTES)%N && bool_decide (String.substring n 16 c = key_head k)
  then Some (String.substring 0 n c) else None.

Lemma substring_app_l (a b : string) : String.substring 0 (String.length a) (a +:+ b) = a.
Proof.
  induction a as [|c a IH]; simpl; [by destruct b|].
  change (String c (String.substring 0 (String.length a) (a +:+ b)) = String c a). by rewrite IH.
Qed.

Lemma substring_app_r (a b : string) :
  String.substring (String.length a) (String.length b) (a +:+ b) = b.
Proof.
  induction a as [|c a IH]; [apply substring_full|].
  change (String.substring (String.length a) (String.length b) (a +:+ b) = b). apply IH.
Qed.

Lemma key_head_length k : len k = KEY_BYTES → String.length (key_head k) = 16%nat.
Proof. unfold key_head, len, KEY_BYTES. intros Hl. apply substring_length. lia. Qed.

Lemma sample_roundtrip k n a m c :
  sample_encrypt k n a m = Some c → sample_decrypt k n a c = Some m.
Proof.
  unfold sample_encrypt, sample_decrypt. destruct (key_valid k && _) eqn:Hk; [|done].
  intros [= <-]. bool_to_prop. pose proof (key_head_length k) as Hl.
  rewrite string_length_app, Hl by done. rewrite Nat.add_sub. simpl andb.
  rewrite substring_app_l, bool_decide_eq_true_2; [done|].
  pose proof (substring_app_r m (key_head k)) as Hr. by rewrite Hl in Hr by done.
Qed.

Lemma sample_length k n a m c : sample_encrypt k n a m = Some c → len c = (len m + 16)%N.
Proof.
  unfold sample_encrypt. destruct (key_valid k && _) eqn:Hk; [|done]. intros [= <-]. bool_to_prop.
  unfold len at 1. rewrite string_length_app, key_head_length by done. unfold len. lia.
Qed.

Lemma sample_one_key k k' n a c m m' :
  sample_decrypt k n a c = Some m → sample_decrypt k' n a c = Some m' → k = k'.
Proof.
  unfold sample_decrypt. intros H1 H2. do 2 case_match; simplify_eq. bool_to_prop.
  unfold key_valid in *. bool_to_prop. congruence.
Qed.

(** ** The rest of the environment *)

Definition padding (n : nat) : string := String.concat "" (repeat "=" n).

(** The text, a point and padding, in the length base64 has. *)
Definition sample_b64 (s : string) : string :=
  match s with
  | EmptyString => EmptyString
  | _ => s +:+ "." +:+ padding (N.to_nat (4 * ((len s + 2) / 3) - len s - 1))
  end.

Definition sample_unb64 (s : string) : option string :=
  match s with
  | EmptyString => Some EmptyString
  | _ => fst <$> rsplit_once DOT s
  end.

Lemma repeat_length (c : ascii) n :
  String.length (String.concat "" (repeat (String c EmptyString) n)) = n.
Proof. induction n as [|[|n] IH]; [done|done|]. simpl in *. f_equal. exact IH. Qed.

Lemma rsplit_once_last (c : ascii) t :
  any_byte (is_byte DOT) t = false → rsplit_once DOT t = None.
Proof. induction t as [|d t IH]; simpl; [done|]. intros. bool_to_prop. rewrite IH by done. by case_match. Qed.

Lemma padding_dotless n : any_byte (is_byte DOT) (padding n) = false.
Proof. unfold padding. induction n as [|[|n] IH]; [done|done|]. simpl in *. exact IH. Qed.

Lemma rsplit_once_padding s t :
  any_byte (is_byte DOT) t = false → rsplit_once DOT (s +:+ "." +:+ t) = Some (s, t).
Proof.
  intros Ht. induction s as [|c s IH].
  - change (rsplit_once DOT (String "." t) = Some (EmptyString, t)). simpl.
    by rewrite (rsplit_once_last " ").
  - rewrite string_cons_app. simpl rsplit_once. by rewrite IH.
Qed.

Lemma sample_b64_roundtrip s : sample_unb64 (sample_b64 s) = Some s.
Proof.
  destruct s as [|c s]; [done|]. unfold sample_b64.
  pose proof (rsplit_once_padding (String c s) _
    (padding_dotless (N.to_nat (4 * ((len (String c s) + 2) / 3) - len (String c s) - 1)))) as Hr.
  unfold sample_unb64. rewrite string_cons_app in *. by rewrite Hr.
Qed.

Lemma sample_b64_length s : len (sample_b64 s) = (4 * ((len s + 2) / 3))%N.
Proof.
  destruct s as [|c s]; [done|]. unfold sample_b64. set (t := String c s).
  assert (1 ≤ len t)%N by (unfold t, len; simpl; lia).
  assert (len t + 1 ≤ 4 * ((len t + 2) / 3))%N.
  { pose proof (N.div_mod (len t + 2) 3). pose proof (N.mod_lt (len t + 2) 3). lia. }
  unfold len at 1. rewrite !string_length_app. unfold padding. rewrite repeat_length.
  simpl (String.length "."). fold (len t). unfold len in *. lia.
Qed.

(** The significant half of the bytes are the digits of the draw. *)
Fixpoint bits (width : nat) (n : N) : string :=
  match width with
  | O => EmptyString
  | S width => String (if N.odd n then "1" else "0") (bits width (N.div2 n))
  end.

Lemma bits_length w n : String.length (bits w n) = w.
Proof. revert n. induction w as [|w IH]; intros n; simpl; [done|]. by rewrite IH. Qed.

Definition sample_random (i n : N) : string :=
  bits (N.to_nat (N.min n 16)) i +:+ zeros (N.to_nat (n - 16)).

Lemma sample_random_length i n : len (sample_random i n) = n.
Proof.
  unfold sample_random, len. rewrite string_length_app, bits_length. unfold zeros.
  rewrite repeat_length. lia.
Qed.

(** A digest of 64 hexadecimal digits: the bits of a polynomial hash. *)
Fixpoint text_hash (acc : N) (s : string) : N :=
  match s with
  | EmptyString => acc
  | String c s => text_hash ((acc * 257 + byte_of c) mod 18446744073709551557) s
  end.

Definition finite_parse (s : string) : option Value :=
  v ← sample_parse s; if numbers_finite v then Some v else None.

#[export] Instance SampleEnv : StorageEnv := {
  uuid_text := binary_print;
  uuid_parse := binary_parse;
  json_print := sample_print;
  json_parse := finite_parse;
  time_text := int_digits;
  time_parse := read_int;
  blake3_hex s := bits 64 (text_hash 7 s);
  base64_encode := sample_b64;
  base64_decode := sample_unb64;
  aead_encrypt := sample_encrypt;
  aead_decrypt := sample_decrypt;
  random_bytes := sample_random;
  now_v7 i := (1000 + i)%N;
}.

#[export] Instance SampleEnv_laws : StorageEnvLaws.
Proof.
  split; simpl.
  - apply binary_roundtrip.
  - intros doc [_ Hf]. unfold finite_parse. rewrite sample_json_roundtrip. simpl. by rewrite Hf.
  - intros text doc. unfold finite_parse. destruct (sample_parse text) as [v|]; [|done]. simpl.
    destruct (numbers_finite v) eqn:Hf; [|done]. by intros [= <-].
  - apply sample_json_longer.
  - intros t. unfold read_int, int_digits. rewrite positive_roundtrip. simpl. apply decode_encode.
  - apply sample_b64_roundtrip.
  - apply sample_b64_length.
  - apply sample_roundtrip.
  - apply sample_length.
  - apply sample_one_key.
  - apply sample_random_length.
Qed.

(** ** Witnesses for the key manager *)

(** A manager with one session key. *)
Definition sample_manager : KeyManager MemoryKeyStore :=
  (create_session_key 5%N (for_storage MemoryKeyStore_new 3%N "here" 0%N)).1.

Definition sample_key : SecretKey := sample_random 1%N 32%N.

Lemma rotation_keeps_keys_witness :
  (rotate_root_key sample_manager).2 = Ok tt ∧
  readable (rotate_root_key sample_manager).1 5%N sample_key.
Proof.
  split; [vm_compute; reflexivity|].
  apply (rotation_keeps_keys sample_manager _ (Ok tt)); [vm_compute; reflexivity| |vm_compute; reflexivity].
  apply (session_key_readable (reopened sample_manager)
           (session_key 5%N (reopened sample_manager)).1); vm_compute; reflexivity.
Defined.

Lemma session_key_lifecycle_witness :
  ∃ key, km_cache sample_manager !! 5%N = Some key ∧
         (session_key 5%N (reopened sample_manager)).2 = Ok key.
Proof.
  destruct (session_key_lifecycle (for_storage MemoryKeyStore_new 3%N "here" 0%N) sample_manager 5%N
    (session_key_id sample_manager 5%N)) as (key & Hkey & Hread & _);
    [vm_compute; reflexivity|vm_compute; reflexivity|].
  exists key. split; [exact Hkey|]. eapply Hread; vm_compute; reflexivity.
Defined.
