(* ===== verification/StorageTables.v ===== *)
(** * StorageTables: the tables, their constraints and the statements
      (workbench-storage/migrations, the SQL of workbench-storage/src/sqlite.rs)

    A table is the list of its rows in insertion order, a row a record with the
    columns of the migration; identifiers and instants are texts, as in the
    database. A statement is a function on the tables: an insertion is refused
    ([None]) when it violates a key, a foreign key, a check or a unique index of
    the migrations, an update or deletion returns the number of rows it changed. *)

From stdpp Require Import sorting.
From S2P Require Import Prelude StateResult Text BTree Errors Json Event StorageKeys.

Record SessionRow : Type := {
  s_session_id : string;
  s_key_id : string;
  s_state : string;
  s_created_at : string;
  s_terminal_at : option string;
  s_configuration : EncryptedPayload;
  s_lock : EncryptedPayload;
  s_spend_usd_micros : Z;
}.

Record EventRow : Type := {
  e_event_id : string;
  e_session_id : string;
  e_sequence : Z;
  e_occurred_at : string;
  e_kind : string;
  e_causation_request_id : option string;
  e_attempt_id : option string;
  e_effect_class : option string;
  e_key_id : string;
  e_payload : EncryptedPayload;
}.

Record OutcomeRow : Type := {
  o_scope : string;
  o_request_id : string;
  o_session_id : option string;
  o_method : string;
  o_parameter_hash : string;
  o_outcome_json : string;
}.

Record CreationRow : Type := {
  c_session_id : string;
  c_request_id : string;
  c_parameter_hash : string;
  c_key_id : string;
  c_state : string;
}.

(** Digest, size, device and inode of a staged file: present together. *)
Record Fingerprint : Type := {
  fp_blake3 : string;
  fp_size : Z;
  fp_device : string;
  fp_inode : string;
}.

Record ExportRow : Type := {
  x_export_id : string;
  x_session_id : string;
  x_request_id : string;
  x_parameter_hash : string;
  x_state : string;
  x_payload : EncryptedPayload;
  x_fingerprint : option Fingerprint;
}.

Record DeletionRow : Type := {
  d_session_id : string;
  d_deletion_id : string;
  d_request_id : string;
}.

(** The creation columns are null together. *)
Record TombstoneRow : Type := {
  t_session_id : string;
  t_deletion_id : string;
  t_creation : option (string * string * string * string);
  t_deletion_request_id : string;
  t_deletion_method : string;
  t_deletion_parameter_hash : string;
  t_deletion_outcome_json : string;
}.

Record Tables : Type := {
  sessions : list SessionRow;
  session_events : list EventRow;
  command_outcomes : list OutcomeRow;
  session_creation_journal : list CreationRow;
  export_journal : list ExportRow;
  deletion_journal : list DeletionRow;
  deletion_tombstones : list TombstoneRow;
}.

Definition empty_tables : Tables :=
  {| sessions := []; session_events := []; command_outcomes := [];
     session_creation_journal := []; export_journal := []; deletion_journal := [];
     deletion_tombstones := [] |}.

Definition with_sessions (t : Tables) (l : list SessionRow) : Tables :=
  {| sessions := l; session_events := session_events t; command_outcomes := command_outcomes t;
     session_creation_journal := session_creation_journal t; export_journal := export_journal t;
     deletion_journal := deletion_journal t; deletion_tombstones := deletion_tombstones t |}.

Definition with_events (t : Tables) (l : list EventRow) : Tables :=
  {| sessions := sessions t; session_events := l; command_outcomes := command_outcomes t;
     session_creation_journal := session_creation_journal t; export_journal := export_journal t;
     deletion_journal := deletion_journal t; deletion_tombstones := deletion_tombstones t |}.

Definition with_outcomes (t : Tables) (l : list OutcomeRow) : Tables :=
  {| sessions := sessions t; session_events := session_events t; command_outcomes := l;
     session_creation_journal := session_creation_journal t; export_journal := export_journal t;
     deletion_journal := deletion_journal t; deletion_tombstones := deletion_tombstones t |}.

Definition with_creations (t : Tables) (l : list CreationRow) : Tables :=
  {| sessions := sessions t; session_events := session_events t;
     command_outcomes := command_outcomes t; session_creation_journal := l;
     export_journal := export_journal t; deletion_journal := deletion_journal t;
     deletion_tombstones := deletion_tombstones t |}.

Definition with_exports (t : Tables) (l : list ExportRow) : Tables :=
  {| sessions := sessions t; session_events := session_events t;
     command_outcomes := command_outcomes t;
     session_creation_journal := session_creation_journal t; export_journal := l;
     deletion_journal := deletion_journal t; deletion_tombstones := deletion_tombstones t |}.

Definition with_deletions (t : Tables) (l : list DeletionRow) : Tables :=
  {| sessions := sessions t; session_events := session_events t;
     command_outcomes := command_outcomes t;
     session_creation_journal := session_creation_journal t; export_journal := export_journal t;
     deletion_journal := l; deletion_tombstones := deletion_tombstones t |}.

Definition with_tombstones (t : Tables) (l : list TombstoneRow) : Tables :=
  {| sessions := sessions t; session_events := session_events t;
     command_outcomes := command_outcomes t;
     session_creation_journal := session_creation_journal t; export_journal := export_journal t;
     deletion_journal := deletion_journal t; deletion_tombstones := l |}.

(** ** Selections *)

(** [SELECT ... WHERE p LIMIT 1] *)
Definition first_where {A} (p : A → bool) (l : list A) : option A :=
  head (List.filter p l).

Definition text_eq (a b : string) : bool := bool_decide (a = b).

Definition session_row (t : Tables) (sid : string) : option SessionRow :=
  first_where (λ r, text_eq (s_session_id r) sid) (sessions t).

Definition events_of (t : Tables) (sid : string) : list EventRow :=
  List.filter (λ r, text_eq (e_session_id r) sid) (session_events t).

Definition outcome_row (t : Tables) (scope request : string) : option OutcomeRow :=
  first_where (λ r, text_eq (o_scope r) scope && text_eq (o_request_id r) request)
    (command_outcomes t).

Definition creation_by_session (t : Tables) (sid : string) : option CreationRow :=
  first_where (λ r, text_eq (c_session_id r) sid) (session_creation_journal t).

Definition creation_by_request (t : Tables) (request : string) : option CreationRow :=
  first_where (λ r, text_eq (c_request_id r) request) (session_creation_journal t).

Definition deletion_row (t : Tables) (sid : string) : option DeletionRow :=
  first_where (λ r, text_eq (d_session_id r) sid) (deletion_journal t).

Definition tombstone_row (t : Tables) (sid : string) : option TombstoneRow :=
  first_where (λ r, text_eq (t_session_id r) sid) (deletion_tombstones t).

Definition export_row (t : Tables) (export_id : string) : option ExportRow :=
  first_where (λ r, text_eq (x_export_id r) export_id) (export_journal t).

(** [COALESCE(MAX(sequence), 0)] *)
Definition max_sequence (t : Tables) (sid : string) : Z :=
  foldr Z.max 0%Z (e_sequence <$> events_of t sid).

(** [ORDER BY]: texts are compared byte by byte. *)
Definition text_le (a b : string) : Prop := ¬ str_lt b a.

#[export] Instance text_le_dec : RelDecision text_le.
Proof. unfold text_le. intros a b. apply _. Defined.

#[export] Instance text_le_total : Total text_le.
Proof.
  intros a b. unfold text_le, str_lt. pose proof (String.compare_antisym a b) as Hc.
  destruct (String.compare b a); simpl in Hc; [left; done|right; by rewrite Hc|left; done].
Qed.

Definition by_text {A} (key : A → string) (a b : A) : Prop := text_le (key a) (key b).
Definition by_text_desc {A} (key : A → string) (a b : A) : Prop := text_le (key b) (key a).
Definition by_sequence (a b : EventRow) : Prop := (e_sequence a ≤ e_sequence b)%Z.

#[export] Instance by_text_dec {A} (key : A → string) : RelDecision (by_text key).
Proof. unfold by_text. intros a b. apply _. Defined.
#[export] Instance by_text_desc_dec {A} (key : A → string) : RelDecision (by_text_desc key).
Proof. unfold by_text_desc. intros a b. apply _. Defined.
#[export] Instance by_sequence_dec : RelDecision by_sequence.
Proof. unfold by_sequence. intros a b. apply _. Defined.

(** ** Insertions *)

Definition i64_max : Z := 9223372036854775807.

Definition insert_session (row : SessionRow) (t : Tables) : option Tables :=
  if existsb (λ r, text_eq (s_session_id r) (s_session_id row)
                   || text_eq (s_key_id r) (s_key_id row)) (sessions t)
  then None
  else Some (with_sessions t (sessions t ++ [row])).

(** The kinds an attempt has at most once, and at most one of. *)
Definition unique_fact_kinds : list string :=
  ["dispatch_planned"; "dispatch_started"; "dispatch_acknowledged"; "outcome_unknown";
   "outcome_reconciled"].

Definition TERMINAL_KINDS : list string :=
  ["session_completed"; "session_failed"; "session_cancelled"; "session_abandoned"].

Definition text_in (a : string) (l : list string) : bool := bool_decide (a ∈ l).

Definition is_some_text (o : option string) : bool :=
  match o with Some _ => true | None => false end.

(** The row conflicts with another on the session's sequence, or on a unique index
    over the facts of an attempt. *)
Definition event_conflict (row r : EventRow) : bool :=
  text_eq (e_event_id r) (e_event_id row)
  || (text_eq (e_session_id r) (e_session_id row)
      && ((e_sequence r =? e_sequence row)%Z
          || (is_some_text (e_attempt_id row) && bool_decide (e_attempt_id r = e_attempt_id row)
              && ((text_eq (e_kind r) (e_kind row) && text_in (e_kind row) unique_fact_kinds)
                  || (text_in (e_kind r) TERMINAL_KINDS && text_in (e_kind row) TERMINAL_KINDS))))).

Definition insert_event_row (row : EventRow) (t : Tables) : option Tables :=
  match session_row t (e_session_id row) with
  | None => None
  | Some _ =>
      if (0 <? e_sequence row)%Z && (len (ep_nonce (e_payload row)) =? NONCE_BYTES)%N
         && negb (existsb (event_conflict row) (session_events t))
      then Some (with_events t (session_events t ++ [row]))
      else None
  end.

Definition insert_outcome (row : OutcomeRow) (t : Tables) : option Tables :=
  match outcome_row t (o_scope row) (o_request_id row) with
  | Some _ => None
  | None => Some (with_outcomes t (command_outcomes t ++ [row]))
  end.

Definition insert_creation (row : CreationRow) (t : Tables) : option Tables :=
  if existsb (λ r, text_eq (c_session_id r) (c_session_id row)
                   || text_eq (c_request_id r) (c_request_id row)
                   || text_eq (c_key_id r) (c_key_id row)) (session_creation_journal t)
     || negb (text_in (c_state row) ["prepared"; "key_created"])
  then None
  else Some (with_creations t (session_creation_journal t ++ [row])).

(** The check on the state and the fingerprint of an export. *)
Definition export_check (row : ExportRow) : bool :=
  match x_fingerprint row with
  | None => text_eq (x_state row) "prepared"
  | Some fp => text_in (x_state row) ["staged"; "published"] && (0 <=? fp_size fp)%Z
  end && (len (ep_nonce (x_payload row)) =? NONCE_BYTES)%N.

Definition insert_export (row : ExportRow) (t : Tables) : option Tables :=
  match session_row t (x_session_id row) with
  | None => None
  | Some _ =>
      if existsb (λ r, text_eq (x_export_id r) (x_export_id row)
                       || (text_eq (x_session_id r) (x_session_id row)
                           && text_eq (x_request_id r) (x_request_id row))) (export_journal t)
         || negb (export_check row)
      then None
      else Some (with_exports t (export_journal t ++ [row]))
  end.

Definition insert_deletion (row : DeletionRow) (t : Tables) : option Tables :=
  if existsb (λ r, text_eq (d_session_id r) (d_session_id row)
                   || text_eq (d_deletion_id r) (d_deletion_id row)
                   || text_eq (d_request_id r) (d_request_id row)) (deletion_journal t)
  then None
  else Some (with_deletions t (deletion_journal t ++ [row])).

(** [INSERT OR REPLACE]: conflicting rows give way. *)
Definition replace_tombstone (row : TombstoneRow) (t : Tables) : option Tables :=
  Some (with_tombstones t
    (List.filter (λ r, negb (text_eq (t_session_id r) (t_session_id row)
                             || text_eq (t_deletion_id r) (t_deletion_id row)))
       (deletion_tombstones t) ++ [row])).

(** ** Updates and deletions *)

Definition count {A} (p : A → bool) (l : list A) : N := N.of_nat (length (List.filter p l)).

(** [UPDATE sessions SET f WHERE session_id = sid] *)
Definition update_session (sid : string) (f : SessionRow → SessionRow) (t : Tables)
    : Tables * N :=
  let p r := text_eq (s_session_id r) sid in
  (with_sessions t (List.map (λ r, if p r then f r else r) (sessions t)), count p (sessions t)).

Definition set_state (state : string) (terminal_at : option string) (r : SessionRow)
    : SessionRow :=
  {| s_session_id := s_session_id r; s_key_id := s_key_id r; s_state := state;
     s_created_at := s_created_at r; s_terminal_at := terminal_at;
     s_configuration := s_configuration r; s_lock := s_lock r;
     s_spend_usd_micros := s_spend_usd_micros r |}.

Definition set_spend (spend : Z) (r : SessionRow) : SessionRow :=
  {| s_session_id := s_session_id r; s_key_id := s_key_id r; s_state := s_state r;
     s_created_at := s_created_at r; s_terminal_at := s_terminal_at r;
     s_configuration := s_configuration r; s_lock := s_lock r; s_spend_usd_micros := spend |}.

(** [DELETE FROM sessions]: the events go with their session, and a pending export
    of the session refuses the deletion. *)
Definition delete_session (sid : string) (t : Tables) : option Tables :=
  if existsb (λ r, text_eq (x_session_id r) sid) (export_journal t)
     && existsb (λ r, text_eq (s_session_id r) sid) (sessions t)
  then None
  else Some (with_events
    (with_sessions t (List.filter (λ r, negb (text_eq (s_session_id r) sid)) (sessions t)))
    (List.filter (λ r, negb (text_eq (e_session_id r) sid)) (session_events t))).

Definition delete_outcomes (sid : string) (t : Tables) : Tables :=
  with_outcomes t
    (List.filter (λ r, negb (bool_decide (o_session_id r = Some sid))) (command_outcomes t)).

Definition delete_creation (p : CreationRow → bool) (t : Tables) : Tables * N :=
  (with_creations t (List.filter (λ r, negb (p r)) (session_creation_journal t)),
   count p (session_creation_journal t)).

Definition update_creation (p : CreationRow → bool) (f : CreationRow → CreationRow) (t : Tables)
    : Tables * N :=
  (with_creations t (List.map (λ r, if p r then f r else r) (session_creation_journal t)),
   count p (session_creation_journal t)).

Definition delete_deletion (sid : string) (t : Tables) : Tables :=
  with_deletions t (List.filter (λ r, negb (text_eq (d_session_id r) sid)) (deletion_journal t)).

Definition delete_export (export_id : string) (t : Tables) : Tables * N :=
  let p r := text_eq (x_export_id r) export_id in
  (with_exports t (List.filter (λ r, negb (p r)) (export_journal t)), count p (export_journal t)).

(** [UPDATE export_journal]: refused when the check fails. *)
Definition update_export (export_id : string) (f : ExportRow → ExportRow) (t : Tables)
    : option (Tables * N) :=
  let p r := text_eq (x_export_id r) export_id in
  let rows := List.map (λ r, if p r then f r else r) (export_journal t) in
  if forallb export_check rows
  then Some (with_exports t rows, count p (export_journal t))
  else None.
