(* ===== verification/StorageDb.v ===== *)
(** * StorageDb: the encrypted SQLite storage (workbench-storage/src/sqlite.rs)

    [SqliteStorage] is the database connection and the key manager; every method of
    the source is a definition here, over the statements of [StorageTables]. Any
    statement may fail: the connection carries, for its next statements, whether
    the database refuses them. A crash is the case in which everything after some
    statement fails, so what holds for every list of failures holds for a crash at
    any point. A transaction keeps its changes when it reaches its commit and the
    commit succeeds, and restores the tables otherwise. *)

From stdpp Require Import sorting.
From S2P Require Import Prelude StateResult Text BTree Errors Json Wire Event.
From S2P Require Import StorageKeys StorageTables.

(** ** Data *)

Record EventInput : Type := {
  ei_event_id : Uuid;
  ei_session_id : Uuid;
  ei_occurred_at : OffsetDateTime;
  ei_kind : string;
  ei_causation_request_id : option Uuid;
  ei_attempt_id : option Uuid;
  ei_effect_class : option string;
  ei_payload : Value;
}.

(** [PersistedEvent] of the storage crate. *)
Record StoredEvent : Type := {
  se_event_id : Uuid;
  se_session_id : Uuid;
  se_sequence : N;
  se_occurred_at : OffsetDateTime;
  se_kind : string;
  se_causation_request_id : option Uuid;
  se_attempt_id : option Uuid;
  se_effect_class : option string;
  se_payload : Value;
}.

Record CreateSession : Type := {
  cs_session_id : Uuid;
  cs_request_id : Uuid;
  cs_occurred_at : OffsetDateTime;
  cs_request_parameters : Value;
  cs_command_outcome : Value;
  cs_configuration_snapshot : Value;
  cs_lock_snapshot : Value;
  cs_initial_event_payload : Value;
}.

Record StoredSession : Type := {
  ss_session_id : Uuid;
  ss_state : string;
  ss_terminal_at : option OffsetDateTime;
  ss_configuration_snapshot : Value;
  ss_lock_snapshot : Value;
}.

Record StoredSessionMetadata : Type := {
  sm_session_id : Uuid;
  sm_state : string;
  sm_created_at : OffsetDateTime;
  sm_terminal_at : option OffsetDateTime;
}.

Record SessionMetadataPage : Type := {
  sp_sessions : list StoredSessionMetadata;
  sp_next_before_session_id : option Uuid;
}.

Inductive CommandOutcome : Type :=
| CMD_Recorded (value : Value)
| CMD_Replay (value : Value).

Inductive CommandEventOutcome : Type :=
| CEO_Recorded (event : StoredEvent) (outcome : Value)
| CEO_Replay (outcome : Value).

Inductive CommandEventsOutcome : Type :=
| CES_Recorded (events : list StoredEvent) (outcome : Value)
| CES_Replay (outcome : Value).

Record RecoveredAttempt : Type := {
  ra_session_id : Uuid;
  ra_attempt_id : Uuid;
  ra_event_id : Uuid;
}.

Record DeletionSummary : Type := {
  ds_session_id : Uuid;
  ds_deletion_id : Uuid;
  ds_key_destroyed : bool;
}.

Record StoredCommandRecord : Type := {
  cr_method : string;
  cr_parameter_hash : string;
  cr_outcome : string;
}.

#[export] Instance StoredCommandRecord_eq_dec : EqDecision StoredCommandRecord.
Proof. solve_decision. Defined.

Inductive StoredCommandCommit : Type :=
| SCC_Applied (event : StoredEvent)
| SCC_Replayed (record : StoredCommandRecord).

Record SessionCreationJournal : Type := {
  cj_session_id : Uuid;
  cj_request_id : Uuid;
  cj_parameter_hash : string;
  cj_key_id : string;
  cj_state : string;
}.

Record SqliteStorage (K : Type) : Type := {
  connection : Tables;
  failures : list bool;
  keys : KeyManager K;
}.
Arguments connection {K}.
Arguments failures {K}.
Arguments keys {K}.

(** ** Pure helpers *)

(** [state_for_kind] *)
Definition state_for_kind (kind : string) : option string :=
  if text_in kind ["dispatch_started"; "session_resumed"] then Some "running"
  else if text_eq kind "clarification_requested" then Some "awaiting_clarification"
  else if text_eq kind "approval_requested" then Some "awaiting_approval"
  else if text_eq kind "session_paused" then Some "paused"
  else if text_eq kind "cancel_requested" then Some "cancel_requested"
  else if text_eq kind "outcome_unknown" then Some "outcome_unknown"
  else if text_eq kind "session_completed" then Some "completed"
  else if text_eq kind "session_failed" then Some "failed"
  else if text_eq kind "session_cancelled" then Some "cancelled"
  else if text_eq kind "session_abandoned" then Some "abandoned"
  else None.

(** [ORDER BY session_id, attempt_id] *)
Definition pair_le (a b : string * string) : Prop :=
  str_lt a.1 b.1 ∨ (a.1 = b.1 ∧ text_le a.2 b.2).

#[export] Instance pair_le_dec : RelDecision pair_le.
Proof. unfold pair_le. intros a b. apply _. Defined.

(** Nanoseconds; the least instant the type represents is the start of year -9999. *)
Definition DAY : Z := 86400 * 1000000000.
Definition least_instant : Z := -377705116800 * 1000000000.

Definition sub_days (now : OffsetDateTime) (days : N) : option OffsetDateTime :=
  let instant := (now - Z.of_N days * DAY)%Z in
  if (least_instant <=? instant)%Z then Some instant else None.

Section storage.
Context `{StorageEnv} {K : Type} `{KeyStore K}.

Definition SM : Type → Type := ST (SqliteStorage K) StorageError.

Definition parse_uuid (s : string) : Result Uuid StorageError :=
  ok_or (uuid_parse s) SE_StorageUnavailable.

Definition parse_time (s : string) : Result OffsetDateTime StorageError :=
  ok_or (time_parse s) SE_StorageUnavailable.

(** [serde_json::from_str] to a [Value] *)
Definition read_value (s : string) : Result Value StorageError :=
  ok_or (canonical <$> json_parse s) SE_StorageUnavailable.

(** [transpose] of an optional parse *)
Definition parse_option {A} (f : string → Result A StorageError) (o : option string)
    : Result (option A) StorageError :=
  match o with None => Ok None | Some s => result_map Some (f s) end.

(** [canonicalize] rebuilds every object from its sorted keys. *)
Definition canonicalize (v : Value) : Value := canonical v.

Definition canonical_hash (v : Value) : string := blake3_hex (json_print (canonicalize v)).

Definition command_scope (session_id : option Uuid) : string :=
  match session_id with None => "daemon" | Some id => "session/" +:+ uuid_text id end.

Definition validate_port_command (record : StoredCommandRecord) : Result unit StorageError :=
  let valid_hash :=
    (len (cr_parameter_hash record) =? 64)%N
    && all_bytes (λ b, is_ascii_digit b || is_lower_hex_letter b) (cr_parameter_hash record) in
  reject_if
    (is_empty (cr_method record) || (128 <? len (cr_method record))%N || negb valid_hash
     || (65536 <? len (cr_outcome record))%N)
    (SE_InvalidInput "recorded command is outside durable limits").

(** ** Statements and transactions *)

(** One statement: refused when its failure is next. *)
Definition statement : SM unit :=
  λ s, match failures s with
       | [] => (s, Ok tt)
       | failed :: rest =>
           ({| connection := connection s; failures := rest; keys := keys s |},
            if failed then Err SE_StorageUnavailable else Ok tt)
       end.

Definition set_tables (s : SqliteStorage K) (t : Tables) : SqliteStorage K :=
  {| connection := t; failures := failures s; keys := keys s |}.

Definition query {A} (f : Tables → A) : SM A :=
  let! _ := statement in st_gets (λ s, Ok (f (connection s))).

(** A statement that may violate a constraint. *)
Definition execute (f : Tables → option Tables) : SM unit :=
  let! _ := statement in
  λ s, match f (connection s) with
       | None => (s, Err SE_StorageUnavailable)
       | Some t => (set_tables s t, Ok tt)
       end.

(** A statement that reports the rows it changed. *)
Definition execute_count (f : Tables → option (Tables * N)) : SM N :=
  let! _ := statement in
  λ s, match f (connection s) with
       | None => (s, Err SE_StorageUnavailable)
       | Some (t, n) => (set_tables s t, Ok n)
       end.

(** The body says whether it reached its commit. *)
Definition transaction {A} (body : SM (bool * A)) : SM A :=
  let! _ := statement in
  λ s,
    match body s with
    | (s', Ok (true, a)) =>
        match statement s' with
        | (s', Ok _) => (s', Ok a)
        | (s', Err e) => (set_tables s' (connection s), Err e)
        end
    | (s', Ok (false, a)) => (set_tables s' (connection s), Ok a)
    | (s', Err e) => (set_tables s' (connection s), Err e)
    end.

Definition with_keys {A} (m : KM A) : SM A :=
  λ s, let '(k, r) := m (keys s) in
       ({| connection := connection s; failures := failures s; keys := k |}, r).

Definition fresh_uuid : SM Uuid :=
  with_keys (λ m, (with_draws m (km_draws m + 1), Ok (now_v7 (km_draws m)))).

(** ** Encryption of rows *)

Definition row_aad (session_id : Uuid) (object_id : string) (sequence : N) (kind : string)
    : AssociatedData :=
  {| ad_schema_version := 1; ad_session_id := session_id; ad_object_id := object_id;
     ad_sequence := sequence; ad_kind := kind |}.

Definition encrypt_json (key : SecretKey) (session_id : Uuid) (object_id : string) (sequence : N)
    (kind : string) (value : Value) : SM EncryptedPayload :=
  let! nonce := with_keys (draw NONCE_BYTES) in
  st_lift (encrypt nonce key (json_print value) (row_aad session_id object_id sequence kind)).

Definition decrypt_session_json (key : SecretKey) (session_id : Uuid) (object_id kind : string)
    (payload : EncryptedPayload) : Result Value StorageError :=
  let? plaintext := decrypt payload key (row_aad session_id object_id 0 kind) in
  read_value plaintext.

(** [read_sequence] and [decrypt_event] *)
Definition decrypt_event (key : SecretKey) (session_id : Uuid) (row : EventRow)
    : Result StoredEvent StorageError :=
  let? sequence := if (0 <=? e_sequence row)%Z then Ok (Z.to_N (e_sequence row))
                   else Err SE_StorageUnavailable in
  let? plaintext := decrypt (e_payload row) key
    (row_aad session_id (e_event_id row) sequence (e_kind row)) in
  let? event_id := parse_uuid (e_event_id row) in
  let? occurred_at := parse_time (e_occurred_at row) in
  let? causation := parse_option parse_uuid (e_causation_request_id row) in
  let? attempt_id := parse_option parse_uuid (e_attempt_id row) in
  let? payload := read_value plaintext in
  Ok {| se_event_id := event_id; se_session_id := session_id; se_sequence := sequence;
        se_occurred_at := occurred_at; se_kind := e_kind row;
        se_causation_request_id := causation; se_attempt_id := attempt_id;
        se_effect_class := e_effect_class row; se_payload := payload |}.

(** ** Appending inside a transaction *)

(** The addition of SQLite turns into a real beyond 64 bits, which is no sequence. *)
Definition next_sequence (session_id : Uuid) : SM N :=
  let! max := query (λ t, max_sequence t (uuid_text session_id)) in
  if (max <? i64_max)%Z then st_ret (Z.to_N (max + 1)) else st_err SE_StorageUnavailable.

Definition event_row (input : EventInput) (sequence : N) (key_id : string)
    (encrypted : EncryptedPayload) : EventRow :=
  {| e_event_id := uuid_text (ei_event_id input);
     e_session_id := uuid_text (ei_session_id input);
     e_sequence := Z.of_N sequence;
     e_occurred_at := time_text (ei_occurred_at input);
     e_kind := ei_kind input;
     e_causation_request_id := uuid_text <$> ei_causation_request_id input;
     e_attempt_id := uuid_text <$> ei_attempt_id input;
     e_effect_class := ei_effect_class input;
     e_key_id := key_id;
     e_payload := encrypted |}.

Definition insert_event (input : EventInput) (sequence : N) (key_id : string)
    (encrypted : EncryptedPayload) : SM unit :=
  if (Z.of_N sequence <=? i64_max)%Z
  then execute (insert_event_row (event_row input sequence key_id encrypted))
  else st_err SE_StorageUnavailable.

(** The state a redirect leaves. *)
Definition redirected_state (state : string) : string :=
  if text_eq state "awaiting_clarification" then "ready" else state.

(** The update of the session row that comes with an event. *)
Definition apply_event_state (input : EventInput) (r : SessionRow) : SessionRow :=
  if text_eq (ei_kind input) "session_redirected"
  then set_state (redirected_state (s_state r)) (s_terminal_at r) r
  else match state_for_kind (ei_kind input) with
       | Some state =>
           set_state state
             (match s_terminal_at r with
              | Some at_time => Some at_time
              | None => if text_in (ei_kind input) TERMINAL_KINDS
                        then Some (time_text (ei_occurred_at input)) else None
              end) r
       | None => r
       end.

Definition touches_state (kind : string) : bool :=
  text_eq kind "session_redirected"
  || match state_for_kind kind with Some _ => true | None => false end.

Definition append_event_in_transaction (input : EventInput) (key_id : string) (key : SecretKey)
    : SM StoredEvent :=
  let! sequence := next_sequence (ei_session_id input) in
  let! encrypted := encrypt_json key (ei_session_id input) (uuid_text (ei_event_id input))
    sequence (ei_kind input) (ei_payload input) in
  let! _ := insert_event input sequence key_id encrypted in
  let! _ := if touches_state (ei_kind input)
            then execute (λ t, Some (update_session (uuid_text (ei_session_id input))
                                       (apply_event_state input) t).1)
            else st_ret tt in
  st_ret {| se_event_id := ei_event_id input; se_session_id := ei_session_id input;
            se_sequence := sequence; se_occurred_at := ei_occurred_at input;
            se_kind := ei_kind input; se_causation_request_id := ei_causation_request_id input;
            se_attempt_id := ei_attempt_id input; se_effect_class := ei_effect_class input;
            se_payload := ei_payload input |}.

(** ** Commands *)

Definition command_of_row (r : OutcomeRow) : StoredCommandRecord :=
  {| cr_method := o_method r; cr_parameter_hash := o_parameter_hash r;
     cr_outcome := o_outcome_json r |}.

Definition lookup_stored_command (scope : string) (request_id : Uuid)
    : SM (option StoredCommandRecord) :=
  query (λ t, command_of_row <$> outcome_row t scope (uuid_text request_id)).

Definition outcome_of (session_id : option Uuid) (request_id : Uuid)
    (record : StoredCommandRecord) : OutcomeRow :=
  {| o_scope := command_scope session_id; o_request_id := uuid_text request_id;
     o_session_id := uuid_text <$> session_id; o_method := cr_method record;
     o_parameter_hash := cr_parameter_hash record; o_outcome_json := cr_outcome record |}.

Definition insert_port_command (session_id : option Uuid) (request_id : Uuid)
    (record : StoredCommandRecord) : SM unit :=
  execute (insert_outcome (outcome_of session_id request_id record)).

(** [lookup_port_command]: the recorded outcome, or the one a tombstone retains. *)
Definition lookup_port_command (session_id : option Uuid) (request_id : Uuid)
    : SM (option StoredCommandRecord) :=
  let! primary := lookup_stored_command (command_scope session_id) request_id in
  match primary with
  | Some record => st_ret (Some record)
  | None =>
      match session_id with
      | None =>
          query (λ t,
            match first_where (λ r, match t_creation r with
                                    | Some (request, _, _, _) => text_eq request (uuid_text request_id)
                                    | None => false
                                    end) (deletion_tombstones t) with
            | Some r =>
                match t_creation r with
                | Some (_, method, hash, outcome) =>
                    Some {| cr_method := method; cr_parameter_hash := hash; cr_outcome := outcome |}
                | None => None
                end
            | None => None
            end)
      | Some session_id =>
          query (λ t,
            match first_where (λ r, text_eq (t_session_id r) (uuid_text session_id)
                                    && text_eq (t_deletion_request_id r) (uuid_text request_id))
                    (deletion_tombstones t) with
            | Some r => Some {| cr_method := t_deletion_method r;
                                cr_parameter_hash := t_deletion_parameter_hash r;
                                cr_outcome := t_deletion_outcome_json r |}
            | None => None
            end)
      end
  end.

Definition same_command (a b : StoredCommandRecord) : bool :=
  text_eq (cr_method a) (cr_method b) && text_eq (cr_parameter_hash a) (cr_parameter_hash b).

Definition invalid_command_scope (session_id : option Uuid) (method : string) : bool :=
  match session_id with
  | None => negb (text_eq method "session.create")
  | Some _ => text_eq method "session.create"
  end.

Definition record_port_command (session_id : option Uuid) (request_id : Uuid)
    (record : StoredCommandRecord) : SM unit :=
  let! _ := st_lift (validate_port_command record) in
  if invalid_command_scope session_id (cr_method record)
  then st_err (SE_InvalidInput "command outcome scope is invalid")
  else
    let! existing := lookup_port_command session_id request_id in
    match existing with
    | Some existing =>
        if same_command existing record then st_ret tt else st_err SE_RequestConflict
    | None =>
        let! _ := match session_id with
                  | None => st_ret tt
                  | Some sid =>
                      let! row := query (λ t, session_row t (uuid_text sid)) in
                      match row with Some _ => st_ret tt | None => st_err SE_SessionNotFound end
                  end in
        insert_port_command session_id request_id record
    end.

Definition record_command_outcome (scope : string) (request_id : Uuid) (session_id : option Uuid)
    (method : string) (parameters outcome : Value) : SM CommandOutcome :=
  if negb (text_eq scope (command_scope session_id)) || invalid_command_scope session_id method
  then st_err (SE_InvalidInput "command outcome scope is invalid")
  else
    let parameter_hash := canonical_hash parameters in
    transaction (
      let! existing := lookup_stored_command scope request_id in
      match existing with
      | Some record =>
          let! recorded := st_lift (read_value (cr_outcome record)) in
          if text_eq (cr_method record) method && text_eq (cr_parameter_hash record) parameter_hash
          then st_ret (false, CMD_Replay recorded)
          else st_err SE_RequestConflict
      | None =>
          let! _ := insert_port_command session_id request_id
            {| cr_method := method; cr_parameter_hash := parameter_hash;
               cr_outcome := json_print outcome |} in
          st_ret (true, CMD_Recorded outcome)
      end).

Definition lookup_command_outcome (session_id : option Uuid) (request_id : Uuid)
    (method : string) (parameters : Value) : SM (option Value) :=
  if invalid_command_scope session_id method || is_empty method || (128 <? len method)%N
  then st_err (SE_InvalidInput "command outcome scope is invalid")
  else
    let parameter_hash := canonical_hash parameters in
    let! existing := lookup_port_command session_id request_id in
    match existing with
    | None => st_ret None
    | Some existing =>
        if negb (text_eq (cr_method existing) method)
           || negb (text_eq (cr_parameter_hash existing) parameter_hash)
        then st_err SE_RequestConflict
        else let! value := st_lift (read_value (cr_outcome existing)) in st_ret (Some value)
    end.

(** ** Session creation *)

(** [session_creation_journal_from_row] *)
Definition journal_from_row (r : CreationRow) : Result SessionCreationJournal StorageError :=
  let? session_id := parse_uuid (c_session_id r) in
  let? request_id := parse_uuid (c_request_id r) in
  Ok {| cj_session_id := session_id; cj_request_id := request_id;
        cj_parameter_hash := c_parameter_hash r; cj_key_id := c_key_id r; cj_state := c_state r |}.

Definition optional_journal (o : option CreationRow)
    : Result (option SessionCreationJournal) StorageError :=
  match o with None => Ok None | Some r => result_map Some (journal_from_row r) end.

Definition creation_journal_by_request (request_id : Uuid) : SM (option SessionCreationJournal) :=
  let! row := query (λ t, creation_by_request t (uuid_text request_id)) in
  st_lift (optional_journal row).

Definition creation_journal_by_session (session_id : Uuid) : SM (option SessionCreationJournal) :=
  let! row := query (λ t, creation_by_session t (uuid_text session_id)) in
  st_lift (optional_journal row).

(** The row a journal was read from. *)
Definition journal_matches (j : SessionCreationJournal) (r : CreationRow) : bool :=
  text_eq (c_session_id r) (uuid_text (cj_session_id j))
  && text_eq (c_request_id r) (uuid_text (cj_request_id j))
  && text_eq (c_parameter_hash r) (cj_parameter_hash j)
  && text_eq (c_key_id r) (cj_key_id j)
  && text_eq (c_state r) (cj_state j).

Definition reconcile_creation (journal : SessionCreationJournal) : SM unit :=
  let! owned := with_keys (st_gets (λ m,
    Ok (owns_session_key m (cj_session_id journal) (cj_key_id journal)))) in
  if negb owned || negb (text_in (cj_state journal) ["prepared"; "key_created"])
  then st_err SE_StorageUnavailable
  else
    let! committed := query (λ t, s_key_id <$> session_row t (uuid_text (cj_session_id journal))) in
    let! _ := match committed with
              | Some key_id =>
                  if text_eq key_id (cj_key_id journal) then st_ret tt
                  else st_err SE_StorageUnavailable
              | None => with_keys (destroy_session_key (cj_session_id journal))
              end in
    let! removed := execute_count (λ t, Some (delete_creation (journal_matches journal) t)) in
    if (removed =? 1)%N then st_ret tt else st_err SE_StorageUnavailable.

Definition reconcile_creation_by_request (request_id : Uuid) : SM unit :=
  let! journal := creation_journal_by_request request_id in
  match journal with Some journal => reconcile_creation journal | None => st_ret tt end.

Definition reconcile_create_retry (session_id request_id : Uuid) (parameter_hash : string)
    : SM unit :=
  let! by_request := creation_journal_by_request request_id in
  let! _ := match by_request with
            | Some journal =>
                if text_eq (cj_parameter_hash journal) parameter_hash
                then reconcile_creation journal else st_err SE_RequestConflict
            | None => st_ret tt
            end in
  let! by_session := creation_journal_by_session session_id in
  match by_session with
  | Some journal =>
      if bool_decide (cj_request_id journal ≠ request_id)
         || negb (text_eq (cj_parameter_hash journal) parameter_hash)
      then st_err SE_RequestConflict else reconcile_creation journal
  | None => st_ret tt
  end.

(** [resume_session_creations]: all journals are read before any is reconciled. *)
Definition resume_session_creations : SM N :=
  let! rows := query (λ t, merge_sort (by_text c_session_id) (session_creation_journal t)) in
  let! journals := st_lift (try_collect journal_from_row rows) in
  let! _ := st_for reconcile_creation journals in
  st_ret (N.of_nat (length journals)).

Definition mark_creation_key_created (input : CreateSession) (parameter_hash key_id : string)
    : SM unit :=
  let! changed := execute_count (λ t, Some (update_creation
    (λ r, text_eq (c_session_id r) (uuid_text (cs_session_id input))
          && text_eq (c_request_id r) (uuid_text (cs_request_id input))
          && text_eq (c_parameter_hash r) parameter_hash
          && text_eq (c_key_id r) key_id && text_eq (c_state r) "prepared")
    (λ r, {| c_session_id := c_session_id r; c_request_id := c_request_id r;
             c_parameter_hash := c_parameter_hash r; c_key_id := c_key_id r;
             c_state := "key_created" |}) t)) in
  if (changed =? 1)%N then st_ret tt else st_err SE_StorageUnavailable.

(** The transaction that makes the session visible. *)
Definition commit_created_session (input : CreateSession) (parameter_hash key_id : string)
    (event_id : Uuid) (configuration lock event : EncryptedPayload) : SM CommandOutcome :=
  transaction (
    let! _ := execute (insert_session
      {| s_session_id := uuid_text (cs_session_id input); s_key_id := key_id; s_state := "ready";
         s_created_at := time_text (cs_occurred_at input); s_terminal_at := None;
         s_configuration := configuration; s_lock := lock; s_spend_usd_micros := 0 |}) in
    let! _ := insert_event
      {| ei_event_id := event_id; ei_session_id := cs_session_id input;
         ei_occurred_at := cs_occurred_at input; ei_kind := "session_created";
         ei_causation_request_id := Some (cs_request_id input); ei_attempt_id := None;
         ei_effect_class := None; ei_payload := VNull |} 1 key_id event in
    let! _ := execute (insert_outcome
      {| o_scope := "daemon"; o_request_id := uuid_text (cs_request_id input);
         o_session_id := Some (uuid_text (cs_session_id input)); o_method := "session.create";
         o_parameter_hash := parameter_hash;
         o_outcome_json := json_print (cs_command_outcome input) |}) in
    let! removed := execute_count (λ t, Some (delete_creation
      (λ r, text_eq (c_session_id r) (uuid_text (cs_session_id input))
            && text_eq (c_request_id r) (uuid_text (cs_request_id input))
            && text_eq (c_key_id r) key_id && text_eq (c_state r) "key_created") t)) in
    if (removed =? 1)%N then st_ret (true, CMD_Recorded (cs_command_outcome input))
    else st_err SE_StorageUnavailable).

Definition finish_create_session (input : CreateSession) (parameter_hash journal_key_id : string)
    : SM CommandOutcome :=
  let! key_id := with_keys (create_session_key (cs_session_id input)) in
  if negb (text_eq key_id journal_key_id) then st_err SE_StorageUnavailable
  else
    let! _ := mark_creation_key_created input parameter_hash key_id in
    let! key := with_keys (session_key (cs_session_id input)) in
    let! configuration := encrypt_json key (cs_session_id input) "configuration" 0
      "configuration_snapshot" (cs_configuration_snapshot input) in
    let! lock := encrypt_json key (cs_session_id input) "lock" 0 "session_lock"
      (cs_lock_snapshot input) in
    let! event_id := fresh_uuid in
    let! event := encrypt_json key (cs_session_id input) (uuid_text event_id) 1
      "session_created" (cs_initial_event_payload input) in
    commit_created_session input parameter_hash key_id event_id configuration lock event.

Definition create_session (input : CreateSession) : SM CommandOutcome :=
  let parameter_hash := canonical_hash (cs_request_parameters input) in
  let! record := lookup_port_command None (cs_request_id input) in
  match record with
  | Some record =>
      if text_eq (cr_method record) "session.create"
         && text_eq (cr_parameter_hash record) parameter_hash
      then let! value := st_lift (read_value (cr_outcome record)) in st_ret (CMD_Replay value)
      else st_err SE_RequestConflict
  | None =>
      let! _ := reconcile_create_retry (cs_session_id input) (cs_request_id input) parameter_hash in
      let! key_id := with_keys (st_gets (λ m, Ok (session_key_id m (cs_session_id input)))) in
      let! _ := execute (insert_creation
        {| c_session_id := uuid_text (cs_session_id input);
           c_request_id := uuid_text (cs_request_id input);
           c_parameter_hash := parameter_hash; c_key_id := key_id; c_state := "prepared" |}) in
      let! result := st_try (finish_create_session input parameter_hash key_id) in
      match result with
      | Ok outcome => st_ret outcome
      | Err e =>
          let! _ := st_try (F := StorageError) (reconcile_creation_by_request (cs_request_id input)) in
          st_err e
      end
  end.

(** ** Reading sessions *)

(** [session_key_id] of the storage: the column, not the derived identifier. *)
Definition stored_key_id (session_id : Uuid) : SM string :=
  let! row := query (λ t, session_row t (uuid_text session_id)) in
  st_lift (ok_or (s_key_id <$> row) SE_SessionNotFound).

Definition load_session_spend_usd_micros (session_id : Uuid) : SM N :=
  let! row := query (λ t, session_row t (uuid_text session_id)) in
  match row with
  | None => st_err SE_SessionNotFound
  | Some row =>
      if (0 <=? s_spend_usd_micros row)%Z then st_ret (Z.to_N (s_spend_usd_micros row))
      else st_err (SE_InvalidInput "spend_usd_micros overflow")
  end.

Definition store_session_spend_usd_micros (session_id : Uuid) (spend : N) : SM unit :=
  if (Z.of_N spend <=? i64_max)%Z then
    let! updated := execute_count (λ t,
      Some (update_session (uuid_text session_id) (set_spend (Z.of_N spend)) t)) in
    if (updated =? 1)%N then st_ret tt else st_err SE_SessionNotFound
  else st_err (SE_InvalidInput "spend_usd_micros overflow").

Definition spend_of_row (r : SessionRow) : Result (Uuid * N) StorageError :=
  let? session_id := parse_uuid (s_session_id r) in
  if (0 <=? s_spend_usd_micros r)%Z then Ok (session_id, Z.to_N (s_spend_usd_micros r))
  else Err (SE_InvalidInput "spend_usd_micros overflow").

Definition load_all_session_spends : SM (list (Uuid * N)) :=
  let! rows := query (λ t, List.filter (λ r, (0 <? s_spend_usd_micros r)%Z) (sessions t)) in
  st_lift (try_collect spend_of_row rows).

Definition load_session (session_id : Uuid) : SM StoredSession :=
  let! row := query (λ t, session_row t (uuid_text session_id)) in
  match row with
  | None => st_err SE_SessionNotFound
  | Some row =>
      let! key := with_keys (session_key session_id) in
      let! configuration := st_lift (decrypt_session_json key session_id "configuration"
        "configuration_snapshot" (s_configuration row)) in
      let! lock := st_lift (decrypt_session_json key session_id "lock" "session_lock" (s_lock row)) in
      let! terminal_at := st_lift (parse_option parse_time (s_terminal_at row)) in
      st_ret {| ss_session_id := session_id; ss_state := s_state row;
                ss_terminal_at := terminal_at; ss_configuration_snapshot := configuration;
                ss_lock_snapshot := lock |}
  end.

Definition load_session_state (session_id : Uuid) : SM string :=
  let! row := query (λ t, session_row t (uuid_text session_id)) in
  st_lift (ok_or (s_state <$> row) SE_SessionNotFound).

Definition load_sessions : SM (list StoredSession) :=
  let! ids := query (λ t, merge_sort text_le (s_session_id <$> sessions t)) in
  st_map (λ id, let! session_id := st_lift (parse_uuid id) in load_session session_id) ids.

Definition metadata_of_row (r : SessionRow) : Result StoredSessionMetadata StorageError :=
  let? session_id := parse_uuid (s_session_id r) in
  let? created_at := parse_time (s_created_at r) in
  let? terminal_at := parse_option parse_time (s_terminal_at r) in
  Ok {| sm_session_id := session_id; sm_state := s_state r; sm_created_at := created_at;
        sm_terminal_at := terminal_at |}.

(** The page query: one row more than the limit. *)
Definition page_rows (before : option Uuid) (limit : nat) (t : Tables) : list SessionRow :=
  take limit (merge_sort (by_text_desc s_session_id)
    (List.filter (λ r, match before with
                       | None => true
                       | Some b => bool_decide (str_lt (s_session_id r) (uuid_text b))
                       end) (sessions t))).

Definition list_session_metadata (limit : N) (before : option Uuid) : SM SessionMetadataPage :=
  if negb ((1 <=? limit)%N && (limit <=? 100)%N)
  then st_err (SE_InvalidInput "session list limit must be between 1 and 100")
  else
    let n := N.to_nat limit in
    let! rows := query (page_rows before (S n)) in
    let! found := st_lift (try_collect metadata_of_row rows) in
    let page := take n found in
    st_ret {| sp_sessions := page;
              sp_next_before_session_id :=
                if (n <? length found)%nat then sm_session_id <$> last page else None |}.

(** ** Appending events *)

Definition append_event (input : EventInput) : SM StoredEvent :=
  let! key_id := stored_key_id (ei_session_id input) in
  let! key := with_keys (session_key (ei_session_id input)) in
  transaction (
    let! persisted := append_event_in_transaction input key_id key in
    st_ret (true, persisted)).

Definition append_events (events : list EventInput) : SM (list StoredEvent) :=
  match events with
  | [] => st_err (SE_InvalidInput "atomic append requires at least one event")
  | first :: _ =>
      if existsb (λ e, bool_decide (ei_session_id e ≠ ei_session_id first)) events
      then st_err (SE_InvalidInput "atomic append cannot cross sessions")
      else
        let! key_id := stored_key_id (ei_session_id first) in
        let! key := with_keys (session_key (ei_session_id first)) in
        transaction (
          let! persisted := st_map (λ e, append_event_in_transaction e key_id key) events in
          st_ret (true, persisted))
  end.

Definition commit_port_command (request_id : Uuid) (record : StoredCommandRecord)
    (input : EventInput) : SM StoredCommandCommit :=
  let! _ := st_lift (validate_port_command record) in
  if text_eq (cr_method record) "session.create"
     || bool_decide (ei_causation_request_id input ≠ Some request_id)
  then st_err (SE_InvalidInput "transactional command scope is invalid")
  else
    let! key_id := stored_key_id (ei_session_id input) in
    let! key := with_keys (session_key (ei_session_id input)) in
    let scope := command_scope (Some (ei_session_id input)) in
    transaction (
      let! existing := lookup_stored_command scope request_id in
      match existing with
      | Some existing =>
          if same_command existing record then st_ret (false, SCC_Replayed existing)
          else st_err SE_RequestConflict
      | None =>
          let! persisted := append_event_in_transaction input key_id key in
          let! _ := insert_port_command (Some (ei_session_id input)) request_id record in
          st_ret (true, SCC_Applied persisted)
      end).

Definition commit_command_events (request_id : Uuid) (method : string) (parameters outcome : Value)
    (events : list EventInput) : SM CommandEventsOutcome :=
  match events with
  | [] => st_err (SE_InvalidInput "transactional command requires at least one event")
  | first :: _ =>
      if text_eq method "session.create"
         || bool_decide (ei_causation_request_id first ≠ Some request_id)
         || existsb (λ e, bool_decide (ei_session_id e ≠ ei_session_id first)
                          || bool_decide (ei_causation_request_id e = None)) events
      then st_err (SE_InvalidInput "transactional command scope is invalid")
      else
        let record := {| cr_method := method; cr_parameter_hash := canonical_hash parameters;
                         cr_outcome := json_print outcome |} in
        let! _ := st_lift (validate_port_command record) in
        let! key_id := stored_key_id (ei_session_id first) in
        let! key := with_keys (session_key (ei_session_id first)) in
        let scope := command_scope (Some (ei_session_id first)) in
        transaction (
          let! existing := lookup_stored_command scope request_id in
          match existing with
          | Some existing =>
              if same_command existing record
              then let! value := st_lift (read_value (cr_outcome existing)) in
                   st_ret (false, CES_Replay value)
              else st_err SE_RequestConflict
          | None =>
              let! persisted := st_map (λ e, append_event_in_transaction e key_id key) events in
              let! _ := insert_port_command (Some (ei_session_id first)) request_id record in
              st_ret (true, CES_Recorded persisted outcome)
          end)
  end.

Definition commit_command_event (request_id : Uuid) (method : string) (parameters outcome : Value)
    (event : EventInput) : SM CommandEventOutcome :=
  let! committed := commit_command_events request_id method parameters outcome [event] in
  match committed with
  | CES_Recorded events outcome =>
      match last events with
      | Some event => st_ret (CEO_Recorded event outcome)
      | None => st_err SE_StorageUnavailable
      end
  | CES_Replay outcome => st_ret (CEO_Replay outcome)
  end.

Definition commit_export_command (export_id request_id : Uuid) (parameter_hash : string)
    (outcome : Value) (event : EventInput) : SM CommandEventOutcome :=
  if negb (text_eq (ei_kind event) "session_exported")
     || bool_decide (ei_causation_request_id event ≠ Some request_id)
  then st_err (SE_InvalidInput "export command event is invalid")
  else
    let record := {| cr_method := "session.export"; cr_parameter_hash := parameter_hash;
                     cr_outcome := json_print outcome |} in
    let! _ := st_lift (validate_port_command record) in
    let! key_id := stored_key_id (ei_session_id event) in
    let! key := with_keys (session_key (ei_session_id event)) in
    let scope := command_scope (Some (ei_session_id event)) in
    (* the recorded outcome is parsed after the commit *)
    let! committed := transaction (
      let! journal_state := query (λ t, x_state <$> first_where (λ r,
        text_eq (x_export_id r) (uuid_text export_id)
        && text_eq (x_session_id r) (uuid_text (ei_session_id event))
        && text_eq (x_request_id r) (uuid_text request_id)
        && text_eq (x_parameter_hash r) parameter_hash) (export_journal t)) in
      if bool_decide (journal_state ≠ Some "published") then st_err SE_StorageUnavailable
      else
        let! existing := lookup_stored_command scope request_id in
        match existing with
        | Some existing =>
            if negb (same_command existing record) then st_err SE_RequestConflict
            else
              let! _ := execute_count (λ t, Some (delete_export (uuid_text export_id) t)) in
              st_ret (true, inr (cr_outcome existing))
        | None =>
            let! persisted := append_event_in_transaction event key_id key in
            let! _ := insert_port_command (Some (ei_session_id event)) request_id record in
            let! deleted := execute_count (λ t, Some (delete_export (uuid_text export_id) t)) in
            if (deleted =? 1)%N then st_ret (true, inl persisted)
            else st_err SE_StorageUnavailable
        end) in
    match committed with
    | inl persisted => st_ret (CEO_Recorded persisted outcome)
    | inr recorded =>
        let! value := st_lift (read_value recorded) in st_ret (CEO_Replay value)
    end.

Definition replay (session_id : Uuid) (after_sequence : N) : SM (list StoredEvent) :=
  if negb (Z.of_N after_sequence <=? i64_max)%Z
  then st_err (SE_InvalidInput "cursor exceeds SQLite range")
  else
    let! key := with_keys (session_key session_id) in
    let! rows := query (λ t, merge_sort by_sequence
      (List.filter (λ r, (Z.of_N after_sequence <? e_sequence r)%Z)
         (events_of t (uuid_text session_id)))) in
    st_lift (try_collect (decrypt_event key session_id) rows).

(** ** Recovery *)

(** The kinds that settle an attempt. *)
Definition SETTLED_KINDS : list string :=
  ["session_completed"; "session_failed"; "session_cancelled"; "session_abandoned";
   "outcome_unknown"; "outcome_reconciled"].

(** [NOT EXISTS]: no fact settles the attempt of a started dispatch. *)
Definition unsettled (t : Tables) (started : EventRow) : bool :=
  text_eq (e_kind started) "dispatch_started"
  && is_some_text (e_attempt_id started)
  && negb (existsb (λ r, text_eq (e_session_id r) (e_session_id started)
                         && bool_decide (e_attempt_id r = e_attempt_id started)
                         && text_in (e_kind r) SETTLED_KINDS) (session_events t)).

Definition attempt_key (r : EventRow) : string * string :=
  (e_session_id r, default "" (e_attempt_id r)).

(** [SELECT DISTINCT ... ORDER BY session_id, attempt_id] *)
Definition uncertain_attempts (t : Tables) : list (string * string) :=
  merge_sort pair_le (remove_dups (attempt_key <$> List.filter (unsettled t) (session_events t))).

Definition uncertain_event (event_id session_id attempt_id : Uuid) (occurred_at : OffsetDateTime)
    : EventInput :=
  {| ei_event_id := event_id; ei_session_id := session_id; ei_occurred_at := occurred_at;
     ei_kind := "outcome_unknown"; ei_causation_request_id := None;
     ei_attempt_id := Some attempt_id; ei_effect_class := None;
     ei_payload := VObject [
       ("attempt_id", VString (uuid_text attempt_id));
       ("reason", VString "daemon_recovery");
       ("reconciliation_options",
        VArray [VString "retry"; VString "accept_result"; VString "abandon"])] |}.

(** One iteration of the loop. *)
Definition recover_attempt (occurred_at : OffsetDateTime) (attempt : string * string)
    : SM RecoveredAttempt :=
  let! session_id := st_lift (parse_uuid attempt.1) in
  let! attempt_id := st_lift (parse_uuid attempt.2) in
  let! event_id := fresh_uuid in
  let! _ := append_event (uncertain_event event_id session_id attempt_id occurred_at) in
  st_ret {| ra_session_id := session_id; ra_attempt_id := attempt_id; ra_event_id := event_id |}.

Definition recover_uncertain_attempts (occurred_at : OffsetDateTime) : SM (list RecoveredAttempt) :=
  let! attempts := query uncertain_attempts in
  st_map (recover_attempt occurred_at) attempts.

(** ** Deletion *)

Definition ensure_no_pending_export (session_id : Uuid) : SM unit :=
  let! pending := query (λ t, existsb (λ r, text_eq (x_session_id r) (uuid_text session_id))
                                (export_journal t)) in
  if (pending : bool) then st_err (SE_InvalidInput "session has a pending export") else st_ret tt.

Definition ensure_session_deletable (session_id : Uuid) : SM unit :=
  ensure_no_pending_export session_id.

Definition is_deleted (session_id : Uuid) : SM bool :=
  query (λ t, match tombstone_row t (uuid_text session_id) with Some _ => true | None => false end).

Definition deletion_parameters (session_id : Uuid) : Value :=
  VObject [("confirm_session_id", VString (uuid_text session_id))].

Definition deletion_outcome (session_id deletion_id : Uuid) : Value :=
  VObject [("deletion_id", VString (uuid_text deletion_id));
           ("key_destroyed", VBool true);
           ("session_id", VString (uuid_text session_id))].

Definition replay_deletion_tombstone (session_id request_id : Uuid) (parameter_hash : string)
    : SM (option DeletionSummary) :=
  let! tombstone := query (λ t, tombstone_row t (uuid_text session_id)) in
  match tombstone with
  | None => st_ret None
  | Some r =>
      if negb (text_eq (t_deletion_request_id r) (uuid_text request_id))
         || negb (text_eq (t_deletion_parameter_hash r) parameter_hash)
      then st_err SE_SessionNotFound
      else
        let! deletion_id := st_lift (parse_uuid (t_deletion_id r)) in
        st_ret (Some {| ds_session_id := session_id; ds_deletion_id := deletion_id;
                        ds_key_destroyed := true |})
  end.

(** The transaction of [finish_deletion]. *)
Definition commit_deletion (session_id deletion_id : Uuid) (request_id : string)
    : SM DeletionSummary :=
  let sid := uuid_text session_id in
  transaction (
    let! creation := query (λ t,
      (λ r, (o_request_id r, o_method r, o_parameter_hash r, o_outcome_json r))
        <$> first_where (λ r, bool_decide (o_session_id r = Some sid)
                              && text_eq (o_method r) "session.create") (command_outcomes t)) in
    let! _ := execute (λ t, Some (delete_outcomes sid t)) in
    let! _ := execute (delete_session sid) in
    let! _ := execute (replace_tombstone
      {| t_session_id := sid; t_deletion_id := uuid_text deletion_id; t_creation := creation;
         t_deletion_request_id := request_id; t_deletion_method := "session.delete";
         t_deletion_parameter_hash := canonical_hash (deletion_parameters session_id);
         t_deletion_outcome_json := json_print (deletion_outcome session_id deletion_id) |}) in
    let! _ := execute (λ t, Some (delete_deletion sid t)) in
    st_ret (true, {| ds_session_id := session_id; ds_deletion_id := deletion_id;
                     ds_key_destroyed := true |})).

(** The key goes before the rows: an interruption leaves the journal to resume from. *)
Definition finish_deletion (session_id : Uuid) : SM DeletionSummary :=
  let! _ := ensure_no_pending_export session_id in
  let! journal := query (λ t, deletion_row t (uuid_text session_id)) in
  match journal with
  | None => st_err SE_SessionNotFound
  | Some r =>
      let! deletion_id := st_lift (parse_uuid (d_deletion_id r)) in
      let! _ := with_keys (destroy_session_key session_id) in
      commit_deletion session_id deletion_id (d_request_id r)
  end.

Definition DELETABLE_STATES : list string :=
  ["completed"; "failed"; "cancelled"; "abandoned"; "deleting"].

(** The transaction that journals a deletion. *)
Definition journal_deletion (session_id deletion_id request_id event_id : Uuid)
    (occurred_at : OffsetDateTime) (actor key_id : string) (key : SecretKey) : SM unit :=
  let sid := uuid_text session_id in
  transaction (
    let! sequence := next_sequence session_id in
    let! encrypted := encrypt_json key session_id (uuid_text event_id) sequence
      "session_deletion_requested"
      (VObject [("actor", VString actor); ("deletion_id", VString (uuid_text deletion_id))]) in
    let! _ := insert_event
      {| ei_event_id := event_id; ei_session_id := session_id; ei_occurred_at := occurred_at;
         ei_kind := "session_deletion_requested"; ei_causation_request_id := Some request_id;
         ei_attempt_id := None; ei_effect_class := None; ei_payload := VNull |}
      sequence key_id encrypted in
    let! _ := execute (insert_deletion
      {| d_session_id := sid; d_deletion_id := uuid_text deletion_id;
         d_request_id := uuid_text request_id |}) in
    let! _ := execute (λ t,
      Some (update_session sid (λ r, set_state "deleting" (s_terminal_at r) r) t).1) in
    st_ret (true, tt)).

Definition request_deletion (session_id deletion_id request_id : Uuid)
    (occurred_at : OffsetDateTime) (actor : string) : SM DeletionSummary :=
  let! replayed := replay_deletion_tombstone session_id request_id
    (canonical_hash (deletion_parameters session_id)) in
  match replayed with
  | Some summary => st_ret summary
  | None =>
      let! _ := ensure_no_pending_export session_id in
      let! row := query (λ t, session_row t (uuid_text session_id)) in
      let! state := st_lift (ok_or (s_state <$> row) SE_SessionNotFound) in
      if negb (text_in state DELETABLE_STATES)
      then st_err (SE_InvalidInput "only terminal sessions may be deleted")
      else
        let! existing := query (λ t, d_request_id <$> deletion_row t (uuid_text session_id)) in
        match existing with
        | Some recorded =>
            if text_eq recorded (uuid_text request_id) then finish_deletion session_id
            else st_err SE_RequestConflict
        | None =>
            let! key_id := stored_key_id session_id in
            let! key := with_keys (session_key session_id) in
            let! event_id := fresh_uuid in
            let! _ := journal_deletion session_id deletion_id request_id event_id occurred_at
              actor key_id key in
            finish_deletion session_id
        end
  end.

Definition resume_deletions : SM (list DeletionSummary) :=
  let! ids := query (λ t, merge_sort text_le (d_session_id <$> deletion_journal t)) in
  st_map (λ id, let! session_id := st_lift (parse_uuid id) in finish_deletion session_id) ids.

(** ** Retention *)

Definition RETAINED_STATES : list string := ["completed"; "failed"; "cancelled"; "abandoned"].

(** [parse_time(&terminal)? <= threshold] over the candidates, in order. *)
Fixpoint due_sessions (threshold : OffsetDateTime) (rows : list (string * string))
    : Result (list string) StorageError :=
  match rows with
  | [] => Ok []
  | (session, terminal) :: rows =>
      let? at_time := parse_time terminal in
      let? due := due_sessions threshold rows in
      Ok (if (at_time <=? threshold)%Z then session :: due else due)
  end.

Definition retention_candidates (t : Tables) : list (string * string) :=
  omap (λ r, (λ at_time, (s_session_id r, at_time)) <$> s_terminal_at r)
    (merge_sort (by_text s_session_id)
       (List.filter (λ r, text_in (s_state r) RETAINED_STATES) (sessions t))).

(** [None]: the threshold precedes every instant the type represents, and the
    subtraction panics. *)
Definition run_retention (now : OffsetDateTime) (retention_days : option N)
    : SM (option (list DeletionSummary)) :=
  match retention_days with
  | None => st_ret (Some [])
  | Some days =>
      if (days =? 0)%N then st_err (SE_InvalidInput "retention must be at least one day")
      else
        match sub_days now days with
        | None => st_ret None
        | Some threshold =>
            let! rows := query retention_candidates in
            let! due := st_lift (due_sessions threshold rows) in
            let! deleted := st_map (λ session,
              let! session_id := st_lift (parse_uuid session) in
              let! deletion_id := fresh_uuid in
              let! request_id := fresh_uuid in
              request_deletion session_id deletion_id request_id now "retention") due in
            st_ret (Some deleted)
        end
  end.
End storage.
