(* ===== verification/StorageInv.v ===== *)
(** * StorageInv: what the storage keeps true, whatever fails

    [Inv] relates the tables and the key manager: histories have no gaps, every
    event belongs to a session, every stored session key belongs to a session or to
    a creation that is journaled, and every session that is not being deleted has a
    readable key under which its snapshots and its whole history open. Each
    statement and each key operation has a lemma here that says under which
    condition it keeps [Inv]; the operations are in [StorageOps]. *)

From stdpp Require Import sorting list_numbers.
From S2P Require Import Prelude StateResult Text BTree Errors Json Wire Event.
From S2P Require Import StorageKeys StorageTables StorageDb.

(** ** Selections *)

Section selections.
Context {A : Type}.
Implicit Types (p q : A → bool) (l : list A).

Lemma first_where_cons p x l :
  first_where p (x :: l) = if p x then Some x else first_where p l.
Proof. unfold first_where. simpl. by destruct (p x). Qed.

Lemma first_where_Some p l x : first_where p l = Some x → x ∈ l ∧ p x = true.
Proof.
  induction l as [|y l IH]; [done|]. rewrite first_where_cons. destruct (p y) eqn:Hy.
  - intros [= <-]. split; [left|done].
  - intros [? ?]%IH. split; [by right|done].
Qed.

Lemma first_where_None p l : first_where p l = None ↔ ∀ x, x ∈ l → p x = false.
Proof.
  induction l as [|y l IH]; [split; [by intros _ x ?%elem_of_nil|done]|].
  rewrite first_where_cons. setoid_rewrite elem_of_cons. destruct (p y) eqn:Hy; naive_solver congruence.
Qed.

Lemma first_where_app p l l' :
  first_where p (l ++ l') =
  match first_where p l with Some x => Some x | None => first_where p l' end.
Proof.
  induction l as [|y l IH]; [done|]. rewrite <-app_comm_cons, !first_where_cons. by destruct (p y).
Qed.

Lemma first_where_map p (f : A → A) l :
  (∀ x, p (f x) = p x) → first_where p (List.map f l) = f <$> first_where p l.
Proof.
  intros Hp. induction l as [|y l IH]; [done|]. simpl. rewrite !first_where_cons, Hp.
  by destruct (p y).
Qed.

(** Rows that are not selected may go. *)
Lemma first_where_filter p q l :
  (∀ x, p x = true → q x = true) → first_where p (List.filter q l) = first_where p l.
Proof.
  intros Hpq. induction l as [|y l IH]; [done|]. simpl. destruct (q y) eqn:Hq.
  - rewrite !first_where_cons. by rewrite IH.
  - rewrite first_where_cons, IH. destruct (p y) eqn:Hp; [|done]. by apply Hpq in Hp; congruence.
Qed.

Lemma first_where_survives p q l x :
  first_where p l = Some x → q x = true → first_where p (List.filter q l) = Some x.
Proof.
  induction l as [|y l IH]; [done|]. rewrite first_where_cons. simpl. destruct (p y) eqn:Hp.
  - intros [= ->] ->. by rewrite first_where_cons, Hp.
  - intros Hl Hq. destruct (q y); [rewrite first_where_cons, Hp|]; by apply IH.
Qed.

Lemma first_where_NoDup {B} (f : A → B) `{EqDecision B} l x :
  NoDup (f <$> l) → x ∈ l → first_where (λ y, bool_decide (f y = f x)) l = Some x.
Proof.
  intros Hnd Hx. induction Hx as [x l|x y l Hx IH]; rewrite first_where_cons.
  - by rewrite bool_decide_eq_true_2.
  - rewrite fmap_cons, NoDup_cons in Hnd. destruct Hnd as [Hy Hnd].
    rewrite bool_decide_eq_false_2; [by apply IH|]. intros Heq. apply Hy. rewrite Heq.
    by apply list_elem_of_fmap_2.
Qed.

Lemma elem_of_filterb p l x : x ∈ List.filter p l ↔ x ∈ l ∧ p x = true.
Proof. rewrite !list_elem_of_In. apply filter_In. Qed.

Lemma filterb_filterb_keep p q l :
  (∀ x, p x = true → q x = true) → List.filter p (List.filter q l) = List.filter p l.
Proof.
  intros Hpq. induction l as [|x l IH]; [done|]. simpl. specialize (Hpq x).
  destruct (q x) eqn:Hq; simpl; rewrite IH; [done|]. destruct (p x); [|done].
  by specialize (Hpq eq_refl).
Qed.

Lemma filterb_filterb p q l :
  List.filter p (List.filter q l) = List.filter (λ x, q x && p x) l.
Proof.
  induction l as [|x l IH]; [done|]. simpl. destruct (q x); simpl; rewrite IH; done.
Qed.

Lemma filterb_ext_in p q l :
  (∀ x, x ∈ l → p x = q x) → List.filter p l = List.filter q l.
Proof.
  intros Hpq. apply List.filter_ext_in. intros x Hx. apply Hpq. by apply list_elem_of_In.
Qed.

Lemma filterb_ext p q l : (∀ x, p x = q x) → List.filter p l = List.filter q l.
Proof. intros Hpq. by apply filterb_ext_in. Qed.

Lemma filterb_all p l : (∀ x, x ∈ l → p x = true) → List.filter p l = l.
Proof.
  intros Hp. induction l as [|x l IH]; [done|]. simpl. rewrite (Hp x) by left. f_equal.
  apply IH. intros y Hy. apply Hp. by right.
Qed.

Lemma filterb_none p l : (∀ x, x ∈ l → p x = false) → List.filter p l = [].
Proof.
  intros Hp. induction l as [|x l IH]; [done|]. simpl. rewrite (Hp x) by left.
  apply IH. intros y Hy. apply Hp. by right.
Qed.

Lemma Permutation_filterb p l l' : l ≡ₚ l' → List.filter p l ≡ₚ List.filter p l'.
Proof.
  induction 1 as [|x l l' _ IH|x y l|l1 l2 l3 _ IH1 _ IH2]; simpl; [done| | |by etrans].
  - destruct (p x); [by constructor|done].
  - destruct (p x), (p y); try done. constructor.
Qed.

Lemma NoDup_filterb {B} (f : A → B) p l : NoDup (f <$> l) → NoDup (f <$> List.filter p l).
Proof.
  induction l as [|x l IH]; [done|]. simpl. rewrite NoDup_cons. intros [Hx Hl].
  destruct (p x); [|by apply IH]. simpl. apply NoDup_cons. split; [|by apply IH].
  rewrite list_elem_of_fmap. intros (y & Hy & [Hin _]%elem_of_filterb). apply Hx.
  rewrite Hy. by apply list_elem_of_fmap_2.
Qed.
End selections.

Lemma text_eq_true a b : text_eq a b = true ↔ a = b.
Proof. apply bool_decide_eq_true. Qed.

Lemma text_eq_refl a : text_eq a a = true.
Proof. by apply text_eq_true. Qed.

Lemma text_eq_false a b : text_eq a b = false ↔ a ≠ b.
Proof. apply bool_decide_eq_false. Qed.

Section try_collect_app.
Context {A B E : Type}.

Lemma try_collect_snoc (f : A → Result B E) l x ys y :
  try_collect f l = Ok ys → f x = Ok y → try_collect f (l ++ [x]) = Ok (ys ++ [y]).
Proof.
  rewrite !try_collect_Ok. intros Hl Hx. apply Forall2_app; [done|]. by repeat constructor.
Qed.
End try_collect_app.

(** ** Rows under a statement *)

Section rows.
Implicit Types t : Tables.

Lemma session_row_Some t sid r : session_row t sid = Some r → r ∈ sessions t ∧ s_session_id r = sid.
Proof. intros [? ?%text_eq_true]%first_where_Some. done. Qed.

Lemma session_row_None t sid : session_row t sid = None ↔ ∀ r, r ∈ sessions t → s_session_id r ≠ sid.
Proof. unfold session_row. rewrite first_where_None. by setoid_rewrite text_eq_false. Qed.

Lemma session_row_update t f sid x :
  (∀ r, s_session_id (f r) = s_session_id r) →
  session_row (update_session sid f t).1 x =
    (λ r, if text_eq (s_session_id r) sid then f r else r) <$> session_row t x.
Proof.
  intros Hf. unfold session_row, update_session. simpl. apply first_where_map.
  intros r. destruct (text_eq (s_session_id r) sid); [by rewrite Hf|done].
Qed.

Lemma events_of_snoc t row sid :
  events_of (with_events t (session_events t ++ [row])) sid =
  events_of t sid ++ (if text_eq (e_session_id row) sid then [row] else []).
Proof. unfold events_of. simpl. rewrite List.filter_app. simpl. by destruct (text_eq _ _). Qed.

Lemma elem_of_events_of t sid r : r ∈ events_of t sid ↔ r ∈ session_events t ∧ e_session_id r = sid.
Proof. unfold events_of. by rewrite elem_of_filterb, text_eq_true. Qed.

Lemma creation_Some t sid r :
  creation_by_session t sid = Some r → r ∈ session_creation_journal t ∧ c_session_id r = sid.
Proof. intros [? ?%text_eq_true]%first_where_Some. done. Qed.

Lemma creation_None t sid :
  creation_by_session t sid = None ↔ ∀ r, r ∈ session_creation_journal t → c_session_id r ≠ sid.
Proof. unfold creation_by_session. rewrite first_where_None. by setoid_rewrite text_eq_false. Qed.

Lemma deletion_Some t sid r :
  deletion_row t sid = Some r → r ∈ deletion_journal t ∧ d_session_id r = sid.
Proof. intros [? ?%text_eq_true]%first_where_Some. done. Qed.

Lemma deletion_None t sid :
  deletion_row t sid = None ↔ ∀ r, r ∈ deletion_journal t → d_session_id r ≠ sid.
Proof. unfold deletion_row. rewrite first_where_None. by setoid_rewrite text_eq_false. Qed.

(** Sequences without gaps: the highest is the number of events. *)
Lemma foldr_max_le (l : list Z) b :
  (0 ≤ b)%Z → (∀ x, x ∈ l → (x ≤ b)%Z) → (foldr Z.max 0 l ≤ b)%Z.
Proof.
  intros Hb. induction l as [|y l IH]; simpl; [done|]. intros Hl.
  pose proof (Hl y ltac:(left)). assert (foldr Z.max 0 l ≤ b)%Z; [|lia].
  apply IH. intros x Hx. apply Hl. by right.
Qed.

Lemma foldr_max_ge (l : list Z) x : x ∈ l → (x ≤ foldr Z.max 0 l)%Z.
Proof. induction 1; simpl; lia. Qed.

Lemma max_seqZ (n : nat) : foldr Z.max 0%Z (seqZ 1 (Z.of_nat n)) = Z.of_nat n.
Proof.
  apply Z.le_antisymm.
  - apply foldr_max_le; [lia|]. intros x. rewrite elem_of_seqZ. lia.
  - destruct n as [|n]; [done|]. apply foldr_max_ge, elem_of_seqZ. lia.
Qed.
End rows.

(** ** The invariant *)

Section invariant.
Context `{StorageEnv} `{!StorageEnvLaws} {K : Type} `{KeyStore K} `{!KeyStoreLaws K}.
Implicit Types (t : Tables) (m : KeyManager K) (s : SqliteStorage K).

Lemma read_value_printed v : value_wf v = true → read_value (json_print v) = Ok v.
Proof.
  intros Hv. unfold read_value. rewrite json_roundtrip by by apply value_wf_accepted.
  simpl. by rewrite canonical_id.
Qed.

(** The history of a session, as its key opens it. *)
Definition history (key : SecretKey) (sid : Uuid) (t : Tables)
    : Result (list StoredEvent) StorageError :=
  try_collect (decrypt_event key sid) (events_of t (uuid_text sid)).

Definition snapshots_open (key : SecretKey) (sid : Uuid) (r : SessionRow) : Prop :=
  (∃ v, decrypt_session_json key sid "configuration" "configuration_snapshot"
          (s_configuration r) = Ok v) ∧
  (∃ v, decrypt_session_json key sid "lock" "session_lock" (s_lock r) = Ok v) ∧
  (∃ o, parse_option parse_time (s_terminal_at r) = Ok o).

Definition has_session (t : Tables) (sid : Uuid) : Prop := session_row t (uuid_text sid) ≠ None.
Definition has_creation (t : Tables) (sid : Uuid) : Prop :=
  creation_by_session t (uuid_text sid) ≠ None.
Definition deleting (t : Tables) (sid : Uuid) : Prop := deletion_row t (uuid_text sid) ≠ None.
Definition key_stored (m : KeyManager K) (sid : Uuid) : Prop :=
  entry m (session_key_id m sid) ≠ None.

Record Inv (t : Tables) (m : KeyManager K) : Prop := {
  inv_sessions : NoDup (s_session_id <$> sessions t);
  inv_named r : r ∈ sessions t →
    ∃ sid at_time, s_session_id r = uuid_text sid ∧ s_created_at r = time_text at_time ∧
      ∃ o, parse_option parse_time (s_terminal_at r) = Ok o;
  inv_foreign r : r ∈ session_events t → session_row t (e_session_id r) ≠ None;
  inv_sequences sid :
    e_sequence <$> events_of t sid = seqZ 1 (Z.of_nat (length (events_of t sid)));
  inv_attempts r a : r ∈ session_events t → e_attempt_id r = Some a → ∃ u, a = uuid_text u;
  inv_creations : NoDup (c_session_id <$> session_creation_journal t);
  inv_creation r : r ∈ session_creation_journal t →
    ∃ sid req, c_session_id r = uuid_text sid ∧ c_request_id r = uuid_text req ∧
      c_key_id r = session_key_id m sid ∧ c_state r ∈ ["prepared"; "key_created"];
  inv_keys sid r : session_row t (uuid_text sid) = Some r → s_key_id r = session_key_id m sid;
  inv_deletions : NoDup (d_session_id <$> deletion_journal t);
  inv_deletion_ids : NoDup (d_deletion_id <$> deletion_journal t);
  inv_deletion r : r ∈ deletion_journal t →
    ∃ sid did, d_session_id r = uuid_text sid ∧ d_deletion_id r = uuid_text did ∧ has_session t sid;
  inv_namespaced : namespaced m;
  inv_cache sid key : km_cache m !! sid = Some key → readable m sid key;
  inv_owned sid : key_stored m sid → has_session t sid ∨ has_creation t sid;
  inv_live sid r : session_row t (uuid_text sid) = Some r → ¬ deleting t sid →
    ∃ key events, readable m sid key ∧ history key sid t = Ok events ∧ snapshots_open key sid r;
}.

Definition SInv s : Prop := Inv (connection s) (keys s).

(** Only four tables matter. *)
Lemma Inv_ext t t' m :
  sessions t' = sessions t → session_events t' = session_events t →
  session_creation_journal t' = session_creation_journal t →
  deletion_journal t' = deletion_journal t → Inv t m → Inv t' m.
Proof.
  intros Hs He Hc Hd Hi. destruct t, t'. simpl in *. subst. destruct Hi. by constructor.
Qed.

(** *** Events *)

(** The session list is what it was, up to states. *)
Definition same_identity (f : SessionRow → SessionRow) : Prop :=
  ∀ r, s_session_id (f r) = s_session_id r ∧ s_key_id (f r) = s_key_id r ∧
    s_created_at (f r) = s_created_at r ∧
    s_configuration (f r) = s_configuration r ∧ s_lock (f r) = s_lock r ∧
    ((∃ o, parse_option parse_time (s_terminal_at r) = Ok o) →
     ∃ o, parse_option parse_time (s_terminal_at (f r)) = Ok o).

Lemma Inv_update_session t m sid f :
  same_identity f → Inv t m → Inv (update_session sid f t).1 m.
Proof.
  intros Hf Hi.
  set (g := λ r, if text_eq (s_session_id r) sid then f r else r).
  assert (Hg : same_identity g).
  { intros r. unfold g. destruct (text_eq _ _); [apply Hf|by split_and!]. }
  assert (Hrow : ∀ x, session_row (update_session sid f t).1 x = g <$> session_row t x).
  { intros x. apply session_row_update. intros r. apply Hf. }
  assert (Hsome : ∀ x, session_row (update_session sid f t).1 x ≠ None ↔ session_row t x ≠ None).
  { intros x. rewrite Hrow. by destruct (session_row t x). }
  constructor; try (by apply Hi); unfold has_session.
  - simpl. fold g. replace (s_session_id <$> List.map g (sessions t))
      with (s_session_id <$> sessions t); [apply Hi|].
    change (List.map g) with (fmap (M := list) g). rewrite <-list_fmap_compose.
    apply list_fmap_ext. intros i r _. symmetry. apply Hg.
  - intros r. simpl. fold g. intros (r0 & <- & Hr0)%list_elem_of_In%in_map_iff.
    apply list_elem_of_In in Hr0. destruct (Hg r0) as (-> & _ & -> & _ & _ & Hterm).
    destruct (inv_named _ _ Hi r0 Hr0) as (x & at_time & ? & ? & ?). exists x, at_time. auto.
  - intros r Hr. apply Hsome. by apply (inv_foreign _ _ Hi).
  - intros x r. rewrite Hrow. destruct (session_row t (uuid_text x)) as [r0|] eqn:Hr0; [|done].
    intros [= <-]. destruct (Hg r0) as (_ & -> & _). by apply (inv_keys _ _ Hi).
  - intros r Hr. destruct (inv_deletion _ _ Hi r Hr) as (x & d & ? & ? & ?).
    exists x, d. split_and!; [done..|]. by apply Hsome.
  - intros x Hx. destruct (inv_owned _ _ Hi x Hx); [left; by apply Hsome|by right].
  - intros x r. rewrite Hrow. destruct (session_row t (uuid_text x)) as [r0|] eqn:Hr0; [|done].
    intros [= <-] Hd. destruct (inv_live _ _ Hi x r0 Hr0 Hd) as (k & ev & Hk & Hh & Hc & Hl & Ht).
    exists k, ev. split_and!; try done. destruct (Hg r0) as (_ & _ & _ & Ha & Hb & Hc').
    unfold snapshots_open. rewrite Ha, Hb. auto.
Qed.

(** An event row with the next sequence, that the key of its session opens. *)
Lemma Inv_append t m row :
  session_row t (e_session_id row) ≠ None →
  e_sequence row = (max_sequence t (e_session_id row) + 1)%Z →
  (∀ a, e_attempt_id row = Some a → ∃ u, a = uuid_text u) →
  (∀ sid, e_session_id row = uuid_text sid → ¬ deleting t sid →
     ∃ key ev, readable m sid key ∧ decrypt_event key sid row = Ok ev) →
  Inv t m → Inv (with_events t (session_events t ++ [row])) m.
Proof.
  intros Hrow Hseq Hatt Hev Hi. constructor; try (by apply Hi).
  - intros r. simpl. rewrite elem_of_app, list_elem_of_singleton.
    intros [Hr| ->]; [by apply (inv_foreign _ _ Hi)|done].
  - intros sid. rewrite events_of_snoc. pose proof (inv_sequences _ _ Hi sid) as Hs.
    destruct (text_eq _ _) eqn:Heq; [|by rewrite app_nil_r].
    apply text_eq_true in Heq as <-. rewrite fmap_app, Hs, length_app. simpl.
    rewrite Nat2Z.inj_add, seqZ_app by lia. f_equal.
    rewrite Hseq. unfold max_sequence. rewrite Hs, max_seqZ.
    change (seqZ (1 + _) (Z.of_nat 1)) with [(0 + (1 + Z.of_nat (length (events_of t (e_session_id row)))))%Z].
    f_equal. lia.
  - intros r a. simpl. rewrite elem_of_app, list_elem_of_singleton.
    intros [Hr| ->]; [by apply (inv_attempts _ _ Hi)|apply Hatt].
  - intros sid r Hr Hd. destruct (inv_live _ _ Hi sid r Hr Hd) as (k & evs & Hk & Hh & Hs).
    unfold history. rewrite events_of_snoc. destruct (text_eq _ _) eqn:Heq.
    + apply text_eq_true in Heq. destruct (Hev sid Heq Hd) as (k' & ev & Hk' & Hev').
      pose proof (readable_unique _ _ _ _ Hk Hk') as <-. exists k, (evs ++ [ev]).
      split_and!; [done| |done]. by apply try_collect_snoc.
    + exists k, evs. by rewrite app_nil_r.
Qed.

(** *** Creation journal *)

Lemma Inv_insert_creation t t' m row sid req :
  c_session_id row = uuid_text sid → c_request_id row = uuid_text req →
  c_key_id row = session_key_id m sid →
  insert_creation row t = Some t' → Inv t m →
  Inv t' m ∧ has_creation t' sid ∧ t' = with_creations t (session_creation_journal t ++ [row]).
Proof.
  intros Hsid Hreq Hkey Hins Hi. unfold insert_creation in Hins. case_match eqn:Hc; [done|].
  injection Hins as <-. bool_to_prop. match goal with H : text_in _ _ = true |- _ =>
    apply bool_decide_eq_true in H; rename H into Hst end.
  assert (Hmono : ∀ x, has_creation t x →
    has_creation (with_creations t (session_creation_journal t ++ [row])) x).
  { intros x. unfold has_creation, creation_by_session. simpl. rewrite first_where_app.
    by destruct (first_where _ (session_creation_journal t)). }
  split_and!; [|unfold has_creation, creation_by_session; simpl; rewrite first_where_app|done].
  - constructor; try (by apply Hi); simpl.
    + rewrite fmap_app. apply NoDup_app. split_and!; [apply Hi| |apply NoDup_singleton].
      intros x (r & -> & Hr)%list_elem_of_fmap. simpl. rewrite list_elem_of_singleton. intros Heq.
      match goal with H : existsb _ _ = false |- _ => rename H into Hex end.
      apply not_true_iff_false in Hex. apply Hex, existsb_exists. exists r.
      split; [by apply list_elem_of_In|]. by rewrite Heq, text_eq_refl.
    + intros r. rewrite elem_of_app, list_elem_of_singleton.
      intros [Hr| ->]; [by apply (inv_creation _ _ Hi)|]. by exists sid, req.
    + intros x Hx. destruct (inv_owned _ _ Hi x Hx); [by left|right; by apply Hmono].
  - destruct (first_where _ _); [done|]. rewrite first_where_cons, Hsid, text_eq_refl. done.
Qed.

Lemma Inv_update_creation t m p f :
  (∀ r, c_session_id (f r) = c_session_id r ∧ c_request_id (f r) = c_request_id r ∧
        c_key_id (f r) = c_key_id r ∧ c_state (f r) ∈ ["prepared"; "key_created"]) →
  Inv t m → Inv (update_creation p f t).1 m.
Proof.
  intros Hf Hi. set (g := λ r, if p r then f r else r).
  assert (Hg : ∀ r, c_session_id (g r) = c_session_id r ∧ c_request_id (g r) = c_request_id r ∧
    c_key_id (g r) = c_key_id r) by (intros r; unfold g; destruct (p r); naive_solver).
  constructor; try (by apply Hi); simpl; fold g.
  - change (List.map g) with (fmap (M := list) g). rewrite <-list_fmap_compose.
    erewrite list_fmap_ext; [apply (inv_creations _ _ Hi)|]. intros i r _. apply Hg.
  - intros r (r0 & <- & Hr0)%list_elem_of_In%in_map_iff. apply list_elem_of_In in Hr0.
    destruct (inv_creation _ _ Hi r0 Hr0) as (sid & req & ? & ? & ? & ?).
    exists sid, req. destruct (Hg r0) as (-> & -> & ->). split_and!; try done.
    unfold g. destruct (p r0); [apply Hf|done].
  - intros x Hx. destruct (inv_owned _ _ Hi x Hx) as [|Hc]; [by left|right].
    unfold has_creation, creation_by_session in *. simpl. fold g. rewrite first_where_map.
    + by destruct (first_where _ _).
    + intros r. by destruct (Hg r) as (-> & _).
Qed.

(** A journal entry may go once the session exists or its key is gone. *)
Lemma Inv_delete_creation t m p sid :
  (∀ r, p r = true → c_session_id r = uuid_text sid) →
  (has_session t sid ∨ ¬ key_stored m sid) →
  Inv t m → Inv (delete_creation p t).1 m.
Proof.
  intros Hp Hor Hi. constructor; try (by apply Hi); simpl.
  - apply NoDup_filterb, Hi.
  - intros r [Hr _]%elem_of_filterb. by apply (inv_creation _ _ Hi).
  - intros x Hx. destruct (decide (x = sid)) as [->|Hne]; [left; by destruct Hor|].
    destruct (inv_owned _ _ Hi x Hx) as [|Hc]; [by left|right].
    unfold has_creation, creation_by_session in *. simpl. rewrite first_where_filter; [done|].
    intros r Hr%text_eq_true. apply negb_true_iff, not_true_iff_false. intros Hpr.
    apply Hp in Hpr. apply Hne, uuid_text_inj. congruence.
Qed.

(** *** Sessions *)

Lemma Inv_insert_session t t' m row sid at_time key :
  s_session_id row = uuid_text sid → s_key_id row = session_key_id m sid →
  s_created_at row = time_text at_time →
  readable m sid key → snapshots_open key sid row →
  insert_session row t = Some t' → Inv t m →
  Inv t' m ∧ has_session t' sid ∧ events_of t' (uuid_text sid) = [] ∧
  t' = with_sessions t (sessions t ++ [row]).
Proof.
  intros Hsid Hkey Hat Hk Hsn Hins Hi. unfold insert_session in Hins. case_match eqn:Hc; [done|].
  injection Hins as <-. set (t' := with_sessions t (sessions t ++ [row])).
  assert (Hnone : session_row t (uuid_text sid) = None).
  { apply session_row_None. intros r Hr Heq. apply not_true_iff_false in Hc.
    apply Hc, existsb_exists. exists r. split; [by apply list_elem_of_In|].
    by rewrite Heq, Hsid, text_eq_refl. }
  assert (Hrow : ∀ x, session_row t' x =
    match session_row t x with Some r => Some r | None => if text_eq (uuid_text sid) x then Some row else None end).
  { intros x. unfold session_row, t'. simpl. rewrite first_where_app, first_where_cons, Hsid. done. }
  assert (Hmono : ∀ x, session_row t x ≠ None → session_row t' x ≠ None)
    by (intros x; rewrite Hrow; by destruct (session_row t x)).
  assert (Hev : events_of t (uuid_text sid) = []).
  { destruct (events_of t (uuid_text sid)) as [|e l] eqn:He; [done|].
    assert (e ∈ events_of t (uuid_text sid)) as [Hin Heq]%elem_of_events_of by (rewrite He; left).
    apply (inv_foreign _ _ Hi) in Hin. congruence. }
  split_and!; [|by unfold has_session; rewrite Hrow, Hnone, text_eq_refl|done|done].
  constructor; try (by apply Hi); simpl.
  - rewrite fmap_app. apply NoDup_app. split_and!; [apply Hi| |apply NoDup_singleton].
    intros x (r & -> & Hr)%list_elem_of_fmap. simpl. rewrite list_elem_of_singleton, Hsid. intros Heq.
    by apply session_row_None with (r := r) in Hnone.
  - intros r. rewrite elem_of_app, list_elem_of_singleton.
    intros [Hr| ->]; [by apply (inv_named _ _ Hi)|].
    exists sid, at_time. split_and!; [done|done|apply Hsn].
  - intros r Hr. by apply Hmono, (inv_foreign _ _ Hi).
  - intros x r. rewrite Hrow. destruct (session_row t (uuid_text x)) as [r0|] eqn:Hr0.
    + intros [= <-]. by apply (inv_keys _ _ Hi).
    + case_match eqn:Heq; [|done]. intros [= <-]. by apply text_eq_true, uuid_text_inj in Heq as ->.
  - intros r Hr. destruct (inv_deletion _ _ Hi r Hr) as (x & d & ? & ? & ?).
    exists x, d. split_and!; [done..|]. by apply Hmono.
  - intros x Hx. destruct (inv_owned _ _ Hi x Hx); [left; by apply Hmono|by right].
  - intros x r. rewrite Hrow. destruct (session_row t (uuid_text x)) as [r0|] eqn:Hr0.
    + intros [= <-]. by apply (inv_live _ _ Hi).
    + case_match eqn:Heq; [|done]. intros [= <-] _. apply text_eq_true, uuid_text_inj in Heq as <-.
      exists key, []. unfold history.
      change (events_of t' (uuid_text sid)) with (events_of t (uuid_text sid)). by rewrite Hev.
Qed.

Lemma Inv_delete_session t t' m sid :
  (¬ key_stored m sid ∨ has_creation t sid) →
  delete_session (uuid_text sid) t = Some t' →
  deletion_row t (uuid_text sid) ≠ None →
  Inv t m →
  Inv (delete_deletion (uuid_text sid) t') m ∧ ¬ has_session t' sid.
Proof.
  intros Hor Hdel Hdr Hi. unfold delete_session in Hdel. case_match; [done|]. injection Hdel as <-.
  set (l := List.filter (λ r, negb (text_eq (s_session_id r) (uuid_text sid))) (sessions t)).
  assert (Hother : ∀ x, x ≠ uuid_text sid →
    first_where (λ r, text_eq (s_session_id r) x) l = session_row t x).
  { intros x Hx. apply first_where_filter. intros r Hr%text_eq_true.
    apply negb_true_iff, text_eq_false. congruence. }
  assert (Hself : first_where (λ r, text_eq (s_session_id r) (uuid_text sid)) l = None).
  { apply first_where_None. intros r [_ Hr]%elem_of_filterb. by apply negb_true_iff in Hr. }
  assert (Hevs : ∀ x, x ≠ uuid_text sid →
    List.filter (λ r, text_eq (e_session_id r) x)
      (List.filter (λ r, negb (text_eq (e_session_id r) (uuid_text sid))) (session_events t)) =
    events_of t x).
  { intros x Hx. apply filterb_filterb_keep. intros r Hr%text_eq_true.
    apply negb_true_iff, text_eq_false. congruence. }
  assert (Hevself :
    List.filter (λ r, text_eq (e_session_id r) (uuid_text sid))
      (List.filter (λ r, negb (text_eq (e_session_id r) (uuid_text sid))) (session_events t)) = []).
  { apply filterb_none. intros r [_ Hr]%elem_of_filterb. by apply negb_true_iff in Hr. }
  assert (Hdels : ∀ x, x ≠ uuid_text sid →
    first_where (λ r, text_eq (d_session_id r) x)
      (List.filter (λ r, negb (text_eq (d_session_id r) (uuid_text sid))) (deletion_journal t))
    = deletion_row t x).
  { intros x Hx. apply first_where_filter. intros r Hr%text_eq_true.
    apply negb_true_iff, text_eq_false. congruence. }
  assert (Hne : ∀ x r, first_where (λ r, text_eq (s_session_id r) (uuid_text x)) l = Some r →
    uuid_text x ≠ uuid_text sid) by (intros x r Hr ->%uuid_text_inj; congruence).
  split; [|unfold has_session, session_row; simpl; fold l; rewrite Hself; by intros Hn; apply Hn].
  constructor; try (by apply Hi); unfold has_session, session_row, events_of; simpl; fold l.
  - apply NoDup_filterb, Hi.
  - intros r [Hr _]%elem_of_filterb. by apply (inv_named _ _ Hi).
  - intros r [Hr Hn]%elem_of_filterb. apply negb_true_iff, text_eq_false in Hn.
    rewrite Hother by done. by apply (inv_foreign _ _ Hi).
  - intros x. destruct (decide (x = uuid_text sid)) as [->|Hx]; [by rewrite Hevself|].
    rewrite Hevs by done. apply Hi.
  - intros r a [Hr _]%elem_of_filterb. by apply (inv_attempts _ _ Hi).
  - intros x r Hr. rewrite Hother in Hr by eauto. by apply (inv_keys _ _ Hi).
  - apply NoDup_filterb, Hi.
  - apply NoDup_filterb, Hi.
  - intros r [Hr Hn]%elem_of_filterb. apply negb_true_iff, text_eq_false in Hn.
    destruct (inv_deletion _ _ Hi r Hr) as (x & d & Hx & ? & ?). exists x, d.
    split_and!; [done..|]. by rewrite Hother by congruence.
  - intros x Hx. destruct (decide (x = sid)) as [->|Hn].
    + destruct Hor as [|Hc]; [done|by right].
    + destruct (inv_owned _ _ Hi x Hx); [left|by right].
      rewrite Hother; [done|]. by intros ?%uuid_text_inj.
  - intros x r Hr. pose proof (Hne _ _ Hr) as Hx. rewrite Hother in Hr by done.
    unfold deleting, deletion_row, history, events_of. simpl.
    rewrite Hdels, Hevs by done. by apply (inv_live _ _ Hi).
Qed.

Lemma Inv_insert_deletion t t' m row sid did :
  d_session_id row = uuid_text sid → d_deletion_id row = uuid_text did → has_session t sid →
  insert_deletion row t = Some t' → Inv t m → Inv t' m.
Proof.
  intros Hsid Hdid Hs Hins Hi. unfold insert_deletion in Hins. case_match eqn:Hc; [done|].
  injection Hins as <-.
  assert (Hfresh : ∀ r, r ∈ deletion_journal t →
    d_session_id r ≠ d_session_id row ∧ d_deletion_id r ≠ d_deletion_id row).
  { intros r Hr. apply not_true_iff_false in Hc. split; intros Heq; apply Hc, existsb_exists;
      exists r; (split; [by apply list_elem_of_In|]); rewrite Heq, text_eq_refl; [done|].
    by rewrite orb_true_r. }
  constructor; try (by apply Hi); simpl.
  - rewrite fmap_app. apply NoDup_app. split_and!; [apply Hi| |apply NoDup_singleton].
    intros x (r & -> & Hr)%list_elem_of_fmap. simpl. rewrite list_elem_of_singleton.
    by apply Hfresh.
  - rewrite fmap_app. apply NoDup_app. split_and!; [apply Hi| |apply NoDup_singleton].
    intros x (r & -> & Hr)%list_elem_of_fmap. simpl. rewrite list_elem_of_singleton.
    by apply Hfresh.
  - intros r. rewrite elem_of_app, list_elem_of_singleton.
    intros [Hr| ->]; [by apply (inv_deletion _ _ Hi)|by exists sid, did].
  - intros x r Hr Hd. apply (inv_live _ _ Hi); [done|]. intros Hd'. apply Hd.
    unfold deleting, deletion_row in *. simpl. rewrite first_where_app.
    by destruct (first_where _ (deletion_journal t)).
Qed.

(** *** Keys *)

Lemma readable_frame m m' sid key :
  same_space m m' → entry m' (km_root_key_id m) = entry m (km_root_key_id m) →
  entry m' (session_key_id m sid) = entry m (session_key_id m sid) →
  readable m sid key → readable m' sid key.
Proof.
  intros Hs Hr He (roots & Hroots & Ho). exists roots. split.
  - rewrite <-Hroots. by apply stored_roots_entry.
  - destruct Ho as [Ho|(p & Hp & Ho)]; [left|right; exists p; split; [done|]]; by eapply opens_entry.
Qed.

Lemma readable_stored m sid key : readable m sid key → key_stored m sid.
Proof.
  unfold key_stored. intros (roots & _ & [(_ & t & p & -> & _)|(q & _ & _ & t & p & -> & _)]); done.
Qed.

Lemma readable_root m sid key : readable m sid key → entry m (km_root_key_id m) ≠ None.
Proof. intros (roots & Hr & _). unfold stored_roots in Hr. by destruct (entry m _). Qed.

Lemma session_key_id_space m m' sid : same_space m m' → session_key_id m' sid = session_key_id m sid.
Proof. unfold session_key_id. by intros [_ ->]. Qed.

Lemma same_space_trans m1 m2 m3 : same_space m1 m2 → same_space m2 m3 → same_space m1 m3.
Proof. unfold same_space. intuition congruence. Qed.

Lemma Inv_rekey t m m' :
  same_space m m' →
  (∀ sid, has_session t sid → ¬ deleting t sid → ∀ key, readable m sid key → readable m' sid key) →
  (∀ sid key, km_cache m' !! sid = Some key → readable m' sid key) →
  (∀ sid, key_stored m' sid → has_session t sid ∨ has_creation t sid) →
  Inv t m → Inv t m'.
Proof.
  intros Hs Hr Hc Ho Hi.
  pose proof (λ sid, session_key_id_space m m' sid Hs) as Hid.
  constructor; try (by apply Hi); auto.
  - intros r Hin. destruct (inv_creation _ _ Hi r Hin) as (sid & req & ?). exists sid, req. by rewrite Hid.
  - intros sid r Hrow. rewrite Hid. by apply (inv_keys _ _ Hi).
  - eapply namespaced_space; [done|apply Hi].
  - intros sid r Hrow Hd. destruct (inv_live _ _ Hi sid r Hrow Hd) as (k & ev & Hk & Hrest).
    exists k, ev. split; [|done]. apply Hr; try done. unfold has_session. by rewrite Hrow.
Qed.

(** The store is the same. *)
Lemma Inv_same_store t m m' :
  same_space m m' → (∀ i, entry m' i = entry m i) →
  (∀ sid key, km_cache m' !! sid = Some key → km_cache m !! sid = Some key ∨ readable m sid key) →
  Inv t m → Inv t m'.
Proof.
  intros Hs He Hc Hi.
  assert (Hr : ∀ sid key, readable m sid key → readable m' sid key)
    by (intros sid key; by apply readable_frame).
  eapply Inv_rekey; eauto.
  - intros sid key Hk. destruct (Hc sid key Hk); [|by apply Hr]. by apply Hr, (inv_cache _ _ Hi).
  - intros sid. unfold key_stored. rewrite He, (session_key_id_space _ _ _ Hs). apply (inv_owned _ _ Hi).
Qed.

Lemma Inv_session_key t m m' sid r :
  session_key sid m = (m', r) → Inv t m →
  Inv t m' ∧ same_space m m' ∧ (∀ i, entry m' i = entry m i) ∧
  (∀ key, r = Ok key → readable m' sid key).
Proof.
  intros Hs Hi. destruct (km_cache m !! sid) as [k|] eqn:Hk.
  { unfold session_key in Hs. rewrite Hk in Hs. injection Hs as <- <-. split_and!; try done.
    intros key [= <-]. by apply (inv_cache _ _ Hi). }
  destruct r as [key|e].
  - apply session_key_readable in Hs as [Hr ->]; [|done].
    assert (readable (with_cache m (<[sid:=key]> (km_cache m))) sid key)
      by (eapply readable_frame; [| | |exact Hr]; done).
    split_and!; try done; [|by intros ? [= <-]].
    eapply Inv_same_store; [| |simpl|exact Hi]; [done..|].
    intros x k. rewrite lookup_insert. case_decide; naive_solver.
  - assert (m' = m) as ->; [|done].
    unfold session_key in Hs. rewrite Hk in Hs. unfold st_bind, store_get, root_keys, st_lift, cache_insert, st_modify, st_err in Hs.
    unfold st_bind, store_get in Hs. crush_matches.
Qed.

Lemma load_roots_frame m m' r :
  load_or_create_root_keys m = (m', r) →
  same_space m m' ∧ km_cache m' = km_cache m ∧
  (∀ i, i ≠ km_root_key_id m → entry m' i = entry m i) ∧
  (entry m (km_root_key_id m) ≠ None → ∀ i, entry m' i = entry m i).
Proof.
  unfold load_or_create_root_keys, st_bind.
  destruct (store_get _ m) as [m1 [o|e]] eqn:Hg; [|by injection Hg as <- _; intros [= <- <-]].
  apply store_get_entry in Hg as [-> ->]. destruct (entry m (km_root_key_id m)) eqn:He.
  - unfold root_keys, st_bind, store_get, st_lift, st_err. intros Hs.
    destruct (ks_get _ _) as [[]|]; by injection Hs as <- _.
  - unfold draw. simpl. set (m1 := with_draws m (km_draws m + 1)).
    destruct (write_root_record _ None m1) as [m2 r2] eqn:Hw. unfold write_root_record in Hw.
    pose proof (store_put_space _ _ _ _ _ Hw) as Hsp.
    assert (Hcache : km_cache m2 = km_cache m).
    { unfold store_put in Hw. destruct (ks_put _ _ _). by injection Hw as <- <-. }
    assert (∀ i, i ≠ km_root_key_id m → entry m2 i = entry m i) as Hother.
    { intros i Hi. by apply (entry_put_other _ _ _ _ _ i) in Hw. }
    destruct r2; intros [= <- <-]; by split_and!.
Qed.

(** What is left after the roots were loaded and an entry of the session written. *)
Lemma create_entries m m1 m2 sid :
  namespaced m → entry m (session_key_id m sid) = None → same_space m m1 → same_space m1 m2 →
  (∀ i, i ≠ km_root_key_id m → entry m1 i = entry m i) →
  (entry m (km_root_key_id m) ≠ None → ∀ i, entry m1 i = entry m i) →
  (∀ i, i ≠ session_key_id m sid → entry m2 i = entry m1 i) →
  same_space m m2 ∧ (∀ x key, readable m x key → readable m2 x key) ∧
  (∀ x, x ≠ sid → entry m2 (session_key_id m x) = entry m (session_key_id m x)).
Proof.
  intros Hn Hnone Hs1 Hs2 Ho Hr He. pose proof (same_space_trans _ _ _ Hs1 Hs2) as Hs.
  assert (Hid : ∀ x, x ≠ sid → session_key_id m x ≠ session_key_id m sid)
    by (by intros x Hx ?%session_key_id_inj).
  split_and!; [done| |].
  - intros x key Hk. pose proof (Hr (readable_root _ _ _ Hk)) as Hall.
    pose proof (readable_stored _ _ _ Hk) as Hst. unfold key_stored in Hst.
    apply (readable_frame m); [done| | |done].
    + rewrite He; [apply Hall|]. intros ?. by eapply session_key_id_root.
    + rewrite He; [apply Hall|]. apply Hid. intros ->. congruence.
  - intros x Hx. rewrite He by auto. apply Ho. by apply session_key_id_root.
Qed.

(** Creating a key touches nothing but the entry of its session, and the root keys
    only when there were none. *)
Lemma create_frame m m' sid r :
  namespaced m → create_session_key sid m = (m', r) →
  same_space m m' ∧ (∀ x key, readable m x key → readable m' x key) ∧
  (∀ x, x ≠ sid → entry m' (session_key_id m x) = entry m (session_key_id m x)) ∧
  (∀ x key, km_cache m' !! x = Some key → km_cache m !! x = Some key ∨ readable m' x key).
Proof.
  intros Hn Hc. pose proof Hc as Hcreate.
  unfold create_session_key in Hc. unfold st_bind at 1 in Hc.
  destruct (store_get _ m) as [m0 [o|e]] eqn:Hg;
    [|injection Hg as <- _; injection Hc as <- <-; by split_and!; auto].
  apply store_get_entry in Hg as [-> ->].
  destruct (entry m (session_key_id m sid)) eqn:Hnone; [injection Hc as <- <-; by split_and!; auto|].
  unfold st_bind at 1 in Hc. destruct (load_or_create_root_keys m) as [m1 [rs|e]] eqn:Hl;
    apply load_roots_frame in Hl as (Hs1 & Hca & Ho & Hr);
    pose proof (λ m2, create_entries m m1 m2 sid Hn Hnone Hs1) as Hfr; cycle 1.
  { injection Hc as <- <-. destruct (Hfr m1) as (? & ? & ?); try done.
    split_and!; try done. rewrite Hca. auto. }
  unfold st_bind, draw, st_lift in Hc. simpl in Hc.
  set (m2 := with_draws _ _) in Hc. destruct (encrypt _ _ _ _) as [p|e] eqn:Hp; cycle 1.
  { injection Hc as <- <-. destruct (Hfr m2) as (? & ? & ?); try done.
    split_and!; try done. simpl. rewrite Hca. auto. }
  destruct (store_put _ _ m2) as [m3 r3] eqn:Hput.
  assert (Hca3 : km_cache m3 = km_cache m).
  { unfold store_put in Hput. destruct (ks_put _ _ _). injection Hput as <- _. done. }
  destruct (Hfr m3) as (Hs & Hrd & Hen); try done.
  { by apply store_put_space in Hput. }
  { intros i Hi. by apply (entry_put_other _ _ _ _ _ i) in Hput. }
  destruct r3 as [u|e]; [|injection Hc as <- <-; split_and!; try done; rewrite Hca3; auto].
  unfold cache_insert, st_modify, st_ret in Hc. injection Hc as <- <-.
  apply create_readable in Hcreate as (_ & _ & _ & key & Hkey & Hread); [|done].
  split_and!; [done| |done|].
  - intros x k Hk. eapply readable_frame; [| | |apply Hrd, Hk]; done.
  - intros x k. simpl. rewrite Hca3, lookup_insert. case_decide as Hx; [|auto].
    subst x. intros [= <-]. right. simpl in Hkey. rewrite lookup_insert_eq in Hkey. by simplify_eq.
Qed.

Lemma Inv_create_key t m m' sid r :
  has_creation t sid → create_session_key sid m = (m', r) → Inv t m →
  Inv t m' ∧ same_space m m' ∧
  (∀ id, r = Ok id → id = session_key_id m sid ∧ ∃ key, readable m' sid key).
Proof.
  intros Hj Hc Hi. pose proof (inv_namespaced _ _ Hi) as Hn.
  pose proof (create_frame _ _ _ _ Hn Hc) as (Hs & Hr & He & Hca). split_and!; [|done|].
  - eapply Inv_rekey; eauto.
    + intros x key Hk. destruct (Hca x key Hk); [|done]. by apply Hr, (inv_cache _ _ Hi).
    + intros x. unfold key_stored. rewrite (session_key_id_space _ _ _ Hs).
      destruct (decide (x = sid)) as [->|Hx]; [by right|]. rewrite He by done. apply (inv_owned _ _ Hi).
  - intros id ->. apply create_readable in Hc as (-> & _ & _ & key & _ & Hk); [|done]. eauto.
Qed.

Lemma same_space_destroy m m' sid r : destroy_session_key sid m = (m', r) → same_space m m'.
Proof.
  unfold destroy_session_key, store_delete. destruct (ks_delete _ _). by intros [= <- _].
Qed.

Lemma destroy_other m m' sid r i :
  destroy_session_key sid m = (m', r) → i ≠ session_key_id m sid → entry m' i = entry m i.
Proof.
  unfold destroy_session_key, store_delete. destruct (ks_delete _ _) as [k r'] eqn:Hk.
  intros [= <- <-] Hi. unfold entry. simpl. by eapply delete_other.
Qed.

Lemma Inv_destroy_key t m m' sid r :
  (has_session t sid → deleting t sid) → destroy_session_key sid m = (m', r) → Inv t m →
  Inv t m' ∧ same_space m m' ∧ (∀ u, r = Ok u → ¬ key_stored m' sid).
Proof.
  intros Hsd Hd Hi. unfold destroy_session_key, store_delete in Hd.
  destruct (ks_delete _ _) as [k r'] eqn:Hk. injection Hd as <- <-.
  set (m' := with_cache _ _).
  assert (He : ∀ i, i ≠ session_key_id m sid → entry m' i = entry m i)
    by (intros i Hne; unfold entry; simpl; by eapply delete_other).
  assert (Hr : ∀ x key, x ≠ sid → readable m x key → readable m' x key).
  { intros x key Hx. apply readable_frame; [done| |]; apply He.
    - intros ?. eapply session_key_id_root; [apply (inv_namespaced _ _ Hi)|]. eauto.
    - by intros ?%session_key_id_inj. }
  split_and!; [|done|].
  - apply (Inv_rekey t m); [done|..|exact Hi].
    + intros x Hx Hnd key. apply Hr. intros ->. by apply Hnd, Hsd.
    + intros x key. simpl. intros [Hx Hl]%lookup_delete_Some. apply Hr; [done|].
      by apply (inv_cache _ _ Hi).
    + intros x Hx. unfold key_stored in Hx. change (session_key_id m' x) with (session_key_id m x) in Hx.
      apply (inv_owned _ _ Hi). unfold key_stored.
      destruct (decide (x = sid)) as [->|Hne]; [|by rewrite <-He; [|intros ?%session_key_id_inj]].
      destruct r'; [apply delete_Ok in Hk|apply delete_Err in Hk as [Hk|Hk]];
        unfold entry in *; simpl in *; congruence.
  - intros u ->. apply delete_Ok in Hk. unfold key_stored, entry. simpl.
    change (session_key_id m' sid) with (session_key_id m sid). by rewrite Hk; intros Hn; apply Hn.
Qed.
End invariant.
