(* ===== verification/StorageOps.v ===== *)
(** * StorageOps: every operation of the storage keeps the invariant

    First what the primitives do (a statement, a transaction, an encryption), then
    what an append does to a history, then the operations one by one; at the end
    the steps of the storage as a transition system, in which any statement and any
    write to the key store may fail and the daemon may restart at any point. *)

From stdpp Require Import sorting list_numbers.
From S2P Require Import Prelude StateResult Text BTree Errors Json Wire Event.
From S2P Require Import StorageKeys StorageTables StorageDb StorageInv.

Section primitives.
Context `{StorageEnv} `{!StorageEnvLaws} {K : Type} `{KeyStore K} `{!KeyStoreLaws K}.
Implicit Types (t : Tables) (m : KeyManager K) (s : SqliteStorage K).

(** ** Primitives *)

(** Only the random source moved. *)
Definition same_keys m m' : Prop := m' = with_draws m (km_draws m').

Definition calm s s' : Prop := connection s' = connection s ∧ same_keys (keys s) (keys s').

(** A method that only touches the tables. *)
Definition tables_only {A} (f : SM (K := K) A) : Prop :=
  ∀ s s' r, f s = (s', r) → same_keys (keys s) (keys s').

Lemma same_keys_refl m : same_keys m m.
Proof. by destruct m. Qed.

Lemma same_keys_trans m1 m2 m3 : same_keys m1 m2 → same_keys m2 m3 → same_keys m1 m3.
Proof. unfold same_keys. intros -> ->. done. Qed.

End primitives.

(** Composes a chain of such steps. *)
Ltac keys_chain :=
  repeat match goal with
    | Hab : same_keys ?a ?b |- same_keys ?a ?c => first [exact Hab | apply (same_keys_trans a b c Hab); clear Hab]
    end.

Section effects.
Context `{StorageEnv} `{!StorageEnvLaws} {K : Type} `{KeyStore K} `{!KeyStoreLaws K}.
Implicit Types (t : Tables) (m : KeyManager K) (s : SqliteStorage K).
Local Abbreviation tables_only := (tables_only (K := K)).

Lemma calm_refl s : calm s s.
Proof. split; [done|apply same_keys_refl]. Qed.

Lemma calm_trans s1 s2 s3 : calm s1 s2 → calm s2 s3 → calm s1 s3.
Proof. intros [? ?] [? ?]. split; [congruence|by eapply same_keys_trans]. Qed.

Lemma same_keys_entry m m' i : same_keys m m' → entry m' i = entry m i.
Proof. by intros ->. Qed.

Lemma same_keys_space m m' : same_keys m m' → same_space m m'.
Proof. by intros ->. Qed.

Lemma same_keys_readable m m' sid key : same_keys m m' → readable m sid key → readable m' sid key.
Proof. intros ->. by apply readable_frame. Qed.

Lemma Inv_same_keys t m m' : same_keys m m' → Inv t m → Inv t m'.
Proof. intros ->. apply Inv_same_store; [done|done|]. simpl. auto. Qed.

Lemma SInv_calm s s' : calm s s' → SInv s → SInv s'.
Proof. intros [Ht Hk]. unfold SInv. rewrite Ht. by apply Inv_same_keys. Qed.

Hint Resolve same_keys_refl calm_refl : workbench.

Lemma statement_calm s s' r : statement s = (s', r) → calm s s'.
Proof.
  unfold statement. destruct (failures s); intros [= <- _]; [apply calm_refl|].
  split; [done|apply same_keys_refl].
Qed.

Lemma query_calm {A} (f : Tables → A) s s' r :
  query f s = (s', r) → calm s s' ∧ ∀ a, r = Ok a → a = f (connection s).
Proof.
  unfold query, st_bind. destruct (statement s) as [s1 [[]|e]] eqn:Hs; apply statement_calm in Hs.
  - intros [= <- <-]. split; [done|]. intros a [= <-]. by destruct Hs as [-> _].
  - intros [= <- <-]. split; [done|]. by intros a.
Qed.

Lemma execute_effect f s s' r :
  execute f s = (s', r) →
  same_keys (keys s) (keys s') ∧
  match r with
  | Ok _ => f (connection s) = Some (connection s')
  | Err _ => connection s' = connection s
  end.
Proof.
  unfold execute, st_bind. destruct (statement s) as [s1 [[]|e]] eqn:Hs;
    apply statement_calm in Hs as [Ht Hk]; [|by intros [= <- <-]].
  rewrite Ht. destruct (f (connection s)) eqn:Hf; by intros [= <- <-].
Qed.

Lemma execute_count_effect f s s' r :
  execute_count f s = (s', r) →
  same_keys (keys s) (keys s') ∧
  match r with
  | Ok n => f (connection s) = Some (connection s', n)
  | Err _ => connection s' = connection s
  end.
Proof.
  unfold execute_count, st_bind. destruct (statement s) as [s1 [[]|e]] eqn:Hs;
    apply statement_calm in Hs as [Ht Hk]; [|by intros [= <- <-]].
  rewrite Ht. destruct (f (connection s)) as [[]|] eqn:Hf; by intros [= <- <-].
Qed.

Lemma draw_keys n m m' r : draw (K := K) n m = (m', r) → same_keys m m'.
Proof. unfold draw. by intros [= <- _]. Qed.

Lemma encrypt_json_effect key sid object sequence kind v s s' r :
  encrypt_json key sid object sequence kind v s = (s', r) →
  calm s s' ∧ ∀ p, r = Ok p →
    decrypt p key (row_aad sid object sequence kind) = Ok (json_print v).
Proof.
  unfold encrypt_json, with_keys, draw, st_bind, st_lift. simpl. intros [= <- Hr].
  split; [done|]. intros p ->.
  eapply decrypt_encrypt in Hr as (? & _); [done|apply random_length].
Qed.

Lemma fresh_uuid_calm s s' r : fresh_uuid s = (s', r) → calm s s'.
Proof. unfold fresh_uuid, with_keys. by intros [= <- _]. Qed.

(** *** Methods that only touch the tables *)

Lemma tables_only_pure {A} (r : Result A StorageError) : tables_only (st_lift r).
Proof. intros s s' r' [= <- _]. apply same_keys_refl. Qed.

Lemma tables_only_ret {A} (a : A) : tables_only (st_ret a).
Proof. apply (tables_only_pure (Ok a)). Qed.

Lemma tables_only_err {A} (e : StorageError) : tables_only (st_err (A := A) e).
Proof. apply (tables_only_pure (Err e)). Qed.

Lemma tables_only_bind {A B} (f : SM A) (k : A → SM B) :
  tables_only f → (∀ a, tables_only (k a)) → tables_only (st_bind f k).
Proof.
  intros Hf Hk s s' r. unfold st_bind. destruct (f s) as [s1 [a|e]] eqn:Hs; apply Hf in Hs.
  - intros Hr. apply Hk in Hr. by eapply same_keys_trans.
  - by intros [= <- _].
Qed.

Lemma tables_only_map {A B} (f : A → SM B) l :
  (∀ a, tables_only (f a)) → tables_only (st_map f l).
Proof.
  intros Hf. induction l as [|x l IH]; simpl; [apply tables_only_ret|].
  apply tables_only_bind; [done|]. intros y. apply tables_only_bind; [done|].
  intros ys. apply tables_only_ret.
Qed.

Lemma tables_only_query {A} (f : Tables → A) : tables_only (query f).
Proof. by intros s s' r [[_ ?] _]%query_calm. Qed.

Lemma tables_only_execute f : tables_only (execute f).
Proof. by intros s s' r [? _]%execute_effect. Qed.

Lemma tables_only_execute_count f : tables_only (execute_count f).
Proof. by intros s s' r [? _]%execute_count_effect. Qed.

Lemma tables_only_encrypt key sid object sequence kind v :
  tables_only (encrypt_json key sid object sequence kind v).
Proof. by intros s s' r [[_ ?] _]%encrypt_json_effect. Qed.

End effects.

(** Closes goals of the form [tables_only f] along the structure of [f]. *)
Ltac tables_only :=
  repeat (intros; match goal with
    | |- tables_only (st_bind _ _) => apply tables_only_bind
    | |- tables_only (st_ret _) => apply tables_only_ret
    | |- tables_only (st_err _) => apply tables_only_err
    | |- tables_only (st_lift _) => apply tables_only_pure
    | |- tables_only (query _) => apply tables_only_query
    | |- tables_only (execute _) => apply tables_only_execute
    | |- tables_only (execute_count _) => apply tables_only_execute_count
    | |- tables_only (encrypt_json _ _ _ _ _ _) => apply tables_only_encrypt
    | |- tables_only (st_map _ _) => apply tables_only_map
    | |- tables_only (if ?b then _ else _) => destruct b
    | |- tables_only (match ?o with _ => _ end) => destruct o
    end).

#[export] Hint Resolve same_keys_refl calm_refl : workbench.

Section operations.
Context `{StorageEnv} `{!StorageEnvLaws} {K : Type} `{KeyStore K} `{!KeyStoreLaws K}.
Implicit Types (t : Tables) (m : KeyManager K) (s : SqliteStorage K).
Local Abbreviation tables_only := (tables_only (K := K)).

(** A transaction changes the tables as its body does, or not at all. *)
Lemma transaction_effect {A} (body : SM (bool * A)) s s' r :
  tables_only body → transaction body s = (s', r) →
  same_keys (keys s) (keys s') ∧
  match r with
  | Ok a => ∃ s0 s1 b, calm s s0 ∧ body s0 = (s1, Ok (b, a)) ∧
              connection s' = if (b : bool) then connection s1 else connection s
  | Err _ => connection s' = connection s
  end.
Proof.
  intros Hb. unfold transaction, st_bind.
  destruct (statement s) as [s0 [[]|e]] eqn:Hs; apply statement_calm in Hs as Hcalm; cycle 1.
  { intros [= <- <-]. by destruct Hcalm. }
  destruct Hcalm as [Ht Hk].
  destruct (body s0) as [s1 [[[] a]|e]] eqn:Hbody; pose proof (Hb _ _ _ Hbody) as Hk1.
  - destruct (statement s1) as [s2 [[]|e]] eqn:Hs2; apply statement_calm in Hs2 as [Ht2 Hk2];
      intros [= <- <-]; simpl; (split; [keys_chain|]); [|done].
    by exists s0, s1, true.
  - intros [= <- <-]. simpl. split; [by eapply same_keys_trans|]. by exists s0, s1, false.
  - intros [= <- <-]. simpl. split; [by eapply same_keys_trans|done].
Qed.

(** ** Appending *)

(** The tables after an event row was appended. *)
Definition appended t (input : EventInput) (row : EventRow) : Tables :=
  let t := with_events t (session_events t ++ [row]) in
  if touches_state (ei_kind input)
  then (update_session (uuid_text (ei_session_id input)) (apply_event_state input) t).1
  else t.

(** The row of an input: the next sequence of its session, sealed under the key. *)
Record row_of t (key : SecretKey) (input : EventInput) (row : EventRow) (ev : StoredEvent) : Prop := {
  ro_session : e_session_id row = uuid_text (ei_session_id input);
  ro_exists : session_row t (uuid_text (ei_session_id input)) ≠ None;
  ro_sequence : e_sequence row = (max_sequence t (uuid_text (ei_session_id input)) + 1)%Z;
  ro_bound : (e_sequence row ≤ i64_max)%Z;
  ro_kind : e_kind row = ei_kind input;
  ro_attempt : e_attempt_id row = uuid_text <$> ei_attempt_id input;
  ro_opens : decrypt_event key (ei_session_id input) row = Ok ev;
}.

(** The event an input becomes. *)
Definition persisted_as (input : EventInput) (sequence : N) : StoredEvent :=
  {| se_event_id := ei_event_id input; se_session_id := ei_session_id input;
     se_sequence := sequence; se_occurred_at := ei_occurred_at input; se_kind := ei_kind input;
     se_causation_request_id := ei_causation_request_id input;
     se_attempt_id := ei_attempt_id input; se_effect_class := ei_effect_class input;
     se_payload := ei_payload input |}.

Lemma parse_uuid_text u : parse_uuid (uuid_text u) = Ok u.
Proof. unfold parse_uuid. by rewrite uuid_roundtrip. Qed.

Lemma parse_time_text u : parse_time (time_text u) = Ok u.
Proof. unfold parse_time. by rewrite time_roundtrip. Qed.

Lemma parse_option_text (o : option Uuid) : parse_option parse_uuid (uuid_text <$> o) = Ok o.
Proof. destruct o; simpl; [by rewrite parse_uuid_text|done]. Qed.

(** What was sealed into a row is read back from it. *)
Lemma decrypt_event_row key input sequence key_id p :
  value_wf (ei_payload input) = true →
  decrypt p key (row_aad (ei_session_id input) (uuid_text (ei_event_id input)) sequence
                   (ei_kind input)) = Ok (json_print (ei_payload input)) →
  decrypt_event key (ei_session_id input) (event_row input sequence key_id p) =
    Ok (persisted_as input sequence).
Proof.
  intros Hv Hd. unfold decrypt_event. simpl.
  rewrite (proj2 (Z.leb_le 0 _)) by lia. rewrite N2Z.id, Hd, parse_uuid_text, parse_time_text.
  by rewrite !parse_option_text, read_value_printed.
Qed.

Lemma insert_event_row_inv row t t' :
  insert_event_row row t = Some t' →
  session_row t (e_session_id row) ≠ None ∧ existsb (event_conflict row) (session_events t) = false ∧
  t' = with_events t (session_events t ++ [row]).
Proof.
  unfold insert_event_row. destruct (session_row t _); [|done]. case_match eqn:Hc; [|done].
  intros [= <-]. by bool_to_prop.
Qed.

Lemma max_sequence_nonneg t sid : (0 ≤ max_sequence t sid)%Z.
Proof. unfold max_sequence. induction (e_sequence <$> events_of t sid); simpl; lia. Qed.

Lemma next_sequence_effect sid s s' r :
  next_sequence sid s = (s', r) →
  calm s s' ∧ ∀ n, r = Ok n → Z.of_N n = (max_sequence (connection s) (uuid_text sid) + 1)%Z.
Proof.
  unfold next_sequence, st_bind. destruct (query _ s) as [s1 [n|e]] eqn:Hq;
    apply query_calm in Hq as [Hc Hn]; [|intros [= <- <-]; by split].
  rewrite (Hn n eq_refl). pose proof (max_sequence_nonneg (connection s) (uuid_text sid)).
  case_match; intros [= <- <-]; (split; [done|]); [|done]. intros k [= <-]. lia.
Qed.

Lemma tables_only_next_sequence sid : tables_only (next_sequence sid).
Proof. by intros s s' r [[_ ?] _]%next_sequence_effect. Qed.

Lemma append_effect input key_id key s s' ev :
  value_wf (ei_payload input) = true →
  append_event_in_transaction input key_id key s = (s', Ok ev) →
  ∃ row, row_of (connection s) key input row ev ∧
    existsb (event_conflict row) (session_events (connection s)) = false ∧
    connection s' = appended (connection s) input row ∧
    ev = persisted_as input (Z.to_N (e_sequence row)).
Proof.
  intros Hv Ha. unfold append_event_in_transaction in Ha. break_state.
  apply next_sequence_effect in Hstep as [[Ht0 _] Hn]. specialize (Hn _ eq_refl).
  apply encrypt_json_effect in Hstep0 as [[Ht1 _] Hp]. specialize (Hp _ eq_refl).
  unfold insert_event in Hstep1.
  destruct (_ <=? i64_max)%Z eqn:Hb in Hstep1; [|done]. apply Z.leb_le in Hb.
  apply execute_effect in Hstep1 as [_ Hins]. apply insert_event_row_inv in Hins as (Hrow & Hcf & Ht2).
  rewrite Ht1, Ht0 in *. eexists. split_and!; [|done| |].
  - constructor; try done. simpl. by apply decrypt_event_row.
  - unfold appended. destruct (touches_state _).
    + apply execute_effect in Hstep2 as [_ [= Hup]]. by rewrite <-Hup, Ht2.
    + unfold st_ret in Hstep2. by injection Hstep2 as ->.
  - simpl. by rewrite N2Z.id.
Qed.

Lemma tables_only_append input key_id key : tables_only (append_event_in_transaction input key_id key).
Proof.
  unfold append_event_in_transaction, insert_event. apply tables_only_bind;
    [apply tables_only_next_sequence|]. tables_only.
Qed.

Lemma apply_event_identity input : same_identity (apply_event_state input).
Proof.
  intros r. unfold apply_event_state. repeat case_match; simpl; split_and!; try done.
  intros _. eexists. simpl. by rewrite parse_time_text.
Qed.

Lemma Inv_appended t m key input row ev :
  row_of t key input row ev → readable m (ei_session_id input) key →
  Inv t m → Inv (appended t input row) m.
Proof.
  intros Hr Hk Hi.
  assert (Inv (with_events t (session_events t ++ [row])) m) as Ht.
  { apply Inv_append; [| | | |done]; rewrite ?(ro_session _ _ _ _ _ Hr); try apply Hr.
    { rewrite (ro_attempt _ _ _ _ _ Hr). intros a. destruct (ei_attempt_id input); naive_solver. }
    intros sid Hsid _. apply uuid_text_inj in Hsid as <-. exists key, ev. split; [done|apply Hr]. }
  unfold appended. destruct (touches_state _); [|done].
  apply Inv_update_session; [apply apply_event_identity|done].
Qed.

Lemma appended_history t key input row ev sid events :
  row_of t key input row ev → history key sid t = Ok events →
  history key sid (appended t input row) =
    Ok (events ++ if decide (sid = ei_session_id input) then [ev] else []).
Proof.
  intros Hr Hh. unfold history.
  assert (events_of (appended t input row) (uuid_text sid) =
    events_of (with_events t (session_events t ++ [row])) (uuid_text sid)) as ->
    by (unfold appended; by destruct (touches_state _)).
  rewrite events_of_snoc, (ro_session _ _ _ _ _ Hr). case_decide as Hs.
  - subst sid. rewrite text_eq_refl. by apply try_collect_snoc, Hr.
  - rewrite (proj2 (text_eq_false _ _)) by (by intros ?%uuid_text_inj).
    by rewrite !app_nil_r.
Qed.

(** ** The operations *)

Definition input_ok (input : EventInput) : Prop := value_wf (ei_payload input) = true.

Lemma transaction_SInv {A} (body : SM (bool * A)) s s' r :
  tables_only body → SInv s →
  (∀ s0 s1 a, calm s s0 → body s0 = (s1, Ok (true, a)) → SInv s1) →
  transaction body s = (s', r) → SInv s'.
Proof.
  intros Hb Hs Hbody Ht. pose proof Ht as [Hk Hr]%transaction_effect; [|done]. unfold SInv in *.
  destruct r as [a|e]; [|rewrite Hr; by eapply Inv_same_keys].
  destruct Hr as (s0 & s1 & [] & Hc & Hb1 & ->); [|by eapply Inv_same_keys].
  pose proof (Hbody _ _ _ Hc Hb1) as Hi. apply Hb in Hb1. destruct Hc as [_ Hc].
  eapply Inv_same_store; [| | |exact Hi].
  - by rewrite Hb1, Hc, Hk.
  - intros i. by rewrite Hb1, Hc, Hk.
  - rewrite Hb1, Hc, Hk. simpl. auto.
Qed.

Lemma append_SInv input key_id key s s' ev :
  input_ok input → SInv s → readable (keys s) (ei_session_id input) key →
  append_event_in_transaction input key_id key s = (s', Ok ev) → SInv s'.
Proof.
  intros Hv Hs Hk Ha. pose proof (tables_only_append _ _ _ _ _ _ Ha) as Hsk.
  apply append_effect in Ha as (row & Hr & _ & Ht & _); [|done]. unfold SInv. rewrite Ht.
  eapply Inv_appended; [done|by eapply same_keys_readable|by eapply Inv_same_keys].
Qed.

Lemma appends_SInv events key_id key sid s s' evs :
  Forall (λ e, input_ok e ∧ ei_session_id e = sid) events →
  SInv s → readable (keys s) sid key →
  st_map (λ e, append_event_in_transaction e key_id key) events s = (s', Ok evs) → SInv s'.
Proof.
  intros Hev. revert s evs. induction Hev as [|e events [Hv He] Hev IH]; intros s evs Hs Hk; simpl.
  { by intros [= <- _]. }
  intros Hm. break_state.
  pose proof (append_SInv _ _ _ _ _ _ Hv Hs Hk Hstep) as Hs1.
  eapply IH; [done| |done]. eapply same_keys_readable; [|done].
  by apply tables_only_append in Hstep.
Qed.

(** The sequences an append hands out, and the histories it leaves. *)
Lemma appends_history events key_id key sid s s' evs h :
  Forall (λ e, input_ok e ∧ ei_session_id e = sid) events →
  SInv s → readable (keys s) sid key → history key sid (connection s) = Ok h →
  st_map (λ e, append_event_in_transaction e key_id key) events s = (s', Ok evs) →
  history key sid (connection s') = Ok (h ++ evs) ∧
  evs = imap (λ i e, persisted_as e (N.of_nat (length h + i + 1))) events ∧
  (Z.of_nat (length (h ++ evs)) ≤ Z.max (Z.of_nat (length h)) i64_max)%Z ∧
  (∀ x, x ≠ uuid_text sid →
     events_of (connection s') x = events_of (connection s) x ∧
     session_row (connection s') x = session_row (connection s) x) ∧
  command_outcomes (connection s') = command_outcomes (connection s).
Proof.
  intros Hev. revert s evs h. induction Hev as [|e events [Hv He] Hev IH]; intros s evs h Hs Hk Hh; simpl.
  { intros [= <- <-]. rewrite app_nil_r. split_and!; try done. lia. }
  intros Hm. break_state.
  pose proof (append_SInv _ _ _ _ _ _ Hv Hs Hk Hstep) as Hs1.
  assert (readable (keys s0) (ei_session_id e) key) as Hk1.
  { eapply same_keys_readable; [|done]. by apply tables_only_append in Hstep. }
  apply append_effect in Hstep as (row & Hr & _ & Ht & Ha); [|done].
  pose proof (appended_history _ _ _ _ _ _ _ Hr Hh) as Hh1. rewrite decide_True in Hh1 by done.
  rewrite <-Ht in Hh1. eapply IH in Hstep0 as (Hh2 & Hevs & Hlen & Hother & Hco); [|done..].
  assert (Hseq : e_sequence row = Z.of_nat (length h + 1)).
  { rewrite (ro_sequence _ _ _ _ _ Hr). unfold max_sequence. rewrite (inv_sequences _ _ Hs), max_seqZ.
    apply try_collect_length in Hh. rewrite Hh. lia. }
  rewrite <-app_assoc in Hh2. split_and!; [done| | | |].
  - f_equal.
    + rewrite Ha, Hseq. f_equal. simpl. lia.
    + rewrite Hevs. apply imap_ext. intros i x _. unfold compose. rewrite length_app. simpl.
      do 2 f_equal. lia.
  - rewrite <-app_assoc in Hlen. pose proof (ro_bound _ _ _ _ _ Hr).
    rewrite !length_app in *. simpl in *. lia.
  - intros x Hx. destruct (Hother x Hx) as [-> ->]. rewrite Ht. unfold appended.
    assert (events_of (with_events (connection s) (session_events (connection s) ++ [row])) x =
      events_of (connection s) x) as Heo.
    { rewrite events_of_snoc, (ro_session _ _ _ _ _ Hr), (proj2 (text_eq_false _ _)) by done.
      by rewrite app_nil_r. }
    destruct (touches_state _); [|by rewrite Heo].
    rewrite session_row_update by (intros r; apply apply_event_identity). split; [exact Heo|].
    change (session_row (with_events _ _) x) with (session_row (connection s) x).
    destruct (session_row (connection s) x) as [r|] eqn:Hrow; [|done]. simpl.
    apply session_row_Some in Hrow as [_ Hrow].
    by rewrite (proj2 (text_eq_false _ _)) by congruence.
  - rewrite Hco, Ht. unfold appended. by destruct (touches_state _).
Qed.

(** *** Methods that keep the invariant, whatever fails *)

Lemma keeps_calm {A} (f : SM A) : (∀ s s' r, f s = (s', r) → calm s s') → keeps SInv f.
Proof. intros Hf s Hs. destruct (f s) as [s' r] eqn:Hfs. by eapply SInv_calm; [eapply Hf|]. Qed.

Lemma keeps_query {A} (f : Tables → A) : keeps SInv (query f).
Proof. apply keeps_calm. by intros s s' r [? _]%query_calm. Qed.

Lemma keeps_fresh_uuid : keeps SInv fresh_uuid.
Proof. apply keeps_calm. apply fresh_uuid_calm. Qed.

Lemma keeps_session_key sid : keeps SInv (with_keys (session_key sid)).
Proof.
  intros s Hs. unfold with_keys. destruct (session_key sid (keys s)) as [m r] eqn:Hk.
  unfold SInv. simpl. by eapply Inv_session_key in Hk as (? & _).
Qed.

(** Statements on the tables the invariant does not mention. *)
Definition elsewhere t t' : Prop :=
  sessions t' = sessions t ∧ session_events t' = session_events t ∧
  session_creation_journal t' = session_creation_journal t ∧ deletion_journal t' = deletion_journal t.

Lemma keeps_execute_elsewhere f :
  (∀ t t', f t = Some t' → elsewhere t t') → keeps SInv (execute f).
Proof.
  intros Hf s Hs. destruct (execute f s) as [s' r] eqn:He. apply execute_effect in He as [Hk Hr].
  unfold SInv in *. simpl. apply (Inv_same_keys _ _ _ Hk). destruct r as [u|e]; [|by rewrite Hr].
  apply Hf in Hr as (? & ? & ? & ?). by eapply Inv_ext.
Qed.

Lemma keeps_execute_count_elsewhere f :
  (∀ t t' n, f t = Some (t', n) → elsewhere t t') → keeps SInv (execute_count f).
Proof.
  intros Hf s Hs. destruct (execute_count f s) as [s' r] eqn:He.
  apply execute_count_effect in He as [Hk Hr].
  unfold SInv in *. simpl. apply (Inv_same_keys _ _ _ Hk). destruct r as [u|e]; [|by rewrite Hr].
  apply Hf in Hr as (? & ? & ? & ?). by eapply Inv_ext.
Qed.

Lemma insert_outcome_elsewhere row t t' : insert_outcome row t = Some t' → elsewhere t t'.
Proof. unfold insert_outcome. case_match; [done|]. by intros [= <-]. Qed.

Lemma keeps_insert_port_command sid req record : keeps SInv (insert_port_command sid req record).
Proof. apply keeps_execute_elsewhere. apply insert_outcome_elsewhere. Qed.

(** What follows a read of the session key may rely on that key. *)
Lemma keeps_session_key_bind {B} sid (f : SecretKey → SM B) :
  (∀ key s, SInv s → readable (keys s) sid key → SInv (f key s).1) →
  keeps SInv (let! key := with_keys (session_key sid) in f key).
Proof.
  intros Hf s Hs. unfold st_bind, with_keys.
  destruct (session_key sid (keys s)) as [m r] eqn:Hk.
  pose proof (Inv_session_key _ _ _ _ _ Hk Hs) as (Hi & _ & _ & Hr).
  destruct r as [key|e]; [|done]. apply Hf; [done|]. by apply Hr.
Qed.

Lemma keeps_transaction {A} (body : SM (bool * A)) :
  tables_only body → keeps SInv body → keeps SInv (transaction body).
Proof.
  intros Hb Hk s Hs. destruct (transaction body s) as [s' r] eqn:Ht.
  eapply transaction_SInv in Ht; [done..|]. intros s0 s1 a Hc Hbody.
  specialize (Hk s0). rewrite Hbody in Hk. apply Hk. by eapply SInv_calm.
Qed.

Lemma transaction_append {A} (body : SM (bool * A)) sid key s :
  SInv s → readable (keys s) sid key → tables_only body →
  (∀ s0 s1 a, SInv s0 → readable (keys s0) sid key → body s0 = (s1, Ok (true, a)) → SInv s1) →
  SInv (transaction body s).1.
Proof.
  intros Hs Hk Hb Hbody. destruct (transaction body s) as [s' r] eqn:Ht.
  eapply transaction_SInv in Ht; [done..|]. intros s0 s1 a Hc. apply Hbody.
  - by eapply SInv_calm.
  - destruct Hc as [_ Hc]. by eapply same_keys_readable.
Qed.

Lemma keeps_stored_key_id sid : keeps SInv (stored_key_id sid).
Proof. apply keeps_bind; [apply keeps_query|]. intros. apply keeps_lift. Qed.

Hint Resolve keeps_query keeps_fresh_uuid keeps_session_key keeps_insert_port_command
  keeps_stored_key_id : workbench.

(** Follows the structure of a method. *)
Ltac keeps :=
  repeat (intros; match goal with
    | |- keeps SInv (st_bind _ _) => apply keeps_bind
    | |- keeps SInv (if ?b then _ else _) => destruct b
    | |- keeps SInv (match ?o with _ => _ end) => destruct o
    | |- keeps SInv (st_for _ _) => apply keeps_for
    | |- keeps SInv (st_map _ _) => apply keeps_map
    end); intros; eauto with workbench.

Lemma keeps_lookup_stored_command scope req : keeps SInv (lookup_stored_command scope req).
Proof. apply keeps_query. Qed.

Lemma keeps_lookup_port_command sid req : keeps SInv (lookup_port_command sid req).
Proof. unfold lookup_port_command, lookup_stored_command. keeps. Qed.

Hint Resolve keeps_lookup_stored_command keeps_lookup_port_command : workbench.

Lemma tables_only_insert_port_command sid req record : tables_only (insert_port_command sid req record).
Proof. apply tables_only_execute. Qed.

Lemma tables_only_lookup_stored_command scope req : tables_only (lookup_stored_command scope req).
Proof. apply tables_only_query. Qed.

Lemma keeps_record_port_command sid req record : keeps SInv (record_port_command sid req record).
Proof. unfold record_port_command. keeps. Qed.

Lemma keeps_record_command_outcome scope req sid method parameters outcome :
  keeps SInv (record_command_outcome scope req sid method parameters outcome).
Proof.
  unfold record_command_outcome. keeps. apply keeps_transaction; [|keeps].
  apply tables_only_bind; [apply tables_only_lookup_stored_command|]. intros []; [tables_only|].
  apply tables_only_bind; [apply tables_only_insert_port_command|]. tables_only.
Qed.

Lemma keeps_lookup_command_outcome sid req method parameters :
  keeps SInv (lookup_command_outcome sid req method parameters).
Proof. unfold lookup_command_outcome. keeps. Qed.

Lemma keeps_load_session sid : keeps SInv (load_session sid).
Proof. unfold load_session. keeps. Qed.

Lemma keeps_load_sessions : keeps SInv load_sessions.
Proof. unfold load_sessions. keeps. apply keeps_load_session. Qed.

Lemma keeps_replay sid after : keeps SInv (replay sid after).
Proof. unfold replay. keeps. Qed.

Lemma keeps_store_spend sid spend : keeps SInv (store_session_spend_usd_micros sid spend).
Proof.
  unfold store_session_spend_usd_micros. keeps.
  intros s Hs. destruct (execute_count _ s) as [s' r] eqn:He.
  apply execute_count_effect in He as [Hk Hr]. unfold SInv in *. simpl. apply (Inv_same_keys _ _ _ Hk).
  destruct r as [u|e]; [|by rewrite Hr]. injection Hr as <- _. by apply Inv_update_session.
Qed.

(** *** Appends and commands *)

Lemma keeps_append_event input : input_ok input → keeps SInv (append_event input).
Proof.
  intros Hv. apply keeps_bind; [apply keeps_stored_key_id|]. intros key_id.
  apply keeps_session_key_bind. intros key s Hs Hk. apply (transaction_append _ _ _ _ Hs Hk).
  - apply tables_only_bind; [apply tables_only_append|]. tables_only.
  - intros s0 s1 a Hs0 Hk0 Hb. break_state. by eapply append_SInv.
Qed.

(** A batch for one session. *)
Lemma batch_session first events :
  existsb (λ e, bool_decide (ei_session_id e ≠ ei_session_id first)) events = false →
  Forall input_ok events →
  Forall (λ e, input_ok e ∧ ei_session_id e = ei_session_id first) events.
Proof.
  intros Hex Hok. apply Forall_forall. intros e He. split; [by eapply Forall_forall in Hok|].
  apply dec_stable. intros Hne. apply not_true_iff_false in Hex. apply Hex, existsb_exists.
  exists e. split; [by apply list_elem_of_In|]. by apply bool_decide_eq_true.
Qed.

Lemma keeps_append_events events : Forall input_ok events → keeps SInv (append_events events).
Proof.
  intros Hok. destruct events as [|first events]; [apply keeps_err|]. unfold append_events.
  destruct (existsb _ _) eqn:Hex; [apply keeps_err|]. pose proof (batch_session _ _ Hex Hok) as Hb.
  apply keeps_bind; [apply keeps_stored_key_id|]. intros key_id.
  apply keeps_session_key_bind. intros key s Hs Hk. apply (transaction_append _ _ _ _ Hs Hk).
  - apply tables_only_bind; [apply tables_only_map; intros; apply tables_only_append|]. tables_only.
  - intros s0 s1 a Hs0 Hk0 Hbody. apply st_bind_Ok in Hbody as (s2 & evs & Hmap & [= <- _]).
    by eapply appends_SInv.
Qed.

Lemma keeps_commit_port_command req record input :
  input_ok input → keeps SInv (commit_port_command req record input).
Proof.
  intros Hv. unfold commit_port_command. apply keeps_bind; [apply keeps_lift|]. intros _.
  case_match; [apply keeps_err|]. apply keeps_bind; [apply keeps_stored_key_id|]. intros key_id.
  apply keeps_session_key_bind. intros key s Hs Hk. apply (transaction_append _ _ _ _ Hs Hk).
  - apply tables_only_bind; [apply tables_only_lookup_stored_command|]. intros []; [tables_only|].
    apply tables_only_bind; [apply tables_only_append|]. intros ev.
    apply tables_only_bind; [apply tables_only_insert_port_command|]. tables_only.
  - intros s0 s1 a Hs0 Hk0 Hb. apply st_bind_Ok in Hb as (s2 & existing & Hl & Hb).
    pose proof (query_calm _ _ _ _ Hl) as [Hc _].
    destruct existing; [by case_match; break_state|]. break_state.
    eapply append_SInv in Hstep; [|done|by eapply SInv_calm|].
    + pose proof (keeps_insert_port_command (Some (ei_session_id input)) req record s3 Hstep) as Hi.
      by rewrite Hstep0 in Hi.
    + destruct Hc as [_ Hc]. by eapply same_keys_readable.
Qed.

Lemma keeps_commit_command_events req method parameters outcome events :
  Forall input_ok events → keeps SInv (commit_command_events req method parameters outcome events).
Proof.
  intros Hok. destruct events as [|first events]; [apply keeps_err|]. unfold commit_command_events.
  destruct (_ || existsb _ _) eqn:Hex; [apply keeps_err|]. apply keeps_bind; [apply keeps_lift|].
  intros _. assert (Forall (λ e, input_ok e ∧ ei_session_id e = ei_session_id first) (first :: events)) as Hb.
  { bool_to_prop. apply batch_session; [|done].
    match goal with Hx : existsb _ _ = false |- _ => apply not_true_iff_false in Hx; rename Hx into Hx1 end.
    apply not_true_iff_false. intros (e & He & Hne)%existsb_exists. apply Hx1, existsb_exists.
    exists e. split; [done|]. by rewrite Hne. }
  apply keeps_bind; [apply keeps_stored_key_id|]. intros key_id.
  apply keeps_session_key_bind. intros key s Hs Hk. apply (transaction_append _ _ _ _ Hs Hk).
  - apply tables_only_bind; [apply tables_only_lookup_stored_command|]. intros []; [tables_only|].
    apply tables_only_bind; [apply tables_only_map; intros; apply tables_only_append|]. intros evs.
    apply tables_only_bind; [apply tables_only_insert_port_command|]. tables_only.
  - intros s0 s1 a Hs0 Hk0 Hbody. apply st_bind_Ok in Hbody as (s2 & existing & Hl & Hbody).
    pose proof (query_calm _ _ _ _ Hl) as [Hc _].
    destruct existing; [by case_match; break_state|].
    apply st_bind_Ok in Hbody as (s3 & evs & Hmap & Hbody). break_state.
    eapply appends_SInv in Hmap; [|done|by eapply SInv_calm|].
    + match goal with Hi : insert_port_command ?a ?b ?c _ = _ |- _ =>
        pose proof (keeps_insert_port_command a b c s3 Hmap) as Hi'; by rewrite Hi in Hi' end.
    + destruct Hc as [_ Hc]. by eapply same_keys_readable.
Qed.

Lemma keeps_commit_command_event req method parameters outcome event :
  input_ok event → keeps SInv (commit_command_event req method parameters outcome event).
Proof.
  intros Hv. apply keeps_bind; [apply keeps_commit_command_events; by repeat constructor|]. keeps.
Qed.

Lemma bind_SInv {A B} (f : SM A) (k : A → SM B) s :
  SInv (f s).1 → (∀ a, keeps SInv (k a)) → SInv (st_bind f k s).1.
Proof. intros Hf Hk. unfold st_bind. destruct (f s) as [s' [a|e]]; [by apply Hk|done]. Qed.

Lemma keeps_delete_export export_id :
  keeps SInv (execute_count (λ t, Some (delete_export export_id t))).
Proof. apply keeps_execute_count_elsewhere. by intros t t' n [= <- _]. Qed.

Lemma keeps_commit_export_command export_id req hash outcome event :
  input_ok event → keeps SInv (commit_export_command export_id req hash outcome event).
Proof.
  intros Hv. unfold commit_export_command. case_match; [apply keeps_err|].
  apply keeps_bind; [apply keeps_lift|]. intros _.
  apply keeps_bind; [apply keeps_stored_key_id|]. intros key_id.
  apply keeps_session_key_bind. intros key s Hs Hk.
  apply bind_SInv; [|keeps].
  apply (transaction_append _ _ _ _ Hs Hk).
  - apply tables_only_bind; [tables_only|]. intros st. case_match; [tables_only|].
    apply tables_only_bind; [apply tables_only_lookup_stored_command|]. intros []; [tables_only|].
    apply tables_only_bind; [apply tables_only_append|]. intros ev.
    apply tables_only_bind; [apply tables_only_insert_port_command|]. tables_only.
  - intros s0 s1 a Hs0 Hk0 Hb. apply st_bind_Ok in Hb as (s2 & st & Hq & Hb).
    pose proof (query_calm _ _ _ _ Hq) as [Hc _]. case_match; [done|].
    apply st_bind_Ok in Hb as (s3 & existing & Hl & Hb).
    pose proof (query_calm _ _ _ _ Hl) as [Hc2 _]. pose proof (calm_trans _ _ _ Hc Hc2) as Hc3.
    pose proof (SInv_calm _ _ Hc3 Hs0) as Hs3. destruct Hc3 as [_ Hc3].
    destruct existing.
    + case_match; [done|]. break_state.
      pose proof (keeps_delete_export (uuid_text export_id) s3 Hs3) as Hi. by rewrite Hstep in Hi.
    + break_state. eapply append_SInv in Hstep; [|done|done|by eapply same_keys_readable].
      match goal with Hi : insert_port_command ?a ?b ?c _ = _ |- _ =>
        pose proof (keeps_insert_port_command a b c _ Hstep) as Hi'; rewrite Hi in Hi'; simpl in Hi' end.
      pose proof (keeps_delete_export (uuid_text export_id) _ Hi') as Hi.
      rewrite Hstep1 in Hi. case_match; by break_state.
Qed.

(** *** Creation *)

Lemma keeps_creation_by_request req : keeps SInv (creation_journal_by_request req).
Proof. unfold creation_journal_by_request. keeps. Qed.

Lemma keeps_creation_by_session sid : keeps SInv (creation_journal_by_session sid).
Proof. unfold creation_journal_by_session. keeps. Qed.

Lemma delete_journal_SInv p sid s s' r :
  execute_count (λ t, Some (delete_creation p t)) s = (s', r) →
  (∀ r, p r = true → c_session_id r = uuid_text sid) →
  SInv s → (has_session (connection s) sid ∨ ¬ key_stored (keys s) sid) → SInv s'.
Proof.
  intros He Hp Hs Hor. apply execute_count_effect in He as [Hk Hr]. unfold SInv in *.
  apply (Inv_same_keys _ _ _ Hk). destruct r as [u|e]; [|by rewrite Hr]. injection Hr as <- _.
  by eapply Inv_delete_creation.
Qed.

Lemma keeps_reconcile_creation journal : keeps SInv (reconcile_creation journal).
Proof.
  intros s Hs. unfold reconcile_creation. unfold st_bind at 1, with_keys at 1, st_gets. simpl.
  case_match; [done|]. unfold st_bind at 1. destruct s as [t f m]. simpl.
  destruct (query _ _) as [s1 r1] eqn:Hq. apply query_calm in Hq as [Hc Hrow].
  pose proof (SInv_calm _ _ Hc Hs) as Hs1. destruct Hc as [Ht1 _]. simpl in *.
  destruct r1 as [committed|e]; [|done]. specialize (Hrow _ eq_refl).
  assert (Hdel : ∀ s2, SInv s2 →
    (has_session (connection s2) (cj_session_id journal) ∨ ¬ key_stored (keys s2) (cj_session_id journal)) →
    SInv ((let! removed := execute_count (λ t, Some (delete_creation (journal_matches journal) t)) in
           if (removed =? 1)%N then st_ret tt else st_err SE_StorageUnavailable) s2).1).
  { intros s2 Hs2 Hor. apply bind_SInv; [|keeps]. destruct (execute_count _ s2) eqn:He.
    eapply delete_journal_SInv; [exact He| |done|done]. intros c Hr.
    unfold journal_matches in Hr. bool_to_prop. by apply text_eq_true. }
  destruct (session_row t (uuid_text (cj_session_id journal))) as [row|] eqn:Hsr.
  - subst committed. simpl. unfold st_bind at 1. destruct (text_eq _ _); [|done]. simpl.
    apply Hdel; [done|]. left. unfold has_session. rewrite Ht1, Hsr. done.
  - subst committed. simpl. unfold st_bind at 1, with_keys.
    destruct (destroy_session_key _ _) as [m' r'] eqn:Hd.
    eapply Inv_destroy_key in Hd as (Hi & _ & Hgone); [| |exact Hs1].
    2:{ unfold has_session. rewrite Ht1, Hsr. done. }
    destruct r' as [u|e]; [|done]. apply Hdel; [done|]. right. by eapply Hgone.
Qed.

Lemma keeps_reconcile_by_request req : keeps SInv (reconcile_creation_by_request req).
Proof.
  unfold reconcile_creation_by_request. apply keeps_bind; [apply keeps_creation_by_request|].
  intros []; [apply keeps_reconcile_creation|apply keeps_ret].
Qed.

Lemma keeps_reconcile_create_retry sid req hash : keeps SInv (reconcile_create_retry sid req hash).
Proof.
  unfold reconcile_create_retry. pose proof keeps_reconcile_creation.
  apply keeps_bind; [apply keeps_creation_by_request|]. intros j1.
  apply keeps_bind; [keeps|]. intros _.
  apply keeps_bind; [apply keeps_creation_by_session|]. keeps.
Qed.

Lemma keeps_resume_session_creations : keeps SInv resume_session_creations.
Proof. unfold resume_session_creations. pose proof keeps_reconcile_creation. keeps. Qed.

Definition creation_ok (input : CreateSession) : Prop :=
  value_wf (cs_configuration_snapshot input) = true ∧ value_wf (cs_lock_snapshot input) = true ∧
  value_wf (cs_initial_event_payload input) = true.

(** The sealed snapshots of a session. *)
Lemma snapshot_opens key sid object kind v p :
  value_wf v = true → decrypt p key (row_aad sid object 0 kind) = Ok (json_print v) →
  decrypt_session_json key sid object kind p = Ok v.
Proof. intros Hv Hd. unfold decrypt_session_json. rewrite Hd. by apply read_value_printed. Qed.

Lemma commit_created_SInv input hash event_id c l e key s :
  creation_ok input → SInv s → readable (keys s) (cs_session_id input) key →
  decrypt c key (row_aad (cs_session_id input) "configuration" 0 "configuration_snapshot")
    = Ok (json_print (cs_configuration_snapshot input)) →
  decrypt l key (row_aad (cs_session_id input) "lock" 0 "session_lock")
    = Ok (json_print (cs_lock_snapshot input)) →
  decrypt e key (row_aad (cs_session_id input) (uuid_text event_id) 1 "session_created")
    = Ok (json_print (cs_initial_event_payload input)) →
  SInv (commit_created_session input hash (session_key_id (keys s) (cs_session_id input))
          event_id c l e s).1.
Proof.
  intros (Hcw & Hlw & Hew) Hs Hk Hc Hl He.
  unfold commit_created_session. destruct (transaction _ s) as [s' r] eqn:Htx.
  eapply transaction_SInv in Htx; [done|unfold insert_event; tables_only|done|].
  intros s0 s1 a Hcalm Hb. pose proof (SInv_calm _ _ Hcalm Hs) as Hs0.
  assert (readable (keys s0) (cs_session_id input) key) as Hk0
    by (eapply same_keys_readable; [apply Hcalm|done]).
  assert (session_key_id (keys s) (cs_session_id input) =
    session_key_id (keys s0) (cs_session_id input)) as Hid
    by (symmetry; apply session_key_id_space, same_keys_space, Hcalm).
  rewrite Hid in Hb. clear Htx Hid Hcalm s Hs Hk s' r.
  break_state. apply execute_effect in Hstep as [Hk1 Hins].
  eapply Inv_insert_session in Hins as (Hi1 & Hh1 & He1 & _); [|done|done|done|exact Hk0| |exact Hs0].
  2:{ split_and!; simpl; [eexists; by eapply (snapshot_opens _ _ _ _ _ _ Hcw)|
        eexists; by eapply (snapshot_opens _ _ _ _ _ _ Hlw)|by exists None]. }
  unfold insert_event in Hstep0. simpl in Hstep0.
  apply execute_effect in Hstep0 as [Hk2 Hins]. apply insert_event_row_inv in Hins as (Hrow & _ & Ht2).
  set (ev := {| ei_event_id := event_id; ei_session_id := cs_session_id input;
         ei_occurred_at := cs_occurred_at input; ei_kind := "session_created";
         ei_causation_request_id := Some (cs_request_id input); ei_attempt_id := None;
         ei_effect_class := None; ei_payload := cs_initial_event_payload input |}).
  eapply (Inv_append _ _ (event_row ev 1 _ e)) in Hi1; [|exact Hrow| |done|].
  2:{ simpl. unfold max_sequence. by rewrite He1. }
  2:{ intros x Hx _. apply uuid_text_inj in Hx as <-. exists key, (persisted_as ev 1).
      split; [done|]. by apply (decrypt_event_row key ev). }
  apply execute_effect in Hstep1 as [Hk3 Hins].
  pose proof (insert_outcome_elsewhere _ _ _ Hins) as Hel.
  assert (SInv s3) as Hi3.
  { unfold SInv. apply (Inv_same_keys _ (keys s0)); [keys_chain|].
    destruct Hel as (? & ? & ? & ?). eapply Inv_ext; [done..|]. by rewrite Ht2. }
  eapply (delete_journal_SInv _ (cs_session_id input)) in Hstep2; [| |done|].
  - case_match; [|done]. by break_state.
  - intros r Hr. bool_to_prop. by apply text_eq_true.
  - left. destruct Hel as (Hse & _). unfold has_session, session_row in *. by rewrite Hse, Ht2.
Qed.

Lemma keeps_mark_creation input hash key_id : keeps SInv (mark_creation_key_created input hash key_id).
Proof.
  unfold mark_creation_key_created. apply keeps_bind; [|keeps]. intros s Hs.
  destruct (execute_count _ s) as [s' r] eqn:He. apply execute_count_effect in He as [Hk Hr].
  unfold SInv in *. simpl. apply (Inv_same_keys _ _ _ Hk).
  destruct r as [u|e]; [|by rewrite Hr]. injection Hr as <- _.
  apply Inv_update_creation; [|done]. intros r. split_and!; try done. simpl. right. left.
Qed.

Lemma mark_creation_keys input hash key_id s s' r :
  mark_creation_key_created input hash key_id s = (s', r) → same_keys (keys s) (keys s').
Proof.
  unfold mark_creation_key_created. intros Hm.
  assert (tables_only (mark_creation_key_created (K := K) input hash key_id)) as Hto
    by (unfold mark_creation_key_created; tables_only). by eapply Hto.
Qed.

(** Sealing the snapshots and committing, once the key is readable. *)
Lemma seal_and_commit input hash key s :
  creation_ok input → SInv s → readable (keys s) (cs_session_id input) key →
  SInv ((let! configuration := encrypt_json key (cs_session_id input) "configuration" 0
           "configuration_snapshot" (cs_configuration_snapshot input) in
         let! lock := encrypt_json key (cs_session_id input) "lock" 0 "session_lock"
           (cs_lock_snapshot input) in
         let! event_id := fresh_uuid in
         let! event := encrypt_json key (cs_session_id input) (uuid_text event_id) 1
           "session_created" (cs_initial_event_payload input) in
         commit_created_session input hash (session_key_id (keys s) (cs_session_id input))
           event_id configuration lock event) s).1.
Proof.
  intros Hok Hs Hk. unfold st_bind at 1.
  destruct (encrypt_json _ _ _ _ _ _ s) as [s1 [c|e]] eqn:E1;
    apply encrypt_json_effect in E1 as [C1 P1]; [|by eapply SInv_calm].
  unfold st_bind at 1. destruct (encrypt_json _ _ _ _ _ _ s1) as [s2 [l|e]] eqn:E2;
    apply encrypt_json_effect in E2 as [C2 P2]; pose proof (calm_trans _ _ _ C1 C2) as C12;
    [|by eapply SInv_calm].
  unfold st_bind at 1. destruct (fresh_uuid s2) as [s3 [u|e]] eqn:E3; apply fresh_uuid_calm in E3;
    pose proof (calm_trans _ _ _ C12 E3) as C13; [|by eapply SInv_calm].
  unfold st_bind at 1. destruct (encrypt_json _ _ _ _ _ _ s3) as [s4 [ev|e]] eqn:E4;
    apply encrypt_json_effect in E4 as [C4 P4]; pose proof (calm_trans _ _ _ C13 C4) as C14;
    [|by eapply SInv_calm].
  rewrite <-(session_key_id_space _ (keys s4)) by apply same_keys_space, C14.
  eapply commit_created_SInv; [done|by eapply SInv_calm| |by apply P1|by apply P2|by apply P4].
  eapply same_keys_readable; [apply C14|done].
Qed.

Lemma finish_create_SInv input hash key_id s :
  creation_ok input → SInv s → has_creation (connection s) (cs_session_id input) →
  SInv (finish_create_session input hash key_id s).1.
Proof.
  intros Hok Hs Hj. unfold finish_create_session. unfold st_bind at 1, with_keys at 1.
  destruct (create_session_key _ _) as [m r] eqn:Hc.
  eapply Inv_create_key in Hc as (Hi & Hsp & Hid); [|done|exact Hs].
  destruct r as [id|e]; [|done]. destruct (Hid id eq_refl) as [-> _].
  case_match; [done|]. unfold st_bind at 1.
  destruct (mark_creation_key_created _ _ _ _) as [s1 r1] eqn:Hm.
  match type of Hm with mark_creation_key_created ?a ?b ?c ?s0 = _ =>
    pose proof (keeps_mark_creation a b c s0 Hi) as Hs1 end. rewrite Hm in Hs1. simpl in Hs1.
  apply mark_creation_keys in Hm. destruct r1 as [u|e]; [|done].
  unfold st_bind at 1, with_keys at 1. destruct (session_key _ _) as [m2 r2] eqn:Hsk.
  pose proof (Inv_session_key _ _ _ _ _ Hsk Hs1) as (Hi2 & Hsp2 & _ & Hk2).
  destruct r2 as [key|e]; [|done].
  set (s2 := {| connection := connection s1; failures := failures s1; keys := m2 |}).
  replace (session_key_id (keys s) (cs_session_id input))
    with (session_key_id (keys s2) (cs_session_id input)); [apply seal_and_commit; [done|done|by apply Hk2]|].
  simpl. rewrite (session_key_id_space _ _ _ Hsp2). simpl in Hm.
  rewrite (session_key_id_space _ _ _ (same_keys_space _ _ Hm)). by apply session_key_id_space.
Qed.

Lemma keeps_create_session input : creation_ok input → keeps SInv (create_session input).
Proof.
  intros Hok. unfold create_session. apply keeps_bind; [apply keeps_lookup_port_command|].
  intros [record|]; [keeps|].
  apply keeps_bind; [apply keeps_reconcile_create_retry|]. intros _ s Hs.
  unfold st_bind at 1, with_keys at 1, st_gets. simpl. destruct s as [t f m]. simpl.
  unfold st_bind at 1. destruct (execute _ _) as [s1 r1] eqn:He.
  apply execute_effect in He as [Hk1 Hr1]. simpl in *. destruct r1 as [u|e].
  2:{ unfold SInv. simpl. rewrite Hr1. by eapply Inv_same_keys. }
  eapply (Inv_insert_creation _ _ m) in Hr1 as (Hi1 & Hj1 & _); [|done|done|done|exact Hs].
  eapply Inv_same_keys in Hi1; [|exact Hk1].
  apply bind_SInv.
  - unfold st_try. pose proof (finish_create_SInv input
      (canonical_hash (cs_request_parameters input)) (session_key_id m (cs_session_id input)) s1 Hok Hi1 Hj1) as Hf.
    by destruct (finish_create_session _ _ _ _).
  - intros [outcome|e]; [apply keeps_ret|]. apply keeps_bind; [|keeps].
    intros s2 Hs2. unfold st_try. pose proof (keeps_reconcile_by_request (cs_request_id input) s2 Hs2) as Hrec.
    by destruct (reconcile_creation_by_request _ s2).
Qed.

(** *** Deletion *)

Lemma keeps_ensure_no_pending sid : keeps SInv (ensure_no_pending_export sid).
Proof. unfold ensure_no_pending_export. keeps. Qed.

Lemma keeps_replay_tombstone sid req hash : keeps SInv (replay_deletion_tombstone sid req hash).
Proof. unfold replay_deletion_tombstone. keeps. Qed.

Lemma commit_deletion_SInv sid did req s :
  SInv s → deleting (connection s) sid → ¬ key_stored (keys s) sid →
  SInv (commit_deletion sid did req s).1.
Proof.
  intros Hs Hd Hk. unfold commit_deletion. destruct (transaction _ s) as [s' r] eqn:Htx.
  eapply transaction_SInv in Htx; [done|tables_only|done|].
  clear Htx s' r. intros s0 s1 a Hc Hb. pose proof (SInv_calm _ _ Hc Hs) as Hs0.
  destruct Hc as [Ht0 Hk0]. break_state.
  apply query_calm in Hstep as [[Ht1 Hk1] _].
  apply execute_effect in Hstep0 as [Hk2 [= Ht2]].
  apply execute_effect in Hstep1 as [Hk3 Hdel].
  apply execute_effect in Hstep2 as [Hk4 [= Ht4]].
  apply execute_effect in Hstep3 as [Hk5 [= Ht5]].
  assert (Hi : Inv (connection s3) (keys s)).
  { rewrite <-Ht2, Ht1, Ht0. by eapply Inv_ext; [| | | |exact Hs]. }
  eapply Inv_delete_session in Hdel as [Hi4 _]; [|by left| |exact Hi].
  - unfold SInv. rewrite <-Ht5, <-Ht4. apply (Inv_same_keys _ (keys s)); [keys_chain|].
    by eapply Inv_ext; [| | | |exact Hi4].
  - rewrite <-Ht2, Ht1, Ht0. exact Hd.
Qed.

Lemma keeps_finish_deletion sid : keeps SInv (finish_deletion sid).
Proof.
  unfold finish_deletion. apply keeps_bind; [apply keeps_ensure_no_pending|]. intros _ s Hs.
  unfold st_bind at 1. destruct (query _ s) as [s1 r1] eqn:Hq. apply query_calm in Hq as [Hc Hr].
  pose proof (SInv_calm _ _ Hc Hs) as Hs1. destruct Hc as [Ht _].
  destruct r1 as [[row|]|e]; [|done|done]. specialize (Hr _ eq_refl).
  assert (deleting (connection s1) sid) as Hd by (unfold deleting; rewrite Ht, <-Hr; done).
  unfold st_bind at 1, st_lift. destruct (parse_uuid _) as [did|e]; [|done].
  unfold st_bind at 1, with_keys. destruct (destroy_session_key _ _) as [m' r'] eqn:Hdk.
  eapply Inv_destroy_key in Hdk as (Hi & _ & Hgone); [|done|exact Hs1].
  destruct r' as [u|e]; [|done]. apply commit_deletion_SInv; [done|done|by eapply Hgone].
Qed.

(** The event row of an input, inserted by itself. *)
Lemma insert_event_SInv input sequence key_id key p s s' u :
  input_ok input → SInv s → readable (keys s) (ei_session_id input) key →
  Z.of_N sequence = (max_sequence (connection s) (uuid_text (ei_session_id input)) + 1)%Z →
  decrypt p key (row_aad (ei_session_id input) (uuid_text (ei_event_id input)) sequence
                   (ei_kind input)) = Ok (json_print (ei_payload input)) →
  insert_event input sequence key_id p s = (s', Ok u) →
  SInv s' ∧ has_session (connection s') (ei_session_id input) ∧ same_keys (keys s) (keys s').
Proof.
  intros Hv Hs Hk Hseq Hp Hins. unfold insert_event in Hins. case_match; [|done].
  apply execute_effect in Hins as [Hsk Hins].
  apply insert_event_row_inv in Hins as (Hrow & _ & Ht).
  assert (Inv (connection s') (keys s)) as Hi.
  { rewrite Ht. apply Inv_append; [done|done| | |done].
    { simpl. intros a. destruct (ei_attempt_id input); naive_solver. }
    intros x Hx _.
    apply uuid_text_inj in Hx as <-. exists key, (persisted_as input sequence).
    split; [done|]. by apply decrypt_event_row. }
  split_and!; [by eapply Inv_same_keys| |done]. unfold has_session. by rewrite Ht.
Qed.

Lemma journal_deletion_SInv sid did req event_id at_time actor key_id key s :
  SInv s → readable (keys s) sid key →
  SInv (journal_deletion sid did req event_id at_time actor key_id key s).1.
Proof.
  intros Hs Hk. apply (transaction_append _ _ _ _ Hs Hk).
  { apply tables_only_bind; [apply tables_only_next_sequence|]. unfold insert_event. tables_only. }
  intros s0 s1 a Hs0 Hk0 Hb. break_state.
  apply next_sequence_effect in Hstep as [C1 Hseq]. specialize (Hseq _ eq_refl).
  apply encrypt_json_effect in Hstep0 as [C2 Hp]. specialize (Hp _ eq_refl).
  pose proof (calm_trans _ _ _ C1 C2) as C12.
  set (ev := {| ei_event_id := event_id; ei_session_id := sid; ei_occurred_at := at_time;
    ei_kind := "session_deletion_requested"; ei_causation_request_id := Some req;
    ei_attempt_id := None; ei_effect_class := None;
    ei_payload := VObject [("actor", VString actor); ("deletion_id", VString (uuid_text did))] |}).
  eapply (insert_event_SInv ev) in Hstep1 as (Hs3 & Hh3 & _);
    [|done|by eapply SInv_calm|eapply same_keys_readable; [apply C12|done]| |exact Hp].
  2:{ destruct C12 as [-> _]. done. }
  apply execute_effect in Hstep2 as [K2 Hins].
  eapply Inv_insert_deletion in Hins; [|done|done|exact Hh3|exact Hs3].
  apply execute_effect in Hstep3 as [K3 [= Ht]]. unfold SInv. rewrite <-Ht.
  apply Inv_update_session; [by intros r|].
  eapply Inv_same_keys; [exact K3|]. by eapply Inv_same_keys.
Qed.

Lemma keeps_request_deletion sid did req at_time actor :
  keeps SInv (request_deletion sid did req at_time actor).
Proof.
  unfold request_deletion. pose proof (keeps_finish_deletion sid) as Hfin.
  apply keeps_bind; [apply keeps_replay_tombstone|]. intros [summary|]; [keeps|].
  apply keeps_bind; [apply keeps_ensure_no_pending|]. intros _.
  apply keeps_bind; [keeps|]. intros row. apply keeps_bind; [keeps|]. intros state.
  case_match; [keeps|]. apply keeps_bind; [keeps|]. intros [recorded|]; [keeps|].
  apply keeps_bind; [keeps|]. intros key_id. apply keeps_session_key_bind. intros key s Hs Hk.
  unfold st_bind at 1. destruct (fresh_uuid s) as [s1 r1] eqn:Hf. apply fresh_uuid_calm in Hf.
  pose proof (SInv_calm _ _ Hf Hs) as Hs1. destruct r1 as [event_id|e]; [|done].
  apply bind_SInv; [|intros; done]. apply journal_deletion_SInv; [done|].
  eapply same_keys_readable; [apply Hf|done].
Qed.

Lemma keeps_resume_deletions : keeps SInv resume_deletions.
Proof. unfold resume_deletions. pose proof keeps_finish_deletion. keeps. Qed.

Lemma keeps_run_retention now days : keeps SInv (run_retention now days).
Proof. unfold run_retention. pose proof keeps_request_deletion. keeps. Qed.

Lemma keeps_recover_uncertain at_time : keeps SInv (recover_uncertain_attempts at_time).
Proof.
  unfold recover_uncertain_attempts, recover_attempt. keeps. by apply keeps_append_event.
Qed.
End operations.
