(* ===== verification/StorageProps.v ===== *)
(** * StorageProps: what the encrypted storage guarantees

    [reachable] is the storage as a transition system: any operation, with any of
    its statements refused, a restart that forgets the cached keys, and a key store
    that becomes available or unavailable. The theorems are about its states: the
    invariant, append and replay, commands that take effect once, deletions and
    creations that a restart completes, attempts that a restart settles, and pages
    that list every session once. *)

From stdpp Require Import sorting list_numbers.
From S2P Require Import Prelude StateResult Text BTree Errors Json Wire Event.
From S2P Require Import StorageKeys StorageTables StorageDb StorageInv StorageOps.

Inductive Operation : Type :=
| OpCreate (input : CreateSession)
| OpAppend (input : EventInput)
| OpAppendAll (events : list EventInput)
| OpPortCommand (request_id : Uuid) (record : StoredCommandRecord) (input : EventInput)
| OpCommand (request_id : Uuid) (method : string) (parameters outcome : Value)
    (events : list EventInput)
| OpExportCommand (export_id request_id : Uuid) (parameter_hash : string) (outcome : Value)
    (event : EventInput)
| OpRecordPort (session_id : option Uuid) (request_id : Uuid) (record : StoredCommandRecord)
| OpRecord (scope : string) (request_id : Uuid) (session_id : option Uuid) (method : string)
    (parameters outcome : Value)
| OpSpend (session_id : Uuid) (spend : N)
| OpLoad (session_id : Uuid)
| OpLoadAll
| OpReplay (session_id : Uuid) (after : N)
| OpRecover (occurred_at : OffsetDateTime)
| OpDelete (session_id deletion_id request_id : Uuid) (occurred_at : OffsetDateTime) (actor : string)
| OpResumeDeletions
| OpRetention (now : OffsetDateTime) (days : option N)
| OpResumeCreations.

Section properties.
Context `{StorageEnv} `{!StorageEnvLaws} {K : Type} `{KeyStore K} `{!KeyStoreLaws K}.
Implicit Types (t : Tables) (m : KeyManager K) (s : SqliteStorage K).

(** The values an operation carries are JSON values. *)
Definition op_ok (op : Operation) : Prop :=
  match op with
  | OpCreate input => creation_ok input
  | OpAppend input | OpPortCommand _ _ input | OpExportCommand _ _ _ _ input => input_ok input
  | OpAppendAll events | OpCommand _ _ _ _ events => Forall input_ok events
  | _ => True
  end.

Definition run (op : Operation) s : SqliteStorage K :=
  match op with
  | OpCreate input => (create_session input s).1
  | OpAppend input => (append_event input s).1
  | OpAppendAll events => (append_events events s).1
  | OpPortCommand req record input => (commit_port_command req record input s).1
  | OpCommand req method parameters outcome events =>
      (commit_command_events req method parameters outcome events s).1
  | OpExportCommand id req hash outcome event => (commit_export_command id req hash outcome event s).1
  | OpRecordPort sid req record => (record_port_command sid req record s).1
  | OpRecord scope req sid method parameters outcome =>
      (record_command_outcome scope req sid method parameters outcome s).1
  | OpSpend sid spend => (store_session_spend_usd_micros sid spend s).1
  | OpLoad sid => (load_session sid s).1
  | OpLoadAll => (load_sessions s).1
  | OpReplay sid after => (replay sid after s).1
  | OpRecover at_time => (recover_uncertain_attempts at_time s).1
  | OpDelete sid did req at_time actor => (request_deletion sid did req at_time actor s).1
  | OpResumeDeletions => (resume_deletions s).1
  | OpRetention now days => (run_retention now days s).1
  | OpResumeCreations => (resume_session_creations s).1
  end.

Definition with_keys_of s m : SqliteStorage K :=
  {| connection := connection s; failures := failures s; keys := m |}.

(** A new database, on a store without session keys in its namespace. *)
Definition opened (store : K) (storage_id : Uuid) (location : string) (draws : N) : SqliteStorage K :=
  {| connection := empty_tables; failures := []; keys := for_storage store storage_id location draws |}.

Inductive step : SqliteStorage K → SqliteStorage K → Prop :=
| step_run op s : op_ok op → step s (run op s)
| step_failures s l : step s {| connection := connection s; failures := l; keys := keys s |}
| step_restart s : step s (with_keys_of s (reopened (keys s)))
| step_store s k :
    (∀ i, ks_entry k i = entry (keys s) i) → step s (with_keys_of s (with_store (keys s) k)).

Inductive reachable : SqliteStorage K → Prop :=
| reachable_opened store storage_id location draws :
    (∀ sid, ¬ key_stored (keys (opened store storage_id location draws)) sid) →
    reachable (opened store storage_id location draws)
| reachable_step s s' : reachable s → step s s' → reachable s'.

Lemma for_storage_namespaced (store : K) storage_id location draws :
  namespaced (for_storage store storage_id location draws).
Proof.
  unfold namespaced, for_storage. simpl km_root_key_id. simpl km_session_key_prefix.
  by rewrite starts_with_app_app.
Qed.

Lemma opened_SInv store storage_id location draws :
  (∀ sid, ¬ key_stored (keys (opened store storage_id location draws)) sid) →
  SInv (opened store storage_id location draws).
Proof.
  intros Hk. constructor; simpl; try done; try apply NoDup_nil_2; try by (intros ? ?%elem_of_nil).
  - by intros r a ?%elem_of_nil.
  - apply for_storage_namespaced.
  - intros sid Hs. by destruct (Hk sid).
Qed.

Lemma run_SInv op s : op_ok op → SInv s → SInv (run op s).
Proof.
  destruct op; simpl; intros Hok.
  - by apply keeps_create_session.
  - by apply keeps_append_event.
  - by apply keeps_append_events.
  - by apply keeps_commit_port_command.
  - by apply keeps_commit_command_events.
  - by apply keeps_commit_export_command.
  - apply keeps_record_port_command.
  - apply keeps_record_command_outcome.
  - apply keeps_store_spend.
  - apply keeps_load_session.
  - apply keeps_load_sessions.
  - apply keeps_replay.
  - apply keeps_recover_uncertain.
  - apply keeps_request_deletion.
  - apply keeps_resume_deletions.
  - apply keeps_run_retention.
  - apply keeps_resume_session_creations.
Qed.

Lemma step_SInv s s' : step s s' → SInv s → SInv s'.
Proof.
  destruct 1 as [op s Hok|s l|s|s k Hk]; intros Hs.
  - by apply run_SInv.
  - exact Hs.
  - eapply Inv_same_store; [| | |exact Hs]; done.
  - eapply Inv_same_store; [| | |exact Hs]; try done. simpl. auto.
Qed.

Lemma reachable_SInv s : reachable s → SInv s.
Proof. induction 1; [by apply opened_SInv|by eapply step_SInv]. Qed.

(** ** Undisturbed executions *)

Lemma statement_ok s : failures s = [] → statement s = (s, Ok tt).
Proof. unfold statement. by intros ->. Qed.

Lemma query_ok {A} (f : Tables → A) s : failures s = [] → query f s = (s, Ok (f (connection s))).
Proof. intros Hf. unfold query, st_bind. by rewrite statement_ok. Qed.

Lemma execute_ok f s t :
  failures s = [] → f (connection s) = Some t → execute f s = (set_tables s t, Ok tt).
Proof. intros Hf Ht. unfold execute, st_bind. rewrite statement_ok by done. by rewrite Ht. Qed.

Lemma execute_count_ok f s t n :
  failures s = [] → f (connection s) = Some (t, n) → execute_count f s = (set_tables s t, Ok n).
Proof. intros Hf Ht. unfold execute_count, st_bind. rewrite statement_ok by done. by rewrite Ht. Qed.

Lemma transaction_ok {A} (body : SM (bool * A)) s s' a :
  failures s = [] → body s = (s', Ok (true, a)) → failures s' = [] →
  transaction body s = (s', Ok a).
Proof.
  intros Hf Hb Hf'. unfold transaction, st_bind. by rewrite statement_ok, Hb, statement_ok.
Qed.

Lemma session_key_cached sid m m' key : session_key sid m = (m', Ok key) → km_cache m' !! sid = Some key.
Proof.
  unfold session_key. destruct (km_cache m !! sid) as [k|] eqn:Hk; [by intros [= <- <-]|].
  intros Hs. break_state. destruct a as [encoded|]; [|done]. break_state.
  unfold cache_insert, st_modify in *. simplify_eq. simpl. apply lookup_insert_eq.
Qed.

Lemma with_session_key_cached sid s key :
  km_cache (keys s) !! sid = Some key → with_keys (session_key sid) s = (s, Ok key).
Proof. intros Hk. unfold with_keys, session_key. rewrite Hk. by destruct s. Qed.

(** ** Histories *)

Lemma seqZ_sorted (l : list EventRow) a n :
  e_sequence <$> l = seqZ a n → StronglySorted (λ x y, e_sequence x < e_sequence y)%Z l.
Proof.
  revert a n. induction l as [|x l IH]; intros a n Heq; [constructor|].
  assert (0 < n)%Z as Hn.
  { destruct (decide (0 < n)%Z); [done|]. rewrite seqZ_nil in Heq by lia. done. }
  rewrite seqZ_cons, fmap_cons in Heq by done. injection Heq as Hx Hl.
  constructor; [by eapply IH|]. apply Forall_forall. intros y Hy.
  assert (e_sequence y ∈ e_sequence <$> l) as Hin by by apply list_elem_of_fmap_2.
  rewrite (Hl : e_sequence <$> l = _), elem_of_seqZ in Hin. lia.
Qed.

Lemma StronglySorted_filterb {A} (R : relation A) (p : A → bool) l :
  StronglySorted R l → StronglySorted R (List.filter p l).
Proof.
  induction 1 as [|x l Hl IH Hx]; simpl; [constructor|]. destruct (p x); [|done].
  constructor; [done|]. apply Forall_forall. intros y [Hy _]%elem_of_filterb.
  by eapply Forall_forall in Hx.
Qed.

(** Rows in the order of their sequences stay where they are. *)
Lemma merge_sort_sorted l :
  StronglySorted (λ x y, e_sequence x < e_sequence y)%Z l → merge_sort by_sequence l = l.
Proof.
  intros Hl. apply (StronglySorted_unique_strong by_sequence).
  - intros x1 x2 Hx1 Hx2 H12 H21. rewrite merge_sort_Permutation in Hx1. unfold by_sequence in *.
    clear -Hl Hx1 Hx2 H12 H21. induction Hl as [|y l Hl IH Hy]; [by apply elem_of_nil in Hx1|].
    rewrite Forall_forall in Hy. apply elem_of_cons in Hx1 as [->|Hx1], Hx2 as [->|Hx2]; auto.
    + pose proof (Hy _ Hx2). lia.
    + pose proof (Hy _ Hx1). lia.
  - assert (Transitive by_sequence) by (unfold by_sequence; intros ? ? ?; lia).
    assert (Total by_sequence) by (unfold by_sequence; intros ? ?; lia).
    apply StronglySorted_merge_sort; apply _.
  - clear -Hl. induction Hl as [|x l Hl IH Hx]; constructor; [done|].
    eapply Forall_impl; [exact Hx|]. unfold by_sequence. lia.
  - by rewrite merge_sort_Permutation.
Qed.

Lemma try_collect_filterb {A B E} (f : A → Result B E) (p : A → bool) (q : B → bool) l ys :
  (∀ x y, x ∈ l → f x = Ok y → p x = q y) → try_collect f l = Ok ys →
  try_collect f (List.filter p l) = Ok (List.filter q ys).
Proof.
  intros Hpq Hl%try_collect_Ok. apply try_collect_Ok.
  induction Hl as [|x y l ys Hxy Hl IH]; simpl; [constructor|].
  rewrite (Hpq x y) by (done || left). destruct (q y); [constructor; [done|]|];
    apply IH; intros x' y' Hx'; apply Hpq; by right.
Qed.

Lemma decrypt_event_sequence key sid row ev :
  decrypt_event key sid row = Ok ev →
  (0 ≤ e_sequence row)%Z ∧ se_sequence ev = Z.to_N (e_sequence row) ∧
  se_session_id ev = sid ∧ se_kind ev = e_kind row.
Proof.
  unfold decrypt_event. destruct (0 <=? e_sequence row)%Z eqn:Hz; [|done]. apply Z.leb_le in Hz.
  intros Hd. break_results. by simplify_eq.
Qed.

(** What a replay reads, when the key is at hand. *)
Lemma replay_history sid after key events s :
  SInv s → failures s = [] → km_cache (keys s) !! sid = Some key →
  history key sid (connection s) = Ok events → (Z.of_N after ≤ i64_max)%Z →
  replay sid after s = (s, Ok (List.filter (λ e, after <? se_sequence e)%N events)).
Proof.
  intros Hs Hf Hk Hh Ha. unfold replay. rewrite (proj2 (Z.leb_le _ _) Ha). simpl.
  unfold st_bind at 1. rewrite (with_session_key_cached _ _ key) by done.
  unfold st_bind. rewrite query_ok by done. unfold st_lift. f_equal.
  rewrite merge_sort_sorted.
  - eapply try_collect_filterb; [|exact Hh]. intros row ev _ Hev.
    apply decrypt_event_sequence in Hev as (Hz & -> & _). apply eq_true_iff_eq.
    rewrite Z.ltb_lt, N.ltb_lt. lia.
  - apply StronglySorted_filterb. eapply seqZ_sorted, inv_sequences, Hs.
Qed.

(** ** The invariant *)

(** C21: In every state the storage can reach, whatever was refused on the way: the
    history of a session is numbered 1, 2, 3, ... without gaps, every event belongs
    to a session, a stored session key belongs to a session or to a creation that is
    journaled, and a session that is not being deleted has a key under which its
    snapshots and its whole history open. *)
Theorem storage_invariant s :
  reachable s →
  let t := connection s in
  (∀ sid, e_sequence <$> events_of t sid = seqZ 1 (Z.of_nat (length (events_of t sid)))) ∧
  (∀ r, r ∈ session_events t → session_row t (e_session_id r) ≠ None) ∧
  (∀ sid, key_stored (keys s) sid → has_session t sid ∨ has_creation t sid) ∧
  (∀ sid r, session_row t (uuid_text sid) = Some r → ¬ deleting t sid →
     ∃ key events, readable (keys s) sid key ∧ history key sid t = Ok events ∧
       snapshots_open key sid r).
Proof. intros Hr%reachable_SInv. split_and!; apply Hr. Qed.

(** ** Append and replay *)

(** The key an operation works with stays at hand. *)
Lemma tables_only_cached {A} (f : SM A) s s' r sid key :
  tables_only f → f s = (s', r) → km_cache (keys s) !! sid = Some key →
  km_cache (keys s') !! sid = Some key.
Proof. intros Hf Hs. apply Hf in Hs as ->. done. Qed.

Lemma live_history s sid :
  SInv s → has_session (connection s) sid → ¬ deleting (connection s) sid →
  ∃ key events, readable (keys s) sid key ∧ history key sid (connection s) = Ok events.
Proof.
  intros Hs Hh Hd. unfold has_session in Hh. destruct (session_row _ _) as [r|] eqn:Hr; [|done].
  destruct (inv_live _ _ Hs sid r Hr Hd) as (key & events & ? & ? & _). eauto.
Qed.

Lemma history_session s sid key events :
  SInv s → history key sid (connection s) = Ok events → events ≠ [] → has_session (connection s) sid.
Proof.
  intros Hs Hh Hne. apply try_collect_length in Hh.
  destruct (events_of (connection s) (uuid_text sid)) as [|r l] eqn:He; [by destruct events|].
  assert (r ∈ events_of (connection s) (uuid_text sid)) as [Hin Heq]%elem_of_events_of by (rewrite He; left).
  unfold has_session. rewrite <-Heq. by apply (inv_foreign _ _ Hs) in Hin.
Qed.

Lemma stored_key_id_calm sid s s' r : stored_key_id sid s = (s', r) → calm s s'.
Proof.
  unfold stored_key_id, st_bind, st_lift. destruct (query _ s) as [s1 [a|e]] eqn:Hq;
    apply query_calm in Hq as [Hc _]; by intros [= <- _].
Qed.

(** The shape of an append: read the key, then a transaction. *)
Lemma keyed_transaction {A} sid (body : string → SecretKey → SM (bool * A)) s s' r :
  SInv s → (∀ key_id key, tables_only (body key_id key)) →
  (let! key_id := stored_key_id sid in
   let! key := with_keys (session_key sid) in transaction (body key_id key)) s = (s', r) →
  match r with
  | Err _ => connection s' = connection s
  | Ok a => ∃ key_id key s0 s1 b,
      SInv s0 ∧ connection s0 = connection s ∧ readable (keys s0) sid key ∧ readable (keys s) sid key ∧
      body key_id key s0 = (s1, Ok (b, a)) ∧
      connection s' = (if (b : bool) then connection s1 else connection s) ∧
      km_cache (keys s') !! sid = Some key
  end.
Proof.
  intros Hs Hto Ha. unfold st_bind at 1 in Ha.
  destruct (stored_key_id sid s) as [s1 r1] eqn:E1. apply stored_key_id_calm in E1 as C1.
  destruct r1 as [key_id|e]; [|injection Ha as <- <-; apply C1].
  unfold st_bind at 1, with_keys in Ha. destruct (session_key sid (keys s1)) as [m2 r2] eqn:E2.
  pose proof (Inv_session_key _ _ _ _ _ E2 (SInv_calm _ _ C1 Hs)) as (Hi2 & Hsp & Hent & Hk2).
  destruct r2 as [key|e]; [|injection Ha as <- <-; apply C1].
  apply session_key_cached in E2. specialize (Hk2 _ eq_refl).
  set (s2 := {| connection := connection s1; failures := failures s1; keys := m2 |}) in *.
  pose proof (transaction_effect _ _ _ _ (Hto key_id key) Ha) as [Hk3 Hres].
  destruct r as [a|e]; [|rewrite Hres; apply C1]. destruct Hres as (s3 & s4 & b & C3 & Hbody & Hconn).
  exists key_id, key, s3, s4, b. destruct C1 as [Ht1 Hk1]. split_and!; try done.
  - by eapply SInv_calm.
  - destruct C3 as [-> _]. exact Ht1.
  - eapply same_keys_readable; [apply C3|done].
  - apply (readable_frame m2); [|..|done]; rewrite ?Hent; rewrite Hk1 in *; try done.
    destruct Hsp. split; by symmetry.
  - rewrite Hconn. destruct b; [done|exact Ht1].
  - by rewrite Hk3.
Qed.

(** C23: Events that were appended to a session are replayed: after a successful append
    the session's history is what it was, followed by the events in order with the
    next sequences, a replay from any cursor yields the part after the cursor, and no
    other session changed. An append that fails changes nothing. *)
Theorem append_replay s s' sid events r :
  reachable s → has_session (connection s) sid → ¬ deleting (connection s) sid →
  Forall (λ e, input_ok e ∧ ei_session_id e = sid) events →
  append_events events s = (s', r) →
  match r with
  | Err _ => connection s' = connection s
  | Ok persisted =>
      ∃ key before,
        readable (keys s) sid key ∧ history key sid (connection s) = Ok before ∧
        persisted = imap (λ i e, persisted_as e (N.of_nat (length before + i + 1))) events ∧
        (failures s' = [] → ∀ after, (Z.of_N after ≤ i64_max)%Z →
           replay sid after s' =
             (s', Ok (List.filter (λ e, after <? se_sequence e)%N (before ++ persisted)))) ∧
        (∀ x, x ≠ sid → events_of (connection s') (uuid_text x) = events_of (connection s) (uuid_text x))
  end.
Proof.
  intros Hr%reachable_SInv Hh Hd Hev Ha.
  destruct (live_history s sid Hr Hh Hd) as (key & before & Hkey & Hbefore).
  assert (SInv s') as Hs'.
  { replace s' with (append_events events s).1 by (by rewrite Ha). apply keeps_append_events; [|done].
    eapply Forall_impl; [done|]. by intros e [? _]. }
  destruct events as [|first events]; [by injection Ha as <- <-|]. unfold append_events in Ha.
  destruct (existsb _ _) eqn:Hex; [by injection Ha as <- <-|].
  assert (ei_session_id first = sid) as Hfirst by (by inversion Hev as [|? ? []]).
  rewrite Hfirst in Ha.
  apply (keyed_transaction sid (λ key_id key, let! persisted := st_map
    (λ e, append_event_in_transaction e key_id key) (first :: events) in st_ret (true, persisted)))
    in Ha; [|done|].
  2:{ intros. apply tables_only_bind; [apply tables_only_map; intros; apply tables_only_append|].
      intros; apply tables_only_ret. }
  destruct r as [persisted|e]; [|done].
  destruct Ha as (key_id & key' & s0 & s1 & b & Hi0 & Ht0 & Hk0 & Hks & Hbody & Hconn & Hcache).
  pose proof (readable_unique _ _ _ _ Hkey Hks) as <-.
  apply st_bind_Ok in Hbody as (s2 & evs & Hmap & Hret). injection Hret as <- <- <-.
  eapply appends_history in Hmap as (Hh2 & Hevs & _ & Hother & _); [|done|done|done|by rewrite Ht0].
  exists key, before. split_and!; [done|done|done| |].
  - intros Hf after Ha. apply replay_history with (key := key); [done|done|done| |done]. by rewrite Hconn.
  - intros x Hx. rewrite Hconn, <-Ht0. apply Hother. by intros ?%uuid_text_inj.
Qed.

(** ** Commands take effect once *)

Definition command_record (method : string) (parameters outcome : Value) : StoredCommandRecord :=
  {| cr_method := method; cr_parameter_hash := canonical_hash parameters;
     cr_outcome := json_print outcome |}.

(** The guards of [commit_command_events]. *)
Definition well_scoped (request_id sid : Uuid) (method : string) (parameters outcome : Value)
    (events : list EventInput) : Prop :=
  ∃ first rest, events = first :: rest ∧ ei_session_id first = sid ∧
    method ≠ "session.create" ∧ ei_causation_request_id first = Some request_id ∧
    existsb (λ e, bool_decide (ei_session_id e ≠ ei_session_id first)
                  || bool_decide (ei_causation_request_id e = None)) events = false ∧
    validate_port_command (command_record method parameters outcome) = Ok tt.

(** The body of the transaction of a command. *)
Definition command_body (request_id sid : Uuid) (record : StoredCommandRecord) (outcome : Value)
    (events : list EventInput) (key_id : string) (key : SecretKey)
    : SM (K := K) (bool * CommandEventsOutcome) :=
  let! existing := lookup_stored_command (command_scope (Some sid)) request_id in
  match existing with
  | Some existing =>
      if same_command existing record
      then let! value := st_lift (read_value (cr_outcome existing)) in
           st_ret (false, CES_Replay value)
      else st_err SE_RequestConflict
  | None =>
      let! persisted := st_map (λ e, append_event_in_transaction e key_id key) events in
      let! _ := insert_port_command (Some sid) request_id record in
      st_ret (true, CES_Recorded persisted outcome)
  end.

Lemma commit_command_events_scoped req sid method parameters outcome events s :
  well_scoped req sid method parameters outcome events →
  commit_command_events req method parameters outcome events s =
  (let! key_id := stored_key_id sid in
   let! key := with_keys (session_key sid) in
   transaction (command_body req sid (command_record method parameters outcome) outcome events
                  key_id key)) s.
Proof.
  intros (first & rest & -> & <- & Hm & Hc & Hex & Hv). unfold commit_command_events.
  unfold text_eq. rewrite (bool_decide_eq_false_2 (method = _)) by done.
  rewrite (bool_decide_eq_false_2 (_ ≠ _)) by (rewrite Hc; auto). simpl orb.
  rewrite Hex. unfold st_bind at 1, st_lift. fold (command_record method parameters outcome). by rewrite Hv.
Qed.

Lemma tables_only_command_body req sid record outcome events key_id key :
  tables_only (command_body req sid record outcome events key_id key).
Proof.
  apply tables_only_bind; [apply tables_only_query|]. intros [existing|].
  - case_match; [|apply tables_only_err]. apply tables_only_bind; [apply tables_only_pure|].
    intros; apply tables_only_ret.
  - apply tables_only_bind; [apply tables_only_map; intros; apply tables_only_append|]. intros evs.
    apply tables_only_bind; [apply tables_only_execute|]. intros; apply tables_only_ret.
Qed.

(** A recorded command answers every repetition. *)
Lemma command_repeated req sid record method parameters outcome events key s value :
  failures s = [] → has_session (connection s) sid → km_cache (keys s) !! sid = Some key →
  command_of_row <$> outcome_row (connection s) (command_scope (Some sid)) (uuid_text req) = Some record →
  read_value (cr_outcome record) = Ok value →
  well_scoped req sid method parameters outcome events →
  commit_command_events req method parameters outcome events s =
  (s, if same_command record (command_record method parameters outcome)
      then Ok (CES_Replay value) else Err SE_RequestConflict).
Proof.
  intros Hf Hh Hk Hrow Hval Hw. rewrite (commit_command_events_scoped _ sid) by done.
  unfold stored_key_id, st_bind at 1 2. rewrite query_ok by done. unfold has_session in Hh.
  destruct (session_row _ _) as [row|]; [|done]. simpl. unfold st_bind at 1.
  rewrite (with_session_key_cached _ _ key) by done.
  unfold transaction, st_bind. rewrite statement_ok by done.
  unfold command_body, lookup_stored_command, st_bind. rewrite query_ok by done. rewrite Hrow.
  destruct (same_command _ _); unfold st_lift, st_err, st_ret; rewrite ?Hval; by destruct s.
Qed.

(** C24: A command takes effect once: a first commit appends all its events and records its
    outcome, or changes nothing; afterwards the same request with the same method and
    parameters answers the recorded outcome, with others it is a conflict, and neither
    changes anything, whatever events it carries. *)
Theorem command_takes_effect_once s s' sid req method parameters outcome events r :
  reachable s → has_session (connection s) sid → ¬ deleting (connection s) sid →
  Forall input_ok events → value_wf outcome = true →
  well_scoped req sid method parameters outcome events →
  commit_command_events req method parameters outcome events s = (s', r) →
  match r with
  | Err _ | Ok (CES_Replay _) => connection s' = connection s
  | Ok (CES_Recorded persisted recorded) =>
      recorded = outcome ∧
      (∃ key before, history key sid (connection s) = Ok before ∧
         history key sid (connection s') = Ok (before ++ persisted) ∧
         persisted = imap (λ i e, persisted_as e (N.of_nat (length before + i + 1))) events) ∧
      (failures s' = [] → ∀ method' parameters' outcome' events',
         well_scoped req sid method' parameters' outcome' events' →
         commit_command_events req method' parameters' outcome' events' s' =
         (s', if text_eq method method' && text_eq (canonical_hash parameters) (canonical_hash parameters')
              then Ok (CES_Replay outcome) else Err SE_RequestConflict))
  end.
Proof.
  intros Hr%reachable_SInv Hh Hd Hev Hov Hw Ha.
  destruct (live_history s sid Hr Hh Hd) as (key & before & Hkey & Hbefore).
  assert (SInv s') as Hs'.
  { replace s' with (commit_command_events req method parameters outcome events s).1 by (by rewrite Ha).
    by apply keeps_commit_command_events. }
  rewrite (commit_command_events_scoped _ sid) in Ha by done.
  apply keyed_transaction in Ha; [|done|intros; apply tables_only_command_body].
  destruct r as [a|e]; [|done].
  destruct Ha as (key_id & key' & s0 & s1 & b & Hi0 & Ht0 & Hk0 & Hks & Hbody & Hconn & Hcache).
  pose proof (readable_unique _ _ _ _ Hkey Hks) as <-.
  apply st_bind_Ok in Hbody as (s2 & existing & Hl & Hbody).
  apply query_calm in Hl as [C2 Hl]. specialize (Hl _ eq_refl).
  destruct existing as [existing|].
  { destruct (same_command _ _); [|done]. apply st_bind_Ok in Hbody as (? & v & _ & Hret).
    by injection Hret as <- <- <-. }
  apply st_bind_Ok in Hbody as (s3 & evs & Hmap & Hbody).
  apply st_bind_Ok in Hbody as (s4 & u & Hins & Hret). injection Hret as <- <- <-.
  destruct C2 as [Ht2 Hk2].
  destruct Hw as (first & rest & -> & Hsid & Hm & Hc & Hex & Hv).
  assert (Forall (λ e, input_ok e ∧ ei_session_id e = sid) (first :: rest)) as Hall.
  { subst sid. apply batch_session; [|done]. apply not_true_iff_false. apply not_true_iff_false in Hex.
    intros (e & He & Hne)%existsb_exists. apply Hex, existsb_exists. exists e.
    split; [done|]. by rewrite Hne. }
  eapply appends_history in Hmap as (Hh3 & Hevs & _ & _ & Hco);
    [|done|unfold SInv; rewrite Ht2; by eapply Inv_same_keys|by eapply same_keys_readable|
     rewrite Ht2, Ht0; done].
  apply execute_effect in Hins as [_ Hins]. unfold insert_outcome in Hins.
  destruct (outcome_row (connection s3) _ _) eqn:Ho; [done|]. injection Hins as Hins.
  split_and!; [done| |].
  - exists key, before. split_and!; [done| |done]. rewrite Hconn, <-Hins. exact Hh3.
  - intros Hf method' parameters' outcome' events' Hw'.
    rewrite (command_repeated _ sid (command_record method parameters outcome) _ _ _ _ key _ outcome);
      [done|done| |done| |by apply read_value_printed|done].
    + rewrite <-Hins in Hconn. eapply history_session; [done|rewrite Hconn; exact Hh3|].
      rewrite Hevs. by destruct before.
    + rewrite Hconn, <-Hins. unfold outcome_row in *.
      simpl in *. rewrite first_where_app, Ho.
      by rewrite first_where_cons; simpl; rewrite !text_eq_refl.
Qed.
End properties.
