(* ===== verification/StorageLive.v ===== *)
(** * StorageLive: what a restart completes

    Deletions that were journaled, creations that were interrupted and attempts that
    were started but not settled are completed when the daemon starts again, if the
    database and the key store answer. *)

From stdpp Require Import sorting list_numbers.
From S2P Require Import Prelude StateResult Text BTree Errors Json Wire Event.
From S2P Require Import StorageKeys StorageTables StorageDb StorageInv StorageOps StorageProps.

Section live.
Context `{StorageEnv} `{!StorageEnvLaws} {K : Type} `{KeyStore K} `{!KeyStoreLaws K}.
Implicit Types (t : Tables) (m : KeyManager K) (s : SqliteStorage K).

(** ** Deletions *)

(** The tables after the deletion of a session. *)
Record deleted_tables (sid did : string) (req : string) (hash : string) t t' : Prop := {
  dt_sessions : sessions t' = List.filter (λ r, negb (text_eq (s_session_id r) sid)) (sessions t);
  dt_events :
    session_events t' = List.filter (λ r, negb (text_eq (e_session_id r) sid)) (session_events t);
  dt_creations : session_creation_journal t' = session_creation_journal t;
  dt_exports : export_journal t' = export_journal t;
  dt_deletions :
    deletion_journal t' = List.filter (λ r, negb (text_eq (d_session_id r) sid)) (deletion_journal t);
  dt_tombstone r : tombstone_row t' sid = Some r →
    t_deletion_id r = did ∧ t_deletion_request_id r = req ∧ t_deletion_parameter_hash r = hash;
  dt_tombstoned : tombstone_row t' sid ≠ None;
  dt_others x r : x ≠ sid → tombstone_row t x = Some r → t_deletion_id r ≠ did →
    tombstone_row t' x = Some r;
}.

Lemma commit_deletion_ok sid did req s :
  failures s = [] →
  (∀ x, x ∈ export_journal (connection s) → x_session_id x ≠ uuid_text sid) →
  ∃ t', commit_deletion sid did req s =
    (set_tables s t', Ok {| ds_session_id := sid; ds_deletion_id := did; ds_key_destroyed := true |}) ∧
    deleted_tables (uuid_text sid) (uuid_text did) req
      (canonical_hash (deletion_parameters sid)) (connection s) t'.
Proof.
  intros Hf Hx. unfold commit_deletion.
  assert (Hex : existsb (λ r, text_eq (x_session_id r) (uuid_text sid)) (export_journal (connection s)) = false).
  { apply not_true_iff_false. intros (x & Hin & He%text_eq_true)%existsb_exists.
    by apply (Hx x); [apply list_elem_of_In|]. }
  eexists. split.
  - eapply transaction_ok; [done| |].
    + unfold st_bind at 1. rewrite query_ok by done.
      unfold st_bind at 1. erewrite execute_ok by done.
      unfold st_bind at 1. erewrite execute_ok; [|done|unfold delete_session; simpl; by rewrite Hex].
      unfold st_bind at 1. erewrite execute_ok by done.
      unfold st_bind at 1. erewrite execute_ok by done. reflexivity.
    + done.
  - constructor; try done; unfold tombstone_row; simpl.
    + intros r. rewrite first_where_app. destruct (first_where _ _) as [r0|] eqn:Hr0.
      * apply first_where_Some in Hr0 as [Hin Hs%text_eq_true]. apply elem_of_filterb in Hin as [_ Hn].
        rewrite Hs, text_eq_refl in Hn. done.
      * rewrite first_where_cons. simpl. rewrite text_eq_refl. intros [= <-]. done.
    + rewrite first_where_app, first_where_cons. simpl. rewrite text_eq_refl. by destruct (first_where _ _).
    + intros x r Hne Hr Hd. rewrite first_where_app. erewrite first_where_survives; [done|exact Hr|].
      apply first_where_Some in Hr as [_ Hr%text_eq_true]. apply negb_true_iff, orb_false_iff.
      split; apply text_eq_false; congruence.
Qed.

(** A store that answers deletions. *)
Definition answers_deletions (available : K → Prop) : Prop :=
  ∀ k id, available k → (ks_delete k id).2 = Ok tt ∧ available (ks_delete k id).1.

(** Nothing stands in the way of the journaled deletions. *)
Record resumable (available : K → Prop) s : Prop := {
  rs_inv : SInv s;
  rs_failures : failures s = [];
  rs_available : available (km_store (keys s));
  rs_exports r x : r ∈ deletion_journal (connection s) → x ∈ export_journal (connection s) →
    x_session_id x ≠ d_session_id r;
}.

(** A journaled deletion that was completed. *)
Record completed (r : DeletionRow) s : Prop := {
  cp_session : session_row (connection s) (d_session_id r) = None;
  cp_key sid : d_session_id r = uuid_text sid → ¬ key_stored (keys s) sid;
  cp_tombstone sid : d_session_id r = uuid_text sid →
    ∃ tr, tombstone_row (connection s) (d_session_id r) = Some tr ∧
      t_deletion_id tr = d_deletion_id r ∧ t_deletion_request_id tr = d_request_id r ∧
      t_deletion_parameter_hash tr = canonical_hash (deletion_parameters sid);
}.

Lemma destroy_available available sid m :
  answers_deletions available → available (km_store m) →
  ∃ m', destroy_session_key sid m = (m', Ok tt) ∧ available (km_store m').
Proof.
  intros Ha Hav. destruct (Ha (km_store m) (session_key_id m sid) Hav) as [Hr Hk].
  unfold destroy_session_key, store_delete. destruct (ks_delete _ _) as [k r]. simpl in *. subst r.
  by eexists.
Qed.

Lemma finish_deletion_ok available r sid s :
  answers_deletions available → resumable available s →
  r ∈ deletion_journal (connection s) → d_session_id r = uuid_text sid →
  ∃ s' summary, finish_deletion sid s = (s', Ok summary) ∧ resumable available s' ∧
    completed r s' ∧
    deletion_journal (connection s') =
      List.filter (λ q, negb (text_eq (d_session_id q) (uuid_text sid))) (deletion_journal (connection s)) ∧
    (∀ q, completed q s → d_session_id q ≠ d_session_id r → d_deletion_id q ≠ d_deletion_id r →
       completed q s').
Proof.
  intros Ha Hs Hr Hsid. destruct Hs as [Hi Hf Hav Hx].
  destruct (inv_deletion _ _ Hi r Hr) as (sid' & did & Hsid' & Hdid & _).
  rewrite Hsid' in Hsid. apply uuid_text_inj in Hsid as ->.
  destruct (destroy_available available sid (keys s) Ha Hav) as (m' & Hd & Hav').
  assert (Hrow : deletion_row (connection s) (uuid_text sid) = Some r).
  { rewrite <-Hsid'. apply first_where_NoDup; [apply Hi|done]. }
  set (s1 := with_keys_of s m').
  destruct (commit_deletion_ok sid did (d_request_id r) s1) as (t' & Hc & Hdt); [done| |].
  { intros x Hxin. rewrite <-Hsid'. by apply Hx. }
  assert (Hfin : finish_deletion sid s = (set_tables s1 t',
    Ok {| ds_session_id := sid; ds_deletion_id := did; ds_key_destroyed := true |})).
  { unfold finish_deletion, ensure_no_pending_export, st_bind at 1 2. rewrite query_ok by done.
    destruct (existsb _ _) eqn:Hex.
    { apply existsb_exists in Hex as (x & Hin%list_elem_of_In & He%text_eq_true).
      destruct (Hx r x Hr Hin). congruence. }
    simpl. unfold st_bind at 1. rewrite query_ok by done. rewrite Hrow, Hdid.
    unfold st_bind at 1, st_lift. rewrite parse_uuid_text.
    unfold st_bind, with_keys. rewrite Hd. exact Hc. }
  pose proof (keeps_finish_deletion sid s Hi) as Hi'. rewrite Hfin in Hi'. simpl in Hi'.
  destruct Hdt as [Ds De Dc Dx Dd Dt Dn Do]. simpl in *.
  eexists _, _. split; [exact Hfin|]. split_and!.
  - constructor; simpl; try done. intros q x Hq Hxin. rewrite Dd in Hq. rewrite Dx in Hxin.
    apply elem_of_filterb in Hq as [Hq _]. by apply Hx.
  - constructor; simpl; rewrite Hsid'.
    + apply first_where_None. rewrite Ds. intros x [_ Hn]%elem_of_filterb. by apply negb_true_iff in Hn.
    + intros x ->%uuid_text_inj. unfold key_stored. simpl.
      eapply Inv_destroy_key in Hd as (_ & _ & Hgone); [|intros _; unfold deleting; by rewrite Hrow|exact Hi].
      by apply (Hgone tt).
    + intros x <-%uuid_text_inj. destruct (tombstone_row t' (uuid_text sid)) as [tr|] eqn:Htr; [|done].
      exists tr. split; [done|]. rewrite Hdid. by apply Dt.
  - exact Dd.
  - intros q [Cs Ck Ct] Hne Hnd. constructor; simpl.
    + apply first_where_None. rewrite Ds. intros x [Hin _]%elem_of_filterb.
      unfold session_row in Cs. rewrite first_where_None in Cs. by apply Cs.
    + intros x Hqx. specialize (Ck x Hqx). unfold key_stored in *. simpl.
      pose proof (same_space_destroy _ _ _ _ Hd) as Hsp. rewrite (session_key_id_space _ _ _ Hsp).
      rewrite (destroy_other _ _ _ _ _ Hd); [done|]. intros ->%session_key_id_inj. congruence.
    + intros x Hqx. destruct (Ct x Hqx) as (tr & Htr & Hid & Hrest). exists tr.
      split; [|done]. apply Do; [congruence|done|congruence].
Qed.

Definition finish_by_text (id : string) : SM (K := K) DeletionSummary :=
  let! session_id := st_lift (parse_uuid id) in finish_deletion session_id.

(** The loop of [resume_deletions]. *)
Lemma finish_all available rows s :
  answers_deletions available → resumable available s →
  NoDup (d_session_id <$> rows) → NoDup (d_deletion_id <$> rows) →
  rows ⊆ deletion_journal (connection s) →
  ∃ s' summaries, st_map finish_by_text (d_session_id <$> rows) s = (s', Ok summaries) ∧
    resumable available s' ∧ (∀ r, r ∈ rows → completed r s') ∧
    deletion_journal (connection s') =
      List.filter (λ q, negb (text_in (d_session_id q) (d_session_id <$> rows)))
        (deletion_journal (connection s)) ∧
    (∀ q, completed q s → d_session_id q ∉ d_session_id <$> rows →
       d_deletion_id q ∉ d_deletion_id <$> rows → completed q s').
Proof.
  intros Ha. revert s. induction rows as [|r rows IH]; intros s Hs Hnd Hnd' Hsub.
  { exists s, []. split_and!; try done; [by intros ? ?%elem_of_nil|].
    rewrite filterb_all; [done|]. intros q _. done. }
  rewrite !fmap_cons, NoDup_cons in *. destruct Hnd as [Hr Hnd], Hnd' as [Hr' Hnd'].
  assert (r ∈ deletion_journal (connection s)) as Hin by (apply Hsub; left).
  destruct (inv_deletion _ _ (rs_inv _ _ Hs) r Hin) as (sid & did & Hsid & _ & _).
  destruct (finish_deletion_ok available r sid s Ha Hs Hin Hsid)
    as (s1 & summary & Hf & Hs1 & Hc & Hj & Hkeep).
  destruct (IH s1) as (s2 & sums & Hm & Hs2 & Hc2 & Hj2 & Hkeep2); [done|done|done| |].
  { intros q Hq. rewrite Hj. apply elem_of_filterb. split; [apply Hsub; by right|].
    apply negb_true_iff, text_eq_false. rewrite <-Hsid. intros Heq. apply Hr. rewrite <-Heq.
    by apply list_elem_of_fmap_2. }
  exists s2, (summary :: sums). split_and!; [|done| | |].
  - cbn [st_map]. unfold st_bind at 1, finish_by_text at 1. unfold st_bind at 1, st_lift.
    rewrite Hsid, parse_uuid_text, Hf. unfold st_bind. by rewrite Hm.
  - intros q [->|Hq]%elem_of_cons; [by apply Hkeep2|by apply Hc2].
  - rewrite Hj2, Hj, filterb_filterb. apply filterb_ext. intros q. rewrite <-negb_orb. f_equal.
    rewrite <-Hsid. unfold text_in, text_eq. apply eq_true_iff_eq.
    rewrite orb_true_iff, !bool_decide_eq_true, elem_of_cons. tauto.
  - intros q Hq Hn Hn'. rewrite not_elem_of_cons in Hn, Hn'. apply Hkeep2; [|naive_solver..].
    apply Hkeep; naive_solver.
Qed.

(** A completed deletion answers its request again. *)
Lemma completed_replays r sid did req s at_time actor did' :
  completed r s → failures s = [] →
  d_session_id r = uuid_text sid → d_deletion_id r = uuid_text did → d_request_id r = uuid_text req →
  request_deletion sid did' req at_time actor s =
  (s, Ok {| ds_session_id := sid; ds_deletion_id := did; ds_key_destroyed := true |}).
Proof.
  intros [_ _ Ct] Hf Hsid Hdid Hreq. destruct (Ct sid Hsid) as (tr & Htr & Hd & Hq & Hh).
  unfold request_deletion, replay_deletion_tombstone, st_bind at 1 2. rewrite query_ok by done.
  rewrite <-Hsid, Htr, Hq, Hh, Hreq, !text_eq_refl. simpl.
  unfold st_bind, st_lift. by rewrite Hd, Hdid, parse_uuid_text.
Qed.


(** ** Creations *)

Lemma filterb_single {A B} `{EqDecision B} (f : A → B) (p : A → bool) l x :
  NoDup (f <$> l) → x ∈ l → p x = true → (∀ y, p y = true → f y = f x) → List.filter p l = [x].
Proof.
  intros Hnd Hx Hp Hf. induction Hx as [x l|x y l Hx IH]; rewrite fmap_cons, NoDup_cons in Hnd;
    destruct Hnd as [Hn Hnd]; simpl.
  - rewrite Hp. f_equal. apply filterb_none. intros y Hy. apply not_true_iff_false. intros Hpy.
    apply Hn. rewrite <-(Hf y Hpy). by apply list_elem_of_fmap_2.
  - destruct (p y) eqn:Hpy; [|by apply IH]. destruct Hn. rewrite (Hf y Hpy).
    by apply list_elem_of_fmap_2.
Qed.

Definition journal_of (r : CreationRow) (sid req : Uuid) : SessionCreationJournal :=
  {| cj_session_id := sid; cj_request_id := req; cj_parameter_hash := c_parameter_hash r;
     cj_key_id := c_key_id r; cj_state := c_state r |}.

(** Reconciling a journaled creation removes its entry, and its key unless the
    session was committed. *)
Lemma reconcile_ok available r sid req s :
  answers_deletions available → SInv s → failures s = [] → available (km_store (keys s)) →
  r ∈ session_creation_journal (connection s) → c_session_id r = uuid_text sid →
  c_request_id r = uuid_text req → c_key_id r = session_key_id (keys s) sid →
  ∃ s', reconcile_creation (journal_of r sid req) s = (s', Ok tt) ∧
    SInv s' ∧ failures s' = [] ∧ available (km_store (keys s')) ∧ same_space (keys s) (keys s') ∧
    sessions (connection s') = sessions (connection s) ∧
    session_events (connection s') = session_events (connection s) ∧
    session_creation_journal (connection s') =
      List.filter (λ q, negb (text_eq (c_session_id q) (uuid_text sid)))
        (session_creation_journal (connection s)).
Proof.
  intros Ha Hi Hf Hav Hin Hsid Hreq Hkey.
  set (j := journal_of r sid req). pose proof (keeps_reconcile_creation j s Hi) as Hi'.
  destruct (inv_creation _ _ Hi r Hin) as (_ & _ & _ & _ & _ & Hst).
  assert (Hone : List.filter (journal_matches j) (session_creation_journal (connection s)) = [r]).
  { apply (filterb_single c_session_id); [apply Hi|done| |].
    - unfold journal_matches. simpl. by rewrite Hsid, Hreq, !text_eq_refl.
    - intros q Hq. unfold journal_matches in Hq. bool_to_prop. rewrite Hsid. by apply text_eq_true. }
  set (t' := (delete_creation (journal_matches j) (connection s)).1).
  assert (Ht' : session_creation_journal t' =
    List.filter (λ q, negb (text_eq (c_session_id q) (uuid_text sid))) (session_creation_journal (connection s))).
  { apply filterb_ext_in. intros q Hq. f_equal. apply eq_true_iff_eq. split.
    - intros Hm. unfold journal_matches in Hm. by bool_to_prop.
    - intros Heq%text_eq_true. rewrite <-Hsid in Heq.
      assert (q = r) as ->.
      { pose proof (first_where_NoDup c_session_id _ q (inv_creations _ _ Hi) Hq) as H1q.
        pose proof (first_where_NoDup c_session_id _ r (inv_creations _ _ Hi) Hin) as H1r.
        rewrite Heq in H1q. congruence. }
      assert (r ∈ List.filter (journal_matches j) (session_creation_journal (connection s))) as Hr
        by (rewrite Hone; left). by apply elem_of_filterb in Hr as [_ ?]. }
  assert (Hdel : ∀ m, (let! removed := execute_count (λ t, Some (delete_creation (journal_matches j) t)) in
    if (removed =? 1)%N then st_ret tt else st_err SE_StorageUnavailable) (with_keys_of s m) =
    (set_tables (with_keys_of s m) t', Ok tt)).
  { intros m. unfold st_bind. erewrite execute_count_ok by done. unfold count. simpl. by rewrite Hone. }
  assert (Hsteps : ∃ m', reconcile_creation j s = (set_tables (with_keys_of s m') t', Ok tt) ∧
    same_space (keys s) m' ∧ available (km_store m')).
  { unfold reconcile_creation. unfold st_bind at 1, with_keys at 1, st_gets. simpl.
    unfold owns_session_key, text_in. rewrite (bool_decide_eq_true_2 (_ = c_key_id r)) by done.
    rewrite (bool_decide_eq_true_2 (c_state r ∈ _) Hst). simpl. destruct s as [t f m]. simpl in *.
    unfold st_bind at 1. rewrite query_ok by done. simpl.
    destruct (session_row t (uuid_text sid)) as [row|] eqn:Hrow; simpl.
    - rewrite (inv_keys _ _ Hi sid row Hrow), Hkey, text_eq_refl. unfold st_bind at 1. simpl.
      exists m. split_and!; [|done|done]. apply Hdel.
    - destruct (destroy_available available sid m Ha Hav) as (m' & Hd & Hav').
      unfold st_bind at 1, with_keys. simpl. rewrite Hd. exists m'. split_and!; [apply Hdel| |done].
      by eapply same_space_destroy. }
  destruct Hsteps as (m' & Hrun & Hsp & Hav'). rewrite Hrun in Hi'.
  eexists. split; [exact Hrun|]. by split_and!.
Qed.

(** The loop of [resume_session_creations]. *)
Lemma reconcile_all available rows s :
  answers_deletions available → SInv s → failures s = [] → available (km_store (keys s)) →
  NoDup (c_session_id <$> rows) → rows ⊆ session_creation_journal (connection s) →
  ∃ s' journals, try_collect journal_from_row rows = Ok journals ∧
    st_for reconcile_creation journals s = (s', Ok tt) ∧
    SInv s' ∧ sessions (connection s') = sessions (connection s) ∧
    session_events (connection s') = session_events (connection s) ∧
    session_creation_journal (connection s') =
      List.filter (λ q, negb (text_in (c_session_id q) (c_session_id <$> rows)))
        (session_creation_journal (connection s)).
Proof.
  intros Ha. revert s. induction rows as [|r rows IH]; intros s Hi Hf Hav Hnd Hsub.
  { exists s, []. split_and!; try done. rewrite filterb_all; [done|]. done. }
  rewrite !fmap_cons, NoDup_cons in *. destruct Hnd as [Hr Hnd].
  assert (r ∈ session_creation_journal (connection s)) as Hin by (apply Hsub; left).
  destruct (inv_creation _ _ Hi r Hin) as (sid & req & Hsid & Hreq & Hkey & _).
  destruct (reconcile_ok available r sid req s) as (s1 & Hrun & Hi1 & Hf1 & Hav1 & Hsp & Hs1 & He1 & Hj1);
    try done.
  destruct (IH s1) as (s2 & js & Hjs & Hrun2 & Hi2 & Hs2 & He2 & Hj2); try done.
  { intros q Hq. rewrite Hj1. apply elem_of_filterb. split; [apply Hsub; by right|].
    apply negb_true_iff, text_eq_false. rewrite <-Hsid. intros Heq. apply Hr. rewrite <-Heq.
    by apply list_elem_of_fmap_2. }
  exists s2, (journal_of r sid req :: js). split_and!; [| |done|congruence|congruence|].
  - simpl. unfold journal_from_row at 1. rewrite Hsid, Hreq, !parse_uuid_text, Hjs. done.
  - simpl. unfold st_bind. rewrite Hrun. done.
  - rewrite Hj2, Hj1, filterb_filterb. apply filterb_ext. intros q. rewrite <-negb_orb. f_equal.
    rewrite <-Hsid. unfold text_in, text_eq. apply eq_true_iff_eq.
    rewrite orb_true_iff, !bool_decide_eq_true, elem_of_cons. tauto.
Qed.

(** Interrupted creations are undone: one undisturbed run of
    [resume_session_creations] empties the creation journal, leaves the sessions and
    their events as they are, and afterwards every session key in the store belongs
    to a session. *)
Theorem creations_reconciled available s :
  answers_deletions available →
  reachable s → failures s = [] → available (km_store (keys s)) →
  ∃ s' n, resume_session_creations s = (s', Ok n) ∧
    session_creation_journal (connection s') = [] ∧
    sessions (connection s') = sessions (connection s) ∧
    session_events (connection s') = session_events (connection s) ∧
    ∀ sid, key_stored (keys s') sid → has_session (connection s') sid.
Proof.
  intros Ha Hr%reachable_SInv Hf Hav.
  set (rows := merge_sort (by_text c_session_id) (session_creation_journal (connection s))).
  assert (Hperm : rows ≡ₚ session_creation_journal (connection s)) by apply merge_sort_Permutation.
  destruct (reconcile_all available rows s) as (s' & js & Hjs & Hrun & Hi & Hs & He & Hj); try done.
  - rewrite Hperm. apply Hr.
  - intros r. by rewrite Hperm.
  - assert (Hnil : session_creation_journal (connection s') = []).
    { rewrite Hj. apply filterb_none. intros q Hq. apply negb_false_iff, bool_decide_eq_true.
      apply list_elem_of_fmap_2. by rewrite Hperm. }
    exists s', (N.of_nat (length js)). split_and!; try done.
    + unfold resume_session_creations, st_bind at 1. rewrite query_ok by done. fold rows.
      unfold st_bind at 1, st_lift. rewrite Hjs. unfold st_bind. rewrite Hrun. done.
    + intros sid Hk. destruct (inv_owned _ _ Hi sid Hk) as [?|Hc]; [done|].
      unfold has_creation, creation_by_session in Hc. by rewrite Hnil in Hc.
Qed.

(** ** Attempts *)

(** An append adds one row, with the kind and the attempt of its input. *)
Lemma append_event_effect input s s' ev :
  SInv s → input_ok input → append_event input s = (s', Ok ev) →
  ∃ row, session_events (connection s') = session_events (connection s) ++ [row] ∧
    e_session_id row = uuid_text (ei_session_id input) ∧ e_kind row = ei_kind input ∧
    e_attempt_id row = uuid_text <$> ei_attempt_id input.
Proof.
  intros Hs Hv Ha. unfold append_event in Ha.
  apply (keyed_transaction _ (λ key_id key, let! persisted := append_event_in_transaction input key_id key in
    st_ret (true, persisted))) in Ha; [|done|].
  2:{ intros. apply tables_only_bind; [apply tables_only_append|]. intros; apply tables_only_ret. }
  destruct Ha as (key_id & key & s0 & s1 & b & Hi0 & Ht0 & Hk0 & _ & Hbody & Hconn & _). break_state.
  match goal with Happ : append_event_in_transaction _ _ _ _ = _ |- _ =>
    apply append_effect in Happ as (row & Hr & _ & Ht & _); [|done] end.
  exists row. split_and!; try apply Hr. rewrite Hconn, Ht, <-Ht0. unfold appended.
  by destruct (touches_state _).
Qed.

(** Facts about attempts are only ever added, never as new starts. *)
Definition settles (rows : list EventRow) (a : string * string) : Prop :=
  ∃ r, r ∈ rows ∧ e_session_id r = a.1 ∧ e_attempt_id r = Some a.2 ∧ e_kind r = "outcome_unknown".

Lemma recover_loop at_time attempts s s' recovered :
  SInv s → (∀ a, a ∈ attempts → ∃ sid att, a = (uuid_text sid, uuid_text att)) →
  st_map (recover_attempt at_time) attempts s = (s', Ok recovered) →
  SInv s' ∧
  (λ r, (uuid_text (ra_session_id r), uuid_text (ra_attempt_id r))) <$> recovered = attempts ∧
  ∃ rows, session_events (connection s') = session_events (connection s) ++ rows ∧
    (∀ r, r ∈ rows → e_kind r = "outcome_unknown") ∧ (∀ a, a ∈ attempts → settles rows a).
Proof.
  revert s recovered. induction attempts as [|a attempts IH]; intros s recovered Hs Ha; simpl.
  { intros [= <- <-]. split_and!; try done. exists []. rewrite app_nil_r.
    split_and!; try done; by intros ? ?%elem_of_nil. }
  intros Hm. apply st_bind_Ok in Hm as (s1 & y & Hone & Hm).
  apply st_bind_Ok in Hm as (s2 & ys & Hrest & Hret). injection Hret as <- <-.
  destruct (Ha a) as (sid & att & ->); [left|].
  unfold recover_attempt in Hone. simpl in Hone. rewrite !parse_uuid_text in Hone. break_state.
  match goal with Hf : fresh_uuid _ = _ |- _ => apply fresh_uuid_calm in Hf as Hc end.
  match goal with Happ : append_event ?input ?s0 = _ |- _ =>
    pose proof (keeps_append_event input eq_refl s0 (SInv_calm _ _ Hc Hs)) as Hs1;
    rewrite Happ in Hs1; simpl in Hs1;
    apply append_event_effect in Happ as (row & Hev & Hsid & Hkind & Hatt);
      [|by eapply SInv_calm|done] end.
  apply IH in Hrest as (Hs2 & Hrec & rows & Hrows & Hkinds & Hsettled); [|done|].
  2:{ intros b Hin. apply Ha. by right. }
  destruct Hc as [Hc _]. split_and!; [done|rewrite fmap_cons; simpl; by rewrite Hrec|].
  exists (row :: rows). split_and!.
  - rewrite Hrows, Hev, Hc, <-app_assoc. done.
  - intros r [->|Hin]%elem_of_cons; auto.
  - intros b [->|Hin]%elem_of_cons.
    + exists row. split_and!; try done. left.
    + destruct (Hsettled b Hin) as (r & Hr & Hrr). exists r. split; [by right|done].
Qed.

Lemma elem_of_uncertain t a :
  a ∈ uncertain_attempts t ↔ ∃ r, r ∈ session_events t ∧ unsettled t r = true ∧ attempt_key r = a.
Proof.
  unfold uncertain_attempts. rewrite merge_sort_Permutation, elem_of_remove_dups, list_elem_of_fmap.
  setoid_rewrite elem_of_filterb. naive_solver.
Qed.

Lemma unsettled_inv t r :
  unsettled t r = true →
  e_kind r = "dispatch_started" ∧ (∃ a, e_attempt_id r = Some a) ∧
  ∀ q, q ∈ session_events t → e_session_id q = e_session_id r → e_attempt_id q = e_attempt_id r →
    e_kind q ∉ SETTLED_KINDS.
Proof.
  unfold unsettled. intros Hu. bool_to_prop. split_and!.
  - by apply text_eq_true.
  - destruct (e_attempt_id r); [eauto|done].
  - intros q Hq Hs Ha Hk. match goal with Hx : existsb _ _ = false |- _ =>
      apply not_true_iff_false in Hx; apply Hx, existsb_exists; exists q end.
    split; [by apply list_elem_of_In|]. rewrite Hs, text_eq_refl, Ha, bool_decide_eq_true_2 by done.
    by apply bool_decide_eq_true.
Qed.

(** Started attempts are settled: when [recover_uncertain_attempts] succeeds it reports
    the attempts that were started and not settled, in order and each once, it adds
    one [outcome_unknown] fact for each and no other row, and no attempt is left
    unsettled, so that a second run finds nothing to do. *)
Theorem attempts_settled s s' at_time recovered :
  reachable s → recover_uncertain_attempts at_time s = (s', Ok recovered) →
  (λ r, (uuid_text (ra_session_id r), uuid_text (ra_attempt_id r))) <$> recovered
    = uncertain_attempts (connection s) ∧
  NoDup ((λ r, (ra_session_id r, ra_attempt_id r)) <$> recovered) ∧
  (∃ rows, session_events (connection s') = session_events (connection s) ++ rows ∧
     (∀ r, r ∈ rows → e_kind r = "outcome_unknown") ∧
     (∀ a, a ∈ uncertain_attempts (connection s) → settles rows a)) ∧
  uncertain_attempts (connection s') = [] ∧
  (failures s' = [] → ∀ later, recover_uncertain_attempts later s' = (s', Ok [])).
Proof.
  intros Hr%reachable_SInv Hrun. unfold recover_uncertain_attempts in Hrun.
  apply st_bind_Ok in Hrun as (s1 & attempts & Hq & Hm).
  apply query_calm in Hq as [Hc Hat]. specialize (Hat _ eq_refl). subst attempts.
  apply recover_loop in Hm as (Hs' & Hrec & rows & Hrows & Hkinds & Hset); [|by eapply SInv_calm|].
  2:{ intros a (r & Hin & Hu & <-)%elem_of_uncertain. apply unsettled_inv in Hu as (_ & [a Ha] & _).
      destruct (inv_attempts _ _ Hr r a Hin Ha) as [u ->].
      pose proof (inv_foreign _ _ Hr r Hin) as Hf.
      destruct (session_row (connection s) (e_session_id r)) as [row|] eqn:Hrow; [|done].
      apply session_row_Some in Hrow as [Hrow Heq]. destruct (inv_named _ _ Hr row Hrow) as (sid & _ & Hn & _ & _).
      exists sid, u. unfold attempt_key. rewrite Ha, <-Heq, Hn. done. }
  destruct Hc as [Hc _]. rewrite Hc in Hrows.
  assert (Hnil : uncertain_attempts (connection s') = []).
  { destruct (uncertain_attempts (connection s')) as [|a l] eqn:Hun; [done|].
    assert (a ∈ uncertain_attempts (connection s')) as (r & Hin & Hu & Hk)%elem_of_uncertain
      by (rewrite Hun; left).
    pose proof (unsettled_inv _ _ Hu) as (Hkind & [att Hatt] & Hnone).
    rewrite Hrows in Hin. apply elem_of_app in Hin as [Hin|Hin]; [|by rewrite (Hkinds r Hin) in Hkind].
    assert (unsettled (connection s) r = true) as Hu0.
    { unfold unsettled. rewrite Hkind, Hatt, text_eq_refl. simpl. apply negb_true_iff, not_true_iff_false.
      intros (q & Hq & Hqq)%existsb_exists. bool_to_prop. apply (Hnone q).
      - rewrite Hrows. apply elem_of_app. left. by apply list_elem_of_In.
      - by apply text_eq_true.
      - congruence.
      - by eapply bool_decide_eq_true. }
    destruct (Hset (attempt_key r)) as (q & Hq & Hqs & Hqa & Hqk).
    { apply elem_of_uncertain. eauto. }
    unfold attempt_key in Hqs, Hqa. rewrite Hatt in Hqa. simpl in *.
    exfalso. apply (Hnone q); [rewrite Hrows; apply elem_of_app; by right|done|congruence|].
    rewrite Hqk. do 4 right. left. }
  split_and!; [exact Hrec| | |done|].
  - apply (NoDup_fmap_1 (λ p, (uuid_text p.1, uuid_text p.2))).
    rewrite <-list_fmap_compose. unfold compose. simpl. rewrite Hrec.
    unfold uncertain_attempts. rewrite merge_sort_Permutation. apply NoDup_remove_dups.
  - by exists rows.
  - intros Hf later. unfold recover_uncertain_attempts, st_bind. rewrite query_ok by done. by rewrite Hnil.
Qed.
End live.
