(* ===== verification/StoragePages.v ===== *)
(** * StoragePages: the paged session list, and retention

    [list_session_metadata] returns one page and the cursor of the next; a client
    that follows the cursors sees what one sorted query would have returned. The last
    section is about the sessions [run_retention] removes. *)

From stdpp Require Import sorting list_numbers.
From S2P Require Import Prelude StateResult Text BTree Errors Json Wire Event.
From S2P Require Import StorageKeys StorageTables StorageDb StorageInv StorageOps StorageProps.
From stdpp Require Import sorting.

Section pages.
Context `{StorageEnv} `{!StorageEnvLaws} {K : Type} `{KeyStore K} `{!KeyStoreLaws K}.
Implicit Types (t : Tables) (s : SqliteStorage K).

(** Following the cursors; the fuel is a bound on the number of pages. *)
Fixpoint all_pages (fuel : nat) (limit : N) (before : option Uuid)
    : SM (K := K) (option (list StoredSessionMetadata)) :=
  match fuel with
  | O => st_ret None
  | S fuel =>
      let! page := list_session_metadata limit before in
      match sp_next_before_session_id page with
      | None => st_ret (Some (sp_sessions page))
      | Some next =>
          let! rest := all_pages fuel limit (Some next) in
          st_ret (app (sp_sessions page) <$> rest)
      end
  end.

Definition newest_first t : list SessionRow := merge_sort (by_text_desc s_session_id) (sessions t).

Definition precedes (x y : SessionRow) : Prop := str_lt (s_session_id y) (s_session_id x).

Lemma str_lt_trichotomy a b : str_lt a b ∨ a = b ∨ str_lt b a.
Proof.
  destruct (String.compare a b) eqn:Hc.
  - right. left. by apply String.compare_eq_iff.
  - by left.
  - right. right. by apply str_compare_Gt.
Qed.

Lemma desc_trans : Transitive (by_text_desc s_session_id).
Proof.
  unfold by_text_desc, text_le. intros x y z Hxy Hyz Hlt.
  destruct (str_lt_trichotomy (s_session_id y) (s_session_id x)) as [?|[Heq|?]]; [|congruence|done].
  apply Hyz. by etrans.
Qed.

Lemma desc_total : Total (by_text_desc s_session_id).
Proof. intros x y. unfold by_text_desc. destruct (total text_le (s_session_id y) (s_session_id x)); auto. Qed.

(** Rows with distinct identifiers have one order. *)
Lemma desc_unique (l1 l2 : list SessionRow) :
  NoDup (s_session_id <$> l1) → StronglySorted (by_text_desc s_session_id) l1 →
  StronglySorted (by_text_desc s_session_id) l2 → l1 ≡ₚ l2 → l1 = l2.
Proof.
  intros Hnd Hs1 Hs2 Hp. apply (StronglySorted_unique_strong (by_text_desc s_session_id)); try done.
  intros x y Hx Hy Hxy Hyx. rewrite <-Hp in Hy.
  assert (s_session_id x = s_session_id y) as Heq.
  { destruct (str_lt_trichotomy (s_session_id x) (s_session_id y)) as [?|[?|?]]; done. }
  pose proof (first_where_NoDup s_session_id l1 x Hnd Hx) as Hfx.
  pose proof (first_where_NoDup s_session_id l1 y Hnd Hy) as Hfy. rewrite Heq in Hfx. congruence.
Qed.

Lemma sort_filterb (p : SessionRow → bool) t :
  NoDup (s_session_id <$> sessions t) →
  merge_sort (by_text_desc s_session_id) (List.filter p (sessions t)) = List.filter p (newest_first t).
Proof.
  intros Hnd. pose proof desc_trans. pose proof desc_total. apply desc_unique.
  - rewrite merge_sort_Permutation. by apply NoDup_filterb.
  - apply StronglySorted_merge_sort; done.
  - apply StronglySorted_filterb, StronglySorted_merge_sort; done.
  - rewrite merge_sort_Permutation. unfold newest_first.
    apply Permutation_filterb. by rewrite merge_sort_Permutation.
Qed.

Lemma newest_first_sorted t : NoDup (s_session_id <$> sessions t) → StronglySorted precedes (newest_first t).
Proof.
  intros Hnd. pose proof desc_trans. pose proof desc_total.
  assert (NoDup (s_session_id <$> newest_first t)) as Hn
    by (unfold newest_first; by rewrite merge_sort_Permutation).
  assert (StronglySorted (by_text_desc s_session_id) (newest_first t)) as Hs
    by (apply StronglySorted_merge_sort; done).
  revert Hn Hs. generalize (newest_first t). intros l Hn Hs.
  induction Hs as [|x l Hs IH Hx]; [constructor|]. rewrite fmap_cons, NoDup_cons in Hn.
  destruct Hn as [Hni Hn]. constructor; [by apply IH|]. rewrite Forall_forall in *. intros y Hy.
  unfold precedes. destruct (str_lt_trichotomy (s_session_id y) (s_session_id x)) as [?|[Heq|Hlt]]; [done| |].
  - destruct Hni. rewrite <-Heq. by apply list_elem_of_fmap_2.
  - by destruct (Hx y Hy).
Qed.

(** The rows below a row of the list are the rows after it. *)
Lemma filter_after pre x post :
  StronglySorted precedes (pre ++ x :: post) →
  List.filter (λ r, bool_decide (str_lt (s_session_id r) (s_session_id x))) (pre ++ x :: post) = post.
Proof.
  rewrite StronglySorted_app, StronglySorted_cons, Forall_forall. intros (Hpre & _ & Hpost & _).
  rewrite List.filter_app, filterb_none; simpl.
  - rewrite bool_decide_eq_false_2 by apply str_lt_irrefl. apply filterb_all. intros y Hy.
    apply bool_decide_eq_true. by apply Hpost.
  - intros y Hy. apply bool_decide_eq_false. intros Hlt.
    assert (str_lt (s_session_id x) (s_session_id y)) as Hgt by (apply (Hpre y x); [done|left]).
    eapply str_lt_irrefl. by etrans.
Qed.

(** The cursor after the rows already listed. *)
Definition cursor (pre : list SessionRow) (before : option Uuid) : Prop :=
  match last pre with
  | None => before = None
  | Some x => ∃ u, before = Some u ∧ s_session_id x = uuid_text u
  end.

Lemma page_rows_suffix t pre post before n :
  NoDup (s_session_id <$> sessions t) → newest_first t = pre ++ post → cursor pre before →
  page_rows before n t = take n post.
Proof.
  intros Hnd Heq Hc. unfold page_rows. rewrite sort_filterb, Heq by done. f_equal.
  unfold cursor in Hc. destruct (last pre) as [x|] eqn:Hl.
  - destruct Hc as (u & -> & Hu). apply last_Some in Hl as [pre' ->].
    rewrite <-Hu, <-app_assoc. apply filter_after. pose proof (newest_first_sorted t Hnd) as Hs.
    by rewrite Heq, <-app_assoc in Hs.
  - apply last_None in Hl as ->. rewrite Hc. simpl. by apply filterb_all.
Qed.

Lemma metadata_of_row_session r meta : metadata_of_row r = Ok meta →
  parse_uuid (s_session_id r) = Ok (sm_session_id meta).
Proof. unfold metadata_of_row. intros Hm. break_results. by simplify_eq. Qed.

Lemma list_page limit before t pre post metas s :
  connection s = t → failures s = [] → NoDup (s_session_id <$> sessions t) →
  newest_first t = pre ++ post → cursor pre before → (1 ≤ limit ≤ 100)%N →
  Forall2 (λ r meta, metadata_of_row r = Ok meta) post metas →
  list_session_metadata limit before s =
  (s, Ok {| sp_sessions := take (N.to_nat limit) metas;
            sp_next_before_session_id :=
              if (N.to_nat limit <? length metas)%nat
              then sm_session_id <$> last (take (N.to_nat limit) metas) else None |}).
Proof.
  intros Ht Hf Hnd Heq Hc [Hlo Hhi] Hm. unfold list_session_metadata.
  rewrite (proj2 (N.leb_le 1 limit)), (proj2 (N.leb_le limit 100)) by done. cbn [andb negb].
  unfold st_bind at 1. rewrite query_ok, Ht by done.
  rewrite (page_rows_suffix t pre post) by done.
  set (n := N.to_nat limit).
  assert (try_collect metadata_of_row (take (S n) post) = Ok (take (S n) metas)) as Hcol
    by (apply try_collect_Ok; by apply Forall2_take).
  unfold st_bind, st_lift. rewrite Hcol. unfold st_ret. do 3 f_equal.
  - rewrite take_take. f_equal. lia.
  - rewrite take_take, length_take, (Nat.min_l n (S n)) by lia.
    replace (n <? S n `min` length metas)%nat with (n <? length metas)%nat; [done|].
    apply eq_true_iff_eq. rewrite !Nat.ltb_lt. lia.
Qed.

Lemma all_pages_suffix fuel limit before t pre post metas s :
  connection s = t → failures s = [] → NoDup (s_session_id <$> sessions t) →
  (∀ r, r ∈ sessions t → ∃ u, s_session_id r = uuid_text u) →
  newest_first t = pre ++ post → cursor pre before → (1 ≤ limit ≤ 100)%N →
  Forall2 (λ r meta, metadata_of_row r = Ok meta) post metas → (length post < fuel)%nat →
  all_pages fuel limit before s = (s, Ok (Some metas)).
Proof.
  intros Ht Hf Hnd Hid. revert before pre post metas.
  induction fuel as [|fuel IH]; intros before pre post metas Heq Hc Hl Hm Hfuel; [lia|].
  cbn [all_pages]. unfold st_bind at 1.
  rewrite (list_page limit before t pre post metas) by done. cbn [sp_next_before_session_id sp_sessions].
  pose proof (Forall2_length _ _ _ Hm) as Hlen. set (n := N.to_nat limit).
  destruct (n <? length metas)%nat eqn:Hn; [apply Nat.ltb_lt in Hn|apply Nat.ltb_ge in Hn].
  2:{ unfold st_ret. by rewrite take_ge by done. }
  destruct (last (take n metas)) as [meta|] eqn:Hlast; cycle 1.
  { apply last_None in Hlast. apply (f_equal length) in Hlast. rewrite length_take in Hlast. simpl in Hlast.
    unfold n in *. lia. }
  simpl. unfold st_bind.
  rewrite (IH (Some (sm_session_id meta)) (pre ++ take n post) (drop n post) (drop n metas)).
  - unfold st_ret. simpl. by rewrite take_drop.
  - by rewrite <-app_assoc, take_drop.
  - assert (∃ x, last (take n post) = Some x ∧ metadata_of_row x = Ok meta) as (x & Hx & Hxm).
    { pose proof (Forall2_take _ _ _ n Hm) as Hmt. apply last_Some in Hlast as [l' Hlast].
      rewrite Hlast in Hmt. apply Forall2_app_inv_r in Hmt as (k1 & k2 & _ & Hk2 & Heqk).
      apply Forall2_cons_inv_r in Hk2 as (x & k3 & Hxm & Hk3 & ->).
      apply Forall2_nil_inv_r in Hk3 as ->. exists x. split; [|done]. rewrite Heqk. by rewrite last_snoc. }
    unfold cursor. rewrite last_app, Hx. exists (sm_session_id meta). split; [done|].
    apply metadata_of_row_session in Hxm. destruct (Hid x) as [u Hu].
    { rewrite <-(merge_sort_Permutation (by_text_desc s_session_id) (sessions t)).
      fold (newest_first t). rewrite Heq.
      apply elem_of_app. right. apply last_Some in Hx as [l' Hx].
      rewrite <-(take_drop n post), Hx. set_solver. }
    rewrite Hu, parse_uuid_text in Hxm. congruence.
  - done.
  - by apply Forall2_drop.
  - rewrite length_drop. unfold n. lia.
Qed.

(** C37: Paging loses and repeats nothing: whatever the page size, following the cursors
    from the first page returns exactly what one query sorted by identifier, newest
    first, would return: every session once. *)
Theorem pages_list_every_session s limit fuel :
  reachable s → failures s = [] → (1 ≤ limit ≤ 100)%N → (length (sessions (connection s)) < fuel)%nat →
  ∃ metas, all_pages fuel limit None s = (s, Ok (Some metas)) ∧
    try_collect metadata_of_row (newest_first (connection s)) = Ok metas ∧
    NoDup (sm_session_id <$> metas) ∧
    (∀ sid, sid ∈ sm_session_id <$> metas ↔ has_session (connection s) sid).
Proof.
  intros Hr%reachable_SInv Hf Hl Hfuel.
  assert (Hperm : newest_first (connection s) ≡ₚ sessions (connection s)) by apply merge_sort_Permutation.
  assert (∃ metas, Forall2 (λ r meta, metadata_of_row r = Ok meta) (newest_first (connection s)) metas)
    as [metas Hm].
  { assert (∀ r, r ∈ newest_first (connection s) → ∃ meta, metadata_of_row r = Ok meta) as Hall.
    { intros r Hin. rewrite Hperm in Hin.
      destruct (inv_named _ _ Hr r Hin) as (sid & at_time & Hsid & Hat & o & Ho).
      unfold metadata_of_row. rewrite Hsid, Hat, parse_uuid_text, parse_time_text, Ho. eauto. }
    revert Hall. generalize (newest_first (connection s)). intros l Hall.
    induction l as [|r l IH]; [by exists []|]. destruct (Hall r) as [meta Hmeta]; [left|].
    destruct IH as [metas Hm]; [intros x Hx; apply Hall; by right|].
    exists (meta :: metas). by constructor. }
  assert (Hids : uuid_text <$> (sm_session_id <$> metas) = s_session_id <$> newest_first (connection s)).
  { assert (∀ r, r ∈ newest_first (connection s) → ∃ u, s_session_id r = uuid_text u) as Hn.
    { intros r Hin. rewrite Hperm in Hin. destruct (inv_named _ _ Hr r Hin) as (u & _ & Hu & _). eauto. }
    clear -Hm Hn H0. induction Hm as [|r meta l metas Hrm Hm IH]; [done|]. rewrite !fmap_cons.
    f_equal; [|apply IH; intros x Hx; apply Hn; by right]. apply metadata_of_row_session in Hrm.
    destruct (Hn r) as [u Hu]; [left|]. rewrite Hu, parse_uuid_text in Hrm. congruence. }
  exists metas. split_and!.
  - apply (all_pages_suffix fuel limit None (connection s) [] (newest_first (connection s)));
      try done; [apply Hr| |by rewrite Hperm].
    intros r Hin. destruct (inv_named _ _ Hr r Hin) as (u & _ & Hu & _). eauto.
  - by apply try_collect_Ok.
  - apply (NoDup_fmap_1 uuid_text). rewrite Hids, Hperm. apply Hr.
  - intros sid. split.
    + intros Hin. apply (list_elem_of_fmap_2 uuid_text) in Hin. rewrite Hids, Hperm in Hin.
      unfold has_session. rewrite session_row_None. intros Hno.
      apply list_elem_of_fmap in Hin as (r & Heq & Hr'). by apply (Hno r).
    + unfold has_session. destruct (session_row _ _) as [r|] eqn:Hrow; [|done]. intros _.
      apply session_row_Some in Hrow as [Hin Hs].
      assert (uuid_text sid ∈ uuid_text <$> (sm_session_id <$> metas)) as Hin'.
      { rewrite Hids, Hperm, <-Hs. by apply list_elem_of_fmap_2. }
      apply list_elem_of_fmap in Hin' as (x & ->%uuid_text_inj & ?). done.
Qed.
End pages.

(** ** Retention: which sessions the retention window removes

    [run_retention] deletes the sessions that ended at least [retention_days] days
    ago, and only those; a window longer than the calendar of the time library makes
    the subtraction of the window panic. *)

Section retention.
Context `{StorageEnv} {K : Type} `{KeyStore K}.
Implicit Types (s : SqliteStorage K).

(** The rows whose session ended [days] days before [now], or earlier. *)
Definition overdue (now : OffsetDateTime) (days : N) (row : SessionRow) : Prop :=
  text_in (s_state row) RETAINED_STATES = true ∧
  ∃ text at_time, s_terminal_at row = Some text ∧ parse_time text = Ok at_time ∧
    (at_time + Z.of_N days * DAY ≤ now)%Z.

Lemma transaction_Ok {A} (body : SM (bool * A)) s s' a :
  transaction body s = (s', Ok a) → ∃ s1 s2 b, body s1 = (s2, Ok (b, a)).
Proof.
  unfold transaction. intros Ht. break_state. exists s0.
  destruct (body s0) as [s2 [[[] a']|e]]; [|naive_solver|naive_solver].
  destruct (statement s2) as [s3 [u|e]]; naive_solver.
Qed.

Lemma finish_deletion_session sid s s' d :
  finish_deletion sid s = (s', Ok d) → ds_session_id d = sid.
Proof.
  unfold finish_deletion. intros Hf. break_state. destruct a0 as [r|]; [|by break_state].
  break_state. apply transaction_Ok in Hf as (s4 & s5 & b & Hf). by break_state.
Qed.

Lemma request_deletion_session sid did req at_time actor s s' d :
  request_deletion sid did req at_time actor s = (s', Ok d) → ds_session_id d = sid.
Proof.
  unfold request_deletion. intros Hr. break_state. destruct a as [d'|]; break_state.
  - unfold replay_deletion_tombstone in Hstep. break_state. destruct a; [|by break_state].
    case_match; by break_state.
  - case_match; [by break_state|]. break_state. destruct a2; break_state.
    + case_match; [|by break_state]. by eapply finish_deletion_session.
    + by eapply finish_deletion_session.
Qed.

Lemma due_sessions_spec threshold rows due :
  due_sessions threshold rows = Ok due →
  ∀ session, session ∈ due ↔ ∃ text at_time,
    (session, text) ∈ rows ∧ parse_time text = Ok at_time ∧ (at_time ≤ threshold)%Z.
Proof.
  revert due. induction rows as [|[session text] rows IH]; intros due Hd x; simpl in Hd.
  - simplify_eq. set_solver.
  - destruct (parse_time text) as [at_time|e] eqn:Ht; simpl in Hd; [|done].
    destruct (due_sessions threshold rows) as [due'|e]; simpl in Hd; [|done]. simplify_eq.
    specialize (IH due' eq_refl x).
    assert (Hd : x ∈ (if (at_time <=? threshold)%Z then session :: due' else due') ↔
      (x = session ∧ (at_time ≤ threshold)%Z) ∨ x ∈ due').
    { destruct (Z.leb_spec at_time threshold); [rewrite elem_of_cons; tauto|].
      split; [by right|]. intros [[_ ?]|?]; [lia|done]. }
    rewrite Hd, IH. setoid_rewrite elem_of_cons. split.
    + intros [[-> ?]|(text' & at' & ? & ? & ?)]; [|naive_solver]. exists text, at_time. naive_solver.
    + intros (text' & at' & [[= -> ->]|?] & ? & ?); [|naive_solver]. left. split; [done|]. congruence.
Qed.

Lemma candidates_spec t session text :
  (session, text) ∈ retention_candidates t ↔
  ∃ row, row ∈ sessions t ∧ s_session_id row = session ∧ s_terminal_at row = Some text ∧
    text_in (s_state row) RETAINED_STATES = true.
Proof.
  unfold retention_candidates. rewrite list_elem_of_omap. setoid_rewrite merge_sort_Permutation.
  setoid_rewrite elem_of_filterb. split.

  - intros (row & [Hr Hs] & Ho). exists row. destruct (s_terminal_at row); naive_solver.
  - intros (row & Hr & <- & Ht & Hs). exists row. rewrite Ht. naive_solver.
Qed.

End retention.
