(* ===== verification/StorageWitness.v ===== *)
(** * StorageWitness: the theorems of the storage at concrete inputs

    A storage over the in-memory key store and the sample environment, with a
    session, events, commands, an interrupted deletion and an interrupted creation. *)

From stdpp Require Import sorting list_numbers.
From S2P Require Import Prelude StateResult Text BTree Errors Json Wire Event.
From S2P Require Import StorageKeys StorageSample StorageTables StorageDb StorageInv StorageOps.
From S2P Require Import StorageProps StorageLive StoragePages.

Definition Store : Type := SqliteStorage MemoryKeyStore.

Definition sample_creation (sid req : Uuid) : CreateSession :=
  {| cs_session_id := sid; cs_request_id := req; cs_occurred_at := 10%Z;
     cs_request_parameters := VObject [("persistent", VBool true)];
     cs_command_outcome := VString "created";
     cs_configuration_snapshot := VString "configuration"; cs_lock_snapshot := VString "lock";
     cs_initial_event_payload := VNull |}.

Definition sample_input (event_id : Uuid) (kind : string) (attempt : option Uuid) : EventInput :=
  {| ei_event_id := event_id; ei_session_id := 5%N; ei_occurred_at := 20%Z; ei_kind := kind;
     ei_causation_request_id := Some 8%N; ei_attempt_id := attempt; ei_effect_class := None;
     ei_payload := VString "payload" |}.

Definition new_storage : Store := opened MemoryKeyStore_new 3%N "here" 0%N.

Lemma new_storage_reachable : reachable new_storage.
Proof. apply reachable_opened. intros sid Hk. by apply Hk. Qed.

(** One session. *)
Definition one_session : Store := run (OpCreate (sample_creation 5%N 7%N)) new_storage.

Lemma one_session_reachable : reachable one_session.
Proof.
  eapply reachable_step; [apply new_storage_reachable|]. apply step_run. by split_and!.
Qed.

Lemma one_session_live : has_session (connection one_session) 5%N ∧ ¬ deleting (connection one_session) 5%N.
Proof.
  split.
  - intros Hn. vm_compute in Hn. discriminate.
  - intros Hd. apply Hd. vm_compute. reflexivity.
Qed.

Lemma storage_invariant_witness :
  reachable one_session ∧ (∃ r, session_row (connection one_session) (uuid_text 5%N) = Some r) ∧
  e_sequence <$> events_of (connection one_session) (uuid_text 5%N) = [1%Z].
Proof.
  split; [apply one_session_reachable|].
  destruct (storage_invariant one_session one_session_reachable) as (Hs & _ & _ & _).
  split; [eexists; vm_compute; reflexivity|]. rewrite Hs. vm_compute. reflexivity.
Defined.

Definition two_events : list EventInput :=
  [sample_input 100%N "dispatch_started" (Some 30%N); sample_input 101%N "provider_event" (Some 30%N)].

Definition appended_storage : Store := run (OpAppendAll two_events) one_session.

Definition sample_persisted : list StoredEvent :=
  [persisted_as (sample_input 100%N "dispatch_started" (Some 30%N)) 2%N;
   persisted_as (sample_input 101%N "provider_event" (Some 30%N)) 3%N].

Lemma two_events_appended :
  append_events two_events one_session = (appended_storage, Ok sample_persisted).
Proof. vm_compute. reflexivity. Qed.

Lemma append_replay_witness :
  ∃ before, length before = 1%nat ∧
    replay 5%N 1%N appended_storage =
    (appended_storage, Ok (List.filter (λ e, 1 <? se_sequence e)%N (before ++ sample_persisted))).
Proof.
  destruct (append_replay one_session appended_storage 5%N two_events (Ok sample_persisted))
    as (key & before & Hk & Hh & Hp & Hrep & _).
  - apply one_session_reachable.
  - apply one_session_live.
  - apply one_session_live.
  - by repeat constructor.
  - apply two_events_appended.
  - exists before. split.
    + apply try_collect_length in Hh. rewrite Hh. vm_compute. reflexivity.
    + apply Hrep; [vm_compute; reflexivity|vm_compute; discriminate].
Defined.

Definition sample_outcome : Value := VString "accepted".
Definition sample_parameters : Value := VObject [("content", VString "hello")].
Definition command_events : list EventInput := [sample_input 110%N "input_recorded" None].

Definition committed_storage : Store :=
  (commit_command_events 8%N "session.prompt" sample_parameters sample_outcome command_events one_session).1.

Lemma sample_scoped parameters :
  validate_port_command (command_record "session.prompt" parameters sample_outcome) = Ok tt →
  well_scoped 8%N 5%N "session.prompt" parameters sample_outcome command_events.
Proof. intros Hv. by eexists _, _. Qed.

Lemma command_committed :
  commit_command_events 8%N "session.prompt" sample_parameters sample_outcome command_events one_session =
  (committed_storage, Ok (CES_Recorded [persisted_as (sample_input 110%N "input_recorded" None) 2%N]
                            sample_outcome)).
Proof. vm_compute. reflexivity. Qed.

Lemma sample_scoped_first :
  well_scoped 8%N 5%N "session.prompt" sample_parameters sample_outcome command_events.
Proof. apply sample_scoped. vm_compute. reflexivity. Qed.

Lemma sample_scoped_other : well_scoped 8%N 5%N "session.prompt" VNull sample_outcome command_events.
Proof. apply sample_scoped. vm_compute. reflexivity. Qed.

Lemma sample_hashes :
  text_eq (canonical_hash sample_parameters) (canonical_hash VNull) = false.
Proof. vm_compute. reflexivity. Qed.

Lemma command_takes_effect_once_witness :
  commit_command_events 8%N "session.prompt" sample_parameters sample_outcome command_events
    committed_storage = (committed_storage, Ok (CES_Replay sample_outcome)) ∧
  commit_command_events 8%N "session.prompt" VNull sample_outcome command_events
    committed_storage = (committed_storage, Err SE_RequestConflict).
Proof.
  pose proof (command_takes_effect_once one_session committed_storage 5%N 8%N "session.prompt"
    sample_parameters sample_outcome command_events
    (Ok (CES_Recorded [persisted_as (sample_input 110%N "input_recorded" None) 2%N] sample_outcome))
    one_session_reachable (proj1 one_session_live) (proj2 one_session_live)) as Hc.
  specialize (Hc ltac:(by repeat constructor) eq_refl sample_scoped_first command_committed).
  destruct Hc as (_ & _ & Hc). specialize (Hc ltac:(vm_compute; reflexivity)). split.
  - rewrite (Hc _ _ _ _ sample_scoped_first). by rewrite !text_eq_refl.
  - rewrite (Hc _ _ _ _ sample_scoped_other). by rewrite sample_hashes, andb_false_r.
Defined.

Lemma memory_answers : answers_deletions (λ k : MemoryKeyStore, mk_available k = true).
Proof.
  intros k id Hk. simpl. unfold memory_delete, require_available. rewrite Hk. done.
Qed.

Definition interrupted (l : list bool) (s : Store) : Store :=
  {| connection := connection s; failures := l; keys := keys s |}.

(** The session is terminal, and the deletion stops after the key is gone. *)
Definition deleting_storage : Store :=
  let s := run (OpAppend (sample_input 120%N "session_completed" None)) one_session in
  interrupted [] (run (OpDelete 5%N 60%N 61%N 30%Z "user")
    (interrupted (replicate 13 false ++ [true]) s)).


(** A creation that stops after its key was stored. *)
Definition creating_storage : Store :=
  interrupted [] (run (OpCreate (sample_creation 6%N 9%N))
    (interrupted (replicate 5 false ++ replicate 9 true) one_session)).

Lemma creating_reachable : reachable creating_storage.
Proof.
  eapply reachable_step; [|apply (step_failures _ [])].
  eapply reachable_step; [|by apply (step_run (OpCreate (sample_creation 6%N 9%N)))].
  eapply reachable_step; [apply one_session_reachable|apply step_failures].
Qed.

Lemma creations_reconciled_witness :
  (key_stored (keys creating_storage) 6%N ∧ session_row (connection creating_storage) (uuid_text 6%N) = None) ∧
  ∃ s' n, resume_session_creations creating_storage = (s', Ok n) ∧
    session_creation_journal (connection s') = [] ∧
    ∀ sid, key_stored (keys s') sid → has_session (connection s') sid.
Proof.
  split; [split; [intros Hn; vm_compute in Hn; discriminate|vm_compute; reflexivity]|].
  destruct (creations_reconciled (λ k, mk_available k = true) creating_storage)
    as (s' & n & Hr & Hj & _ & _ & Hk).
  - apply memory_answers.
  - apply creating_reachable.
  - vm_compute. reflexivity.
  - vm_compute. reflexivity.
  - exists s', n. split_and!; [exact Hr|exact Hj|exact Hk].
Defined.

Lemma appended_reachable : reachable appended_storage.
Proof.
  eapply reachable_step; [apply one_session_reachable|].
  apply (step_run (OpAppendAll two_events)). by repeat constructor.
Qed.

Definition recovered_storage : Store := (recover_uncertain_attempts 40%Z appended_storage).1.

Definition sample_recovered : list RecoveredAttempt :=
  match (recover_uncertain_attempts 40%Z appended_storage).2 with Ok l => l | Err _ => [] end.

Lemma attempts_recovered :
  recover_uncertain_attempts 40%Z appended_storage = (recovered_storage, Ok sample_recovered).
Proof. vm_compute. reflexivity. Qed.

Lemma attempts_settled_witness :
  length sample_recovered = 1%nat ∧ uncertain_attempts (connection recovered_storage) = [] ∧
  recover_uncertain_attempts 41%Z recovered_storage = (recovered_storage, Ok []).
Proof.
  destruct (attempts_settled appended_storage recovered_storage 40%Z sample_recovered
    appended_reachable attempts_recovered) as (_ & _ & _ & Hnil & Hagain).
  split_and!; [vm_compute; reflexivity|exact Hnil|]. apply Hagain. vm_compute. reflexivity.
Defined.

(** Two sessions, listed one per page. *)
Definition two_sessions : Store := run (OpCreate (sample_creation 6%N 9%N)) one_session.

Lemma pages_list_every_session_witness :
  ∃ metas, all_pages 3 1%N None two_sessions = (two_sessions, Ok (Some metas)) ∧
    (∀ sid, sid ∈ sm_session_id <$> metas ↔ has_session (connection two_sessions) sid).
Proof.
  destruct (pages_list_every_session two_sessions 1%N 3) as (metas & Hp & _ & _ & Hall).
  - eapply reachable_step; [apply one_session_reachable|].
    apply (step_run (OpCreate (sample_creation 6%N 9%N))). by split_and!.
  - vm_compute. reflexivity.
  - vm_compute. split; discriminate.
  - vm_compute. lia.
  - exists metas. split; [exact Hp|exact Hall].
Defined.

(** A session that completed on the first day, and a window of two days. *)
Definition completed_storage : Store :=
  run (OpAppendAll [sample_input 102%N "session_completed" (Some 30%N)]) appended_storage.

Definition retained_storage : Store := (run_retention (3 * DAY)%Z (Some 2%N) completed_storage).1.

Definition sample_deleted : list DeletionSummary :=
  match (run_retention (3 * DAY)%Z (Some 2%N) completed_storage).2 with
  | Ok (Some l) => l
  | _ => []
  end.

Lemma retention_ran :
  run_retention (3 * DAY)%Z (Some 2%N) completed_storage = (retained_storage, Ok (Some sample_deleted)).
Proof. vm_compute. reflexivity. Qed.

