(* ===== verification/StorageView.v ===== *)
(** * StorageView: the storage seen as histories of sessions

    [stored_history s sid h]: the session exists, its key can be read from the key
    store, and under that key its history is [h]. The lemmas say which operations
    leave all histories alone ([views]), which extend one of them, and which only
    remove histories ([shrinks]). *)

From S2P Require Import Prelude StateResult Text BTree Errors Json Wire Event.
From S2P Require Import StorageKeys StorageTables StorageDb StorageInv StorageOps StorageProps.

Section view.
Context `{StorageEnv} `{!StorageEnvLaws} {K : Type} `{KeyStore K} `{!KeyStoreLaws K}.
Implicit Types (t : Tables) (m : KeyManager K) (s : SqliteStorage K).

Definition stored_history s (sid : Uuid) (h : list StoredEvent) : Prop :=
  has_session (connection s) sid ∧
  ∃ key, readable (keys s) sid key ∧ history key sid (connection s) = Ok h.

Lemma stored_history_unique s sid h h' : stored_history s sid h → stored_history s sid h' → h = h'.
Proof.
  intros (_ & key & Hk & Hh) (_ & key' & Hk' & Hh'). rewrite (readable_unique _ _ _ _ Hk' Hk) in Hh'.
  congruence.
Qed.

(** No session key is stored before the root keys. *)
Definition rooted m : Prop := ∀ sid, key_stored m sid → entry m (km_root_key_id m) ≠ None.

(** ** States with the same histories *)

Record same_view s s' : Prop := {
  sv_session sid : has_session (connection s') sid ↔ has_session (connection s) sid;
  sv_events sid : has_session (connection s) sid →
    events_of (connection s') (uuid_text sid) = events_of (connection s) (uuid_text sid);
  sv_key sid key : has_session (connection s) sid →
    readable (keys s') sid key ↔ readable (keys s) sid key;
  sv_rooted : rooted (keys s) → rooted (keys s');
}.

Lemma same_view_refl s : same_view s s.
Proof. by split. Qed.

Lemma same_view_trans s1 s2 s3 : same_view s1 s2 → same_view s2 s3 → same_view s1 s3.
Proof.
  intros V1 V2. split.
  - intros sid. by rewrite (sv_session _ _ V2), (sv_session _ _ V1).
  - intros sid Hs. rewrite (sv_events _ _ V2) by (by apply (sv_session _ _ V1)). by apply V1.
  - intros sid key Hs. rewrite (sv_key _ _ V2) by (by apply (sv_session _ _ V1)). by apply V1.
  - intros Hr. by apply V2, V1.
Qed.

Lemma same_view_histories s s' :
  same_view s s' → ∀ sid h, stored_history s' sid h ↔ stored_history s sid h.
Proof.
  intros V sid h. unfold stored_history, history. rewrite (sv_session _ _ V).
  split; intros (Hs & key & Hk & Hh); (split; [done|exists key]);
    [rewrite (sv_events _ _ V) in Hh by done; by rewrite (sv_key _ _ V) in Hk|].
  rewrite (sv_events _ _ V) by done. by rewrite (sv_key _ _ V).
Qed.

(** The same entries in the key store. *)
Definition same_entries m m' : Prop := same_space m m' ∧ ∀ i, entry m' i = entry m i.

Lemma same_entries_refl m : same_entries m m.
Proof. by split. Qed.

Lemma same_entries_trans m1 m2 m3 : same_entries m1 m2 → same_entries m2 m3 → same_entries m1 m3.
Proof. intros [S1 E1] [S2 E2]. split; [by eapply same_space_trans|]. intros i. by rewrite E2, E1. Qed.

Lemma same_entries_sym m m' : same_entries m m' → same_entries m' m.
Proof. intros [[S1 S2] E]. split; [by split|]. intros i. by rewrite E. Qed.

Lemma same_keys_entries m m' : same_keys m m' → same_entries m m'.
Proof. intros Hk. split; [by apply same_keys_space|]. intros i. by apply same_keys_entry. Qed.

Lemma same_entries_readable m m' sid key : same_entries m m' → readable m' sid key ↔ readable m sid key.
Proof.
  intros He. split; [apply same_entries_sym in He|]; destruct He as [Hs He]; by apply readable_frame.
Qed.

Lemma same_entries_rooted m m' : same_entries m m' → rooted m → rooted m'.
Proof.
  intros [Hs He] Hr sid. unfold key_stored. rewrite !He, (session_key_id_space _ _ _ Hs).
  destruct Hs as [-> _]. apply Hr.
Qed.

Lemma same_view_tables s s' :
  sessions (connection s') = sessions (connection s) →
  session_events (connection s') = session_events (connection s) →
  same_entries (keys s) (keys s') → same_view s s'.
Proof.
  intros Hs He Hk. unfold has_session, session_row, events_of. split; unfold has_session, session_row, events_of;
    rewrite ?Hs, ?He; [done|done| |by apply same_entries_rooted].
  intros sid key _. by apply same_entries_readable.
Qed.

Lemma calm_view s s' : calm s s' → same_view s s'.
Proof. intros [Ht Hk]. apply same_view_tables; [by rewrite Ht..|by apply same_keys_entries]. Qed.

(** ** Methods that keep the histories *)

Definition views {A} (f : SM (K := K) A) : Prop := ∀ s, SInv s → same_view s (f s).1.

Lemma views_calm {A} (f : SM A) : (∀ s s' r, f s = (s', r) → calm s s') → views f.
Proof. intros Hf s _. destruct (f s) as [s' r] eqn:Hs. by eapply calm_view, Hf. Qed.

Lemma views_ret {A} (a : A) : views (st_ret a).
Proof. intros s _. apply same_view_refl. Qed.
Lemma views_err {A} (e : StorageError) : views (st_err (A := A) e).
Proof. intros s _. apply same_view_refl. Qed.
Lemma views_lift {A} (r : Result A StorageError) : views (st_lift r).
Proof. intros s _. apply same_view_refl. Qed.
Lemma views_query {A} (f : Tables → A) : views (query f).
Proof. apply views_calm. by intros s s' r [? _]%query_calm. Qed.
Lemma views_fresh : views fresh_uuid.
Proof. apply views_calm, fresh_uuid_calm. Qed.

Lemma views_bind {A B} (f : SM A) (k : A → SM B) :
  keeps SInv f → views f → (∀ a, views (k a)) → views (st_bind f k).
Proof.
  intros Hi Hf Hk s Hs. specialize (Hi s Hs). specialize (Hf s Hs). unfold st_bind.
  destruct (f s) as [s1 [a|e]]; simpl in *; [|done]. eapply same_view_trans; [done|]. by apply Hk.
Qed.

Lemma views_for {A} (f : A → SM unit) l :
  (∀ a, keeps SInv (f a)) → (∀ a, views (f a)) → views (st_for f l).
Proof.
  intros Hi Hf. induction l as [|x l IH]; simpl; [apply views_ret|]. by apply views_bind.
Qed.

Lemma views_map {A B} (f : A → SM B) l :
  (∀ a, keeps SInv (f a)) → (∀ a, views (f a)) → views (st_map f l).
Proof.
  intros Hi Hf. induction l as [|x l IH]; simpl; [apply views_ret|].
  apply views_bind; [done|done|]. intros y. apply views_bind; [by apply keeps_map|done|].
  intros ys. apply views_ret.
Qed.

Lemma views_session_key sid : views (with_keys (session_key sid)).
Proof.
  intros s Hs. unfold with_keys. destruct (session_key sid (keys s)) as [m r] eqn:Hk.
  apply Inv_session_key with (t := connection s) in Hk as (_ & Hsp & He & _); [|done].
  by apply same_view_tables.
Qed.

(** Statements on other tables. *)
Definition beside t t' : Prop := sessions t' = sessions t ∧ session_events t' = session_events t.

Lemma views_execute f : (∀ t t', f t = Some t' → beside t t') → views (execute f).
Proof.
  intros Hf s _. destruct (execute f s) as [s' r] eqn:He. apply execute_effect in He as [Hk Hr].
  destruct r as [u|e]; simpl.
  - apply Hf in Hr as [Hs He]. apply same_view_tables; [done|done|by apply same_keys_entries].
  - apply calm_view. by split.
Qed.

Lemma views_execute_count f :
  (∀ t t' n, f t = Some (t', n) → beside t t') → views (execute_count f).
Proof.
  intros Hf s _. destruct (execute_count f s) as [s' r] eqn:He.
  apply execute_count_effect in He as [Hk Hr]. destruct r as [u|e]; simpl.
  - apply Hf in Hr as [Hs He]. apply same_view_tables; [done|done|by apply same_keys_entries].
  - apply calm_view. by split.
Qed.

Lemma views_transaction {A} (body : SM (bool * A)) :
  tables_only body → views body → views (transaction body).
Proof.
  intros Hto Hb s Hs. destruct (transaction body s) as [s' r] eqn:Htx.
  apply transaction_effect in Htx as [Hk Hr]; [|done]. simpl. destruct r as [a|e].
  - destruct Hr as (s0 & s1 & b & Hc & Hbody & Hconn).
    pose proof (Hb s0 (SInv_calm _ _ Hc Hs)) as V. rewrite Hbody in V. simpl in V.
    pose proof (same_view_trans _ _ _ (calm_view _ _ Hc) V) as [V1 V2 _ _].
    destruct b; [|by apply calm_view; split]. split; [intros sid; rewrite Hconn; apply V1|intros sid; rewrite Hconn; apply V2| |].
    + intros sid key _. by apply same_entries_readable, same_keys_entries.
    + by apply same_entries_rooted, same_keys_entries.
  - apply calm_view. by split.
Qed.

Lemma insert_outcome_beside row t t' : insert_outcome row t = Some t' → beside t t'.
Proof. intros (? & ? & _)%insert_outcome_elsewhere. by split. Qed.

Lemma views_insert_port sid req record : views (insert_port_command sid req record).
Proof. apply views_execute, insert_outcome_beside. Qed.
End view.

Create HintDb views.

#[export] Hint Resolve views_ret views_err views_lift views_query views_fresh views_session_key
  views_insert_port : views.
#[export] Hint Resolve keeps_query keeps_fresh_uuid keeps_session_key keeps_insert_port_command
  keeps_stored_key_id keeps_ret keeps_err keeps_lift keeps_lookup_port_command
  keeps_lookup_stored_command : views.

(** Follows the structure of a method. *)
Ltac views :=
  repeat first
    [ progress intros
    | solve [auto with views]
    | match goal with
      | |- views (st_bind _ _) => apply views_bind
      | |- views (st_for _ _) => apply views_for
      | |- views (st_map _ _) => apply views_map
      | |- views (match ?o with _ => _ end) => destruct o
      | |- keeps _ (st_bind _ _) => apply keeps_bind
      | |- keeps _ (match ?o with _ => _ end) => destruct o
      end ].

Section operations.
Context `{StorageEnv} `{!StorageEnvLaws} {K : Type} `{KeyStore K} `{!KeyStoreLaws K}.

Lemma views_stored_key_id sid : views (K := K) (stored_key_id sid).
Proof. unfold stored_key_id. views. Qed.

Lemma views_lookup_port sid req : views (K := K) (lookup_port_command sid req).
Proof. unfold lookup_port_command, lookup_stored_command. views. Qed.

Lemma views_lookup sid req method parameters :
  views (K := K) (lookup_command_outcome sid req method parameters).
Proof. unfold lookup_command_outcome. views; apply views_lookup_port. Qed.

Lemma views_record scope req sid method parameters outcome :
  views (K := K) (record_command_outcome scope req sid method parameters outcome).
Proof.
  unfold record_command_outcome. destruct (_ || _); [views|]. apply views_transaction.
  - apply tables_only_bind; [apply tables_only_lookup_stored_command|].
    intros [r|]; [apply tables_only_bind; [apply tables_only_pure|]; intros v;
      destruct (_ && _); [apply tables_only_ret|apply tables_only_err]|].
    apply tables_only_bind; [apply tables_only_insert_port_command|]. intros. apply tables_only_ret.
  - unfold lookup_stored_command. views.
Qed.

Lemma views_load sid : views (K := K) (load_session sid).
Proof. unfold load_session. views. Qed.

Lemma views_load_all : views (K := K) load_sessions.
Proof. unfold load_sessions. views; [apply keeps_load_session|apply views_load]. Qed.

Lemma views_load_state sid : views (K := K) (load_session_state sid).
Proof. unfold load_session_state. views. Qed.

Lemma views_list limit before : views (K := K) (list_session_metadata limit before).
Proof. unfold list_session_metadata. views. Qed.

Lemma views_is_deleted sid : views (K := K) (is_deleted sid).
Proof. apply views_query. Qed.

Lemma views_pending sid : views (K := K) (ensure_no_pending_export sid).
Proof. unfold ensure_no_pending_export. views. Qed.

Lemma views_replay sid after : views (K := K) (replay sid after).
Proof. unfold replay. views. Qed.

(** Destroying a key changes nothing but its entry, which goes or stays. *)
Lemma destroy_effect sid (m m' : KeyManager K) r :
  namespaced m → destroy_session_key sid m = (m', r) →
  same_space m m' ∧ (∀ i, i ≠ session_key_id m sid → entry m' i = entry m i) ∧
  (entry m' (session_key_id m sid) = None ∨
   entry m' (session_key_id m sid) = entry m (session_key_id m sid)) ∧
  (∀ x key, x ≠ sid → readable m' x key ↔ readable m x key) ∧
  (∀ key, readable m' sid key → readable m sid key) ∧ (rooted m → rooted m').
Proof.
  intros Hn Hd. pose proof (same_space_destroy _ _ _ _ Hd) as Hsp.
  pose proof (λ i, destroy_other _ _ _ _ i Hd) as He.
  assert (entry m' (session_key_id m sid) = None ∨
    entry m' (session_key_id m sid) = entry m (session_key_id m sid)) as Hself.
  { unfold destroy_session_key, store_delete in Hd. destruct (ks_delete _ _) as [k r'] eqn:Hk.
    injection Hd as <- <-. unfold entry. simpl.
    destruct r'; [left; by apply delete_Ok in Hk|]. by apply delete_Err in Hk as [Hk|Hk]; [right|left]. }
  pose proof (session_key_id_root m sid Hn) as Hroot.
  assert (entry m' (km_root_key_id m) = entry m (km_root_key_id m)) as Hre by (by apply He).
  assert (same_space m' m) as Hsp' by (destruct Hsp; by split).
  assert (∀ x, session_key_id m' x = session_key_id m x) as Hid
    by (intros x; by apply session_key_id_space).
  assert (km_root_key_id m' = km_root_key_id m) as Hrid by apply Hsp.
  split_and!; [done|done|done|..].
  - intros x key Hx. assert (session_key_id m x ≠ session_key_id m sid) by (by intros ?%session_key_id_inj).
    split; apply readable_frame; rewrite ?Hid, ?Hrid, ?Hre; try done; [symmetry|]; by apply He.
  - intros key Hk. destruct Hself as [Hno|Hsame].
    + apply readable_stored in Hk. unfold key_stored in Hk. by rewrite Hid, Hno in Hk.
    + revert Hk. apply readable_frame; rewrite ?Hid, ?Hrid; done.
  - intros Hr x. unfold key_stored. rewrite Hrid, Hre, Hid. intros Hx. apply (Hr x). unfold key_stored.
    destruct (decide (x = sid)) as [->|Hne]; [destruct Hself; congruence|].
    rewrite <-He; [done|]. by intros ?%session_key_id_inj.
Qed.

(** Reconciling a creation destroys keys of no session. *)
Lemma views_destroy sid s :
  SInv s → ¬ has_session (connection s) sid →
  same_view s (with_keys (K := K) (destroy_session_key sid) s).1.
Proof.
  intros Hs Hno. unfold with_keys. destruct (destroy_session_key sid (keys s)) as [m r] eqn:Hd.
  apply destroy_effect in Hd as (_ & _ & _ & Hk & _ & Hr); [|apply Hs].
  split; simpl; [done|done| |done]. intros x key Hx. apply Hk. by intros ->.
Qed.

Lemma views_reconcile journal : views (K := K) (reconcile_creation journal).
Proof.
  intros s Hs. unfold reconcile_creation. unfold st_bind at 1, with_keys at 1, st_gets. simpl.
  destruct s as [t f m]. simpl. destruct (negb _ || negb _); [apply same_view_refl|].
  unfold st_bind at 1. destruct (query _ _) as [s1 r1] eqn:Hq. apply query_calm in Hq as [Hc Hr].
  pose proof (SInv_calm _ _ Hc Hs) as Hs1. apply calm_view in Hc as V1.
  destruct r1 as [committed|e]; [|done]. specialize (Hr _ eq_refl). simpl in Hr.
  eapply same_view_trans; [exact V1|].
  assert (Hrest : ∀ s2, same_view s1 s2 → same_view s1
    ((let! removed := execute_count (λ t, Some (delete_creation (journal_matches journal) t)) in
      if (removed =? 1)%N then st_ret tt else st_err SE_StorageUnavailable) s2).1).
  { intros s2 V2. eapply same_view_trans; [exact V2|]. unfold st_bind.
    destruct (execute_count _ s2) as [s3 r3] eqn:He. apply execute_count_effect in He as [Hk He].
    assert (same_view s2 s3) as V3.
    { destruct r3 as [n|e]; [|by apply calm_view]. injection He as Ht _.
      apply same_view_tables; [by rewrite <-Ht|by rewrite <-Ht|by apply same_keys_entries]. }
    destruct r3 as [n|e]; [|done]. by destruct (n =? 1)%N. }
  unfold st_bind at 1. destruct (session_row t _) as [row|] eqn:Hrow; subst committed; simpl.
  - destruct (text_eq _ _); [|apply same_view_refl]. simpl. apply Hrest, same_view_refl.
  - pose proof (views_destroy (cj_session_id journal) s1 Hs1) as V2. destruct Hc as [Ht1 _]. simpl in Ht1.
    destruct (with_keys (destroy_session_key _) s1) as [s2 [u|e]] eqn:Hd; simpl in V2.
    + apply Hrest, V2. unfold has_session. rewrite Ht1, Hrow. by intros Hn.
    + apply V2. unfold has_session. rewrite Ht1, Hrow. by intros Hn.
Qed.

Lemma views_reconcile_retry sid req hash : views (K := K) (reconcile_create_retry sid req hash).
Proof.
  unfold reconcile_create_retry. pose proof views_reconcile. pose proof keeps_reconcile_creation.
  unfold creation_journal_by_request, creation_journal_by_session. views.
Qed.

Lemma views_reconcile_request req : views (K := K) (reconcile_creation_by_request req).
Proof.
  unfold reconcile_creation_by_request, creation_journal_by_request. pose proof views_reconcile. views.
Qed.

Lemma views_resume_creations : views (K := K) resume_session_creations.
Proof.
  unfold resume_session_creations. pose proof views_reconcile. pose proof keeps_reconcile_creation. views.
  by apply keeps_for.
Qed.
End operations.
