(* ===== verification/StorageDisk.v ===== *)
(** * StorageDisk: the files an export touches (workbench-storage/src/export.rs)

    [Disk] is the part of the file system an export works on: names, inodes, what is
    known of directories. Every system call takes the next entry of [dk_faults]: it
    works, or it fails, a write after some bytes. What succeeded is durable; the calls
    that force data to disk can fail and change nothing else. The operations below are
    those of export.rs on files, with the errors they turn into. Paths are UTF-8. *)

From S2P Require Import Prelude StateResult Text BTree Errors FileSystem.
From S2P Require Import StorageKeys StorageTables.

Record Inode : Type := {
  in_symlink : bool;
  in_regular : bool;
  in_uid : N;
  in_mode : N;
  in_bytes : string;
}.

Record Disk : Type := {
  dk_names : gmap string N;
  dk_inodes : gmap N Inode;
  dk_next : N;
  dk_draws : N;
  dk_faults : list (option N);
  (** directories: whether a path leads to something, whether it is a symbolic link,
      where it leads *)
  dk_exists : string → bool;
  dk_link : string → option bool;
  dk_canonical : string → option string;
}.

Definition set_files (names : gmap string N) (inodes : gmap N Inode) (next : N) (d : Disk) : Disk :=
  {| dk_names := names; dk_inodes := inodes; dk_next := next; dk_draws := dk_draws d;
     dk_faults := dk_faults d; dk_exists := dk_exists d; dk_link := dk_link d;
     dk_canonical := dk_canonical d |}.

Definition set_faults (faults : list (option N)) (draws : N) (d : Disk) : Disk :=
  {| dk_names := dk_names d; dk_inodes := dk_inodes d; dk_next := dk_next d; dk_draws := draws;
     dk_faults := faults; dk_exists := dk_exists d; dk_link := dk_link d;
     dk_canonical := dk_canonical d |}.

(** [std::io::ErrorKind], as far as it is looked at. *)
Inductive IoError : Type := IO_NotFound | IO_AlreadyExists | IO_Other.

Definition IO (A : Type) : Type := ST Disk IoError A.
Definition DM (A : Type) : Type := ST Disk StorageError A.

Class ExportEnv : Type := {
  process_uid : N;
  device : N;
  (** an X25519 recipient, parsed and printed *)
  age_recipient : string → option string;
  (** whether an encryptor can be built for these recipients *)
  age_accepts : list string → bool;
  (** the n-th file key, the recipients, the plaintext *)
  age_encrypt : N → list string → string → option string;
}.

(** ** System calls *)

(** The next entry of the faults. *)
Definition fault : IO (option N) :=
  λ d, match dk_faults d with
       | [] => (d, Ok None)
       | f :: rest => (set_faults rest (dk_draws d) d, Ok f)
       end.

Definition call : IO unit :=
  let! f := fault in match f with None => st_ret tt | Some _ => st_err IO_Other end.

Definition name_lookup (d : Disk) (path : string) : option (N * Inode) :=
  i ← dk_names d !! path; node ← dk_inodes d !! i; Some (i, node).

(** [fs::symlink_metadata] *)
Definition lstat (path : string) : IO (N * Inode) :=
  let! _ := call in
  st_gets (λ d, match name_lookup d path with Some f => Ok f | None => Err IO_NotFound end).

(** [open] with [O_NOFOLLOW] *)
Definition open_nofollow (path : string) : IO (N * Inode) :=
  let! f := lstat path in if in_symlink f.2 then st_err IO_Other else st_ret f.

(** [fs::remove_file] *)
Definition unlink (path : string) : IO unit :=
  let! _ := lstat path in
  st_modify (λ d, set_files (delete path (dk_names d)) (dk_inodes d) (dk_next d) d).

(** [fs::hard_link] *)
Definition hard_link (original link : string) : IO unit :=
  let! f := lstat original in
  let! taken := st_gets (λ d, Ok (bool_decide (is_Some (dk_names d !! link)))) in
  if taken then st_err IO_AlreadyExists
  else st_modify (λ d, set_files (<[link := f.1]> (dk_names d)) (dk_inodes d) (dk_next d) d).

(** [open] with [O_CREAT | O_EXCL] *)
Definition create_new `{ExportEnv} (path : string) (mode : N) : IO N :=
  let! _ := call in
  let! taken := st_gets (λ d, Ok (bool_decide (is_Some (dk_names d !! path)))) in
  if taken then st_err IO_AlreadyExists
  else
    let! i := st_gets (λ d, Ok (dk_next d)) in
    let! _ := st_modify (λ d, set_files (<[path := i]> (dk_names d))
      (<[i := {| in_symlink := false; in_regular := true; in_uid := process_uid; in_mode := mode;
                 in_bytes := EmptyString |}]> (dk_inodes d)) (i + 1) d) in
    st_ret i.

Definition put_bytes (bytes : string) (node : Inode) : Inode :=
  {| in_symlink := in_symlink node; in_regular := in_regular node; in_uid := in_uid node;
     in_mode := in_mode node; in_bytes := bytes |}.

(** [write_all] and [flush] on a file that was just created *)
Definition write_all (i : N) (bytes : string) : IO unit :=
  let! f := fault in
  let written := match f with
    | None => bytes
    | Some n => String.substring 0 (N.to_nat n) bytes
    end in
  let! _ := st_modify (λ d,
    set_files (dk_names d) (alter (put_bytes written) i (dk_inodes d)) (dk_next d) d) in
  match f with None => st_ret tt | Some _ => st_err IO_Other end.

(** The bytes a read loop collects. *)
Definition read_all (node : Inode) : IO string := let! _ := call in st_ret (in_bytes node).

(** ** Errors *)

Definition from_io {A} (m : IO A) : DM A :=
  λ d, let '(d', r) := m d in (d', map_err (λ _, SE_StorageUnavailable) r).

(** [map_err(|_| UnsafeExportPath)] *)
Definition or_unsafe {A} (m : IO A) : DM A :=
  λ d, let '(d', r) := m d in (d', map_err (λ _, SE_UnsafeExportPath) r).

(** An existing name is unsafe, every other error is passed on. *)
Definition unless_exists {A} (m : IO A) : DM A :=
  λ d, let '(d', r) := m d in
       (d', map_err (λ e, match e with
                          | IO_AlreadyExists => SE_UnsafeExportPath
                          | _ => SE_StorageUnavailable
                          end) r).

(** What [fs::symlink_metadata] says of a name that may be missing. *)
Definition lstat_optional (path : string) : DM (option (N * Inode)) :=
  let! found := st_try (lstat path) in
  match found with
  | Ok f => st_ret (Some f)
  | Err IO_NotFound => st_ret None
  | Err _ => st_err SE_StorageUnavailable
  end.

(** ** Paths *)

(** [Path::join] with a file name *)
Definition join (directory name : string) : string :=
  if bool_decide (directory = "/") then "/" +:+ name else directory +:+ "/" +:+ name.

Definition path_of (cs : list string) : string := default "/" (last (pushes "/" cs)).

(** [Path::parent] and [Path::file_name] of an absolute path without [..] *)
Definition parent (path : string) : option string :=
  match components path with [] => None | cs => Some (path_of (removelast cs)) end.

Definition file_name (path : string) : option string := last (components path).

Definition normalized_output_path (path : string) : DM string :=
  if negb (is_absolute path) || has_parent_dir path then st_err SE_UnsafeExportPath
  else
    let! directory := st_lift (ok_or (parent path) SE_UnsafeExportPath) in
    let! present := st_gets (λ d, Ok (dk_exists d directory)) in
    if negb present then st_err SE_UnsafeExportPath
    else
      let! link := st_gets (λ d, ok_or (dk_link d directory) SE_StorageUnavailable) in
      if (link : bool) then st_err SE_UnsafeExportPath
      else
        let! canonical := st_gets (λ d, ok_or (dk_canonical d directory) SE_StorageUnavailable) in
        let! name := st_lift (ok_or (file_name path) SE_UnsafeExportPath) in
        st_ret (join canonical name).

Definition require_absent (path : string) : DM unit :=
  let! found := lstat_optional path in
  match found with None => st_ret tt | Some _ => st_err SE_UnsafeExportPath end.

Section files.
Context `{StorageEnv} `{ExportEnv}.

Definition staging_name (export_id : Uuid) : string :=
  ".workbench-export-" +:+ uuid_text export_id +:+ ".age.part".

Definition staging_path (output_path : string) (export_id : Uuid) : Result string StorageError :=
  let? directory := ok_or (parent output_path) SE_UnsafeExportPath in
  Ok (join directory (staging_name export_id)).

(** [mode().trailing_zeros() >= 6]: nothing for group and others *)
Definition is_private (mode : N) : bool := (N.land mode 63 =? 0)%N.

Definition own_private (node : Inode) : bool :=
  in_regular node && (in_uid node =? process_uid)%N && is_private (in_mode node).

Definition remove_partial_stage (path : string) : DM unit :=
  let! found := lstat_optional path in
  match found with
  | None => st_ret tt
  | Some f =>
      if own_private f.2 && negb (in_symlink f.2) then from_io (unlink path)
      else st_err SE_UnsafeExportPath
  end.

Definition open_private_file (path : string) : DM (N * Inode) :=
  let! f := or_unsafe (open_nofollow path) in
  let! _ := or_unsafe call in
  if own_private f.2 then st_ret f else st_err SE_UnsafeExportPath.

Record FileFingerprint : Type := {
  ff_blake3 : string;
  ff_size : N;
  ff_device : N;
  ff_inode : N;
}.

Definition fingerprint_of (f : N * Inode) : FileFingerprint :=
  {| ff_blake3 := blake3_hex (in_bytes f.2); ff_size := len (in_bytes f.2); ff_device := device;
     ff_inode := f.1 |}.

#[export] Instance FileFingerprint_eq_dec : EqDecision FileFingerprint.
Proof. solve_decision. Defined.

Definition fingerprint_file (path : string) : DM FileFingerprint :=
  let! f := open_private_file path in
  let! _ := from_io call in
  let! _ := from_io (read_all f.2) in
  st_ret (fingerprint_of f).

Definition validate_fingerprint (path : string) (expected : FileFingerprint) : DM unit :=
  let! found := fingerprint_file path in
  if bool_decide (found ≠ expected) then st_err SE_UnsafeExportPath else st_ret tt.

Definition publish_staged (staging_path output_path : string) (fingerprint : FileFingerprint)
    : DM unit :=
  let! _ := validate_fingerprint staging_path fingerprint in
  let! found := lstat_optional output_path in
  let! _ := match found with
            | None => unless_exists (hard_link staging_path output_path)
            | Some _ => st_ret tt
            end in
  validate_fingerprint output_path fingerprint.

Definition cleanup_stage (path : string) (fingerprint : FileFingerprint) : DM unit :=
  let! found := lstat_optional path in
  match found with
  | None => st_ret tt
  | Some _ =>
      let! _ := validate_fingerprint path fingerprint in
      from_io (unlink path)
  end.

(** [File::open(path)?.sync_all()?] *)
Definition sync_directory : DM unit := let! _ := from_io call in from_io call.

Definition create_private_file (path : string) : DM N := unless_exists (create_new path 384).
End files.

(** ** A disk for witnesses *)

(** One directory, in which everything works. *)
Definition sample_disk : Disk :=
  {| dk_names := ∅; dk_inodes := ∅; dk_next := 1; dk_draws := 0; dk_faults := [];
     dk_exists path := bool_decide (path = "/home"); dk_link _ := Some false;
     dk_canonical path := Some path |}.

(** Recipients are texts of their kind, and encryption marks them. *)
Definition sample_age : ExportEnv := {|
  process_uid := 501;
  device := 7;
  age_recipient r := if starts_with "age1" r then Some r else None;
  age_accepts _ := true;
  age_encrypt _ recipients plaintext :=
    Some ("age:" +:+ String.concat "," recipients +:+ ":" +:+ plaintext);
|}.
