(* ===== verification/StorageExport.v ===== *)
(** * StorageExport: crash-safe exports of sessions (workbench-storage/src/export.rs)

    An export is journaled, written to a private file beside its target, published by
    a hard link that never replaces a file, and committed with its event and its
    outcome; after a crash the journal says where to continue. The methods are those
    of [SqliteStorage], on the database together with the disk. *)

From stdpp Require Import sorting.
From S2P Require Import Prelude StateResult Text BTree Errors Json Wire Event.
From S2P Require Import ConfigModel ConfigValidate ConfigMerge ConfigPreflight FileSystem ConfigLock.
From S2P Require Import StorageKeys StorageTables StorageDb StorageDisk.

Definition EXPORT_METHOD : string := "session.export".
Definition EXPORT_JOURNAL_KIND : string := "export_journal".

(** ** Data *)

Record ExportCommand : Type := {
  xc_session_id : Uuid;
  xc_request_id : Uuid;
  xc_export_id : Uuid;
  xc_occurred_at : OffsetDateTime;
  xc_parameters : Value;
  xc_output_path : string;
  xc_age_recipients : list string;
  xc_outcome : Value;
  xc_event_payload : Value;
}.

Record ExportSummary : Type := {
  xs_session_id : Uuid;
  xs_event_count : N;
  xs_format : string;
}.

Record ExportJournalPayload : Type := {
  xp_schema_version : N;
  xp_parameters : Value;
  xp_output_path : string;
  xp_age_recipients : list string;
  xp_outcome : Value;
  xp_event_id : Uuid;
  xp_occurred_at : string;
  xp_event_payload : Value;
}.

Inductive ExportState : Type := XS_Prepared | XS_Staged | XS_Published.

#[export] Instance ExportState_eq_dec : EqDecision ExportState.
Proof. solve_decision. Defined.

(** [ExportState::as_str] and [ExportState::parse] *)
Definition as_str (s : ExportState) : string :=
  match s with XS_Prepared => "prepared" | XS_Staged => "staged" | XS_Published => "published" end.

Definition parse_state (value : string) : Result ExportState StorageError :=
  if text_eq value "prepared" then Ok XS_Prepared
  else if text_eq value "staged" then Ok XS_Staged
  else if text_eq value "published" then Ok XS_Published
  else Err SE_StorageUnavailable.

Record ExportJournal : Type := {
  xj_export_id : Uuid;
  xj_session_id : Uuid;
  xj_request_id : Uuid;
  xj_parameter_hash : string;
  xj_state : ExportState;
  xj_payload : ExportJournalPayload;
  xj_fingerprint : option FileFingerprint;
}.

Record ExportMetadata : Type := {
  xm_configuration_snapshot : Value;
  xm_session_lock : Value;
  xm_configuration_hash : string;
  xm_lock_hash : string;
}.

Definition ConfigurationSnapshot_codec : Codec ConfigurationSnapshot :=
  struct_codec
    (required "schema_version" (uint_codec u32_max) (required "sources" (vec_codec string_codec)
    (required "content_hash" string_codec (required "configuration" value_codec no_fields))))
    (λ s, (ConfigPreflight.cs_schema_version s, (cs_sources s, (cs_content_hash s,
           (cs_configuration s, tt)))))
    (λ '(a, (b, (c, (d, _)))),
       {| ConfigPreflight.cs_schema_version := a; cs_sources := b; cs_content_hash := c;
          cs_configuration := d |}).

(** The database and the disk. *)
Record Machine (K : Type) : Type := {
  mc_storage : SqliteStorage K;
  mc_disk : Disk;
}.
Arguments mc_storage {K}.
Arguments mc_disk {K}.

Definition is_object (v : Value) : bool := match v with VObject _ => true | _ => false end.

Section checks.
Context `{StorageEnv} `{ExportEnv}.

Definition payload_codec : Codec ExportJournalPayload :=
  struct_codec
    (required "schema_version" (uint_codec u32_max)
    (required "parameters" value_codec
    (required "output_path" string_codec
    (required "age_recipients" (vec_codec string_codec)
    (required "outcome" value_codec
    (required "event_id" uuid_codec
    (required "occurred_at" string_codec
    (required "event_payload" value_codec no_fields))))))))
    (λ p, (xp_schema_version p, (xp_parameters p, (xp_output_path p, (xp_age_recipients p,
           (xp_outcome p, (xp_event_id p, (xp_occurred_at p, (xp_event_payload p, tt)))))))))
    (λ '(v, (a, (o, (r, (u, (e, (t, (p, _)))))))),
       {| xp_schema_version := v; xp_parameters := a; xp_output_path := o; xp_age_recipients := r;
          xp_outcome := u; xp_event_id := e; xp_occurred_at := t; xp_event_payload := p |}).

Definition parse_recipients (recipients : list string) : Result (list string) StorageError :=
  match recipients with
  | [] => Err (SE_InvalidInput "at least one age recipient is required")
  | _ => try_collect (λ r, ok_or (age_recipient r) (SE_InvalidInput "invalid age recipient"))
           recipients
  end.

Definition validate_recipients (recipients : list string) : Result unit StorageError :=
  result_map (λ _, tt) (parse_recipients recipients).

Definition recipient_fingerprints (recipients : list string) : Result (list string) StorageError :=
  result_map (List.map (λ r, "blake3:" +:+ blake3_hex r)) (parse_recipients recipients).

Definition validate_export_command (c : ExportCommand) : Result unit StorageError :=
  if negb (is_object (xc_event_payload c)) || negb (is_object (xc_outcome c))
  then Err (SE_InvalidInput "export outcome and event payload must be objects")
  else
    let expected := VObject [("age_recipients", VArray (VString <$> xc_age_recipients c));
                             ("output_path", VString (xc_output_path c))] in
    if negb (text_eq (canonical_hash expected) (canonical_hash (xc_parameters c)))
    then Err (SE_InvalidInput "export parameters do not match command") else Ok tt.

Definition validate_journal_payload (p : ExportJournalPayload) (parameter_hash : string)
    : Result unit StorageError :=
  if negb (xp_schema_version p =? 1)%N || bool_decide (xp_age_recipients p = [])
     || negb (is_object (xp_outcome p)) || negb (is_object (xp_event_payload p))
  then Err SE_StorageUnavailable
  else
    let? _ := validate_recipients (xp_age_recipients p) in
    if negb (text_eq (canonical_hash (xp_parameters p)) parameter_hash)
    then Err SE_AuthenticationFailed
    else result_map (λ _, tt) (parse_time (xp_occurred_at p)).

Definition replay_export_command (existing : StoredCommandRecord) (parameter_hash : string)
    : Result CommandEventOutcome StorageError :=
  if negb (text_eq (cr_method existing) EXPORT_METHOD)
     || negb (text_eq (cr_parameter_hash existing) parameter_hash)
  then Err SE_RequestConflict
  else result_map CEO_Replay (read_value (cr_outcome existing)).

(** [contains_only_redacted_references] *)
Definition redacted : string := "[redacted]".

Fixpoint contains_only_redacted_references (v : Value) : bool :=
  match v with
  | VObject fields =>
      (fix all (l : list (string * Value)) : bool :=
         match l with
         | [] => true
         | (k, x) :: l =>
             (if text_in k ["credential_ref"; "executable"]
              then match x with VString s => text_eq s redacted | _ => false end
              else if text_in k ["ciphertext"; "key_id"; "nonce"; "root_key"; "session_key";
                                 "wrapped_key"]
              then false
              else contains_only_redacted_references x) && all l
         end) fields
  | VArray values =>
      (fix all (l : list Value) : bool :=
         match l with [] => true | x :: l => contains_only_redacted_references x && all l end) values
  | _ => true
  end.

Definition validate_export_metadata (configuration_snapshot session_lock : Value)
    : Result ExportMetadata StorageError :=
  let serde {A} (r : Result A DecodeError) := map_err (λ _, SE_StorageUnavailable) r in
  let? snapshot := serde (dec ConfigurationSnapshot_codec configuration_snapshot) in
  let? lock := serde (dec WorkbenchLock_codec session_lock) in
  let calculated := blake3_hex (json_print (cs_configuration snapshot)) in
  if negb (ConfigPreflight.cs_schema_version snapshot =? 1)%N
     || negb (text_eq (cs_content_hash snapshot) calculated)
     || negb (contains_only_redacted_references (cs_configuration snapshot))
     || negb (bool_decide (wl_scope lock = LS_Session))
     || negb (text_eq (lc_resolved_hash (wl_configuration lock)) (cs_content_hash snapshot))
     || negb (is_ok (lock_verify lock))
  then Err SE_StorageUnavailable
  else Ok {| xm_configuration_snapshot := configuration_snapshot; xm_session_lock := session_lock;
             xm_configuration_hash := cs_content_hash snapshot;
             xm_lock_hash := lock_hash json_print blake3_hex lock |}.

(** *** The bundle *)

Definition newline : string := String "010" EmptyString.
Definition quote : string := String "034" EmptyString.
Definition literal (s : string) : string := quote +:+ s +:+ quote.
Definition quoted (s : string) : string := json_print (VString s).
Definition json_optional (o : option string) : string :=
  match o with Some s => quoted s | None => "null" end.

(** [write_json_record] *)
Definition json_record (v : Value) : string := json_print v +:+ newline.

Definition bundle_header (session_id : Uuid) (m : ExportMetadata) (events : nat) : Value :=
  VObject [("configuration_hash", VString (xm_configuration_hash m));
           ("event_count", VNumber (PosInt (N.of_nat events)));
           ("format", VString "workbench.session-export");
           ("lock_hash", VString (xm_lock_hash m));
           ("schema_version", VNumber (PosInt 1));
           ("session_id", VString (uuid_text session_id))].

(** The line of an event: its payload is copied as it was sealed. *)
Definition bundle_line (key : SecretKey) (session_id : Uuid) (row : EventRow)
    : Result string StorageError :=
  let sequence := Z.to_N (e_sequence row) in
  let? plaintext := decrypt (e_payload row) key
    (row_aad session_id (e_event_id row) sequence (e_kind row)) in
  Ok (String.concat "" [
    "{"; literal "attempt_id"; ":"; json_optional (e_attempt_id row);
    ","; literal "causation_request_id"; ":"; json_optional (e_causation_request_id row);
    ","; literal "effect_class"; ":"; json_optional (e_effect_class row);
    ","; literal "event_id"; ":"; quoted (e_event_id row);
    ","; literal "kind"; ":"; quoted (e_kind row);
    ","; literal "occurred_at"; ":"; quoted (e_occurred_at row);
    ","; literal "payload"; ":"; plaintext;
    ","; literal "sequence"; ":"; decimal sequence;
    ","; literal "session_id"; ":"; literal (uuid_text session_id); "}"; newline]).

Definition bundle (key : SecretKey) (session_id : Uuid) (m : ExportMetadata) (rows : list EventRow)
    : Result string StorageError :=
  let? lines := try_collect (bundle_line key session_id) rows in
  Ok (json_record (bundle_header session_id m (length rows))
      +:+ json_record (xm_configuration_snapshot m) +:+ json_record (xm_session_lock m)
      +:+ String.concat "" lines).
End checks.

(** ** The methods *)

Section methods.
Context `{StorageEnv} `{ExportEnv} {K : Type} `{KeyStore K}.

Definition XM : Type → Type := ST (Machine K) StorageError.

Definition on_storage {A} (m : SM (K := K) A) : XM A :=
  λ x, let '(s, r) := m (mc_storage x) in ({| mc_storage := s; mc_disk := mc_disk x |}, r).

Definition on_disk {A} (m : DM A) : XM A :=
  λ x, let '(d, r) := m (mc_disk x) in ({| mc_storage := mc_storage x; mc_disk := d |}, r).

Definition encrypt_journal_payload (key : SecretKey) (session_id export_id : Uuid)
    (payload : ExportJournalPayload) : SM (K := K) EncryptedPayload :=
  encrypt_json key session_id (uuid_text export_id) 0 EXPORT_JOURNAL_KIND (enc payload_codec payload).

Definition decrypt_journal_payload (key : SecretKey) (session_id export_id : Uuid)
    (payload : EncryptedPayload) : Result ExportJournalPayload StorageError :=
  let? plaintext := decrypt payload key
    (row_aad session_id (uuid_text export_id) 0 EXPORT_JOURNAL_KIND) in
  ok_or (from_slice payload_codec plaintext) SE_StorageUnavailable.

Definition parse_u64 (value : string) : Result N StorageError :=
  ok_or (parse_uint u64_max value) SE_StorageUnavailable.

(** The columns of the fingerprint, which are all set or all missing. *)
Definition read_fingerprint (state : ExportState) (columns : option Fingerprint)
    : Result (option FileFingerprint) StorageError :=
  match columns, state with
  | None, XS_Prepared => Ok None
  | Some fp, XS_Staged | Some fp, XS_Published =>
      let? size := if (0 <=? fp_size fp)%Z then Ok (Z.to_N (fp_size fp)) else Err SE_StorageUnavailable in
      let? device := parse_u64 (fp_device fp) in
      let? inode := parse_u64 (fp_inode fp) in
      Ok (Some {| ff_blake3 := fp_blake3 fp; ff_size := size; ff_device := device;
                  ff_inode := inode |})
  | _, _ => Err SE_StorageUnavailable
  end.

Definition load_export_journal (export_id : Uuid) : SM (K := K) ExportJournal :=
  let! found := query (λ t, export_row t (uuid_text export_id)) in
  let! row := st_lift (ok_or found SE_StorageUnavailable) in
  let! session_id := st_lift (parse_uuid (x_session_id row)) in
  let! request_id := st_lift (parse_uuid (x_request_id row)) in
  let! state := st_lift (parse_state (x_state row)) in
  let! key := with_keys (session_key session_id) in
  let! payload := st_lift (decrypt_journal_payload key session_id export_id (x_payload row)) in
  let! _ := st_lift (validate_journal_payload payload (x_parameter_hash row)) in
  let! fingerprint := st_lift (read_fingerprint state (x_fingerprint row)) in
  st_ret {| xj_export_id := export_id; xj_session_id := session_id; xj_request_id := request_id;
            xj_parameter_hash := x_parameter_hash row; xj_state := state; xj_payload := payload;
            xj_fingerprint := fingerprint |}.

Definition export_ids : SM (K := K) (list string) :=
  query (λ t, merge_sort text_le (x_export_id <$> export_journal t)).

Definition ensure_no_pending_target (output_path : string) : SM (K := K) unit :=
  let! ids := export_ids in
  st_for (λ id,
    let! export_id := st_lift (parse_uuid id) in
    let! journal := load_export_journal export_id in
    if text_eq (xp_output_path (xj_payload journal)) output_path
    then st_err SE_UnsafeExportPath else st_ret tt) ids.

Definition has_deletion_journal (session_id : Uuid) : SM (K := K) bool :=
  query (λ t, match deletion_row t (uuid_text session_id) with Some _ => true | None => false end).

(** The arm of [load_or_create_export_journal] without a journal. *)
Definition create_export_journal (c : ExportCommand) (parameter_hash : string) : XM ExportJournal :=
  let! row := on_storage (query (λ t, session_row t (uuid_text (xc_session_id c)))) in
  let! state := st_lift (ok_or (s_state <$> row) SE_SessionNotFound) in
  let! deleting := if text_eq state "deleting" then st_ret true
                   else on_storage (has_deletion_journal (xc_session_id c)) in
  if (deleting : bool) then st_err (SE_InvalidInput "session deletion prevents export")
  else
    let! output_path := on_disk (normalized_output_path (xc_output_path c)) in
    let! _ := on_disk (require_absent output_path) in
    let! _ := on_storage (ensure_no_pending_target output_path) in
    let! _ := st_lift (validate_recipients (xc_age_recipients c)) in
    let! event_id := on_storage fresh_uuid in
    let payload := {| xp_schema_version := 1; xp_parameters := xc_parameters c;
      xp_output_path := output_path; xp_age_recipients := xc_age_recipients c;
      xp_outcome := xc_outcome c; xp_event_id := event_id;
      xp_occurred_at := time_text (xc_occurred_at c); xp_event_payload := xc_event_payload c |} in
    let! key := on_storage (with_keys (session_key (xc_session_id c))) in
    let! encrypted := on_storage
      (encrypt_journal_payload key (xc_session_id c) (xc_export_id c) payload) in
    let! _ := on_storage (execute (insert_export
      {| x_export_id := uuid_text (xc_export_id c); x_session_id := uuid_text (xc_session_id c);
         x_request_id := uuid_text (xc_request_id c); x_parameter_hash := parameter_hash;
         x_state := "prepared"; x_payload := encrypted; x_fingerprint := None |})) in
    st_ret {| xj_export_id := xc_export_id c; xj_session_id := xc_session_id c;
              xj_request_id := xc_request_id c; xj_parameter_hash := parameter_hash;
              xj_state := XS_Prepared; xj_payload := payload; xj_fingerprint := None |}.

Definition load_or_create_export_journal (c : ExportCommand) (parameter_hash : string)
    : XM ExportJournal :=
  let! existing := on_storage (query (λ t,
    x_export_id <$> first_where (λ r, text_eq (x_session_id r) (uuid_text (xc_session_id c))
                                      && text_eq (x_request_id r) (uuid_text (xc_request_id c)))
                      (export_journal t))) in
  match existing with
  | Some id =>
      let! export_id := st_lift (parse_uuid id) in
      let! journal := on_storage (load_export_journal export_id) in
      if negb (text_eq (xj_parameter_hash journal) parameter_hash)
      then st_err SE_RequestConflict else st_ret journal
  | None => create_export_journal c parameter_hash
  end.

(** [update_export_state]; the size fits an [i64]. *)
Definition update_export_state (export_id : Uuid) (state : ExportState)
    (fingerprint : FileFingerprint) : SM (K := K) unit :=
  if negb (Z.of_N (ff_size fingerprint) <=? i64_max)%Z then st_err SE_StorageUnavailable
  else
    let columns := {| fp_blake3 := ff_blake3 fingerprint; fp_size := Z.of_N (ff_size fingerprint);
                      fp_device := decimal (ff_device fingerprint);
                      fp_inode := decimal (ff_inode fingerprint) |} in
    let! changed := execute_count (update_export (uuid_text export_id) (λ r,
      {| x_export_id := x_export_id r; x_session_id := x_session_id r;
         x_request_id := x_request_id r; x_parameter_hash := x_parameter_hash r;
         x_state := as_str state; x_payload := x_payload r; x_fingerprint := Some columns |})) in
    if (changed =? 1)%N then st_ret tt else st_err SE_StorageUnavailable.

Definition export_metadata (session_id : Uuid) (key : SecretKey) : SM (K := K) ExportMetadata :=
  let! found := query (λ t, session_row t (uuid_text session_id)) in
  let! row := st_lift (ok_or found SE_SessionNotFound) in
  let! configuration := st_lift (decrypt (s_configuration row) key
    (row_aad session_id "configuration" 0 "configuration_snapshot")) in
  let! lock := st_lift (decrypt (s_lock row) key (row_aad session_id "lock" 0 "session_lock")) in
  let! configuration_snapshot := st_lift (read_value configuration) in
  let! session_lock := st_lift (read_value lock) in
  st_lift (validate_export_metadata configuration_snapshot session_lock).

(** [export_rows]; [read_sequence] refuses a negative sequence. *)
Definition export_rows (session_id : Uuid) : SM (K := K) (list EventRow) :=
  let! rows := query (λ t, merge_sort by_sequence (events_of t (uuid_text session_id))) in
  if forallb (λ r, 0 <=? e_sequence r)%Z rows then st_ret rows else st_err SE_StorageUnavailable.

(** The closure of [write_age_bundle]; a bundle that cannot be built has written nothing. *)
Definition write_bundle (path : string) (recipients : list string) (content : Result string StorageError)
    : DM unit :=
  let! i := create_private_file path in
  let! plaintext := st_lift content in
  let! n := st_gets (λ d, Ok (dk_draws d)) in
  let! _ := st_modify (λ d, set_faults (dk_faults d) (n + 1) d) in
  let! ciphertext := st_lift (ok_or (age_encrypt n recipients plaintext) SE_StorageUnavailable) in
  let! _ := from_io (write_all i ciphertext) in
  from_io call.

Definition write_age_bundle (session_id : Uuid) (output_path : string) (recipients : list string)
    : XM ExportSummary :=
  let! recipients := st_lift (parse_recipients recipients) in
  if negb (age_accepts recipients) then st_err SE_StorageUnavailable
  else
    let! key := on_storage (with_keys (session_key session_id)) in
    let! metadata := on_storage (export_metadata session_id key) in
    let! rows := on_storage (export_rows session_id) in
    let! result := st_try (on_disk
      (write_bundle output_path recipients (bundle key session_id metadata rows))) in
    match result with
    | Err e =>
        let! _ := st_try (F := StorageError) (on_disk (from_io (unlink output_path))) in st_err e
    | Ok _ =>
        st_ret {| xs_session_id := session_id; xs_event_count := N.of_nat (length rows);
                  xs_format := "age/v1" |}
    end.

(** The arms of [advance_export] for a journal that is prepared and one that is staged. *)
Definition stage_export (j : ExportJournal) (staging : string) : XM FileFingerprint :=
  let! _ := on_disk (remove_partial_stage staging) in
  let! _ := write_age_bundle (xj_session_id j) staging (xp_age_recipients (xj_payload j)) in
  let! fingerprint := on_disk (fingerprint_file staging) in
  let! _ := on_disk sync_directory in
  let! _ := on_storage (update_export_state (xj_export_id j) XS_Staged fingerprint) in
  st_ret fingerprint.

Definition publish_export (j : ExportJournal) (staging output_path : string)
    (fingerprint : FileFingerprint) : XM unit :=
  let! _ := on_disk (publish_staged staging output_path fingerprint) in
  let! _ := on_disk sync_directory in
  on_storage (update_export_state (xj_export_id j) XS_Published fingerprint).

(** The last part: the file is checked, the stage removed, the event committed. *)
Definition finish_export (j : ExportJournal) (staging output_path : string)
    (fingerprint : FileFingerprint) : XM CommandEventOutcome :=
  let! _ := on_disk (validate_fingerprint output_path fingerprint) in
  let! _ := on_disk (cleanup_stage staging fingerprint) in
  let! _ := on_disk sync_directory in
  let! occurred_at := st_lift (parse_time (xp_occurred_at (xj_payload j))) in
  on_storage (commit_export_command (xj_export_id j) (xj_request_id j) (xj_parameter_hash j)
    (xp_outcome (xj_payload j))
    {| ei_event_id := xp_event_id (xj_payload j); ei_session_id := xj_session_id j;
       ei_occurred_at := occurred_at; ei_kind := "session_exported";
       ei_causation_request_id := Some (xj_request_id j); ei_attempt_id := None;
       ei_effect_class := None; ei_payload := xp_event_payload (xj_payload j) |}).

Definition advance_export (j : ExportJournal) : XM CommandEventOutcome :=
  let! output_path := on_disk (normalized_output_path (xp_output_path (xj_payload j))) in
  if negb (text_eq output_path (xp_output_path (xj_payload j))) then st_err SE_UnsafeExportPath
  else
    let! staging := st_lift (staging_path output_path (xj_export_id j)) in
    let! _ := st_lift (ok_or (parent output_path) SE_UnsafeExportPath) in
    let! staged := if bool_decide (xj_state j = XS_Prepared)
      then let! fingerprint := stage_export j staging in st_ret (XS_Staged, Some fingerprint)
      else st_ret (xj_state j, xj_fingerprint j) in
    let! fingerprint := st_lift (ok_or staged.2 SE_StorageUnavailable) in
    let! _ := if bool_decide (staged.1 = XS_Staged)
      then publish_export j staging output_path fingerprint else st_ret tt in
    finish_export j staging output_path fingerprint.

Definition execute_export (c : ExportCommand) : XM CommandEventOutcome :=
  let! _ := st_lift (validate_export_command c) in
  let parameter_hash := canonical_hash (xc_parameters c) in
  let! existing := on_storage (lookup_port_command (Some (xc_session_id c)) (xc_request_id c)) in
  match existing with
  | Some existing => st_lift (replay_export_command existing parameter_hash)
  | None =>
      let! journal := load_or_create_export_journal c parameter_hash in
      advance_export journal
  end.

Definition resume_export (id : string) : XM (option StoredEvent) :=
  let! export_id := st_lift (parse_uuid id) in
  let! journal := on_storage (load_export_journal export_id) in
  let! outcome := advance_export journal in
  st_ret match outcome with CEO_Recorded event _ => Some event | CEO_Replay _ => None end.

Definition resume_exports : XM (list StoredEvent) :=
  let! ids := on_storage export_ids in
  let! recovered := st_map resume_export ids in
  st_ret (omap id recovered).
End methods.

(** ** Stored journals *)

(** The values of a journal are JSON values. *)
Definition payload_ok (p : ExportJournalPayload) : Prop :=
  (xp_schema_version p ≤ u32_max)%N ∧ value_wf (xp_parameters p) = true ∧
  value_wf (xp_outcome p) = true ∧ value_wf (xp_event_payload p) = true.

#[export] Instance payload_laws `{StorageEnvLaws} : CodecLaws payload_codec payload_ok.
Proof. unfold payload_ok. derive_struct. naive_solver. Qed.

Section journals.
Context `{StorageEnv} `{!StorageEnvLaws} `{ExportEnv} {K : Type} `{KeyStore K}.

Lemma load_export_journal_ok export_id (s s' : SqliteStorage K) j :
  load_export_journal export_id s = (s', Ok j) → payload_ok (xj_payload j).
Proof.
  unfold load_export_journal. intros Hl. break_state. simpl.
  match goal with Hd : decrypt_journal_payload _ _ _ _ = Ok _ |- _ => rename Hd into Hdec end.
  unfold decrypt_journal_payload in Hdec. break_results.
  apply ok_or_Ok in Hdec. exact (from_slice_sound payload_codec payload_ok _ _ Hdec).
Qed.
End journals.
