(* ===== verification/StorageExportProps.v ===== *)
(** * StorageExportProps: what exports do to the disk

    Whatever fails, and wherever an export is interrupted, it removes nothing but
    stages, replaces no file, writes only into files it created, and adds only private
    files ([exports_never_overwrite]); an export that succeeds has published its bundle
    ([export_is_published]). *)

From stdpp Require Import sorting.
From S2P Require Import Prelude StateResult Text BTree Errors Json Wire Event FileSystem.
From S2P Require Import StorageKeys StorageTables StorageDb StorageInv StorageOps StorageView StorageDisk StorageExport.

(** ** Operations that only look *)

Section quiet.
Context `{StorageEnv} `{ExportEnv}.

(** All but the faults to come is the same. *)
Definition same_files (d d' : Disk) : Prop := ∃ faults, d' = set_faults faults (dk_draws d) d.

#[export] Instance same_files_preorder : PreOrder same_files.
Proof.
  split.
  - intros d. exists (dk_faults d). by destruct d.
  - intros d d1 d2 [f1 ->] [f2 ->]. by exists f2.
Qed.

Definition quiet {E A} (m : ST Disk E A) : Prop := ∀ d, same_files d (m d).1.

Lemma quiet_bind {E A B} (m : ST Disk E A) (k : A → ST Disk E B) :
  quiet m → (∀ a, quiet (k a)) → quiet (st_bind m k).
Proof.
  intros Hm Hk d. unfold st_bind. pose proof (Hm d) as Hd. destruct (m d) as [d1 [a|e]]; [|done].
  simpl in Hd. transitivity d1; [done|]. apply Hk.
Qed.

Lemma quiet_same {E A} (m : ST Disk E A) : (∀ d, (m d).1 = d) → quiet m.
Proof. intros Hm d. by rewrite Hm. Qed.

Lemma quiet_fault : quiet fault.
Proof. intros d. unfold fault. destruct (dk_faults d) as [|f l]; [done|]. by exists l. Qed.

Lemma quiet_from_io {A} (m : IO A) : quiet m → quiet (from_io m).
Proof. intros Hm d. specialize (Hm d). unfold from_io. by destruct (m d). Qed.
Lemma quiet_or_unsafe {A} (m : IO A) : quiet m → quiet (or_unsafe m).
Proof. intros Hm d. specialize (Hm d). unfold or_unsafe. by destruct (m d). Qed.
Lemma quiet_try {A E F} (m : ST Disk E A) : quiet m → quiet (st_try (F := F) m).
Proof. intros Hm d. specialize (Hm d). unfold st_try. by destruct (m d). Qed.

(** Follows the structure of an operation that looks at files. *)
Ltac quiet :=
  repeat first
    [ progress intros
    | solve [apply quiet_same; done|apply quiet_fault]
    | match goal with
      | |- quiet (st_bind _ _) => apply quiet_bind
      | |- quiet (from_io _) => apply quiet_from_io
      | |- quiet (or_unsafe _) => apply quiet_or_unsafe
      | |- quiet (st_try _) => apply quiet_try
      | |- quiet (match ?o with _ => _ end) => destruct o
      end ].

Lemma quiet_call : quiet call.
Proof. unfold call. quiet. Qed.
Lemma quiet_lstat path : quiet (lstat path).
Proof. unfold lstat, call. quiet. Qed.
Lemma quiet_lstat_optional path : quiet (lstat_optional path).
Proof. unfold lstat_optional. quiet. apply quiet_lstat. Qed.
Lemma quiet_normalized path : quiet (normalized_output_path path).
Proof. unfold normalized_output_path. quiet. Qed.
Lemma quiet_absent path : quiet (require_absent path).
Proof. unfold require_absent. quiet. apply quiet_lstat_optional. Qed.
Lemma quiet_fingerprint path : quiet (fingerprint_file path).
Proof. unfold fingerprint_file, open_private_file, open_nofollow, read_all, lstat, call. quiet. Qed.
Lemma quiet_validate path fp : quiet (validate_fingerprint path fp).
Proof. unfold validate_fingerprint. quiet. apply quiet_fingerprint. Qed.
Lemma quiet_sync : quiet sync_directory.
Proof. unfold sync_directory, call. quiet. Qed.

(** What a fingerprint was taken of. *)
Lemma fingerprint_found path d d' fp :
  fingerprint_file path d = (d', Ok fp) →
  ∃ f, name_lookup d path = Some f ∧ own_private f.2 = true ∧ in_symlink f.2 = false ∧
       fp = fingerprint_of f.
Proof.
  unfold fingerprint_file, open_private_file, open_nofollow, read_all, lstat, or_unsafe, from_io, st_bind.
  pose proof (quiet_call d) as Hq. destruct (call d) as [d1 [[]|e]]; simpl; [|done].
  destruct Hq as [faults Hq]. simpl in Hq. subst d1. unfold st_gets.
  destruct (name_lookup _ path) as [f|] eqn:Hf; simpl; [|done].
  destruct (in_symlink f.2) eqn:Hs; simpl; [done|].
  destruct (call _) as [d2 [[]|e]]; simpl; [|done]. destruct (own_private f.2) eqn:Ho; simpl; [|done].
  destruct (call d2) as [d3 [[]|e]]; simpl; [|done]. destruct (call d3) as [d4 [[]|e]]; simpl; [|done].
  intros [= <- <-]. by exists f.
Qed.

Lemma validate_found path fp d d' u :
  validate_fingerprint path fp d = (d', Ok u) →
  ∃ f, name_lookup d path = Some f ∧ own_private f.2 = true ∧ in_symlink f.2 = false ∧
       fp = fingerprint_of f.
Proof.
  unfold validate_fingerprint, st_bind. destruct (fingerprint_file path d) as [d1 [g|e]] eqn:Hg; [|done].
  case_bool_decide as Hfp; [done|]. intros [= <- <-]. subst g.
  by eapply fingerprint_found.
Qed.

(** A link gives the file a second name, which was free. *)
Lemma link_found original link d d' u :
  hard_link original link d = (d', Ok u) →
  ∃ f faults, name_lookup d original = Some f ∧ dk_names d !! link = None ∧
    d' = set_faults faults (dk_draws d) (set_files (<[link := f.1]> (dk_names d)) (dk_inodes d) (dk_next d) d).
Proof.
  unfold hard_link, lstat, st_bind. pose proof (quiet_call d) as Hq.
  destruct (call d) as [d1 [[]|e]]; simpl; [|done]. destruct Hq as [faults Hq]. simpl in Hq. subst d1. unfold st_gets.
  destruct (name_lookup _ original) as [f|] eqn:Hf; simpl; [|done].
  case_bool_decide as Ht; [done|]. intros [= <- <-]. exists f, faults. split_and!; [done| |done].
  simpl in Ht. by apply eq_None_not_Some.
Qed.

Lemma link_failed original link d d' e : hard_link original link d = (d', Err e) → same_files d d'.
Proof.
  unfold hard_link. unfold st_bind at 1. pose proof (quiet_lstat original d) as Hq.
  destruct (lstat original d) as [d1 [f|e']]; [|by intros [= <- <-]].
  unfold st_bind, st_gets. case_bool_decide; [by intros [= <- <-]|done].
Qed.
End quiet.

(** ** The disk, seen from an earlier one *)

Section disk.
Context `{StorageEnv} `{ExportEnv}.

(** The name of a stage. *)
Definition is_stage (path : string) : Prop := ∃ directory id, path = join directory (staging_name id).

(** Names other than stages and files that were there still are, unchanged, and other
    names have been given to private files of the process only. *)
Record within (d0 d : Disk) : Prop := {
  wi_names path i : ¬ is_stage path → dk_names d0 !! path = Some i → dk_names d !! path = Some i;
  wi_inodes i node : (i < dk_next d0)%N → dk_inodes d0 !! i = Some node → dk_inodes d !! i = Some node;
  wi_added path i : ¬ is_stage path → dk_names d0 !! path = None → dk_names d !! path = Some i →
    ∃ node, dk_inodes d !! i = Some node ∧ own_private node = true;
  wi_next : (dk_next d0 ≤ dk_next d)%N;
}.

Lemma within_refl d : within d d.
Proof. split; [done|done| |done]. intros path i _. congruence. Qed.

Context (d0 : Disk).

Lemma within_faults faults draws d : within d0 d → within d0 (set_faults faults draws d).
Proof. intros []. by split. Qed.

Lemma within_quiet {E A} (m : ST Disk E A) : quiet m → keeps (within d0) m.
Proof. intros Hm d Hd. destruct (Hm d) as [faults ->]. by apply within_faults. Qed.

Lemma within_unlink path : is_stage path → keeps (within d0) (unlink path).
Proof.
  intros Hp. apply keeps_bind; [apply within_quiet, quiet_lstat|]. intros _ d [Hn Hi Ha Hx].
  split; simpl; [|done| |done].
  - intros q i Hq Hl. rewrite lookup_delete_ne; [by apply Hn|]. by intros <-.
  - intros q i Hq Hl Hl'. apply lookup_delete_Some in Hl' as [_ Hl']. by eapply Ha.
Qed.

(** A private file may get another name. *)
Lemma within_name path i node faults draws d :
  dk_names d !! path = None → dk_inodes d !! i = Some node → own_private node = true →
  within d0 d →
  within d0 (set_faults faults draws (set_files (<[path := i]> (dk_names d)) (dk_inodes d) (dk_next d) d)).
Proof.
  intros Hp Hi Ho [Hn Hino Ha Hx]. apply within_faults. split; simpl; [|done| |done].
  - intros q j Hq Hl. pose proof (Hn q j Hq Hl) as Hl'. rewrite lookup_insert_ne; [done|]. congruence.
  - intros q j Hq Hl Hl'. apply lookup_insert_Some in Hl' as [[<- <-]|[_ Hl']]; [eauto|by eapply Ha].
Qed.

Lemma name_lookup_Some d path f :
  name_lookup d path = Some f ↔ dk_names d !! path = Some f.1 ∧ dk_inodes d !! f.1 = Some f.2.
Proof.
  unfold name_lookup. destruct (dk_names d !! path) as [i|] eqn:Hn; simpl; [|naive_solver].
  destruct (dk_inodes d !! i) as [node|] eqn:Hi; simpl; destruct f; naive_solver.
Qed.

(** A link to a private file. *)
Lemma within_link original link f d :
  name_lookup d original = Some f → own_private f.2 = true → within d0 d →
  within d0 (hard_link original link d).1.
Proof.
  intros Hf Ho Hd. destruct (hard_link original link d) as [d' [[]|e]] eqn:Hl; simpl.
  - apply link_found in Hl as (g & faults & Hg & Hnone & ->). rewrite Hf in Hg.
    injection Hg as <-. apply name_lookup_Some in Hf as [_ Hi]. by eapply within_name.
  - apply link_failed in Hl as [faults ->]. by apply within_faults.
Qed.

Lemma within_publish staging output fp : keeps (within d0) (publish_staged staging output fp).
Proof.
  intros d Hd. unfold publish_staged. unfold st_bind at 1.
  pose proof (quiet_validate staging fp d) as [faults1 Hq].
  destruct (validate_fingerprint staging fp d) as [d1 [[]|e]] eqn:Hv; simpl in Hq; subst d1;
    [|by apply within_faults].
  apply validate_found in Hv as (f & Hf & Ho & _ & _). unfold st_bind at 1.
  pose proof (quiet_lstat_optional output (set_faults faults1 (dk_draws d) d)) as [faults2 Hq].
  destruct (lstat_optional output _) as [d2 [found|e]]; simpl in Hq; subst d2;
    [|by do 2 apply within_faults].
  set (d2 := set_faults faults2 _ _). assert (within d0 d2) as Hd2 by by do 2 apply within_faults.
  unfold st_bind. destruct found as [g|]; [by apply within_quiet; [apply quiet_validate|]|].
  pose proof (within_link staging output f d2 Hf Ho Hd2) as Hl. unfold unless_exists.
  destruct (hard_link staging output d2) as [d3 [[]|e]]; simpl in *; [|done].
  by apply within_quiet; [apply quiet_validate|].
Qed.

Lemma within_create path d d' r :
  create_new path 384 d = (d', r) → within d0 d →
  within d0 d' ∧ ∀ i, r = Ok i → (dk_next d0 ≤ i)%N.
Proof.
  unfold create_new. unfold st_bind at 1. pose proof (quiet_call d) as [faults Hq].
  destruct (call d) as [d1 [u|e]]; simpl in Hq; subst d1;
    [|intros [= <- <-] Hd; by split; [apply within_faults|]].
  intros Hr Hd. unfold st_bind, st_gets, st_modify in Hr. simpl in Hr.
  destruct (bool_decide _) eqn:Ht; injection Hr as <- <-; [by split; [apply within_faults|]|].
  apply bool_decide_eq_false, eq_None_not_Some in Ht. destruct Hd as [Hn Hi Ha Hx].
  split; [|by intros i [= <-]]. split; simpl; [| | |lia].
  - intros q i Hq Hl. pose proof (Hn q i Hq Hl) as Hl'. rewrite lookup_insert_ne; [done|]. congruence.
  - intros i node Hlt Hl. rewrite lookup_insert_ne; [by apply Hi|]. lia.
  - intros q i Hq Hl Hl'. destruct (decide (i = dk_next d)) as [->|Hne].
    + rewrite lookup_insert_eq. eexists. split; [done|]. unfold own_private. simpl. by rewrite N.eqb_refl.
    + rewrite lookup_insert_ne by done. apply lookup_insert_Some in Hl' as [[_ <-]|[_ Hl']]; [done|].
      by eapply Ha.
Qed.

(** Files created since may be written. *)
Lemma within_write i bytes : (dk_next d0 ≤ i)%N → keeps (within d0) (write_all i bytes).
Proof.
  intros Hi. apply keeps_bind; [apply within_quiet, quiet_fault|]. intros f.
  apply keeps_bind; [|intros []; destruct f; [apply keeps_err|apply keeps_ret]].
  intros d [Hn Hino Ha Hx]. split; simpl; [done| | |done].
  - intros j node Hlt Hl. rewrite lookup_alter_ne; [by apply Hino|]. lia.
  - intros q j Hq Hl Hl'. destruct (Ha q j Hq Hl Hl') as (node & Hj & Ho).
    destruct (decide (i = j)) as [<-|Hne]; [|rewrite lookup_alter_ne; by eauto].
    rewrite lookup_alter_eq, Hj. by eexists.
Qed.

Lemma within_from_io {A} (m : IO A) : keeps (within d0) m → keeps (within d0) (from_io m).
Proof. intros Hm d Hd. specialize (Hm d Hd). unfold from_io. by destruct (m d). Qed.

Lemma within_remove path : is_stage path → keeps (within d0) (remove_partial_stage path).
Proof.
  intros Hp. apply keeps_bind; [apply within_quiet, quiet_lstat_optional|].
  intros [f|]; [|apply keeps_ret]. destruct (_ && _); [|apply keeps_err].
  by apply within_from_io, within_unlink.
Qed.

Lemma within_cleanup path fp : is_stage path → keeps (within d0) (cleanup_stage path fp).
Proof.
  intros Hp. apply keeps_bind; [apply within_quiet, quiet_lstat_optional|].
  intros [f|]; [|apply keeps_ret]. apply keeps_bind; [apply within_quiet, quiet_validate|].
  intros _. by apply within_from_io, within_unlink.
Qed.

Lemma within_bundle path recipients content : keeps (within d0) (write_bundle path recipients content).
Proof.
  intros d Hd. unfold write_bundle, create_private_file. unfold st_bind at 1, unless_exists.
  destruct (create_new path 384 d) as [d1 r] eqn:Hc.
  destruct (within_create _ _ _ _ Hc Hd) as [Hd1 Hi]. destruct r as [i|e]; simpl; [|done].
  apply (keeps_bind (within d0)); [apply keeps_lift| |done]. intros plaintext.
  apply keeps_bind; [apply keeps_gets|]. intros n.
  apply keeps_bind; [by intros d' Hd'; apply within_faults|]. intros [].
  apply keeps_bind; [apply keeps_lift|]. intros ciphertext.
  apply keeps_bind; [by apply within_from_io, within_write, Hi|]. intros [].
  apply within_from_io, within_quiet, quiet_call.
Qed.
End disk.

(** ** The methods *)

Section machine.
Context `{StorageEnv} `{ExportEnv} {K : Type} `{KeyStore K}.

(** An export or a recovery, and what fails in it. *)
Inductive Activity : Type :=
  | Export (command : ExportCommand) (faults : list (option N))
  | Recover (faults : list (option N)).

Definition prone (faults : list (option N)) (x : Machine K) : Machine K :=
  {| mc_storage := mc_storage x; mc_disk := set_faults faults (dk_draws (mc_disk x)) (mc_disk x) |}.

Definition perform (x : Machine K) (a : Activity) : Machine K :=
  match a with
  | Export c faults => (execute_export c (prone faults x)).1
  | Recover faults => (resume_exports (prone faults x)).1
  end.

Section frame.
Context (d0 : Disk).

Definition disk_within (x : Machine K) : Prop := within d0 (mc_disk x).

Lemma on_storage_within {A} (m : SM (K := K) A) : keeps disk_within (on_storage m).
Proof. intros x Hx. unfold on_storage. by destruct (m (mc_storage x)). Qed.

Lemma on_disk_within {A} (m : DM A) : keeps (within d0) m → keeps disk_within (on_disk (K := K) m).
Proof. intros Hm x Hx. specialize (Hm _ Hx). unfold on_disk. by destruct (m (mc_disk x)). Qed.

Lemma try_within {A F} (m : XM (K := K) A) : keeps disk_within m → keeps disk_within (st_try (F := F) m).
Proof. intros Hm x Hx. specialize (Hm x Hx). unfold st_try. by destruct (m x). Qed.

Lemma staging_path_stage output id staging : staging_path output id = Ok staging → is_stage staging.
Proof. unfold staging_path. destruct (parent output) as [dir|]; simpl; [|done]. intros [= <-]. by exists dir, id. Qed.

(** Follows the structure of a method. *)
Ltac method :=
  repeat first
    [ progress intros
    | solve [apply keeps_ret|apply keeps_err|apply keeps_lift|apply on_storage_within]
    | match goal with
      | |- keeps _ (st_bind _ _) => apply keeps_bind
      | |- keeps _ (st_try _) => apply try_within
      | |- keeps _ (on_disk _) => apply on_disk_within
      | |- keeps _ (match ?o with _ => _ end) => destruct o
      end
    | solve [apply within_quiet; first [apply quiet_normalized|apply quiet_absent|apply quiet_fingerprint
                                       |apply quiet_validate|apply quiet_sync]
            |apply within_bundle|apply within_publish|by apply within_remove|by apply within_cleanup
            |by apply within_from_io, within_unlink] ].

Lemma write_age_bundle_within sid staging recipients :
  is_stage staging → keeps disk_within (write_age_bundle sid staging recipients).
Proof. intros Hs. unfold write_age_bundle. method. Qed.

Lemma stage_export_within j staging : is_stage staging → keeps disk_within (stage_export j staging).
Proof. intros Hs. unfold stage_export. method. by apply write_age_bundle_within. Qed.

Lemma advance_export_within j : keeps disk_within (advance_export j).
Proof.
  unfold advance_export. apply keeps_bind; [method|]. intros output. destruct (negb _); [method|].
  apply keeps_bind_post with (Q := is_stage); [method| |].
  - intros x x' staging [= _ Hs]. by eapply staging_path_stage.
  - intros staging Hs. unfold publish_export, finish_export. method. by apply stage_export_within.
Qed.

Lemma execute_export_within c : keeps disk_within (execute_export c).
Proof.
  unfold execute_export, load_or_create_export_journal, create_export_journal. method.
  apply advance_export_within.
Qed.

Lemma resume_exports_within : keeps disk_within resume_exports.
Proof.
  unfold resume_exports. method. apply keeps_map. intros id _. unfold resume_export. method.
  apply advance_export_within.
Qed.

Lemma perform_within a x : disk_within x → disk_within (perform x a).
Proof.
  intros Hx. destruct a; [apply execute_export_within|apply resume_exports_within]; by apply within_faults.
Qed.
End frame.

(** C26: Over any number of exports and recoveries, whatever fails in them: a file that was
    there is unchanged, a name that was taken still leads to it unless it is a stage, and
    the names that were added lead to private files of the process. *)
Theorem exports_never_overwrite (activities : list Activity) (x : Machine K) :
  within (mc_disk x) (mc_disk (foldl perform x activities)).
Proof.
  generalize (within_refl (mc_disk x)). generalize (mc_disk x) at 1 3. intros d0. revert x.
  induction activities as [|a l IH]; intros x Hx; [done|]. simpl. by apply IH, perform_within.
Qed.
End machine.

(** ** An export that succeeds *)

Section published.
Context `{StorageEnv} `{!StorageEnvLaws} `{ExportEnv} {K : Type} `{KeyStore K} `{!KeyStoreLaws K}.
Implicit Types (s : SqliteStorage K) (x : Machine K).

(** *** Methods that leave the sessions and their events alone *)

Definition same_events s0 s : Prop := beside (connection s0) (connection s).

Lemma same_events_calm {A} (f : SM (K := K) A) s0 :
  (∀ s, connection (f s).1 = connection s) → keeps (same_events s0) f.
Proof. intros Hf s Hs. unfold same_events. by rewrite Hf. Qed.

Lemma same_events_query {A} (f : Tables → A) s0 : keeps (same_events s0) (query f).
Proof. apply same_events_calm. intros s. destruct (query f s) eqn:Hq. by apply query_calm in Hq as [[? _] _]. Qed.

Lemma same_events_keys {A} (m : KM A) s0 : keeps (same_events s0) (with_keys m).
Proof. apply same_events_calm. intros s. unfold with_keys. by destruct (m (keys s)). Qed.

Lemma same_events_encrypt key sid object sequence kind v s0 :
  keeps (same_events s0) (encrypt_json key sid object sequence kind v).
Proof.
  apply same_events_calm. intros s. destruct (encrypt_json _ _ _ _ _ _ s) eqn:He.
  by apply encrypt_json_effect in He as [[? _] _].
Qed.

Lemma same_events_insert row s0 : keeps (same_events s0) (execute (insert_export row)).
Proof.
  intros s Hs. destruct (execute _ s) as [s' [u|e]] eqn:He; apply execute_effect in He as [_ He];
    unfold same_events in *; simpl; [|by rewrite He].
  unfold insert_export in He. destruct (session_row _ _); [|done]. destruct (_ || _); [done|].
  by injection He as <-.
Qed.

Ltac same_events :=
  repeat first
    [ progress intros
    | solve [auto using keeps_ret, keeps_err, keeps_lift, same_events_query, same_events_keys,
               same_events_encrypt, same_events_insert]
    | match goal with
      | |- keeps _ (st_bind _ _) => apply keeps_bind
      | |- keeps _ (st_for _ _) => apply keeps_for
      | |- keeps _ (match ?o with _ => _ end) => destruct o
      end ].

Lemma same_events_load id s0 : keeps (same_events s0) (load_export_journal id).
Proof. unfold load_export_journal. same_events. Qed.

Lemma same_events_pending path s0 : keeps (same_events s0) (ensure_no_pending_target path).
Proof. unfold ensure_no_pending_target, export_ids. same_events. apply same_events_load. Qed.

Lemma on_storage_Ok {A} (f : SM (K := K) A) x x' a :
  on_storage f x = (x', Ok a) →
  ∃ s, f (mc_storage x) = (s, Ok a) ∧ x' = {| mc_storage := s; mc_disk := mc_disk x |}.
Proof. unfold on_storage. destruct (f (mc_storage x)). intros [= <- ->]. eauto. Qed.

Lemma on_disk_Ok {A} (m : DM A) x x' a :
  on_disk m x = (x', Ok a) →
  ∃ d, m (mc_disk x) = (d, Ok a) ∧ x' = {| mc_storage := mc_storage x; mc_disk := d |}.
Proof. unfold on_disk. destruct (m (mc_disk x)). intros [= <- ->]. eauto. Qed.

(** *** The file *)

Lemma from_io_Ok {A} (m : IO A) d d' a : from_io m d = (d', Ok a) → m d = (d', Ok a).
Proof. unfold from_io. destruct (m d) as [d1 [b|e]]; simpl; [|done]. by intros [= <- <-]. Qed.

Definition new_file (bytes : string) : Inode :=
  {| in_symlink := false; in_regular := true; in_uid := process_uid; in_mode := 384;
     in_bytes := bytes |}.

Lemma create_found path d d' i :
  create_private_file path d = (d', Ok i) →
  i = dk_next d ∧ dk_names d !! path = None ∧ dk_draws d' = dk_draws d ∧
  dk_names d' = <[path := i]> (dk_names d) ∧ dk_inodes d' = <[i := new_file EmptyString]> (dk_inodes d).
Proof.
  unfold create_private_file, unless_exists, create_new. unfold st_bind at 1.
  pose proof (quiet_call d) as [faults Hq]. destruct (call d) as [d1 [[]|e]]; simpl in Hq; subst d1; [|done].
  unfold st_bind, st_gets, st_modify. simpl. destruct (bool_decide _) eqn:Ht; [done|].
  intros [= <- <-]. apply bool_decide_eq_false, eq_None_not_Some in Ht. done.
Qed.

Lemma write_found i bytes d d' u :
  write_all i bytes d = (d', Ok u) →
  dk_names d' = dk_names d ∧ dk_inodes d' = alter (put_bytes bytes) i (dk_inodes d).
Proof.
  unfold write_all. unfold st_bind at 1. pose proof (quiet_fault d) as [faults Hq].
  destruct (fault d) as [d1 [f|e]]; simpl in Hq; subst d1; [|done].
  unfold st_bind, st_modify. destruct f; [done|]. by intros [= <- <-].
Qed.

Lemma quiet_lookup {E A} (m : ST Disk E A) d d' r path :
  quiet m → m d = (d', r) → name_lookup d' path = name_lookup d path.
Proof. intros Hm Hr. pose proof (Hm d) as [faults Hq]. rewrite Hr in Hq. simpl in Hq. by subst d'. Qed.

Lemma write_bundle_file path recipients content d d' u :
  write_bundle path recipients content d = (d', Ok u) →
  ∃ text ciphertext i, content = Ok text ∧ age_encrypt (dk_draws d) recipients text = Some ciphertext ∧
    name_lookup d' path = Some (i, new_file ciphertext).
Proof.
  unfold write_bundle. intros Hr. apply st_bind_Ok in Hr as (d1 & i & Hc & Hr).
  apply create_found in Hc as (-> & _ & Hdraws & Hn & Hi).
  apply st_bind_Ok in Hr as (d2 & text & [= -> Ht] & Hr).
  apply st_bind_Ok in Hr as (d3 & n & [= <- <-] & Hr).
  apply st_bind_Ok in Hr as (d4 & [] & [= <-] & Hr).
  apply st_bind_Ok in Hr as (d5 & ciphertext & [= <- He%ok_or_Ok] & Hr).
  apply st_bind_Ok in Hr as (d6 & [] & [Hwn Hwi]%from_io_Ok%write_found & Hr%from_io_Ok).
  exists text, ciphertext, (dk_next d). rewrite <-Hdraws. split_and!; [done|done|].
  rewrite (quiet_lookup _ _ _ _ path quiet_call Hr). apply name_lookup_Some. simpl in *.
  rewrite Hwn, Hwi, Hn, Hi. by rewrite lookup_insert_eq, lookup_alter_eq, lookup_insert_eq.
Qed.

(** The text of a bundle, from the tables it is built of. *)
Definition bundle_of (t : Tables) (sid : Uuid) (text : string) : Prop :=
  ∃ key row conf lock configuration_snapshot session_lock m,
    session_row t (uuid_text sid) = Some row ∧
    decrypt (s_configuration row) key (row_aad sid "configuration" 0 "configuration_snapshot") = Ok conf ∧
    decrypt (s_lock row) key (row_aad sid "lock" 0 "session_lock") = Ok lock ∧
    read_value conf = Ok configuration_snapshot ∧ read_value lock = Ok session_lock ∧
    validate_export_metadata configuration_snapshot session_lock = Ok m ∧
    bundle key sid m (merge_sort by_sequence (events_of t (uuid_text sid))) = Ok text.

Lemma bundle_beside t t' sid text : beside t t' → bundle_of t' sid text → bundle_of t sid text.
Proof.
  intros [Hs He]. unfold bundle_of, session_row, events_of. by rewrite Hs, He.
Qed.

Lemma metadata_rows key sid s s1 s2 m rows text :
  export_metadata sid key s = (s1, Ok m) → export_rows sid s1 = (s2, Ok rows) →
  bundle key sid m rows = Ok text → bundle_of (connection s) sid text ∧ connection s2 = connection s.
Proof.
  unfold export_metadata, export_rows. intros Hm Hr Hb.
  apply st_bind_Ok in Hm as (s3 & found & [[Hc3 _] Hf]%query_calm & Hm). specialize (Hf _ eq_refl).
  apply st_bind_Ok in Hm as (s4 & row & [= <- Hrow%ok_or_Ok] & Hm).
  apply st_bind_Ok in Hm as (s5 & conf & [= <- Hconf] & Hm).
  apply st_bind_Ok in Hm as (s6 & lock & [= <- Hlock] & Hm).
  apply st_bind_Ok in Hm as (s7 & cs & [= <- Hcs] & Hm).
  apply st_bind_Ok in Hm as (s8 & sl & [= <- Hsl] & [= <- Hv]).
  apply st_bind_Ok in Hr as (s9 & rows' & [[Hc9 _] Hrows]%query_calm & Hr). specialize (Hrows _ eq_refl).
  destruct (forallb _ _); [|done]. injection Hr as <- <-. split; [|congruence].
  exists key, row, conf, lock, cs, sl, m. subst rows'. rewrite Hc3 in Hb. by rewrite <-Hf.
Qed.

Lemma write_age_bundle_file sid path recipients x x' summary :
  write_age_bundle sid path recipients x = (x', Ok summary) →
  ∃ rs n text ciphertext i,
    parse_recipients recipients = Ok rs ∧ bundle_of (connection (mc_storage x)) sid text ∧
    age_encrypt n rs text = Some ciphertext ∧
    name_lookup (mc_disk x') path = Some (i, new_file ciphertext).
Proof.
  unfold write_age_bundle. intros Hr. apply st_bind_Ok in Hr as (x1 & rs & [= <- Hrs] & Hr).
  destruct (negb _); [done|]. apply st_bind_Ok in Hr as (x2 & key & Hk & Hr).
  apply on_storage_Ok in Hk as (s2 & Hk & ->).
  apply st_bind_Ok in Hr as (x3 & m & (s3 & Hm & ->)%on_storage_Ok & Hr).
  apply st_bind_Ok in Hr as (x4 & rows & (s4 & Hrows & ->)%on_storage_Ok & Hr). simpl in *.
  unfold st_bind at 1, st_try, on_disk in Hr. simpl in Hr.
  destruct (write_bundle _ _ _ _) as [d [[]|e]] eqn:Hw; [|by break_state].
  injection Hr as <- <-. apply write_bundle_file in Hw as (text & ciphertext & i & Hb & He & Hl).
  destruct (metadata_rows _ _ _ _ _ _ _ _ Hm Hrows Hb) as [Hof _].
  exists rs, (dk_draws (mc_disk x)), text, ciphertext, i. split_and!; [done| |done|done].
  eapply bundle_beside; [|exact Hof].
  pose proof (same_events_keys (session_key sid) (mc_storage x) (mc_storage x)) as Hs.
  rewrite Hk in Hs. by apply Hs.
Qed.

(** Staging leaves the file under the name of the stage, as it was fingerprinted. *)
Lemma stage_export_file j staging x x' fp :
  stage_export j staging x = (x', Ok fp) →
  ∃ rs n text ciphertext i,
    parse_recipients (xp_age_recipients (xj_payload j)) = Ok rs ∧
    bundle_of (connection (mc_storage x)) (xj_session_id j) text ∧
    age_encrypt n rs text = Some ciphertext ∧
    name_lookup (mc_disk x') staging = Some (i, new_file ciphertext) ∧
    fp = fingerprint_of (i, new_file ciphertext).
Proof.
  unfold stage_export. intros Hr.
  apply st_bind_Ok in Hr as (x1 & [] & (d1 & Hrm & ->)%on_disk_Ok & Hr).
  apply st_bind_Ok in Hr as (x2 & summary & Hw & Hr).
  apply write_age_bundle_file in Hw as (rs & n & text & ciphertext & i & Hrs & Hb & He & Hl).
  apply st_bind_Ok in Hr as (x3 & fp' & (d3 & Hfp & ->)%on_disk_Ok & Hr).
  apply st_bind_Ok in Hr as (x4 & [] & (d4 & Hs & ->)%on_disk_Ok & Hr).
  apply st_bind_Ok in Hr as (x5 & [] & (s5 & Hu & ->)%on_storage_Ok & [= <- <-]). simpl in *.
  exists rs, n, text, ciphertext, i. split_and!; [done|done|done| |].
  - rewrite (quiet_lookup _ _ _ _ _ quiet_sync Hs), (quiet_lookup _ _ _ _ _ (quiet_fingerprint _) Hfp). done.
  - apply fingerprint_found in Hfp as (f & Hf & _ & _ & ->). rewrite Hl in Hf. by injection Hf as <-.
Qed.

Lemma lookup_inode d path path' f g :
  name_lookup d path = Some f → name_lookup d path' = Some g → fingerprint_of f = fingerprint_of g → f = g.
Proof.
  intros [_ Hf]%name_lookup_Some [_ Hg]%name_lookup_Some Hfp. injection Hfp as _ _ Hi.
  destruct f as [i node], g as [i' node']. simpl in *. subst i'. congruence.
Qed.

Lemma unless_exists_Ok {A} (m : IO A) d d' a : unless_exists m d = (d', Ok a) → m d = (d', Ok a).
Proof. unfold unless_exists. destruct (m d) as [d1 [b|e]]; simpl; [|done]. by intros [= <- <-]. Qed.

(** Publishing gives the staged file its name. *)
Lemma publish_staged_file staging output f d d' u :
  publish_staged staging output (fingerprint_of f) d = (d', Ok u) → name_lookup d staging = Some f →
  name_lookup d' output = Some f ∧ name_lookup d' staging = Some f.
Proof.
  unfold publish_staged. intros Hr Hf. apply st_bind_Ok in Hr as (d1 & [] & Hv & Hr).
  pose proof (quiet_lookup _ _ _ _ staging (quiet_validate _ _) Hv) as L1. rewrite Hf in L1.
  apply st_bind_Ok in Hr as (d2 & found & Hl & Hr).
  pose proof (quiet_lookup _ _ _ _ staging (quiet_lstat_optional _) Hl) as L2. rewrite L1 in L2.
  apply st_bind_Ok in Hr as (d3 & [] & Hlink & Hv').
  assert (name_lookup d3 staging = Some f) as L3.
  { destruct found as [g|]; [by injection Hlink as <-|].
    apply unless_exists_Ok, link_found in Hlink as (h & faults & Hh & Hnone & ->).
    rewrite L2 in Hh. injection Hh as <-. apply name_lookup_Some in L2 as [Hn Hi].
    apply name_lookup_Some. simpl. split; [|done]. rewrite lookup_insert_ne; [done|congruence]. }
  pose proof (quiet_lookup _ _ _ _ staging (quiet_validate _ _) Hv') as L4.
  pose proof (quiet_lookup _ _ _ _ output (quiet_validate _ _) Hv') as L5.
  apply validate_found in Hv' as (g & Hg & _ & _ & Hfp). rewrite L4, L5, L3. split; [|done].
  rewrite Hg. f_equal. symmetry. by eapply lookup_inode.
Qed.

Lemma lstat_optional_None path d d' : lstat_optional path d = (d', Ok None) → name_lookup d path = None.
Proof.
  unfold lstat_optional, lstat, call, fault, st_bind, st_try.
  destruct (dk_faults d) as [|[n|] faults]; simpl; [|done|];
    unfold st_gets; simpl; by destruct (name_lookup _ path) as [f|] eqn:Hf; simpl.
Qed.

(** The stage is gone, everything else is as it was. *)
Lemma cleanup_stage_file path fp d d' u :
  cleanup_stage path fp d = (d', Ok u) →
  name_lookup d' path = None ∧ ∀ other, other ≠ path → name_lookup d' other = name_lookup d other.
Proof.
  unfold cleanup_stage. intros Hr. apply st_bind_Ok in Hr as (d1 & found & Hl & Hr).
  pose proof (λ q, quiet_lookup _ _ _ _ q (quiet_lstat_optional _) Hl) as L1. destruct found as [f|].
  - apply st_bind_Ok in Hr as (d2 & [] & Hv & Hr%from_io_Ok).
    pose proof (λ q, quiet_lookup _ _ _ _ q (quiet_validate _ _) Hv) as L2.
    unfold unlink in Hr. apply st_bind_Ok in Hr as (d3 & g & Hs & [= <- _]).
    pose proof (λ q, quiet_lookup _ _ _ _ q (quiet_lstat _) Hs) as L3.
    unfold name_lookup at 1. simpl. rewrite lookup_delete_eq. split; [done|]. intros q Hq.
    rewrite <-L1, <-L2, <-L3. unfold name_lookup. simpl. by rewrite lookup_delete_ne.
  - injection Hr as <- _. apply lstat_optional_None in Hl. by rewrite L1.
Qed.

Lemma finish_export_file j staging output f x x' o :
  finish_export j staging output (fingerprint_of f) x = (x', Ok o) →
  name_lookup (mc_disk x) output = Some f → staging ≠ output →
  name_lookup (mc_disk x') output = Some f ∧ name_lookup (mc_disk x') staging = None.
Proof.
  unfold finish_export. intros Hr Hf Hne.
  apply st_bind_Ok in Hr as (x1 & [] & (d1 & Hv & ->)%on_disk_Ok & Hr).
  apply st_bind_Ok in Hr as (x2 & [] & (d2 & [Hgone Hrest]%cleanup_stage_file & ->)%on_disk_Ok & Hr).
  apply st_bind_Ok in Hr as (x3 & [] & (d3 & Hs & ->)%on_disk_Ok & Hr).
  apply st_bind_Ok in Hr as (x4 & at_time & [= <- _] & (s & _ & ->)%on_storage_Ok). simpl in *.
  rewrite !(quiet_lookup _ _ _ _ _ quiet_sync Hs). split; [|done].
  by rewrite Hrest, (quiet_lookup _ _ _ _ _ (quiet_validate _ _) Hv).
Qed.

(** *** The journal *)

Lemma transaction_committed {A} (body : SM (K := K) (bool * A)) s s' a :
  transaction body s = (s', Ok a) →
  ∃ s0 s1 b, body s0 = (s1, Ok (b, a)) ∧ (b = true → connection s' = connection s1).
Proof.
  unfold transaction, st_bind. destruct (statement s) as [s0 [[]|e]]; [|done].
  destruct (body s0) as [s1 [[[] a']|e]] eqn:Hb; [| |done].
  - destruct (statement s1) as [s2 [[]|e]] eqn:Hs; [|done]. intros [= <- <-].
    apply statement_calm in Hs as [Hc _]. by exists s0, s1, true.
  - intros [= <- <-]. by exists s0, s1, false.
Qed.

Lemma delete_export_gone id t : export_row (delete_export id t).1 id = None.
Proof.
  apply first_where_None. intros r [_ Hr]%elem_of_filterb. by apply negb_true_iff in Hr.
Qed.

Lemma commit_export_journal id req hash outcome event s s' e v :
  commit_export_command id req hash outcome event s = (s', Ok (CEO_Recorded e v)) →
  v = outcome ∧ export_row (connection s') (uuid_text id) = None.
Proof.
  unfold commit_export_command. intros Hr. destruct (_ || _); [done|].
  apply st_bind_Ok in Hr as (s1 & u & _ & Hr). apply st_bind_Ok in Hr as (s2 & key_id & _ & Hr).
  apply st_bind_Ok in Hr as (s3 & key & _ & Hr).
  apply st_bind_Ok in Hr as (s4 & c & (s5 & s6 & b & Hb & Hc)%transaction_committed & Hr).
  destruct c as [persisted|recorded]; [|by break_state]. injection Hr as <- <- <-. split; [done|].
  apply st_bind_Ok in Hb as (s7 & state & _ & Hb). destruct (bool_decide _); [done|].
  apply st_bind_Ok in Hb as (s8 & [existing|] & _ & Hb).
  { destruct (negb _); [done|]. by break_state. }
  apply st_bind_Ok in Hb as (s9 & ev & _ & Hb). apply st_bind_Ok in Hb as (s10 & u' & _ & Hb).
  apply st_bind_Ok in Hb as (s11 & n & [_ Hd]%execute_count_effect & Hb).
  destruct (n =? 1)%N; [|done]. injection Hb as <- <- <-. injection Hd as Hd _.
  rewrite Hc, <-Hd by done. apply delete_export_gone.
Qed.

Lemma finish_export_journal j staging output fp x x' e v :
  finish_export j staging output fp x = (x', Ok (CEO_Recorded e v)) →
  v = xp_outcome (xj_payload j) ∧
  export_row (connection (mc_storage x')) (uuid_text (xj_export_id j)) = None.
Proof.
  unfold finish_export. intros Hr. apply st_bind_Ok in Hr as (x1 & [] & _ & Hr).
  apply st_bind_Ok in Hr as (x2 & [] & _ & Hr). apply st_bind_Ok in Hr as (x3 & [] & _ & Hr).
  apply st_bind_Ok in Hr as (x4 & at_time & _ & (s & Hc & ->)%on_storage_Ok).
  by apply commit_export_journal in Hc.
Qed.

(** *** The methods *)

(** The file under the target holds the bundle for the recipients and is private, the
    stage and the journal are gone. *)
Definition published (t : Tables) (sid export_id : Uuid) (recipients : list string) (output : string) x : Prop :=
  ∃ rs n text ciphertext i,
    parse_recipients recipients = Ok rs ∧ bundle_of t sid text ∧ age_encrypt n rs text = Some ciphertext ∧
    name_lookup (mc_disk x) output = Some (i, new_file ciphertext) ∧
    (∀ staging, staging_path output export_id = Ok staging → name_lookup (mc_disk x) staging = None) ∧
    export_row (connection (mc_storage x)) (uuid_text export_id) = None.

Lemma advance_prepared j x x' e v :
  xj_state j = XS_Prepared →
  staging_path (xp_output_path (xj_payload j)) (xj_export_id j) ≠ Ok (xp_output_path (xj_payload j)) →
  advance_export j x = (x', Ok (CEO_Recorded e v)) →
  v = xp_outcome (xj_payload j) ∧
  published (connection (mc_storage x)) (xj_session_id j) (xj_export_id j)
    (xp_age_recipients (xj_payload j)) (xp_output_path (xj_payload j)) x'.
Proof.
  unfold advance_export. intros Hp Hne Hr.
  apply st_bind_Ok in Hr as (x1 & output & (d1 & Hn & ->)%on_disk_Ok & Hr).
  destruct (text_eq output _) eqn:Ho; [|done]. apply text_eq_true in Ho as ->. simpl in Hr.
  apply st_bind_Ok in Hr as (x2 & staging & [= <- Hs] & Hr).
  apply st_bind_Ok in Hr as (x3 & directory & [= <- _] & Hr). rewrite Hp in Hr. simpl in Hr.
  apply st_bind_Ok in Hr as (x4 & st & Hst & Hr). apply st_bind_Ok in Hst as (x5 & fp & Hst & [= <- <-]).
  apply stage_export_file in Hst as (rs & n & text & ciphertext & i & Hrs & Hb & He & Hl & ->).
  apply st_bind_Ok in Hr as (x6 & fp & [= <- <-] & Hr). simpl in Hr.
  apply st_bind_Ok in Hr as (x7 & [] & Hpub & Hfin). unfold publish_export in Hpub.
  apply st_bind_Ok in Hpub as (x8 & [] & (d8 & Hpf & ->)%on_disk_Ok & Hpub).
  apply publish_staged_file in Hpf as [Hout _]; [|done].
  apply st_bind_Ok in Hpub as (x9 & [] & (d9 & Hsync & ->)%on_disk_Ok & (s & _ & ->)%on_storage_Ok).
  pose proof Hfin as [-> Hj]%finish_export_journal. split; [done|].
  apply finish_export_file in Hfin as [Hout' Hstage]; [|by rewrite <-Hout; eapply quiet_lookup, Hsync; apply quiet_sync|congruence].
  exists rs, n, text, ciphertext, i. split_and!; [done|done|done|done| |done].
  intros q. rewrite Hs. by intros [= <-].
Qed.

Lemma lookup_port_connection sid req s s' r :
  lookup_port_command sid req s = (s', r) → connection s' = connection s.
Proof.
  unfold lookup_port_command, lookup_stored_command, st_bind.
  destruct (query _ s) as [s1 r1] eqn:Hq. apply query_calm in Hq as [[Hc _] _].
  destruct r1 as [[record|]|e]; [by intros [= <- _]| |by intros [= <- _]].
  destruct sid; intros [[Hc' _] _]%query_calm; congruence.
Qed.

Lemma published_beside t t' sid id recipients output x :
  beside t t' → published t' sid id recipients output x → published t sid id recipients output x.
Proof.
  intros Hb (rs & n & text & ciphertext & i & Hrs & Hof & Hrest). exists rs, n, text, ciphertext, i.
  split_and!; [done|by eapply bundle_beside|apply Hrest..].
Qed.

Lemma require_absent_found path d d' u : require_absent path d = (d', Ok u) → name_lookup d path = None.
Proof.
  unfold require_absent. intros Hr. apply st_bind_Ok in Hr as (d1 & [f|] & Hl & Hr); [done|].
  by apply lstat_optional_None in Hl.
Qed.

Definition events_kept s0 x : Prop := same_events s0 (mc_storage x).

Lemma events_kept_storage {A} (f : SM (K := K) A) s0 :
  keeps (same_events s0) f → keeps (events_kept s0) (on_storage f).
Proof. intros Hf x Hx. specialize (Hf _ Hx). unfold on_storage. by destruct (f (mc_storage x)). Qed.

Lemma events_kept_disk {A} (m : DM A) s0 : keeps (events_kept s0) (on_disk m).
Proof. intros x Hx. unfold on_disk. by destruct (m (mc_disk x)). Qed.

Lemma events_kept_create c hash s0 : keeps (events_kept s0) (create_export_journal c hash).
Proof.
  unfold create_export_journal, has_deletion_journal, fresh_uuid, encrypt_journal_payload.
  repeat first
    [ progress intros
    | solve [auto using keeps_ret, keeps_err, keeps_lift, events_kept_disk]
    | match goal with
      | |- keeps _ (st_bind _ _) => apply keeps_bind
      | |- keeps _ (on_storage _) => apply events_kept_storage; first [apply same_events_pending|same_events]
      | |- keeps _ (match ?o with _ => _ end) => destruct o
      end ].
Qed.

(** The journal of a new export: its target is free. *)
Lemma create_journal_found c hash x x' j :
  create_export_journal c hash x = (x', Ok j) →
  xj_state j = XS_Prepared ∧ xj_session_id j = xc_session_id c ∧ xj_export_id j = xc_export_id c ∧
  xp_outcome (xj_payload j) = xc_outcome c ∧ xp_age_recipients (xj_payload j) = xc_age_recipients c ∧
  (normalized_output_path (xc_output_path c) (mc_disk x)).2 = Ok (xp_output_path (xj_payload j)) ∧
  name_lookup (mc_disk x) (xp_output_path (xj_payload j)) = None.
Proof.
  unfold create_export_journal. intros Hr.
  apply st_bind_Ok in Hr as (x1 & row & (s1 & _ & ->)%on_storage_Ok & Hr).
  apply st_bind_Ok in Hr as (x2 & state & [= <- _] & Hr).
  apply st_bind_Ok in Hr as (x3 & deleting & Hdel & Hr).
  assert (mc_disk x3 = mc_disk x) as Hd3.
  { destruct (text_eq state "deleting"); [by injection Hdel as <- _|].
    by apply on_storage_Ok in Hdel as (s3 & _ & ->). }
  destruct deleting; [done|].
  apply st_bind_Ok in Hr as (x4 & output & (d4 & Hn & ->)%on_disk_Ok & Hr). rewrite Hd3 in Hn.
  apply st_bind_Ok in Hr as (x5 & [] & (d5 & Ha & ->)%on_disk_Ok & Hr).
  apply require_absent_found in Ha. rewrite (quiet_lookup _ _ _ _ _ (quiet_normalized _) Hn) in Ha.
  apply st_bind_Ok in Hr as (x6 & [] & _ & Hr). apply st_bind_Ok in Hr as (x7 & [] & _ & Hr).
  apply st_bind_Ok in Hr as (x8 & event_id & _ & Hr). apply st_bind_Ok in Hr as (x9 & key & _ & Hr).
  apply st_bind_Ok in Hr as (x10 & encrypted & _ & Hr). apply st_bind_Ok in Hr as (x11 & [] & _ & Hr).
  injection Hr as _ <-. simpl. by rewrite Hn.
Qed.

(** A new export that is recorded: the target was free, and now holds the bundle of the
    session as it was when the export began, encrypted for the recipients and readable
    by the process's user only; the stage and the journal are gone. *)
Theorem export_is_published c x x' e v :
  (∀ r, r ∈ export_journal (connection (mc_storage x)) → x_session_id r = uuid_text (xc_session_id c) →
    x_request_id r ≠ uuid_text (xc_request_id c)) →
  (∀ output, (normalized_output_path (xc_output_path c) (mc_disk x)).2 = Ok output →
    staging_path output (xc_export_id c) ≠ Ok output) →
  execute_export c x = (x', Ok (CEO_Recorded e v)) →
  v = xc_outcome c ∧ ∃ output,
    (normalized_output_path (xc_output_path c) (mc_disk x)).2 = Ok output ∧
    name_lookup (mc_disk x) output = None ∧
    published (connection (mc_storage x)) (xc_session_id c) (xc_export_id c) (xc_age_recipients c) output x'.
Proof.
  unfold execute_export. intros Hnew Hstage Hr. apply st_bind_Ok in Hr as (x1 & [] & [= <- _] & Hr).
  apply st_bind_Ok in Hr as (x2 & existing & (s2 & Hl%lookup_port_connection & ->)%on_storage_Ok & Hr).
  destruct existing as [record|].
  { injection Hr as _ Hr. unfold replay_export_command in Hr. destruct (_ || _); [done|].
    by destruct (read_value _). }
  apply st_bind_Ok in Hr as (x3 & j & Hj & Hr). unfold load_or_create_export_journal in Hj.
  apply st_bind_Ok in Hj as (x4 & found & (s4 & Hq & ->)%on_storage_Ok & Hj).
  apply query_calm in Hq as [[Hc _] Hfound]. specialize (Hfound _ eq_refl). simpl in *.
  destruct (first_where _ _) as [r|] eqn:Hw; simpl in Hfound; subst found.
  { apply first_where_Some in Hw as [Hin [Hs%text_eq_true Hq%text_eq_true]%andb_true_iff].
    rewrite Hl in Hin. by destruct (Hnew r Hin Hs). }
  pose proof (events_kept_create c (canonical_hash (xc_parameters c)) (mc_storage x)
    {| mc_storage := s4; mc_disk := mc_disk x |}) as Hk. rewrite Hj in Hk.
  apply create_journal_found in Hj as (Hst & Hsid & Hid & Hout & Hrec & Hn & Ha). simpl in *.
  apply advance_prepared in Hr as [-> Hp]; [|done|by rewrite Hid; apply Hstage]. split; [done|].
  rewrite Hsid, Hid, Hrec in Hp. eexists. split_and!; [exact Hn|done|].
  eapply published_beside; [|exact Hp]. apply Hk. unfold events_kept, same_events. simpl.
  rewrite Hc, Hl. by split.
Qed.
End published.
