(* ===== verification/DaemonModel.v ===== *)
(** * DaemonModel: errors, histories and payloads of the daemon
      (workbench-daemon/src/application.rs and workflow_exec.rs)

    The pure functions the handlers share: the error type and its public form, the
    names of events and states, the fold of a stored history, the facts read from a
    history, the payloads of events, and the helpers of durable workflow runs. *)

From stdpp Require Import pretty.
From S2P Require Import Prelude Text BTree Errors Value Attempt Policy Routing Event.
From S2P Require Import Workflow Json Wire ProtoCommand ProtoReply Subscription.
From S2P Require Import ConfigModel ConfigValidate StorageKeys StorageTables StorageDb.

(** ** Errors *)

Inductive DaemonError : Type :=
| DE_Recorded (error : ProtocolError)
| DE_InvalidRequest (message : string)
| DE_UnsupportedVersion
| DE_SessionNotFound
| DE_InvalidTransition
| DE_CapabilityUnavailable
| DE_PolicyDenied
| DE_StorageUnavailable
| DE_KeyStoreUnavailable
| DE_ClientLagged
| DE_Internal.

(** [DaemonError::code_name] *)
Definition code_name (e : DaemonError) : string :=
  match e with
  | DE_Recorded error => ErrorCode_name (er_code error)
  | DE_InvalidRequest _ => "invalid_request"
  | DE_UnsupportedVersion => "unsupported_version"
  | DE_SessionNotFound => "session_not_found"
  | DE_InvalidTransition => "invalid_transition"
  | DE_CapabilityUnavailable => "capability_unavailable"
  | DE_PolicyDenied => "policy_denied"
  | DE_StorageUnavailable => "storage_unavailable"
  | DE_KeyStoreUnavailable => "key_store_unavailable"
  | DE_ClientLagged => "client_lagged"
  | DE_Internal => "internal"
  end.

(** [DaemonError::into_protocol], with the correlation identifier it draws. *)
Definition into_protocol (e : DaemonError) (correlation : Uuid) : ProtocolError :=
  let public code message :=
    {| er_code := code; er_message := message;
       er_retryable := bool_decide (code = EC_StorageUnavailable);
       er_correlation_id := correlation |} in
  match e with
  | DE_Recorded error => error
  | DE_InvalidRequest message => public EC_InvalidRequest message
  | DE_UnsupportedVersion =>
      public EC_UnsupportedVersion "no compatible protocol version is available"
  | DE_SessionNotFound => public EC_SessionNotFound "session was not found"
  | DE_InvalidTransition => public EC_InvalidTransition "session transition is not allowed"
  | DE_CapabilityUnavailable =>
      public EC_CapabilityUnavailable "required provider capability is unavailable"
  | DE_PolicyDenied => public EC_PolicyDenied "effective policy denied the action"
  | DE_StorageUnavailable => public EC_StorageUnavailable "encrypted storage is unavailable"
  | DE_KeyStoreUnavailable => public EC_KeyStoreUnavailable "platform key store is unavailable"
  | DE_ClientLagged => public EC_ClientLagged "client exceeded the bounded event queue"
  | DE_Internal => public EC_Internal "internal daemon failure"
  end.

Definition from_storage_error (e : StorageError) : DaemonError :=
  match e with
  | SE_InvalidInput _ | SE_RequestConflict => DE_InvalidRequest "storage rejected the command"
  | SE_SessionNotFound => DE_SessionNotFound
  | SE_KeyStoreUnavailable => DE_KeyStoreUnavailable
  | SE_StorageUnavailable | SE_AuthenticationFailed | SE_UnsafeExportPath => DE_StorageUnavailable
  end.

Definition from_config_error (e : ConfigError) : DaemonError :=
  match e with
  | CErr_CapabilityUnavailable _ => DE_CapabilityUnavailable
  | CErr_Io _ => DE_StorageUnavailable
  | _ => DE_InvalidRequest "configuration is invalid"
  end.

Definition from_subscription_error (e : SubscriptionError) : DaemonError :=
  match e with SE_ClientLagged => DE_ClientLagged | _ => DE_Internal end.

(** ** Names *)

Definition event_kind_name (kind : EventKind) : string :=
  match kind with
  | EK_SessionCreated => "session_created"
  | EK_ConfigurationResolved => "configuration_resolved"
  | EK_InputRecorded => "input_recorded"
  | EK_RoutingPlanned => "routing_planned"
  | EK_ClarificationRequested => "clarification_requested"
  | EK_ApprovalRequested => "approval_requested"
  | EK_ApprovalRecorded => "approval_recorded"
  | EK_DispatchPlanned => "dispatch_planned"
  | EK_DispatchStarted => "dispatch_started"
  | EK_DispatchAcknowledged => "dispatch_acknowledged"
  | EK_ProviderEvent => "provider_event"
  | EK_ToolEvent => "tool_event"
  | EK_PauseRequested => "pause_requested"
  | EK_SessionPaused => "session_paused"
  | EK_SessionResumed => "session_resumed"
  | EK_SessionRedirected => "session_redirected"
  | EK_CancelRequested => "cancel_requested"
  | EK_CancelConfirmed => "cancel_confirmed"
  | EK_OutcomeUnknown => "outcome_unknown"
  | EK_OutcomeReconciled => "outcome_reconciled"
  | EK_SessionCompleted => "session_completed"
  | EK_SessionFailed => "session_failed"
  | EK_SessionCancelled => "session_cancelled"
  | EK_SessionAbandoned => "session_abandoned"
  | EK_SessionExported => "session_exported"
  | EK_SessionDeletionRequested => "session_deletion_requested"
  | EK_SessionDeleted => "session_deleted"
  | EK_WorkflowTransition => "workflow_transition"
  end.

Definition EVENT_KINDS : list EventKind :=
  [EK_SessionCreated; EK_ConfigurationResolved; EK_InputRecorded; EK_RoutingPlanned;
   EK_ClarificationRequested; EK_ApprovalRequested; EK_ApprovalRecorded; EK_DispatchPlanned;
   EK_DispatchStarted; EK_DispatchAcknowledged; EK_ProviderEvent; EK_ToolEvent;
   EK_PauseRequested; EK_SessionPaused; EK_SessionResumed; EK_SessionRedirected;
   EK_CancelRequested; EK_CancelConfirmed; EK_OutcomeUnknown; EK_OutcomeReconciled;
   EK_SessionCompleted; EK_SessionFailed; EK_SessionCancelled; EK_SessionAbandoned;
   EK_SessionExported; EK_SessionDeletionRequested; EK_SessionDeleted; EK_WorkflowTransition].

(** The match of [parse_event_kind] names every kind once. *)
Definition parse_event_kind (name : string) : Result EventKind DaemonError :=
  ok_or (snd <$> list_find (λ kind, event_kind_name kind = name) EVENT_KINDS) DE_StorageUnavailable.

(** [parse_session_state]: the names of the wire states. *)
Definition WIRE_STATES : list WireState :=
  [WS_Ready; WS_Running; WS_Pausing; WS_Paused; WS_AwaitingClarification; WS_AwaitingApproval;
   WS_CancelRequested; WS_OutcomeUnknown; WS_Completed; WS_Failed; WS_Cancelled; WS_Abandoned;
   WS_Deleting].

Definition parse_session_state (name : string) : Result WireState DaemonError :=
  ok_or (snd <$> list_find (λ state, WireState_name state = name) WIRE_STATES)
    DE_StorageUnavailable.

Definition wire_terminal (s : WireState) : bool :=
  match s with WS_Completed | WS_Failed | WS_Cancelled | WS_Abandoned => true | _ => false end.

(** ** Reading documents *)

(** [value.get(field)] *)
Definition value_get (v : Value) (field : string) : option Value :=
  match v with VObject m => bt_get field m | _ => None end.

(** [value.get(field).and_then(Value::as_str)] *)
Definition value_str (v : Value) (field : string) : option string :=
  value_get v field ≫= as_str.

Section daemon.
Context `{StorageEnv}.

Definition value_uuid (v : Value) (field : string) : option Uuid := value_str v field ≫= uuid_parse.

Definition uuid_field (v : Value) (field : string) : Result Uuid DaemonError :=
  ok_or (value_uuid v field) DE_StorageUnavailable.

(** ** The fold of a history *)

Record FoldedSession : Type := {
  fs_state : WireState;
  fs_last_sequence : N;
  fs_pending_approval_id : option Uuid;
  fs_pending_request_id : option Uuid;
  fs_uncertain_attempt_id : option Uuid;
  fs_approval_decisions : gmap Uuid ApprovalDecision;
}.

Definition fold_start : FoldedSession :=
  {| fs_state := WS_Ready; fs_last_sequence := 0; fs_pending_approval_id := None;
     fs_pending_request_id := None; fs_uncertain_attempt_id := None;
     fs_approval_decisions := ∅ |}.

Definition with_state (f : FoldedSession) (s : WireState) : FoldedSession :=
  {| fs_state := s; fs_last_sequence := fs_last_sequence f;
     fs_pending_approval_id := fs_pending_approval_id f;
     fs_pending_request_id := fs_pending_request_id f;
     fs_uncertain_attempt_id := fs_uncertain_attempt_id f;
     fs_approval_decisions := fs_approval_decisions f |}.

Definition with_pending (f : FoldedSession) (approval request : option Uuid) : FoldedSession :=
  {| fs_state := fs_state f; fs_last_sequence := fs_last_sequence f;
     fs_pending_approval_id := approval; fs_pending_request_id := request;
     fs_uncertain_attempt_id := fs_uncertain_attempt_id f;
     fs_approval_decisions := fs_approval_decisions f |}.

Definition with_uncertain (f : FoldedSession) (attempt : option Uuid) : FoldedSession :=
  {| fs_state := fs_state f; fs_last_sequence := fs_last_sequence f;
     fs_pending_approval_id := fs_pending_approval_id f;
     fs_pending_request_id := fs_pending_request_id f;
     fs_uncertain_attempt_id := attempt;
     fs_approval_decisions := fs_approval_decisions f |}.

Definition with_decision (f : FoldedSession) (approval : Uuid) (d : ApprovalDecision)
    : FoldedSession :=
  {| fs_state := fs_state f; fs_last_sequence := fs_last_sequence f;
     fs_pending_approval_id := fs_pending_approval_id f;
     fs_pending_request_id := fs_pending_request_id f;
     fs_uncertain_attempt_id := fs_uncertain_attempt_id f;
     fs_approval_decisions := <[approval := d]> (fs_approval_decisions f) |}.

Definition with_sequence (f : FoldedSession) (n : N) : FoldedSession :=
  {| fs_state := fs_state f; fs_last_sequence := n;
     fs_pending_approval_id := fs_pending_approval_id f;
     fs_pending_request_id := fs_pending_request_id f;
     fs_uncertain_attempt_id := fs_uncertain_attempt_id f;
     fs_approval_decisions := fs_approval_decisions f |}.

(** The decision an [approval_recorded] event carries. *)
Definition recorded_decision (e : StoredEvent) : Result (Uuid * ApprovalDecision) DaemonError :=
  let? approval := uuid_field (se_payload e) "approval_id" in
  let? document := ok_or (value_get (se_payload e) "decision") DE_StorageUnavailable in
  let? decision := map_err (λ _, DE_Internal) (dec ApprovalDecision_codec document) in
  Ok (approval, decision).

(** The arms of the match of [fold_session] that only set the state. *)
Definition kind_state (kind : string) : option WireState :=
  if text_in kind ["dispatch_started"; "session_resumed"] then Some WS_Running
  else if text_eq kind "clarification_requested" then Some WS_AwaitingClarification
  else if text_eq kind "pause_requested" then Some WS_Pausing
  else if text_eq kind "session_paused" then Some WS_Paused
  else if text_eq kind "cancel_requested" then Some WS_CancelRequested
  else if text_eq kind "session_completed" then Some WS_Completed
  else if text_eq kind "session_failed" then Some WS_Failed
  else if text_eq kind "session_cancelled" then Some WS_Cancelled
  else if text_eq kind "session_abandoned" then Some WS_Abandoned
  else if text_eq kind "session_deletion_requested" then Some WS_Deleting
  else None.

(** The match of [fold_session] on the kind of an event. *)
Definition fold_kind (f : FoldedSession) (e : StoredEvent) : Result FoldedSession DaemonError :=
  match kind_state (se_kind e) with
  | Some state => Ok (with_state f state)
  | None =>
      if text_eq (se_kind e) "approval_requested" then
        Ok (with_pending (with_state f WS_AwaitingApproval)
              (value_uuid (se_payload e) "approval_id") (se_causation_request_id e))
      else if text_eq (se_kind e) "approval_recorded" then
        let? recorded := recorded_decision e in
        Ok (with_state (with_pending (with_decision f recorded.1 recorded.2) None None)
              (match recorded.2 with AD_Grant => WS_Running | AD_Deny => WS_Paused end))
      else if text_eq (se_kind e) "session_redirected" then
        Ok (if bool_decide (fs_state f = WS_AwaitingClarification)
            then with_state f WS_Ready else f)
      else if text_eq (se_kind e) "outcome_unknown" then
        Ok (with_uncertain (with_state f WS_OutcomeUnknown)
              (match se_attempt_id e with
               | Some attempt => Some attempt
               | None => value_uuid (se_payload e) "attempt_id"
               end))
      else if text_eq (se_kind e) "outcome_reconciled" then Ok (with_uncertain f None)
      else Ok f
  end.

Definition fold_event (f : FoldedSession) (e : StoredEvent) : Result FoldedSession DaemonError :=
  if (se_sequence e =? fs_last_sequence f + 1)%N
  then fold_kind (with_sequence f (se_sequence e)) e
  else Err DE_StorageUnavailable.

Fixpoint fold_events (f : FoldedSession) (l : list StoredEvent) : Result FoldedSession DaemonError :=
  match l with
  | [] => Ok f
  | e :: l => let? f := fold_event f e in fold_events f l
  end.

Definition fold_session (history : list StoredEvent) : Result FoldedSession DaemonError :=
  match history with
  | [] => Err DE_SessionNotFound
  | first :: _ =>
      if text_eq (se_kind first) "session_created" then fold_events fold_start history
      else Err DE_SessionNotFound
  end.

(** ** Facts read from a history *)

(** [history.iter().rev().find(p)] *)
Definition find_last {A} (p : A → bool) (l : list A) : option A := List.find p (rev l).

Definition is_kind (kind : string) (e : StoredEvent) : bool := text_eq (se_kind e) kind.

(** The events after which an attempt is no longer started. *)
Definition FINISHED_KINDS : list string :=
  ["session_completed"; "session_failed"; "session_cancelled"; "session_abandoned";
   "outcome_unknown"].

Definition latest_started_attempt (history : list StoredEvent) : option Uuid :=
  started ← find_last (is_kind "dispatch_started") history;
  attempt ← se_attempt_id started;
  if existsb (λ e, (se_sequence started <? se_sequence e)%N
                   && bool_decide (se_attempt_id e = Some attempt)
                   && text_in (se_kind e) FINISHED_KINDS) history
  then None else Some attempt.

Record ProviderExecutionContext : Type := {
  px_provider : ProviderId;
  px_runtime_model : string;
  px_prompt : string;
}.

(** The last event of a kind that a request caused, or else the last of the kind. *)
Definition select_event (history : list StoredEvent) (request : Uuid) (kind : string)
    : option StoredEvent :=
  match find_last (λ e, is_kind kind e
                        && bool_decide (se_causation_request_id e = Some request)) history with
  | Some e => Some e
  | None => find_last (is_kind kind) history
  end.

Definition provider_execution_context (history : list StoredEvent) (preferred_request_id : Uuid)
    : Result ProviderExecutionContext DaemonError :=
  let missing {A} (o : option A) := ok_or o DE_StorageUnavailable in
  let? routing := missing (select_event history preferred_request_id "routing_planned") in
  let? input := missing (select_event history preferred_request_id "input_recorded") in
  let? provider := missing (value_str (se_payload routing) "provider") in
  let? runtime_model := missing (value_str (se_payload routing) "runtime_model") in
  let? prompt := missing (value_str (se_payload input) "content") in
  let? provider := map_err (λ _, DE_StorageUnavailable) (Identifier_parse provider) in
  Ok {| px_provider := provider; px_runtime_model := runtime_model; px_prompt := prompt |}.

(** [protocol_event]; the instants of stored events have a text. *)
Definition protocol_event (e : StoredEvent) : Result SessionEvent DaemonError :=
  let? kind := parse_event_kind (se_kind e) in
  Ok {| sev_protocol := PROTOCOL_V1; sev_event_id := se_event_id e;
        sev_session_id := se_session_id e; sev_sequence := se_sequence e;
        sev_causation_request_id := se_causation_request_id e; sev_kind := kind;
        sev_occurred_at := time_text (se_occurred_at e); sev_data := se_payload e |}.

(** ** Payloads *)

(** [serde_json::to_value] of a struct: objects keep their keys in order. *)
Definition to_value {A} (c : Codec A) (a : A) : Value := canonical (enc c a).

Definition uuid_value (u : Uuid) : Value := VString (uuid_text u).

Definition option_value {A} (f : A → Value) (o : option A) : Value :=
  match o with Some a => f a | None => VNull end.

Record ClientContext : Type := {
  cx_uid : N;
  cx_client_name : string;
}.

(** [ClientContext::actor] *)
Definition actor (c : ClientContext) : string := "local-user:" +:+ pretty (cx_uid c).

Definition terminal_payload (summary : string) (correlation : Uuid) : Value :=
  VObject [("correlation_id", uuid_value correlation); ("summary", VString summary)].

Definition control_payload (control : Uuid) (context : ClientContext)
    (instruction : option string) : Value :=
  VObject ([("actor", VString (actor context)); ("control_id", uuid_value control)]
           ++ match instruction with Some i => [("instruction", VString i)] | None => [] end).

(** The payload of every [outcome_unknown] event of the daemon. *)
Definition unknown_payload (attempt : Uuid) (reason : string) : Value :=
  VObject [("attempt_id", uuid_value attempt); ("reason", VString reason);
           ("reconciliation_options",
             VArray [VString "retry"; VString "accept_result"; VString "abandon"])].

(** The payload of content and tool events. *)
Definition output_payload (attempt : Uuid) (event_type content : string) : Value :=
  VObject [("attempt_id", uuid_value attempt); ("content", VString content);
           ("event_type", VString event_type)].

(** [command_event], with the identifier it draws. *)
Definition command_event (event_id session_id request_id : Uuid) (occurred_at : OffsetDateTime)
    (kind : EventKind) (payload : Value) (attempt_id : option Uuid)
    (effect_class : option string) : EventInput :=
  {| ei_event_id := event_id; ei_session_id := session_id; ei_occurred_at := occurred_at;
     ei_kind := event_kind_name kind; ei_causation_request_id := Some request_id;
     ei_attempt_id := attempt_id; ei_effect_class := effect_class; ei_payload := payload |}.

Definition PAID : option string := Some "paid-inference".

(** [dispatch_events], with the two identifiers it draws. *)
Definition dispatch_events (first_id second_id session_id request_id : Uuid)
    (occurred_at : OffsetDateTime) (attempt_id : Uuid) (predecessor : option Uuid)
    : list EventInput :=
  [command_event first_id session_id request_id occurred_at EK_DispatchPlanned
     (VObject [("attempt_id", uuid_value attempt_id);
               ("effect_class", VString "paid-inference"); ("idempotent", VBool false);
               ("operation", VString "provider.prompt");
               ("predecessor_attempt_id", option_value uuid_value predecessor)])
     (Some attempt_id) PAID;
   command_event second_id session_id request_id occurred_at EK_DispatchStarted
     (VObject [("attempt_id", uuid_value attempt_id)]) (Some attempt_id) PAID].

(** ** Recorded failures *)

Definition DURABLE_FAILURE_FIELD : string := "_workbench_failure".

Definition durable_failure (e : DaemonError) (correlation : Uuid) : Value :=
  VObject [(DURABLE_FAILURE_FIELD,
            to_value (ProtocolError_codec uuid_text uuid_parse) (into_protocol e correlation))].

Definition replay_command_outcome (outcome : Value) : Result Value DaemonError :=
  match value_get outcome DURABLE_FAILURE_FIELD with
  | Some failure =>
      let? error := map_err (λ _, DE_StorageUnavailable)
        (dec (ProtocolError_codec uuid_text uuid_parse) failure) in
      Err (DE_Recorded error)
  | None => Ok outcome
  end.

Definition session_result (session_id : Uuid) (folded : FoldedSession) : SessionResult :=
  {| ProtoReply.se_session_id := session_id; ProtoReply.se_state := fs_state folded;
     ProtoReply.se_last_sequence := fs_last_sequence folded;
     ProtoReply.se_pending_approval_id := fs_pending_approval_id folded;
     ProtoReply.se_uncertain_attempt_id := fs_uncertain_attempt_id folded |}.
End daemon.
