(* ===== verification/DaemonWorkflow.v ===== *)
(** * DaemonWorkflow: durable workflow runs and routing of the daemon
      (workbench-daemon/src/workflow_exec.rs, and plan_route with its helpers of
       application.rs)

    A run is stored whole in the payload of a [workflow_transition] event and read
    back from the last one. Routing resolves the role over the models available,
    builds the candidate with the tools of role and step, and passes it to the
    ordered router of the core. *)

From stdpp Require Import pretty.
From S2P Require Import Prelude Text BTree Errors Value Attempt Policy Routing Event.
From S2P Require Import Workflow Json Wire ProtoCommand ProtoReply.
From S2P Require Import ConfigModel ConfigValidate ConfigPreflight Ports.
From S2P Require Import StorageKeys EventWire StorageTables StorageDb DaemonModel.

(** ** Serialized runs *)

Definition WorkflowPhase_name (p : WorkflowPhase) : string :=
  match p with
  | WP_Planned => "planned"
  | WP_Running => "running"
  | WP_Paused => "paused"
  | WP_AwaitingHuman => "awaiting_human"
  | WP_Completed => "completed"
  | WP_Cancelled => "cancelled"
  | WP_Failed => "failed"
  end.

Definition WorkflowPhase_codec : Codec WorkflowPhase :=
  enum_codec [WP_Planned; WP_Running; WP_Paused; WP_AwaitingHuman; WP_Completed; WP_Cancelled;
              WP_Failed] WorkflowPhase_name.


(** [usize], 64 bits wide *)
Definition usize_codec : Codec nat := {|
  enc n := enc u64_codec (N.of_nat n);
  dec v := result_map N.to_nat (dec u64_codec v);
|}.

Definition WorkflowRun_codec : Codec WorkflowRun :=
  open_struct_codec
    (required "workflow_id" Identifier_codec (required "run_id" NonEmptyText_codec
    (required "step_ids" (vec_codec NonEmptyText_codec)
    (required "active_step_index" usize_codec (required "iteration" u32_codec
    (required "phase" WorkflowPhase_codec (required "max_iterations" u32_codec
    (nullable "on_findings_step_index" usize_codec no_fields))))))))
    (λ r, (workflow_id r, (run_id r, (step_ids r, (active_step_index r, (iteration r,
           (phase r, (max_iterations r, (on_findings_step_index r, tt)))))))))
    (λ t, let '(wid, (rid, (ids, (index, (it, (ph, (mx, (fi, _)))))))) := t in
          {| workflow_id := wid; run_id := rid; step_ids := ids; active_step_index := index;
             iteration := it; phase := ph; max_iterations := mx; on_findings_step_index := fi |}).

(** ** workflow_exec.rs *)

Definition FINDINGS_MARKER : string := "findings_present=true".

(** [step.max_iterations.unwrap_or(1).clamp(1, 8)] *)
Definition step_max_iterations (step : WorkflowStep) : N :=
  N.min 8 (N.max 1 (default 1%N (ws_max_iterations step))).

(** The index [on_findings] names. *)
Definition findings_target (w : Workflow) (step : WorkflowStep) : option nat :=
  target ← ws_on_findings step; fst <$> list_find (λ s, ws_id s = target) (wf_steps w).

Section workflow.
Context `{StorageEnv}.

(** [start_run]; its errors are texts that no caller reads. *)
Definition start_run (config : WorkbenchConfiguration) (wid : string) (rid : Uuid)
    : Result (WorkflowRun * Workflow) string :=
  let? workflow := ok_or (bt_get wid (cf_workflows config))
    ("workflow " +:+ wid +:+ " is not configured") in
  match wf_steps workflow with
  | [] => Err "workflow has no steps"
  | first :: _ =>
      let? ids := try_collect (λ s,
        map_err (λ _, "workflow step id is empty") (NonEmptyText_parse (ws_id s)))
        (wf_steps workflow) in
      let? parsed := map_err (λ _, "workflow id is invalid") (Identifier_parse wid) in
      let? rid := map_err (λ _, "run id is empty") (NonEmptyText_parse (uuid_text rid)) in
      let? run := map_err ne_message (Workflow.start parsed rid ids (step_max_iterations first)
        (findings_target workflow first)) in
      Ok (run, workflow)
  end.

(** [history.iter().rev().find_map(f)] *)
Definition find_map_last {A B} (f : A → option B) (l : list A) : option B :=
  head (omap f (rev l)).

Definition run_of_event (e : StoredEvent) : option WorkflowRun :=
  if is_kind "workflow_transition" e
  then value_get (se_payload e) "run" ≫= λ v, ok (dec WorkflowRun_codec v)
  else None.

Definition recover_run (history : list StoredEvent) : option WorkflowRun :=
  find_map_last run_of_event history.

Definition session_workflow_id (history : list StoredEvent) : option string :=
  created ← List.find (is_kind "session_created") history;
  value_str (se_payload created) "workflow_id".

Definition latest_redirect_instruction (history : list StoredEvent) : option string :=
  find_map_last (λ e, if is_kind "session_redirected" e
                      then value_str (se_payload e) "instruction" else None) history.

Definition active_step (w : Workflow) (run : WorkflowRun) : option WorkflowStep :=
  wf_steps w !! active_step_index run.

Definition refresh_step_bounds (run : WorkflowRun) (step : WorkflowStep) (w : Workflow)
    : WorkflowRun :=
  {| workflow_id := workflow_id run; run_id := run_id run; step_ids := step_ids run;
     active_step_index := active_step_index run; iteration := iteration run;
     phase := phase run; max_iterations := step_max_iterations step;
     on_findings_step_index := findings_target w step |}.

Definition active_step_name (run : WorkflowRun) : string := default "none" (active_step_id run).

Definition transition_payload (run : WorkflowRun) (reason : string) : Value :=
  VObject [("iteration", enc u32_codec (iteration run));
           ("phase", VString (WorkflowPhase_name (phase run)));
           ("reason", VString reason);
           ("run", to_value WorkflowRun_codec run);
           ("run_id", VString (run_id run));
           ("step_id", VString (active_step_name run));
           ("step_index", enc usize_codec (active_step_index run));
           ("workflow_id", VString (workflow_id run))].
End workflow.

Definition content_has_findings (content : string) : bool := contains FINDINGS_MARKER content.

Definition effective_step_tools (role_tools step_tools : list string) : list string :=
  match step_tools with
  | [] => role_tools
  | _ => List.filter (λ tool, existsb (String.eqb tool) step_tools) role_tools
  end.

(** ** Routing *)

Definition DAEMON_VERSION : string := "0.1.0".

Definition fake_provider_capabilities (config : WorkbenchConfiguration)
    : BTreeMap PreflightCapabilities :=
  omap (λ '(name, provider),
    if bool_decide (pr_kind provider = PT_Fake)
    then Some (name,
      {| pf_adapter_id := name; pf_adapter_version := DAEMON_VERSION;
         pf_protocol := "workbench-fake/1"; pf_authentication := AS_Available;
         pf_capabilities := [CAP_Streaming; CAP_SessionResume; CAP_Cancellation];
         pf_context_window_tokens := None;
         pf_operations :=
           [{| po_name := "provider.prompt"; po_effect_class := ConfigModel.CE_PaidInference;
               po_idempotent := false; po_material_cost := true; po_approval := AM_Policy |}] |})
    else None) (cf_providers config).

(** [available.extend(more)] *)
Definition bt_extend {A} (m more : BTreeMap A) : BTreeMap A :=
  foldl (λ m e, bt_insert e.1 e.2 m) m more.

Record WorkflowRouteContext : Type := {
  wc_role : string;
  wc_step_tools : list string;
  wc_fallbacks : list string;
}.

Record WorkflowRouteTarget : Type := {
  wt_run : WorkflowRun;
  wt_role : string;
  wt_context : WorkflowRouteContext;
}.

Definition scope_of_mode (m : DefaultToolMode) : PermissionScope :=
  match m with
  | DM_ReadOnly => SC_ReadOnly
  | DM_ApprovalRequired => SC_ApprovalRequired
  | DM_Denied => SC_Denied
  end.

Definition permission_from_scope (s : PermissionScope) : DefaultToolMode :=
  match s with
  | SC_ReadOnly => DM_ReadOnly
  | SC_ApprovalRequired => DM_ApprovalRequired
  | SC_Denied => DM_Denied
  end.

Definition permission_scope_name (s : PermissionScope) : string :=
  match s with
  | SC_ReadOnly => "read-only"
  | SC_ApprovalRequired => "approval-required"
  | SC_Denied => "denied"
  end.

Definition selected_rule_name (r : SelectedRule) : string :=
  match r with
  | SR_Explicit => "explicit"
  | SR_Workflow => "workflow"
  | SR_Resolver => "resolver"
  | SR_Coordinator => "coordinator"
  end.

Definition effective_provider_permission (config : WorkbenchConfiguration) : DefaultToolMode :=
  let layer :=
    {| pl_source := PS_Session;
       pl_default_mode := match po_default_tool_mode (cf_policies config) with
                          | DM_ReadOnly => PM_ReadOnly
                          | DM_ApprovalRequired => PM_ApprovalRequired
                          | DM_Denied => PM_Denied
                          end;
       pl_tool_modes := [];
       pl_denied_tools :=
         omap (λ tool, ok (Identifier_parse tool)) (po_global_deny (cf_policies config)) |} in
  let protected := protect_effect (resolve_tool_policy "provider-prompt" [layer])
    Attempt.EF_PaidInference true in
  match pd_mode protected with
  | PM_ReadOnly => DM_ReadOnly
  | PM_ApprovalRequired => DM_ApprovalRequired
  | PM_Denied => DM_Denied
  end.

Definition route_candidate_for_step (config : WorkbenchConfiguration) (resolved : ResolvedModel)
    (permission : DefaultToolMode) (workflow_context : option WorkflowRouteContext)
    : Result RouteCandidate DaemonError :=
  let internal {A} (r : Result A NewError) : Result A DaemonError := map_err (λ _, DE_Internal) r in
  let? role := ok_or (bt_get (rm_role resolved) (cf_roles config)) DE_StorageUnavailable in
  let tools := match workflow_context with
               | Some context => effective_step_tools (ro_tools role) (wc_step_tools context)
               | None => ro_tools role
               end in
  let? role_id := internal (Identifier_parse (rm_role resolved)) in
  let? alias := internal (Identifier_parse (rm_model_alias resolved)) in
  let? provider := internal (Identifier_parse (rm_provider resolved)) in
  let? tools := internal (try_collect Identifier_parse tools) in
  let? data_sources := internal (try_collect Identifier_parse (ro_data_sources role)) in
  internal (RouteCandidate_new "prompt"
    {| rd_role := role_id; rd_model_alias := alias; rd_provider := provider;
       rd_runtime_model := rm_runtime_model resolved |}
    {| rc_tools := tools; rc_data_sources := data_sources;
       rc_permission := scope_of_mode permission |}
    Risk_Low (f64_of_Z 1)).

Inductive RouteDecision : Type :=
| RD_Selected (plan : RoutingPlan) (permission : DefaultToolMode)
| RD_Clarification (reason selected_rule : string)
| RD_CapabilityUnavailable (selected_rule : string).

(** The router applied to the inputs; the end of [plan_route] and of its fallback. *)
Definition route_with (threshold : f64) (inputs : RoutingInputs) (selected_rule : string)
    : Result RouteDecision DaemonError :=
  let? router := map_err (λ _, DE_InvalidRequest "routing threshold is invalid")
    (OrderedRouter_new threshold) in
  Ok (match Routing.resolve router inputs with
      | RO_Selected plan => RD_Selected plan (permission_from_scope (rc_permission (rp_context plan)))
      | RO_NeedsClarification reason _ => RD_Clarification reason selected_rule
      end).

Definition only_workflow (c : RouteCandidate) : RoutingInputs :=
  {| ri_explicit := None; ri_workflow := Some c; ri_deterministic := None; ri_coordinator := None |}.

(** The loop of [try_workflow_fallback]. *)
Fixpoint fallback_route (config : WorkbenchConfiguration)
    (available : BTreeMap PreflightCapabilities) (selected_rule : string)
    (context : WorkflowRouteContext) (aliases : list string) : Result RouteDecision DaemonError :=
  match aliases with
  | [] => Ok (RD_CapabilityUnavailable selected_rule)
  | alias :: aliases =>
      let next := fallback_route config available selected_rule context aliases in
      match bt_get alias (cf_models config) with
      | None => next
      | Some model =>
          match bt_get (md_provider model) available with
          | None => next
          | Some capabilities =>
              if bool_decide (pf_authentication capabilities = AS_Available) then
                let? candidate := route_candidate_for_step config
                  {| rm_role := wc_role context; rm_model_alias := alias;
                     rm_provider := md_provider model;
                     rm_runtime_model := md_runtime_model model; rm_used_fallback := true |}
                  (effective_provider_permission config) (Some context) in
                route_with (rt_confidence_threshold (cf_routing config)) (only_workflow candidate)
                  selected_rule
              else next
          end
      end
  end.

Definition try_workflow_fallback (config : WorkbenchConfiguration)
    (available : BTreeMap PreflightCapabilities) (selected_rule : string)
    (workflow_context : option WorkflowRouteContext) : Result RouteDecision DaemonError :=
  match workflow_context with
  | None => Ok (RD_CapabilityUnavailable selected_rule)
  | Some context => fallback_route config available selected_rule context (wc_fallbacks context)
  end.

Definition is_some {A} (o : option A) : bool := match o with Some _ => true | None => false end.

(** [plan_route], on the configuration of the session; [None]: [resolve_role] indexes
    a model the configuration does not have, and panics. *)
Definition plan_route (catalog : BTreeMap PreflightCapabilities) (config : WorkbenchConfiguration)
    (explicit_target workflow_role : option string)
    (workflow_context : option WorkflowRouteContext)
    : option (Result RouteDecision DaemonError) :=
  let available := bt_extend catalog (fake_provider_capabilities config) in
  let selected_rule := if is_some explicit_target then "explicit"
    else if is_some workflow_role then "workflow" else "coordinator" in
  let role_name := match explicit_target with
    | Some target => target
    | None => default (rt_default_role (cf_routing config)) workflow_role
    end in
  resolved ← resolve_role config role_name available;
  Some (match resolved with
  | Err (CErr_CapabilityUnavailable _) =>
      try_workflow_fallback config available selected_rule workflow_context
  | Err (CErr_Invalid path _) =>
      if text_eq path "role"
      then Ok (RD_Clarification ("configured role " +:+ role_name +:+ " does not exist")
                 selected_rule)
      else Err (DE_InvalidRequest "routing configuration is invalid")
  | Err _ => Err (DE_InvalidRequest "routing configuration is invalid")
  | Ok resolved =>
      let? candidate := route_candidate_for_step config resolved
        (effective_provider_permission config) workflow_context in
      let inputs := {|
        ri_explicit := if is_some explicit_target then Some candidate else None;
        ri_workflow := if negb (is_some explicit_target) && is_some workflow_role
                       then Some candidate else None;
        ri_deterministic := None;
        ri_coordinator := if is_some explicit_target || is_some workflow_role
                          then None else Some candidate |} in
      route_with (rt_confidence_threshold (cf_routing config)) inputs selected_rule
  end).

Definition risk_name (r : Risk) : string :=
  match r with Risk_Low => "low" | Risk_Medium => "medium" | Risk_High => "high" end.

Definition text_array (l : list string) : Value := VArray (VString <$> l).

Definition routing_payload (plan : RoutingPlan) : BTreeMap Value :=
  let d := rp_destination plan in
  [("confidence", enc f64_codec (rp_confidence plan));
   ("context_sources", text_array (rc_data_sources (rp_context plan)));
   ("intent", VString (rp_intent plan));
   ("model_alias", VString (rd_model_alias d));
   ("permission_scope", text_array [permission_scope_name (rc_permission (rp_context plan))]);
   ("provider", VString (rd_provider d));
   ("risk", VString (risk_name (rp_risk plan)));
   ("role", VString (rd_role d));
   ("runtime_model", VString (rd_runtime_model d));
   ("selected_by", VString (selected_rule_name (rp_selected_by plan)));
   ("tools", text_array (rc_tools (rp_context plan)))].

Definition enrich_workflow_routing (payload : BTreeMap Value) (run : WorkflowRun) : BTreeMap Value :=
  bt_extend payload
    [("workflow_id", VString (workflow_id run)); ("step_id", VString (active_step_name run));
     ("iteration", enc u32_codec (iteration run));
     ("step_index", enc usize_codec (active_step_index run))].
