(* ===== verification/DaemonHub.v ===== *)
(** * DaemonHub: live event subscriptions (workbench-daemon/src/subscription.rs)

    The hub and a client share the queue of a subscription, and a channel of signals
    leads from the hub to the client. [hub_handles] is that shared state, by
    subscription; [hub_sessions] is the map of registered subscribers. A client that
    cannot be served is unregistered and told so after what it already has. *)

From S2P Require Import Prelude Text BTree Errors Event Json Wire ProtoCommand Subscription.

Inductive Signal : Type := SG_Event | SG_Lagged.

(** What a subscription and the hub share. *)
Record Handle : Type := {
  hd_session : Uuid;
  hd_queue : SubscriptionQueue;
  hd_signals : list Signal;
}.

Record SubscriptionHub : Type := {
  hub_handles : gmap Uuid Handle;
  hub_sessions : gmap Uuid (gset Uuid);
}.

Definition hub_default : SubscriptionHub := {| hub_handles := ∅; hub_sessions := ∅ |}.

Inductive SubscriptionItem : Type :=
| SI_Event (event : SessionEvent)
| SI_Lagged.

(** What [SessionSubscription::next] finds: an item, nothing yet, or the end. *)
Inductive Next : Type :=
| NX_Item (item : SubscriptionItem)
| NX_Wait
| NX_End.

Section hub.
Context (encoded_len : SessionEvent → option N).

(** [for event in replay { queue.push(event)?; }] *)
Fixpoint push_all (q : SubscriptionQueue) (events : list SessionEvent)
    : Result SubscriptionQueue SubscriptionError :=
  match events with
  | [] => Ok q
  | e :: events =>
      match push encoded_len q e with
      | (q, Ok _) => push_all q events
      | (_, Err err) => Err err
      end
  end.

(** [SubscriptionHub::subscribe], with the identifier it draws. *)
Definition subscribe (id session_id : Uuid) (replay : list SessionEvent) (h : SubscriptionHub)
    : SubscriptionHub * Result unit SubscriptionError :=
  match push_all queue_default replay with
  | Err e => (h, Err e)
  | Ok queue =>
      ({| hub_handles :=
            <[id := {| hd_session := session_id; hd_queue := queue;
                       hd_signals := repeat SG_Event (length (q_events queue)) |}]>
              (hub_handles h);
          hub_sessions :=
            <[session_id := {[id]} ∪ default ∅ (hub_sessions h !! session_id)]> (hub_sessions h) |},
       Ok tt)
  end.

(** The closure of [retain], on one subscriber: what it leaves, and whether it stays. *)
Definition offer (event : SessionEvent) (d : Handle) : Handle * bool :=
  let '(queue, pushed) := push encoded_len (hd_queue d) event in
  ({| hd_session := hd_session d; hd_queue := queue;
      hd_signals := hd_signals d ++ [if is_ok pushed then SG_Event else SG_Lagged] |},
   is_ok pushed).

Definition stays (event : SessionEvent) (h : SubscriptionHub) (id : Uuid) : bool :=
  match hub_handles h !! id with Some d => (offer event d).2 | None => false end.

(** [SubscriptionHub::publish] *)
Definition publish (event : SessionEvent) (h : SubscriptionHub) : SubscriptionHub :=
  match hub_sessions h !! sev_session_id event with
  | None => h
  | Some subscribers =>
      let kept := filter (λ id, stays event h id = true) subscribers in
      {| hub_handles :=
           map_imap (λ id d, Some (if bool_decide (id ∈ subscribers) then (offer event d).1 else d))
             (hub_handles h);
         hub_sessions :=
           if bool_decide (kept = ∅) then delete (sev_session_id event) (hub_sessions h)
           else <[sev_session_id event := kept]> (hub_sessions h) |}
  end.

(** [while queue.pop().is_some() {}], one step for every event queued. *)
Fixpoint pop_times (n : nat) (q : SubscriptionQueue) : SubscriptionQueue :=
  match n with O => q | S n => pop_times n (pop q).1 end.

Definition drain (q : SubscriptionQueue) : SubscriptionQueue :=
  pop_times (length (q_events q)) q.

(** [SubscriptionHub::purge_session] *)
Definition purge_session (session_id : Uuid) (h : SubscriptionHub) : SubscriptionHub :=
  let subscribers := default ∅ (hub_sessions h !! session_id) in
  {| hub_handles :=
       map_imap (λ id d, Some (if bool_decide (id ∈ subscribers)
                               then {| hd_session := hd_session d; hd_queue := drain (hd_queue d);
                                       hd_signals := hd_signals d |}
                               else d)) (hub_handles h);
     hub_sessions := delete session_id (hub_sessions h) |}.

Definition registered (h : SubscriptionHub) (session_id id : Uuid) : Prop :=
  id ∈ default (∅ : gset Uuid) (hub_sessions h !! session_id).

#[export] Instance registered_dec h session_id id : Decision (registered h session_id id).
Proof. unfold registered. apply _. Defined.

(** [SubscriptionHub::remove] *)
Definition remove (session_id id : Uuid) (h : SubscriptionHub) : SubscriptionHub :=
  match hub_sessions h !! session_id with
  | None => h
  | Some subscribers =>
      {| hub_handles := hub_handles h;
         hub_sessions :=
           let left := subscribers ∖ {[id]} in
           if bool_decide (left = ∅) then delete session_id (hub_sessions h)
           else <[session_id := left]> (hub_sessions h) |}
  end.

(** [Drop for SessionSubscription] *)
Definition drop_subscription (id : Uuid) (h : SubscriptionHub) : SubscriptionHub :=
  match hub_handles h !! id with
  | None => h
  | Some d =>
      let h := remove (hd_session d) id h in
      {| hub_handles := delete id (hub_handles h); hub_sessions := hub_sessions h |}
  end.

(** [SessionSubscription::next]: the channel is closed once the hub has dropped the
    sender, that is once the subscriber is no longer registered. *)
Definition next (id : Uuid) (h : SubscriptionHub) : SubscriptionHub * Next :=
  match hub_handles h !! id with
  | None => (h, NX_End)
  | Some d =>
      let set queue signals :=
        {| hub_handles := <[id := {| hd_session := hd_session d; hd_queue := queue;
                                     hd_signals := signals |}]> (hub_handles h);
           hub_sessions := hub_sessions h |} in
      match hd_signals d with
      | [] => (h, if decide (registered h (hd_session d) id) then NX_Wait else NX_End)
      | SG_Lagged :: signals => (set (hd_queue d) signals, NX_Item SI_Lagged)
      | SG_Event :: signals =>
          let '(queue, event) := pop (hd_queue d) in
          (set queue signals,
           match event with Some e => NX_Item (SI_Event e) | None => NX_End end)
      end
  end.

(** ** Runs of the hub *)

Inductive HubOp : Type :=
| HSubscribe (id session_id : Uuid) (replay : list SessionEvent)
| HPublish (event : SessionEvent)
| HNext (id : Uuid)
| HPurge (session_id : Uuid)
| HDrop (id : Uuid).

(** A run records, for each subscription, what it was offered and what it received. *)
Record HubRun : Type := {
  hr_hub : SubscriptionHub;
  hr_offered : gmap Uuid (list SessionEvent);
  hr_received : gmap Uuid (list SessionEvent);
}.

Definition hub_step (r : HubRun) (op : HubOp) : HubRun :=
  let h := hr_hub r in
  match op with
  | HSubscribe id session_id replay =>
      let '(h', result) := subscribe id session_id replay h in
      if is_ok result
      then {| hr_hub := h'; hr_offered := <[id := replay]> (hr_offered r);
              hr_received := <[id := []]> (hr_received r) |}
      else {| hr_hub := h'; hr_offered := hr_offered r; hr_received := hr_received r |}
  | HPublish event =>
      {| hr_hub := publish event h;
         hr_offered := map_imap (λ id l,
           Some (if decide (registered h (sev_session_id event) id) then l ++ [event] else l))
           (hr_offered r);
         hr_received := hr_received r |}
  | HNext id =>
      let '(h', n) := next id h in
      {| hr_hub := h'; hr_offered := hr_offered r;
         hr_received := match n with
           | NX_Item (SI_Event e) => alter (λ l, l ++ [e]) id (hr_received r)
           | _ => hr_received r
           end |}
  | HPurge session_id =>
      {| hr_hub := purge_session session_id h; hr_offered := hr_offered r;
         hr_received := hr_received r |}
  | HDrop id =>
      {| hr_hub := drop_subscription id h; hr_offered := hr_offered r;
         hr_received := hr_received r |}
  end.

Definition hub_run (ops : list HubOp) : HubRun :=
  foldl hub_step {| hr_hub := hub_default; hr_offered := ∅; hr_received := ∅ |} ops.

(** ** Lemmas *)

(** The subscriptions a list of operations opens. *)
Definition opened_ids (ops : list HubOp) : list Uuid :=
  omap (λ op, match op with HSubscribe id _ _ => Some id | _ => None end) ops.

Lemma opened_ids_app ops ops' : opened_ids (ops ++ ops') = opened_ids ops ++ opened_ids ops'.
Proof. apply omap_app. Qed.

(** What the hub and the client share agrees with what was offered and received. *)
Definition handle_inv (reg : Prop) (d : Handle) (offered received : list SessionEvent) : Prop :=
  received ++ (q_events (hd_queue d)).*1 `prefix_of` offered ∧
  (reg → received ++ (q_events (hd_queue d)).*1 = offered ∧
         hd_signals d = repeat SG_Event (length (q_events (hd_queue d)))) ∧
  (∃ n tail, hd_signals d = repeat SG_Event n ++ tail ∧ (tail = [] ∨ tail = [SG_Lagged])).

Record hub_inv (ops : list HubOp) (r : HubRun) : Prop := {
  hi_registered s id : registered (hr_hub r) s id →
    ∃ d, hub_handles (hr_hub r) !! id = Some d ∧ hd_session d = s;
  hi_opened id d : hub_handles (hr_hub r) !! id = Some d → id ∈ opened_ids ops;
  hi_handles id d : hub_handles (hr_hub r) !! id = Some d →
    ∃ offered received, hr_offered r !! id = Some offered ∧ hr_received r !! id = Some received ∧
      handle_inv (registered (hr_hub r) (hd_session d) id) d offered received;
}.

Lemma push_events q e :
  let '(q', r) := push encoded_len q e in
  (q_events q').*1 = (q_events q).*1 ++ (if is_ok r then [e] else []).
Proof.
  unfold push. destruct (q_closed q); [by rewrite app_nil_r|].
  destruct (SessionEvent_validate e); [|by rewrite app_nil_r].
  destruct (encoded_len e); [|by rewrite app_nil_r].
  destruct (_ || _); simpl; [by rewrite app_nil_r|by rewrite fmap_app].
Qed.

Lemma push_all_events q events q' :
  push_all q events = Ok q' → (q_events q').*1 = (q_events q).*1 ++ events.
Proof.
  revert q. induction events as [|e events IH]; intros q; simpl.
  - intros [= ->]. by rewrite app_nil_r.
  - pose proof (push_events q e) as Hp. destruct (push encoded_len q e) as [q1 [u|err]]; [|done].
    intros Hq%IH. rewrite Hq, Hp. simpl. by rewrite <-(assoc_L (++)).
Qed.

Lemma drain_empty q : q_events (drain q) = [].
Proof.
  unfold drain. remember (q_events q) as l eqn:Hl. revert q Hl.
  induction l as [|[e n] l IH]; intros q Hl; simpl; [done|].
  apply IH. unfold pop. by rewrite <-Hl.
Qed.

Lemma registered_insert h s id subs s' x :
  registered {| hub_handles := h; hub_sessions := <[s := subs]> id |} s' x ↔
  if decide (s' = s) then x ∈ subs else x ∈ default ∅ (id !! s').
Proof.
  unfold registered. simpl. destruct (decide (s' = s)) as [->|Hn].
  - by rewrite lookup_insert_eq.
  - by rewrite lookup_insert_ne by done.
Qed.

(** Registration after keeping part of the subscribers of a session. *)
Lemma registered_kept (hs : gmap Uuid Handle) (m : gmap Uuid (gset Uuid)) s subs kept s' x :
  m !! s = Some subs → kept ⊆ subs →
  registered {| hub_handles := hs;
                hub_sessions := if bool_decide (kept = ∅) then delete s m else <[s := kept]> m |} s' x ↔
  if decide (s' = s) then x ∈ kept else x ∈ default ∅ (m !! s').
Proof.
  intros Hs Hk. case_bool_decide as He.
  - unfold registered. simpl. destruct (decide (s' = s)) as [->|Hn].
    + rewrite lookup_delete_eq, He. simpl. set_solver.
    + by rewrite lookup_delete_ne by done.
  - apply registered_insert.
Qed.

Lemma offer_session e d : hd_session (offer e d).1 = hd_session d.
Proof. unfold offer. by destruct (push _ _ _). Qed.

Lemma handle_offer d e off rec :
  handle_inv True d off rec →
  handle_inv ((offer e d).2 = true) (offer e d).1 (off ++ [e]) rec.
Proof.
  intros (_ & Hreg & _). destruct (Hreg I) as [Hq Hs]. unfold offer.
  pose proof (push_events (hd_queue d) e) as Hp.
  destruct (push encoded_len (hd_queue d) e) as [q' r]. simpl.
  assert (Hlen : length (q_events q') = (length (q_events (hd_queue d)) + if is_ok r then 1 else 0)%nat).
  { rewrite <-!(length_fmap fst), Hp, length_app. by destruct r. }
  unfold handle_inv. simpl. rewrite Hp, (assoc_L (++)), Hq, Hlen, Hs. destruct r; simpl.
  - split_and!; [done|intros _; split; [done|]|].
    + by rewrite repeat_app.
    + exists (S (length (q_events (hd_queue d)))), []. rewrite app_nil_r, <-repeat_cons. eauto.
  - rewrite app_nil_r. split_and!; [by exists [e]|done|]. by eauto.
Qed.

Lemma handle_weaken (P Q : Prop) d off rec :
  (Q → P) → handle_inv P d off rec → handle_inv Q d off rec.
Proof. unfold handle_inv. naive_solver. Qed.

Lemma step_subscribe ops r id s replay :
  id ∉ opened_ids ops → hub_inv ops r →
  hub_inv (ops ++ [HSubscribe id s replay]) (hub_step r (HSubscribe id s replay)).
Proof.
  intros Hid [Hreg Hop Hh]. unfold hub_step, subscribe.
  assert (Hids : opened_ids (ops ++ [HSubscribe id s replay]) = opened_ids ops ++ [id]).
  { apply opened_ids_app. }
  destruct (push_all queue_default replay) as [q|e] eqn:Hq; simpl.
  2:{ split; simpl; [done| |done]. intros x d Hx. rewrite Hids. apply elem_of_app. left. eauto. }
  apply push_all_events in Hq. simpl in Hq.
  assert (Hfresh : hub_handles (hr_hub r) !! id = None).
  { destruct (hub_handles (hr_hub r) !! id) eqn:Hd; [|done]. exfalso. eauto. }
  assert (Hnew : ∀ s' x, registered {| hub_handles := <[id := {| hd_session := s; hd_queue := q;
         hd_signals := repeat SG_Event (length (q_events q)) |}]> (hub_handles (hr_hub r));
       hub_sessions := <[s := {[id]} ∪ default ∅ (hub_sessions (hr_hub r) !! s)]>
         (hub_sessions (hr_hub r)) |} s' x ↔ registered (hr_hub r) s' x ∨ (s' = s ∧ x = id)).
  { intros s' x. rewrite registered_insert. unfold registered.
    destruct (decide (s' = s)) as [->|]; set_solver. }
  split; simpl.
  - intros s' x [Hx|[-> ->]]%Hnew; [|rewrite lookup_insert_eq; eauto].
    destruct (Hreg s' x Hx) as (d & Hd & <-).
    rewrite lookup_insert_ne by congruence. eauto.
  - intros x d. rewrite Hids, elem_of_app.
    destruct (decide (x = id)) as [->|Hne]; [set_solver|]. rewrite lookup_insert_ne by done. eauto.
  - intros x d. destruct (decide (x = id)) as [->|Hne].
    + rewrite !lookup_insert_eq. intros [= <-]. exists replay, []. split_and!; [done..|].
      unfold handle_inv. simpl. rewrite Hq. split_and!; [done|done|].
      exists (length (q_events q)), []. rewrite app_nil_r. eauto.
    + rewrite !lookup_insert_ne by done. intros Hd.
      destruct (Hh x d Hd) as (off & rec & Ho & Hr & Hi). exists off, rec. split_and!; [done..|].
      eapply handle_weaken; [|done]. intros [Hx|[_ ->]]%Hnew; done.
Qed.

(** Operations that only narrow the registrations and keep the logs. *)
Lemma step_narrow ops op h h' off rec :
  opened_ids [op] = [] →
  hub_inv ops {| hr_hub := h; hr_offered := off; hr_received := rec |} →
  (∀ s x, registered h' s x → registered h s x) →
  (∀ s x, registered h' s x → hub_handles h' !! x = hub_handles h !! x) →
  (∀ x d', hub_handles h' !! x = Some d' → ∃ d, hub_handles h !! x = Some d ∧
     hd_session d' = hd_session d ∧ hd_signals d' = hd_signals d ∧
     (hd_queue d' = hd_queue d ∨ q_events (hd_queue d') = [])) →
  hub_inv (ops ++ [op]) {| hr_hub := h'; hr_offered := off; hr_received := rec |}.
Proof.
  intros Hop [Hreg Hopen Hh] Hsub Hsame Hold. simpl in Hreg, Hopen, Hh.
  assert (Hids : opened_ids (ops ++ [op]) = opened_ids ops).
  { by rewrite opened_ids_app, Hop, app_nil_r. }
  split; simpl.
  - intros s x Hx. rewrite (Hsame _ _ Hx). eauto.
  - intros x d' (d & Hd & _)%Hold. rewrite Hids. eauto.
  - intros x d' Hd'. destruct (Hold x d' Hd') as (d & Hd & Hses & Hsig & Hqueue).
    destruct (Hh x d Hd) as (o & l & Ho & Hl & Hpre & Hregd & Hshape). exists o, l.
    split_and!; [done..|]. rewrite Hses. split_and!.
    + destruct Hqueue as [->| ->]; [done|]. simpl. rewrite app_nil_r.
      etrans; [apply prefix_app_r; reflexivity|done].
    + intros Hx. rewrite (Hsame _ _ Hx), Hd in Hd'. injection Hd' as <-. auto.
    + by rewrite Hsig.
Qed.

Lemma step_purge ops r s : hub_inv ops r → hub_inv (ops ++ [HPurge s]) (hub_step r (HPurge s)).
Proof.
  destruct r as [h off rec]. intros Hr. simpl.
  assert (Hiff : ∀ s' x, registered (purge_session s h) s' x ↔ s' ≠ s ∧ registered h s' x).
  { intros s' x. unfold registered, purge_session. simpl. destruct (decide (s' = s)) as [->|Hn].
    - rewrite lookup_delete_eq. simpl. set_solver.
    - rewrite lookup_delete_ne by done. naive_solver. }
  eapply step_narrow; [done|done|naive_solver| |].
  - intros s' x [Hne Hx]%Hiff. simpl. rewrite map_lookup_imap.
    destruct (hub_handles h !! x) as [d|] eqn:Hd; simpl; [|done].
    rewrite bool_decide_eq_false_2; [done|]. intros Hin.
    destruct (hi_registered _ _ Hr s' x Hx) as (d1 & Hd1 & Hs1).
    destruct (hi_registered _ _ Hr s x Hin) as (d2 & Hd2 & Hs2). simpl in *. congruence.
  - intros x d'. simpl. rewrite map_lookup_imap. destruct (hub_handles h !! x) as [d|]; simpl; [|done].
    intros [= <-]. exists d. case_bool_decide; simpl; [|by eauto].
    split_and!; try done. right. apply drain_empty.
Qed.

Lemma step_drop ops r id : hub_inv ops r → hub_inv (ops ++ [HDrop id]) (hub_step r (HDrop id)).
Proof.
  destruct r as [h off rec]. intros Hr. simpl. unfold drop_subscription.
  destruct (hub_handles h !! id) as [d|] eqn:Hd.
  2:{ eapply step_narrow; try done. naive_solver. }
  assert (Hiff : ∀ s x, registered (remove (hd_session d) id h) s x ↔
    registered h s x ∧ ¬ (s = hd_session d ∧ x = id)).
  { intros s x. unfold remove. destruct (hub_sessions h !! hd_session d) as [subs|] eqn:Hs.
    - rewrite registered_kept by (done || set_solver). unfold registered.
      destruct (decide (s = hd_session d)) as [->|]; [rewrite Hs; simpl; set_solver|naive_solver].
    - unfold registered. split; [|naive_solver]. intros Hx. split; [done|]. intros [-> ->].
      rewrite Hs in Hx. simpl in Hx. set_solver. }
  assert (Hhs : hub_handles (remove (hd_session d) id h) = hub_handles h).
  { unfold remove. by case_match. }
  eapply step_narrow; [done|done|intros s x Hx; by destruct (proj1 (Hiff s x) Hx)| |];
    simpl; rewrite Hhs.
  - intros s x Hx0. destruct (proj1 (Hiff s x) Hx0) as [Hx Hne].
    destruct (hi_registered _ _ Hr s x Hx) as (d1 & Hd1 & Hs1). simpl in *.
    rewrite lookup_delete_ne; [done|]. intros <-. apply Hne. naive_solver.
  - intros x d'. rewrite lookup_delete_Some. intros [_ Hx]. exists d'. naive_solver.
Qed.

(** The client consumes: one handle changes, and what it received grows. *)
Lemma step_consume ops h off rec id d d' events :
  hub_inv ops {| hr_hub := h; hr_offered := off; hr_received := rec |} →
  hub_handles h !! id = Some d → hd_session d' = hd_session d →
  (∀ o l, handle_inv (registered h (hd_session d) id) d o l →
          handle_inv (registered h (hd_session d) id) d' o (l ++ events)) →
  hub_inv (ops ++ [HNext id])
    {| hr_hub := {| hub_handles := <[id := d']> (hub_handles h); hub_sessions := hub_sessions h |};
       hr_offered := off; hr_received := alter (λ l, l ++ events) id rec |}.
Proof.
  intros [Hreg Hopen Hh] Hd Hs Hi. simpl in Hreg, Hopen, Hh.
  split; simpl.
  - intros s x Hx. destruct (Hreg s x Hx) as (d1 & Hd1 & Hs1).
    destruct (decide (x = id)) as [->|Hne].
    + rewrite lookup_insert_eq. exists d'. split; [done|]. congruence.
    + rewrite lookup_insert_ne by done. eauto.
  - intros x d1 Hx. rewrite opened_ids_app, app_nil_r. destruct (decide (x = id)) as [->|Hne]; [eauto|].
    rewrite lookup_insert_ne in Hx by done. eauto.
  - intros x d1. destruct (decide (x = id)) as [->|Hne].
    + rewrite lookup_insert_eq. intros [= <-]. destruct (Hh id d Hd) as (o & l & Ho & Hl & Hinv).
      exists o, (l ++ events). rewrite lookup_alter_eq, Hl, Hs. split_and!; [done..|by apply Hi].
    + rewrite lookup_insert_ne, lookup_alter_ne by done. eauto.
Qed.

Lemma alter_nil (rec : gmap Uuid (list SessionEvent)) id : alter (λ l, l ++ []) id rec = rec.
Proof.
  apply map_eq. intros x. destruct (decide (id = x)) as [<-|Hn].
  - rewrite lookup_alter_eq. destruct (rec !! id); simpl; [by rewrite app_nil_r|done].
  - by rewrite lookup_alter_ne.
Qed.

(** A signal is consumed with the event it announces, if that is still queued. *)
Lemma handle_pop reg d signals o l :
  hd_signals d = SG_Event :: signals → handle_inv reg d o l →
  handle_inv reg {| hd_session := hd_session d; hd_queue := (pop (hd_queue d)).1;
                    hd_signals := signals |} o (l ++ option_list (pop (hd_queue d)).2).
Proof.
  intros Hs (Hpre & Hreg & n & tail & Hsig & Htail). rewrite Hs in Hsig, Hreg.
  assert (Hq : l ++ (q_events (hd_queue d)).*1 =
    (l ++ option_list (pop (hd_queue d)).2) ++ (q_events (pop (hd_queue d)).1).*1).
  { unfold pop. destruct (q_events (hd_queue d)) as [|[e k] es] eqn:He; simpl.
    - by rewrite ?He, !app_nil_r.
    - by rewrite <-(assoc_L (++)). }
  unfold handle_inv. simpl. rewrite <-Hq. split_and!; [done| |].
  - intros Hr. destruct (Hreg Hr) as [Ho Hn]. split; [done|].
    unfold pop. destruct (q_events (hd_queue d)) as [|[e k] es]; simpl in *; congruence.
  - destruct n as [|n]; simpl in Hsig; [|by injection Hsig as ->; eauto].
    destruct Htail as [-> | ->]; discriminate.
Qed.

Lemma handle_lag reg d signals o l :
  hd_signals d = SG_Lagged :: signals → handle_inv reg d o l →
  handle_inv reg {| hd_session := hd_session d; hd_queue := hd_queue d; hd_signals := signals |}
    o (l ++ []).
Proof.
  intros Hs (Hpre & Hreg & n & tail & Hsig & Htail). rewrite Hs in Hsig, Hreg.
  unfold handle_inv. simpl. rewrite app_nil_r. split_and!; [done| |].
  - intros Hr. destruct (Hreg Hr) as [_ Hn].
    destruct (length (q_events (hd_queue d))); discriminate.
  - destruct n as [|n]; [|discriminate]. destruct Htail as [-> | ->]; [discriminate|].
    simpl in Hsig. injection Hsig as ->. exists 0%nat, []. eauto.
Qed.

Lemma step_next ops r id : hub_inv ops r → hub_inv (ops ++ [HNext id]) (hub_step r (HNext id)).
Proof.
  destruct r as [h off rec]. intros Hr. simpl. unfold next.
  destruct (hub_handles h !! id) as [d|] eqn:Hd; [|eapply step_narrow; naive_solver].
  destruct (hd_signals d) as [|[|] signals] eqn:Hs.
  - destruct (decide (registered h (hd_session d) id)); eapply step_narrow; naive_solver.
  - destruct (pop (hd_queue d)) as [q e] eqn:Hp. simpl.
    assert (Hrec : match (match e with Some e => NX_Item (SI_Event e) | None => NX_End end) with
      | NX_Item (SI_Event e) => alter (λ l, l ++ [e]) id rec | _ => rec end =
      alter (λ l, l ++ option_list e) id rec) by (destruct e; [done|by rewrite alter_nil]).
    rewrite Hrec. eapply step_consume; [done|done|done|]. intros o l Hi.
    pose proof (handle_pop _ d signals o l Hs Hi) as Hi'. by rewrite Hp in Hi'.
  - simpl. rewrite <-(alter_nil rec id). eapply step_consume; [done|done|done|].
    intros o l. by apply handle_lag.
Qed.

Lemma step_publish ops r e : hub_inv ops r → hub_inv (ops ++ [HPublish e]) (hub_step r (HPublish e)).
Proof.
  destruct r as [h off rec]. intros Hr. pose proof Hr as [Hreg Hopen Hh].
  simpl in Hreg, Hopen, Hh |- *. unfold publish. set (s := sev_session_id e).
  destruct (hub_sessions h !! s) as [subs|] eqn:Hsubs.
  2:{ replace (map_imap _ off) with off; [eapply step_narrow; naive_solver|].
      apply map_eq. intros x. rewrite map_lookup_imap. destruct (off !! x); simpl; [|done].
      rewrite decide_False; [done|]. unfold registered. rewrite Hsubs. simpl. set_solver. }
  set (kept := filter _ subs). assert (Hkept : kept ⊆ subs) by set_solver.
  assert (Hin : ∀ x, registered h s x ↔ x ∈ subs) by (intros x; unfold registered; by rewrite Hsubs).
  split; simpl.
  - intros s' x Hx. rewrite registered_kept in Hx by done.
    assert (Hx' : registered h s' x).
    { destruct (decide (s' = s)) as [->|]; [apply Hin; set_solver|done]. }
    destruct (Hreg s' x Hx') as (d & Hd & Hs'). rewrite map_lookup_imap, Hd. simpl.
    eexists. split; [done|]. case_bool_decide; [by rewrite offer_session|done].
  - intros x d. rewrite map_lookup_imap, opened_ids_app, app_nil_r.
    destruct (hub_handles h !! x) eqn:Hx; [eauto|done].
  - intros x d'. rewrite !map_lookup_imap. destruct (hub_handles h !! x) as [d|] eqn:Hd; [|done].
    simpl. intros [= <-]. destruct (Hh x d Hd) as (o & l & Ho & Hl & Hi). rewrite Ho. simpl.
    destruct (bool_decide_reflect (x ∈ subs)) as [Hx|Hx].
    + rewrite decide_True by (by apply Hin). eexists _, l. split_and!; [done..|].
      destruct (Hreg s x) as (d1 & Hd1 & Hs1); [by apply Hin|].
      assert (d1 = d) as -> by congruence.
      assert (Hses : hd_session (offer e d).1 = s) by (by rewrite offer_session).
      rewrite Hses. apply (handle_weaken ((offer e d).2 = true)).
      * rewrite registered_kept by done. rewrite decide_True by done. unfold kept.
        rewrite elem_of_filter. unfold stays. rewrite Hd. naive_solver.
      * apply handle_offer. eapply handle_weaken; [|done]. intros _. rewrite Hs1. by apply Hin.
    + rewrite decide_False by (by rewrite Hin). exists o, l. split_and!; [done..|].
      eapply handle_weaken; [|done]. rewrite registered_kept by done.
      destruct (decide (hd_session d = s)); [set_solver|done].
Qed.

Lemma hub_run_inv ops : NoDup (opened_ids ops) → hub_inv ops (hub_run ops).
Proof.
  induction ops as [|op ops IH] using rev_ind; intros Hnd.
  - split; simpl; [|done|done]. unfold registered. simpl. set_solver.
  - rewrite opened_ids_app in Hnd. apply NoDup_app in Hnd as (Hnd & Hdis & _).
    specialize (IH Hnd). unfold hub_run in *. rewrite foldl_snoc. destruct op.
    + apply step_subscribe; [|done]. intros Hin. apply (Hdis _ Hin). simpl. set_solver.
    + by apply step_publish.
    + by apply step_next.
    + by apply step_purge.
    + by apply step_drop.
Qed.

Lemma lagged_last n tail before after :
  tail = [] ∨ tail = [SG_Lagged] →
  repeat SG_Event n ++ tail = before ++ SG_Lagged :: after → after = [].
Proof.
  intros Ht. revert before. induction n as [|n IH]; intros before; simpl.
  - destruct Ht as [-> | ->]; destruct before as [|x [|y before]]; naive_solver.
  - destruct before as [|x before]; [discriminate|]. intros [= _ Hb]. by eapply IH.
Qed.


(** What is published to a session after it was purged reaches nobody. *)
Lemma publish_purged e h :
  publish e (purge_session (sev_session_id e) h) = purge_session (sev_session_id e) h.
Proof. unfold publish. simpl. by rewrite lookup_delete_eq. Qed.
End hub.

(** ** Witness *)

Definition sample_ops : list HubOp :=
  [HSubscribe 7%N 1%N [sample_event 1%N]; HPublish (sample_event 2%N); HNext 7%N].

