(* ===== verification/DaemonBackend.v ===== *)
(** * DaemonBackend: the storage the daemon works with, and its surroundings
      (workbench-daemon/src/storage_backend.rs)

    [StorageBackend] is the trait of the same name, without the two methods of
    exports, which are [ExportBackend]. [BackendLaws] is what the daemon relies on,
    in terms of the history of a session: appends extend one history, commands do so
    once, reading changes none, deletion only removes. [LockedStorage] delegates to
    the SQLite storage, which is the instance at the end. [DaemonEnv] is what the
    daemon gets from outside: identifiers, the clock, the providers' answers. *)

From stdpp Require Import sorting.
From S2P Require Import Prelude StateResult Text BTree Errors Event Json Wire Value Ports.
From S2P Require Import ProtoCommand Subscription StorageKeys StorageTables StorageDb.
From S2P Require Import StorageInv StorageOps StorageDisk StorageExport.

(** ** The trait *)

Class StorageBackend (S : Type) : Type := {
  be_create_session : CreateSession → ST S StorageError CommandOutcome;
  be_append_event : EventInput → ST S StorageError StoredEvent;
  be_append_events : list EventInput → ST S StorageError (list StoredEvent);
  be_replay : Uuid → N → ST S StorageError (list StoredEvent);
  be_lookup_command_outcome : option Uuid → Uuid → string → Value →
    ST S StorageError (option Value);
  be_record_command_outcome : Uuid → Uuid → string → Value → Value →
    ST S StorageError CommandOutcome;
  be_commit_command_event : Uuid → string → Value → Value → EventInput →
    ST S StorageError CommandEventOutcome;
  be_commit_command_events : Uuid → string → Value → Value → list EventInput →
    ST S StorageError CommandEventsOutcome;
  be_load_session_state : Uuid → ST S StorageError string;
  be_load_session : Uuid → ST S StorageError StoredSession;
  be_load_sessions : ST S StorageError (list StoredSession);
  be_list_session_metadata : N → option Uuid → ST S StorageError SessionMetadataPage;
  be_is_deleted : Uuid → ST S StorageError bool;
  be_recover_uncertain_attempts : OffsetDateTime → ST S StorageError (list RecoveredAttempt);
  be_resume_session_creations : ST S StorageError N;
  be_resume_deletions : ST S StorageError (list DeletionSummary);
  be_ensure_session_deletable : Uuid → ST S StorageError unit;
  be_request_deletion : Uuid → Uuid → Uuid → OffsetDateTime → string →
    ST S StorageError DeletionSummary;
}.

(** ** What the daemon relies on *)

(** The events that an append of inputs to a history of this length stores. *)
Definition stored_after (n : nat) (events : list EventInput) : list StoredEvent :=
  imap (λ i e, persisted_as e (N.of_nat (n + i + 1))) events.

(** Events with the sequences that follow a history of this length. *)
Definition numbered (n : nat) (events : list StoredEvent) : Prop :=
  ∀ i e, events !! i = Some e → se_sequence e = N.of_nat (n + i + 1).

(** The start of an attempt is in the history. *)
Definition started_in (h : list StoredEvent) (attempt : option Uuid) : Prop :=
  ∃ e, e ∈ h ∧ se_kind e = "dispatch_started" ∧ se_attempt_id e = attempt.

Section views.
Context {S : Type} (history_of : S → Uuid → list StoredEvent → Prop).

(** No history changes. *)
Definition quiet (s s' : S) : Prop := ∀ x h, history_of s' x h ↔ history_of s x h.

(** One history is extended. *)
Definition extends (sid : Uuid) (events : list StoredEvent) (s s' : S) : Prop :=
  ∀ x h', history_of s' x h' ↔
    if decide (x = sid) then ∃ h, history_of s x h ∧ h' = h ++ events else history_of s x h'.

(** Histories are removed, or extended by events that satisfy a property. *)
Definition grows (P : Uuid → list StoredEvent → StoredEvent → Prop) (s s' : S) : Prop :=
  ∀ x h', history_of s' x h' → ∃ h events, history_of s x h ∧ h' = h ++ events ∧
    numbered (length h) events ∧
    Forall (λ e, value_wf (se_payload e) = true ∧ P x h e) events.
End views.

Class BackendLaws (S : Type) `{StorageBackend S} : Type := {
  (** well formed, and every session is one of these *)
  backend_ok : (Uuid → Prop) → S → Prop;
  history_of : S → Uuid → list StoredEvent → Prop;
  backend_mono (D D' : Uuid → Prop) s : (∀ x, D x → D' x) → backend_ok D s → backend_ok D' s;
  history_unique s sid h h' : history_of s sid h → history_of s sid h' → h = h';
  law_append_event input D s s' r :
    backend_ok D s → value_wf (ei_payload input) = true →
    be_append_event input s = (s', r) →
    backend_ok D s' ∧
    match r with
    | Ok e => extends history_of (ei_session_id input) [e] s s' ∧
        ∀ h, history_of s (ei_session_id input) h → [e] = stored_after (length h) [input]
    | Err _ => quiet history_of s s'
    end;
  law_append_events events D s s' r :
    backend_ok D s → Forall (λ e, value_wf (ei_payload e) = true) events →
    be_append_events events s = (s', r) →
    backend_ok D s' ∧
    match r with
    | Ok persisted =>
        match events with
        | [] => quiet history_of s s'
        | first :: _ => extends history_of (ei_session_id first) persisted s s' ∧
            ∀ h, history_of s (ei_session_id first) h → persisted = stored_after (length h) events
        end
    | Err _ => quiet history_of s s'
    end;
  law_commit request method parameters outcome events D s s' r :
    backend_ok D s → Forall (λ e, value_wf (ei_payload e) = true) events →
    be_commit_command_events request method parameters outcome events s = (s', r) →
    backend_ok D s' ∧
    match r with
    | Ok (CES_Recorded persisted _) =>
        ∃ first, head events = Some first ∧
          extends history_of (ei_session_id first) persisted s s' ∧
          ∀ h, history_of s (ei_session_id first) h → persisted = stored_after (length h) events
    | _ => quiet history_of s s'
    end;
  law_commit_event request method parameters outcome event D s s' r :
    backend_ok D s → value_wf (ei_payload event) = true →
    be_commit_command_event request method parameters outcome event s = (s', r) →
    backend_ok D s' ∧
    match r with
    | Ok (CEO_Recorded e _) =>
        extends history_of (ei_session_id event) [e] s s' ∧
        ∀ h, history_of s (ei_session_id event) h → [e] = stored_after (length h) [event]
    | _ => quiet history_of s s'
    end;
  law_replay sid D s s' r :
    backend_ok D s → be_replay sid 0 s = (s', r) →
    backend_ok D s' ∧ quiet history_of s s' ∧ ∀ l, r = Ok l → l ≠ [] → history_of s sid l;
  law_create input D s s' r :
    backend_ok D s → ¬ D (cs_session_id input) → value_wf (cs_initial_event_payload input) = true →
    value_wf (cs_configuration_snapshot input) = true → value_wf (cs_lock_snapshot input) = true →
    value_wf (cs_command_outcome input) = true →
    be_create_session input s = (s', r) →
    backend_ok (λ x, D x ∨ x = cs_session_id input) s' ∧
    (∀ x h, history_of s x h → history_of s' x h) ∧
    (∀ x h, history_of s' x h → history_of s x h ∨
       x = cs_session_id input ∧ (∀ h, ¬ history_of s x h) ∧
       ∃ e, h = [e] ∧ se_kind e = "session_created" ∧ se_sequence e = 1%N ∧
            se_payload e = cs_initial_event_payload input);
  law_recover at_time D s s' r :
    backend_ok D s → be_recover_uncertain_attempts at_time s = (s', r) →
    backend_ok D s' ∧
    grows history_of (λ _ h e, se_kind e = "outcome_unknown" ∧ started_in h (se_attempt_id e)) s s';
  law_delete sid did req at_time actor D s s' r :
    backend_ok D s → be_request_deletion sid did req at_time actor s = (s', r) →
    backend_ok D s' ∧ grows history_of (λ _ _ e, se_kind e = "session_deletion_requested") s s';
  law_resume_deletions D s s' r :
    backend_ok D s → be_resume_deletions s = (s', r) →
    backend_ok D s' ∧ grows history_of (λ _ _ _, False) s s';
  law_resume_creations D s s' r :
    backend_ok D s → be_resume_session_creations s = (s', r) →
    backend_ok D s' ∧ quiet history_of s s';
  law_record sid req method parameters outcome D s s' r :
    backend_ok D s → be_record_command_outcome sid req method parameters outcome s = (s', r) →
    backend_ok D s' ∧ quiet history_of s s';
  law_lookup sid req method parameters D s s' r :
    backend_ok D s → be_lookup_command_outcome sid req method parameters s = (s', r) →
    backend_ok D s' ∧ quiet history_of s s';
  law_load_state sid D s s' r :
    backend_ok D s → be_load_session_state sid s = (s', r) → backend_ok D s' ∧ quiet history_of s s';
  law_load sid D s s' r :
    backend_ok D s → be_load_session sid s = (s', r) → backend_ok D s' ∧ quiet history_of s s';
  law_load_all D s s' r :
    backend_ok D s → be_load_sessions s = (s', r) → backend_ok D s' ∧ quiet history_of s s';
  law_list limit before D s s' r :
    backend_ok D s → be_list_session_metadata limit before s = (s', r) →
    backend_ok D s' ∧ quiet history_of s s';
  law_is_deleted sid D s s' r :
    backend_ok D s → be_is_deleted sid s = (s', r) → backend_ok D s' ∧ quiet history_of s s';
  law_deletable sid D s s' r :
    backend_ok D s → be_ensure_session_deletable sid s = (s', r) →
    backend_ok D s' ∧ quiet history_of s s';
}.

(** ** Surroundings *)

(** The export methods of the trait. *)
Class ExportBackend (S : Type) : Type := {
  be_resume_exports : ST S StorageError (list StoredEvent);
  be_execute_export : ExportCommand → ST S StorageError CommandEventOutcome;
  recipient_fingerprints : list string → Result (list string) StorageError;
}.

(** An export appends at most its own event to the history of its session. *)
Class ExportLaws (S : Type) `{BackendLaws S} `{!ExportBackend S} : Prop := {
  law_resume_exports D s s' r :
    backend_ok D s → be_resume_exports s = (s', r) →
    backend_ok D s' ∧ grows history_of (λ _ _ e, se_kind e = "session_exported") s s';
  law_execute_export command D s s' r :
    backend_ok D s → value_wf (xc_event_payload command) = true →
    be_execute_export command s = (s', r) →
    backend_ok D s' ∧ grows history_of (λ _ _ e, se_kind e = "session_exported") s s';
}.

(** Identifiers, the clock and the providers: the n-th answer of each. A provider
    without an adapter has no entry in the registry. *)
Class DaemonEnv : Type := {
  daemon_v7 : N → Uuid;
  clock : N → OffsetDateTime;
  has_adapter : ProviderId → bool;
  provider_start : N → ProviderId → Result ProviderSessionHandle ProviderFailure;
  provider_prompt : N → ProviderId → ProviderSessionHandle → ProviderPrompt →
    Result unit ProviderFailure;
  provider_available : N → ProviderId → bool;
  (** serde_yaml_ng: the text of the overrides, read as a document *)
  overrides_yaml : BTreeMap Value → option Value;
  encoded_len : SessionEvent → option N;
}.
