(* ===== verification/DaemonSqlite.v ===== *)
(** * DaemonSqlite: the SQLite storage is a storage backend
      (LockedStorage of workbench-daemon/src/storage_backend.rs)

    [LockedStorage] takes its mutex and delegates; the instance at the end is that
    delegation, and the lemmas before it are the laws the daemon relies on. *)

From stdpp Require Import sorting.
From S2P Require Import Prelude StateResult Text BTree Errors Json Wire Event.
From S2P Require Import StorageKeys StorageTables StorageDb StorageInv StorageOps StorageProps.
From S2P Require Import StorageView DaemonBackend.

Section sqlite.
Context `{StorageEnv} `{!StorageEnvLaws} {K : Type} `{KeyStore K} `{!KeyStoreLaws K}.
Implicit Types (t : Tables) (m : KeyManager K) (s : SqliteStorage K).

Lemma views_quiet {A} (f : SM (K := K) A) s s' r :
  views f → SInv s → f s = (s', r) → quiet stored_history s s'.
Proof.
  intros Hf Hs Hr. specialize (Hf s Hs). rewrite Hr in Hf. intros x h. by apply same_view_histories.
Qed.

Lemma keeps_ok {A} (f : SM (K := K) A) s s' r : keeps SInv f → SInv s → f s = (s', r) → SInv s'.
Proof. intros Hf Hs Hr. specialize (Hf s Hs). by rewrite Hr in Hf. Qed.

(** ** Appending *)

Lemma appended_shape t input row x :
  let t' := appended t input row in
  events_of t' x = events_of t x ++ (if text_eq (e_session_id row) x then [row] else []) ∧
  (session_row t' x = None ↔ session_row t x = None).
Proof.
  intros t'. unfold t', appended. destruct (touches_state _).
  - split.
    + change (events_of (with_events t (session_events t ++ [row])) x = events_of t x ++
        (if text_eq (e_session_id row) x then [row] else [])). apply events_of_snoc.
    + rewrite session_row_update by (intros r; apply apply_event_identity).
      change (session_row (with_events _ _) x) with (session_row t x). by destruct (session_row t x).
  - split; [apply events_of_snoc|done].
Qed.

Lemma appends_rows events key_id key sid s s' evs :
  Forall (λ e, input_ok e ∧ ei_session_id e = sid) events →
  st_map (λ e, append_event_in_transaction e key_id key) events s = (s', Ok evs) →
  (∃ rows, events_of (connection s') (uuid_text sid) = events_of (connection s) (uuid_text sid) ++ rows) ∧
  (∀ x, has_session (connection s') x ↔ has_session (connection s) x) ∧
  (∀ x, x ≠ sid → events_of (connection s') (uuid_text x) = events_of (connection s) (uuid_text x)).
Proof.
  intros Hev. revert s evs. induction Hev as [|e events [Hv He] Hev IH]; intros s evs; simpl.
  { intros [= <- _]. split_and!; [|done|done]. exists []. by rewrite app_nil_r. }
  intros Hm. break_state. apply append_effect in Hstep as (row & Hr & _ & Ht & _); [|done].
  apply IH in Hstep0 as ((rows & Hrows) & Hses & Hoth).
  pose proof (λ x, appended_shape (connection s) e row x) as Hsh. rewrite <-Ht in Hsh. simpl in Hsh.
  split_and!.
  - rewrite Hrows, (proj1 (Hsh _)), <-app_assoc. eauto.
  - intros x. rewrite Hses. unfold has_session. by rewrite (proj2 (Hsh _)).
  - intros x Hx. rewrite Hoth by done. rewrite (proj1 (Hsh _)), (ro_session _ _ _ _ _ Hr).
    rewrite (proj2 (text_eq_false _ _)); [by rewrite app_nil_r|]. by intros ?%uuid_text_inj.
Qed.

(** Reading the key and running a transaction changes no entry of the key store. *)
Lemma keyed_entries {A} sid (body : string → SecretKey → SM (K := K) (bool * A)) s s' r :
  SInv s → (∀ key_id key, tables_only (body key_id key)) →
  (let! key_id := stored_key_id sid in
   let! key := with_keys (session_key sid) in transaction (body key_id key)) s = (s', r) →
  same_entries (keys s) (keys s').
Proof.
  intros Hs Hto. unfold st_bind at 1. destruct (stored_key_id sid s) as [s1 r1] eqn:E1.
  apply stored_key_id_calm in E1 as C1.
  pose proof (same_keys_entries _ _ (proj2 C1)) as K1.
  destruct r1 as [key_id|e]; [|by intros [= <- _]].
  unfold st_bind, with_keys. destruct (session_key sid (keys s1)) as [m2 r2] eqn:E2.
  pose proof (Inv_session_key _ _ _ _ _ E2 (SInv_calm _ _ C1 Hs)) as (_ & Hsp & Hent & _).
  assert (same_entries (keys s) m2) as K2 by (eapply same_entries_trans; [exact K1|by split]).
  destruct r2 as [key|e]; [|by intros [= <- _]].
  intros [K3 _]%transaction_effect; [|done]. eapply same_entries_trans; [exact K2|].
  by apply same_keys_entries.
Qed.

Lemma try_collect_prefix {A B E} (f : A → Result B E) l l' ys :
  try_collect f (l ++ l') = Ok ys → ∃ zs, try_collect f l = Ok zs.
Proof.
  revert ys. induction l as [|x l IH]; intros ys; simpl; [by eexists|].
  destruct (f x); simpl; [|done]. destruct (try_collect f (l ++ l')) as [zs|]; simpl; [|done].
  destruct (IH zs eq_refl) as [ws ->]. eauto.
Qed.

(** The histories after a batch was appended. *)
Lemma appended_extends sid s s' key persisted :
  same_entries (keys s) (keys s') →
  (∃ rows, events_of (connection s') (uuid_text sid) = events_of (connection s) (uuid_text sid) ++ rows) →
  (∀ x, has_session (connection s') x ↔ has_session (connection s) x) →
  (∀ x, x ≠ sid → events_of (connection s') (uuid_text x) = events_of (connection s) (uuid_text x)) →
  readable (keys s) sid key →
  (∀ h, history key sid (connection s) = Ok h → history key sid (connection s') = Ok (h ++ persisted)) →
  extends stored_history sid persisted s s'.
Proof.
  intros Hent (rows & Hrows) Hses Hoth Hk Hh x h'. unfold stored_history. rewrite Hses.
  setoid_rewrite (same_entries_readable _ _ x _ Hent). case_decide as Hx.
  - rewrite Hx. split.
    + intros (Hs & key' & Hk' & Hh'). rewrite (readable_unique _ _ _ _ Hk' Hk) in Hh'.
      destruct (history key sid (connection s)) as [h|] eqn:Hold.
      * exists h. split; [by split; [|exists key]|]. rewrite (Hh h eq_refl) in Hh'. by injection Hh' as <-.
      * unfold history in Hh', Hold. rewrite Hrows in Hh'.
        apply try_collect_prefix in Hh' as [zs Hzs]. by rewrite Hzs in Hold.
    + intros (h & (Hs & key' & Hk' & Hold) & ->). split; [done|]. exists key. split; [done|].
      apply Hh. by rewrite (readable_unique _ _ _ _ Hk Hk').
  - unfold history. by rewrite (Hoth x Hx).
Qed.

(** The same sessions and the same entries of keys. *)
Definition kept s s' : Prop :=
  same_entries (keys s) (keys s') ∧ ∀ x, has_session (connection s') x ↔ has_session (connection s) x.

Lemma kept_refl s : kept s s.
Proof. split; [apply same_entries_refl|done]. Qed.

(** A transaction that may append a batch to one session. *)
Lemma keyed_append {A} sid (body : string → SecretKey → SM (K := K) (bool * A)) s s' r events
    (result : A → option (list StoredEvent)) :
  SInv s → (∀ key_id key, tables_only (body key_id key)) →
  Forall (λ e, input_ok e ∧ ei_session_id e = sid) events →
  (∀ key_id key s0 s1 b a, body key_id key s0 = (s1, Ok (b, a)) →
     match result a with
     | Some evs => b = true ∧ ∃ s2 s3, calm s0 s2 ∧
         st_map (λ e, append_event_in_transaction e key_id key) events s2 = (s3, Ok evs) ∧
         beside (connection s3) (connection s1)
     | None => b = false ∨ beside (connection s0) (connection s1)
     end) →
  (let! key_id := stored_key_id sid in
   let! key := with_keys (session_key sid) in transaction (body key_id key)) s = (s', r) →
  kept s s' ∧
  match r with
  | Ok a =>
      match result a with
      | Some evs => length evs = length events ∧ extends stored_history sid evs s s' ∧
          ∀ h, stored_history s sid h → evs = stored_after (length h) events
      | None => quiet stored_history s s'
      end
  | Err _ => quiet stored_history s s'
  end.
Proof.
  intros Hs Hto Hev Hbody Hr. pose proof (keyed_entries _ _ _ _ _ Hs Hto Hr) as Hent.
  apply keyed_transaction in Hr; [|done|done].
  assert (connection s' = connection s → quiet stored_history s s') as Hquiet.
  { intros Heq x h. apply same_view_histories, same_view_tables; [by rewrite Heq..|done]. }
  assert (connection s' = connection s → kept s s') as Hkept by (intros Heq; split; by rewrite ?Heq).
  destruct r as [a|e]; [|by split; [apply Hkept|apply Hquiet]].
  destruct Hr as (key_id & key & s0 & s1 & b & Hi0 & Ht0 & Hk0 & Hks & Hb & Hconn & _).
  apply Hbody in Hb. destruct (result a) as [evs|].
  2:{ assert (beside (connection s) (connection s')) as [Hbs Hbe].
      { destruct Hb as [->|Hb]; [by rewrite Hconn|]. destruct b; [by rewrite Hconn, <-Ht0|by rewrite Hconn]. }
      split; [split; [done|]; intros x; unfold has_session, session_row; by rewrite Hbs|].
      intros x h. by apply same_view_histories, same_view_tables. }
  destruct Hb as (-> & s2 & s3 & C & Hmap & Hs3 & He3).
  assert (readable (keys s2) sid key) as Hk2 by (eapply same_keys_readable; [apply C|done]).
  pose proof (SInv_calm _ _ C Hi0) as Hi2. destruct C as [Ht2 _].
  assert (length evs = length events) as Hlen by by eapply st_map_length.
  assert (Hh : ∀ h, history key sid (connection s) = Ok h →
    history key sid (connection s') = Ok (h ++ evs) ∧ evs = stored_after (length h) events).
  { intros h Hh. eapply appends_history in Hmap as (Hh3 & Hevs & _); [|done|done|done|by rewrite Ht2, Ht0].
    split; [|done]. rewrite Hconn. unfold history, events_of in *. by rewrite He3. }
  apply appends_rows with (sid := sid) in Hmap as (Hrows & Hses & Hoth); [|done].
  assert (∀ x, has_session (connection s') x ↔ has_session (connection s) x) as Hsess.
  { intros x. rewrite Hconn. unfold has_session, session_row in *. by rewrite Hs3, Hses, Ht2, Ht0. }
  split; [by split|]. split_and!; [done| |].
  - apply (appended_extends sid s s' key); [done| |done| |done|].
    + destruct Hrows as [rows Hrows]. exists rows. rewrite Hconn. unfold events_of in *.
      by rewrite He3, Hrows, Ht2, Ht0.
    + intros x Hx. rewrite Hconn. specialize (Hoth x Hx). unfold events_of in *.
      by rewrite He3, Hoth, Ht2, Ht0.
    + intros h Hold. by apply Hh.
  - intros h (_ & key' & Hk' & Hold). rewrite (readable_unique _ _ _ _ Hk' Hks) in Hold. by apply Hh.
Qed.

Lemma sqlite_append_event input s s' r :
  SInv s → input_ok input → append_event input s = (s', r) →
  kept s s' ∧
  match r with
  | Ok e => extends stored_history (ei_session_id input) [e] s s' ∧
      ∀ h, stored_history s (ei_session_id input) h → [e] = stored_after (length h) [input]
  | Err _ => quiet stored_history s s'
  end.
Proof.
  intros Hs Hv Hr. unfold append_event in Hr.
  eapply (keyed_append _ (λ key_id key, let! persisted := append_event_in_transaction input key_id key in
    st_ret (true, persisted)) _ _ _ [input] (λ e, Some [e])) in Hr; [destruct Hr as [? Hr]; by destruct r; [destruct Hr as (_ & ? & ?)|]|done| |by repeat constructor|].
  - intros. apply tables_only_bind; [apply tables_only_append|]. intros; apply tables_only_ret.
  - intros key_id key s0 s1 b a Hb. apply st_bind_Ok in Hb as (s2 & e & Ha & Hret).
    injection Hret as <- <- <-. split; [done|]. exists s0, s2. split_and!; [apply calm_refl| |by split].
    simpl. unfold st_bind. by rewrite Ha.
Qed.

Lemma sqlite_append_events events s s' r :
  SInv s → Forall input_ok events → append_events events s = (s', r) →
  kept s s' ∧
  match r with
  | Ok persisted =>
      match events with
      | [] => quiet stored_history s s'
      | first :: _ => extends stored_history (ei_session_id first) persisted s s' ∧
          ∀ h, stored_history s (ei_session_id first) h → persisted = stored_after (length h) events
      end
  | Err _ => quiet stored_history s s'
  end.
Proof.
  intros Hs Hok Hr. destruct events as [|first events]; [injection Hr as <- <-; by split; [apply kept_refl|]|].
  unfold append_events in Hr. destruct (existsb _ _) eqn:Hex; [injection Hr as <- <-; by split; [apply kept_refl|]|].
  pose proof (batch_session _ _ Hex Hok) as Hb.
  eapply (keyed_append _ (λ key_id key, let! persisted := st_map
    (λ e, append_event_in_transaction e key_id key) (first :: events) in st_ret (true, persisted))
    _ _ _ (first :: events) Some) in Hr; [destruct Hr as [? Hr]; by destruct r; [destruct Hr as (_ & ? & ?)|]|done| |done|].
  - intros. apply tables_only_bind; [apply tables_only_map; intros; apply tables_only_append|].
    intros; apply tables_only_ret.
  - intros key_id key s0 s1 b a Hbody. apply st_bind_Ok in Hbody as (s2 & evs & Ha & Hret).
    injection Hret as <- <- <-. split; [done|]. exists s0, s2. by split_and!; [apply calm_refl| |].
Qed.

(** ** Commands *)

Lemma sqlite_commit_events req method parameters outcome events s s' r :
  SInv s → Forall input_ok events →
  commit_command_events req method parameters outcome events s = (s', r) →
  kept s s' ∧
  match r with
  | Ok (CES_Recorded persisted _) =>
      length persisted = length events ∧ ∃ first, head events = Some first ∧
        extends stored_history (ei_session_id first) persisted s s' ∧
        ∀ h, stored_history s (ei_session_id first) h → persisted = stored_after (length h) events
  | _ => quiet stored_history s s'
  end.
Proof.
  intros Hs Hok Hr. destruct events as [|first events]; [injection Hr as <- <-; by split; [apply kept_refl|]|].
  unfold commit_command_events in Hr.
  destruct (_ || existsb _ _) eqn:Hex; [injection Hr as <- <-; by split; [apply kept_refl|]|].
  apply orb_false_iff in Hex as [_ Hex].
  assert (Forall (λ e, input_ok e ∧ ei_session_id e = ei_session_id first) (first :: events)) as Hb.
  { apply batch_session; [|done]. apply not_true_iff_false in Hex.
    apply not_true_iff_false. intros (e & He & Hne)%existsb_exists. apply Hex, existsb_exists.
    exists e. by rewrite Hne. }
  unfold st_bind at 1, st_lift at 1 in Hr. destruct (validate_port_command _) as [u|e];
    [|injection Hr as <- <-; by split; [apply kept_refl|]].
  set (record := {| cr_method := method; cr_parameter_hash := canonical_hash parameters;
                    cr_outcome := json_print outcome |}) in Hr.
  eapply (keyed_append _ (command_body req (ei_session_id first) record outcome (first :: events))
    _ _ _ (first :: events) (λ c, match c with CES_Recorded l _ => Some l | CES_Replay _ => None end))
    in Hr; [|done|intros; apply tables_only_command_body|done|].
  - destruct Hr as [Hkept Hr]. split; [done|]. destruct r as [[persisted v|v]|e]; [|done|done].
    destruct Hr as (? & ? & ?). split; [done|]. by exists first.
  - intros key_id key s0 s1 b a Hbody. unfold command_body in Hbody.
    apply st_bind_Ok in Hbody as (s2 & existing & Hq & Hbody).
    unfold lookup_stored_command in Hq. apply query_calm in Hq as [C _].
    destruct existing as [existing|].
    + destruct (same_command existing record); [|done].
      apply st_bind_Ok in Hbody as (s3 & v & Hv & Hret). injection Hret as _ <- <-. by left.
    + apply st_bind_Ok in Hbody as (s3 & evs & Hmap & Hbody).
      apply st_bind_Ok in Hbody as (s4 & u' & Hins & Hret). injection Hret as <- <- <-.
      split; [done|]. exists s2, s3. split_and!; [done|done|].
      unfold insert_port_command in Hins. apply execute_effect in Hins as [_ Hins].
      by eapply insert_outcome_beside.
Qed.

Lemma sqlite_commit_event req method parameters outcome event s s' r :
  SInv s → input_ok event →
  commit_command_event req method parameters outcome event s = (s', r) →
  kept s s' ∧
  match r with
  | Ok (CEO_Recorded e _) => extends stored_history (ei_session_id event) [e] s s' ∧
      ∀ h, stored_history s (ei_session_id event) h → [e] = stored_after (length h) [event]
  | _ => quiet stored_history s s'
  end.
Proof.
  intros Hs Hok Hr. unfold commit_command_event, st_bind in Hr.
  destruct (commit_command_events _ _ _ _ _ s) as [s1 r1] eqn:Hc.
  apply sqlite_commit_events in Hc; [|done|by repeat constructor].
  destruct Hc as [Hkept Hc].
  destruct r1 as [[persisted v|v]|e]; [|by injection Hr as <- <-..].
  destruct Hc as (Hlen & first & [= <-] & Hx & Hp).
  destruct persisted as [|e [|]]; [done| |done]. simpl in Hr. injection Hr as <- <-.
  split; [done|]. by split.
Qed.

(** ** Exports *)

Lemma sqlite_commit_export export_id req hash outcome event s s' r :
  SInv s → input_ok event →
  commit_export_command export_id req hash outcome event s = (s', r) →
  kept s s' ∧
  match r with
  | Ok (CEO_Recorded e _) => extends stored_history (ei_session_id event) [e] s s' ∧
      ∀ h, stored_history s (ei_session_id event) h → [e] = stored_after (length h) [event]
  | _ => quiet stored_history s s'
  end.
Proof.
  intros Hs Hok Hr. unfold commit_export_command in Hr.
  destruct (_ || _); [injection Hr as <- <-; by split; [apply kept_refl|]|].
  unfold st_bind at 1, st_lift at 1 in Hr. destruct (validate_port_command _) as [u|e];
    [|injection Hr as <- <-; by split; [apply kept_refl|]].
  match type of Hr with (let! key_id := _ in let! key := _ in let! c := transaction (@?body key_id key) in
    @?k c) s = _ =>
    assert (st_bind (let! key_id := stored_key_id (ei_session_id event) in
      let! key := with_keys (session_key (ei_session_id event)) in transaction (body key_id key)) k s =
      (s', r)) as Hr'; [rewrite <-Hr; unfold st_bind;
        destruct (stored_key_id _ s) as [s1 [key_id|]]; [|done];
        destruct (with_keys _ s1) as [s2 [key|]]; [|done]; by destruct (transaction _ s2) as [s3 []]|];
    set (b := body) in Hr'
  end. clear Hr. unfold st_bind at 1 in Hr'.
  match type of Hr' with match ?m s with _ => _ end = _ => destruct (m s) as [s1 r1] eqn:Hkey end.
  eapply (keyed_append _ b _ _ _ [event] (λ c, match c with inl e => Some [e] | inr _ => None end))
    in Hkey as [Hkept Hres]; [|done| |by repeat constructor|].
  - destruct r1 as [[e|text]|e]; [|..|by injection Hr' as <- <-].
    + injection Hr' as <- <-. split; [done|]. by destruct Hres as (_ & ? & ?).
    + unfold st_bind, st_lift in Hr'. destruct (read_value text); by injection Hr' as <- <-.
  - intros key_id key. unfold b. apply tables_only_bind; [tables_only|]. intros st.
    destruct (bool_decide _); [tables_only|].
    apply tables_only_bind; [apply tables_only_lookup_stored_command|]. intros []; [tables_only|].
    apply tables_only_bind; [apply tables_only_append|]. intros ev.
    apply tables_only_bind; [apply tables_only_insert_port_command|]. tables_only.
  - intros key_id key s0 s2 commit c Hbody. unfold b in Hbody.
    apply st_bind_Ok in Hbody as (s3 & state & Hq & Hbody). apply query_calm in Hq as [C1 _].
    destruct (bool_decide _); [done|].
    apply st_bind_Ok in Hbody as (s4 & existing & Hq & Hbody).
    unfold lookup_stored_command in Hq. apply query_calm in Hq as [C2 _].
    pose proof (calm_trans _ _ _ C1 C2) as C. destruct existing as [existing|].
    + destruct (negb _); [done|]. apply st_bind_Ok in Hbody as (s5 & n & Hdel & Hret).
      injection Hret as <- <- <-. apply execute_count_effect in Hdel as [_ [= Ht _]]. right.
      destruct C as [<- _]. rewrite <-Ht. by split.
    + apply st_bind_Ok in Hbody as (s5 & e & Happ & Hbody).
      apply st_bind_Ok in Hbody as (s6 & u' & Hins & Hbody).
      apply st_bind_Ok in Hbody as (s7 & n & Hdel & Hret).
      destruct (n =? 1)%N; [|done]. injection Hret as <- <- <-. split; [done|]. exists s4, s5.
      split_and!; [done|simpl; unfold st_bind; by rewrite Happ|].
      unfold insert_port_command in Hins. apply execute_effect in Hins as [_ Hins].
      apply insert_outcome_beside in Hins as [H1' H2'].
      apply execute_count_effect in Hdel as [_ [= Ht _]]. rewrite <-Ht. by split.
Qed.
End sqlite.
