(* ===== verification/StoragePorts.v ===== *)
(** * StoragePorts: the core persistence ports over the SQLite storage
      (workbench-storage/src/ports.rs)

    [CoreStorageAdapter] runs each operation of the ports under the mutex of the
    storage, with typed events translated to and from stored ones. On storages whose
    events are typed the adapter keeps the promises of the event store port. The mutex
    is poisoned only by a panic, and the blocking task fails only with one; neither is
    modelled. *)

From stdpp Require Import sorting.
From S2P Require Import Prelude StateResult Text BTree Errors Value Attempt Policy Routing Event.
From S2P Require Import Ports Json Wire StorageKeys EventWire StorageTables StorageDb StorageInv.
From S2P Require Import StorageSample StorageOps StorageProps StorageWitness StorageView DaemonBackend DaemonSqlite.

Definition storage_error (e : StorageError) : NewError :=
  match e with
  | SE_InvalidInput _ | SE_RequestConflict =>
      new_error FC_InvalidRequest "storage request is invalid"
  | SE_SessionNotFound => new_error FC_SessionNotFound "session was not found"
  | SE_KeyStoreUnavailable =>
      new_error FC_KeyStoreUnavailable "platform key store is unavailable"
  | SE_UnsafeExportPath => new_error FC_InvalidRequest "export path is unsafe"
  | SE_StorageUnavailable | SE_AuthenticationFailed =>
      new_error FC_StorageUnavailable "encrypted storage is unavailable"
  end.

Section translation.
Context `{StorageEnv}.

(** [to_value] sorts the keys; a payload holds no number that JSON lacks. *)
Definition core_to_storage_event (event_id : Uuid) (event : NewEvent) (occurred_at : OffsetDateTime)
    : EventInput :=
  {| ei_event_id := event_id; ei_session_id := ne_session_id event; ei_occurred_at := occurred_at;
     ei_kind := EventKind_name (kind (ne_payload event));
     ei_causation_request_id := ne_causation_request_id event;
     ei_attempt_id := attempt_id (ne_payload event);
     ei_effect_class :=
       match ne_payload event with
       | EP_DispatchPlanned _ effect_class _ _ => Some (EffectClass_name effect_class)
       | _ => None
       end;
     ei_payload := canonical (enc EventPayload_codec (ne_payload event)) |}.

Definition storage_to_core_event (event : StoredEvent) : Result PersistedEvent NewError :=
  let invalid message := new_error FC_StorageUnavailable message in
  let? payload := map_err (λ _, invalid "encrypted event payload is invalid")
    (dec EventPayload_codec (se_payload event)) in
  if negb (text_eq (se_kind event) (EventKind_name (kind payload)))
  then Err (invalid "encrypted event metadata is inconsistent")
  else
    let? sequence := map_err (λ _, invalid "encrypted event sequence is invalid")
      (Sequence_new (se_sequence event)) in
    Ok {| pe_event_id := se_event_id event; pe_session_id := se_session_id event;
          pe_sequence := sequence; pe_causation_request_id := se_causation_request_id event;
          pe_occurred_at := se_occurred_at event; pe_payload := payload |}.
End translation.

Section adapter.
Context `{StorageEnv} {K : Type} `{KeyStore K}.

Definition PM : Type → Type := ST (SqliteStorage K) NewError.

Definition run_blocking {A} (operation : SM (K := K) A) : PM A :=
  λ s, let '(s', r) := operation s in (s', map_err storage_error r).

Definition create_session (input : CreateSession) : PM CommandOutcome :=
  run_blocking (StorageDb.create_session input).

Definition append (event : NewEvent) (occurred_at : OffsetDateTime) : PM PersistedEvent :=
  let! event_id := run_blocking fresh_uuid in
  let! stored := run_blocking (append_event (core_to_storage_event event_id event occurred_at)) in
  st_lift (storage_to_core_event stored).

Definition load_after (session_id : Uuid) (cursor : Cursor) : PM (list PersistedEvent) :=
  let! stored := run_blocking (replay session_id cursor) in
  st_lift (try_collect storage_to_core_event stored).

Definition recorded (r : StoredCommandRecord) : RecordedCommand :=
  {| rc_method := cr_method r; rc_canonical_parameter_hash := cr_parameter_hash r;
     rc_outcome := cr_outcome r |}.

Definition stored (c : RecordedCommand) : StoredCommandRecord :=
  {| cr_method := rc_method c; cr_parameter_hash := rc_canonical_parameter_hash c;
     cr_outcome := rc_outcome c |}.

Definition lookup (session_id : option Uuid) (request_id : Uuid) : PM (option RecordedCommand) :=
  let! record := run_blocking (lookup_port_command session_id request_id) in
  st_ret (recorded <$> record).

Definition record (session_id : option Uuid) (request_id : Uuid) (command : RecordedCommand) : PM unit :=
  run_blocking (record_port_command session_id request_id (stored command)).

Definition commit (request_id : Uuid) (command : RecordedCommand) (event : NewEvent)
    (occurred_at : OffsetDateTime) : PM CommandCommit :=
  let! event_id := run_blocking fresh_uuid in
  let! committed := run_blocking (commit_port_command request_id (stored command)
    (core_to_storage_event event_id event occurred_at)) in
  match committed with
  | SCC_Applied event =>
      let! event := st_lift (storage_to_core_event event) in st_ret (CC_Applied event)
  | SCC_Replayed command => st_ret (CC_Replayed (recorded command))
  end.
End adapter.

(** ** The histories of the port *)

Section histories.
Context `{StorageEnv} `{!StorageEnvLaws} {K : Type} `{KeyStore K} `{!KeyStoreLaws K}.
Implicit Types (m : KeyManager K) (s : SqliteStorage K).

(** The key of a session, read from the contents of the key store. *)
Definition opened_with m (sid : Uuid) (root : SecretKey) : option SecretKey :=
  text ← entry m (session_key_id m sid);
  p ← ok (open_envelope sid (session_key_id m sid) (km_root_key_id m) text);
  key ← ok (decrypt p root (session_aad m sid));
  if decide (key_ok key) then Some key else None.

Definition key_of m (sid : Uuid) : option SecretKey :=
  roots ← ok (stored_roots m);
  match opened_with m sid roots.1 with
  | Some key => Some key
  | None => root ← roots.2; opened_with m sid root
  end.

Lemma opened_with_spec m sid root key : opened_with m sid root = Some key ↔ opens m root sid key.
Proof.
  unfold opened_with, opens. split.
  - destruct (entry m _) as [text|]; simpl; [|done].
    destruct (open_envelope _ _ _ _) as [p|] eqn:Hp; simpl; [|done].
    destruct (decrypt p root _) as [k|] eqn:Hd; simpl; [|done]. case_decide; [|done].
    intros [= ->]. split; [done|]. by exists text, p.
  - intros (Hok & text & p & -> & Hp & Hd). simpl. rewrite Hp. simpl. rewrite Hd. simpl.
    by rewrite decide_True.
Qed.

Lemma key_of_spec m sid key : key_of m sid = Some key ↔ readable m sid key.
Proof.
  assert (Hsound : ∀ key, key_of m sid = Some key → readable m sid key).
  { intros k. unfold key_of, readable. destruct (stored_roots m) as [roots|]; simpl; [|done].
    intros Hk. exists roots. split; [done|]. unfold opens_any.
    destruct (opened_with m sid roots.1) as [k'|] eqn:Ho; [injection Hk as <-; left; by apply opened_with_spec|].
    right. destruct roots.2 as [root|]; [|done]. exists root. split; [done|]. by apply opened_with_spec. }
  split; [apply Hsound|]. intros Hr. destruct (key_of m sid) as [k|] eqn:Hk.
  - f_equal. eapply readable_unique; [by apply Hsound|done].
  - exfalso. destruct Hr as (roots & Hroots & Ho). unfold key_of in Hk. rewrite Hroots in Hk. simpl in Hk.
    destruct (opened_with m sid roots.1) as [k'|] eqn:Ho1; [done|].
    destruct Ho as [Ho|(p & Hp & Ho)]; apply opened_with_spec in Ho; [congruence|].
    by rewrite Hp in Hk; simpl in Hk; rewrite Ho in Hk.
Qed.

(** The typed events of a session. *)
Definition core_history s (sid : Uuid) : list PersistedEvent :=
  default [] (key ← key_of (keys s) sid;
              h ← ok (history key sid (connection s));
              ok (try_collect storage_to_core_event h)).

(** A storage whose events were all written through the port. *)
Definition typed s : Prop :=
  SInv s ∧ ∀ sid key, has_session (connection s) sid → readable (keys s) sid key →
    ∃ h events, stored_history s sid h ∧ try_collect storage_to_core_event h = Ok events.

Lemma core_history_stored s sid h events :
  stored_history s sid h → try_collect storage_to_core_event h = Ok events → core_history s sid = events.
Proof.
  intros (_ & key & Hk%key_of_spec & Hh) He. unfold core_history. rewrite Hk. simpl. rewrite Hh. simpl.
  by rewrite He.
Qed.

Lemma core_history_missing s sid : SInv s → ¬ has_session (connection s) sid → core_history s sid = [].
Proof.
  intros Hs Hno. unfold core_history. destruct (key_of (keys s) sid) as [key|]; simpl; [|done].
  unfold history. destruct (events_of (connection s) (uuid_text sid)) as [|r rows] eqn:He; [done|].
  exfalso. apply Hno. assert (r ∈ events_of (connection s) (uuid_text sid)) as Hr by (rewrite He; left).
  apply elem_of_filterb in Hr as [Hr Hid%text_eq_true]. unfold has_session. rewrite <-Hid.
  by eapply inv_foreign.
Qed.

Lemma core_history_keyless s sid : (∀ key, ¬ readable (keys s) sid key) → core_history s sid = [].
Proof.
  intros Hno. unfold core_history. destruct (key_of (keys s) sid) as [key|] eqn:Hk; [|done].
  apply key_of_spec in Hk. by destruct (Hno key).
Qed.

(** Either the session is there and can be read, or its typed history is empty. *)
Lemma typed_cases s sid :
  typed s → (∃ h, stored_history s sid h ∧ try_collect storage_to_core_event h = Ok (core_history s sid)) ∨
    core_history s sid = [] ∧ ∀ h, ¬ stored_history s sid h.
Proof.
  intros [Hs Ht]. destruct (decide (session_row (connection s) (uuid_text sid) = None)) as [Hn|Hn].
  { right. split; [by apply core_history_missing; [|intros Hh; apply Hh]|]. intros h [Hh _]. by apply Hh. }
  destruct (key_of (keys s) sid) as [key|] eqn:Hk.
  - left. apply key_of_spec in Hk. destruct (Ht sid key Hn Hk) as (h & events & Hh & He). exists h.
    split; [done|]. by rewrite (core_history_stored _ _ _ _ Hh He).
  - right. assert (∀ key, ¬ readable (keys s) sid key) as Hno.
    { intros key Hr%key_of_spec. congruence. }
    split; [by apply core_history_keyless|]. intros h (_ & key & Hr & _). by apply (Hno key).
Qed.

(** *** Changes *)

(** The same sessions with the same keys. *)
Definition alike s s' : Prop :=
  ∀ x, (has_session (connection s') x ↔ has_session (connection s) x) ∧
       (∀ key, has_session (connection s) x → readable (keys s') x key ↔ readable (keys s) x key).

Lemma kept_alike s s' : kept s s' → alike s s'.
Proof. intros [He Hh] x. split; [apply Hh|]. intros key _. by apply same_entries_readable. Qed.

Lemma view_alike s s' : same_view s s' → alike s s'.
Proof. intros V x. split; [apply V|]. intros key Hx. by apply (sv_key _ _ V). Qed.

Lemma typed_quiet s s' :
  typed s → SInv s' → alike s s' → quiet stored_history s s' →
  typed s' ∧ ∀ x, core_history s' x = core_history s x.
Proof.
  intros Ht Hs' Ha Hq.
  assert (typed s') as Ht'.
  { split; [done|]. intros x key Hx Hk. apply (Ha x) in Hx. apply (Ha x) in Hk; [|done].
    destruct Ht as [_ Ht]. destruct (Ht x key Hx Hk) as (h & events & Hh & He). exists h, events.
    by rewrite (Hq x h). }
  split; [done|]. intros x. destruct (typed_cases s x Ht) as [(h & Hh & He)|[Hn Hno]].
  - eapply core_history_stored; [by apply Hq|done].
  - rewrite Hn. destruct (typed_cases s' x Ht') as [(h & Hh%Hq & _)|[? _]]; [by destruct (Hno h)|done].
Qed.

(** The sequences of a history count its events. *)
Lemma stored_numbered_from s sid h i e :
  SInv s → stored_history s sid h → h !! i = Some e → se_sequence e = N.of_nat (i + 1).
Proof.
  intros Hs (_ & key & _ & Hh) Hi. apply try_collect_Ok in Hh.
  destruct (Forall2_lookup_r _ _ _ _ _ Hh Hi) as (row & Hrow & Hd).
  apply decrypt_event_sequence in Hd as (_ & -> & _).
  pose proof (f_equal (λ l, l !! i) (inv_sequences _ _ Hs (uuid_text sid))) as Hseq. simpl in Hseq.
  rewrite list_lookup_fmap, Hrow in Hseq. simpl in Hseq. symmetry in Hseq.
  apply lookup_seqZ in Hseq as [-> _]. lia.
Qed.

(** A typed event survives the translation. *)
Lemma translation_roundtrip id ev t n :
  payload_typed (ne_payload ev) = true → (0 < n)%N →
  storage_to_core_event (persisted_as (core_to_storage_event id ev t) n) =
  Ok {| pe_event_id := id; pe_session_id := ne_session_id ev; pe_sequence := n;
        pe_causation_request_id := ne_causation_request_id ev; pe_occurred_at := t;
        pe_payload := ne_payload ev |}.
Proof.
  intros Hp Hn. unfold storage_to_core_event. cbn [se_payload persisted_as core_to_storage_event ei_payload].
  rewrite dec_enc by done. simpl. rewrite text_eq_refl. simpl. unfold Sequence_new, nonzero.
  rewrite (proj2 (N.eqb_neq n 0)) by lia. done.
Qed.

(** What the port promises of an event that was appended. *)
Record appended_event (ev : NewEvent) (t : OffsetDateTime) (pe : PersistedEvent) s s' : Prop := {
  ae_session : pe_session_id pe = ne_session_id ev;
  ae_causation : pe_causation_request_id pe = ne_causation_request_id ev;
  ae_payload : pe_payload pe = ne_payload ev;
  ae_time : pe_occurred_at pe = t;
  ae_next l : last (pe_sequence <$> core_history s (ne_session_id ev)) = Some l →
    checked_next l = Ok (pe_sequence pe);
  ae_history : core_history s' (ne_session_id ev) = core_history s (ne_session_id ev) ++ [pe];
  ae_others x : x ≠ ne_session_id ev → core_history s' x = core_history s x;
}.

Lemma core_sequence e pe : storage_to_core_event e = Ok pe → pe_sequence pe = se_sequence e.
Proof.
  unfold storage_to_core_event. destruct (dec _ _) as [p|]; simpl; [|done]. destruct (negb _); [done|].
  unfold Sequence_new, nonzero. destruct (_ =? 0)%N; simpl; [done|]. by intros [= <-].
Qed.

Lemma core_last h events l :
  try_collect storage_to_core_event h = Ok events → last (pe_sequence <$> events) = Some l →
  ∃ e, last h = Some e ∧ se_sequence e = l.
Proof.
  intros He%try_collect_Ok. rewrite fmap_last. destruct (last events) as [pe|] eqn:Hl; [|done].
  simpl. intros [= <-]. rewrite last_lookup in Hl.
  destruct (Forall2_lookup_r _ _ _ _ _ He Hl) as (e & Hlk & Hd). exists e.
  rewrite last_lookup, (Forall2_length _ _ _ He). split; [done|].
  by apply core_sequence in Hd.
Qed.

Lemma typed_extends s s' ev id t e key :
  let input := core_to_storage_event id ev t in
  let sid := ne_session_id ev in
  typed s → SInv s' → kept s s' → payload_typed (ne_payload ev) = true →
  has_session (connection s) sid → readable (keys s) sid key →
  extends stored_history sid [e] s s' →
  (∀ h, stored_history s sid h → [e] = stored_after (length h) [input]) →
  (se_sequence e ≤ u64_max)%N →
  ∃ pe, storage_to_core_event e = Ok pe ∧ typed s' ∧ appended_event ev t pe s s'.
Proof.
  intros input sid Ht Hs' Hkept Hp Hsid Hkey Hext He Hmax.
  destruct (proj2 Ht sid key Hsid Hkey) as (h & events & Hh & Hev).
  pose proof (He h Hh) as Hst. unfold stored_after in Hst. simpl in Hst. injection Hst as Hst.
  pose proof (translation_roundtrip id ev t (N.of_nat (length h + 0 + 1)) Hp ltac:(lia)) as Hpe.
  fold input in Hpe. rewrite <-Hst in Hpe. eexists. split; [exact Hpe|]. set (pe := {| pe_event_id := _ |}) in *.
  assert (Hh' : stored_history s' sid (h ++ [e])).
  { apply Hext. rewrite decide_True by done. eauto. }
  assert (Hev' : try_collect storage_to_core_event (h ++ [e]) = Ok (events ++ [pe])).
  { by apply try_collect_snoc. }
  assert (typed s') as Ht'.
  { split; [done|]. intros x k Hx Hk. apply kept_alike in Hkept.
    apply (Hkept x) in Hx. apply (Hkept x) in Hk; [|done]. destruct (decide (x = sid)) as [->|Hne]; [eauto|].
    destruct (proj2 Ht x k Hx Hk) as (h1 & ev1 & Hh1 & He1). exists h1, ev1. split; [|done].
    apply Hext. by rewrite decide_False. }
  split; [done|]. pose proof (core_history_stored _ _ _ _ Hh Hev) as Hc.
  pose proof (core_history_stored _ _ _ _ Hh' Hev') as Hc'.
  split; [done|done|done|done| |by fold sid; rewrite Hc, Hc'|].
  - fold sid. rewrite Hc. intros l Hl. destruct (core_last _ _ _ Hev Hl) as (e0 & Hlast & <-).
    rewrite last_lookup in Hlast. rewrite (stored_numbered_from _ _ _ _ _ (proj1 Ht) Hh Hlast).
    apply lookup_lt_Some in Hlast. rewrite Hst in Hmax. simpl in Hmax.
    unfold checked_next, checked_add, nonzero. rewrite (proj2 (N.leb_le _ _)) by lia. simpl.
    rewrite (proj2 (N.eqb_neq _ _)) by lia. simpl. f_equal. lia.
  - intros x Hx. fold sid in Hx. destruct (typed_cases s x Ht) as [(h1 & Hh1 & He1)|[Hn Hno]].
    + eapply core_history_stored; [|done]. apply Hext. by rewrite decide_False.
    + rewrite Hn. destruct (typed_cases s' x Ht') as [(h1 & Hh1 & _)|[? _]]; [|done].
      apply Hext in Hh1. rewrite decide_False in Hh1 by done. by destruct (Hno h1).
Qed.

(** *** Operations *)

(** A transaction that appended found the session, its key and a sequence in range. *)
Lemma keyed_live {A} (body : string → SecretKey → SM (K := K) (bool * A)) s s' input a e :
  SInv s → (∀ key_id key, tables_only (body key_id key)) → input_ok input →
  (let! key_id := stored_key_id (ei_session_id input) in
   let! key := with_keys (session_key (ei_session_id input)) in transaction (body key_id key)) s =
    (s', Ok a) →
  (∀ key_id key s0 s1 b, body key_id key s0 = (s1, Ok (b, a)) →
     ∃ s2 s3, connection s2 = connection s0 ∧
       append_event_in_transaction input key_id key s2 = (s3, Ok e)) →
  has_session (connection s) (ei_session_id input) ∧ (se_sequence e ≤ u64_max)%N ∧
  ∃ key, readable (keys s) (ei_session_id input) key.
Proof.
  intros Hs Hto Hin Hr Hbody. apply keyed_transaction in Hr; [|done|done].
  destruct Hr as (key_id & key & s0 & s1 & b & _ & Ht0 & _ & Hk & Hb & _ & _).
  apply Hbody in Hb as (s2 & s3 & Hc & Ha). apply append_effect in Ha as (row & Hrow & _ & _ & ->); [|done].
  rewrite Hc, Ht0 in Hrow. split_and!; [apply Hrow| |by exists key].
  pose proof (ro_bound _ _ _ _ _ Hrow). simpl. unfold u64_max, i64_max in *. lia.
Qed.

Lemma input_typed id ev t :
  payload_typed (ne_payload ev) = true → input_ok (core_to_storage_event id ev t).
Proof. intros Hp. by apply canonical_wf, (enc_ok (c := EventPayload_codec)). Qed.

Lemma run_blocking_inv {A} (f : SM (K := K) A) s s' r :
  run_blocking f s = (s', r) → ∃ r', f s = (s', r') ∧ r = map_err storage_error r'.
Proof. unfold run_blocking. destruct (f s) as [s1 r1]. intros [= <- <-]. eauto. Qed.

Lemma fresh_typed s s' r : typed s → fresh_uuid s = (s', r) →
  typed s' ∧ ∀ x, core_history s' x = core_history s x.
Proof.
  intros Ht Hf. pose proof (views_fresh s (proj1 Ht)) as V. rewrite Hf in V.
  apply typed_quiet; [done| |by apply view_alike|intros x h; by apply same_view_histories].
  eapply keeps_ok; [apply keeps_fresh_uuid|apply Ht|exact Hf].
Qed.

Lemma append_port ev t s s' r :
  typed s → payload_typed (ne_payload ev) = true → append ev t s = (s', r) →
  typed s' ∧
  match r with
  | Ok pe => appended_event ev t pe s s'
  | Err _ => ∀ x, core_history s' x = core_history s x
  end.
Proof.
  intros Ht Hp Hr. unfold append in Hr. unfold st_bind at 1 in Hr.
  destruct (run_blocking fresh_uuid s) as [s1 r1] eqn:Hf.
  apply run_blocking_inv in Hf as (r1' & Hf & ->). apply fresh_typed in Hf as [Ht1 Hc1]; [|done].
  destruct r1' as [id|e]; [|by injection Hr as <- <-]. simpl in Hr.
  pose proof (input_typed id ev t Hp) as Hin. set (input := core_to_storage_event id ev t) in *.
  unfold st_bind in Hr. destruct (run_blocking (append_event input) s1) as [s2 r2] eqn:Ha.
  apply run_blocking_inv in Ha as (r2' & Ha & ->).
  pose proof (keeps_ok _ _ _ _ (keeps_append_event input Hin) (proj1 Ht1) Ha) as Hi2.
  pose proof (sqlite_append_event _ _ _ _ (proj1 Ht1) Hin Ha) as [Hkept Hres].
  destruct r2' as [e|e]; simpl in Hr.
  - destruct Hres as [Hext Hafter].
    assert (has_session (connection s1) (ei_session_id input) ∧ (se_sequence e ≤ u64_max)%N ∧
      ∃ key, readable (keys s1) (ei_session_id input) key) as (Hses & Hmax & key & Hkey).
    { unfold append_event in Ha.
      apply (keyed_live (λ key_id key, let! persisted := append_event_in_transaction input key_id key in
        st_ret (true, persisted)) _ _ _ e e) in Ha; [done|apply Ht1| |done|].
      - intros. apply tables_only_bind; [apply tables_only_append|]. intros; apply tables_only_ret.
      - intros key_id key s3 s4 b Hb. apply st_bind_Ok in Hb as (s5 & e' & Ha' & [= <- <- <-]). eauto. }
    destruct (typed_extends s1 s2 ev id t e key) as (pe & Hpe & Ht2 & Hae); try done.
    injection Hr as <- <-. rewrite Hpe. split; [done|].
    destruct Hae as [? ? ? ? Hn Hh Ho]. rewrite Hc1 in Hn, Hh. split; try done.
    intros x Hx. by rewrite Ho, Hc1.
  - injection Hr as <- <-. destruct (typed_quiet s1 s2 Ht1 Hi2 (kept_alike _ _ Hkept) Hres) as [? Hc2].
    split; [done|]. intros x. by rewrite Hc2, Hc1.
Qed.

(** The body of the transaction of [commit_port_command]. *)
Definition port_body (req : Uuid) (r : StoredCommandRecord) (input : EventInput) (key_id : string)
    (key : SecretKey) : SM (K := K) (bool * StoredCommandCommit) :=
  let! existing := lookup_stored_command (command_scope (Some (ei_session_id input))) req in
  match existing with
  | Some existing =>
      if same_command existing r then st_ret (false, SCC_Replayed existing) else st_err SE_RequestConflict
  | None =>
      let! persisted := append_event_in_transaction input key_id key in
      let! _ := insert_port_command (Some (ei_session_id input)) req r in
      st_ret (true, SCC_Applied persisted)
  end.

Lemma port_body_tables req r input key_id key : tables_only (port_body req r input key_id key).
Proof.
  apply tables_only_bind; [apply tables_only_lookup_stored_command|]. intros []; [tables_only|].
  apply tables_only_bind; [apply tables_only_append|]. intros ev.
  apply tables_only_bind; [apply tables_only_insert_port_command|]. tables_only.
Qed.

Lemma port_body_applied req r input key_id key s s' b e :
  port_body req r input key_id key s = (s', Ok (b, SCC_Applied e)) →
  b = true ∧ ∃ s2 s3, calm s s2 ∧ append_event_in_transaction input key_id key s2 = (s3, Ok e) ∧
    beside (connection s3) (connection s').
Proof.
  unfold port_body. intros Hb. apply st_bind_Ok in Hb as (s2 & existing & Hq & Hb).
  unfold lookup_stored_command in Hq. apply query_calm in Hq as [C _].
  destruct existing as [existing|]; [by destruct (same_command _ _)|].
  apply st_bind_Ok in Hb as (s3 & e' & Ha & Hb).
  apply st_bind_Ok in Hb as (s4 & u & Hins & [= <- <- <-]). split; [done|].
  exists s2, s3. split_and!; [done|done|]. unfold insert_port_command in Hins.
  apply execute_effect in Hins as [_ Hins]. by eapply insert_outcome_beside.
Qed.

Lemma port_body_replayed req r input key_id key s s' b c :
  port_body req r input key_id key s = (s', Ok (b, SCC_Replayed c)) → b = false.
Proof.
  unfold port_body. intros Hb. apply st_bind_Ok in Hb as (s2 & existing & _ & Hb).
  destruct existing as [existing|]; [destruct (same_command _ _); [|done]; by injection Hb|].
  apply st_bind_Ok in Hb as (s3 & e' & _ & Hb). by apply st_bind_Ok in Hb as (s4 & u & _ & [= ]).
Qed.

Lemma sqlite_commit_port req record input s s' r :
  SInv s → input_ok input → commit_port_command req record input s = (s', r) →
  kept s s' ∧
  match r with
  | Ok (SCC_Applied e) => extends stored_history (ei_session_id input) [e] s s' ∧
      (∀ h, stored_history s (ei_session_id input) h → [e] = stored_after (length h) [input]) ∧
      has_session (connection s) (ei_session_id input) ∧ (se_sequence e ≤ u64_max)%N ∧
      ∃ key, readable (keys s) (ei_session_id input) key
  | _ => quiet stored_history s s'
  end.
Proof.
  intros Hs Hin Hr. unfold commit_port_command in Hr. unfold st_bind at 1, st_lift at 1 in Hr.
  destruct (validate_port_command record) as [u|e]; [|injection Hr as <- <-; by split; [apply kept_refl|]].
  destruct (_ || _); [injection Hr as <- <-; by split; [apply kept_refl|]|].
  pose proof Hr as Hk.
  eapply (keyed_append _ (port_body req record input) _ _ _ [input]
    (λ c, match c with SCC_Applied e => Some [e] | SCC_Replayed _ => None end)) in Hr as [Hkept Hres];
    [|done|apply port_body_tables|by repeat constructor|].
  - split; [done|]. destruct r as [[e|c]|e]; [|done|done]. destruct Hres as (_ & Hext & Hafter).
    split_and!; [done|done|..]; eapply (keyed_live (port_body req record input)); try done;
      try apply port_body_tables; intros key_id key s0 s1 b Hb;
      apply port_body_applied in Hb as (_ & s2 & s3 & [Hc _] & Ha & _); eauto.
  - intros key_id key s0 s1 b [e|c] Hb.
    + apply port_body_applied in Hb as (-> & s2 & s3 & Hc & Ha & Hbes). split; [done|]. exists s2, s3.
      split_and!; [done| |done]. simpl. unfold st_bind. by rewrite Ha.
    + apply port_body_replayed in Hb as ->. by left.
Qed.

Lemma commit_port req command ev t s s' r :
  typed s → payload_typed (ne_payload ev) = true → commit req command ev t s = (s', r) →
  typed s' ∧
  match r with
  | Ok (CC_Applied pe) => appended_event ev t pe s s'
  | _ => ∀ x, core_history s' x = core_history s x
  end.
Proof.
  intros Ht Hp Hr. unfold commit in Hr. unfold st_bind at 1 in Hr.
  destruct (run_blocking fresh_uuid s) as [s1 r1] eqn:Hf.
  apply run_blocking_inv in Hf as (r1' & Hf & ->). apply fresh_typed in Hf as [Ht1 Hc1]; [|done].
  destruct r1' as [id|e]; [|by injection Hr as <- <-]. simpl in Hr.
  pose proof (input_typed id ev t Hp) as Hin. set (input := core_to_storage_event id ev t) in *.
  unfold st_bind at 1 in Hr. destruct (run_blocking _ s1) as [s2 r2] eqn:Ha.
  apply run_blocking_inv in Ha as (r2' & Ha & ->).
  pose proof (keeps_ok _ _ _ _ (keeps_commit_port_command req (stored command) input Hin) (proj1 Ht1) Ha) as Hi2.
  pose proof (sqlite_commit_port _ _ _ _ _ _ (proj1 Ht1) Hin Ha) as [Hkept Hres].
  assert (quiet stored_history s1 s2 → typed s2 ∧ ∀ x, core_history s2 x = core_history s x) as Hquiet.
  { intros Hq. destruct (typed_quiet s1 s2 Ht1 Hi2 (kept_alike _ _ Hkept) Hq) as [? Hc2].
    split; [done|]. intros x. by rewrite Hc2, Hc1. }
  destruct r2' as [[e|c]|e]; simpl in Hr; [|injection Hr as <- <-; by apply Hquiet..].
  destruct Hres as (Hext & Hafter & Hses & Hmax & key & Hkey).
  destruct (typed_extends s1 s2 ev id t e key) as (pe & Hpe & Ht2 & Hae); try done.
  unfold st_bind, st_lift in Hr. rewrite Hpe in Hr. injection Hr as <- <-. split; [done|].
  destruct Hae as [? ? ? ? Hn Hh Ho]. rewrite Hc1 in Hn, Hh. split; try done.
  intros x Hx. by rewrite Ho, Hc1.
Qed.

(** *** Replay *)

Lemma replay_rows sid after s s' l :
  SInv s → replay sid after s = (s', Ok l) →
  ∃ key, readable (keys s) sid key ∧
    try_collect (decrypt_event key sid)
      (List.filter (λ r, Z.of_N after <? e_sequence r)%Z (events_of (connection s) (uuid_text sid))) = Ok l.
Proof.
  intros Hs Hr. unfold replay in Hr. destruct (negb _); [done|].
  apply st_bind_Ok in Hr as (s1 & key & Hkey & Hr). unfold with_keys in Hkey.
  destruct (session_key sid (keys s)) as [m r] eqn:Hsk. injection Hkey as <- ->.
  apply Inv_session_key with (t := connection s) in Hsk as (_ & Hsp & He & Hkey); [|done].
  exists key. split; [apply (same_entries_readable _ _ sid key (conj Hsp He)); by apply Hkey|].
  apply st_bind_Ok in Hr as (s2 & rows & [_ Hrows]%query_calm & [= _ Hl]). specialize (Hrows _ eq_refl).
  simpl in Hrows. subst rows. rewrite merge_sort_sorted in Hl; [done|].
  apply StronglySorted_filterb. eapply seqZ_sorted, inv_sequences, Hs.
Qed.

Lemma replay_stored sid after s s' l h :
  SInv s → stored_history s sid h → replay sid after s = (s', Ok l) →
  l = List.filter (λ e, after <? se_sequence e)%N h.
Proof.
  intros Hs (_ & key & Hk & Hh) Hr. apply replay_rows in Hr as (key' & Hk' & Hl); [|done].
  rewrite (readable_unique _ _ _ _ Hk' Hk) in Hl.
  eapply try_collect_filterb in Hh; [rewrite Hl in Hh; by injection Hh as ->|].
  intros row ev _ Hev. apply decrypt_event_sequence in Hev as (Hz & -> & _). apply eq_true_iff_eq.
  rewrite Z.ltb_lt, N.ltb_lt. lia.
Qed.

Lemma core_filter cursor h events :
  try_collect storage_to_core_event h = Ok events →
  try_collect storage_to_core_event (List.filter (λ e, cursor <? se_sequence e)%N h) =
  Ok (filter (λ e, (cursor < pe_sequence e)%N) events).
Proof.
  intros He%try_collect_Ok. apply try_collect_Ok. induction He as [|e pe h events Hd He IH]; [constructor|].
  simpl. pose proof (core_sequence _ _ Hd) as Hs. destruct (cursor <? se_sequence e)%N eqn:Hc.
  - rewrite filter_cons_True by (rewrite Hs; by apply N.ltb_lt). by constructor.
  - rewrite filter_cons_False by (rewrite Hs; by apply N.ltb_nlt). done.
Qed.

Lemma load_after_port sid cursor s s' r :
  typed s → load_after sid cursor s = (s', r) →
  typed s' ∧ (∀ x, core_history s' x = core_history s x) ∧
  ∀ events, r = Ok events → events = filter (λ e, (cursor < pe_sequence e)%N) (core_history s sid).
Proof.
  intros Ht Hr. unfold load_after, st_bind in Hr.
  destruct (run_blocking (replay sid cursor) s) as [s1 r1] eqn:Hp.
  apply run_blocking_inv in Hp as (r1' & Hp & ->).
  pose proof (views_replay sid cursor s (proj1 Ht)) as V. rewrite Hp in V. simpl in V.
  destruct (typed_quiet s s1 Ht) as [Ht1 Hc1].
  { eapply keeps_ok; [apply keeps_replay|apply Ht|exact Hp]. }
  { by apply view_alike. }
  { intros x h. by apply same_view_histories. }
  destruct r1' as [l|e]; simpl in Hr; injection Hr as <- <-; [|by split_and!].
  split_and!; [done|done|]. intros events Hev. destruct (typed_cases s sid Ht) as [(h & Hh & He)|[Hn Hno]].
  - rewrite (replay_stored _ _ _ _ _ _ (proj1 Ht) Hh Hp) in Hev.
    rewrite (core_filter _ _ _ He) in Hev. by injection Hev as <-.
  - rewrite Hn. destruct l as [|e l]; [by injection Hev as <-|]. exfalso.
    apply replay_rows in Hp as (key & Hk & Hl%try_collect_length); [|apply Ht].
    destruct (decide (session_row (connection s) (uuid_text sid) = None)) as [Hnone|Hses].
    + destruct (List.filter _ _) as [|r rows] eqn:Hrows; [done|].
      assert (r ∈ r :: rows) as Hin by left. rewrite <-Hrows in Hin. apply elem_of_filterb in Hin as [Hin _].
      apply elem_of_filterb in Hin as [Hin Hid%text_eq_true].
      by apply (inv_foreign _ _ (proj1 Ht) r Hin); rewrite Hid.
    + destruct (proj2 Ht sid key Hses Hk) as (h & _ & Hh & _). by apply (Hno h).
Qed.
End histories.

(** ** The port *)

Section port.
Context `{StorageEnv} `{!StorageEnvLaws} {K : Type} `{KeyStore K} `{!KeyStoreLaws K}.

(** A storage that holds typed events. *)
Record CoreStorage : Type := {
  core_storage : SqliteStorage K;
  core_typed : typed core_storage;
}.

(** An event that no typed payload could hold is not appended. *)
Program Definition core_append (st : CoreStorage) (ev : NewEvent) (t : OffsetDateTime)
    : CoreStorage * Result PersistedEvent NewError :=
  if decide (payload_typed (ne_payload ev) = true)
  then ({| core_storage := (append ev t (core_storage st)).1 |}, (append ev t (core_storage st)).2)
  else (st, Err (new_error FC_Internal "event serialization failed")).
Next Obligation.
  intros st ev t Hp. destruct (append ev t (core_storage st)) as [s' r] eqn:Ha.
  by apply append_port in Ha as [? _]; [|apply core_typed|].
Qed.

Program Definition core_load_after (st : CoreStorage) (sid : Uuid) (cursor : Cursor)
    : CoreStorage * Result (list PersistedEvent) NewError :=
  ({| core_storage := (load_after sid cursor (core_storage st)).1 |},
   (load_after sid cursor (core_storage st)).2).
Next Obligation.
  intros st sid cursor. destruct (load_after sid cursor (core_storage st)) as [s' r] eqn:Ha.
  by apply load_after_port in Ha as [? _]; [|apply core_typed].
Qed.

#[export] Instance CoreStorage_EventStore : EventStore CoreStorage := {
  store_append := core_append;
  store_load_after := core_load_after;
  store_history st := core_history (core_storage st);
}.

(** C22: The SQLite storage keeps the promises of the event store port: an append that
    succeeds adds exactly its event with the next sequence, one that fails changes
    nothing, and a replay yields what follows its cursor. *)
Theorem sqlite_event_store : EventStoreLaws CoreStorage.
Proof.
  split.
  - intros st st' ev t pe. simpl. unfold core_append. case_decide as Hp; [|done]. intros [= <- Hr].
    destruct (append_port ev t _ _ _ (core_typed st) Hp (surjective_pairing _)) as [_ Hres].
    rewrite Hr in Hres. destruct Hres. by split_and!.
  - intros st st' ev t e sid. simpl. unfold core_append. case_decide as Hp; [|by intros [= <- _]].
    intros [= <- Hr].
    destruct (append_port ev t _ _ _ (core_typed st) Hp (surjective_pairing _)) as [_ Hres].
    rewrite Hr in Hres. apply Hres.
  - intros st st' sid cursor events. simpl. unfold core_load_after. intros [= <- Hr].
    destruct (load_after_port sid cursor _ _ _ (core_typed st) (surjective_pairing _)) as (_ & _ & Hres).
    by apply Hres.
  - intros st st' sid cursor r x. simpl. unfold core_load_after. intros [= <- Hr].
    destruct (load_after_port sid cursor _ _ _ (core_typed st) (surjective_pairing _)) as (_ & Hsame & _).
    apply Hsame.
Qed.
End port.

(** ** A typed storage *)

(** A storage with one session. *)
Lemma typed_single `{StorageEnv} `{!StorageEnvLaws} {K : Type} `{KeyStore K} `{!KeyStoreLaws K}
    (s : SqliteStorage K) sid key h events :
  SInv s → s_session_id <$> sessions (connection s) = [uuid_text sid] →
  km_cache (keys s) !! sid = Some key → history key sid (connection s) = Ok h →
  try_collect storage_to_core_event h = Ok events → typed s.
Proof.
  intros Hi Hses Hkey Hh Hev. split; [done|]. intros x k Hs Hk.
  assert (x = sid) as ->.
  { unfold has_session, session_row in Hs. destruct (first_where _ _) as [r|] eqn:Hf; [|done].
    apply first_where_Some in Hf as [Hin Hid%text_eq_true].
    assert (s_session_id r ∈ [uuid_text sid]) as Hm by (rewrite <-Hses; by apply list_elem_of_fmap_2).
    apply list_elem_of_singleton in Hm. rewrite Hm in Hid. by apply uuid_text_inj in Hid. }
  exists h, events. split; [|done]. split; [done|]. exists key. split; [|done]. by apply (inv_cache _ _ Hi).
Qed.

Section sample.

Definition sample_hash : string := String.concat "" (repeat "ab" 32).

(** One session, created with a typed event. *)
Definition port_creation : CreateSession :=
  {| cs_session_id := 5%N; cs_request_id := 7%N; cs_occurred_at := 10%Z;
     cs_request_parameters := VObject [("persistent", VBool true)];
     cs_command_outcome := VString "created";
     cs_configuration_snapshot := VString "configuration"; cs_lock_snapshot := VString "lock";
     cs_initial_event_payload :=
       canonical (enc EventPayload_codec (EP_SessionCreated sample_hash sample_hash)) |}.

Definition port_storage : SqliteStorage MemoryKeyStore := run (OpCreate port_creation) new_storage.

Definition port_key : SecretKey := default "" (km_cache (keys port_storage) !! 5%N).

Definition port_events : list StoredEvent :=
  default [] (ok (history port_key 5%N (connection port_storage))).

Lemma port_storage_computed :
  s_session_id <$> sessions (connection port_storage) = [uuid_text 5%N] ∧
  km_cache (keys port_storage) !! 5%N = Some port_key ∧
  history port_key 5%N (connection port_storage) = Ok port_events ∧
  is_ok (try_collect storage_to_core_event port_events) = true.
Proof. vm_compute. done. Qed.

Lemma port_storage_reachable : reachable port_storage.
Proof. eapply reachable_step; [apply new_storage_reachable|]. apply step_run. by split_and!. Qed.

Lemma port_storage_typed : typed port_storage.
Proof.
  destruct port_storage_computed as (Hses & Hkey & Hh & Hev).
  destruct (try_collect storage_to_core_event port_events) as [events|] eqn:He; [|discriminate Hev].
  exact (typed_single port_storage 5%N port_key port_events events
    (reachable_SInv _ port_storage_reachable) Hses Hkey Hh He).
Qed.

Definition port_store : CoreStorage (K := MemoryKeyStore) :=
  {| core_storage := port_storage; core_typed := port_storage_typed |}.

Definition port_event : NewEvent :=
  {| ne_session_id := 5%N; ne_causation_request_id := Some 8%N;
     ne_payload := EP_InputRecorded 9%N "do it" |}.

Definition port_persisted : PersistedEvent :=
  {| pe_event_id := 1007%N; pe_session_id := 5%N; pe_sequence := 2%N;
     pe_causation_request_id := Some 8%N; pe_occurred_at := 20%Z;
     pe_payload := EP_InputRecorded 9%N "do it" |}.

Lemma port_appended : (append port_event 20%Z port_storage).2 = Ok port_persisted.
Proof. vm_compute. reflexivity. Qed.

Lemma core_append_step (st : CoreStorage (K := MemoryKeyStore)) ev t pe :
  payload_typed (ne_payload ev) = true → (append ev t (core_storage st)).2 = Ok pe →
  store_append st ev t = ((core_append st ev t).1, Ok pe).
Proof. intros Hp Hr. simpl. unfold core_append. rewrite decide_True_pi with (HP := Hp). simpl. by rewrite Hr. Qed.

Lemma sqlite_event_store_witness :
  store_history (core_append port_store port_event 20%Z).1 (ne_session_id port_event) =
  store_history port_store (ne_session_id port_event) ++ [port_persisted].
Proof.
  destruct (append_Ok (EventStoreLaws := sqlite_event_store) port_store (core_append port_store port_event 20%Z).1
    port_event 20%Z port_persisted (core_append_step port_store port_event 20%Z port_persisted eq_refl port_appended))
    as (_ & _ & _ & _ & _ & Hh & _).
  exact Hh.
Defined.
End sample.
