(* ===== verification/DaemonLocked.v ===== *)
(** * DaemonLocked: LockedStorage implements the interface of the daemon
      (LockedStorage of workbench-daemon/src/storage_backend.rs)

    [LockedStorage] takes its mutex and delegates to the SQLite storage. Deletion and
    recovery are followed as what they do to the histories of a start state ([follows]);
    creation adds one history. The instances at the end are the delegation and the laws
    the daemon relies on. *)

From stdpp Require Import sorting.
From S2P Require Import Prelude StateResult Text BTree Errors Json Wire Event.
From S2P Require Import StorageKeys StorageTables StorageDb StorageInv StorageOps StorageProps.
From S2P Require Import StorageView DaemonBackend DaemonSqlite.

Section locked.
Context `{StorageEnv} `{!StorageEnvLaws} {K : Type} `{KeyStore K} `{!KeyStoreLaws K}.
Implicit Types (t : Tables) (m : KeyManager K) (s : SqliteStorage K) (D : Uuid → Prop).

(** ** What holds of the storage between calls *)

Record sqlite_ok D s : Prop := {
  so_inv : SInv s;
  so_rooted : rooted (keys s);
  so_ids x : has_session (connection s) x → D x;
}.

Lemma sqlite_ok_view D s s' : sqlite_ok D s → SInv s' → same_view s s' → sqlite_ok D s'.
Proof.
  intros [Hi Hr Hd] Hi' V. split; [done|by apply V|]. intros x Hx. by apply Hd, (sv_session _ _ V).
Qed.

Lemma sqlite_quiet {A} (f : SM (K := K) A) D s s' r :
  keeps SInv f → views f → sqlite_ok D s → f s = (s', r) →
  sqlite_ok D s' ∧ quiet stored_history s s'.
Proof.
  intros Hk Hv Ho Hr. pose proof (so_inv _ _ Ho) as Hi. pose proof (Hk s Hi) as Hi'.
  pose proof (Hv s Hi) as V. rewrite Hr in Hi', V. split; [by eapply sqlite_ok_view|].
  intros x h. by apply same_view_histories.
Qed.

(** Sessions may go, keys stay. *)
Lemma sqlite_ok_sessions D s s' :
  sqlite_ok D s → SInv s' → same_entries (keys s) (keys s') →
  (∀ x, has_session (connection s') x → has_session (connection s) x) → sqlite_ok D s'.
Proof.
  intros [Hi Hr Hd] Hi' He Hs. split; [done|by eapply same_entries_rooted|]. auto.
Qed.

Lemma sqlite_ok_kept D s s' : sqlite_ok D s → SInv s' → kept s s' → sqlite_ok D s'.
Proof. intros Ho Hi [He Hs]. eapply sqlite_ok_sessions; [done..|]. intros x. by apply Hs. Qed.

(** ** Histories of a start state *)

Section follow.
Context (D : Uuid → Prop) (P : Uuid → list StoredEvent → StoredEvent → Prop) (s0 : SqliteStorage K).

Definition follows s : Prop := sqlite_ok D s ∧ grows stored_history P s0 s.

Lemma follows_start : sqlite_ok D s0 → follows s0.
Proof.
  intros Ho. split; [done|]. intros x h Hh. exists h, []. rewrite app_nil_r.
  split_and!; [done|done| |by apply Forall_nil]. by intros i e ?.
Qed.

(** Histories may disappear. *)
Lemma follows_shrinks s s' :
  follows s → sqlite_ok D s' → (∀ x h, stored_history s' x h → stored_history s x h) → follows s'.
Proof. intros [_ Hg] Ho Hs. split; [done|]. intros x h Hh. by apply Hg, Hs. Qed.

Lemma follows_view s s' : follows s → SInv s' → same_view s s' → follows s'.
Proof.
  intros Hf Hi V. eapply follows_shrinks; [done|by eapply sqlite_ok_view; [apply Hf|..]|].
  intros x h. by rewrite (same_view_histories _ _ V).
Qed.

Lemma follows_extends s s' sid e input :
  follows s → sqlite_ok D s' → extends stored_history sid [e] s s' →
  (∀ h, stored_history s sid h → [e] = stored_after (length h) [input]) →
  value_wf (ei_payload input) = true →
  (∀ h n, stored_history s0 sid h → P sid h (persisted_as input n)) → follows s'.
Proof.
  intros [_ Hg] Ho Hx Hp Hw HP. split; [done|]. intros x h' Hh'. apply Hx in Hh'.
  case_decide as Heq; [|by apply Hg]. subst x. destruct Hh' as (h1 & Hh1 & ->).
  destruct (Hg sid h1 Hh1) as (h & k & Hh & -> & Hn & Hk). exists h, (k ++ [e]).
  pose proof (Hp _ Hh1) as [= He]. split_and!; [done|by rewrite app_assoc| |].
  - intros i y [Hi|[Hi Hy]]%lookup_app_Some; [by apply Hn|].
    apply list_lookup_singleton_Some in Hy as [Hi0 <-]. rewrite He. simpl.
    rewrite length_app. f_equal. lia.
  - apply Forall_app. split; [done|]. apply Forall_singleton. rewrite He. split; [done|]. by apply HP.
Qed.

Lemma follows_views {A} (f : SM (K := K) A) : keeps SInv f → views f → keeps follows f.
Proof.
  intros Hk Hv s Hf. pose proof (so_inv _ _ (proj1 Hf)) as Hi.
  by eapply follows_view; [exact Hf|apply Hk|apply Hv].
Qed.

(** *** Deletion *)

Lemma follows_destroy sid s :
  follows s → SInv (with_keys (K := K) (destroy_session_key sid) s).1 →
  follows (with_keys (K := K) (destroy_session_key sid) s).1.
Proof.
  intros Hf. pose proof Hf as [[Hi Hr Hd] _]. unfold with_keys.
  destruct (destroy_session_key sid (keys s)) as [m r] eqn:Hds. simpl. intros Hi'.
  apply destroy_effect in Hds as (_ & _ & _ & Hk & Hself & Hro); [|apply Hi].
  eapply follows_shrinks; [exact Hf|by split; [|apply Hro|]|].
  intros x h (Hs & key & Hx & Hh). split; [done|]. exists key. split; [|done].
  destruct (decide (x = sid)) as [->|Hne]; [by apply Hself|by apply Hk].
Qed.

Lemma commit_deletion_effect sid did req s s' r :
  commit_deletion sid did req s = (s', r) →
  same_keys (keys s) (keys s') ∧
  (beside (connection s) (connection s') ∨
   ∃ t t', beside (connection s) t ∧ delete_session (uuid_text sid) t = Some t' ∧
     beside t' (connection s')).
Proof.
  unfold commit_deletion. intros [Hk Hr]%transaction_effect; [|tables_only].
  split; [done|]. destruct r as [a|e]; [|left; by rewrite Hr].
  destruct Hr as (s1 & s2 & b & [Ht _] & Hb & Hc). destruct b; [|left; by rewrite Hc].
  right. break_state. apply query_calm in Hstep as [[Ht1 _] _].
  apply execute_effect in Hstep0 as [_ [= Ht2]]. apply execute_effect in Hstep1 as [_ Hdel].
  apply execute_effect in Hstep2 as [_ [= Ht4]]. apply execute_effect in Hstep3 as [_ [= Ht5]].
  eexists _, _. split_and!; [|exact Hdel|].
  - rewrite <-Ht2, Ht1, Ht. by split.
  - rewrite Hc, <-Ht5, <-Ht4. by split.
Qed.

(** The rows of a session that stays. *)
Lemma delete_session_others sid t t' x :
  delete_session sid t = Some t' → session_row t' x ≠ None →
  session_row t x ≠ None ∧ events_of t' x = events_of t x.
Proof.
  unfold delete_session. case_match; [done|]. intros [= <-]. unfold session_row, events_of. simpl.
  destruct (decide (x = sid)) as [->|Hne].
  - intros Hn. destruct Hn. apply first_where_None. intros r [_ Hr]%elem_of_filterb.
    by apply negb_true_iff in Hr.
  - intros Hn. rewrite first_where_filter in Hn.
    + split; [done|]. apply filterb_filterb_keep. intros r Hr%text_eq_true.
      apply negb_true_iff, text_eq_false. congruence.
    + intros r Hr%text_eq_true. apply negb_true_iff, text_eq_false. congruence.
Qed.

Lemma follows_commit_deletion sid did req s :
  follows s → SInv (commit_deletion sid did req s).1 → follows (commit_deletion sid did req s).1.
Proof.
  intros Hf. destruct (commit_deletion sid did req s) as [s' r] eqn:Hc. simpl. intros Hi'.
  apply commit_deletion_effect in Hc as [Hk Hc].
  destruct Hc as [[Hs He]|(t & t' & [Hs He] & Hdel & Hs' & He')].
  { eapply follows_view; [done|done|]. apply same_view_tables; [done|done|by apply same_keys_entries]. }
  assert (∀ x, has_session (connection s') x → has_session (connection s) x ∧
    events_of (connection s') (uuid_text x) = events_of (connection s) (uuid_text x)) as Hold.
  { intros x Hx. unfold has_session, session_row, events_of in *. rewrite Hs' in Hx. rewrite He'.
    rewrite <-Hs, <-He. by apply (delete_session_others _ _ _ _ Hdel). }
  eapply follows_shrinks; [done| |].
  - eapply sqlite_ok_sessions; [apply Hf|done|by apply same_keys_entries|]. intros x Hx. by apply Hold.
  - intros x h (Hx & key & Hr & Hh). destruct (Hold x Hx) as [Hx' Hev]. split; [done|]. exists key.
    split; [|unfold history in *; by rewrite <-Hev].
    by apply (same_entries_readable _ _ x key (same_keys_entries _ _ Hk)).
Qed.

Lemma follows_finish_deletion sid : keeps follows (finish_deletion (K := K) sid).
Proof.
  unfold finish_deletion. apply keeps_bind.
  { apply follows_views; [apply keeps_ensure_no_pending|apply views_pending]. }
  intros _ s Hf. unfold st_bind at 1. destruct (query _ s) as [s1 r1] eqn:Hq.
  apply query_calm in Hq as [Hc Hr]. pose proof (SInv_calm _ _ Hc (so_inv _ _ (proj1 Hf))) as Hs1.
  assert (follows s1) as Hf1 by (eapply follows_view; [exact Hf|done|by apply calm_view]).
  destruct Hc as [Ht _]. destruct r1 as [[row|]|e]; [|done|done]. specialize (Hr _ eq_refl).
  assert (deleting (connection s1) sid) as Hd by (unfold deleting; rewrite Ht, <-Hr; done).
  unfold st_bind at 1, st_lift. destruct (parse_uuid _) as [did|e]; [|done].
  unfold st_bind at 1. pose proof (follows_destroy sid s1 Hf1) as Hf2. unfold with_keys in *.
  destruct (destroy_session_key sid (keys s1)) as [m' r'] eqn:Hdk. simpl in Hf2.
  eapply Inv_destroy_key in Hdk as (Hi & _ & Hgone); [|done|exact Hs1]. specialize (Hf2 Hi).
  destruct r' as [u|e]; [|done]. apply follows_commit_deletion; [done|].
  apply commit_deletion_SInv; [done|done|by eapply Hgone].
Qed.

Lemma follows_resume_deletions : keeps follows (resume_deletions (K := K)).
Proof.
  unfold resume_deletions. pose proof follows_finish_deletion as Hfin.
  apply keeps_bind; [apply follows_views; [apply keeps_query|apply views_query]|]. intros ids.
  apply keeps_map. intros id _. apply keeps_bind; [apply keeps_lift|]. intros sid. apply Hfin.
Qed.

(** The journal of a deletion is written with its event. *)
Lemma journal_deletion_extends sid did req event_id at_time actor key_id key s s' r :
  SInv s → readable (keys s) sid key →
  journal_deletion sid did req event_id at_time actor key_id key s = (s', r) →
  let input := {| ei_event_id := event_id; ei_session_id := sid; ei_occurred_at := at_time;
    ei_kind := "session_deletion_requested"; ei_causation_request_id := Some req;
    ei_attempt_id := None; ei_effect_class := None;
    ei_payload := VObject [("actor", VString actor); ("deletion_id", VString (uuid_text did))] |} in
  same_keys (keys s) (keys s') ∧
  (connection s' = connection s ∨
   (∀ x, has_session (connection s') x ↔ has_session (connection s) x) ∧
   ∃ e, extends stored_history sid [e] s s' ∧
     ∀ h, stored_history s sid h → [e] = stored_after (length h) [input]).
Proof.
  intros Hs Hk Hr input. unfold journal_deletion in Hr. apply transaction_effect in Hr as [Hsk Hr].
  2:{ apply tables_only_bind; [apply tables_only_next_sequence|]. unfold insert_event. tables_only. }
  split; [done|]. destruct r as [[]|e]; [|by left].
  destruct Hr as (s1 & s2 & b & C0 & Hb & Hc). destruct b; [|by left]. right. break_state.
  apply next_sequence_effect in Hstep as [C1 Hseq]. specialize (Hseq _ eq_refl).
  apply encrypt_json_effect in Hstep0 as [C2 Hp]. specialize (Hp _ eq_refl).
  unfold insert_event in Hstep1. case_match; [|done].
  apply execute_effect in Hstep1 as [_ (Hrow & _ & Ht)%insert_event_row_inv].
  apply execute_effect in Hstep2 as [_ Hins]. apply execute_effect in Hstep3 as [_ Ht3%(inj Some)].
  unfold insert_deletion in Hins. destruct (existsb _ _) in Hins; [done|]. injection Hins as Hins.
  pose proof (calm_trans _ _ _ C0 (calm_trans _ _ _ C1 C2)) as [Ht0 _]. destruct C0 as [Hts1 _].
  set (row := event_row _ _ _ _) in Ht.
  assert (decrypt_event key sid row = Ok (persisted_as input (Z.to_N (e_sequence row)))) as Hdec.
  { simpl. rewrite N2Z.id. by apply (decrypt_event_row key input). }
  assert (Hev : ∀ x, events_of (connection s') x = events_of (connection s) x ++
    if text_eq (uuid_text sid) x then [row] else []).
  { intros x. pose proof (events_of_snoc (connection s) row x) as Hsn. simpl in Hsn.
    rewrite <-Hsn. unfold events_of. f_equal.
    rewrite Hc, <-Ht3. rewrite <-Hins.
    simpl. by rewrite Ht, Ht0. }
  assert (Hses : ∀ x, has_session (connection s') x ↔ has_session (connection s) x).
  { intros x. unfold has_session. rewrite Hc, <-Ht3, session_row_update by done.
    rewrite <-Hins, Ht, Ht0.
    change (session_row _ (uuid_text x)) with (session_row (connection s) (uuid_text x)).
    by destruct (session_row (connection s) (uuid_text x)). }
  split; [done|]. exists (persisted_as input (Z.to_N (e_sequence row))). split.
  - apply (appended_extends sid s s' key); [by apply same_keys_entries| |done| |done|].
    + exists [row]. by rewrite Hev, text_eq_refl.
    + intros x Hx. rewrite Hev, (proj2 (text_eq_false _ _)), app_nil_r; [done|].
      by intros ?%uuid_text_inj.
    + intros h Hh. unfold history in *. rewrite Hev, text_eq_refl. by apply try_collect_snoc.
  - intros h (_ & key' & Hk' & Hh). rewrite (readable_unique _ _ _ _ Hk' Hk) in Hh.
    unfold stored_after. simpl. do 2 f_equal. rewrite N2Z.id. apply N2Z.inj. rewrite Hseq, Hts1.
    unfold max_sequence. rewrite (inv_sequences _ _ Hs), max_seqZ.
    apply try_collect_length in Hh. rewrite Hh. lia.
Qed.

Lemma follows_request_deletion sid did req at_time actor :
  (∀ h e, se_kind e = "session_deletion_requested" → P sid h e) →
  keeps follows (request_deletion (K := K) sid did req at_time actor).
Proof.
  intros HP. unfold request_deletion. pose proof (follows_finish_deletion sid) as Hfin.
  assert (∀ A (f : Tables → A), keeps follows (query (K := K) f)) as Hq
    by (intros; apply follows_views; [apply keeps_query|apply views_query]).
  apply keeps_bind.
  { apply follows_views; [apply keeps_replay_tombstone|]. unfold replay_deletion_tombstone. views. }
  intros [summary|]; [apply keeps_ret|].
  apply keeps_bind; [apply follows_views; [apply keeps_ensure_no_pending|apply views_pending]|].
  intros _. apply keeps_bind; [done|]. intros row. apply keeps_bind; [apply keeps_lift|]. intros state.
  case_match; [apply keeps_err|]. apply keeps_bind; [done|].
  intros [recorded|]; [case_match; [done|apply keeps_err]|].
  apply keeps_bind; [apply follows_views; [apply keeps_stored_key_id|apply views_stored_key_id]|].
  intros key_id s Hf. unfold st_bind at 1.
  pose proof (follows_views _ (keeps_session_key sid) (views_session_key sid) s Hf) as Hf1.
  unfold with_keys in *. destruct (session_key sid (keys s)) as [m [key|e]] eqn:Hsk; [|done].
  simpl in Hf1. set (s1 := {| connection := connection s; failures := failures s; keys := m |}) in *.
  assert (readable (keys s1) sid key) as Hk.
  { eapply Inv_session_key in Hsk as (_ & _ & _ & Hk); [by apply Hk|apply Hf]. }
  clearbody s1. clear Hsk Hf m s. unfold st_bind at 1.
  destruct (fresh_uuid s1) as [s2 r2] eqn:Hfu. apply fresh_uuid_calm in Hfu as C.
  pose proof (SInv_calm _ _ C (so_inv _ _ (proj1 Hf1))) as Hs2.
  assert (follows s2) as Hf2 by (eapply follows_view; [exact Hf1|done|by apply calm_view]).
  destruct r2 as [event_id|e]; [|done]. unfold st_bind at 1.
  assert (readable (keys s2) sid key) as Hk2 by (eapply same_keys_readable; [apply C|done]).
  pose proof (journal_deletion_SInv sid did req event_id at_time actor key_id key s2 Hs2 Hk2) as Hs3.
  destruct (journal_deletion _ _ _ _ _ _ _ _ s2) as [s3 r3] eqn:Hj. simpl in Hs3.
  apply journal_deletion_extends in Hj as [Hkeys Hj]; [|done|done].
  assert (follows s3) as Hf3; [|by destruct r3; [apply Hfin|]].
  destruct Hj as [Hc|(Hses & e & Hx & Hp)].
  - eapply follows_view; [exact Hf2|done|]. by apply calm_view.
  - eapply follows_extends; [exact Hf2| |exact Hx|exact Hp|done|by intros; apply HP].
    eapply sqlite_ok_sessions; [apply Hf2|done|by apply same_keys_entries|]. intros x. by apply Hses.
Qed.

(** *** Recovery *)

(** An uncertain attempt was started in the history of its session. *)
Lemma uncertain_started s sid attempt h :
  (uuid_text sid, uuid_text attempt) ∈ uncertain_attempts (connection s) →
  stored_history s sid h → started_in h (Some attempt).
Proof.
  unfold uncertain_attempts. rewrite (merge_sort_Permutation pair_le), elem_of_remove_dups.
  intros (r & Hr & [Hin Hu]%elem_of_filterb)%list_elem_of_fmap (_ & key & _ & Hh).
  unfold attempt_key in Hr. injection Hr as Hsid Hatt. unfold unsettled in Hu. bool_to_prop.
  destruct (e_attempt_id r) as [a|] eqn:Ha; [|done]. simpl in Hatt.
  assert (r ∈ events_of (connection s) (uuid_text sid)) as Hr by (by apply elem_of_events_of).
  apply list_elem_of_lookup in Hr as [i Hi]. apply try_collect_Ok in Hh.
  destruct (Forall2_lookup_l _ _ _ _ _ Hh Hi) as (e & He & Hdec).
  exists e. split; [by eapply list_elem_of_lookup_2|]. unfold decrypt_event in Hdec.
  break_results. injection Hdec as <-. simpl. split; [by apply text_eq_true|].
  rewrite Ha, <-Hatt in Hok4. simpl in Hok4. rewrite parse_uuid_text in Hok4. by injection Hok4 as <-.
Qed.

Lemma uncertain_named s a b :
  SInv s → (a, b) ∈ uncertain_attempts (connection s) →
  ∃ sid attempt, a = uuid_text sid ∧ b = uuid_text attempt.
Proof.
  intros Hs. unfold uncertain_attempts. rewrite (merge_sort_Permutation pair_le), elem_of_remove_dups.
  intros (r & Hr & [Hin Hu]%elem_of_filterb)%list_elem_of_fmap. unfold attempt_key in Hr.
  injection Hr as -> ->. unfold unsettled in Hu. bool_to_prop.
  destruct (e_attempt_id r) as [a|] eqn:Ha; [|done].
  destruct (inv_attempts _ _ Hs r a Hin Ha) as [u ->].
  pose proof (inv_foreign _ _ Hs r Hin) as Hf.
  destruct (session_row _ (e_session_id r)) as [row|] eqn:Hrow; [|done].
  apply session_row_Some in Hrow as [Hrow <-].
  destruct (inv_named _ _ Hs row Hrow) as (sid & _ & -> & _). by exists sid, u.
Qed.

Lemma follows_recover at_time :
  (∀ x h e, se_kind e = "outcome_unknown" → started_in h (se_attempt_id e) → P x h e) →
  sqlite_ok D s0 → follows (recover_uncertain_attempts at_time s0).1.
Proof.
  intros HP Ho. unfold recover_uncertain_attempts, st_bind at 1.
  destruct (query uncertain_attempts s0) as [s1 r1] eqn:Hq. apply query_calm in Hq as [C Hr].
  assert (follows s1) as Hf1.
  { eapply follows_view; [by apply follows_start|eapply SInv_calm; [exact C|apply Ho]|by apply calm_view]. }
  destruct r1 as [attempts|e]; [|done]. rewrite (Hr _ eq_refl). revert Hf1. apply keeps_map.
  intros [a b] Hin. destruct (uncertain_named s0 a b (so_inv _ _ Ho) Hin) as (sid & attempt & -> & ->).
  unfold recover_attempt. simpl. rewrite !parse_uuid_text. intros s Hf. unfold st_lift.
  unfold st_bind at 1. unfold st_bind at 1.
  unfold st_bind at 1. destruct (fresh_uuid s) as [s2 r2] eqn:Hfu. apply fresh_uuid_calm in Hfu as C2.
  assert (follows s2) as Hf2.
  { eapply follows_view; [exact Hf|eapply SInv_calm; [exact C2|apply Hf]|by apply calm_view]. }
  destruct r2 as [event_id|e]; [|done]. unfold st_bind.
  set (input := uncertain_event event_id sid attempt at_time).
  assert (keeps SInv (append_event (K := K) input)) as Hkeep by by apply keeps_append_event.
  specialize (Hkeep s2 (so_inv _ _ (proj1 Hf2))).
  destruct (append_event input s2) as [s3 r3] eqn:Happ. simpl in Hkeep.
  apply sqlite_append_event in Happ as [Hkept Happ]; [|apply Hf2|done].
  assert (sqlite_ok D s3) as Ho3 by (by eapply sqlite_ok_kept; [apply Hf2|..]).
  assert (follows s3) as Hf3; [|by destruct r3]. destruct r3 as [e|e].
  - destruct Happ as [Hx Hp]. eapply follows_extends; [exact Hf2|done|exact Hx|exact Hp|done|].
    intros h n Hh. apply HP; [done|]. simpl. by eapply uncertain_started.
  - eapply follows_shrinks; [exact Hf2|done|]. intros x h. by apply Happ.
Qed.

End follow.

(** ** Creation *)

(** Creating a key writes the root keys first, and never replaces them. *)
Lemma create_key_entries sid m m' r :
  namespaced m → create_session_key sid m = (m', r) →
  same_space m m' ∧
  (∀ i, i ≠ km_root_key_id m → i ≠ session_key_id m sid → entry m' i = entry m i) ∧
  (entry m (km_root_key_id m) ≠ None → ∀ i, i ≠ session_key_id m sid → entry m' i = entry m i) ∧
  (entry m' (session_key_id m sid) = entry m (session_key_id m sid) ∨
   entry m' (km_root_key_id m) ≠ None).
Proof.
  intros Hn Hc. unfold create_session_key in Hc. unfold st_bind at 1 in Hc.
  destruct (store_get _ m) as [m0 [o|e]] eqn:Hg;
    [|injection Hg as <- _; injection Hc as <- <-; split_and!; [done|done|done|by left]].
  apply store_get_entry in Hg as [-> ->].
  destruct (entry m (session_key_id m sid)) eqn:Hnone;
    [injection Hc as <- <-; split_and!; [done|done|done|by left]|].
  pose proof (session_key_id_root m sid Hn) as Hroot.
  unfold st_bind at 1 in Hc. destruct (load_or_create_root_keys m) as [m1 [rs|e]] eqn:Hl; cycle 1.
  { injection Hc as <- <-. apply load_roots_frame in Hl as (Hs1 & _ & Ho & Hr).
    split_and!; [done|by auto|by auto|]. left. by rewrite Ho. }
  assert (entry m1 (km_root_key_id m) ≠ None) as Hset.
  { apply load_roots_stored in Hl as [[Hid _] Hst]. unfold stored_roots in Hst.
    rewrite Hid in Hst. by destruct (entry m1 (km_root_key_id m)). }
  apply load_roots_frame in Hl as (Hs1 & _ & Ho & Hr).
  unfold st_bind, draw, st_lift in Hc. simpl in Hc.
  set (m2 := with_draws _ _) in Hc. destruct (encrypt _ _ _ _) as [p|e] eqn:Hp; cycle 1.
  { injection Hc as <- <-.
    split_and!; [done|by intros; apply Ho|by intros; apply Hr|by right]. }
  destruct (store_put _ _ m2) as [m3 r3] eqn:Hput. pose proof (store_put_space _ _ _ _ _ Hput) as Hs3.
  pose proof (λ i, entry_put_other _ _ _ _ _ i Hput) as He3.
  assert (m' = m3 ∨ ∃ c, m' = with_cache m3 c) as Hm'.
  { destruct r3; [unfold cache_insert, st_modify, st_ret in Hc; injection Hc as <- _; eauto|].
    injection Hc as <- _. by left. }
  assert (same_space m m3) as Hs by (eapply same_space_trans; [exact Hs1|exact Hs3]).
  assert (∀ i, i ≠ session_key_id m sid → entry m3 i = entry m1 i) as Hother by (intros i Hi; by rewrite He3).
  assert (same_space m m' ∧ ∀ i, entry m' i = entry m3 i) as [Hs' He'].
  { destruct Hm' as [->|[c ->]]; by split. }
  split_and!; [done|..].
  - intros i Hi Hi'. rewrite He', Hother by done. by apply Ho.
  - intros Hsome i Hi. rewrite He', Hother by done. by apply Hr.
  - right. by rewrite He', Hother.
Qed.

Lemma create_key_view sid s :
  SInv s → rooted (keys s) → ¬ has_session (connection s) sid →
  same_view s (with_keys (K := K) (create_session_key sid) s).1.
Proof.
  intros Hs Hrt Hno. unfold with_keys. destruct (create_session_key sid (keys s)) as [m r] eqn:Hc.
  pose proof (inv_namespaced _ _ Hs) as Hn. set (m0 := keys s) in *.
  apply create_key_entries in Hc as (Hsp & Ho & Hr & Hself); [|done].
  assert (same_space m m0) as Hsp' by (destruct Hsp; by split).
  assert (∀ x, session_key_id m x = session_key_id m0 x) as Hid
    by (intros x; by apply session_key_id_space).
  assert (km_root_key_id m = km_root_key_id m0) as Hrid by apply Hsp.
  pose proof (session_key_id_root m0 sid Hn) as Hroot.
  assert (∀ x, x ≠ sid → session_key_id m0 x ≠ session_key_id m0 sid) as Hne
    by (by intros x Hx ?%session_key_id_inj).
  split; simpl; [done|done| |].
  - intros x key Hx. assert (x ≠ sid) as Hxs by (by intros ->). specialize (Hne x Hxs).
    pose proof (session_key_id_root m0 x Hn) as Hxr. split; intros Hk.
    + assert (entry m0 (km_root_key_id m0) ≠ None) as Hsome.
      { apply (Hrt x). apply readable_stored in Hk. unfold key_stored in *. rewrite Hid in Hk.
        by rewrite <-Ho. }
      revert Hk. apply readable_frame; rewrite ?Hid, ?Hrid; [done|symmetry; by auto..].
    + pose proof (Hr (readable_root _ _ _ Hk)) as He.
      revert Hk. apply readable_frame; [done|by auto..].
  - intros _ x. unfold key_stored. rewrite Hid, Hrid. intros Hx.
    destruct (decide (x = sid)) as [->|Hxs].
    + destruct Hself as [Hsame|]; [|done]. rewrite Hsame in Hx. rewrite Hr; [by apply (Hrt sid)| |by auto].
      by apply (Hrt sid).
    + rewrite Ho in Hx; [|by apply session_key_id_root|by auto].
      rewrite Hr; [by apply (Hrt x)| |by auto]. by apply (Hrt x).
Qed.

(** The session after its creation was committed. *)
Record created sid (e : StoredEvent) s s' : Prop := {
  cd_keys : same_keys (keys s) (keys s');
  cd_sessions x : has_session (connection s') x ↔ has_session (connection s) x ∨ x = sid;
  cd_new : ¬ has_session (connection s) sid;
  cd_events : ∃ row key, readable (keys s) sid key ∧ decrypt_event key sid row = Ok e ∧
    e_session_id row = uuid_text sid ∧
    session_events (connection s') = session_events (connection s) ++ [row];
}.

Lemma created_histories sid e s s' :
  SInv s → created sid e s s' →
  (∀ x h, stored_history s x h → stored_history s' x h) ∧
  (∀ x h, stored_history s' x h → stored_history s x h ∨
     x = sid ∧ (∀ h', ¬ stored_history s x h') ∧ h = [e]).
Proof.
  intros Hs [Hk Hses Hnew (row & key & Hread & Hdec & Hrow & Hev)].
  assert (∀ x, x ≠ sid → events_of (connection s') (uuid_text x) =
    events_of (connection s) (uuid_text x)) as Hoth.
  { intros x Hx. unfold events_of. rewrite Hev, List.filter_app. simpl.
    rewrite Hrow, (proj2 (text_eq_false _ _)), app_nil_r; [done|]. by intros ?%uuid_text_inj. }
  assert (events_of (connection s') (uuid_text sid) = [row]) as Hself.
  { unfold events_of. rewrite Hev, List.filter_app. simpl. rewrite Hrow, text_eq_refl.
    rewrite (filterb_none _ (session_events _)); [done|]. intros r Hr. apply text_eq_false.
    intros Heq. apply Hnew. unfold has_session. rewrite <-Heq. by apply (inv_foreign _ _ Hs). }
  pose proof (λ x key, same_entries_readable _ _ x key (same_keys_entries _ _ Hk)) as Hrd. split.
  - intros x h (Hx & kx & Hkx & Hh). assert (x ≠ sid) by (by intros ->).
    split; [apply Hses; by left|]. exists kx. rewrite Hrd. split; [done|].
    unfold history. by rewrite Hoth.
  - intros x h (Hx & kx & Hkx & Hh). rewrite Hrd in Hkx. unfold history in Hh.
    destruct (decide (x = sid)) as [->|Hne].
    + right. split_and!; [done|by intros h' [? _]|]. rewrite Hself in Hh. simpl in Hh.
      rewrite (readable_unique _ _ _ _ Hkx Hread), Hdec in Hh. by injection Hh as <-.
    + left. apply Hses in Hx as [Hx|]; [|done]. split; [done|]. exists kx. split; [done|].
      unfold history. by rewrite <-(Hoth x).
Qed.

Lemma created_ok D sid e s s' :
  sqlite_ok D s → SInv s' → created sid e s s' → sqlite_ok (λ x, D x ∨ x = sid) s'.
Proof.
  intros [Hi Hr Hd] Hi' [Hk Hses _ _]. split; [done| |].
  - by eapply same_entries_rooted; [apply same_keys_entries|].
  - intros x [Hx| ->]%Hses; [left; by apply Hd|by right].
Qed.

(** What [create_session] leaves: the same histories, or one more. *)
Definition may_create {A} input s s' (r : Result A StorageError) : Prop :=
  same_view s s' ∨ is_ok r = true ∧ ∃ s1 e, SInv s1 ∧ same_view s s1 ∧ created (cs_session_id input) e s1 s' ∧
    se_kind e = "session_created" ∧ se_sequence e = 1%N ∧ se_payload e = cs_initial_event_payload input.

Lemma may_create_after {A} input s s1 s' (r : Result A StorageError) : same_view s s1 → may_create input s1 s' r → may_create input s s' r.
Proof.
  intros V [V'|(Hr & s2 & e & Hi & V' & Hc)]; [left; by eapply same_view_trans|].
  right. split; [done|]. exists s2, e. split_and!; [done|by eapply same_view_trans|apply Hc..].
Qed.

Lemma may_create_bind {A B} input (f : SM (K := K) A) (k : A → SM (K := K) B) s s' r :
  SInv s → keeps SInv f → same_view s (f s).1 → st_bind f k s = (s', r) →
  (∀ s1 a, SInv s1 → f s = (s1, Ok a) → k a s1 = (s', r) → may_create input s1 s' r) →
  may_create input s s' r.
Proof.
  intros Hs Hi V Hb Hk. specialize (Hi s Hs). unfold st_bind in Hb.
  destruct (f s) as [s1 [a|e]]; simpl in *.
  - eapply may_create_after; [exact V|]. by eapply Hk.
  - injection Hb as <- <-. by left.
Qed.

Lemma commit_created_effect input hash key_id event_id c l p s s' r key :
  value_wf (cs_initial_event_payload input) = true → SInv s →
  readable (keys s) (cs_session_id input) key →
  decrypt p key (row_aad (cs_session_id input) (uuid_text event_id) 1 "session_created")
    = Ok (json_print (cs_initial_event_payload input)) →
  commit_created_session input hash key_id event_id c l p s = (s', r) → may_create input s s' r.
Proof.
  intros Hw Hs Hk Hp Hr. unfold commit_created_session in Hr.
  apply transaction_effect in Hr as [Hsk Hr]; [|unfold insert_event; tables_only].
  destruct r as [a|e]; [|left; by apply calm_view].
  destruct Hr as (s1 & s2 & b & [Ht _] & Hb & Hc). destruct b; [|left; by apply calm_view].
  right. split; [done|]. break_state. apply execute_effect in Hstep as [_ Hins].
  unfold insert_session in Hins. destruct (existsb _ _) eqn:Hex in Hins; [done|].
  injection Hins as Hins. unfold insert_event in Hstep0. simpl in Hstep0.
  apply execute_effect in Hstep0 as [_ (_ & _ & Ht2)%insert_event_row_inv].
  apply execute_effect in Hstep1 as [_ (Hs3 & He3 & _)%insert_outcome_elsewhere].
  apply execute_count_effect in Hstep2 as [_ [= Ht4 _]].
  case_match; [|done]. injection Hb as <- _. set (row := event_row _ _ _ _) in Ht2.
  set (ev := {| ei_event_id := event_id; ei_session_id := cs_session_id input;
         ei_occurred_at := cs_occurred_at input; ei_kind := "session_created";
         ei_causation_request_id := Some (cs_request_id input); ei_attempt_id := None;
         ei_effect_class := None; ei_payload := cs_initial_event_payload input |}).
  assert (session_row (connection s) (uuid_text (cs_session_id input)) = None) as Hno.
  { rewrite <-Ht. apply session_row_None. intros x Hx Heq. apply not_true_iff_false in Hex.
    apply Hex, existsb_exists. exists x. split; [by apply list_elem_of_In|]. simpl.
    by rewrite Heq, text_eq_refl. }
  exists s, (persisted_as ev 1). split_and!; [done|apply same_view_refl| |done|done|done].
  split; [done| |by intros Hn|].
  - intros x. unfold has_session, session_row. rewrite Hc, <-Ht4. simpl. rewrite Hs3, Ht2. simpl.
    rewrite <-Hins. simpl. rewrite Ht, first_where_app.
    destruct (first_where _ (sessions (connection s))) as [r0|]; [naive_solver|].
    rewrite first_where_cons. simpl. destruct (text_eq _ _) eqn:Heq.
    + apply text_eq_true, uuid_text_inj in Heq as <-. split; [by right|done].
    + split; [done|]. intros [?| ->]; [done|]. by rewrite text_eq_refl in Heq.
  - exists row, key. split_and!; [done|by apply (decrypt_event_row key ev)|done|].
    rewrite Hc, <-Ht4. simpl. rewrite He3, Ht2. simpl. rewrite <-Hins. simpl. by rewrite Ht.
Qed.

Lemma views_encrypt key sid object sequence kind v :
  views (K := K) (encrypt_json key sid object sequence kind v).
Proof. apply views_calm. by intros s s' r [? _]%encrypt_json_effect. Qed.

Lemma keeps_encrypt_json key sid object sequence kind v :
  keeps SInv (encrypt_json (K := K) key sid object sequence kind v).
Proof. apply keeps_calm. by intros s s' r [? _]%encrypt_json_effect. Qed.

Lemma views_mark_creation input hash key_id :
  views (K := K) (mark_creation_key_created input hash key_id).
Proof.
  unfold mark_creation_key_created. intros s Hs. unfold st_bind.
  destruct (execute_count _ s) as [s1 r1] eqn:He. apply execute_count_effect in He as [Hk Hr].
  assert (same_view s s1) as V; [|by destruct r1 as [n|]; [destruct (n =? 1)%N|]].
  destruct r1 as [n|e]; [|by apply calm_view]. injection Hr as Hr _.
  apply same_view_tables; [by rewrite <-Hr|by rewrite <-Hr|by apply same_keys_entries].
Qed.

(** Sealing the snapshots and committing. *)
Lemma seal_may_create input hash key_id key s s' r :
  value_wf (cs_initial_event_payload input) = true → SInv s →
  readable (keys s) (cs_session_id input) key →
  (let! configuration := encrypt_json key (cs_session_id input) "configuration" 0
     "configuration_snapshot" (cs_configuration_snapshot input) in
   let! lock := encrypt_json key (cs_session_id input) "lock" 0 "session_lock"
     (cs_lock_snapshot input) in
   let! event_id := fresh_uuid in
   let! event := encrypt_json key (cs_session_id input) (uuid_text event_id) 1
     "session_created" (cs_initial_event_payload input) in
   commit_created_session input hash key_id event_id configuration lock event) s = (s', r) →
  may_create input s s' r.
Proof.
  intros Hw Hs Hk Hr.
  eapply may_create_bind; [done|apply keeps_encrypt_json|by apply views_encrypt|exact Hr|].
  clear Hr. intros s1 c Hs1 [[_ C1] _]%encrypt_json_effect Hr.
  eapply may_create_bind; [done|apply keeps_encrypt_json|by apply views_encrypt|exact Hr|].
  clear Hr. intros s2 l Hs2 [[_ C2] _]%encrypt_json_effect Hr.
  eapply may_create_bind; [done|apply keeps_fresh_uuid|by apply views_fresh|exact Hr|].
  clear Hr. intros s3 event_id Hs3 [_ C3]%fresh_uuid_calm Hr.
  eapply may_create_bind; [done|apply keeps_encrypt_json|by apply views_encrypt|exact Hr|].
  clear Hr. intros s4 p Hs4 [[_ C4] Hp]%encrypt_json_effect Hr.
  eapply commit_created_effect; [done|done| |by apply Hp|exact Hr].
  do 4 (eapply same_keys_readable; [eassumption|]). done.
Qed.

Lemma finish_may_create input hash key_id s s' r :
  value_wf (cs_initial_event_payload input) = true → SInv s → rooted (keys s) →
  has_creation (connection s) (cs_session_id input) →
  ¬ has_session (connection s) (cs_session_id input) →
  finish_create_session input hash key_id s = (s', r) → may_create input s s' r.
Proof.
  intros Hw Hs Hr Hj Hno Hf. unfold finish_create_session in Hf. unfold st_bind at 1 in Hf.
  pose proof (create_key_view (cs_session_id input) s Hs Hr Hno) as V1. unfold with_keys in V1, Hf at 1.
  destruct (create_session_key _ _) as [m r1] eqn:Hc. simpl in V1.
  eapply Inv_create_key in Hc as (Hi & _ & _); [|done|exact Hs].
  destruct r1 as [id|e]; [|injection Hf as <- <-; by left].
  destruct (negb _); [injection Hf as <- <-; by left|].
  eapply may_create_after; [exact V1|]. set (s1 := {| connection := _ |}) in Hf, V1 |- *.
  eapply may_create_bind; [exact Hi|apply keeps_mark_creation|by apply views_mark_creation|exact Hf|].
  clear Hf. intros s2 u Hs2 _ Hf.
  eapply may_create_bind; [done|apply keeps_session_key|by apply views_session_key|exact Hf|].
  clear Hf. intros s3 key Hs3 Hk Hf. eapply seal_may_create; [done|done| |exact Hf].
  unfold with_keys in Hk. destruct (session_key _ (keys s2)) as [m3 r3] eqn:Hsk.
  injection Hk as <- ->. eapply Inv_session_key in Hsk as (_ & _ & _ & Hk); [by apply Hk|exact Hs2].
Qed.

Lemma sqlite_create input D s s' r :
  sqlite_ok D s → ¬ D (cs_session_id input) → creation_ok input →
  create_session input s = (s', r) → may_create input s s' r.
Proof.
  intros Ho Hd Hok Hr. pose proof Hok as (_ & _ & Hw). unfold create_session in Hr.
  eapply may_create_bind; [apply Ho|apply keeps_lookup_port_command|apply views_lookup_port, Ho|exact Hr|].
  clear Hr. intros s1 record Hs1 Hl Hr.
  assert (same_view s s1) as V1.
  { pose proof (views_lookup_port None (cs_request_id input) s (so_inv _ _ Ho)) as V. by rewrite Hl in V. }
  pose proof (sqlite_ok_view _ _ _ Ho Hs1 V1) as Ho1. clear Hl V1 Ho s.
  destruct record as [record|].
  { destruct (_ && _); [|injection Hr as <- <-; left; apply same_view_refl].
    unfold st_bind, st_lift in Hr. destruct (read_value _); injection Hr as <- <-;
      left; apply same_view_refl. }
  set (hash := canonical_hash (cs_request_parameters input)) in Hr.
  pose proof (views_reconcile_retry (cs_session_id input) (cs_request_id input) hash s1 Hs1) as V2.
  eapply may_create_bind; [done|apply keeps_reconcile_create_retry|exact V2|exact Hr|].
  clear Hr. intros s2 u Hs2 He Hr. rewrite He in V2. simpl in V2.
  pose proof (sqlite_ok_view _ _ _ Ho1 Hs2 V2) as Ho2. clear He V2 Ho1 Hs1 s1.
  unfold st_bind at 1, with_keys at 1, st_gets in Hr. simpl in Hr. destruct s2 as [t f m]. simpl in Hr.
  unfold st_bind at 1 in Hr. destruct (execute _ _) as [s3 r3] eqn:He.
  apply execute_effect in He as [Hk3 Hr3]. simpl in *. destruct r3 as [u'|e].
  2:{ injection Hr as <- <-. left. by apply calm_view. }
  assert (beside t (connection s3)) as [Hbs Hbe].
  { unfold insert_creation in Hr3. destruct (existsb _ _) in Hr3; [done|]. injection Hr3 as <-. by split. }
  eapply (Inv_insert_creation _ _ m) in Hr3 as (Hi3 & Hj3 & _); [|done|done|done|exact Hs2].
  eapply Inv_same_keys in Hi3; [|exact Hk3].
  assert (same_view {| connection := t; failures := f; keys := m |} s3) as V3
    by (apply same_view_tables; [done|done|by apply same_keys_entries]).
  eapply may_create_after; [exact V3|]. pose proof (sqlite_ok_view _ _ _ Ho2 Hi3 V3) as Ho3.
  unfold st_bind at 1, st_try at 1 in Hr. destruct (finish_create_session _ _ _ s3) as [s4 r4] eqn:Hf.
  pose proof (finish_create_SInv input hash (session_key_id m (cs_session_id input)) s3) as Hs4.
  rewrite Hf in Hs4.
  eapply finish_may_create in Hf; [|done|done|apply Ho3|done|by intros ?%(so_ids _ _ Ho3)].
  destruct r4 as [outcome|e]; [by injection Hr as <- <-|].
  unfold st_bind, st_try in Hr.
  pose proof (views_reconcile_request (cs_request_id input) s4) as V5.
  destruct (reconcile_creation_by_request _ s4) as [s5 r5]. injection Hr as <- _.
  destruct Hf as [V4|[? _]]; [|done]. left. eapply same_view_trans; [exact V4|]. by apply V5, Hs4.
Qed.

(** ** Reading *)

Lemma sqlite_replay sid s s' l :
  SInv s → replay sid 0 s = (s', Ok l) → l ≠ [] → stored_history s sid l.
Proof.
  intros Hs Hr Hne. unfold replay in Hr. simpl in Hr. unfold st_bind at 1, with_keys in Hr.
  destruct (session_key sid (keys s)) as [m [key|e]] eqn:Hk; [|done].
  apply Inv_session_key with (t := connection s) in Hk as (_ & Hsp & He & Hkey); [|done].
  unfold st_bind in Hr. destruct (query _ _) as [s1 [rows|e]] eqn:Hq; [|done].
  apply query_calm in Hq as [_ Hrows]. specialize (Hrows _ eq_refl). simpl in Hrows.
  unfold st_lift in Hr. injection Hr as _ Hl.
  assert (readable (keys s) sid key) as Hread.
  { apply (same_entries_readable _ _ sid key (conj Hsp He)). by apply Hkey. }
  assert (history key sid (connection s) = Ok l) as Hh.
  { unfold history. rewrite <-Hl, Hrows. f_equal. symmetry. rewrite filterb_all.
    - eapply merge_sort_sorted, seqZ_sorted, inv_sequences, Hs.
    - intros r Hr. apply Z.ltb_lt.
      assert (e_sequence r ∈ e_sequence <$> events_of (connection s) (uuid_text sid)) as Hin
        by by apply list_elem_of_fmap_2.
      rewrite (inv_sequences _ _ Hs), elem_of_seqZ in Hin. lia. }
  split; [by eapply history_session|]. by exists key.
Qed.

(** ** The instances *)

#[export] Instance SqliteStorage_backend : StorageBackend (SqliteStorage K) := {
  be_create_session := create_session;
  be_append_event := append_event;
  be_append_events := append_events;
  be_replay := replay;
  be_lookup_command_outcome := lookup_command_outcome;
  be_record_command_outcome sid request method parameters outcome :=
    record_command_outcome ("session/" +:+ uuid_text sid) request (Some sid) method parameters outcome;
  be_commit_command_event := commit_command_event;
  be_commit_command_events := commit_command_events;
  be_load_session_state := load_session_state;
  be_load_session := load_session;
  be_load_sessions := load_sessions;
  be_list_session_metadata := list_session_metadata;
  be_is_deleted := is_deleted;
  be_recover_uncertain_attempts := recover_uncertain_attempts;
  be_resume_session_creations := resume_session_creations;
  be_resume_deletions := resume_deletions;
  be_ensure_session_deletable := ensure_session_deletable;
  be_request_deletion := request_deletion;
}.

Lemma keeps_load_session_state sid : keeps SInv (load_session_state (K := K) sid).
Proof. unfold load_session_state. views. Qed.

Lemma keeps_list_metadata limit before : keeps SInv (list_session_metadata (K := K) limit before).
Proof. unfold list_session_metadata. views. Qed.

(** Methods that only read, or write beside the histories. *)
Local Ltac quietly keep view :=
  intros Ho Hr; eapply sqlite_quiet; [apply keep|apply view|exact Ho|exact Hr].

#[export] Program Instance SqliteStorage_laws : BackendLaws (SqliteStorage K) := {
  backend_ok := sqlite_ok;
  history_of := stored_history;
}.
Next Obligation. intros D D' s HD [Hi Hr Hd]. split; auto. Qed.
Next Obligation. exact stored_history_unique. Qed.
Next Obligation.
  intros input D s s' r Ho Hw Hr.
  assert (keeps SInv (append_event (K := K) input)) as Hk by by apply keeps_append_event.
  pose proof (keeps_ok _ _ _ _ Hk (so_inv _ _ Ho) Hr) as Hi.
  apply sqlite_append_event in Hr as [Hkept Hr]; [|apply Ho|done].
  split; [by eapply sqlite_ok_kept|done].
Qed.
Next Obligation.
  intros events D s s' r Ho Hw Hr.
  assert (keeps SInv (append_events (K := K) events)) as Hk by by apply keeps_append_events.
  pose proof (keeps_ok _ _ _ _ Hk (so_inv _ _ Ho) Hr) as Hi.
  apply sqlite_append_events in Hr as [Hkept Hr]; [|apply Ho|done].
  split; [by eapply sqlite_ok_kept|done].
Qed.
Next Obligation.
  intros req method parameters outcome events D s s' r Ho Hw Hr.
  pose proof (keeps_ok _ _ _ _ (keeps_commit_command_events _ _ _ _ _ Hw) (so_inv _ _ Ho) Hr) as Hi.
  apply sqlite_commit_events in Hr as [Hkept Hr]; [|apply Ho|done].
  split; [by eapply sqlite_ok_kept|]. destruct r as [[]|]; [by destruct Hr|done..].
Qed.
Next Obligation.
  intros req method parameters outcome event D s s' r Ho Hw Hr.
  pose proof (keeps_ok _ _ _ _ (keeps_commit_command_event _ _ _ _ _ Hw) (so_inv _ _ Ho) Hr) as Hi.
  apply sqlite_commit_event in Hr as [Hkept Hr]; [|apply Ho|done].
  split; [by eapply sqlite_ok_kept|done].
Qed.
Next Obligation.
  intros sid D s s' r Ho Hr. pose proof Hr as Hr'.
  eapply sqlite_quiet in Hr as [Ho' Hq]; [|apply keeps_replay|apply views_replay|exact Ho].
  split_and!; [done|done|]. intros l ->. eapply sqlite_replay; [apply Ho|exact Hr'].
Qed.
Next Obligation.
  intros input D s s' r Ho Hd Hw Hc Hl Hout Hr.
  assert (creation_ok input) as Hok by done.
  pose proof (keeps_ok _ _ _ _ (keeps_create_session input Hok) (so_inv _ _ Ho) Hr) as Hi.
  apply sqlite_create with (D := D) in Hr; [|done..].
  destruct Hr as [V|(_ & s1 & e & Hi1 & V & Hcr & Hk & Hs & Hp)].
  - pose proof (same_view_histories _ _ V) as Hh. split_and!.
    + pose proof (sqlite_ok_view _ _ _ Ho Hi V) as [? ? Hids]. split; auto.
    + intros x h. by rewrite Hh.
    + intros x h. rewrite Hh. by left.
  - pose proof (same_view_histories _ _ V) as Hh. split_and!.
    + apply (created_ok D _ e s1 s'); [by apply (sqlite_ok_view D s s1)|done|exact Hcr].
    + intros x h Hx. eapply created_histories; [exact Hi1|exact Hcr|by apply Hh].
    + intros x h Hx. apply (created_histories _ _ _ _ Hi1 Hcr) in Hx as [Hx|(-> & Hno & ->)].
      * left. by apply Hh.
      * right. split_and!; [done| |by exists e]. intros h Hx. by apply (Hno h), Hh.
Qed.
Next Obligation.
  intros at_time D s s' r Ho Hr.
  pose proof (follows_recover D (λ _ h e, se_kind e = "outcome_unknown" ∧
    started_in h (se_attempt_id e)) s at_time) as Hf. simpl in Hr. rewrite Hr in Hf. apply Hf; [by split|done].
Qed.
Next Obligation.
  intros sid did req at_time actor D s s' r Ho Hr.
  assert (keeps (follows D (λ _ _ e, se_kind e = "session_deletion_requested") s)
    (request_deletion (K := K) sid did req at_time actor)) as Hf by by apply follows_request_deletion.
  specialize (Hf s (follows_start _ _ _ Ho)). simpl in Hr. by rewrite Hr in Hf.
Qed.
Next Obligation.
  intros D s s' r Ho Hr.
  pose proof (follows_resume_deletions D (λ _ _ _, False) s s (follows_start _ _ _ Ho)) as Hf.
  simpl in Hr. by rewrite Hr in Hf.
Qed.
Next Obligation. intros D s s' r. quietly keeps_resume_session_creations views_resume_creations. Qed.
Next Obligation.
  intros sid req method parameters outcome D s s' r.
  quietly keeps_record_command_outcome views_record.
Qed.
Next Obligation.
  intros sid req method parameters D s s' r. quietly keeps_lookup_command_outcome views_lookup.
Qed.
Next Obligation. intros sid D s s' r. quietly keeps_load_session_state views_load_state. Qed.
Next Obligation. intros sid D s s' r. quietly keeps_load_session views_load. Qed.
Next Obligation. intros D s s' r. quietly keeps_load_sessions views_load_all. Qed.
Next Obligation. intros limit before D s s' r. quietly keeps_list_metadata views_list. Qed.
Next Obligation.
  intros sid D s s' r Ho Hr.
  by eapply sqlite_quiet; [apply keeps_query|apply views_is_deleted|exact Ho|exact Hr].
Qed.
Next Obligation. intros sid D s s' r. quietly keeps_ensure_no_pending views_pending. Qed.
End locked.
