(* ===== verification/DaemonMachine.v ===== *)
(** * DaemonMachine: the storage of the daemon with its exports

    [LockedStorage] holds the SQLite storage, and exports also work on the disk; the
    state of the interface is therefore the database together with the disk
    ([Machine]). The methods that are not about exports leave the disk alone. An
    export adds at most its own event to the history of its session. *)

From stdpp Require Import sorting.
From S2P Require Import Prelude StateResult Text BTree Errors Json Wire Event.
From S2P Require Import ConfigModel ConfigPreflight ConfigLock.
From S2P Require Import StorageKeys StorageTables StorageDb StorageInv StorageOps StorageProps.
From S2P Require Import StorageDisk StorageExport StorageView DaemonBackend DaemonSqlite DaemonLocked.

Section machine.
Context `{StorageEnv} `{!StorageEnvLaws} `{ExportEnv} {K : Type} `{KeyStore K} `{!KeyStoreLaws K}.
Implicit Types (x : Machine K).

(** ** Delegation *)

#[export] Instance LockedStorage : StorageBackend (Machine K) := {
  be_create_session input := on_storage (be_create_session input);
  be_append_event input := on_storage (be_append_event input);
  be_append_events events := on_storage (be_append_events events);
  be_replay sid after := on_storage (be_replay sid after);
  be_lookup_command_outcome sid request method parameters :=
    on_storage (be_lookup_command_outcome sid request method parameters);
  be_record_command_outcome sid request method parameters outcome :=
    on_storage (be_record_command_outcome sid request method parameters outcome);
  be_commit_command_event request method parameters outcome event :=
    on_storage (be_commit_command_event request method parameters outcome event);
  be_commit_command_events request method parameters outcome events :=
    on_storage (be_commit_command_events request method parameters outcome events);
  be_load_session_state sid := on_storage (be_load_session_state sid);
  be_load_session sid := on_storage (be_load_session sid);
  be_load_sessions := on_storage be_load_sessions;
  be_list_session_metadata limit before := on_storage (be_list_session_metadata limit before);
  be_is_deleted sid := on_storage (be_is_deleted sid);
  be_recover_uncertain_attempts now := on_storage (be_recover_uncertain_attempts now);
  be_resume_session_creations := on_storage be_resume_session_creations;
  be_resume_deletions := on_storage be_resume_deletions;
  be_ensure_session_deletable sid := on_storage (be_ensure_session_deletable sid);
  be_request_deletion sid did request now actor :=
    on_storage (be_request_deletion sid did request now actor);
}.

#[export] Instance LockedStorage_exports : ExportBackend (Machine K) := {
  be_resume_exports := resume_exports;
  be_execute_export := execute_export;
  recipient_fingerprints := StorageExport.recipient_fingerprints;
}.

Lemma on_storage_inv {A} (f : SM (K := K) A) x x' r :
  on_storage f x = (x', r) →
  ∃ s', f (mc_storage x) = (s', r) ∧ x' = {| mc_storage := s'; mc_disk := mc_disk x |}.
Proof. unfold on_storage. destruct (f (mc_storage x)) as [s' r']. intros [= <- <-]. eauto. Qed.

(** A law of the storage, for the storage with the disk. *)
Local Ltac delegated law :=
  intros; match goal with Hr : _ = (_, _) |- _ =>
    apply on_storage_inv in Hr as (? & Hr & ->); by eapply law in Hr end.

#[export] Program Instance LockedStorage_laws : BackendLaws (Machine K) := {
  backend_ok D x := backend_ok D (mc_storage x);
  history_of x := history_of (mc_storage x);
}.
Next Obligation. intros D D' x. apply backend_mono. Qed.
Next Obligation. intros x. apply history_unique. Qed.
Next Obligation. delegated law_append_event. Qed.
Next Obligation. delegated law_append_events. Qed.
Next Obligation. delegated law_commit. Qed.
Next Obligation. delegated law_commit_event. Qed.
Next Obligation. delegated law_replay. Qed.
Next Obligation. delegated law_create. Qed.
Next Obligation. delegated law_recover. Qed.
Next Obligation. delegated law_delete. Qed.
Next Obligation. delegated law_resume_deletions. Qed.
Next Obligation. delegated law_resume_creations. Qed.
Next Obligation. delegated law_record. Qed.
Next Obligation. delegated law_lookup. Qed.
Next Obligation. delegated law_load_state. Qed.
Next Obligation. delegated law_load. Qed.
Next Obligation. delegated law_load_all. Qed.
Next Obligation. delegated law_list. Qed.
Next Obligation. delegated law_is_deleted. Qed.
Next Obligation. delegated law_deletable. Qed.

(** ** Exports *)

(** Methods of the storage that leave the histories alone. *)
Definition calmly {A} (f : SM (K := K) A) : Prop := keeps SInv f ∧ views f.

Lemma calmly_query {A} (f : Tables → A) : calmly (query f).
Proof. split; [apply keeps_query|apply views_query]. Qed.
Lemma calmly_ret {A} (a : A) : calmly (st_ret a).
Proof. split; [apply keeps_ret|apply views_ret]. Qed.
Lemma calmly_err {A} e : calmly (st_err (A := A) e).
Proof. split; [apply keeps_err|apply views_err]. Qed.
Lemma calmly_lift {A} (r : Result A StorageError) : calmly (st_lift r).
Proof. split; [apply keeps_lift|apply views_lift]. Qed.
Lemma calmly_fresh : calmly fresh_uuid.
Proof. split; [apply keeps_fresh_uuid|apply views_fresh]. Qed.
Lemma calmly_key sid : calmly (with_keys (session_key sid)).
Proof. split; [apply keeps_session_key|apply views_session_key]. Qed.
Lemma calmly_encrypt key sid object sequence kind v :
  calmly (encrypt_json key sid object sequence kind v).
Proof. split; [apply keeps_encrypt_json|apply views_encrypt]. Qed.
Lemma calmly_lookup sid req : calmly (lookup_port_command sid req).
Proof. split; [apply keeps_lookup_port_command|apply views_lookup_port]. Qed.

Lemma calmly_bind {A B} (f : SM A) (k : A → SM B) :
  calmly f → (∀ a, calmly (k a)) → calmly (st_bind f k).
Proof.
  intros [Hf Vf] Hk. split; [apply keeps_bind|apply views_bind]; try done; intros a; apply Hk.
Qed.

Lemma calmly_for {A} (body : A → SM unit) l : (∀ a, calmly (body a)) → calmly (st_for body l).
Proof. intros Hb. split; [apply keeps_for|apply views_for]; intros; apply Hb. Qed.

Lemma insert_export_elsewhere row t t' : insert_export row t = Some t' → elsewhere t t'.
Proof.
  unfold insert_export. destruct (session_row t _); [|done]. destruct (_ || _); [done|].
  by intros [= <-].
Qed.

Lemma update_export_elsewhere id f t t' n : update_export id f t = Some (t', n) → elsewhere t t'.
Proof. unfold update_export. destruct (forallb _ _); [|done]. by intros [= <- _]. Qed.

Lemma elsewhere_beside t t' : elsewhere t t' → beside t t'.
Proof. by intros (? & ? & _). Qed.

Lemma calmly_insert_export row : calmly (execute (insert_export row)).
Proof.
  split; [apply keeps_execute_elsewhere|apply views_execute];
    intros t t' Hi%insert_export_elsewhere; [done|by apply elsewhere_beside].
Qed.

Lemma calmly_update_export id f : calmly (execute_count (update_export id f)).
Proof.
  split; [apply keeps_execute_count_elsewhere|apply views_execute_count];
    intros t t' n Hi%update_export_elsewhere; [done|by apply elsewhere_beside].
Qed.
End machine.

Create HintDb calmly.
#[export] Hint Resolve calmly_query calmly_ret calmly_err calmly_lift calmly_fresh calmly_key
  calmly_encrypt calmly_lookup calmly_insert_export calmly_update_export : calmly.

(** Follows the structure of a method that leaves the histories alone. *)
Ltac calmly :=
  repeat first
    [ progress intros
    | solve [auto with calmly]
    | match goal with
      | |- calmly (st_bind _ _) => apply calmly_bind
      | |- calmly (st_for _ _) => apply calmly_for
      | |- calmly (match ?o with _ => _ end) => destruct o
      end ].

Section exports.
Context `{StorageEnv} `{!StorageEnvLaws} `{ExportEnv} {K : Type} `{KeyStore K} `{!KeyStoreLaws K}.

Lemma calmly_load_journal id : calmly (K := K) (load_export_journal id).
Proof. unfold load_export_journal. calmly. Qed.

Lemma calmly_pending_target path : calmly (K := K) (ensure_no_pending_target path).
Proof. unfold ensure_no_pending_target, export_ids. calmly; apply calmly_load_journal. Qed.

Lemma calmly_update_state id state fp : calmly (K := K) (update_export_state id state fp).
Proof. unfold update_export_state. calmly. Qed.

Lemma calmly_metadata sid key : calmly (K := K) (export_metadata sid key).
Proof. unfold export_metadata. calmly. Qed.

Lemma calmly_rows sid : calmly (K := K) (export_rows sid).
Proof. unfold export_rows. calmly. Qed.

(** *** What an export does to the histories *)

Section follow.
Context (D : Uuid → Prop) (s0 : SqliteStorage K).
Let P : Uuid → list StoredEvent → StoredEvent → Prop := λ _ _ e, se_kind e = "session_exported".
Definition xfollows (x : Machine K) : Prop := follows D P s0 (mc_storage x).

Lemma xkeeps_storage {A} (f : SM (K := K) A) : keeps (follows D P s0) f → keeps xfollows (on_storage f).
Proof.
  intros Hf x Hx. specialize (Hf _ Hx). unfold on_storage, xfollows in *. by destruct (f (mc_storage x)).
Qed.

Lemma xkeeps_calmly {A} (f : SM (K := K) A) : calmly f → keeps xfollows (on_storage f).
Proof. intros [Hk Hv]. by apply xkeeps_storage, follows_views. Qed.

Lemma xkeeps_disk {A} (m : DM A) : keeps xfollows (on_disk m).
Proof. intros x Hx. unfold on_disk. by destruct (m (mc_disk x)). Qed.

Lemma xkeeps_try {A} (m : XM (K := K) A) : keeps xfollows m → keeps xfollows (st_try (F := StorageError) m).
Proof. intros Hm x Hx. specialize (Hm x Hx). unfold st_try. by destruct (m x). Qed.

Lemma xkeeps_commit id req hash outcome event :
  ei_kind event = "session_exported" → value_wf (ei_payload event) = true →
  keeps xfollows (on_storage (commit_export_command id req hash outcome event)).
Proof.
  intros Hk Hw. apply xkeeps_storage. intros s Hf.
  pose proof (keeps_commit_export_command id req hash outcome event Hw s (so_inv _ _ (proj1 Hf))) as Hi.
  destruct (commit_export_command _ _ _ _ _ s) as [s' r] eqn:Hc. simpl in *.
  apply sqlite_commit_export in Hc as [Hkept Hr]; [|apply Hf|done].
  assert (sqlite_ok D s') as Ho by (by eapply sqlite_ok_kept; [apply Hf|..]).
  assert (quiet stored_history s s' → follows D P s0 s') as Hq.
  { intros Hq. eapply follows_shrinks; [exact Hf|done|]. intros x h. by apply Hq. }
  destruct r as [[e v|v]|e]; [|by apply Hq..]. destruct Hr as [Hx Hp].
  by eapply follows_extends; [exact Hf|done|exact Hx|exact Hp|done|].
Qed.

(** Follows the structure of a method on the database and the disk. *)
Local Ltac xkeeps :=
  repeat first
    [ progress intros
    | solve [apply keeps_ret|apply keeps_err|apply keeps_lift|apply xkeeps_disk
            |apply xkeeps_calmly; auto using calmly_load_journal, calmly_pending_target,
               calmly_update_state, calmly_metadata, calmly_rows with calmly]
    | match goal with
      | |- keeps _ (st_bind _ _) => apply keeps_bind
      | |- keeps _ (st_try _) => apply xkeeps_try
      | |- keeps _ (match ?o with _ => _ end) => destruct o
      end ].

Lemma xkeeps_write sid path recipients : keeps xfollows (write_age_bundle sid path recipients).
Proof. unfold write_age_bundle. xkeeps. Qed.

Lemma xkeeps_stage j staging : keeps xfollows (stage_export j staging).
Proof. unfold stage_export. xkeeps. apply xkeeps_write. Qed.

Lemma xkeeps_finish j staging output fp :
  value_wf (xp_event_payload (xj_payload j)) = true →
  keeps xfollows (finish_export j staging output fp).
Proof.
  intros Hw. unfold finish_export. xkeeps. by apply xkeeps_commit.
Qed.

Lemma xkeeps_advance j :
  value_wf (xp_event_payload (xj_payload j)) = true → keeps xfollows (advance_export j).
Proof.
  intros Hj. unfold advance_export, publish_export. xkeeps; [apply xkeeps_stage|by apply xkeeps_finish..].
Qed.

Lemma load_journal_payload id (x x' : Machine K) j :
  on_storage (load_export_journal id) x = (x', Ok j) →
  value_wf (xp_event_payload (xj_payload j)) = true.
Proof. intros (s' & Hl & _)%on_storage_inv. by apply load_export_journal_ok in Hl as (_ & _ & _ & ?). Qed.

Lemma create_journal_payload c hash (x x' : Machine K) j :
  create_export_journal c hash x = (x', Ok j) → xp_event_payload (xj_payload j) = xc_event_payload c.
Proof.
  unfold create_export_journal. intros Hc. apply st_bind_Ok in Hc as (x1 & row & _ & Hc).
  apply st_bind_Ok in Hc as (x2 & state & _ & Hc). apply st_bind_Ok in Hc as (x3 & [] & _ & Hc); [done|].
  do 8 (apply st_bind_Ok in Hc as (? & ? & _ & Hc)). injection Hc as _ <-. done.
Qed.

Lemma xkeeps_execute c : value_wf (xc_event_payload c) = true → keeps xfollows (execute_export c).
Proof.
  intros Hw. unfold execute_export. apply keeps_bind; [xkeeps|]. intros _.
  apply keeps_bind; [xkeeps|]. intros [existing|]; [xkeeps|].
  eapply keeps_bind_post with (Q := λ j, value_wf (xp_event_payload (xj_payload j)) = true);
    [..|by apply xkeeps_advance].
  - unfold load_or_create_export_journal, create_export_journal, has_deletion_journal,
      encrypt_journal_payload. xkeeps.
  - intros x x' j Hj. unfold load_or_create_export_journal in Hj.
    apply st_bind_Ok in Hj as (x1 & [id|] & _ & Hj).
    + apply st_bind_Ok in Hj as (x2 & eid & _ & Hj). apply st_bind_Ok in Hj as (x3 & j' & Hl & Hj).
      apply load_journal_payload in Hl. destruct (negb _); [done|]. by injection Hj as _ <-.
    + apply create_journal_payload in Hj. by rewrite Hj.
Qed.

Lemma xkeeps_resume : keeps xfollows resume_exports.
Proof.
  unfold resume_exports, export_ids. apply keeps_bind; [xkeeps|]. intros ids.
  apply keeps_bind; [|xkeeps]. apply keeps_map. intros id _. unfold resume_export.
  apply keeps_bind; [xkeeps|]. intros eid.
  eapply keeps_bind_post; [xkeeps|apply load_journal_payload|]. intros j Hj.
  apply keeps_bind; [by apply xkeeps_advance|]. xkeeps.
Qed.

End follow.

#[export] Instance LockedStorage_export_laws : ExportLaws (Machine K).
Proof.
  split.
  - intros D x x' r Ho Hr.
    pose proof (xkeeps_resume D (mc_storage x) x (follows_start _ _ _ Ho)) as Hf.
    change (resume_exports x = (x', r)) in Hr. by rewrite Hr in Hf.
  - intros command D x x' r Ho Hw Hr.
    pose proof (xkeeps_execute D (mc_storage x) command Hw x (follows_start _ _ _ Ho)) as Hf.
    change (execute_export command x = (x', r)) in Hr. by rewrite Hr in Hf.
Qed.
End exports.
