(* ===== verification/DaemonApp.v ===== *)
(** * DaemonApp: the application state and what its handlers share
      (workbench-daemon/src/application.rs, and the sessions of startup.rs)

    [Application] has the fields of the source: the storage, the caches of pinned
    configurations and locks, the known sessions, the active executions and the
    subscription hub, and in addition the spawned tasks, the calls made to providers
    and the sessions whose lock will never be released. A handler is a function on
    this state that may fail, panic, or block forever. Everything a handler does
    under the lock of its session is one step. *)

From S2P Require Import StorageKeys StorageTables StorageDb StorageDisk StorageExport.
From S2P Require Import Prelude StateResult Text BTree Errors Value Attempt Policy Routing.
From S2P Require Import Event Workflow Ports Json Wire ProtoCommand ProtoReply Subscription.
From S2P Require Import ConfigModel ConfigValidate ConfigMerge ConfigPreflight FileSystem ConfigLock.
From S2P Require Import StorageKeys StorageTables StorageDb.
From S2P Require Import DaemonModel DaemonWorkflow DaemonHub DaemonBackend.

(** ** State *)

Inductive ActiveBackend : Type :=
| AB_Fake
| AB_Provider (provider : ProviderId) (handle : ProviderSessionHandle).

Record ActiveExecution : Type := {
  ae_attempt_id : Uuid;
  ae_request_id : Uuid;
  ae_backend : ActiveBackend;
  ae_cancel_started : bool;
}.

(** [ActiveExecution::is_fake] *)
Definition execution_is_fake (e : ActiveExecution) : bool :=
  match ae_backend e with AB_Fake => true | AB_Provider _ _ => false end.

Definition execution (attempt request : Uuid) (backend : ActiveBackend) : ActiveExecution :=
  {| ae_attempt_id := attempt; ae_request_id := request; ae_backend := backend;
     ae_cancel_started := false |}.

(** The futures given to [tokio::spawn], at the points where they wait. *)
Inductive Task : Type :=
| TK_Fake (session_id : Uuid)
| TK_Activate (session_id attempt_id : Uuid) (provider : ProviderId)
    (handle : ProviderSessionHandle) (prompt : ProviderPrompt)
| TK_ActivationFailed (session_id attempt_id : Uuid) (failure : ProviderFailure)
| TK_Stream (session_id attempt_id : Uuid)
| TK_Advance (session_id request_id attempt_id : Uuid) (findings : bool)
| TK_DispatchStep (session_id request_id : Uuid) (run : WorkflowRun)
| TK_StepActivate (session_id request_id attempt_id : Uuid) (kind : ProviderType)
    (provider : ProviderId) (runtime_model prompt : string)
| TK_Cancel (session_id request_id control_id : Uuid) (attempt_id : option Uuid)
| TK_ResolveCancel (session_id request_id control_id : Uuid) (attempt_id : option Uuid)
    (confirmed : bool) (summary : string).

(** Calls that reach a provider adapter. *)
Inductive ProviderCall : Type :=
| PC_Start (session_id attempt_id : Uuid) (provider : ProviderId)
| PC_Prompt (session_id attempt_id : Uuid) (provider : ProviderId).

Record StartupConfiguration : Type := {
  su_resolved : WorkbenchConfiguration;
  su_snapshot : ConfigurationSnapshot;
  su_base_lock : WorkbenchLock;
  su_sources : list string;
}.

(** [FakeBehavior], without its delays. *)
Record FakeBehavior : Type := {
  fb_confirms_cancellation : bool;
  fb_report_findings : bool;
}.

Record Application (S : Type) : Type := {
  ap_storage : S;
  ap_startup : StartupConfiguration;
  ap_shutting_down : bool;
  ap_session_configs : gmap Uuid WorkbenchConfiguration;
  ap_pinned_locks : gmap Uuid WorkbenchLock;
  ap_known_sessions : gset Uuid;
  ap_session_workflows : gmap Uuid string;
  ap_active : gmap Uuid ActiveExecution;
  ap_subscriptions : SubscriptionHub;
  ap_provider_catalog : BTreeMap PreflightCapabilities;
  ap_fake : FakeBehavior;
  ap_tasks : list Task;
  ap_calls : list ProviderCall;
  ap_blocked : gset Uuid;
  ap_draws : N;
}.
Arguments ap_storage {S}.
Arguments ap_startup {S}.
Arguments ap_shutting_down {S}.
Arguments ap_session_configs {S}.
Arguments ap_pinned_locks {S}.
Arguments ap_known_sessions {S}.
Arguments ap_session_workflows {S}.
Arguments ap_active {S}.
Arguments ap_subscriptions {S}.
Arguments ap_provider_catalog {S}.
Arguments ap_fake {S}.
Arguments ap_tasks {S}.
Arguments ap_calls {S}.
Arguments ap_blocked {S}.
Arguments ap_draws {S}.

(** The parts of the state a step replaces. *)
Definition set_storage {S} (s : S) (a : Application S) : Application S :=
  {| ap_storage := s; ap_startup := ap_startup a; ap_shutting_down := ap_shutting_down a;
     ap_session_configs := ap_session_configs a; ap_pinned_locks := ap_pinned_locks a;
     ap_known_sessions := ap_known_sessions a; ap_session_workflows := ap_session_workflows a;
     ap_active := ap_active a; ap_subscriptions := ap_subscriptions a;
     ap_provider_catalog := ap_provider_catalog a; ap_fake := ap_fake a; ap_tasks := ap_tasks a;
     ap_calls := ap_calls a; ap_blocked := ap_blocked a; ap_draws := ap_draws a |}.

Definition set_caches {S} (configs : gmap Uuid WorkbenchConfiguration)
    (locks : gmap Uuid WorkbenchLock) (known : gset Uuid) (workflows : gmap Uuid string)
    (a : Application S) : Application S :=
  {| ap_storage := ap_storage a; ap_startup := ap_startup a;
     ap_shutting_down := ap_shutting_down a; ap_session_configs := configs;
     ap_pinned_locks := locks; ap_known_sessions := known; ap_session_workflows := workflows;
     ap_active := ap_active a; ap_subscriptions := ap_subscriptions a;
     ap_provider_catalog := ap_provider_catalog a; ap_fake := ap_fake a; ap_tasks := ap_tasks a;
     ap_calls := ap_calls a; ap_blocked := ap_blocked a; ap_draws := ap_draws a |}.

Definition set_active {S} (active : gmap Uuid ActiveExecution) (a : Application S)
    : Application S :=
  {| ap_storage := ap_storage a; ap_startup := ap_startup a;
     ap_shutting_down := ap_shutting_down a; ap_session_configs := ap_session_configs a;
     ap_pinned_locks := ap_pinned_locks a; ap_known_sessions := ap_known_sessions a;
     ap_session_workflows := ap_session_workflows a; ap_active := active;
     ap_subscriptions := ap_subscriptions a; ap_provider_catalog := ap_provider_catalog a;
     ap_fake := ap_fake a; ap_tasks := ap_tasks a; ap_calls := ap_calls a;
     ap_blocked := ap_blocked a; ap_draws := ap_draws a |}.

Definition set_outside {S} (hub : SubscriptionHub) (tasks : list Task) (calls : list ProviderCall)
    (draws : N) (a : Application S) : Application S :=
  {| ap_storage := ap_storage a; ap_startup := ap_startup a;
     ap_shutting_down := ap_shutting_down a; ap_session_configs := ap_session_configs a;
     ap_pinned_locks := ap_pinned_locks a; ap_known_sessions := ap_known_sessions a;
     ap_session_workflows := ap_session_workflows a; ap_active := ap_active a;
     ap_subscriptions := hub; ap_provider_catalog := ap_provider_catalog a; ap_fake := ap_fake a;
     ap_tasks := tasks; ap_calls := calls; ap_blocked := ap_blocked a; ap_draws := draws |}.

Definition set_lifecycle {S} (shutting_down : bool) (blocked : gset Uuid) (a : Application S)
    : Application S :=
  {| ap_storage := ap_storage a; ap_startup := ap_startup a; ap_shutting_down := shutting_down;
     ap_session_configs := ap_session_configs a; ap_pinned_locks := ap_pinned_locks a;
     ap_known_sessions := ap_known_sessions a; ap_session_workflows := ap_session_workflows a;
     ap_active := ap_active a; ap_subscriptions := ap_subscriptions a;
     ap_provider_catalog := ap_provider_catalog a; ap_fake := ap_fake a; ap_tasks := ap_tasks a;
     ap_calls := ap_calls a; ap_blocked := blocked; ap_draws := ap_draws a |}.

(** How a handler ends without a value. *)
Inductive Stop (E : Type) : Type :=
| ST_Error (error : E)
| ST_Panic
| ST_Blocked.
Arguments ST_Error {E}.
Arguments ST_Panic {E}.
Arguments ST_Blocked {E}.

Section app.
Context `{StorageEnv} `{DaemonEnv} `{FileSystem} {S : Type} `{StorageBackend S}.

Definition AM (E A : Type) : Type := ST (Application S) (Stop E) A.

(** [Err(error)?] and the conversions of [?] *)
Definition fail {E A} (e : E) : AM E A := st_err (ST_Error e).
Definition lift {E A} (r : Result A E) : AM E A := st_lift (map_err ST_Error r).
Definition convert {E F A} (f : E → F) (m : AM E A) : AM F A :=
  λ a, let '(a', r) := m a in
       (a', map_err (λ stop, match stop with
                             | ST_Error e => ST_Error (f e)
                             | ST_Panic => ST_Panic
                             | ST_Blocked => ST_Blocked
                             end) r).

(** A call of the storage backend. *)
Definition backend {A} (m : ST S StorageError A) : AM StorageError A :=
  λ a, let '(s, r) := m (ap_storage a) in (set_storage s a, map_err ST_Error r).

Definition storage {A} (m : ST S StorageError A) : AM DaemonError A :=
  convert from_storage_error (backend m).

(** [Uuid::now_v7()] and [OffsetDateTime::now_utc()] *)
Definition draw_with {E A} (f : N → A) : AM E A :=
  λ a, (set_outside (ap_subscriptions a) (ap_tasks a) (ap_calls a) (ap_draws a + 1) a,
        Ok (f (ap_draws a))).
Definition new_id {E} : AM E Uuid := draw_with daemon_v7.
Definition now_utc {E} : AM E OffsetDateTime := draw_with clock.

(** [tokio::spawn] *)
Definition spawn {E} (t : Task) : AM E unit :=
  st_modify (λ a, set_outside (ap_subscriptions a) (ap_tasks a ++ [t]) (ap_calls a) (ap_draws a) a).

Definition log_call {E} (c : ProviderCall) : AM E unit :=
  st_modify (λ a, set_outside (ap_subscriptions a) (ap_tasks a) (ap_calls a ++ [c]) (ap_draws a) a).

Definition publish_event {E} (e : SessionEvent) : AM E unit :=
  st_modify (λ a, set_outside (publish encoded_len e (ap_subscriptions a)) (ap_tasks a)
                    (ap_calls a) (ap_draws a) a).

(** [self.active.lock().await...] *)
Definition get_active {E} (sid : Uuid) : AM E (option ActiveExecution) :=
  st_gets (λ a, Ok (ap_active a !! sid)).
Definition insert_active {E} (sid : Uuid) (e : ActiveExecution) : AM E unit :=
  st_modify (λ a, set_active (<[sid := e]> (ap_active a)) a).
Definition delete_active {E} (sid : Uuid) : AM E unit :=
  st_modify (λ a, set_active (delete sid (ap_active a)) a).

Definition active_for_attempt {E} (sid attempt : Uuid) : AM E (option ActiveExecution) :=
  st_gets (λ a, Ok (match ap_active a !! sid with
                    | Some e => if bool_decide (ae_attempt_id e = attempt) then Some e else None
                    | None => None
                    end)).

Definition remove_active_attempt {E} (sid attempt : Uuid) : AM E unit :=
  let! active := active_for_attempt sid attempt in
  match active with Some _ => delete_active sid | None => st_ret tt end.

(** ** Sessions of the startup configuration (startup.rs) *)

Definition config_json (v : Value) : string := json_print v.

Definition is_executable_adapter (p : Provider) : bool :=
  match pr_kind p, pr_driver p with
  | PT_Acp, None => true
  | PT_SubscriptionCli, Some _ => true
  | _, _ => false
  end.

(** [reject_adapter_executable_overrides] *)
Definition reject_adapter_executable_overrides (base session : WorkbenchConfiguration)
    : Result unit ConfigError :=
  let? _ := try_for_each (λ '(name, provider),
    reject_if (is_executable_adapter provider
               && negb (match bt_get name (cf_providers base) with
                        | Some p => is_executable_adapter p
                        | None => false
                        end))
      (CErr_Lock ("session override introduced executable provider " +:+ name)))
    (cf_providers session) in
  try_for_each (λ '(name, provider),
    if negb (is_executable_adapter provider) then Ok tt
    else
      let? candidate := ok_or (bt_get name (cf_providers session))
        (CErr_Lock ("session override removed pinned executable provider " +:+ name)) in
      let? _ := reject_if (negb (bool_decide (pr_kind candidate = pr_kind provider))
                           || negb (bool_decide (pr_driver candidate = pr_driver provider)))
        (CErr_Lock ("session override changed pinned executable provider " +:+ name)) in
      let missing := CErr_Lock ("provider " +:+ name +:+ " has no executable") in
      let? base_executable := ok_or (pr_executable provider) missing in
      let? candidate_executable := ok_or (pr_executable candidate) missing in
      let? base_path := canonicalize_adapter_executable base_executable in
      let? candidate_path := canonicalize_adapter_executable candidate_executable in
      reject_if (negb (String.eqb base_path candidate_path))
        (CErr_Lock ("session override replaced pinned executable for provider " +:+ name)))
    (cf_providers base).

(** [StartupConfiguration::resolve_session] *)
Definition resolve_session (self : StartupConfiguration) (overrides : option (BTreeMap Value))
    : Result (ResolvedConfiguration * ConfigurationSnapshot * WorkbenchLock) ConfigError :=
  let base := from_configuration "resolved-base" (su_resolved self) in
  let? resolved := match overrides with
    | Some overrides =>
        let? document := ok_or (overrides_yaml overrides) (CErr_Syntax "overrides") in
        let? layer := layer_from_value "session" document in
        ConfigMerge.resolve [base; layer]
    | None => ConfigMerge.resolve [base]
    end in
  let configuration := rc_configuration resolved in
  let? _ := reject_adapter_executable_overrides (su_resolved self) configuration in
  let? _ := lock_verify_configured_executables (su_base_lock self) configuration in
  let sources := su_sources self ++ (if is_some overrides then ["session"] else []) in
  let snapshot := snapshot_create config_json blake3_hex configuration sources in
  let? lock := lock_session config_json blake3_hex (su_base_lock self) configuration snapshot in
  let? _ := lock_verify_linked_to config_json blake3_hex lock (su_base_lock self) in
  Ok (resolved, snapshot, lock).

(** ** Caches *)

Definition remember (sid : Uuid) (configuration : WorkbenchConfiguration) (lock : WorkbenchLock)
    (workflow : option string) : AM StorageError unit :=
  st_modify (λ a,
    set_caches (<[sid := configuration]> (ap_session_configs a))
      (<[sid := lock]> (ap_pinned_locks a)) ({[sid]} ∪ ap_known_sessions a)
      (match workflow with
       | Some w => <[sid := w]> (ap_session_workflows a)
       | None => ap_session_workflows a
       end) a).

(** What [hydrate_stored_session] reads from the stored documents. *)
Definition stored_configuration (stored : StoredSession)
    : Result (WorkbenchConfiguration * WorkbenchLock) StorageError :=
  let serde {A} (r : Result A DecodeError) := map_err (λ _, SE_StorageUnavailable) r in
  let? snapshot := serde (dec ConfigurationSnapshot_codec (ss_configuration_snapshot stored)) in
  if negb (ConfigPreflight.cs_schema_version snapshot =? 1)%N
  then Err (SE_InvalidInput "persisted configuration snapshot version is unsupported")
  else
    let? configuration := serde (dec WorkbenchConfiguration_codec (cs_configuration snapshot)) in
    let? lock := serde (dec WorkbenchLock_codec (ss_lock_snapshot stored)) in
    let? _ := map_err (λ _, SE_InvalidInput "persisted session lock is invalid")
      (lock_verify lock) in
    if String.eqb (lc_resolved_hash (wl_configuration lock)) (cs_content_hash snapshot)
    then Ok (configuration, lock) else Err SE_AuthenticationFailed.

(** [hydrate_stored_session]; a replay that fails only leaves the workflow unknown. *)
Definition hydrate_stored_session (stored : StoredSession) : AM StorageError unit :=
  let! pinned := lift (stored_configuration stored) in
  let! _ := remember (ss_session_id stored) pinned.1 pinned.2 None in
  let! history := st_try (backend (be_replay (ss_session_id stored) 0)) in
  match history with
  | Ok history =>
      match session_workflow_id history with
      | Some w => remember (ss_session_id stored) pinned.1 pinned.2 (Some w)
      | None => st_ret tt
      end
  | Err _ => st_ret tt
  end.

Definition evict_session (sid : Uuid) : AM StorageError unit :=
  st_modify (λ a,
    set_caches (delete sid (ap_session_configs a)) (delete sid (ap_pinned_locks a))
      (ap_known_sessions a ∖ {[sid]}) (delete sid (ap_session_workflows a)) a).

Definition session_has_workflow {E} (sid : Uuid) : AM E bool :=
  st_gets (λ a, Ok (is_some (ap_session_workflows a !! sid))).

Definition session_configuration (sid : Uuid) : AM DaemonError WorkbenchConfiguration :=
  let! cached := st_gets (λ a, Ok (ap_session_configs a !! sid)) in
  match cached with
  | Some configuration => st_ret configuration
  | None =>
      let! stored := storage (be_load_session sid) in
      let! _ := convert from_storage_error (hydrate_stored_session stored) in
      st_gets (λ a, ok_or (ap_session_configs a !! sid) (ST_Error DE_StorageUnavailable))
  end.

(** ** Histories, outcomes and appends *)

Definition history (sid : Uuid) : AM DaemonError (list StoredEvent) :=
  let! events := storage (be_replay sid 0) in
  let! _ := st_modify (λ a, set_caches (ap_session_configs a) (ap_pinned_locks a)
    ({[sid]} ∪ ap_known_sessions a) (ap_session_workflows a) a) in
  st_ret events.

Definition current_session_state (sid : Uuid) : AM DaemonError WireState :=
  let! state := storage (be_load_session_state sid) in
  lift (parse_session_state state).

Definition cached_outcome (sid request : Uuid) (method : string) (parameters : Value)
    : AM DaemonError (option Value) :=
  storage (be_lookup_command_outcome (Some sid) request method parameters).

Definition record_outcome (sid request : Uuid) (method : string) (parameters outcome : Value)
    : AM DaemonError Value :=
  let! recorded := storage (be_record_command_outcome sid request method parameters outcome) in
  match recorded with CMD_Recorded value | CMD_Replay value => st_ret value end.

(** [Application::append] *)
Definition append (sid : Uuid) (request : option Uuid) (kind : EventKind) (payload : Value)
    (attempt : option Uuid) (effect_class : option string) : AM DaemonError SessionEvent :=
  let! event_id := new_id in
  let! occurred_at := now_utc in
  let! persisted := storage (be_append_event
    {| ei_event_id := event_id; ei_session_id := sid; ei_occurred_at := occurred_at;
       ei_kind := event_kind_name kind; ei_causation_request_id := request;
       ei_attempt_id := attempt; ei_effect_class := effect_class; ei_payload := payload |}) in
  let! event := lift (protocol_event persisted) in
  let! _ := publish_event event in
  st_ret event.

Definition publish_stored (e : StoredEvent) : AM DaemonError unit :=
  let! event := lift (protocol_event e) in publish_event event.

(** [Application::commit_command_events] *)
Definition commit_events (request : Uuid) (method : string) (parameters outcome : Value)
    (events : list EventInput) : AM DaemonError (Value * bool) :=
  let! committed := storage (be_commit_command_events request method parameters outcome events) in
  match committed with
  | CES_Recorded persisted outcome =>
      let! _ := st_for publish_stored persisted in st_ret (outcome, false)
  | CES_Replay value => st_ret (value, true)
  end.

(** [Application::commit_command_event] *)
Definition commit_event (sid request : Uuid) (method : string) (parameters outcome : Value)
    (kind : EventKind) (payload : Value) (attempt : option Uuid) (effect_class : option string)
    : AM DaemonError (Value * bool) :=
  let! event_id := new_id in
  let! occurred_at := now_utc in
  let! committed := storage (be_commit_command_event request method parameters outcome
    (command_event event_id sid request occurred_at kind payload attempt effect_class)) in
  match committed with
  | CEO_Recorded event outcome =>
      let! _ := publish_stored event in st_ret (outcome, false)
  | CEO_Replay value => st_ret (value, true)
  end.

(** [command_event] and [dispatch_events], drawing their identifiers *)
Definition new_event (sid request : Uuid) (occurred_at : OffsetDateTime) (kind : EventKind)
    (payload : Value) (attempt : option Uuid) (effect_class : option string)
    : AM DaemonError EventInput :=
  let! event_id := new_id in
  st_ret (command_event event_id sid request occurred_at kind payload attempt effect_class).

Definition new_dispatch (sid request : Uuid) (occurred_at : OffsetDateTime) (attempt : Uuid)
    (predecessor : option Uuid) : AM DaemonError (list EventInput) :=
  let! first := new_id in
  let! second := new_id in
  st_ret (dispatch_events first second sid request occurred_at attempt predecessor).

Definition new_terminal_payload (summary : string) : AM DaemonError Value :=
  let! correlation := new_id in st_ret (terminal_payload summary correlation).

(** ** Provider executions *)

Definition record_provider_failure (sid request attempt : Uuid) (failure : ProviderFailure)
    : AM DaemonError unit :=
  let! state := current_session_state sid in
  if pf_definite failure && negb (bool_decide (state = WS_CancelRequested)) then
    let! payload := new_terminal_payload (pf_user_safe_message failure) in
    let! _ := append sid (Some request) EK_SessionFailed payload (Some attempt) PAID in
    st_ret tt
  else
    let! _ := append sid (Some request) EK_OutcomeUnknown
      (unknown_payload attempt (pf_user_safe_message failure)) (Some attempt) PAID in
    st_ret tt.

Definition activate_fake_attempt (sid request attempt : Uuid) : AM DaemonError unit :=
  let! _ := insert_active sid (execution attempt request AB_Fake) in
  spawn (TK_Fake sid).

Definition adapter_unavailable : ProviderFailure :=
  {| pf_category := FC_CapabilityUnavailable;
     pf_user_safe_message := "configured provider adapter is unavailable"; pf_definite := true |}.

(** [adapter.start_session().await], and a failure recorded. *)
Definition start_adapter (sid request attempt : Uuid) (provider : ProviderId)
    : AM DaemonError (option ProviderSessionHandle) :=
  if negb (has_adapter provider) then
    let! _ := record_provider_failure sid request attempt adapter_unavailable in st_ret None
  else
    let! _ := log_call (PC_Start sid attempt provider) in
    let! started := draw_with (λ n, provider_start n provider) in
    match started with
    | Ok handle => st_ret (Some handle)
    | Err failure =>
        let! _ := record_provider_failure sid request attempt failure in st_ret None
    end.

Definition provider_kind (configuration : WorkbenchConfiguration) (provider : ProviderId)
    : Result ProviderType DaemonError :=
  ok_or (pr_kind <$> bt_get provider (cf_providers configuration)) DE_CapabilityUnavailable.

Definition new_prompt (sid attempt : Uuid) (runtime_model prompt : string)
    : Result ProviderPrompt DaemonError :=
  let? content := map_err (λ _, DE_InvalidRequest "prompt text must not be empty")
    (NonEmptyText_parse prompt) in
  Ok {| pp_session_id := sid; pp_attempt_id := attempt; pp_runtime_model := runtime_model;
        pp_content := content |}.

(** [activate_attempt] *)
Definition activate_attempt (sid request attempt : Uuid) (provider : ProviderId)
    (runtime_model prompt : string) : AM DaemonError unit :=
  let! configuration := session_configuration sid in
  let! kind := lift (provider_kind configuration provider) in
  if bool_decide (kind = PT_Fake) then activate_fake_attempt sid request attempt
  else
    let! started := start_adapter sid request attempt provider in
    match started with
    | None => st_ret tt
    | Some handle =>
        let! prompt := lift (new_prompt sid attempt runtime_model prompt) in
        let active := execution attempt request (AB_Provider provider handle) in
        if bool_decide (kind = PT_SubscriptionCli) then
          let! _ := insert_active sid active in
          spawn (TK_Activate sid attempt provider handle prompt)
        else
          let! _ := log_call (PC_Prompt sid attempt provider) in
          let! streaming := draw_with (λ n, provider_prompt n provider handle prompt) in
          match streaming with
          | Ok _ => let! _ := insert_active sid active in spawn (TK_Stream sid attempt)
          | Err failure => record_provider_failure sid request attempt failure
          end
    end.

(** [workflow_route_target] *)
Definition workflow_route_target (sid : Uuid) (events : list StoredEvent)
    : AM DaemonError (option WorkflowRouteTarget) :=
  match session_workflow_id events with
  | None => st_ret None
  | Some wid =>
      let! config := session_configuration sid in
      let! run := match recover_run events with
        | Some existing => st_ret existing
        | None =>
            let! run_id := new_id in
            lift (map_err (λ _, DE_InvalidRequest "workflow could not be started from configuration")
                    (result_map fst (start_run config wid run_id)))
        end in
      if phase_is_terminal (phase run) then st_ret None
      else
        let! workflow := lift (ok_or (bt_get wid (cf_workflows config))
          (DE_InvalidRequest "workflow is not configured")) in
        let! step := lift (ok_or (active_step workflow run)
          (DE_InvalidRequest "workflow active step is missing")) in
        st_ret (Some {| wt_run := run; wt_role := ws_role step;
                        wt_context := {| wc_role := ws_role step; wc_step_tools := ws_tools step;
                                         wc_fallbacks := ws_fallbacks step |} |})
  end.

(** [plan_route] on the session's configuration *)
Definition session_route (sid : Uuid) (explicit_target workflow_role : option string)
    (context : option WorkflowRouteContext) : AM DaemonError RouteDecision :=
  let! config := session_configuration sid in
  let! catalog := st_gets (λ a, Ok (ap_provider_catalog a)) in
  match plan_route catalog config explicit_target workflow_role context with
  | None => st_err ST_Panic
  | Some decision => lift decision
  end.
End app.
