(* ===== verification/DaemonHandlers.v ===== *)
(** * DaemonHandlers: the protocol commands (workbench-daemon/src/application.rs)

    One definition for each [handle_*] method and for [dispatch]. A command that was
    answered before is answered from its recorded outcome; what a command decides is
    committed with its outcome in one transaction before anything is done about it. *)

From stdpp Require Import sorting.
From S2P Require Import StorageKeys StorageTables StorageDb StorageDisk StorageExport.
From S2P Require Import Prelude StateResult Text BTree Errors Value Attempt Policy Routing.
From S2P Require Import Event Workflow Ports Json Wire ProtoCommand ProtoReply Subscription.
From S2P Require Import ConfigModel ConfigValidate ConfigMerge ConfigPreflight FileSystem ConfigLock.
From S2P Require Import StorageKeys StorageTables StorageDb.
From S2P Require Import DaemonModel DaemonWorkflow DaemonHub DaemonBackend DaemonApp.

Section handlers.
Context `{StorageEnv} `{DaemonEnv} `{FileSystem} {S : Type} `{StorageBackend S} `{ExportBackend S}.

Definition AD (A : Type) : Type := AM (S := S) DaemonError A.

(** [success(result)] *)
Definition encode {A} (c : (Uuid → string) → (string → option Uuid) → Codec A) (a : A) : Value :=
  to_value (c uuid_text uuid_parse) a.

(** ** Commands without a session *)

Definition handle_initialize (params : InitializeParams) : AD Value :=
  if existsb (String.eqb PROTOCOL_V1) (supported_protocols params)
  then st_ret (to_value InitializeResult_codec
         {| ir_selected_protocol := PV_V1; ir_max_frame_bytes := 8388608;
            ir_max_client_queue_events := 1024; ir_max_client_queue_bytes := 8388608 |})
  else fail DE_UnsupportedVersion.

(** The status of one entry of the catalog. *)
Definition adapter_health (entry : string * PreflightCapabilities) : AD AdapterHealth :=
  let! live :=
    if bool_decide (pf_authentication entry.2 = AS_Available) then
      match Identifier_parse entry.1 with
      | Ok provider =>
          if has_adapter provider then draw_with (λ n, provider_available n provider)
          else st_ret false
      | Err _ => st_ret false
      end
    else st_ret false in
  st_ret {| ah_id := entry.1; ah_status := if live then AH_Available else AH_Unavailable |}.

Definition health_le (a b : AdapterHealth) : Prop := text_le (ah_id a) (ah_id b).

#[local] Instance health_le_dec : RelDecision health_le.
Proof. unfold health_le. intros a b. apply _. Defined.

Definition has_fake_provider (config : WorkbenchConfiguration) : bool :=
  existsb (λ '(name, provider), String.eqb name "fake" && bool_decide (pr_kind provider = PT_Fake))
    (cf_providers config).

Definition handle_status : AD Value :=
  let! app := st_get in
  let! adapters := st_map adapter_health (ap_provider_catalog app) in
  let adapters :=
    if has_fake_provider (su_resolved (ap_startup app))
       && negb (existsb (λ h, String.eqb (ah_id h) "fake") adapters)
    then adapters ++ [{| ah_id := "fake"; ah_status := AH_Available |}] else adapters in
  st_ret (to_value StatusResult_codec
    {| sr_daemon_version := DAEMON_VERSION; sr_protocol := PV_V1;
       sr_storage_schema_version := 1; sr_key_store := KS_Available; sr_migration := MS_Ready;
       sr_active_sessions := N.of_nat (size (ap_known_sessions app));
       sr_adapters := merge_sort health_le adapters |}).

(** Loads and hydrates a session. *)
Definition hydrate (sid : Uuid) : AD unit :=
  let! stored := storage (be_load_session sid) in
  convert from_storage_error (hydrate_stored_session stored).

Definition handle_create (request : Uuid) (params : CreateSessionParams) : AD Value :=
  let parameters := to_value CreateSessionParams_codec params in
  let! cached := storage (be_lookup_command_outcome None request "session.create" parameters) in
  match cached with
  | Some outcome =>
      let! sid := lift (uuid_field outcome "session_id") in
      let! deleted := storage (be_is_deleted sid) in
      let! _ := if deleted then st_ret tt else hydrate sid in
      st_ret outcome
  | None =>
      let! startup := st_gets (λ a, Ok (ap_startup a)) in
      let! session := lift (map_err from_config_error
        (resolve_session startup (configuration_overrides params))) in
      let '(resolved, snapshot, lock) := session in
      let known := match workflow params with
        | Some w => bt_contains_key w (cf_workflows (rc_configuration resolved))
        | None => true
        end in
      if negb known then
        fail (DE_InvalidRequest "session workflow is not present in the resolved configuration")
      else
        let! sid := new_id in
        let hash := lock_hash config_json blake3_hex lock in
        let outcome := encode CreateSessionResult_codec
          {| cr_session_id := sid; cr_configuration_hash := cs_content_hash snapshot;
             cr_lock_hash := hash; cr_state := RS_Ready |} in
        let payload := VObject ([("configuration_hash", VString (cs_content_hash snapshot));
                                 ("lock_hash", VString hash)]
          ++ match workflow params with Some w => [("workflow_id", VString w)] | None => [] end) in
        let! occurred_at := now_utc in
        let! committed := storage (be_create_session
          {| StorageDb.cs_session_id := sid; cs_request_id := request;
             cs_occurred_at := occurred_at; cs_request_parameters := parameters;
             cs_command_outcome := outcome;
             cs_configuration_snapshot := to_value ConfigurationSnapshot_codec snapshot;
             cs_lock_snapshot := to_value WorkbenchLock_codec lock;
             cs_initial_event_payload := payload |}) in
        match committed with
        | CMD_Recorded value =>
            let! _ := convert from_storage_error
              (remember sid (rc_configuration resolved) lock (workflow params)) in
            st_ret value
        | CMD_Replay value =>
            let! replayed := lift (uuid_field value "session_id") in
            let! _ := hydrate replayed in
            st_ret value
        end
  end.

Definition session_summary (m : StoredSessionMetadata) : Result SessionSummary DaemonError :=
  let? state := parse_session_state (sm_state m) in
  Ok {| su_session_id := sm_session_id m; su_state := state;
        su_created_at := time_text (sm_created_at m);
        su_terminal_at := time_text <$> sm_terminal_at m |}.

Definition handle_list (params : ListSessionsParams) : AD Value :=
  let! page := storage (be_list_session_metadata (limit params) (before_session_id params)) in
  let! sessions := lift (try_collect session_summary (sp_sessions page)) in
  st_ret (encode ListSessionsResult_codec
    {| lr_sessions := sessions; lr_next_before_session_id := sp_next_before_session_id page |}).

(** ** Reading a session *)

Definition handle_get (sid : Uuid) : AD Value :=
  let! events := history sid in
  let! folded := lift (fold_session events) in
  st_ret (encode SessionResult_codec (session_result sid folded)).

Definition subscribe_session (sid : Uuid) (replay : list SessionEvent) : AD Uuid :=
  let! id := new_id in
  λ a, let '(hub, r) := subscribe encoded_len id sid replay (ap_subscriptions a) in
       (set_outside hub (ap_tasks a) (ap_calls a) (ap_draws a) a,
        map_err (λ e, ST_Error (from_subscription_error e)) (result_map (λ _, id) r)).

Definition handle_attach (sid : Uuid) (after_sequence : N) : AD (Value * Uuid) :=
  let! events := history sid in
  let! folded := lift (fold_session events) in
  let! replay := lift (try_collect protocol_event
    (List.filter (λ e, after_sequence <? se_sequence e)%N events)) in
  let! subscription := subscribe_session sid replay in
  st_ret (encode AttachSessionResult_codec
    {| at_session_id := sid; at_state := fs_state folded;
       at_replay_after_sequence := after_sequence;
       at_last_sequence := fs_last_sequence folded |}, subscription).

(** ** Prompts *)

(** The tail shared by the commands that commit and answer. *)
Definition commit_answer (request : Uuid) (method : string) (parameters outcome : Value)
    (events : list EventInput) : AD Value :=
  let! committed := commit_events request method parameters outcome events in
  lift (replay_command_outcome committed.1).

Definition new_failure (e : DaemonError) : AD Value :=
  let! correlation := new_id in st_ret (durable_failure e correlation).

Definition blank_line : string := String "010" (String "010" EmptyString).

(** The prompt a dispatch sends, with the latest redirection. *)
Definition with_redirect (prompt : string) (events : list StoredEvent) : string :=
  match latest_redirect_instruction events with
  | Some instruction =>
      prompt +:+ blank_line +:+ "Redirect: " +:+ instruction
  | None => prompt
  end.

(** The arm [RouteDecision::Selected] of [handle_prompt]. *)
Definition prompt_selected (sid request : Uuid) (parameters outcome : Value) (now : OffsetDateTime)
    (text : string) (past : list StoredEvent) (target : option WorkflowRouteTarget)
    (events : list EventInput) (plan : RoutingPlan) (permission : DefaultToolMode) : AD Value :=
  let payload := match target with
    | Some target => enrich_workflow_routing (routing_payload plan) (wt_run target)
    | None => routing_payload plan
    end in
  let! planned := new_event sid request now EK_RoutingPlanned (VObject payload) None None in
  let events := events ++ [planned] in
  match permission with
  | DM_Denied =>
      let! failure := new_failure DE_PolicyDenied in
      commit_answer request "session.prompt" parameters failure events
  | DM_ApprovalRequired =>
      let! approval := new_id in
      let! requested := new_event sid request now EK_ApprovalRequested
        (VObject [("action", VString "provider.prompt"); ("approval_id", uuid_value approval);
                  ("risk", VString "medium"); ("scope", text_array ["provider"])]) None None in
      commit_answer request "session.prompt" parameters outcome (events ++ [requested])
  | DM_ReadOnly =>
      let! attempt := new_id in
      let! dispatch := new_dispatch sid request now attempt None in
      let! committed := commit_events request "session.prompt" parameters outcome
        (events ++ dispatch) in
      let! _ := if committed.2 then st_ret tt
        else activate_attempt sid request attempt (rd_provider (rp_destination plan))
               (rd_runtime_model (rp_destination plan)) (with_redirect text past) in
      lift (replay_command_outcome committed.1)
  end.

Definition handle_prompt (sid request : Uuid) (params : PromptParams) : AD Value :=
  let parameters := to_value PromptParams_codec params in
  let! cached := cached_outcome sid request "session.prompt" parameters in
  match cached with
  | Some outcome => lift (replay_command_outcome outcome)
  | None =>
      let! past := history sid in
      let! folded := lift (fold_session past) in
      if negb (bool_decide (fs_state folded = WS_Ready)) then fail DE_InvalidTransition
      else
        let! input_id := new_id in
        if (u64_max <=? fs_last_sequence folded)%N then fail DE_Internal
        else
          let outcome := encode PromptResult_codec
            {| pr_input_id := input_id; pr_sequence := fs_last_sequence folded + 1 |} in
          let! now := now_utc in
          let! input := new_event sid request now EK_InputRecorded
            (VObject [("content", VString (text params)); ("input_id", uuid_value input_id)])
            None None in
          let! target := workflow_route_target sid past in
          let! started := match target, recover_run past with
            | Some target, None =>
                let! e := new_event sid request now EK_WorkflowTransition
                  (transition_payload (wt_run target) "started") None None in
                st_ret [e]
            | _, _ => st_ret []
            end in
          let events := input :: started in
          let! decision := session_route sid (explicit_target params) (wt_role <$> target)
            (wt_context <$> target) in
          match decision with
          | RD_CapabilityUnavailable _ =>
              let! failure := new_failure DE_CapabilityUnavailable in
              commit_answer request "session.prompt" parameters failure events
          | RD_Clarification reason _ =>
              let! question := new_event sid request now EK_ClarificationRequested
                (VObject [("question",
                            VString "Which configured role should execute this prompt?");
                          ("reason", VString reason)]) None None in
              commit_answer request "session.prompt" parameters outcome (events ++ [question])
          | RD_Selected plan permission =>
              prompt_selected sid request parameters outcome now (text params) past target events
                plan permission
          end
  end.

(** ** Controls *)

Definition empty_parameters : Value := VObject [].

Definition control_outcome (control_id : Uuid) (control : Control) (state : WireState) : Value :=
  encode ControlResult_codec
    {| co_control_id := control_id; co_control := control; co_state := state |}.

(** The workflow run of a paused session is paused with it, if it can be. *)
Definition pause_run (sid request : Uuid) : AD unit :=
  let! has_workflow := session_has_workflow sid in
  if has_workflow then
    let! events := history sid in
    match recover_run events with
    | Some run =>
        if phase_is_terminal (phase run) then st_ret tt
        else
          let! _ := st_try (E := Stop DaemonError) (append sid (Some request) EK_WorkflowTransition
            (transition_payload (Workflow.pause run).1 "paused") None None) in
          st_ret tt
    | None => st_ret tt
    end
  else st_ret tt.

Definition handle_pause (sid request : Uuid) (context : ClientContext) : AD Value :=
  let! cached := cached_outcome sid request "session.pause" empty_parameters in
  match cached with
  | Some outcome => lift (replay_command_outcome outcome)
  | None =>
      let! state := current_session_state sid in
      if bool_decide (state = WS_Paused) || bool_decide (state = WS_Pausing) then
        record_outcome sid request "session.pause" empty_parameters
          (control_outcome request CN_Pause WS_Paused)
      else if negb (bool_decide (state = WS_Running)) then fail DE_InvalidTransition
      else
        let! active := get_active sid in
        if match active with Some e => negb (execution_is_fake e) | None => false end
        then fail DE_CapabilityUnavailable
        else
          let! control_id := new_id in
          let outcome := control_outcome control_id CN_Pause WS_Paused in
          let! now := now_utc in
          let payload := control_payload control_id context None in
          let! requested := new_event sid request now EK_PauseRequested payload None None in
          let! paused := new_event sid request now EK_SessionPaused payload None None in
          let! committed := commit_events request "session.pause" empty_parameters outcome
            [requested; paused] in
          let! _ := pause_run sid request in
          lift (replay_command_outcome committed.1)
  end.

(** The session's lock is held by the caller and awaited again: neither the command
    nor any later one of the session proceeds. *)
Definition block {A} (sid : Uuid) : AD A :=
  λ a, (set_lifecycle (ap_shutting_down a) ({[sid]} ∪ ap_blocked a) a, Err ST_Blocked).

Definition resumable (run : WorkflowRun) : bool :=
  match phase run with WP_Paused | WP_AwaitingHuman => true | _ => false end.

(** The workflow part of [handle_resume]. [dispatch_workflow_step] begins by taking the
    lock of the session, which [dispatch] holds. *)
Definition resume_run (sid request : Uuid) : AD unit :=
  let! has_workflow := session_has_workflow sid in
  if has_workflow then
    let! events := history sid in
    match recover_run events with
    | Some run =>
        if resumable run then
          let run := (Workflow.resume run).1 in
          let! _ := append sid (Some request) EK_WorkflowTransition
            (transition_payload run "resumed") None None in
          let! active := get_active sid in
          if permits_dispatch (phase run) && negb (is_some active) then block sid else st_ret tt
        else st_ret tt
    | None => st_ret tt
    end
  else st_ret tt.

Definition handle_resume (sid request : Uuid) (context : ClientContext) : AD Value :=
  let! cached := cached_outcome sid request "session.resume" empty_parameters in
  match cached with
  | Some outcome => st_ret outcome
  | None =>
      let! state := current_session_state sid in
      if bool_decide (state = WS_Running) then
        record_outcome sid request "session.resume" empty_parameters
          (control_outcome request CN_Resume WS_Running)
      else if negb (bool_decide (state = WS_Paused)) then fail DE_InvalidTransition
      else
        let! control_id := new_id in
        let! committed := commit_event sid request "session.resume" empty_parameters
          (control_outcome control_id CN_Resume WS_Running) EK_SessionResumed
          (control_payload control_id context None) None None in
        if committed.2 then st_ret committed.1
        else
          let! _ := resume_run sid request in
          let! active := get_active sid in
          let! _ := if match active with Some e => execution_is_fake e | None => false end
                    then spawn (TK_Fake sid) else st_ret tt in
          st_ret committed.1
  end.

Definition handle_redirect (sid request : Uuid) (context : ClientContext) (instruction : string)
    : AD Value :=
  let parameters := to_value RedirectParams_codec instruction in
  let! cached := cached_outcome sid request "session.redirect" parameters in
  match cached with
  | Some outcome => st_ret outcome
  | None =>
      let! events := history sid in
      let! folded := lift (fold_session events) in
      let clarifying := bool_decide (fs_state folded = WS_AwaitingClarification) in
      if negb (clarifying || bool_decide (fs_state folded = WS_Paused))
      then fail DE_InvalidTransition
      else
        let! control_id := new_id in
        let! committed := commit_event sid request "session.redirect" parameters
          (control_outcome control_id CN_Redirect (if clarifying then WS_Ready else WS_Paused))
          EK_SessionRedirected (control_payload control_id context (Some instruction)) None None in
        st_ret committed.1
  end.

Definition handle_cancel (sid request : Uuid) (context : ClientContext) : AD Value :=
  let! cached := cached_outcome sid request "session.cancel" empty_parameters in
  match cached with
  | Some outcome =>
      let! events := history sid in
      let! folded := lift (fold_session events) in
      let! _ := if bool_decide (fs_state folded = WS_CancelRequested) then
          let! control_id := lift (uuid_field outcome "control_id") in
          spawn (TK_Cancel sid request control_id (latest_started_attempt events))
        else st_ret tt in
      lift (replay_command_outcome outcome)
  | None =>
      let! events := history sid in
      let! folded := lift (fold_session events) in
      if wire_terminal (fs_state folded) || bool_decide (fs_state folded = WS_Deleting)
      then fail DE_InvalidTransition
      else
        let! control_id := new_id in
        let! active := get_active sid in
        let attempt := match active with
          | Some e => Some (ae_attempt_id e)
          | None => latest_started_attempt events
          end in
        let outcome := control_outcome control_id CN_Cancel
          (if is_some attempt then WS_CancelRequested else WS_Cancelled) in
        let! now := now_utc in
        let! requested := new_event sid request now EK_CancelRequested
          (control_payload control_id context None) None None in
        let! confirmation := if is_some attempt then st_ret []
          else
            let! confirmed := new_event sid request now EK_CancelConfirmed
              (VObject [("control_id", uuid_value control_id)]) None None in
            let! payload := new_terminal_payload "cancelled before any external attempt started" in
            let! cancelled := new_event sid request now EK_SessionCancelled payload None None in
            st_ret [confirmed; cancelled] in
        let! committed := commit_events request "session.cancel" empty_parameters outcome
          (requested :: confirmation) in
        let! _ := if negb committed.2 && is_some attempt
          then spawn (TK_Cancel sid request control_id attempt) else st_ret tt in
        lift (replay_command_outcome committed.1)
  end.

(** ** Approvals *)

Definition decision_state (d : ApprovalDecision) : WireState :=
  match d with AD_Grant => WS_Running | AD_Deny => WS_Paused end.

Definition approval_outcome (params : ApprovalParams) (state : WireState) : Value :=
  encode ApprovalResult_codec
    {| ao_approval_id := ap_approval_id params; ao_decision := ap_decision params;
       ao_state := state |}.

(** Activates an attempt with the provider and the prompt its history names. *)
Definition activate_recorded (sid causation attempt : Uuid) (events : list StoredEvent) : AD unit :=
  let! context := lift (provider_execution_context events causation) in
  activate_attempt sid causation attempt (px_provider context) (px_runtime_model context)
    (px_prompt context).

(** A repeated grant whose attempt was never activated activates it. *)
Definition reactivate_granted (sid request : Uuid) : AD unit :=
  let! events := history sid in
  let! folded := lift (fold_session events) in
  let! active := get_active sid in
  match bool_decide (fs_state folded = WS_Running), latest_started_attempt events, active with
  | true, Some attempt, None =>
      let causation := default request
        (find_last (is_kind "dispatch_started") events ≫= se_causation_request_id) in
      activate_recorded sid causation attempt events
  | _, _, _ => st_ret tt
  end.

Definition handle_approval (sid request : Uuid) (context : ClientContext) (params : ApprovalParams)
    : AD Value :=
  let method := "session.approval.resolve" in
  let parameters := encode ApprovalParams_codec params in
  let! cached := cached_outcome sid request method parameters in
  match cached with
  | Some outcome =>
      let! _ := if bool_decide (ap_decision params = AD_Grant) then reactivate_granted sid request
                else st_ret tt in
      lift (replay_command_outcome outcome)
  | None =>
      let! events := history sid in
      let! folded := lift (fold_session events) in
      match fs_approval_decisions folded !! ap_approval_id params with
      | Some recorded =>
          if bool_decide (recorded ≠ ap_decision params) then fail DE_InvalidTransition
          else record_outcome sid request method parameters
                 (approval_outcome params (decision_state recorded))
      | None =>
          if negb (bool_decide (fs_state folded = WS_AwaitingApproval))
             || negb (bool_decide (fs_pending_approval_id folded = Some (ap_approval_id params)))
          then fail DE_InvalidTransition
          else
            let outcome := approval_outcome params (decision_state (ap_decision params)) in
            let! now := now_utc in
            let! recorded := new_event sid request now EK_ApprovalRecorded
              (VObject [("actor", VString (actor context));
                        ("approval_id", uuid_value (ap_approval_id params));
                        ("decision", enc ApprovalDecision_codec (ap_decision params))])
              None None in
            match ap_decision params with
            | AD_Grant =>
                let causation := default request (fs_pending_request_id folded) in
                let! attempt := new_id in
                let! dispatch := new_dispatch sid causation now attempt None in
                let! committed := commit_events request method parameters outcome
                  (recorded :: dispatch) in
                let! _ := if committed.2 then st_ret tt
                  else
                    let! events := history sid in
                    activate_recorded sid causation attempt events in
                lift (replay_command_outcome committed.1)
            | AD_Deny =>
                let! control_id := new_id in
                let! paused := new_event sid request now EK_SessionPaused
                  (control_payload control_id context None) None None in
                commit_answer request method parameters outcome [recorded; paused]
            end
      end
  end.

(** ** Reconciliation *)

Definition resolution_state (r : ReconciliationResolution) : WireState :=
  match r with
  | RR_Retry => WS_Running
  | RR_AcceptResult => WS_Completed
  | RR_Abandon => WS_Abandoned
  end.

Definition reconciled_payload (params : ReconciliationParams) (replacement : option Uuid) : Value :=
  VObject [("attempt_id", uuid_value (rp_attempt_id params));
           ("evidence_recorded", VBool (is_some (rp_evidence params)));
           ("replacement_attempt_id", option_value uuid_value replacement);
           ("resolution", enc ReconciliationResolution_codec (rp_resolution params))].

Definition handle_reconcile (sid request : Uuid) (params : ReconciliationParams) : AD Value :=
  let method := "session.reconcile" in
  let parameters := encode ReconciliationParams_codec params in
  let! cached := cached_outcome sid request method parameters in
  match cached with
  | Some outcome => lift (replay_command_outcome outcome)
  | None =>
      let! events := history sid in
      let! folded := lift (fold_session events) in
      if negb (bool_decide (fs_state folded = WS_OutcomeUnknown))
         || negb (bool_decide (fs_uncertain_attempt_id folded = Some (rp_attempt_id params)))
      then fail DE_InvalidTransition
      else
        let! replacement := match rp_resolution params with
          | RR_Retry => let! id := new_id in st_ret (Some id)
          | _ => st_ret None
          end in
        let outcome := encode ReconciliationResult_codec
          {| ProtoReply.ro_attempt_id := rp_attempt_id params;
             ro_resolution := rp_resolution params; ro_replacement_attempt_id := replacement;
             ro_state := resolution_state (rp_resolution params) |} in
        let! now := now_utc in
        let! reconciled := new_event sid request now EK_OutcomeReconciled
          (reconciled_payload params replacement) (Some (rp_attempt_id params)) None in
        let settle kind summary :=
          let! payload := new_terminal_payload summary in
          let! e := new_event sid request now kind payload (Some (rp_attempt_id params)) None in
          commit_answer request method parameters outcome [reconciled; e] in
        match rp_resolution params with
        | RR_Retry =>
            let! attempt := lift (ok_or replacement DE_Internal) in
            let! dispatch := new_dispatch sid request now attempt (Some (rp_attempt_id params)) in
            let! committed := commit_events request method parameters outcome
              (reconciled :: dispatch) in
            let! _ := if committed.2 then st_ret tt
              else
                let! events := history sid in
                activate_recorded sid request attempt events in
            lift (replay_command_outcome committed.1)
        | RR_AcceptResult => settle EK_SessionCompleted "result accepted by human reconciliation"
        | RR_Abandon => settle EK_SessionAbandoned "execution abandoned by human reconciliation"
        end
  end.

(** ** Export and deletion *)

Definition handle_export (sid request : Uuid) (params : ExportParams) : AD Value :=
  let parameters := to_value ExportParams_codec params in
  let! cached := cached_outcome sid request "session.export" parameters in
  match cached with
  | Some outcome => st_ret outcome
  | None =>
      let! events := history sid in
      let! _ := lift (fold_session events) in
      let! export_id := new_id in
      let! fingerprints := lift (map_err from_storage_error
        (recipient_fingerprints (age_recipients params))) in
      let outcome := encode ExportResult_codec
        {| xo_export_id := export_id; xo_format := XF_AgeV1;
           xo_recipient_fingerprints := fingerprints |} in
      let! occurred_at := now_utc in
      let! committed := storage (be_execute_export
        {| xc_session_id := sid; xc_request_id := request; xc_export_id := export_id;
           xc_occurred_at := occurred_at; xc_parameters := parameters;
           xc_output_path := output_path params; xc_age_recipients := age_recipients params;
           xc_outcome := outcome;
           xc_event_payload := VObject [("export_id", uuid_value export_id);
             ("format", VString "age-v1"); ("recipient_fingerprints", text_array fingerprints)] |}) in
      match committed with
      | CEO_Recorded event outcome => let! _ := publish_stored event in st_ret outcome
      | CEO_Replay outcome => st_ret outcome
      end
  end.

Definition purge_subscriptions {E} (sid : Uuid) : AM (S := S) E unit :=
  st_modify (λ a, set_outside (purge_session sid (ap_subscriptions a)) (ap_tasks a) (ap_calls a)
                    (ap_draws a) a).

Definition delete_answer (deletion_id : Uuid) : Value :=
  encode DeleteResult_codec {| do_deletion_id := deletion_id; do_state := DS_Deleted |}.

Definition handle_delete (sid request : Uuid) (context : ClientContext) (confirm : Uuid) : AD Value :=
  if negb (bool_decide (confirm = sid))
  then fail (DE_InvalidRequest "delete confirmation does not match session")
  else
    let parameters := encode DeleteParams_codec confirm in
    let! cached := cached_outcome sid request "session.delete" parameters in
    match cached with
    | Some outcome =>
        let! deletion_id := lift (uuid_field outcome "deletion_id") in
        st_ret (delete_answer deletion_id)
    | None =>
        let! events := history sid in
        let! folded := lift (fold_session events) in
        if negb (wire_terminal (fs_state folded)) then fail DE_InvalidTransition
        else
          let! deletion_id := new_id in
          if (u64_max <=? fs_last_sequence folded + 1)%N then fail DE_Internal
          else
            let! _ := storage (be_ensure_session_deletable sid) in
            let! occurred_at := now_utc in
            let! summary := storage
              (be_request_deletion sid deletion_id request occurred_at (actor context)) in
            let! _ := delete_active sid in
            let! _ := convert from_storage_error (evict_session sid) in
            let! _ := purge_subscriptions sid in
            let! event_id := new_id in
            let! at_time := now_utc in
            let! _ := publish_event
              {| sev_protocol := PROTOCOL_V1; sev_event_id := event_id; sev_session_id := sid;
                 sev_sequence := fs_last_sequence folded + 2;
                 sev_causation_request_id := Some request; sev_kind := EK_SessionDeleted;
                 sev_occurred_at := time_text at_time;
                 sev_data := VObject [("deletion_id", uuid_value (ds_deletion_id summary));
                                      ("key_destroyed", VBool (ds_key_destroyed summary))] |} in
            st_ret (delete_answer (ds_deletion_id summary))
    end.

(** ** Dispatch *)

Definition plain (m : AD Value) : AD (Value * option Uuid) :=
  let! v := m in st_ret (v, None).

Definition dispatch_session (sid request : Uuid) (command : Command) (context : ClientContext)
    : AD (Value * option Uuid) :=
  match command with
  | SessionGet => plain (handle_get sid)
  | SessionAttach after_sequence =>
      let! attached := handle_attach sid after_sequence in
      st_ret (attached.1, Some attached.2)
  | SessionPrompt params => plain (handle_prompt sid request params)
  | SessionPause => plain (handle_pause sid request context)
  | SessionResume => plain (handle_resume sid request context)
  | SessionRedirect instruction => plain (handle_redirect sid request context instruction)
  | SessionCancel => plain (handle_cancel sid request context)
  | SessionApprovalResolve params => plain (handle_approval sid request context params)
  | SessionReconcile params => plain (handle_reconcile sid request params)
  | SessionExport params => plain (handle_export sid request params)
  | SessionDelete confirm => plain (handle_delete sid request context confirm)
  | _ => fail (DE_InvalidRequest "method is not valid for a session")
  end.

Definition dispatch_global (request : Uuid) (command : Command) : AD (Value * option Uuid) :=
  match command with
  | Initialize params => plain (handle_initialize params)
  | StatusGet => plain handle_status
  | SessionCreate params => plain (handle_create request params)
  | SessionList params => plain (handle_list params)
  | _ => fail (DE_InvalidRequest "session identifier is required")
  end.

Definition shutting_down : AD (Value * option Uuid) :=
  fail (DE_InvalidRequest "daemon is shutting down").

(** The handler of a command; [None]: the lock of its session is never released. *)
Definition handler (command : ClientCommand) (context : ClientContext) (a : Application S)
    : option (AD (Value * option Uuid)) :=
  if ap_shutting_down a then Some shutting_down
  else match cc_session_id command with
  | Some sid =>
      if bool_decide (sid ∈ ap_blocked a) then None
      else Some (dispatch_session sid (cc_request_id command) (cc_command command) context)
  | None => Some (dispatch_global (cc_request_id command) (cc_command command))
  end.

(** [DispatchResult]: the reply and the subscription it opened. *)
Definition DispatchResult : Type := ServerReply Value * option Uuid.

(** [dispatch]; [None]: no reply, since the handler panicked or blocked. *)
Definition dispatch (command : ClientCommand) (context : ClientContext) (a : Application S)
    : Application S * option DispatchResult :=
  let request := cc_request_id command in
  match handler command context a with
  | None => (a, None)
  | Some m =>
      match m a with
      | (a', Ok (value, subscription)) => (a', Some (Success request value, subscription))
      | (a', Err (ST_Error e)) =>
          let '(a'', correlation) := new_id (E := DaemonError) a' in
          match correlation with
          | Ok correlation => (a'', Some (Failure request (into_protocol e correlation), None))
          | Err _ => (a'', None)
          end
      | (a', Err _) => (a', None)
      end
  end.
End handlers.
