(* ===== verification/DaemonTasks.v ===== *)
(** * DaemonTasks: provider streams, workflows, cancellation and the daemon's lifecycle
      (workbench-daemon/src/application.rs)

    What spawned tasks do between the points where they wait, recovery at start-up,
    maintenance and shutdown. [astep] is one step of the daemon: a command, a task, or
    something that happens to it. *)

From S2P Require Import StorageKeys StorageTables StorageDb StorageDisk StorageExport.
From S2P Require Import Prelude StateResult Text BTree Errors Value Attempt Policy Routing.
From S2P Require Import Event Workflow Ports Json Wire ProtoCommand ProtoReply Subscription.
From S2P Require Import ConfigModel ConfigValidate ConfigMerge ConfigPreflight FileSystem ConfigLock.
From S2P Require Import StorageKeys StorageTables StorageDb.
From S2P Require Import DaemonModel DaemonWorkflow DaemonHub DaemonBackend DaemonApp DaemonHandlers.

Inductive ProviderOutputState : Type := OS_Streaming | OS_CancellationPending | OS_Terminal.

Definition MAX_RETENTION_DELETIONS_PER_PASS : nat := 64.

Section tasks.
Context `{StorageEnv} `{DaemonEnv} `{FileSystem} {S : Type} `{StorageBackend S} `{ExportBackend S}.

(** Methods that fail with the error of a command, or with that of the storage. *)
Definition TD (A : Type) : Type := AM (S := S) DaemonError A.
Definition AS (A : Type) : Type := AM (S := S) StorageError A.

Definition append_ (sid : Uuid) (request : option Uuid) (kind : EventKind) (payload : Value)
    (attempt : option Uuid) (effect_class : option string) : TD unit :=
  let! _ := append sid request kind payload attempt effect_class in st_ret tt.

(** ** Provider streams *)

Definition record_provider_output (sid : Uuid) (active : ActiveExecution) (output : ProviderOutput)
    : TD ProviderOutputState :=
  let request := Some (ae_request_id active) in
  let attempt := ae_attempt_id active in
  match output with
  | PO_Acknowledged provider_request_id =>
      let! _ := append sid request EK_DispatchAcknowledged
        (VObject [("attempt_id", uuid_value attempt);
                  ("provider_request_id", option_value VString provider_request_id)])
        (Some attempt) PAID in
      st_ret OS_Streaming
  | PO_Content event_type content =>
      let! _ := append sid request EK_ProviderEvent (output_payload attempt event_type content)
        (Some attempt) PAID in
      st_ret OS_Streaming
  | PO_Tool event_type content =>
      let! _ := append sid request EK_ToolEvent (output_payload attempt event_type content)
        (Some attempt) PAID in
      st_ret OS_Streaming
  | PO_Completed summary =>
      let! state := current_session_state sid in
      if bool_decide (state = WS_CancelRequested) then st_ret OS_CancellationPending
      else
        let! events := history sid in
        if is_some (session_workflow_id events) then st_ret OS_Terminal
        else
          let! payload := new_terminal_payload summary in
          let! _ := append sid request EK_SessionCompleted payload (Some attempt) PAID in
          st_ret OS_Terminal
  end.

(** An event with findings among those of an attempt. *)
Definition attempt_has_findings (attempt : Uuid) (events : list StoredEvent) : bool :=
  existsb (λ e, is_kind "provider_event" e && bool_decide (se_attempt_id e = Some attempt)
                && match value_str (se_payload e) "content" with
                   | Some content => content_has_findings content
                   | None => false
                   end) (rev events).

Definition is_completed (output : ProviderOutput) : bool :=
  match output with PO_Completed _ => true | _ => false end.

Definition stream_ended : ProviderFailure :=
  {| pf_category := FC_OutcomeUnknown;
     pf_user_safe_message := "provider stream ended without a definite terminal result";
     pf_definite := false |}.

(** One turn of the loop of [consume_provider_stream], or its end, on what the stream
    yields next. *)
Definition consume_item (sid attempt : Uuid)
    (item : option (Result ProviderOutput ProviderFailure)) : TD unit :=
  let! found := active_for_attempt sid attempt in
  match found with
  | None => st_ret tt
  | Some active =>
      match item with
      | Some (Ok output) =>
          let! state := record_provider_output sid active output in
          match state with
          | OS_Terminal =>
              let! events := history sid in
              let! _ := remove_active_attempt sid attempt in
              if is_completed output && is_some (session_workflow_id events)
              then spawn (TK_Advance sid (ae_request_id active) attempt
                            (attempt_has_findings attempt events))
              else st_ret tt
          | _ => spawn (TK_Stream sid attempt)
          end
      | Some (Err failure) =>
          let! state := current_session_state sid in
          if bool_decide (state = WS_CancelRequested) then st_ret tt
          else
            let! _ := record_provider_failure sid (ae_request_id active) attempt failure in
            remove_active_attempt sid attempt
      | None =>
          let! state := current_session_state sid in
          if bool_decide (state = WS_Running) then
            let! _ := record_provider_failure sid (ae_request_id active) attempt stream_ended in
            remove_active_attempt sid attempt
          else st_ret tt
      end
  end.

(** The future of [schedule_provider_activation], up to the provider's answer. *)
Definition activate_provider (sid attempt : Uuid) (provider : ProviderId)
    (handle : ProviderSessionHandle) (prompt : ProviderPrompt) : TD unit :=
  let! _ := log_call (PC_Prompt sid attempt provider) in
  let! streaming := draw_with (λ n, provider_prompt n provider handle prompt) in
  match streaming with
  | Ok _ => spawn (TK_Stream sid attempt)
  | Err failure => spawn (TK_ActivationFailed sid attempt failure)
  end.

Definition finish_provider_activation_failure (sid attempt : Uuid) (failure : ProviderFailure)
    : TD unit :=
  let! found := active_for_attempt sid attempt in
  match found with
  | None => st_ret tt
  | Some active =>
      let! state := current_session_state sid in
      if bool_decide (state = WS_CancelRequested) then st_ret tt
      else
        let! _ := record_provider_failure sid (ae_request_id active) attempt failure in
        remove_active_attempt sid attempt
  end.

Definition FAKE_RESPONSE : string := "deterministic fake provider response".

Definition finish_fake (sid : Uuid) : TD unit :=
  let! found := get_active sid in
  match found with
  | None => st_ret tt
  | Some active =>
      if negb (execution_is_fake active) then st_ret tt
      else
        let! events := history sid in
        let! folded := lift (fold_session events) in
        if negb (bool_decide (fs_state folded = WS_Running)) then st_ret tt
        else
          let! fake := st_gets (λ a, Ok (ap_fake a)) in
          let content := if fb_report_findings fake
            then FAKE_RESPONSE +:+ "; " +:+ FINDINGS_MARKER else FAKE_RESPONSE in
          let request := ae_request_id active in
          let attempt := ae_attempt_id active in
          let! _ := append sid (Some request) EK_ProviderEvent
            (output_payload attempt "message" content) (Some attempt) PAID in
          let! _ := delete_active sid in
          if is_some (recover_run events) || is_some (session_workflow_id events)
          then spawn (TK_Advance sid request attempt (content_has_findings content))
          else
            let! payload := new_terminal_payload "deterministic fake provider completed" in
            append_ sid (Some request) EK_SessionCompleted payload (Some attempt) PAID
  end.

(** ** Workflows *)

Definition system_payload (control_id : Uuid) : Value :=
  VObject [("actor", VString "system:workflow"); ("control_id", uuid_value control_id)].

(** The findings of a step lead back to a correction, or to a human. *)
Definition advance_findings (sid request attempt : Uuid) (run : WorkflowRun) : TD unit :=
  let '(run, applied) := Workflow.apply_findings run in
  let! _ := lift (map_err (λ _, DE_InvalidTransition) applied) in
  if bool_decide (phase run = WP_AwaitingHuman) then
    let! _ := append sid (Some request) EK_WorkflowTransition
      (transition_payload run "awaiting_human") (Some attempt) None in
    let! control_id := new_id in
    let! _ := append sid (Some request) EK_PauseRequested (system_payload control_id) None None in
    append_ sid (Some request) EK_SessionPaused (system_payload control_id) None None
  else
    let! _ := append sid (Some request) EK_WorkflowTransition (transition_payload run "findings")
      (Some attempt) None in
    spawn (TK_DispatchStep sid request run).

(** A step without findings leads to the next one, or to the end. *)
Definition advance_success (sid request attempt : Uuid) (workflow : ConfigModel.Workflow)
    (run : WorkflowRun) : TD unit :=
  let clean := is_some (on_findings_step_index run) in
  let '(run, advanced) := Workflow.advance_after_success run in
  let! _ := lift (map_err (λ _, DE_InvalidTransition) advanced) in
  let run := if clean then Workflow.reset_iteration run else run in
  if bool_decide (phase run = WP_Completed) then
    let! _ := append sid (Some request) EK_WorkflowTransition (transition_payload run "completed")
      (Some attempt) None in
    let! payload := new_terminal_payload "workflow completed" in
    append_ sid (Some request) EK_SessionCompleted payload (Some attempt) PAID
  else
    let run := match active_step workflow run with
      | Some step => refresh_step_bounds run step workflow
      | None => run
      end in
    let! _ := append sid (Some request) EK_WorkflowTransition (transition_payload run "advanced")
      (Some attempt) None in
    spawn (TK_DispatchStep sid request run).

Definition advance_workflow_after_attempt (sid request attempt : Uuid) (findings : bool) : TD unit :=
  let! events := history sid in
  let! config := session_configuration sid in
  match session_workflow_id events with
  | None =>
      let! payload := new_terminal_payload "workflow session missing workflow id" in
      append_ sid (Some request) EK_SessionCompleted payload (Some attempt) PAID
  | Some wid =>
      let! run := lift (ok_or (recover_run events) DE_StorageUnavailable) in
      if phase_is_terminal (phase run) then st_ret tt
      else
        let! workflow := lift (ok_or (bt_get wid (cf_workflows config))
          (DE_InvalidRequest "workflow is not configured")) in
        let run := match active_step workflow run with
          | Some step => refresh_step_bounds run step workflow
          | None => run
          end in
        if findings && is_some (on_findings_step_index run)
        then advance_findings sid request attempt run
        else advance_success sid request attempt workflow run
  end.

(** The prompt of a step: the last input, or a fixed text. *)
Definition step_prompt (events : list StoredEvent) : string :=
  with_redirect (default "continue workflow"
    (find_last (is_kind "input_recorded") events ≫= λ e, value_str (se_payload e) "content")) events.

Definition fail_step (sid request : Uuid) (summary : string) : TD unit :=
  let! payload := new_terminal_payload summary in
  append_ sid (Some request) EK_SessionFailed payload None PAID.

(** [dispatch_workflow_step] under the lock of the session. *)
Definition dispatch_workflow_step (sid request : Uuid) (run : WorkflowRun) : TD unit :=
  if negb (permits_dispatch (phase run)) then st_ret tt
  else
    let! events := history sid in
    let! found := workflow_route_target sid events in
    let! target := lift (ok_or found (DE_InvalidRequest "workflow has no active step")) in
    let! decision := session_route sid None (Some (wt_role target)) (Some (wt_context target)) in
    match decision with
    | RD_Selected plan permission =>
        if bool_decide (permission = DM_Denied)
        then fail_step sid request "workflow step denied by policy"
        else
          let! _ := append sid (Some request) EK_RoutingPlanned
            (VObject (enrich_workflow_routing (routing_payload plan) run)) None None in
          let! attempt := new_id in
          let! now := now_utc in
          let! dispatch := new_dispatch sid request now attempt None in
          let! _ := st_for (λ e,
            let! persisted := storage (be_append_event e) in publish_stored persisted) dispatch in
          let! configuration := session_configuration sid in
          let provider := rd_provider (rp_destination plan) in
          let! kind := lift (provider_kind configuration provider) in
          spawn (TK_StepActivate sid request attempt kind provider
                   (rd_runtime_model (rp_destination plan)) (step_prompt events))
    | _ => fail_step sid request "workflow step could not be routed"
    end.

(** [dispatch_workflow_step] after the lock was dropped. *)
Definition activate_step (sid request attempt : Uuid) (kind : ProviderType) (provider : ProviderId)
    (runtime_model prompt : string) : TD unit :=
  if bool_decide (kind = PT_Fake) then activate_fake_attempt sid request attempt
  else
    let! started := start_adapter sid request attempt provider in
    match started with
    | None => st_ret tt
    | Some handle =>
        let! prompt := lift (new_prompt sid attempt runtime_model prompt) in
        let! _ := insert_active sid (execution attempt request (AB_Provider provider handle)) in
        spawn (TK_Activate sid attempt provider handle prompt)
    end.

(** ** Cancellation *)

(** The future of [schedule_cancel_resolution] up to the provider's answer, which is
    [answer] for an adapter. *)
Definition request_cancellation (sid request control_id : Uuid) (attempt : option Uuid)
    (answer : bool) : TD unit :=
  let! active := get_active sid in
  let unconfirmed := spawn (TK_ResolveCancel sid request control_id attempt false
    "provider cancellation could not be confirmed") in
  match active with
  | Some e =>
      if bool_decide (attempt = Some (ae_attempt_id e)) then
        if ae_cancel_started e then st_ret tt
        else
          let! _ := insert_active sid
            {| ae_attempt_id := ae_attempt_id e; ae_request_id := ae_request_id e;
               ae_backend := ae_backend e; ae_cancel_started := true |} in
          let! fake := st_gets (λ a, Ok (ap_fake a)) in
          spawn (match ae_backend e with
            | AB_Fake => TK_ResolveCancel sid request control_id attempt
                (fb_confirms_cancellation fake) "fake provider confirmed cancellation"
            | AB_Provider _ _ => TK_ResolveCancel sid request control_id attempt answer
                "provider confirmed cancellation"
            end)
      else unconfirmed
  | None => unconfirmed
  end.

Definition resolve_cancel (sid request control_id : Uuid) (attempt : option Uuid)
    (confirmed : bool) (summary : string) : TD unit :=
  let! events := history sid in
  let! folded := lift (fold_session events) in
  if negb (bool_decide (fs_state folded = WS_CancelRequested)) then st_ret tt
  else
    let! now := now_utc in
    let! settled :=
      if confirmed then
        let! first := new_event sid request now EK_CancelConfirmed
          (VObject [("control_id", uuid_value control_id)]) attempt None in
        let! payload := new_terminal_payload summary in
        let! second := new_event sid request now EK_SessionCancelled payload attempt None in
        st_ret [first; second]
      else
        let! attempt := match attempt with Some id => st_ret id | None => new_id end in
        let! unknown := new_event sid request now EK_OutcomeUnknown
          (unknown_payload attempt "cancellation confirmation deadline expired")
          (Some attempt) None in
        st_ret [unknown] in
    let! persisted := storage (be_append_events settled) in
    let! _ := st_for publish_stored persisted in
    delete_active sid.

(** ** Recovery *)

(** An event the daemon appends on its own account. *)
Definition system_event (sid : Uuid) (kind : EventKind) (request attempt : option Uuid)
    (effect_class : option string) (payload : Value) : AS EventInput :=
  let! event_id := new_id in
  let! occurred_at := now_utc in
  st_ret {| ei_event_id := event_id; ei_session_id := sid; ei_occurred_at := occurred_at;
            ei_kind := event_kind_name kind; ei_causation_request_id := request;
            ei_attempt_id := attempt; ei_effect_class := effect_class; ei_payload := payload |}.

Definition recovered_terminal (summary : string) : AS Value :=
  let! correlation := new_id in st_ret (terminal_payload summary correlation).

(** The body of the loop of [recover_incomplete_controls]: whether it appended. *)
Definition recover_control (sid : Uuid) : AS bool :=
  let! events := backend (be_replay sid 0) in
  match last events with
  | None => st_ret false
  | Some e =>
      let request := se_causation_request_id e in
      if is_kind "pause_requested" e then
        let! paused := system_event sid EK_SessionPaused request None None (se_payload e) in
        let! _ := backend (be_append_event paused) in
        st_ret true
      else if is_kind "cancel_requested" e then
        let! settled := match latest_started_attempt events with
          | None =>
              let! confirmed := system_event sid EK_CancelConfirmed request None None
                (VObject [("control_id",
                           option_value uuid_value (value_uuid (se_payload e) "control_id"))]) in
              let! payload := recovered_terminal "provider cancellation recovered" in
              let! cancelled := system_event sid EK_SessionCancelled request None None payload in
              st_ret [confirmed; cancelled]
          | Some attempt =>
              let! unknown := system_event sid EK_OutcomeUnknown request (Some attempt) None
                (unknown_payload attempt
                   "cancellation recovery could not confirm provider outcome") in
              st_ret [unknown]
          end in
        let! _ := backend (be_append_events settled) in
        st_ret true
      else if is_kind "cancel_confirmed" e then
        let! payload := recovered_terminal "confirmed cancellation recovered" in
        let! cancelled := system_event sid EK_SessionCancelled request (se_attempt_id e) None
          payload in
        let! _ := backend (be_append_event cancelled) in
        st_ret true
      else st_ret false
  end.

Definition recover_incomplete_controls (sessions : list StoredSession) : AS nat :=
  let! recovered := st_map (λ s, recover_control (ss_session_id s)) sessions in
  st_ret (length (List.filter id recovered)).

Definition publish_recovered (e : StoredEvent) : AS unit :=
  match protocol_event e with
  | Ok event => publish_event event
  | Err _ => fail SE_StorageUnavailable
  end.

Definition recover : AS unit :=
  let! _ := backend be_resume_session_creations in
  let! exported := backend be_resume_exports in
  let! _ := st_for publish_recovered exported in
  let! _ := backend be_resume_deletions in
  let! sessions := backend be_load_sessions in
  let! _ := st_for hydrate_stored_session sessions in
  let! _ := recover_incomplete_controls sessions in
  let! now := now_utc in
  let! _ := backend (be_recover_uncertain_attempts now) in
  st_ret tt.

(** ** Maintenance *)

Definition retention_due (session : StoredSession) (now : OffsetDateTime) : AS bool :=
  if negb (text_in (ss_state session) RETAINED_STATES) then st_ret false
  else match ss_terminal_at session with
  | None => st_ret false
  | Some terminal_at =>
      let! configuration := st_gets (λ a,
        ok_or (ap_session_configs a !! ss_session_id session) (ST_Error SE_StorageUnavailable)) in
      match st_retention_days (cf_storage configuration) with
      | None => st_ret false
      | Some days =>
          if (days =? 0)%N then fail (SE_InvalidInput "retention must be at least one day")
          else match sub_days now days with
          | None => st_err ST_Panic
          | Some threshold => st_ret (terminal_at <=? threshold)%Z
          end
      end
  end.

(** The first loop of [run_maintenance], which stops at [room] candidates. *)
Fixpoint retention_pass (now : OffsetDateTime) (room : nat) (sessions : list StoredSession)
    : AS (list Uuid) :=
  match sessions, room with
  | [], _ | _, O => st_ret []
  | session :: sessions, Datatypes.S room' =>
      let! _ := hydrate_stored_session session in
      let! due := retention_due session now in
      if due then
        let! rest := retention_pass now room' sessions in st_ret (ss_session_id session :: rest)
      else retention_pass now room sessions
  end.

(** The second loop, on one candidate: how many sessions it deleted. *)
Definition retire (now : OffsetDateTime) (sid : Uuid) : AS nat :=
  let! loaded := st_try (backend (be_load_session sid)) in
  match loaded with
  | Err (ST_Error SE_SessionNotFound) => st_ret 0%nat
  | Err e => st_err e
  | Ok stored =>
      let! _ := hydrate_stored_session stored in
      let! due := retention_due stored now in
      if negb due then st_ret 0%nat
      else
        let! deletable := st_try (backend (be_ensure_session_deletable sid)) in
        match deletable with
        | Err (ST_Error (SE_InvalidInput _)) => st_ret 0%nat
        | Err e => st_err e
        | Ok _ =>
            let! deletion_id := new_id in
            let! request := new_id in
            let! _ := backend (be_request_deletion sid deletion_id request now "system:retention") in
            let! _ := delete_active sid in
            let! _ := evict_session sid in
            let! _ := purge_subscriptions sid in
            st_ret 1%nat
        end
  end.

(** Waits for the lock of each candidate; a lock that is never released is fatal. *)
Definition retire_locked (now : OffsetDateTime) (sid : Uuid) : AS nat :=
  let! blocked := st_gets (λ a, Ok (bool_decide (sid ∈ ap_blocked a))) in
  if blocked then st_err ST_Blocked else retire now sid.

Definition run_maintenance (now : OffsetDateTime) : AS nat :=
  let! sessions := backend be_load_sessions in
  let! candidates := retention_pass now MAX_RETENTION_DELETIONS_PER_PASS sessions in
  let! deleted := st_map (retire_locked now) candidates in
  st_ret (sum_list deleted).

(** ** Shutdown *)

Definition settle_active (entry : Uuid * ActiveExecution) : AS unit :=
  let attempt := ae_attempt_id entry.2 in
  let! unknown := system_event entry.1 EK_OutcomeUnknown None (Some attempt) PAID
    (unknown_payload attempt "daemon_shutdown") in
  let! _ := backend (be_append_event unknown) in
  st_ret tt.

(** [prepare_shutdown]; the MCP gateway is outside this file. *)
Definition prepare_shutdown : AS unit :=
  let! active := st_gets (λ a, Ok (map_to_list (ap_active a))) in
  let! _ := st_modify (λ a, set_active ∅ (set_lifecycle true (ap_blocked a) a)) in
  st_for settle_active active.

(** ** Steps *)

(** What a task is told by the world: the next item of its stream, the answer to a
    cancellation. *)
Record Answer : Type := {
  an_item : option (Result ProviderOutput ProviderFailure);
  an_confirmed : bool;
}.

(** The tasks that proceed only under the lock of their session, and that end when the
    daemon shuts down. *)
Definition task_session (t : Task) : Uuid :=
  match t with
  | TK_Fake sid | TK_Activate sid _ _ _ _ | TK_ActivationFailed sid _ _ | TK_Stream sid _
  | TK_Advance sid _ _ _ | TK_DispatchStep sid _ _ | TK_StepActivate sid _ _ _ _ _ _
  | TK_Cancel sid _ _ _ | TK_ResolveCancel sid _ _ _ _ _ => sid
  end.

Definition task_locks (t : Task) : bool :=
  match t with
  | TK_Fake _ | TK_ActivationFailed _ _ _ | TK_Stream _ _ | TK_Advance _ _ _ _
  | TK_DispatchStep _ _ _ | TK_ResolveCancel _ _ _ _ _ _ => true
  | TK_Activate _ _ _ _ _ | TK_StepActivate _ _ _ _ _ _ _ | TK_Cancel _ _ _ _ => false
  end.

(** The rest of a future that still holds the lifecycle gate for reading. *)
Definition task_continues (t : Task) : bool :=
  match t with
  | TK_Advance _ _ _ _ | TK_DispatchStep _ _ _ | TK_StepActivate _ _ _ _ _ _ _ => true
  | _ => false
  end.

Definition task_body (t : Task) (answer : Answer) : TD unit :=
  match t with
  | TK_Fake sid => finish_fake sid
  | TK_Activate sid attempt provider handle prompt =>
      activate_provider sid attempt provider handle prompt
  | TK_ActivationFailed sid attempt failure =>
      finish_provider_activation_failure sid attempt failure
  | TK_Stream sid attempt => consume_item sid attempt (an_item answer)
  | TK_Advance sid request attempt findings =>
      advance_workflow_after_attempt sid request attempt findings
  | TK_DispatchStep sid request run => dispatch_workflow_step sid request run
  | TK_StepActivate sid request attempt kind provider runtime_model prompt =>
      activate_step sid request attempt kind provider runtime_model prompt
  | TK_Cancel sid request control_id attempt =>
      request_cancellation sid request control_id attempt (an_confirmed answer)
  | TK_ResolveCancel sid request control_id attempt confirmed summary =>
      resolve_cancel sid request control_id attempt confirmed summary
  end.

(** A task after the check of [shutting_down]. *)
Definition run_task (t : Task) (answer : Answer) : TD unit :=
  let! stopping := st_gets (λ a, Ok (ap_shutting_down a)) in
  if stopping && task_locks t && negb (task_continues t) then st_ret tt else task_body t answer.

Definition set_tasks (tasks : list Task) (a : Application S) : Application S :=
  set_outside (ap_subscriptions a) tasks (ap_calls a) (ap_draws a) a.

(** [Application::compose] *)
Definition compose (s : S) (startup : StartupConfiguration) (fake : FakeBehavior)
    (catalog : BTreeMap PreflightCapabilities) (draws : N) : Application S :=
  {| ap_storage := s; ap_startup := startup; ap_shutting_down := false;
     ap_session_configs := ∅; ap_pinned_locks := ∅; ap_known_sessions := ∅;
     ap_session_workflows := ∅; ap_active := ∅; ap_subscriptions := hub_default;
     ap_provider_catalog := catalog; ap_fake := fake; ap_tasks := []; ap_calls := [];
     ap_blocked := ∅; ap_draws := draws |}.

Definition after {A} (m : AS A) (a : Application S) : Application S := (m a).1.
End tasks.
