(* ===== verification/DaemonHistory.v ===== *)
(** * DaemonHistory: histories the daemon can work with

    A history is good when the daemon can fold it and publish each of its events, and
    when nothing in it was dispatched before a human granted an approval. The lemmas
    say which events may follow a good history. *)

From S2P Require Import StorageKeys StorageTables StorageDb StorageDisk StorageExport.
From S2P Require Import Prelude StateResult Text BTree Errors Value Attempt Policy Routing.
From S2P Require Import Event Workflow Ports Json Wire ProtoCommand ProtoReply Subscription.
From S2P Require Import StorageKeys StorageTables StorageDb StorageOps.
From S2P Require Import DaemonModel DaemonWorkflow DaemonBackend.

(** ** Names *)

Lemma event_kind_name_inj k k' : event_kind_name k = event_kind_name k' → k = k'.
Proof. destruct k, k'; done. Qed.

Lemma EVENT_KINDS_complete k : k ∈ EVENT_KINDS.
Proof. unfold EVENT_KINDS. destruct k; set_solver. Qed.

Lemma list_find_name {A} `{EqDecision A} (name : A → string) l a :
  (∀ x y, name x = name y → x = y) → a ∈ l →
  ∃ i, list_find (λ x, name x = name a) l = Some (i, a).
Proof.
  intros Hinj Ha. destruct (list_find (λ x, name x = name a) l) as [[i b]|] eqn:Hf.
  - apply list_find_Some in Hf as (_ & Hn & _). apply Hinj in Hn as ->. eauto.
  - apply list_find_None in Hf. rewrite Forall_forall in Hf. by destruct (Hf a Ha).
Qed.

Lemma parse_event_kind_name k : parse_event_kind (event_kind_name k) = Ok k.
Proof.
  unfold parse_event_kind.
  destruct (list_find_name event_kind_name EVENT_KINDS k) as [i ->]; [|apply EVENT_KINDS_complete|done].
  intros x y. apply event_kind_name_inj.
Qed.

Lemma parse_event_kind_sound name k : parse_event_kind name = Ok k → name = event_kind_name k.
Proof.
  unfold parse_event_kind. destruct (list_find _ _) as [[i x]|] eqn:Hf; simpl; [|done].
  intros [= ->]. by apply list_find_Some in Hf as (_ & <- & _).
Qed.

(** The names under which events and states are stored identify them: what the daemon
    writes it reads back as the same kind or state, and a name it reads is the one it
    would write. *)
Theorem stored_names_roundtrip :
  (∀ k, parse_event_kind (event_kind_name k) = Ok k) ∧
  (∀ name k, parse_event_kind name = Ok k → name = event_kind_name k) ∧
  (∀ s, parse_session_state (WireState_name s) = Ok s) ∧
  (∀ name s, parse_session_state name = Ok s → name = WireState_name s).
Proof.
  split_and!; [apply parse_event_kind_name|apply parse_event_kind_sound| |].
  - intros s. unfold parse_session_state.
    destruct (list_find_name WireState_name WIRE_STATES s) as [i ->]; [| |done].
    + intros x y. by destruct x, y.
    + unfold WIRE_STATES. destruct s; set_solver.
  - intros name s. unfold parse_session_state.
    destruct (list_find _ _) as [[i x]|] eqn:Hf; simpl; [|done].
    intros [= ->]. by apply list_find_Some in Hf as (_ & <- & _).
Qed.

Section histories.
Context `{StorageEnv}.

(** ** Good histories *)

(** A recorded approval that grants. *)
Definition grants (e : StoredEvent) : Prop :=
  se_kind e = "approval_recorded" ∧ ∃ approval, recorded_decision e = Ok (approval, AD_Grant).

Definition granted (h : list StoredEvent) : Prop := ∃ e, e ∈ h ∧ grants e.

(** The events that may only follow a grant. *)
Definition needs_grant (kind : string) : bool :=
  text_in kind ["dispatch_started"; "outcome_unknown"].

Definition gated (h : list StoredEvent) : Prop :=
  ∀ before e after, h = before ++ e :: after → needs_grant (se_kind e) = true → granted before.

(** An event the daemon can publish and fold. *)
Definition event_ok (e : StoredEvent) : Prop :=
  value_wf (se_payload e) = true ∧ (∃ kind, parse_event_kind (se_kind e) = Ok kind) ∧
  (se_kind e = "approval_recorded" → ∃ d, recorded_decision e = Ok d).

Record good_history (h : list StoredEvent) : Prop := {
  gh_folds : ∃ f, fold_session h = Ok f ∧ fs_last_sequence f = N.of_nat (length h) ∧
    (fs_state f = WS_CancelRequested → granted h);
  gh_events : Forall event_ok h;
  gh_gated : gated h;
}.

Lemma granted_app h k : granted h → granted (h ++ k).
Proof. intros (e & He & Hg). exists e. split; [apply elem_of_app; by left|done]. Qed.

Lemma started_app h k a : started_in h a → started_in (h ++ k) a.
Proof. intros (e & He & Hg). exists e. split; [apply elem_of_app; by left|done]. Qed.

Lemma gated_app h k :
  gated h → (∀ before e after, k = before ++ e :: after → needs_grant (se_kind e) = true →
    granted (h ++ before)) → gated (h ++ k).
Proof.
  intros Hh Hk before e after Heq Hn.
  apply app_eq_inv in Heq as [(l & -> & Heq)|(l & -> & Heq)].
  - destruct l as [|x l]; simpl in Heq.
    + specialize (Hk [] e after (eq_sym Heq) Hn). by rewrite !app_nil_r in Hk.
    + injection Heq as <- ->. by eapply (Hh before e l).
  - eapply Hk; [exact Heq|done].
Qed.

Lemma gated_started h a : gated h → started_in h a → granted h.
Proof.
  intros Hg (e & He & Hk & _). apply list_elem_of_split in He as (l1 & l2 & ->).
  apply granted_app. eapply Hg; [done|]. by rewrite Hk.
Qed.

(** *** Folding further *)

Lemma fold_events_app f h k :
  fold_events f (h ++ k) = let? f := fold_events f h in fold_events f k.
Proof.
  revert f. induction h as [|e h IH]; intros f; simpl; [done|].
  destruct (fold_event f e); [apply IH|done].
Qed.

Lemma fold_session_events h f : fold_session h = Ok f → fold_events fold_start h = Ok f.
Proof. unfold fold_session. destruct h; [done|]. by case_match. Qed.

Lemma fold_session_app h k f :
  fold_session h = Ok f → fold_session (h ++ k) = fold_events f k.
Proof.
  intros Hf. pose proof (fold_session_events h f Hf) as He.
  destruct h as [|e h]; [done|]. unfold fold_session in Hf |- *. simpl app.
  destruct (text_eq (se_kind e) "session_created") eqn:Hc; [|done]. rewrite Hc.
  change (e :: h ++ k) with ((e :: h) ++ k). by rewrite fold_events_app, He.
Qed.

Lemma fold_kind_ok f e :
  (se_kind e = "approval_recorded" → ∃ d, recorded_decision e = Ok d) →
  ∃ f', fold_kind f e = Ok f' ∧ fs_last_sequence f' = fs_last_sequence f.
Proof.
  intros Hd. unfold fold_kind. destruct (kind_state _); [by eexists|].
  destruct (text_eq _ "approval_requested"); [by eexists|].
  destruct (text_eq (se_kind e) "approval_recorded") eqn:Hr.
  - apply bool_decide_eq_true in Hr. destruct (Hd Hr) as [d ->]. by eexists.
  - destruct (text_eq _ "session_redirected"); [case_match; by eexists|].
    destruct (text_eq _ "outcome_unknown"); [by eexists|].
    destruct (text_eq _ "outcome_reconciled"); by eexists.
Qed.

Lemma numbered_cons n e k :
  numbered n (e :: k) → se_sequence e = N.of_nat (n + 1) ∧ numbered (Datatypes.S n) k.
Proof.
  intros Hn. split; [rewrite (Hn 0%nat e eq_refl); f_equal; lia|].
  intros i x Hx. rewrite (Hn (Datatypes.S i) x Hx). f_equal. lia.
Qed.

Lemma fold_numbered n f k :
  fs_last_sequence f = N.of_nat n → numbered n k → Forall event_ok k →
  ∃ f', fold_events f k = Ok f' ∧ fs_last_sequence f' = N.of_nat (n + length k).
Proof.
  revert n f. induction k as [|e k IH]; intros n f Hf Hn Hk; simpl.
  - exists f. split; [done|]. rewrite Hf. f_equal. lia.
  - apply numbered_cons in Hn as [He Hn]. inversion Hk as [|? ? (_ & _ & Hd) Hk']; subst.
    unfold fold_event. rewrite He, Hf, (proj2 (N.eqb_eq _ _)) by lia.
    destruct (fold_kind_ok (with_sequence f (N.of_nat (n + 1))) e Hd) as (f1 & -> & Hl).
    destruct (IH (Datatypes.S n) f1) as (f' & -> & Hl'); [rewrite Hl; simpl; f_equal; lia|done|done|].
    exists f'. split; [done|]. rewrite Hl'. f_equal. lia.
Qed.

(** What folds is numbered. *)
Lemma fold_kind_sequence f e f' :
  fold_kind f e = Ok f' → fs_last_sequence f' = fs_last_sequence f.
Proof.
  unfold fold_kind. repeat first
    [ destruct (kind_state _); [by intros [= <-]|]
    | destruct (text_eq _ "approval_recorded");
      [destruct (recorded_decision e) as [[? ?]|]; simpl; [by intros [= <-]|done]|]
    | destruct (text_eq _ "session_redirected"); [case_match; by intros [= <-]|]
    | destruct (text_eq _ _); [by intros [= <-]|] ].
  by intros [= <-].
Qed.

Lemma fold_events_numbered h n f f' :
  fs_last_sequence f = N.of_nat n → fold_events f h = Ok f' → numbered n h.
Proof.
  revert n f. induction h as [|e h IH]; intros n f Hn Hf i x Hx; [done|]. simpl in Hf.
  destruct (fold_event f e) as [f1|] eqn:He; [|done]. unfold fold_event in He.
  destruct (_ =? _)%N eqn:Hs; [|done]. apply N.eqb_eq in Hs. apply fold_kind_sequence in He.
  destruct i as [|i]; [injection Hx as <-; rewrite Hs, Hn, Nat.add_0_r, Nat.add_comm; simpl; lia|].
  rewrite (IH (Datatypes.S n) f1) with (i := i) (e := x); [f_equal; lia| |done|done].
  rewrite He. simpl. rewrite Hs, Hn. lia.
Qed.

Lemma fold_session_numbered h f : fold_session h = Ok f → numbered 0 h.
Proof. intros Hf%fold_session_events. by apply (fold_events_numbered h 0 fold_start f). Qed.

(** Without a cancellation the state does not become [CancelRequested]. *)
Lemma fold_kind_cancel f e f' :
  se_kind e ≠ "cancel_requested" → fold_kind f e = Ok f' → fs_state f' = WS_CancelRequested →
  fs_state f = WS_CancelRequested.
Proof.
  intros Hne. unfold fold_kind, kind_state.
  assert (text_eq (se_kind e) "cancel_requested" = false) as -> by (by apply bool_decide_eq_false_2).
  repeat first
    [ destruct (text_in _ _); [intros [= <-]; done|]
    | destruct (text_eq _ "session_redirected"); [intros [= <-]; by case_bool_decide|]
    | destruct (text_eq _ "approval_recorded");
      [destruct (recorded_decision e) as [[? []]|]; simpl; intros; simplify_eq; done|]
    | destruct (text_eq _ _); [intros [= <-]; done|] ].
  by intros [= <-].
Qed.

Lemma fold_events_cancel k f f' :
  Forall (λ e, se_kind e ≠ "cancel_requested") k → fold_events f k = Ok f' →
  fs_state f' = WS_CancelRequested → fs_state f = WS_CancelRequested.
Proof.
  intros Hk. revert f. induction Hk as [|e k Hne Hk IH]; intros f; simpl; [by intros [= <-]|].
  destruct (fold_event f e) as [f1|] eqn:Hf; [|done]. intros Hf1 Hs. specialize (IH f1 Hf1 Hs).
  unfold fold_event in Hf. case_match; [|done]. by eapply fold_kind_cancel in Hf.
Qed.

(** ** What may follow *)

Section follow.
Context (h k : list StoredEvent).
Context (Hh : good_history h) (Hn : numbered (length h) k) (Hk : Forall event_ok k).

(** The general rule. *)
Lemma good_follow :
  (∀ before e after, k = before ++ e :: after → needs_grant (se_kind e) = true →
    granted (h ++ before)) →
  (∀ f f', fold_session h = Ok f → fold_events f k = Ok f' →
    fs_state f' = WS_CancelRequested → granted (h ++ k)) →
  good_history (h ++ k).
Proof.
  intros Hg Hc. destruct Hh as [(f & Hf & Hl & Hs) He Hgate].
  destruct (fold_numbered (length h) f k Hl Hn Hk) as (f' & Hf' & Hl'). split.
  - exists f'. rewrite (fold_session_app h k f Hf), length_app. split_and!; [done|done|].
    intros Hs'. by eapply Hc.
  - by apply Forall_app.
  - by apply gated_app.
Qed.

(** After a grant everything may follow. *)
Lemma good_granted : granted h → good_history (h ++ k).
Proof. intros Hg. apply good_follow; intros; by apply granted_app. Qed.

(** What needs no grant may always follow. *)
Lemma good_free :
  Forall (λ e, needs_grant (se_kind e) = false ∧ se_kind e ≠ "cancel_requested") k →
  good_history (h ++ k).
Proof.
  intros Hfree. apply good_follow.
  - intros before e after Heq Hneeds. rewrite Heq in Hfree. apply Forall_app in Hfree as [_ Hfree].
    inversion Hfree as [|? ? [Hf _]]. by rewrite Hneeds in Hf.
  - intros f f' Hf Hf' Hs. apply granted_app. apply fold_events_cancel in Hf'; [|..|done].
    + destruct (gh_folds _ Hh) as (f0 & Hf0 & _ & Hc). apply Hc.
      rewrite Hf in Hf0. by injection Hf0 as <-.
    + eapply Forall_impl; [exact Hfree|]. by intros e [_ ?].
Qed.

(** A batch that begins with a grant. *)
Lemma good_grants e rest : k = e :: rest → grants e → good_history (h ++ k).
Proof.
  intros Heq Hg. apply good_follow.
  - intros [|x before] e' after Hk' Hneeds; rewrite Heq in Hk'; injection Hk' as <- Hk'.
    + destruct Hg as [Hkind _]. by rewrite Hkind in Hneeds.
    + exists e. split; [set_solver|done].
  - intros. exists e. rewrite Heq. split; [set_solver|done].
Qed.

(** A batch that ends the session. *)
Lemma good_ends before e :
  k = before ++ [e] → kind_state (se_kind e) = Some WS_Cancelled →
  Forall (λ e, needs_grant (se_kind e) = false) k → good_history (h ++ k).
Proof.
  intros Heq Hkind Hfree. apply good_follow.
  - intros b x after Hk' Hneeds. rewrite Hk' in Hfree. apply Forall_app in Hfree as [_ Hfree].
    inversion Hfree as [|? ? Hf]. by rewrite Hneeds in Hf.
  - intros f f' _ Hf Hs. exfalso. rewrite Heq, fold_events_app in Hf.
    destruct (fold_events f before) as [f1|]; [|done]. simpl in Hf. unfold fold_event, fold_kind in Hf.
    rewrite Hkind in Hf. destruct (_ =? _)%N; [|done]. simpl in Hf. injection Hf as <-. discriminate Hs.
Qed.
End follow.

(** The first event of a session. *)
Lemma good_created e :
  se_kind e = "session_created" → se_sequence e = 1%N → value_wf (se_payload e) = true →
  good_history [e].
Proof.
  intros Hk Hs Hw. split.
  - exists (with_sequence fold_start 1). split_and!; [|done|done].
    simpl. rewrite Hk. simpl. unfold fold_event. rewrite Hs. simpl. unfold fold_kind. by rewrite Hk.
  - constructor; [|done]. split_and!; [done| |by rewrite Hk].
    exists EK_SessionCreated. rewrite Hk. apply (parse_event_kind_name EK_SessionCreated).
  - intros [|x before] e' after Heq Hneeds; injection Heq as <- Heq.
    + by rewrite Hk in Hneeds.
    + by destruct before.
Qed.

(** *** Stored inputs *)

Lemma stored_numbered n inputs : numbered n (stored_after n inputs).
Proof.
  intros i e. unfold stored_after. rewrite list_lookup_imap.
  destruct (inputs !! i); simpl; [|done]. by intros [= <-].
Qed.

Lemma stored_Forall (P : StoredEvent → Prop) n inputs :
  (∀ input sequence, input ∈ inputs → P (persisted_as input sequence)) →
  Forall P (stored_after n inputs).
Proof.
  intros HP. apply Forall_lookup. intros i e. unfold stored_after. rewrite list_lookup_imap.
  destruct (inputs !! i) eqn:Hi; simpl; [|done]. intros [= <-]. apply HP. by eapply list_elem_of_lookup_2.
Qed.
End histories.
