(* ===== verification/DaemonInv.v ===== *)
(** * DaemonInv: the invariant of the daemon and a logic for its handlers

    [AInv]: every stored history is good, sessions have drawn identifiers, and what is
    active, scheduled or was called is backed by a started attempt in the history of
    its session. Operations that leave all of this alone are [inert]; [hoare] is the
    logic of the others, in which the invariant also holds when an operation fails. *)

From S2P Require Import StorageKeys StorageTables StorageDb StorageDisk StorageExport.
From S2P Require Import Prelude StateResult Text BTree Errors Value Attempt Policy Routing.
From S2P Require Import Event Workflow Ports Json Wire ProtoCommand ProtoReply Subscription.
From S2P Require Import ConfigModel ConfigValidate ConfigMerge ConfigPreflight FileSystem ConfigLock.
From S2P Require Import StorageKeys StorageTables StorageDb StorageOps.
From S2P Require Import DaemonModel DaemonWorkflow DaemonHub DaemonBackend DaemonApp.
From S2P Require Import DaemonHandlers DaemonTasks DaemonHistory.

(** Version 7 identifiers do not repeat. *)
Class DaemonEnvLaws `{DaemonEnv} : Prop :=
  daemon_v7_inj i j : daemon_v7 i = daemon_v7 j → i = j.

Create HintDb inert.

Definition call_session (c : ProviderCall) : Uuid :=
  match c with PC_Start sid _ _ | PC_Prompt sid _ _ => sid end.
Definition call_attempt (c : ProviderCall) : Uuid :=
  match c with PC_Start _ attempt _ | PC_Prompt _ attempt _ => attempt end.

Section inv.
Context `{StorageEnv} `{DaemonEnv} `{FileSystem} {S : Type} `{BackendLaws S}.
Implicit Types a : Application S.

Definition hist a (sid : Uuid) (h : list StoredEvent) : Prop := history_of (ap_storage a) sid h.

Definition drawn a (sid : Uuid) : Prop := ∃ i, (i < ap_draws a)%N ∧ sid = daemon_v7 i.

(** What a task needs of the history of its session. *)
Definition supported (h : list StoredEvent) (t : Task) : Prop :=
  match t with
  | TK_Fake _ => True
  | TK_Activate _ attempt _ _ _ | TK_ActivationFailed _ attempt _ | TK_Stream _ attempt
  | TK_Advance _ _ attempt _ | TK_StepActivate _ _ attempt _ _ _ _ => started_in h (Some attempt)
  | TK_DispatchStep _ _ _ | TK_Cancel _ _ _ None | TK_ResolveCancel _ _ _ None _ _ => granted h
  | TK_Cancel _ _ _ (Some attempt) | TK_ResolveCancel _ _ _ (Some attempt) _ _ =>
      started_in h (Some attempt)
  end.

Record AInv a : Prop := {
  ai_ok : backend_ok (drawn a) (ap_storage a);
  ai_good sid h : hist a sid h → good_history h;
  ai_ids sid h : hist a sid h → drawn a sid;
  ai_active sid e : ap_active a !! sid = Some e →
    drawn a sid ∧ ∀ h, hist a sid h → started_in h (Some (ae_attempt_id e));
  ai_tasks t : t ∈ ap_tasks a →
    drawn a (task_session t) ∧ ∀ h, hist a (task_session t) h → supported h t;
  ai_calls c : c ∈ ap_calls a →
    drawn a (call_session c) ∧ ∀ h, hist a (call_session c) h → started_in h (Some (call_attempt c));
}.

(** ** Operations that leave the core of the state alone *)

Record same_core a a' : Prop := {
  sc_ok D : backend_ok D (ap_storage a) → backend_ok D (ap_storage a');
  sc_quiet : quiet history_of (ap_storage a) (ap_storage a');
  sc_active : ap_active a' = ap_active a;
  sc_tasks : ap_tasks a' = ap_tasks a;
  sc_calls : ap_calls a' = ap_calls a;
  sc_draws : (ap_draws a ≤ ap_draws a')%N;
}.

Lemma same_core_refl a : same_core a a.
Proof. by split. Qed.

Lemma same_core_trans a1 a2 a3 : same_core a1 a2 → same_core a2 a3 → same_core a1 a3.
Proof.
  intros [] []. split; [by auto| |congruence..|lia].
  intros x h. etrans; [apply sc_quiet1|apply sc_quiet0].
Qed.

Lemma drawn_mono a a' sid : (ap_draws a ≤ ap_draws a')%N → drawn a sid → drawn a' sid.
Proof. intros Hd (i & Hi & ->). exists i. split; [lia|done]. Qed.

Lemma AInv_same_core a a' : same_core a a' → AInv a → AInv a'.
Proof.
  intros [Hok Hq Ha Ht Hc Hd] [Hold Hgood Hids Hact Htasks Hcalls].
  assert (Hh : ∀ sid h, hist a' sid h ↔ hist a sid h) by (intros; apply Hq).
  split; rewrite ?Ha, ?Ht, ?Hc; [by eapply backend_mono, Hok, Hold; intros; eapply drawn_mono|..].
  - intros sid h. rewrite Hh. apply Hgood.
  - intros sid h. rewrite Hh. intros Hs. eapply drawn_mono; [done|]. by eapply Hids.
  - intros sid e [Hdr Hst]%Hact. split; [by eapply drawn_mono|]. intros h. rewrite Hh. apply Hst.
  - intros t [Hdr Hst]%Htasks. split; [by eapply drawn_mono|]. intros h. rewrite Hh. apply Hst.
  - intros c [Hdr Hst]%Hcalls. split; [by eapply drawn_mono|]. intros h. rewrite Hh. apply Hst.
Qed.

Definition inert {E A} (m : AM (S := S) E A) : Prop :=
  ∀ D a, backend_ok D (ap_storage a) → same_core a (m a).1.

Lemma inert_ret {E A} (x : A) : inert (E := E) (st_ret x).
Proof. intros D a _. apply same_core_refl. Qed.
Lemma inert_err {E A} (e : Stop E) : inert (A := A) (st_err e).
Proof. intros D a _. apply same_core_refl. Qed.
Lemma inert_lift {E A} (r : Result A E) : inert (lift r).
Proof. intros D a _. apply same_core_refl. Qed.
Lemma inert_st_lift {E A} (r : Result A (Stop E)) : inert (st_lift r).
Proof. intros D a _. apply same_core_refl. Qed.
Lemma inert_fail {E A} (e : E) : inert (A := A) (fail e).
Proof. intros D a _. apply same_core_refl. Qed.
Lemma inert_gets {E A} (f : Application S → Result A (Stop E)) : inert (st_gets f).
Proof. intros D a _. apply same_core_refl. Qed.
Lemma inert_get {E} : inert (E := E) st_get.
Proof. intros D a _. apply same_core_refl. Qed.

Lemma inert_bind {E A B} (m : AM E A) (k : A → AM E B) :
  inert m → (∀ x, inert (k x)) → inert (st_bind m k).
Proof.
  intros Hm Hk D a Ha. unfold st_bind. specialize (Hm D a Ha).
  destruct (m a) as [a1 [x|e]]; simpl in *; [|done].
  eapply same_core_trans; [done|]. by apply (Hk _ D), Hm.
Qed.

Lemma inert_for {E A} (body : A → AM E unit) l : (∀ x, inert (body x)) → inert (st_for body l).
Proof.
  intros Hb. induction l as [|x l IH]; simpl; [apply inert_ret|]. by apply inert_bind.
Qed.

Lemma inert_map {E A B} (body : A → AM E B) l : (∀ x, inert (body x)) → inert (st_map body l).
Proof.
  intros Hb. induction l as [|x l IH]; simpl; [apply inert_ret|].
  apply inert_bind; [done|]. intros y. apply inert_bind; [done|]. intros. apply inert_ret.
Qed.

Lemma inert_convert {E F A} (f : E → F) (m : AM E A) : inert m → inert (convert f m).
Proof. intros Hm D a Ha. specialize (Hm D a Ha). unfold convert. by destruct (m a). Qed.

Lemma inert_try {E F A} (m : AM E A) : inert m → inert (E := F) (st_try m).
Proof. intros Hm D a Ha. specialize (Hm D a Ha). unfold st_try. by destruct (m a). Qed.

Lemma inert_modify {E} (f : Application S → Application S) :
  (∀ a, same_core a (f a)) → inert (E := E) (st_modify f).
Proof. intros Hf D a _. apply Hf. Qed.

Lemma inert_draw {E A} (f : N → A) : inert (E := E) (draw_with f).
Proof. intros D a _. split; simpl; [done|done|done|done|done|lia]. Qed.

Lemma inert_publish {E} e : inert (E := E) (publish_event e).
Proof. intros D a _. by split. Qed.

Lemma inert_backend {A} (m : ST S StorageError A) :
  (∀ D s s' r, backend_ok D s → m s = (s', r) → backend_ok D s' ∧ quiet history_of s s') →
  inert (backend m).
Proof.
  intros Hm D a Ha. unfold backend. destruct (m (ap_storage a)) as [s' r] eqn:Hs.
  pose proof (Hm D _ _ _ Ha Hs) as [_ Hq]. split; [|done..]. intros D' Ha'.
  by destruct (Hm D' _ _ _ Ha' Hs).
Qed.

Lemma inert_storage {A} (m : ST S StorageError A) :
  (∀ D s s' r, backend_ok D s → m s = (s', r) → backend_ok D s' ∧ quiet history_of s s') →
  inert (storage m).
Proof. intros Hm. by apply inert_convert, inert_backend. Qed.

Lemma inert_remember sid c l w : inert (remember sid c l w).
Proof. intros D a _. by split. Qed.
Lemma inert_evict sid : inert (evict_session sid).
Proof. intros D a _. by split. Qed.
Lemma inert_purge {E} sid : inert (E := E) (purge_subscriptions sid).
Proof. intros D a _. by split. Qed.
Lemma inert_set_known {E} f :
  inert (E := E) (st_modify (λ a, set_caches (ap_session_configs a) (ap_pinned_locks a) (f a)
    (ap_session_workflows a) a)).
Proof. intros D a _. by split. Qed.

Lemma quiet_replay sid D s s' r :
  backend_ok D s → be_replay sid 0 s = (s', r) → backend_ok D s' ∧ quiet history_of s s'.
Proof. intros Ho Hr. by destruct (law_replay _ _ _ _ _ Ho Hr) as (? & ? & _). Qed.
End inv.

#[export] Hint Resolve inert_ret inert_err inert_lift inert_st_lift inert_fail inert_gets inert_get
  inert_draw inert_publish inert_remember inert_evict inert_purge inert_set_known : inert.

(** Proves that an operation is inert from its parts. *)
Ltac inert :=
  repeat first
    [ progress intros
    | solve [auto with inert]
    | match goal with
      | |- inert (st_bind _ _) => apply inert_bind
      | |- inert (st_for _ _) => apply inert_for
      | |- inert (st_map _ _) => apply inert_map
      | |- inert (convert _ _) => apply inert_convert
      | |- inert (st_try _) => apply inert_try
      | |- inert (storage (be_replay _ 0)) => apply inert_storage, quiet_replay
      | |- inert (backend (be_replay _ 0)) => apply inert_backend, quiet_replay
      | |- inert (storage (be_load_session _)) => apply inert_storage, law_load
      | |- inert (backend (be_load_session _)) => apply inert_backend, law_load
      | |- inert (backend be_load_sessions) => apply inert_backend, law_load_all
      | |- inert (storage (be_load_session_state _)) => apply inert_storage, law_load_state
      | |- inert (storage (be_lookup_command_outcome _ _ _ _)) => apply inert_storage, law_lookup
      | |- inert (storage (be_record_command_outcome _ _ _ _ _)) => apply inert_storage, law_record
      | |- inert (storage (be_list_session_metadata _ _)) => apply inert_storage, law_list
      | |- inert (storage (be_is_deleted _)) => apply inert_storage, law_is_deleted
      | |- inert (storage (be_ensure_session_deletable _)) => apply inert_storage, law_deletable
      | |- inert (backend (be_ensure_session_deletable _)) => apply inert_backend, law_deletable
      | |- inert (backend be_resume_session_creations) => apply inert_backend, law_resume_creations
      | |- inert (match ?x with _ => _ end) => destruct x
      end ].

Section parts.
Context `{StorageEnv} `{DaemonEnv} `{FileSystem} {S : Type} `{BackendLaws S}.

Lemma inert_hydrate_stored stored : inert (S := S) (hydrate_stored_session stored).
Proof. unfold hydrate_stored_session. inert. Qed.

Lemma inert_hydrate sid : inert (S := S) (hydrate sid).
Proof. unfold hydrate. inert; apply inert_hydrate_stored. Qed.

Lemma inert_configuration sid : inert (S := S) (session_configuration sid).
Proof. unfold session_configuration. inert; apply inert_hydrate_stored. Qed.

Lemma inert_history sid : inert (S := S) (history sid).
Proof. unfold history. inert. Qed.

Lemma inert_state sid : inert (S := S) (current_session_state sid).
Proof. unfold current_session_state. inert. Qed.

Lemma inert_cached sid req method parameters :
  inert (S := S) (cached_outcome sid req method parameters).
Proof. unfold cached_outcome. inert. Qed.

Lemma inert_record sid req method parameters outcome :
  inert (S := S) (record_outcome sid req method parameters outcome).
Proof. unfold record_outcome. inert. Qed.

Lemma inert_new_id {E} : inert (S := S) (E := E) new_id.
Proof. apply inert_draw. Qed.

Lemma inert_now {E} : inert (S := S) (E := E) now_utc.
Proof. apply inert_draw. Qed.

Lemma inert_new_event sid req now kind payload attempt effect :
  inert (S := S) (new_event sid req now kind payload attempt effect).
Proof. unfold new_event. inert; apply inert_new_id. Qed.

Lemma inert_new_dispatch sid req now attempt predecessor :
  inert (S := S) (new_dispatch sid req now attempt predecessor).
Proof. unfold new_dispatch. inert; apply inert_new_id. Qed.

Lemma inert_new_terminal summary : inert (S := S) (new_terminal_payload summary).
Proof. unfold new_terminal_payload. inert; apply inert_new_id. Qed.

Lemma inert_publish_stored e : inert (S := S) (publish_stored e).
Proof. unfold publish_stored. inert. Qed.

Lemma inert_get_active {E} sid : inert (S := S) (E := E) (get_active sid).
Proof. apply inert_gets. Qed.

Lemma inert_active_for {E} sid attempt : inert (S := S) (E := E) (active_for_attempt sid attempt).
Proof. apply inert_gets. Qed.

Lemma inert_has_workflow {E} sid : inert (S := S) (E := E) (session_has_workflow sid).
Proof. apply inert_gets. Qed.

Lemma inert_route_target sid events : inert (S := S) (workflow_route_target sid events).
Proof.
  unfold workflow_route_target. inert; first [apply inert_configuration|apply inert_new_id].
Qed.

Lemma inert_session_route sid explicit role context :
  inert (S := S) (session_route sid explicit role context).
Proof. unfold session_route. inert; apply inert_configuration. Qed.
End parts.

#[export] Hint Resolve inert_hydrate_stored inert_hydrate inert_configuration inert_history
  inert_state inert_cached inert_record inert_new_id inert_now inert_new_event inert_new_dispatch
  inert_new_terminal inert_publish_stored inert_get_active inert_active_for inert_has_workflow
  inert_route_target inert_session_route : inert.
