(* ===== verification/DaemonLogic.v ===== *)
(** * DaemonLogic: a program logic for the handlers of the daemon

    [hoare P m Q]: from a state that satisfies [P] the operation ends in [Q], and when
    it fails the invariant of the daemon still holds. What a handler knows is the
    assertion [holds D sid Φ]: the invariant, that the session's identifier was drawn
    (when [D]), and a property [Φ] of the history of the session that further events
    do not falsify. There is one rule for each operation that is not inert. *)

From S2P Require Import StorageKeys StorageTables StorageDb StorageDisk StorageExport.
From S2P Require Import Prelude StateResult Text BTree Errors Value Attempt Policy Routing.
From S2P Require Import Event Workflow Ports Json Wire ProtoCommand ProtoReply Subscription.
From S2P Require Import ConfigModel ConfigValidate ConfigMerge ConfigPreflight FileSystem ConfigLock.
From S2P Require Import StorageKeys StorageTables StorageDb StorageOps.
From S2P Require Import DaemonModel DaemonWorkflow DaemonHub DaemonBackend DaemonApp.
From S2P Require Import DaemonHandlers DaemonTasks DaemonHistory DaemonInv.

(** Properties of a history that its extensions have too. *)
Class Mono (Φ : list StoredEvent → Prop) : Prop := mono h k : Φ h → Φ (h ++ k).

#[export] Instance mono_true : Mono (λ _, True).
Proof. done. Qed.
#[export] Instance mono_pure φ : Mono (λ _, φ).
Proof. by intros h k. Qed.
#[export] Instance mono_and Φ Ψ : Mono Φ → Mono Ψ → Mono (λ h, Φ h ∧ Ψ h).
Proof. intros HΦ HΨ h k [??]. split; by apply mono. Qed.
#[export] Instance mono_impl φ Φ : Mono Φ → Mono (λ h, φ → Φ h).
Proof. intros HΦ h k Hh Hφ. by apply mono, Hh. Qed.
#[export] Instance mono_prefix l : Mono (λ h, l `prefix_of` h).
Proof. intros h k [r ->]. rewrite <- app_assoc. by exists (r ++ k). Qed.

Section know.
Context `{StorageEnv}.

#[export] Instance mono_granted : Mono granted.
Proof. intros h k. apply granted_app. Qed.
#[export] Instance mono_started attempt : Mono (λ h, started_in h attempt).
Proof. intros h k. apply started_app. Qed.

(** The inputs are stored in the history. *)
Definition recorded (events : list EventInput) (h : list StoredEvent) : Prop :=
  ∀ e, e ∈ events → ∃ sequence, persisted_as e sequence ∈ h.

#[export] Instance mono_recorded events : Mono (recorded events).
Proof. intros h k Hh e [n He]%Hh. exists n. apply elem_of_app. by left. Qed.

(** *** Batches of events a history may be extended with *)

Definition input_ok (e : EventInput) : Prop :=
  value_wf (ei_payload e) = true ∧
  ∃ kind, ei_kind e = event_kind_name kind ∧ kind ≠ EK_ApprovalRecorded.

(** An event that needs no grant and cancels nothing. *)
Definition free (sid : Uuid) (e : EventInput) : Prop :=
  ei_session_id e = sid ∧ input_ok e ∧ needs_grant (ei_kind e) = false ∧
  ei_kind e ≠ "cancel_requested".

Record batch_ok (Φ : list StoredEvent → Prop) (sid : Uuid) (events : list EventInput) : Prop := {
  bo_session : Forall (λ e, ei_session_id e = sid) events;
  bo_payload : Forall (λ e, value_wf (ei_payload e) = true) events;
  bo_good h : good_history h → Φ h → good_history (h ++ stored_after (length h) events);
}.

Lemma input_event_ok e n : input_ok e → event_ok (persisted_as e n).
Proof.
  intros [Hw (kind & Hk & Hne)]. split_and!; simpl; [done| |].
  - exists kind. rewrite Hk. apply parse_event_kind_name.
  - rewrite Hk. intros Heq. by apply (event_kind_name_inj kind EK_ApprovalRecorded) in Heq.
Qed.

Lemma stored_ok n events : Forall input_ok events → Forall event_ok (stored_after n events).
Proof.
  intros Hf. apply stored_Forall. intros e k He. apply input_event_ok.
  rewrite Forall_forall in Hf. by apply Hf.
Qed.

Lemma inputs_payload events :
  Forall input_ok events → Forall (λ e, value_wf (ei_payload e) = true) events.
Proof. intros Hf. eapply Forall_impl; [exact Hf|]. by intros e [? _]. Qed.

Lemma batch_free Φ sid events : Forall (free sid) events → batch_ok Φ sid events.
Proof.
  intros Hf. assert (Forall input_ok events) as Hok by (eapply Forall_impl; [exact Hf|by intros e (_ & ? & _)]).
  split; [|by apply inputs_payload|].
  - eapply Forall_impl; [exact Hf|]. by intros e (? & _).
  - intros h Hh _. apply good_free; [done|apply stored_numbered|by apply stored_ok|].
    apply stored_Forall. intros e n He. rewrite Forall_forall in Hf.
    by destruct (Hf e He) as (_ & _ & ? & ?).
Qed.

Lemma batch_granted (Φ : list StoredEvent → Prop) sid events :
  (∀ h, good_history h → Φ h → granted h) → Forall (λ e, ei_session_id e = sid) events →
  Forall input_ok events → batch_ok Φ sid events.
Proof.
  intros Hg Hs Hok. split; [done|by apply inputs_payload|].
  intros h Hh HΦ. apply good_granted; [done|apply stored_numbered|by apply stored_ok|by apply Hg].
Qed.

(** A grant, and whatever it permits. *)
Lemma batch_grants Φ sid e rest approval :
  value_wf (ei_payload e) = true → ei_kind e = "approval_recorded" →
  (∀ n, recorded_decision (persisted_as e n) = Ok (approval, AD_Grant)) →
  Forall (λ e, ei_session_id e = sid) (e :: rest) → Forall input_ok rest →
  batch_ok Φ sid (e :: rest).
Proof.
  intros Hw Hk Hd Hs Hok. split; [done|constructor; [done|by apply inputs_payload]|].
  intros h Hh _. eapply good_grants; [done|apply stored_numbered| |done|].
  - apply stored_Forall. intros x n [->|Hx]%elem_of_cons.
    + split_and!; [done| |eauto]. exists EK_ApprovalRecorded. simpl. rewrite Hk.
      apply (parse_event_kind_name EK_ApprovalRecorded).
    + apply input_event_ok. rewrite Forall_forall in Hok. by apply Hok.
  - split; [done|]. eauto.
Qed.

(** A denied approval. *)
Lemma batch_decided Φ sid e rest d :
  value_wf (ei_payload e) = true → ei_kind e = "approval_recorded" →
  (∀ n, recorded_decision (persisted_as e n) = Ok d) → ei_session_id e = sid →
  Forall (free sid) rest → batch_ok Φ sid (e :: rest).
Proof.
  intros Hw Hk Hd Hs Hf.
  assert (Forall input_ok rest) as Hok by (eapply Forall_impl; [exact Hf|by intros x (_ & ? & _)]).
  split.
  - constructor; [done|]. eapply Forall_impl; [exact Hf|]. by intros x (? & _).
  - constructor; [done|by apply inputs_payload].
  - intros h Hh _. apply good_free; [done|apply stored_numbered|..].
    + apply stored_Forall. intros x n [->|Hx]%elem_of_cons.
      * split_and!; [done| |eauto]. exists EK_ApprovalRecorded. simpl. rewrite Hk.
        apply (parse_event_kind_name EK_ApprovalRecorded).
      * apply input_event_ok. rewrite Forall_forall in Hok. by apply Hok.
    + apply stored_Forall. intros x n [->|Hx]%elem_of_cons; simpl; [by rewrite Hk|].
      rewrite Forall_forall in Hf. by destruct (Hf x Hx) as (_ & _ & ? & ?).
Qed.

Lemma stored_after_app n l l' :
  stored_after n (l ++ l') = stored_after n l ++ stored_after (n + length l) l'.
Proof.
  unfold stored_after. rewrite imap_app. f_equal. apply imap_ext. intros i e _. simpl.
  f_equal. f_equal. lia.
Qed.

(** A cancellation that is confirmed at once. *)
Lemma batch_ends Φ sid events e :
  Forall (λ e, ei_session_id e = sid) (events ++ [e]) → Forall input_ok (events ++ [e]) →
  Forall (λ e, needs_grant (ei_kind e) = false) (events ++ [e]) →
  ei_kind e = "session_cancelled" → batch_ok Φ sid (events ++ [e]).
Proof.
  intros Hs Hok Hn Hk. split; [done|by apply inputs_payload|].
  intros h Hh _. eapply good_ends; [done|apply stored_numbered|by apply stored_ok|..].
  - by rewrite stored_after_app.
  - simpl. by rewrite Hk.
  - apply stored_Forall. intros x n Hx. rewrite Forall_forall in Hn. by apply Hn.
Qed.

Lemma stored_recorded n h events : recorded events (h ++ stored_after n events).
Proof.
  intros e [i Hi]%list_elem_of_lookup. eexists. apply elem_of_app. right.
  apply (list_elem_of_lookup_2 _ i). unfold stored_after. rewrite list_lookup_imap, Hi. done.
Qed.
End know.

Section logic.
Context `{StorageEnv} `{DaemonEnv} `{FileSystem} {S : Type} `{BackendLaws S}.
Implicit Types a : Application S.

Definition hoare {E A} (P : Application S → Prop) (m : AM (S := S) E A)
    (Q : A → Application S → Prop) : Prop :=
  ∀ a, P a → match m a with (a', Ok x) => Q x a' | (a', Err _) => AInv a' end.

(** What remains true of the daemon whatever happens. *)
Definition safe {E A} (P : Application S → Prop) (m : AM (S := S) E A) : Prop :=
  hoare P m (λ _, AInv).

Record holds (D : Prop) (sid : Uuid) (Φ : list StoredEvent → Prop) a : Prop := {
  ho_inv : AInv a;
  ho_drawn : D → drawn a sid;
  ho_history h : hist a sid h → Φ h;
}.

(** *** Rules of the logic *)

Lemma safe_inv {E A} P (m : AM E A) a : safe P m → P a → AInv (m a).1.
Proof. intros Hm Ha. specialize (Hm a Ha). by destruct (m a) as [a' [x|e]]. Qed.

Lemma hoare_pre {E A} (P P' : Application S → Prop) (m : AM E A) Q :
  (∀ a, P' a → P a) → hoare P m Q → hoare P' m Q.
Proof. intros HP Hm a Ha. by apply Hm, HP. Qed.

Lemma hoare_post {E A} P (m : AM E A) (Q Q' : A → Application S → Prop) :
  (∀ x a, Q x a → Q' x a) → hoare P m Q → hoare P m Q'.
Proof. intros HQ Hm a Ha. specialize (Hm a Ha). destruct (m a) as [a' [x|e]]; [by apply HQ|done]. Qed.

Lemma hoare_pure {E A} (φ : Prop) P (m : AM E A) Q :
  (φ → hoare P m Q) → hoare (λ a, φ ∧ P a) m Q.
Proof. intros Hm a [Hφ Ha]. by apply Hm. Qed.

Lemma hoare_ret {E A} (Q : A → Application S → Prop) (x : A) : hoare (E := E) (Q x) (st_ret x) Q.
Proof. by intros a. Qed.

Lemma hoare_bind {E A B} P (m : AM E A) (k : A → AM E B) Q R :
  hoare P m Q → (∀ x, hoare (Q x) (k x) R) → hoare P (st_bind m k) R.
Proof.
  intros Hm Hk a Ha. unfold st_bind. specialize (Hm a Ha).
  destruct (m a) as [a' [x|e]]; [by apply Hk|done].
Qed.

Lemma hoare_ret_bind {E A B} P x (k : A → AM E B) R :
  hoare P (k x) R → hoare P (st_bind (st_ret x) k) R.
Proof. intros Hk a. exact (Hk a). Qed.

Lemma hoare_convert {E F A} (f : E → F) P (m : AM E A) Q : hoare P m Q → hoare P (convert f m) Q.
Proof.
  intros Hm a Ha. specialize (Hm a Ha). unfold convert. by destruct (m a) as [a' [x|[]]].
Qed.

Lemma safe_try {E F A} P (m : AM E A) : safe P m → safe (E := F) P (st_try m).
Proof.
  intros Hm a Ha. specialize (Hm a Ha). unfold st_try. by destruct (m a) as [a' [x|e]].
Qed.

Lemma holds_same_core D sid Φ a a' : same_core a a' → holds D sid Φ a → holds D sid Φ a'.
Proof.
  intros Hc [Hi Hd Hh]. split; [by eapply AInv_same_core| |].
  - intros HD. eapply drawn_mono; [apply Hc|by apply Hd].
  - intros h Hx. apply Hh. by apply (sc_quiet _ _ Hc).
Qed.

Lemma hoare_inert {E A} D sid Φ (m : AM E A) :
  inert m → hoare (holds D sid Φ) m (λ _, holds D sid Φ).
Proof.
  intros Hm a Ha. specialize (Hm _ a (ai_ok _ (ho_inv _ _ _ _ Ha))).
  destruct (m a) as [a' [x|e]]; simpl in Hm; [by eapply holds_same_core|].
  eapply AInv_same_core; [done|apply Ha].
Qed.

Lemma safe_inert {E A} (m : AM E A) : inert m → safe AInv m.
Proof.
  intros Hm a Ha. specialize (Hm _ a (ai_ok _ Ha)). destruct (m a) as [a' [x|e]];
    by eapply AInv_same_core.
Qed.

Lemma hoare_lift {E A} P (r : Result A E) :
  (∀ a, P a → AInv a) → hoare P (lift r) (λ x a, r = Ok x ∧ P a).
Proof. intros HP a Ha. unfold lift, st_lift. destruct r as [x|e]; simpl; [done|by apply HP]. Qed.

Lemma holds_weaken D D' sid Φ Φ' a :
  (D' → D) → (∀ h, hist a sid h → good_history h → Φ h → Φ' h) →
  holds D sid Φ a → holds D' sid Φ' a.
Proof.
  intros HD HΦ [Hi Hd Hh]. split; [done|tauto|]. intros h Hx. apply HΦ; [done| |by apply Hh].
  by eapply ai_good.
Qed.

Lemma AInv_holds a sid : AInv a → holds False sid (λ _, True) a.
Proof. by split. Qed.

(** *** Histories that grow *)

Lemma supported_app h k t : supported h t → supported (h ++ k) t.
Proof.
  destruct t; simpl; try done; try apply started_app; try apply granted_app;
    case_match; first [apply started_app|apply granted_app].
Qed.

(** Histories of the new state extend those of the old one. *)
Definition continues a (s : S) : Prop :=
  ∀ x h', history_of s x h' → good_history h' ∧ ∃ h k, hist a x h ∧ h' = h ++ k.

Lemma AInv_continues a s : AInv a → backend_ok (drawn a) s → continues a s → AInv (set_storage s a).
Proof.
  intros [_ Hgood Hids Hact Htasks Hcalls] Hok Hc. split; simpl; [done|..].
  - intros sid h Hh. by apply (Hc sid h).
  - intros sid h Hh. destruct (Hc sid h Hh) as (_ & h0 & k & Hh0 & _). by eapply Hids.
  - intros sid e [Hd Hs]%Hact. split; [done|]. intros h Hh.
    destruct (Hc _ h Hh) as (_ & h0 & k & Hh0 & ->). by apply started_app, Hs.
  - intros t [Hd Hs]%Htasks. split; [done|]. intros h Hh.
    destruct (Hc _ h Hh) as (_ & h0 & k & Hh0 & ->). by apply supported_app, Hs.
  - intros c [Hd Hs]%Hcalls. split; [done|]. intros h Hh.
    destruct (Hc _ h Hh) as (_ & h0 & k & Hh0 & ->). by apply started_app, Hs.
Qed.

Lemma AInv_quiet a s :
  AInv a → backend_ok (drawn a) s → quiet history_of (ap_storage a) s → AInv (set_storage s a).
Proof.
  intros Ha Hok Hq. apply AInv_continues; [done|done|]. intros x h Hh. apply Hq in Hh.
  split; [by eapply ai_good|]. exists h, []. by rewrite app_nil_r.
Qed.

Lemma holds_quiet D sid Φ a s :
  holds D sid Φ a → backend_ok (drawn a) s → quiet history_of (ap_storage a) s → holds D sid Φ (set_storage s a).
Proof.
  intros [Hi Hd Hh] Hok Hq. split; [by apply AInv_quiet|done|]. intros h Hh'. by apply Hh, Hq.
Qed.

(** The state after the session was extended with the stored inputs. *)
Lemma holds_extends D sid Φ `{!Mono Φ} a s events persisted :
  holds D sid Φ a → backend_ok (drawn a) s → batch_ok Φ sid events →
  extends history_of sid persisted (ap_storage a) s →
  (∀ h, hist a sid h → persisted = stored_after (length h) events) →
  holds D sid (λ h, Φ h ∧ recorded events h) (set_storage s a).
Proof.
  intros [Hi Hd Hh] Hok Hb Hx Hp. split; [|done|].
  - apply AInv_continues; [done|done|]. intros x h' Hh'. apply Hx in Hh'. case_decide as Heq.
    + destruct Hh' as (h & Hh0 & ->). subst x. split; [|by exists h, persisted].
      rewrite (Hp h Hh0). apply (bo_good _ _ _ Hb); [by eapply ai_good|by apply Hh].
    + split; [by eapply ai_good|]. exists h', []. by rewrite app_nil_r.
  - intros h' Hh'. apply Hx in Hh'. rewrite decide_True in Hh' by done.
    destruct Hh' as (h & Hh0 & ->). split; [by apply mono, Hh|].
    rewrite (Hp h Hh0). apply stored_recorded.
Qed.

Lemma hoare_append_event D sid Φ `{!Mono Φ} e :
  batch_ok Φ sid [e] →
  hoare (holds D sid Φ) (backend (be_append_event e))
    (λ _, holds D sid (λ h, Φ h ∧ recorded [e] h)).
Proof.
  intros Hb a Ha. unfold backend. destruct (be_append_event e (ap_storage a)) as [s r] eqn:Hs.
  pose proof (bo_session _ _ _ Hb) as Hsid. pose proof (Forall_inv Hsid) as Hsid1. simpl in Hsid1.
  pose proof (bo_payload _ _ _ Hb) as Hw. pose proof (Forall_inv Hw) as Hw1.
  eapply law_append_event in Hs as [Hok Hr]; [|apply Ha|done].
  destruct r as [x|err]; simpl.
  - rewrite Hsid1 in Hr. destruct Hr as [Hx Hp]. by eapply (holds_extends D sid Φ a s [e] [x]).
  - eapply ho_inv. by eapply holds_quiet.
Qed.

Lemma hoare_append_events D sid Φ `{!Mono Φ} events :
  batch_ok Φ sid events → events ≠ [] →
  hoare (holds D sid Φ) (backend (be_append_events events))
    (λ _, holds D sid (λ h, Φ h ∧ recorded events h)).
Proof.
  intros Hb Hne a Ha. unfold backend. destruct (be_append_events events (ap_storage a)) as [s r] eqn:Hs.
  eapply law_append_events in Hs as [Hok Hr]; [|apply Ha|apply Hb].
  destruct r as [persisted|err]; simpl.
  - destruct events as [|e events]; [done|]. pose proof (bo_session _ _ _ Hb) as Hsid.
    pose proof (Forall_inv Hsid) as Hsid1. simpl in Hsid1. rewrite Hsid1 in Hr. destruct Hr as [Hx Hp].
    by eapply holds_extends.
  - eapply ho_inv. by eapply holds_quiet.
Qed.

(** What a committed command recorded, unless it was repeated. *)
Definition committed (Φ : list StoredEvent → Prop) (events : list EventInput) (replayed : bool)
    (h : list StoredEvent) : Prop :=
  Φ h ∧ (replayed = false → recorded events h).

#[export] Instance mono_committed Φ events replayed : Mono Φ → Mono (committed Φ events replayed).
Proof. unfold committed. apply _. Qed.

Lemma hoare_commit_events D sid Φ `{!Mono Φ} request method parameters outcome events :
  batch_ok Φ sid events →
  hoare (holds D sid Φ) (commit_events request method parameters outcome events)
    (λ r, holds D sid (committed Φ events r.2)).
Proof.
  intros Hb. unfold commit_events. eapply hoare_bind with
    (Q := λ r, holds D sid (committed Φ events (match r with CES_Replay _ => true | _ => false end))).
  - apply hoare_convert. intros a Ha. unfold backend.
    destruct (be_commit_command_events _ _ _ _ events (ap_storage a)) as [s r] eqn:Hs.
    eapply law_commit in Hs as [Hok Hr]; [|apply Ha|apply Hb].
    destruct r as [[persisted value|value]|err]; simpl.
    + destruct Hr as (first & Hf & Hx & Hp). destruct events as [|e events]; [done|].
      injection Hf as ->. pose proof (bo_session _ _ _ Hb) as Hsid.
      pose proof (Forall_inv Hsid) as Hsid1. simpl in Hsid1. rewrite Hsid1 in Hx, Hp.
      eapply holds_weaken; [done| |by eapply (holds_extends D sid Φ)]. by intros h _ _ [??].
    + eapply holds_weaken; [done| |by eapply holds_quiet]. by intros h _ _ ?.
    + eapply ho_inv. by eapply holds_quiet.
  - intros [persisted value|value]; [|by intros a Ha].
    eapply hoare_bind; [apply hoare_inert; inert|]. intros ?.
    by intros a Ha.
Qed.

Lemma hoare_commit_event D sid Φ `{!Mono Φ} request method parameters outcome kind payload attempt
    effect :
  (∀ id now, batch_ok Φ sid [command_event id sid request now kind payload attempt effect]) →
  hoare (holds D sid Φ)
    (commit_event sid request method parameters outcome kind payload attempt effect)
    (λ _, holds D sid Φ).
Proof.
  intros Hb. unfold commit_event. eapply hoare_bind; [apply hoare_inert; inert|]. intros id.
  eapply hoare_bind; [apply hoare_inert; inert|]. intros now.
  specialize (Hb id now). set (e := command_event _ _ _ _ _ _ _ _) in *.
  eapply hoare_bind with (Q := λ _, holds D sid Φ).
  - apply hoare_convert. intros a Ha. unfold backend.
    destruct (be_commit_command_event _ _ _ _ e (ap_storage a)) as [s r] eqn:Hs.
    pose proof (bo_payload _ _ _ Hb) as Hw. pose proof (Forall_inv Hw) as Hw1.
    eapply law_commit_event in Hs as [Hok Hr]; [|apply Ha|done].
    destruct r as [[x value|value]|err]; simpl; [|by eapply holds_quiet|eapply ho_inv; by eapply holds_quiet].
    destruct Hr as [Hx Hp]. eapply holds_weaken; [done| |by eapply (holds_extends D sid Φ a s [e] [x])].
    by intros h _ _ [? _].
  - intros [x value|value]; [|by intros a' Ha'].
    eapply hoare_bind; [apply hoare_inert; inert|]. intros ?. by intros a' Ha'.
Qed.

Lemma hoare_append D sid Φ `{!Mono Φ} request kind payload attempt effect :
  (∀ id now, batch_ok Φ sid
    [{| ei_event_id := id; ei_session_id := sid; ei_occurred_at := now;
        ei_kind := event_kind_name kind; ei_causation_request_id := request;
        ei_attempt_id := attempt; ei_effect_class := effect; ei_payload := payload |}]) →
  hoare (holds D sid Φ) (append sid request kind payload attempt effect) (λ _, holds D sid Φ).
Proof.
  intros Hb. unfold append. eapply hoare_bind; [apply hoare_inert; inert|]. intros id.
  eapply hoare_bind; [apply hoare_inert; inert|]. intros now.
  eapply hoare_bind; [by apply hoare_convert, hoare_append_event|]. intros x. simpl.
  eapply hoare_bind; [apply hoare_inert; inert|]. intros e.
  eapply hoare_bind; [apply hoare_inert; inert|]. intros ?.
  intros a. apply holds_weaken; [done|]. by intros h _ _ [? _].
Qed.

(** *** Reading *)

Lemma hoare_backend_replay D sid Φ :
  hoare (holds D sid Φ) (backend (be_replay sid 0))
    (λ l a, (l ≠ [] → good_history l) ∧
            holds (D ∨ l ≠ []) sid (λ h, Φ h ∧ (l ≠ [] → l `prefix_of` h)) a).
Proof.
  intros a Ha. unfold backend. destruct (be_replay sid 0 (ap_storage a)) as [s r] eqn:Hs.
  eapply law_replay in Hs as (Hok & Hq & Hr); [|apply Ha].
  assert (holds D sid Φ (set_storage s a)) as Ha' by (by eapply holds_quiet).
  destruct r as [l|err]; simpl; [|apply Ha'].
  assert (l ≠ [] → hist a sid l) as Hl by (intros; by apply Hr).
  split; [intros; eapply ai_good; [apply Ha|by apply Hl]|].
  destruct Ha' as [Hi Hd Hh]. split; [done| |].
  - intros [HD|HD]; [by apply Hd|]. apply Hl in HD. eapply ai_ids in HD; [done|apply Ha].
  - intros h Hx. split; [by apply Hh|]. intros Hne. apply Hl in Hne.
    apply Hq in Hx. unfold hist in Hne. by rewrite (history_unique _ _ _ _ Hne Hx).
Qed.

Lemma hoare_history D sid Φ :
  hoare (holds D sid Φ) (history sid)
    (λ l a, (l ≠ [] → good_history l) ∧
            holds (D ∨ l ≠ []) sid (λ h, Φ h ∧ (l ≠ [] → l `prefix_of` h)) a).
Proof.
  unfold history. eapply hoare_bind; [apply hoare_convert, hoare_backend_replay|].
  intros l. apply hoare_pure. intros Hl. simpl.
  eapply hoare_bind; [apply hoare_inert; inert|]. intros ?.
  by intros a Ha.
Qed.

(** An active execution was started. *)
Definition backed (active : option ActiveExecution) (h : list StoredEvent) : Prop :=
  match active with Some e => started_in h (Some (ae_attempt_id e)) | None => True end.

#[export] Instance mono_backed active : Mono (backed active).
Proof. intros h k. destruct active; [apply started_app|done]. Qed.

Lemma hoare_active {E} D sid Φ (f : ActiveExecution → bool) :
  hoare (E := E) (holds D sid Φ)
    (st_gets (λ a, Ok (match ap_active a !! sid with
                       | Some e => if f e then Some e else None
                       | None => None
                       end)))
    (λ o, holds (D ∨ o ≠ None) sid (λ h, Φ h ∧ backed o h)).
Proof.
  intros a [Hi Hd Hh]. simpl. destruct (ap_active a !! sid) as [e|] eqn:He; [|by split; [|tauto|split]; auto].
  destruct (ai_active _ Hi _ _ He) as [Hdr Hst].
  destruct (f e); split; [done|done| |done|tauto|]; intros h Hx; (split; [by apply Hh|]); [by apply Hst|done].
Qed.

Lemma hoare_get_active {E} D sid Φ :
  hoare (E := E) (holds D sid Φ) (get_active sid)
    (λ o, holds (D ∨ o ≠ None) sid (λ h, Φ h ∧ backed o h)).
Proof.
  intros a Ha. pose proof (hoare_active (E := E) D sid Φ (λ _, true) a Ha) as Hr.
  unfold get_active. simpl in *. by destruct (ap_active a !! sid).
Qed.

Lemma hoare_active_for {E} D sid Φ attempt :
  hoare (E := E) (holds D sid Φ) (active_for_attempt sid attempt)
    (λ o a, (∀ e, o = Some e → ae_attempt_id e = attempt) ∧
            holds (D ∨ o ≠ None) sid (λ h, Φ h ∧ backed o h) a).
Proof.
  intros a Ha. unfold active_for_attempt.
  pose proof (hoare_active (E := E) D sid Φ (λ e, bool_decide (ae_attempt_id e = attempt)) a Ha) as Hr.
  simpl in *. split; [|done]. intros e. destruct (ap_active a !! sid); [|done].
  case_bool_decide; [|done]. by intros [= <-].
Qed.

(** *** Scheduling *)

Lemma hoare_spawn {E} (D : Prop) sid Φ t :
  D → task_session t = sid → (∀ h, good_history h → Φ h → supported h t) →
  hoare (E := E) (holds D sid Φ) (spawn t) (λ _, holds D sid Φ).
Proof.
  intros HD Hsid Hsup a [Hi Hd Hh]. split; [|done|done]. destruct Hi as [Hok Hgood Hids Hact Htasks Hcalls]. split; simpl; try done.
  intros t' [Ht| ->%list_elem_of_singleton]%elem_of_app; [by apply Htasks|].
  rewrite Hsid. split; [by apply Hd|]. intros h Hx. apply Hsup; [by eapply Hgood|by apply Hh].
Qed.

Lemma hoare_log_call {E} (D : Prop) sid Φ c :
  D → call_session c = sid → (∀ h, good_history h → Φ h → started_in h (Some (call_attempt c))) →
  hoare (E := E) (holds D sid Φ) (log_call c) (λ _, holds D sid Φ).
Proof.
  intros HD Hsid Hsup a [Hi Hd Hh]. split; [|done|done]. destruct Hi as [Hok Hgood Hids Hact Htasks Hcalls]. split; simpl; try done.
  intros c' [Hc| ->%list_elem_of_singleton]%elem_of_app; [by apply Hcalls|].
  rewrite Hsid. split; [by apply Hd|]. intros h Hx. apply Hsup; [by eapply Hgood|by apply Hh].
Qed.

Lemma hoare_insert_active {E} (D : Prop) sid Φ e :
  D → (∀ h, good_history h → Φ h → started_in h (Some (ae_attempt_id e))) →
  hoare (E := E) (holds D sid Φ) (insert_active sid e) (λ _, holds D sid Φ).
Proof.
  intros HD Hsup a [Hi Hd Hh]. split; [|done|done]. destruct Hi as [Hok Hgood Hids Hact Htasks Hcalls]. split; simpl; try done.
  intros x e' [[<- <-]|[_ He]]%lookup_insert_Some; [|by apply Hact].
  split; [by apply Hd|]. intros h Hx. apply Hsup; [by eapply Hgood|by apply Hh].
Qed.

Lemma AInv_sub_active a active :
  AInv a → active ⊆ ap_active a → AInv (set_active active a).
Proof.
  intros [Hok Hgood Hids Hact Htasks Hcalls] Hsub. split; simpl; try done. intros sid e He. apply Hact.
  by eapply lookup_weaken.
Qed.

Lemma hoare_delete_active {E} D sid Φ x :
  hoare (E := E) (holds D sid Φ) (delete_active x) (λ _, holds D sid Φ).
Proof.
  intros a [Hi Hd Hh]. split; [|done|done]. apply AInv_sub_active; [done|apply delete_subseteq].
Qed.

Lemma hoare_remove_active {E} D sid Φ attempt :
  hoare (E := E) (holds D sid Φ) (remove_active_attempt sid attempt) (λ _, holds D sid Φ).
Proof.
  unfold remove_active_attempt. eapply hoare_bind; [apply hoare_inert; inert|].
  intros [e|]; [apply hoare_delete_active|by intros a' Ha'].
Qed.
End logic.
