(* ===== verification/DaemonPayload.v ===== *)
(** * DaemonPayload: the documents the daemon stores are well formed

    [FiniteCodec]: a type that serializes without non-finite numbers, whatever its
    value; the canonical document of such a value is well formed, so that the storage
    reads back what was written. Also here: a route never carries more permission than
    the policy of the configuration grants a paid prompt, which is never read-only. *)

From S2P Require Import StorageKeys StorageTables StorageDb StorageDisk StorageExport.
From S2P Require Import Prelude Text BTree Errors Value Attempt Policy Routing Event Workflow.
From S2P Require Import Json Wire ProtoCommand ProtoReply Ports.
From S2P Require Import ConfigModel ConfigValidate ConfigPreflight FileSystem ConfigLock.
From S2P Require Import StorageKeys StorageTables StorageDb DaemonModel DaemonWorkflow DaemonApp.

(** ** Codecs that only write finite numbers *)

Class FiniteCodec {A} (c : Codec A) : Prop := enc_finite a : numbers_finite (enc c a) = true.

Class FiniteFields {A} (f : Fields A) : Prop :=
  fields_finite a : forallb (λ e, numbers_finite e.2) (f_enc f a) = true.

Section finite.
Context {A B R T : Type}.

#[export] Instance finite_string : FiniteCodec string_codec.
Proof. done. Qed.
#[export] Instance finite_bool : FiniteCodec bool_codec.
Proof. done. Qed.
#[export] Instance finite_uint max : FiniteCodec (uint_codec max).
Proof. done. Qed.
#[export] Instance finite_usize : FiniteCodec usize_codec.
Proof. done. Qed.
#[export] Instance finite_f64 : FiniteCodec f64_codec.
Proof. intros f. simpl. by destruct (is_finite f) eqn:Hf. Qed.
#[export] Instance finite_via (print : A → string) parse : FiniteCodec (via_string print parse).
Proof. done. Qed.
#[export] Instance finite_enum (variants : list A) name : FiniteCodec (enum_codec variants name).
Proof. done. Qed.
#[export] Instance finite_vec (c : Codec A) : FiniteCodec c → FiniteCodec (vec_codec c).
Proof. intros Hc l. simpl. induction l; simpl; [done|]. by rewrite (Hc _). Qed.
#[export] Instance finite_map (c : Codec A) : FiniteCodec c → FiniteCodec (map_codec c).
Proof. intros Hc l. simpl. induction l; simpl; [done|]. by rewrite (Hc _). Qed.
#[export] Instance finite_struct (f : Fields T) (unpack : R → T) pack :
  FiniteFields f → FiniteCodec (struct_codec f unpack pack).
Proof. intros Hf r. apply Hf. Qed.
#[export] Instance finite_open (f : Fields T) (unpack : R → T) pack :
  FiniteFields f → FiniteCodec (open_struct_codec f unpack pack).
Proof. intros Hf r. apply Hf. Qed.

#[export] Instance finite_none : FiniteFields no_fields.
Proof. done. Qed.
#[export] Instance finite_required name (c : Codec A) (f : Fields B) :
  FiniteCodec c → FiniteFields f → FiniteFields (required name c f).
Proof. intros Hc Hf [a b]. simpl. by rewrite (Hc a), (Hf b). Qed.
#[export] Instance finite_defaulted name d (c : Codec A) (f : Fields B) :
  FiniteCodec c → FiniteFields f → FiniteFields (defaulted name d c f).
Proof. intros Hc Hf [a b]. simpl. by rewrite (Hc a), (Hf b). Qed.
#[export] Instance finite_optional d name (c : Codec A) (f : Fields B) :
  FiniteCodec c → FiniteFields f → FiniteFields (optional d name c f).
Proof. intros Hc Hf [[a|] b]; simpl; rewrite ?(Hc a); apply (Hf b). Qed.
#[export] Instance finite_nullable name (c : Codec A) (f : Fields B) :
  FiniteCodec c → FiniteFields f → FiniteFields (nullable name c f).
Proof. intros Hc Hf [[a|] b]; simpl; rewrite ?(Hc a); apply (Hf b). Qed.
#[export] Instance finite_skipped name d skip (c : Codec A) (f : Fields B) :
  FiniteCodec c → FiniteFields f → FiniteFields (skipped name d skip c f).
Proof.
  intros Hc Hf [a b]. simpl. destruct (skip a); simpl; rewrite ?(Hc a); apply (Hf b).
Qed.
End finite.

(** Derives the instance of a struct from those of its fields. *)
Ltac finite :=
  repeat first
    [ assumption | solve [typeclasses eauto]
    | match goal with
      | |- FiniteCodec (struct_codec _ _ _) => apply finite_struct
      | |- FiniteCodec (open_struct_codec _ _ _) => apply finite_open
      | |- FiniteCodec (vec_codec _) => apply finite_vec
      | |- FiniteCodec (map_codec _) => apply finite_map
      | |- FiniteCodec ?c => let h := head_of c in unfold h
      | |- FiniteFields (required _ _ _) => apply finite_required
      | |- FiniteFields (defaulted _ _ _ _) => apply finite_defaulted
      | |- FiniteFields (optional _ _ _ _) => apply finite_optional
      | |- FiniteFields (nullable _ _ _) => apply finite_nullable
      | |- FiniteFields (skipped _ _ _ _ _) => apply finite_skipped
      end ]
with head_of c := lazymatch c with ?f _ => head_of f | _ => c end.

#[export] Instance finite_configuration : FiniteCodec WorkbenchConfiguration_codec.
Proof. finite. Qed.
#[export] Instance finite_lock : FiniteCodec WorkbenchLock_codec.
Proof. finite. Qed.
#[export] Instance finite_run : FiniteCodec WorkflowRun_codec.
Proof. finite. Qed.

(** ** Documents *)

Section documents.
Context `{StorageEnv}.

#[export] Instance finite_created : FiniteCodec (CreateSessionResult_codec uuid_text uuid_parse).
Proof. finite. Qed.

Lemma to_value_wf {A} (c : Codec A) a : FiniteCodec c → value_wf (to_value c a) = true.
Proof. intros Hc. apply canonical_wf, Hc. Qed.

Lemma redact_wf key v : value_wf v = true → value_wf (redact key v) = true.
Proof.
  revert key. induction v as [|b|n|s|vs IH|es IH] using Value_nested_ind; intros key Hv;
    (destruct (keyed_secret key) eqn:Hs; [by rewrite redact_secret|rewrite redact_public by done]);
    simpl in *; try done.
  - rewrite forallb_Forall in *. apply Forall_map. rewrite Forall_forall in *.
    intros x Hx. by apply IH, Hv.
  - apply andb_true_iff in Hv as [Hk Hv]. rewrite forallb_Forall in Hv.
    apply andb_true_iff. split; [|rewrite forallb_Forall; apply Forall_map; rewrite Forall_forall in *;
      intros x Hx; by apply IH, Hv].
    by assert ((List.map (λ e, (e.1, redact (Some e.1) e.2)) es).*1 = es.*1) as ->
      by (clear; induction es; simpl; f_equal; done).
Qed.

Lemma numbers_finite_wf v : value_wf v = true → numbers_finite v = true.
Proof. intros Hv. by apply value_wf_accepted. Qed.

Lemma snapshot_value_wf (s : ConfigurationSnapshot) :
  value_wf (cs_configuration s) = true →
  value_wf (to_value ConfigurationSnapshot_codec s) = true.
Proof.
  intros Hs. apply canonical_wf. pose proof (finite_vec string_codec finite_string (cs_sources s)) as Hv.
  simpl in *. by rewrite Hv, numbers_finite_wf.
Qed.

Lemma snapshot_wf config sources :
  value_wf (to_value ConfigurationSnapshot_codec
    (snapshot_create config_json blake3_hex config sources)) = true.
Proof. apply snapshot_value_wf, redact_wf, canonical_wf, finite_configuration. Qed.

Lemma created_wf hash lock_hash workflow :
  value_wf (VObject ([("configuration_hash", VString hash); ("lock_hash", VString lock_hash)]
    ++ match workflow with Some w => [("workflow_id", VString w)] | None => [] end)) = true.
Proof. by destruct workflow. Qed.

Lemma transition_wf run reason : value_wf (transition_payload run reason) = true.
Proof.
  unfold transition_payload. cbn [value_wf fmap list_fmap fst snd keys_sorted forallb].
  rewrite to_value_wf by apply _. reflexivity.
Qed.

Lemma text_array_wf l : value_wf (text_array l) = true.
Proof. simpl. by induction l. Qed.

Lemma object_wf (m : BTreeMap Value) :
  value_wf (VObject m) = true ↔ bt_wf m ∧ Forall (λ e, value_wf e.2 = true) m.
Proof. simpl. by rewrite andb_true_iff, keys_sorted_iff, forallb_Forall. Qed.

Lemma bt_insert_elem {V} k (v : V) m e : e ∈ bt_insert k v m → e = (k, v) ∨ e ∈ m.
Proof.
  induction m as [|[k' v'] m IH]; simpl; [set_solver|].
  repeat case_match; set_solver.
Qed.

Lemma extend_wf (more m : BTreeMap Value) :
  value_wf (VObject m) = true → Forall (λ e, value_wf e.2 = true) more →
  value_wf (VObject (bt_extend m more)) = true.
Proof.
  unfold bt_extend. intros Hm Hmore. revert m Hm. induction Hmore as [|[k v] more Hv _ IH]; intros m Hm; simpl; [done|].
  apply IH. apply object_wf in Hm as [Hw Hf]. apply object_wf. split; [by apply bt_insert_wf|].
  rewrite Forall_forall. intros e He. apply bt_insert_elem in He as [->|He]; [done|].
  rewrite Forall_forall in Hf. by apply Hf.
Qed.

Lemma confidence_wf f : value_wf (enc f64_codec f) = true.
Proof. simpl. by destruct (is_finite f) eqn:Hf. Qed.

Lemma routing_wf plan : value_wf (VObject (routing_payload plan)) = true.
Proof.
  unfold routing_payload. cbn [value_wf fmap list_fmap fst snd forallb].
  rewrite !text_array_wf, confidence_wf. reflexivity.
Qed.

Lemma enriched_wf plan run :
  value_wf (VObject (enrich_workflow_routing (routing_payload plan) run)) = true.
Proof. apply extend_wf; [apply routing_wf|]. repeat constructor. Qed.
End documents.

(** ** Permissions of routes *)

(** A paid prompt needs an approval, or is denied. *)
Lemma provider_permission_protected config : effective_provider_permission config ≠ DM_ReadOnly.
Proof.
  unfold effective_provider_permission. set (d := resolve_tool_policy _ _).
  pose proof (protect_effect_modes d EF_PaidInference true) as [Hm _].
  destruct (pd_mode (protect_effect _ _ _)) eqn:Hd; [|done..]. by destruct (proj1 Hm eq_refl) as (_ & ? & _).
Qed.

Lemma candidate_permission config resolved permission context candidate :
  route_candidate_for_step config resolved permission context = Ok candidate →
  rc_permission (rca_context candidate) = scope_of_mode permission.
Proof.
  unfold route_candidate_for_step, RouteCandidate_new. intros Hc.
  repeat (case_match; simplify_eq/=; try done).
Qed.

Lemma permission_scope_id permission : permission_from_scope (scope_of_mode permission) = permission.
Proof. by destruct permission. Qed.

(** The plan of the router is one of the candidates it was offered. *)
Lemma route_with_permission threshold inputs rule permission plan mode :
  (∀ c, c ∈ [ri_explicit inputs; ri_workflow inputs; ri_deterministic inputs; ri_coordinator inputs] →
    ∀ x, c = Some x → rc_permission (rca_context x) = scope_of_mode permission) →
  route_with threshold inputs rule = Ok (RD_Selected plan mode) → mode = permission.
Proof.
  intros Hc. unfold route_with. destruct (OrderedRouter_new _) as [router|]; simpl; [|done].
  destruct (Routing.resolve router inputs) as [p|] eqn:Hr; [|done]. intros [= -> <-].
  unfold Routing.resolve in Hr.
  assert (∃ c, Some c ∈ [ri_explicit inputs; ri_workflow inputs; ri_deterministic inputs;
    ri_coordinator inputs] ∧ rp_context plan = rca_context c) as (c & Hin & ->).
  { repeat case_match; simplify_eq/=; eexists; (split; [|done]); set_solver. }
  rewrite (Hc (Some c) Hin c eq_refl). apply permission_scope_id.
Qed.

Lemma fallback_permission config available rule context aliases plan mode :
  fallback_route config available rule context aliases = Ok (RD_Selected plan mode) →
  mode = effective_provider_permission config.
Proof.
  induction aliases as [|alias aliases IH]; simpl; [done|].
  destruct (bt_get alias (cf_models config)) as [model|]; [|done].
  destruct (bt_get _ available) as [capabilities|]; [|done].
  case_bool_decide; [|done]. destruct (route_candidate_for_step _ _ _ _) as [c|] eqn:Hc; simpl; [|done].
  apply route_with_permission. intros o Ho x ->. simpl in Ho.
  assert (x = c) as -> by set_solver. by eapply candidate_permission.
Qed.

(** Every selected route has the permission of the policy. *)
Lemma plan_route_permission catalog config explicit role context plan mode :
  plan_route catalog config explicit role context = Some (Ok (RD_Selected plan mode)) →
  mode = effective_provider_permission config.
Proof.
  unfold plan_route. destruct (resolve_role _ _ _) as [[resolved|e]|]; simpl; [|..|done].
  - destruct (route_candidate_for_step _ _ _ _) as [c|] eqn:Hc; simpl; [|done].
    intros [= Hr]. revert Hr. apply route_with_permission. intros o Ho x ->.
    assert (x = c) as -> by (simpl in Ho; repeat case_match; set_solver).
    by eapply candidate_permission.
  - intros [= Hr]. destruct e; try done.
    + by case_match.
    + destruct context; [by eapply fallback_permission|done].
Qed.
