(* ===== verification/DaemonSafe.v ===== *)
(** * DaemonSafe: every command keeps the invariant of the daemon

    For each handler: from a state with the invariant, whatever the storage and the
    providers answer and wherever it stops, the invariant holds again. *)

From S2P Require Import StorageKeys StorageTables StorageDb StorageDisk StorageExport.
From S2P Require Import Prelude StateResult Text BTree Errors Value Attempt Policy Routing.
From S2P Require Import Event Workflow Ports Json Wire ProtoCommand ProtoReply Subscription.
From S2P Require Import ConfigModel ConfigValidate ConfigMerge ConfigPreflight FileSystem ConfigLock.
From S2P Require Import StorageKeys StorageTables StorageDb StorageOps.
From S2P Require Import DaemonModel DaemonWorkflow DaemonHub DaemonBackend DaemonApp.
From S2P Require Import DaemonHandlers DaemonTasks DaemonHistory DaemonInv DaemonLogic DaemonPayload.

(** Kinds that may be appended to any history. *)
Definition free_kind (kind : EventKind) : bool :=
  match kind with
  | EK_DispatchStarted | EK_OutcomeUnknown | EK_ApprovalRecorded | EK_CancelRequested => false
  | _ => true
  end.

(** Payloads that are objects with fixed keys, and those with a lemma. *)
Ltac payload :=
  first
    [ assumption
    | match goal with
      | |- value_wf (VObject (routing_payload _)) = true => apply routing_wf
      | |- value_wf (VObject (enrich_workflow_routing _ _)) = true => apply enriched_wf
      | |- value_wf (VObject (match ?x with Some _ => _ | None => _ end)) = true =>
          destruct x; [apply enriched_wf | apply routing_wf]
      | |- value_wf (transition_payload _ _) = true => apply transition_wf
      | |- context [option_value _ ?x] => destruct x; reflexivity
      end
    | reflexivity
    | match goal with |- context [match ?x with _ => _ end] => destruct x; reflexivity end ].

(** One step of a handler: rules for what is not inert, and then the inert rest. *)
Ltac hstep :=
  lazymatch goal with
  | |- hoare _ (st_bind (history _) _) _ =>
      eapply hoare_bind; [apply hoare_history|];
      let l := fresh "l" in let Hl := fresh "Hgood" in
      intros l; apply hoare_pure; intros Hl
  | |- hoare _ (st_bind (lift _) _) _ =>
      eapply hoare_bind; [apply hoare_lift; intros ?; apply ho_inv|];
      let x := fresh "x" in let Hx := fresh "Hx" in intros x; apply hoare_pure; intros Hx
  | |- hoare _ (st_bind (get_active _) _) _ =>
      eapply hoare_bind; [apply hoare_get_active|]; let x := fresh "active" in intros x; cbv beta
  | |- hoare _ (st_bind (active_for_attempt _ _) _) _ =>
      eapply hoare_bind; [apply hoare_active_for|];
      let x := fresh "active" in let Hx := fresh "Hactive" in intros x; apply hoare_pure; intros Hx
  | |- hoare _ (st_bind (st_ret _) _) _ => apply hoare_ret_bind
  | |- hoare _ (st_bind _ _) _ =>
      eapply hoare_bind; [apply hoare_inert; solve [inert]|]; intros ?; cbv beta
  | |- hoare _ (if ?b then _ else _) _ => destruct b eqn:?
  | |- hoare _ (match ?b with _ => _ end) _ => destruct b eqn:?
  end.

Section safe.
Context `{StorageEnvLaws} `{DaemonEnv} `{FileSystem} {S : Type} `{BackendLaws S} `{!ExportBackend S}.

(** ** Rules that end a proof *)

Lemma safe_end {E A} D sid Φ (m : AM (S := S) E A) : inert m → hoare (holds D sid Φ) m (λ _, AInv).
Proof.
  intros Hm. eapply hoare_post; [|by apply hoare_inert]. intros x a. apply ho_inv.
Qed.

Lemma safe_of {E A} D sid Φ P (m : AM (S := S) E A) :
  hoare P m (λ _, holds D sid Φ) → hoare P m (λ _, AInv).
Proof. apply hoare_post. intros x a. apply ho_inv. Qed.

Lemma safe_then {E A B} P (m : AM (S := S) E A) (k : A → AM E B) :
  hoare P m (λ _, AInv) → (∀ x, inert (k x)) → hoare P (st_bind m k) (λ _, AInv).
Proof. intros Hm Hk. eapply hoare_bind; [done|]. intros x. by apply safe_inert. Qed.

Lemma safe_session {E A} sid (m : AM (S := S) E A) :
  hoare (holds False sid (λ _, True)) m (λ _, AInv) → safe AInv m.
Proof. apply hoare_pre. intros a. apply AInv_holds. Qed.

Lemma hoare_know {E A} D D' sid Φ Φ' (m : AM (S := S) E A) Q :
  (D → D') → (∀ h, good_history h → Φ' h → Φ h) →
  hoare (holds D sid Φ) m Q → hoare (holds D' sid Φ') m Q.
Proof.
  intros HD HΦ. apply hoare_pre. intros a Ha. eapply holds_weaken; [done| |exact Ha].
  intros h _. apply HΦ.
Qed.

(** ** Events *)

Lemma free_input sid e kind :
  ei_session_id e = sid → ei_kind e = event_kind_name kind → free_kind kind = true →
  value_wf (ei_payload e) = true → free sid e.
Proof.
  intros Hs Hk Hf Hw. unfold free, input_ok. rewrite Hk. split_and!; [done|done| | |].
  - exists kind. split; [done|]. by destruct kind.
  - by destruct kind.
  - by destruct kind.
Qed.

Lemma command_input_ok id sid request now kind payload attempt effect :
  value_wf payload = true → kind ≠ EK_ApprovalRecorded →
  input_ok (command_event id sid request now kind payload attempt effect).
Proof. intros Hw Hk. split; [done|]. by exists kind. Qed.

Lemma dispatch_inputs_ok first second sid request now attempt predecessor :
  let events := dispatch_events first second sid request now attempt predecessor in
  Forall (λ e, ei_session_id e = sid) events ∧ Forall input_ok events.
Proof.
  split; repeat constructor; [by destruct predecessor| |].
  - by exists EK_DispatchPlanned.
  - by exists EK_DispatchStarted.
Qed.

Lemma dispatch_recorded first second sid request now attempt predecessor h before :
  recorded (before ++ dispatch_events first second sid request now attempt predecessor) h →
  started_in h (Some attempt).
Proof.
  intros Hr. destruct (Hr (command_event second sid request now EK_DispatchStarted
    (VObject [("attempt_id", uuid_value attempt)]) (Some attempt) PAID)) as [n Hn].
  { unfold dispatch_events. set_solver. }
  eexists. by split; [exact Hn|].
Qed.

Lemma hoare_new_event D sid Φ request now kind payload attempt effect :
  hoare (S := S) (holds D sid Φ) (new_event sid request now kind payload attempt effect)
    (λ e a, (∃ id, e = command_event id sid request now kind payload attempt effect) ∧
            holds D sid Φ a).
Proof.
  unfold new_event. hstep. intros a Ha. simpl. split; [by eexists|done].
Qed.

Lemma hoare_new_dispatch D sid Φ request now attempt predecessor :
  hoare (S := S) (holds D sid Φ) (new_dispatch sid request now attempt predecessor)
    (λ l a, (∃ i j, l = dispatch_events i j sid request now attempt predecessor) ∧
            holds D sid Φ a).
Proof.
  unfold new_dispatch. do 2 hstep. intros a Ha. simpl. split; [by do 2 eexists|done].
Qed.

Lemma hoare_new_terminal D sid Φ summary :
  hoare (S := S) (holds D sid Φ) (new_terminal_payload summary)
    (λ p a, value_wf p = true ∧ holds D sid Φ a).
Proof. unfold new_terminal_payload. hstep. intros a Ha. simpl. by split. Qed.

Lemma hoare_append_free D sid Φ `{!Mono Φ} request kind payload attempt effect :
  free_kind kind = true → value_wf payload = true →
  hoare (S := S) (holds D sid Φ) (append sid request kind payload attempt effect)
    (λ _, holds D sid Φ).
Proof.
  intros Hk Hw. apply hoare_append; [done|]. intros id now. apply batch_free.
  repeat constructor; by eapply (free_input sid _ kind).
Qed.

Lemma hoare_append_granted D sid Φ `{!Mono Φ} request kind payload attempt effect :
  kind ≠ EK_ApprovalRecorded → value_wf payload = true →
  (∀ h, good_history h → Φ h → granted h) →
  hoare (S := S) (holds D sid Φ) (append sid request kind payload attempt effect)
    (λ _, holds D sid Φ).
Proof.
  intros Hk Hw Hg. apply hoare_append; [done|]. intros id now.
  apply batch_granted; [done|by repeat constructor|]. repeat constructor; [done|]. by exists kind.
Qed.

(** ** Attempts that were started *)

Section attempts.
Context (D : Prop) (HD : D) (sid : Uuid) (Φ : list StoredEvent → Prop) `{!Mono Φ}.
Context (request attempt : Uuid) (Hst : ∀ h, Φ h → started_in h (Some attempt)).

Lemma started_granted h : good_history h → Φ h → granted h.
Proof. intros Hh HΦ. eapply gated_started; [apply Hh|by apply Hst]. Qed.

Lemma hoare_failure failure :
  hoare (S := S) (holds D sid Φ) (record_provider_failure sid request attempt failure)
    (λ _, holds D sid Φ).
Proof.
  unfold record_provider_failure. hstep. hstep.
  - eapply hoare_bind; [apply hoare_new_terminal|]. intros payload. apply hoare_pure. intros Hw.
    eapply hoare_bind; [by apply (hoare_append_free D sid Φ)|]. intros ?. by intros a Ha.
  - eapply hoare_bind; [apply (hoare_append_granted D sid Φ); [done|done|apply started_granted]|].
    by intros ? a Ha.
Qed.

Lemma hoare_fake_attempt :
  hoare (S := S) (holds D sid Φ) (activate_fake_attempt sid request attempt)
    (λ _, holds D sid Φ).
Proof.
  unfold activate_fake_attempt. eapply hoare_bind.
  - apply hoare_insert_active; [done|]. intros h _. apply Hst.
  - intros ?. by apply hoare_spawn.
Qed.

Lemma hoare_start_adapter provider :
  hoare (S := S) (holds D sid Φ) (start_adapter sid request attempt provider)
    (λ _, holds D sid Φ).
Proof.
  unfold start_adapter. hstep.
  - eapply hoare_bind; [apply hoare_failure|]. by intros ? a Ha.
  - eapply hoare_bind; [apply hoare_log_call; [done|done|]; intros h _; apply Hst|]. intros ?.
    hstep. hstep; [by intros a Ha|].
    eapply hoare_bind; [apply hoare_failure|]. by intros ? a Ha.
Qed.

(** Inserting the execution and scheduling what continues it. *)
Lemma hoare_execution backend t :
  task_session t = sid → (∀ h, started_in h (Some attempt) → supported h t) →
  hoare (S := S) (E := DaemonError) (holds D sid Φ)
    (st_bind (insert_active sid (execution attempt request backend)) (λ _, spawn t))
    (λ _, holds D sid Φ).
Proof.
  intros Ht Hs. eapply hoare_bind.
  - apply hoare_insert_active; [done|]. intros h _. apply Hst.
  - intros ?. apply hoare_spawn; [done|done|]. intros h _ HΦ. by apply Hs, Hst.
Qed.

Lemma hoare_activate_attempt provider runtime_model prompt :
  hoare (S := S) (holds D sid Φ) (activate_attempt sid request attempt provider runtime_model prompt)
    (λ _, holds D sid Φ).
Proof.
  unfold activate_attempt. hstep. hstep. hstep; [apply hoare_fake_attempt|].
  eapply hoare_bind; [apply hoare_start_adapter|]. intros [handle|]; [|by intros a Ha].
  hstep. hstep; [by apply hoare_execution|].
  eapply hoare_bind; [apply hoare_log_call; [done|done|]; intros h _; apply Hst|]. intros ?.
  hstep. hstep; [by apply hoare_execution|apply hoare_failure].
Qed.
End attempts.

(** ** Commands that only read *)

Lemma inert_health entry : inert (S := S) (adapter_health entry).
Proof. unfold adapter_health. inert. Qed.

Lemma safe_initialize params : safe (S := S) AInv (handle_initialize params).
Proof. apply safe_inert. unfold handle_initialize. inert. Qed.

Lemma safe_status : safe (S := S) AInv handle_status.
Proof. apply safe_inert. unfold handle_status. inert; apply inert_health. Qed.

Lemma safe_list params : safe (S := S) AInv (handle_list params).
Proof. apply safe_inert. unfold handle_list. inert. Qed.

Lemma safe_get sid : safe (S := S) AInv (handle_get sid).
Proof. apply safe_inert. unfold handle_get. inert. Qed.

Lemma inert_subscribe sid replay : inert (S := S) (subscribe_session sid replay).
Proof.
  unfold subscribe_session. apply inert_bind; [inert|]. intros id a Ha.
  destruct (subscribe _ _ _ _ _) as [hub r]. by split.
Qed.

Lemma inert_new_failure e : inert (S := S) (new_failure e).
Proof. unfold new_failure. inert. Qed.

Lemma safe_attach sid after : safe (S := S) AInv (handle_attach sid after).
Proof. apply safe_inert. unfold handle_attach. inert. apply inert_subscribe. Qed.

(** ** Committing and answering *)

Lemma safe_commit_answer D sid Φ `{!Mono Φ} request method parameters outcome events :
  batch_ok Φ sid events →
  hoare (S := S) (holds D sid Φ) (commit_answer request method parameters outcome events)
    (λ _, AInv).
Proof.
  intros Hb. unfold commit_answer. eapply hoare_bind; [by apply hoare_commit_events|].
  intros r. apply safe_end. inert.
Qed.

Lemma fold_nonempty l f : fold_session l = Ok f → l ≠ [].
Proof. by intros Hf ->. Qed.

(** What is known after a history was read and folded. *)
Lemma hoare_folded {E A} D sid Φ l f (m : AM (S := S) E A) Q :
  fold_session l = Ok f → hoare (holds True sid (λ h, l `prefix_of` h)) m Q →
  hoare (holds (D ∨ l ≠ []) sid (λ h, Φ h ∧ (l ≠ [] → l `prefix_of` h))) m Q.
Proof.
  intros Hf%fold_nonempty. apply hoare_know; [by right|]. intros h _ [_ Hh]. by apply Hh.
Qed.

Lemma free_command id sid request now kind payload attempt effect :
  free_kind kind = true → value_wf payload = true →
  free sid (command_event id sid request now kind payload attempt effect).
Proof. intros Hk Hw. by eapply (free_input sid _ kind). Qed.
End safe.

#[export] Hint Resolve inert_new_failure inert_subscribe : inert.

(** Reads and folds the history. *)
Ltac hfold :=
  hstep; hstep;
  match goal with Hf : fold_session ?l = Ok ?f |- _ => apply (hoare_folded _ _ _ l f); [exact Hf|] end.

(** Makes an event and remembers what it is. *)
Ltac hevent :=
  lazymatch goal with
  | |- hoare _ (st_bind (new_event _ _ _ _ _ _ _) _) _ =>
      eapply hoare_bind; [apply hoare_new_event|];
      let e := fresh "e" in let He := fresh "He" in
      intros e; apply hoare_pure; intros [? He]; subst e
  | |- hoare _ (st_bind (new_dispatch _ _ _ _ _) _) _ =>
      eapply hoare_bind; [apply hoare_new_dispatch|];
      let e := fresh "e" in let He := fresh "He" in
      intros e; apply hoare_pure; intros (? & ? & He); subst e
  | |- hoare _ (st_bind (new_terminal_payload _) _) _ =>
      eapply hoare_bind; [apply hoare_new_terminal|];
      let e := fresh "payload" in let He := fresh "Hwf" in
      intros e; apply hoare_pure; intros He
  end.

(** A list of events none of which needs a grant. *)
Ltac free_events :=
  repeat first [ apply Forall_nil_2 | apply Forall_cons_2 | apply Forall_app_2 | assumption ];
  try (apply free_command; [reflexivity|payload]).

Section handlers.
Context `{StorageEnvLaws} `{DaemonEnv} `{FileSystem} {S : Type} `{BackendLaws S} `{!ExportBackend S}.

(** ** Prompts *)

Lemma hoare_route D sid Φ explicit role context :
  hoare (S := S) (holds D sid Φ) (session_route sid explicit role context)
    (λ decision a, (∀ plan mode, decision = RD_Selected plan mode → mode ≠ DM_ReadOnly) ∧
                   holds D sid Φ a).
Proof.
  unfold session_route. hstep. hstep.
  destruct (plan_route _ _ _ _ _) as [decision|] eqn:Hp.
  - eapply hoare_post; [|apply hoare_lift; intros ?; apply ho_inv].
    intros d a [-> Ha]. split; [|done]. intros plan mode ->. apply plan_route_permission in Hp as ->.
    apply provider_permission_protected.
  - intros a Ha. apply Ha.
Qed.

Lemma safe_prompt_selected D sid Φ `{!Mono Φ} request parameters outcome now text past target events
    plan permission :
  Forall (free sid) events → permission ≠ DM_ReadOnly →
  hoare (S := S) (holds D sid Φ)
    (prompt_selected sid request parameters outcome now text past target events plan permission)
    (λ _, AInv).
Proof.
  intros Hfree Hmode. unfold prompt_selected. hevent.
  destruct permission; [done| |].
  - hstep. hevent. apply safe_commit_answer; [done|]. apply batch_free. free_events.
  - hstep. apply safe_commit_answer; [done|]. apply batch_free. free_events.
Qed.

Lemma safe_prompt sid request params : safe (S := S) AInv (handle_prompt sid request params).
Proof.
  apply (safe_session sid). unfold handle_prompt. hstep. hstep; [apply safe_end; inert|].
  hfold. hstep; [apply safe_end; inert|]. hstep. hstep; [apply safe_end; inert|].
  hstep. hevent. eapply hoare_bind; [apply hoare_inert; inert|]. intros target. cbv beta.
  eapply hoare_bind with (Q := λ started a, Forall (free sid) started ∧
    holds True sid (λ h, l `prefix_of` h) a).
  { destruct target as [target|]; [destruct (recover_run l)|]; [by intros a Ha| |by intros a Ha].
    hevent. intros a Ha. split; [|done]. free_events. }
  intros started. apply hoare_pure. intros Hfree.
  eapply hoare_bind; [apply hoare_route|]. intros decision. apply hoare_pure. intros Hmode.
  assert (∀ e, free sid e → Forall (free sid) (e :: started)) as Hevents by (intros; by constructor).
  hstep.
  - apply safe_prompt_selected; [apply _| |by eapply Hmode]. apply Hevents. free_events.
  - hevent. apply safe_commit_answer; [apply _|]. apply batch_free. free_events.
  - hstep. apply safe_commit_answer; [apply _|]. apply batch_free. free_events.
Qed.

(** ** Controls *)

Lemma safe_pause_run D sid Φ `{!Mono Φ} request :
  hoare (S := S) (holds D sid Φ) (pause_run sid request) (λ _, AInv).
Proof.
  unfold pause_run. hstep. hstep; [|apply safe_end; inert]. hstep. hstep; [|apply safe_end; inert].
  hstep; [apply safe_end; inert|]. apply safe_then; [|inert]. apply safe_try.
  eapply safe_of, hoare_append_free; [apply _|done|payload].
Qed.

Lemma safe_pause sid request context : safe (S := S) AInv (handle_pause sid request context).
Proof.
  apply (safe_session sid). unfold handle_pause. hstep. hstep; [apply safe_end; inert|].
  hstep. hstep; [apply safe_end; inert|]. hstep; [apply safe_end; inert|].
  hstep. hstep; [apply safe_end; inert|]. hstep. hstep. hevent. hevent.
  eapply hoare_bind.
  - apply (hoare_commit_events _ sid); [apply _|]. apply batch_free. free_events.
  - intros r. cbv beta. apply safe_then; [|inert].
    eapply hoare_know; [..|by apply (safe_pause_run False sid (λ _, True))]; done.
Qed.

Lemma inert_block {A} sid : inert (S := S) (block (A := A) sid).
Proof. intros a Ha. by split. Qed.

Lemma hoare_resume_run D sid Φ `{!Mono Φ} request :
  hoare (S := S) (holds D sid Φ) (resume_run sid request) (λ _, holds D sid Φ).
Proof.
  unfold resume_run. hstep. hstep; [|by intros a Ha]. hstep.
  apply (hoare_know D _ _ Φ); [by left|by intros h _ []|].
  hstep; [|by intros a Ha]. hstep; [|by intros a Ha].
  eapply hoare_bind; [apply hoare_append_free; [done|done|payload]|]. intros ?.
  eapply hoare_bind; [apply hoare_inert; inert|]. intros active.
  apply hoare_inert. inert. apply inert_block.
Qed.

Lemma safe_resume sid request context : safe (S := S) AInv (handle_resume sid request context).
Proof.
  apply (safe_session sid). unfold handle_resume. hstep. hstep; [apply safe_end; inert|].
  hstep. hstep; [apply safe_end; inert|]. hstep; [apply safe_end; inert|]. hstep.
  eapply hoare_bind.
  { apply (hoare_commit_event _ sid); [apply _|]. intros. apply batch_free. free_events. }
  intros r. cbv beta. hstep; [apply safe_end; inert|].
  eapply hoare_bind; [by apply hoare_resume_run|]. intros ?. hstep. apply safe_then; [|inert].
  hstep; [|apply safe_end; inert]. eapply safe_of, hoare_spawn; [|done|done].
  right. by destruct active.
Qed.

Lemma safe_redirect sid request context instruction :
  safe (S := S) AInv (handle_redirect sid request context instruction).
Proof.
  apply (safe_session sid). unfold handle_redirect. hstep. hstep; [apply safe_end; inert|].
  hfold. hstep; [apply safe_end; inert|]. hstep. eapply hoare_bind.
  - apply (hoare_commit_event _ sid); [apply _|]. intros. apply batch_free. free_events.
  - intros r. apply safe_end. inert.
Qed.

(** ** Cancellation *)

Lemma latest_started_in l attempt :
  latest_started_attempt l = Some attempt → started_in l (Some attempt).
Proof.
  unfold latest_started_attempt, find_last. intros Hl.
  destruct (List.find _ (rev l)) as [e|] eqn:He; simpl in Hl; [|done].
  apply find_some in He as [Hin Hk]. destruct (se_attempt_id e) as [x|] eqn:Hx; simpl in Hl; [|done].
  destruct (existsb _ _); simplify_eq. exists e. split_and!; [|by apply bool_decide_eq_true in Hk|done].
  rewrite <- in_rev in Hin. by apply list_elem_of_In.
Qed.

Lemma prefix_started l h attempt : started_in l attempt → l `prefix_of` h → started_in h attempt.
Proof. intros Hl [k ->]. by apply started_app. Qed.

Lemma prefix_granted l h : granted l → l `prefix_of` h → granted h.
Proof. intros Hl [k ->]. by apply granted_app. Qed.

Lemma cancelled_granted l f :
  good_history l → fold_session l = Ok f → fs_state f = WS_CancelRequested → granted l.
Proof.
  intros Hg Hf Hs. destruct (gh_folds _ Hg) as (f' & Hf' & _ & Hc). rewrite Hf in Hf'.
  injection Hf' as <-. by apply Hc.
Qed.

Lemma cancel_supported h sid request control attempt :
  granted h → (∀ a, attempt = Some a → started_in h (Some a)) →
  supported h (TK_Cancel sid request control attempt).
Proof. intros Hg Ha. destruct attempt; simpl; [by apply Ha|done]. Qed.

(** The attempt a cancellation is about. *)
Lemma cancel_attempt l h active a :
  match active with Some e => Some (ae_attempt_id e) | None => latest_started_attempt l end = Some a →
  l `prefix_of` h → backed active h → started_in h (Some a).
Proof.
  destruct active as [e|]; simpl; [by intros [= <-] _ ?|].
  intros Hl%latest_started_in Hp _. by eapply prefix_started.
Qed.

Lemma safe_cancel_replayed sid request outcome :
  hoare (S := S) (holds False sid (λ _, True))
    (let! events := history sid in
     let! folded := lift (fold_session events) in
     let! _ := if bool_decide (fs_state folded = WS_CancelRequested) then
         let! control_id := lift (uuid_field outcome "control_id") in
         spawn (TK_Cancel sid request control_id (latest_started_attempt events))
       else st_ret tt in
     lift (replay_command_outcome outcome)) (λ _, AInv).
Proof.
  hfold. apply safe_then; [|inert]. hstep; [|apply safe_end; inert]. hstep.
  case_bool_decide as Hc; [|done]. eapply safe_of, hoare_spawn; [done|done|]. intros h _ Hp. apply cancel_supported.
  - eapply prefix_granted; [|done]. eapply cancelled_granted; [|done|done].
    by eapply Hgood, fold_nonempty.
  - intros attempt Ha. eapply prefix_started; [by apply latest_started_in|done].
Qed.

Lemma safe_cancel sid request context : safe (S := S) AInv (handle_cancel sid request context).
Proof.
  apply (safe_session sid). unfold handle_cancel. hstep.
  hstep; [apply safe_cancel_replayed|]. hfold. hstep; [apply safe_end; inert|]. hstep. hstep.
  set (attempt := match active with Some e => _ | None => _ end). hstep. hevent.
  set (Φ := λ h, l `prefix_of` h ∧ backed active h).
  assert (∀ h a, Φ h → attempt = Some a → started_in h (Some a)) as Hst.
  { intros h a [??] Ha. by eapply cancel_attempt. }
  match goal with |- context [command_event ?i ?s ?r ?n ?k ?p None None] =>
    set (requested := command_event i s r n k p None None) end.
  eapply hoare_bind with (Q := λ rest a, batch_ok Φ sid (requested :: rest) ∧
    holds (True ∨ active ≠ None) sid Φ a).
  { destruct attempt as [a|] eqn:Ha; simpl.
    - intros s Hs. split; [|done]. apply batch_granted; [|by repeat constructor|].
      + intros h Hh HΦ. eapply gated_started; [apply Hh|by eapply Hst].
      + apply Forall_singleton. by apply command_input_ok.
    - hevent. hevent. hevent. intros s Hs. split; [|done].
      apply (batch_ends Φ sid [_; _]); [by repeat constructor| |by repeat constructor|done].
      repeat constructor; apply command_input_ok; done. }
  intros rest. apply hoare_pure. intros Hb.
  eapply hoare_bind; [by apply (hoare_commit_events _ sid Φ)|]. intros r. cbv beta.
  apply safe_then; [|inert]. hstep; [|apply safe_end; inert].
  eapply safe_of, hoare_spawn; [by left|done|]. intros h _ [HΦ _]. destruct attempt as [a|] eqn:Ha; simpl.
  - by eapply Hst.
  - by rewrite andb_false_r in *.
Qed.

(** ** Approvals *)

Lemma safe_activate_recorded (D : Prop) sid Φ `{!Mono Φ} causation attempt l :
  D → (∀ h, Φ h → started_in h (Some attempt)) →
  hoare (S := S) (holds D sid Φ) (activate_recorded sid causation attempt l) (λ _, AInv).
Proof.
  intros HD Hst. unfold activate_recorded. hstep.
  by eapply safe_of, hoare_activate_attempt.
Qed.

Lemma safe_reactivate sid request :
  hoare (S := S) (holds False sid (λ _, True)) (reactivate_granted sid request) (λ _, AInv).
Proof.
  unfold reactivate_granted. hfold. hstep. destruct (bool_decide _); [|apply safe_end; inert].
  destruct (latest_started_attempt l) as [attempt|] eqn:Hl; [|apply safe_end; inert].
  destruct active; [apply safe_end; inert|].
  apply safe_activate_recorded; [apply _|by left|]. intros h [Hp _].
  eapply prefix_started; [by apply latest_started_in|done].
Qed.

(** What follows a committed dispatch. *)
Lemma safe_dispatched (D : Prop) sid Φ `{!Mono Φ} causation attempt before i j request now predecessor
    (r : Value * bool) :
  D →
  hoare (S := S)
    (holds D sid (committed Φ (before :: dispatch_events i j sid request now attempt predecessor) r.2))
    (st_bind (if r.2 then st_ret tt
       else let! events := history sid in activate_recorded sid causation attempt events)
      (λ _, lift (replay_command_outcome r.1))) (λ _, AInv).
Proof.
  intros HD. apply safe_then; [|inert]. destruct r as [v []]; cbn [fst snd];
    [apply safe_end; inert|].
  hstep. eapply safe_activate_recorded; [apply _|by left|].
  intros h [[_ Hr] _]. by apply (dispatch_recorded i j sid request now attempt predecessor h [before]), Hr.
Qed.

Lemma recorded_payload (context : ClientContext) approval decision e n :
  ei_payload e = VObject [("actor", VString (actor context)); ("approval_id", uuid_value approval);
                          ("decision", enc ApprovalDecision_codec decision)] →
  recorded_decision (persisted_as e n) = Ok (approval, decision).
Proof.
  intros Hp. unfold recorded_decision. simpl. rewrite Hp. unfold uuid_field, value_uuid. simpl.
  rewrite uuid_roundtrip. by destruct decision.
Qed.

Lemma safe_approval sid request context params :
  safe (S := S) AInv (handle_approval sid request context params).
Proof.
  apply (safe_session sid). unfold handle_approval. hstep. hstep.
  { apply safe_then; [|inert]. hstep; [apply safe_reactivate|apply safe_end; inert]. }
  hfold. hstep; [hstep; apply safe_end; inert|]. hstep; [apply safe_end; inert|].
  hstep. hevent. hstep.
  - hstep. hevent. eapply hoare_bind.
    + apply (hoare_commit_events _ sid); [apply _|]. eapply batch_grants; [by destruct (ap_decision _)|done| |..].
      * intros n. by apply (recorded_payload context).
      * constructor; [done|]. apply dispatch_inputs_ok.
      * apply dispatch_inputs_ok.
    + intros r. cbv beta. by apply safe_dispatched; [apply _|].
  - hstep. hevent. apply safe_commit_answer; [apply _|].
    eapply batch_decided; [by destruct (ap_decision _)|done| |done|].
    + intros n. by apply (recorded_payload context).
    + free_events.
Qed.
End handlers.
