(* ===== verification/DaemonCommands.v ===== *)
(** * DaemonCommands: reconciliation, export, deletion and creation keep the invariant

    The commands that reach beyond the history of one session, and [dispatch]. *)

From S2P Require Import StorageKeys StorageTables StorageDb StorageDisk StorageExport.
From S2P Require Import Prelude StateResult Text BTree Errors Value Attempt Policy Routing.
From S2P Require Import Event Workflow Ports Json Wire ProtoCommand ProtoReply Subscription.
From S2P Require Import ConfigModel ConfigValidate ConfigMerge ConfigPreflight FileSystem ConfigLock.
From S2P Require Import StorageKeys StorageTables StorageDb StorageOps.
From S2P Require Import DaemonModel DaemonWorkflow DaemonHub DaemonBackend DaemonApp.
From S2P Require Import DaemonHandlers DaemonTasks DaemonHistory DaemonInv DaemonLogic DaemonPayload.
From S2P Require Import DaemonSafe.

Section unknown.
Context `{StorageEnv}.

(** An outcome becomes unknown only through an event that says so. *)
Lemma fold_kind_unknown f e f' :
  se_kind e ≠ "outcome_unknown" → fold_kind f e = Ok f' → fs_state f' = WS_OutcomeUnknown →
  fs_state f = WS_OutcomeUnknown.
Proof.
  intros Hne. unfold fold_kind, kind_state.
  assert (text_eq (se_kind e) "outcome_unknown" = false) as -> by (by apply bool_decide_eq_false_2).
  repeat first
    [ destruct (text_in _ _); [intros [= <-]; done|]
    | destruct (text_eq _ "session_redirected"); [intros [= <-]; by case_bool_decide|]
    | destruct (text_eq _ "approval_recorded");
      [destruct (recorded_decision e) as [[? []]|]; simpl; intros; simplify_eq; done|]
    | destruct (text_eq _ _); [intros [= <-]; done|] ].
  by intros [= <-].
Qed.

Lemma fold_events_unknown k f f' :
  fold_events f k = Ok f' → fs_state f' = WS_OutcomeUnknown →
  fs_state f = WS_OutcomeUnknown ∨ ∃ e, e ∈ k ∧ se_kind e = "outcome_unknown".
Proof.
  revert f. induction k as [|e k IH]; intros f; simpl; [intros [= <-]; by left|].
  destruct (fold_event f e) as [f1|] eqn:Hf; [|done]. intros Hf1 Hs.
  destruct (IH f1 Hf1 Hs) as [Hs1|(x & Hx & Hk)]; [|right; exists x; set_solver].
  destruct (decide (se_kind e = "outcome_unknown")) as [Hk|Hk]; [right; exists e; set_solver|left].
  unfold fold_event in Hf. case_match; [|done]. by eapply fold_kind_unknown in Hf.
Qed.

Lemma unknown_granted l f :
  good_history l → fold_session l = Ok f → fs_state f = WS_OutcomeUnknown → granted l.
Proof.
  intros Hg Hf%fold_session_events Hs.
  destruct (fold_events_unknown _ _ _ Hf Hs) as [?|(e & He & Hk)]; [done|].
  apply list_elem_of_split in He as (l1 & l2 & ->). apply granted_app.
  eapply (gh_gated _ Hg); [done|]. by rewrite Hk.
Qed.
End unknown.

Section commands.
Context `{StorageEnvLaws} `{DaemonEnv} `{FileSystem} {S : Type} `{BackendLaws S} `{!ExportBackend S}.
Implicit Types a : Application S.

(** ** Reconciliation *)

Lemma reconciled_wf params replacement : value_wf (reconciled_payload params replacement) = true.
Proof.
  unfold reconciled_payload. by destruct replacement, (rp_resolution params), (rp_evidence params).
Qed.

Lemma safe_reconcile sid request params : safe (S := S) AInv (handle_reconcile sid request params).
Proof.
  apply (safe_session sid). unfold handle_reconcile. hstep. hstep; [apply safe_end; inert|].
  hfold. hstep; [apply safe_end; inert|].
  assert (granted l) as Hgr.
  { eapply unknown_granted; [by eapply Hgood, fold_nonempty|done|].
    match goal with Hb : _ || _ = false |- _ => apply orb_false_iff in Hb as [Hb _] end.
    by case_bool_decide. }
  destruct (rp_resolution params) eqn:Hres.
  - hstep. hstep. hevent. hstep. hevent. eapply hoare_bind.
    + apply (hoare_commit_events _ sid); [apply _|]. apply batch_granted.
      * intros h _ Hp. by eapply prefix_granted.
      * constructor; [done|]. apply dispatch_inputs_ok.
      * constructor; [|apply dispatch_inputs_ok]. apply command_input_ok; [|done].
        apply reconciled_wf.
    + intros r. cbv beta. by apply safe_dispatched; [apply _|].
  - hstep. hstep. hevent. hevent. hevent. apply safe_commit_answer; [apply _|]. apply batch_free.
    free_events.
  - hstep. hstep. hevent. hevent. hevent. apply safe_commit_answer; [apply _|]. apply batch_free.
    free_events.
Qed.

(** ** Operations of the storage that add events of their own *)

Lemma AInv_grows (P : Uuid → list StoredEvent → StoredEvent → Prop) kind a s :
  AInv a → backend_ok (drawn a) s → grows history_of P (ap_storage a) s → kind ≠ EK_ApprovalRecorded →
  kind ≠ EK_CancelRequested → (∀ x h e, P x h e → se_kind e = event_kind_name kind) →
  (∀ x h e, P x h e → good_history h → free_kind kind = true ∨ granted h) → AInv (set_storage s a).
Proof.
  intros Ha Hok Hg Hk Hc HP Hfree. apply AInv_continues; [done|done|]. intros x h' Hh'.
  destruct (Hg x h' Hh') as (h & events & Hh & -> & Hn & He). split; [|by exists h, events].
  assert (Forall event_ok events) as Hev.
  { eapply Forall_impl; [exact He|]. intros e [Hw Hp%HP]. split_and!; [done| |].
    - exists kind. rewrite Hp. apply parse_event_kind_name.
    - rewrite Hp. intros Heq. by apply (event_kind_name_inj kind EK_ApprovalRecorded) in Heq. }
  assert (good_history h) as Hgh by by eapply ai_good.
  destruct events as [|e events]; [by rewrite app_nil_r|].
  pose proof (Forall_inv He) as [_ Hp1]. destruct (Hfree x h e Hp1 Hgh) as [Hf|Hf].
  - apply good_free; [done|done|done|]. eapply Forall_impl; [exact He|].
    intros y [_ Hp%HP]. rewrite Hp. by destruct kind.
  - by apply good_granted.
Qed.

Lemma safe_grows {A} (m : ST S StorageError A) (P : Uuid → list StoredEvent → StoredEvent → Prop)
    kind :
  (∀ D s s' r, backend_ok D s → m s = (s', r) → backend_ok D s' ∧ grows history_of P s s') →
  kind ≠ EK_ApprovalRecorded → kind ≠ EK_CancelRequested →
  (∀ x h e, P x h e → se_kind e = event_kind_name kind) →
  (∀ x h e, P x h e → good_history h → free_kind kind = true ∨ granted h) →
  safe (S := S) AInv (backend m).
Proof.
  intros Hm Hk Hc HP Hfree a Ha. unfold backend. destruct (m (ap_storage a)) as [s r] eqn:Hs.
  eapply Hm in Hs as [Hok Hg]; [|apply Ha].
  assert (AInv (set_storage s a)) as Hi by by eapply AInv_grows. by destruct r.
Qed.

Lemma safe_deletion sid did request at_time who :
  safe (S := S) AInv (backend (be_request_deletion sid did request at_time who)).
Proof.
  eapply (safe_grows _ (λ _ _ e, se_kind e = "session_deletion_requested") EK_SessionDeletionRequested);
    [intros D s s' r; apply law_delete|done|done|done|by left].
Qed.

Lemma safe_resume_deletions : safe (S := S) AInv (backend be_resume_deletions).
Proof.
  eapply (safe_grows _ (λ _ _ _, False) EK_SessionDeleted);
    [intros D s s' r; apply law_resume_deletions|done..].
Qed.

Lemma safe_recover_attempts now : safe (S := S) AInv (backend (be_recover_uncertain_attempts now)).
Proof.
  eapply (safe_grows _ (λ _ h e, se_kind e = "outcome_unknown" ∧ started_in h (se_attempt_id e))
    EK_OutcomeUnknown); [intros D s s' r; apply law_recover|done|done|by intros x h e []|].
  intros x h e [_ Hs] Hh. right. by eapply gated_started; [apply Hh|].
Qed.

Lemma safe_export_backend `{!ExportLaws S} command :
  value_wf (xc_event_payload command) = true →
  safe (S := S) AInv (backend (be_execute_export command)).
Proof.
  intros Hw.
  eapply (safe_grows _ (λ _ _ e, se_kind e = "session_exported") EK_SessionExported);
    [intros D s s' r Ho; by apply law_execute_export|done|done|done|by left].
Qed.

Lemma safe_resume_exports `{!ExportLaws S} : safe (S := S) AInv (backend be_resume_exports).
Proof.
  eapply (safe_grows _ (λ _ _ e, se_kind e = "session_exported") EK_SessionExported);
    [intros D s s' r; apply law_resume_exports|done|done|done|by left].
Qed.

(** ** Export and deletion *)

Lemma safe_bind {E A B} (m : AM (S := S) E A) (k : A → AM E B) :
  safe AInv m → (∀ x, safe AInv (k x)) → safe AInv (st_bind m k).
Proof. intros Hm Hk. by eapply hoare_bind. Qed.

Lemma exported_wf export_id fingerprints :
  value_wf (VObject [("export_id", uuid_value export_id); ("format", VString "age-v1");
                     ("recipient_fingerprints", text_array fingerprints)]) = true.
Proof.
  simpl. rewrite andb_true_r. induction fingerprints as [|x l IH]; [done|exact IH].
Qed.

Lemma safe_export `{!ExportLaws S} sid request params :
  safe (S := S) AInv (handle_export sid request params).
Proof.
  unfold handle_export. apply safe_bind; [apply safe_inert; inert|]. intros [outcome|];
    [apply safe_inert; inert|].
  repeat (apply safe_bind; [apply safe_inert; solve [inert]|]; intros ?).
  apply safe_bind; [apply hoare_convert, safe_export_backend, exported_wf|].
  intros c. apply safe_inert. inert.
Qed.

Lemma safe_delete_active {E} sid : safe (S := S) (E := E) AInv (delete_active sid).
Proof. apply (safe_session sid). eapply safe_of, hoare_delete_active. Qed.

Lemma safe_delete sid request context confirm :
  safe (S := S) AInv (handle_delete sid request context confirm).
Proof.
  unfold handle_delete. destruct (negb _); [apply safe_inert; inert|].
  apply safe_bind; [apply safe_inert; inert|]. intros [outcome|]; [apply safe_inert; inert|].
  do 2 (apply safe_bind; [apply safe_inert; solve [inert]|]; intros ?).
  destruct (negb _); [apply safe_inert; inert|].
  apply safe_bind; [apply safe_inert; inert|]. intros did.
  destruct (_ <=? _)%N; [apply safe_inert; inert|].
  do 2 (apply safe_bind; [apply safe_inert; solve [inert]|]; intros ?).
  apply safe_bind; [apply hoare_convert, safe_deletion|]. intros summary.
  apply safe_bind; [apply safe_delete_active|]. intros ?. apply safe_inert. inert.
Qed.
End commands.

Section creation.
Context `{StorageEnvLaws} `{DaemonEnvLaws} `{FileSystem} {S : Type} `{BackendLaws S}.
Context `{!ExportBackend S} `{!ExportLaws S}.
Implicit Types a : Application S.

(** An identifier that was drawn and that nothing refers to. *)
Record fresh (sid : Uuid) a : Prop := {
  fr_inv : AInv a;
  fr_unused : ∃ D, backend_ok D (ap_storage a) ∧ ¬ D sid ∧ ∀ x, D x → drawn a x;
  fr_drawn : drawn a sid;
  fr_active : ap_active a !! sid = None;
  fr_tasks t : t ∈ ap_tasks a → task_session t ≠ sid;
  fr_calls c : c ∈ ap_calls a → call_session c ≠ sid;
}.

Lemma draw_fresh a : AInv a → fresh (daemon_v7 (ap_draws a)) (new_id (E := DaemonError) a).1.
Proof.
  intros Ha. assert (¬ drawn a (daemon_v7 (ap_draws a))) as Hnot.
  { intros (i & Hi & Heq). apply daemon_v7_inj in Heq. lia. }
  split; simpl.
  - eapply AInv_same_core; [|exact Ha]. apply (inert_new_id (E := DaemonError) (drawn a)), Ha.
  - exists (drawn a). split_and!; [apply Ha|done|]. intros x. apply drawn_mono. simpl. lia.
  - exists (ap_draws a). split; [simpl; lia|done].
  - destruct (ap_active a !! _) as [e|] eqn:He; [|done]. by destruct Hnot, (ai_active _ Ha _ _ He).
  - intros t Ht Heq. destruct (ai_tasks _ Ha _ Ht) as [Hd _]. by rewrite Heq in Hd.
  - intros c Hc Heq. destruct (ai_calls _ Ha _ Hc) as [Hd _]. by rewrite Heq in Hd.
Qed.

Lemma fresh_same_core sid a a' : same_core a a' → fresh sid a → fresh sid a'.
Proof.
  intros Hc [Hi (D & Hok & Hno & HD) Hd Ha Ht Hcalls]. pose proof Hc as [Hok' _ Ha' Ht' Hc' Hdr].
  split; rewrite ?Ha', ?Ht', ?Hc'; [by eapply AInv_same_core| |by eapply drawn_mono|done..].
  exists D. split_and!; [by apply Hok'|done|]. intros x Hx. by eapply drawn_mono, HD.
Qed.

Lemma hoare_fresh_bind {B} sid (m : AM (S := S) DaemonError B) :
  inert m → hoare (fresh sid) m (λ _, fresh sid).
Proof.
  intros Hm a Ha. specialize (Hm _ a (ai_ok _ (fr_inv _ _ Ha))).
  destruct (m a) as [a' [x|e]]; simpl in Hm; [by eapply fresh_same_core|].
  eapply AInv_same_core; [done|apply Ha].
Qed.

(** Creating a session under such an identifier. *)
Lemma hoare_create_session input :
  value_wf (cs_initial_event_payload input) = true →
  value_wf (cs_configuration_snapshot input) = true → value_wf (cs_lock_snapshot input) = true →
  value_wf (cs_command_outcome input) = true →
  hoare (fresh (StorageDb.cs_session_id input)) (backend (be_create_session input)) (λ _, AInv).
Proof.
  intros Hp Hc Hl Ho a [Hi (D & Hu & Hno & HD) Hd Ha Ht Hcalls]. unfold backend.
  destruct (be_create_session input (ap_storage a)) as [s r] eqn:Hs.
  eapply law_create in Hs as (Hok & Hold & Hnew); [|exact Hu|done..].
  apply backend_mono with (D' := drawn a) in Hok; [|by intros x [Hx| ->]; [apply HD|]].
  assert (AInv (set_storage s a)) as Hinv; [|by destruct r].
  assert (∀ x h, history_of s x h → x ≠ StorageDb.cs_session_id input → hist a x h) as Hback.
  { intros x h Hh Hne. by destruct (Hnew x h Hh) as [?|[? _]]. }
  destruct Hi as [_ Hgood Hids Hact Htasks Hcs]. split; simpl; [done|..].
  - intros x h Hh. destruct (Hnew x h Hh) as [Hh'|(-> & _ & e & -> & Hk & Hseq & He)];
      [by eapply Hgood|]. apply good_created; [done|done|by rewrite He].
  - intros x h Hh. destruct (Hnew x h Hh) as [Hh'|(-> & _)]; [by eapply Hids|done].
  - intros x e He. destruct (Hact x e He) as [Hdr Hst]. split; [done|].
    intros h Hh. apply Hst, Hback; [done|]. intros ->. by rewrite Ha in He.
  - intros t Hin. destruct (Htasks t Hin) as [Hdr Hst]. split; [done|].
    intros h Hh. apply Hst, Hback; [done|]. by apply Ht.
  - intros c Hin. destruct (Hcs c Hin) as [Hdr Hst]. split; [done|].
    intros h Hh. apply Hst, Hback; [done|]. by apply Hcalls.
Qed.

Lemma snapshot_resolved startup overrides resolved snapshot lock :
  resolve_session startup overrides = Ok (resolved, snapshot, lock) →
  ∃ config sources, snapshot = snapshot_create config_json blake3_hex config sources.
Proof.
  unfold resolve_session. intros Hr.
  destruct (match overrides with Some _ => _ | None => _ end) as [r|]; simpl in Hr; [|done].
  repeat match type of Hr with
  | match ?m with Ok _ => _ | Err _ => _ end = _ => destruct m; [|done]
  end.
  simplify_eq. eauto.
Qed.

Lemma safe_create request params : safe (S := S) AInv (handle_create request params).
Proof.
  unfold handle_create. apply safe_bind; [apply safe_inert; inert|].
  intros [outcome|]; [apply safe_inert; inert|].
  apply safe_bind; [apply safe_inert; inert|]. intros startup.
  eapply hoare_bind; [by apply hoare_lift|]. intros [[resolved snapshot] lock].
  apply hoare_pure. intros Hr. destruct (negb _); [apply safe_inert; inert|].
  eapply hoare_bind with (Q := fresh).
  { intros a Ha. apply (draw_fresh a Ha). }
  intros sid. eapply hoare_bind; [apply hoare_fresh_bind; inert|]. intros now. cbv beta.
  eapply hoare_bind.
  - apply hoare_convert.
    match goal with |- context [be_create_session ?i] => apply (hoare_create_session i) end;
      cbn [cs_initial_event_payload cs_configuration_snapshot cs_lock_snapshot cs_command_outcome].
    + apply created_wf.
    + destruct (resolve_session startup _) as [p|e] eqn:Hres; simplify_eq/=.
      apply snapshot_resolved in Hres as (config & sources & ->). apply snapshot_wf.
    + apply to_value_wf, _.
    + apply to_value_wf, _.
  - intros r. apply safe_inert. inert.
Qed.

(** ** Dispatch *)

Lemma safe_plain (m : AM (S := S) DaemonError Value) : safe AInv m → safe AInv (plain m).
Proof. intros Hm. apply safe_bind; [done|]. intros v. apply safe_inert. inert. Qed.

Lemma safe_dispatch_session sid request command context :
  safe (S := S) AInv (dispatch_session sid request command context).
Proof.
  destruct command; simpl; try (apply safe_inert; solve [inert]); try apply safe_plain.
  - apply safe_get.
  - apply safe_bind; [apply safe_attach|]. intros x. apply safe_inert. inert.
  - apply safe_prompt.
  - apply safe_pause.
  - apply safe_resume.
  - apply safe_redirect.
  - apply safe_cancel.
  - apply safe_approval.
  - apply safe_reconcile.
  - apply safe_export.
  - apply safe_delete.
Qed.

Lemma safe_dispatch_global request command :
  safe (S := S) AInv (dispatch_global request command).
Proof.
  destruct command; simpl; try (apply safe_inert; solve [inert]); apply safe_plain.
  - apply safe_initialize.
  - apply safe_status.
  - apply safe_create.
  - apply safe_list.
Qed.

Lemma safe_handler command context a m : handler command context a = Some m → safe AInv m.
Proof.
  unfold handler. destruct (ap_shutting_down a); [intros [= <-]; apply safe_inert; unfold shutting_down; inert|].
  destruct (cc_session_id command) as [sid|]; [case_bool_decide; [done|]|]; intros [= <-].
  - apply safe_dispatch_session.
  - apply safe_dispatch_global.
Qed.

Lemma AInv_dispatch command context a : AInv a → AInv (dispatch command context a).1.
Proof.
  intros Ha. unfold dispatch. destruct (handler command context a) as [m|] eqn:Hm; [|done].
  pose proof (safe_inv _ _ a (safe_handler _ _ _ _ Hm) Ha) as Hi.
  destruct (m a) as [a' [[v sub]|[e| |]]]; simpl in *; [done| |done|done].
  eapply AInv_same_core; [|exact Hi]. by eapply (inert_new_id (E := DaemonError)), Hi.
Qed.
End creation.
