(* ===== verification/DaemonTaskSafe.v ===== *)
(** * DaemonTaskSafe: tasks, recovery, maintenance and shutdown keep the invariant *)

From S2P Require Import StorageKeys StorageTables StorageDb StorageDisk StorageExport.
From S2P Require Import Prelude StateResult Text BTree Errors Value Attempt Policy Routing.
From S2P Require Import Event Workflow Ports Json Wire ProtoCommand ProtoReply Subscription.
From S2P Require Import ConfigModel ConfigValidate ConfigMerge ConfigPreflight FileSystem ConfigLock.
From S2P Require Import StorageKeys StorageTables StorageDb StorageOps.
From S2P Require Import DaemonModel DaemonWorkflow DaemonHub DaemonBackend DaemonApp.
From S2P Require Import DaemonHandlers DaemonTasks DaemonHistory DaemonInv DaemonLogic DaemonPayload.
From S2P Require Import DaemonSafe DaemonCommands.

#[export] Instance mono_supported `{StorageEnv} t : Mono (λ h, supported h t).
Proof. intros h k. apply supported_app. Qed.

Section tasks.
Context `{StorageEnvLaws} `{DaemonEnv} `{FileSystem} {S : Type} `{BackendLaws S} `{!ExportBackend S}.
Implicit Types a : Application S.

Lemma hoare_append_ D sid Φ `{!Mono Φ} request kind payload attempt effect :
  free_kind kind = true → value_wf payload = true →
  hoare (S := S) (holds D sid Φ) (append_ sid request kind payload attempt effect)
    (λ _, holds D sid Φ).
Proof.
  intros Hk Hw. unfold append_. eapply hoare_bind; [by apply (hoare_append_free D sid Φ)|].
  by intros ? a Ha.
Qed.

(** Ending a session with a summary. *)
Lemma hoare_conclude D sid Φ `{!Mono Φ} request kind summary attempt effect :
  free_kind kind = true →
  hoare (S := S) (holds D sid Φ)
    (let! payload := new_terminal_payload summary in append_ sid request kind payload attempt effect)
    (λ _, holds D sid Φ).
Proof. intros Hk. hevent. by apply hoare_append_. Qed.

(** ** Streams *)

Section stream.
Context (D : Prop) (HD : D) (sid : Uuid) (Φ : list StoredEvent → Prop) `{!Mono Φ}.
Context (attempt : Uuid) (Hst : ∀ h, Φ h → started_in h (Some attempt)).

Lemma hoare_output active output :
  hoare (S := S) (holds D sid Φ) (record_provider_output sid active output) (λ _, holds D sid Φ).
Proof.
  unfold record_provider_output. destruct output as [provider|type content|type content|summary].
  1-3: eapply hoare_bind; [apply (hoare_append_free D sid Φ); [done|payload]|by intros ? a Ha].
  hstep. hstep; [by intros a Ha|]. hstep.
  apply (hoare_know D _ _ Φ); [by left|by intros h _ []|].
  hstep; [by intros a Ha|]. hevent.
  eapply hoare_bind; [by apply (hoare_append_free D sid Φ)|by intros ? a Ha].
Qed.

Lemma safe_settle active failure :
  hoare (S := S) (holds D sid Φ)
    (let! _ := record_provider_failure sid (ae_request_id active) attempt failure in
     remove_active_attempt sid attempt) (λ _, AInv).
Proof.
  eapply hoare_bind; [by apply hoare_failure|]. intros ?. eapply safe_of, hoare_remove_active.
Qed.

Lemma safe_consume item : hoare (S := S) (holds D sid Φ) (consume_item sid attempt item) (λ _, AInv).
Proof.
  unfold consume_item. hstep. destruct active as [active|]; [|apply safe_end; inert].
  apply (hoare_know D _ _ Φ); [by left|by intros h _ []|].
  destruct item as [[output|failure]|].
  - eapply hoare_bind; [apply hoare_output|]. intros [].
    1,2: eapply safe_of, hoare_spawn; [done|done|]; intros h _; apply Hst.
    hstep. apply (hoare_know D _ _ Φ); [by left|by intros h _ []|].
    eapply hoare_bind; [apply hoare_remove_active|]. intros ?. cbv beta.
    hstep; [|apply safe_end; inert]. eapply safe_of, hoare_spawn; [done|done|]. intros h _. apply Hst.
  - hstep. hstep; [apply safe_end; inert|apply safe_settle].
  - hstep. hstep; [apply safe_settle|apply safe_end; inert].
Qed.

Lemma safe_activate_provider provider handle prompt :
  hoare (S := S) (holds D sid Φ) (activate_provider sid attempt provider handle prompt) (λ _, AInv).
Proof.
  unfold activate_provider.
  eapply hoare_bind; [apply hoare_log_call; [done|done|]; intros h _; apply Hst|]. intros ?. hstep.
  hstep; (eapply safe_of, hoare_spawn; [done|done|]; intros h _; apply Hst).
Qed.

Lemma safe_activation_failure failure :
  hoare (S := S) (holds D sid Φ) (finish_provider_activation_failure sid attempt failure)
    (λ _, AInv).
Proof.
  unfold finish_provider_activation_failure. hstep. destruct active as [active|]; [|apply safe_end; inert].
  apply (hoare_know D _ _ Φ); [by left|by intros h _ []|].
  hstep. hstep; [apply safe_end; inert|apply safe_settle].
Qed.

Lemma safe_activate_step request kind provider runtime_model prompt :
  hoare (S := S) (holds D sid Φ)
    (activate_step sid request attempt kind provider runtime_model prompt) (λ _, AInv).
Proof.
  unfold activate_step. hstep; [by eapply safe_of, hoare_fake_attempt|].
  eapply hoare_bind; [by apply hoare_start_adapter|]. intros [handle|]; [|apply safe_end; inert].
  hstep. by eapply safe_of, hoare_execution.
Qed.

(** ** Advancing a workflow *)

Lemma granted_here h : good_history h → Φ h → granted h.
Proof. intros Hh HΦ. eapply gated_started; [apply Hh|by apply Hst]. Qed.

Lemma safe_advance_findings request run :
  hoare (S := S) (holds D sid Φ) (advance_findings sid request attempt run) (λ _, AInv).
Proof.
  unfold advance_findings. destruct (Workflow.apply_findings run) as [run' applied]. hstep. hstep.
  - eapply hoare_bind; [apply (hoare_append_free D sid Φ); [done|payload]|]. intros ?. hstep.
    eapply hoare_bind; [by apply (hoare_append_free D sid Φ)|]. intros ?.
    by eapply safe_of, hoare_append_.
  - eapply hoare_bind; [apply (hoare_append_free D sid Φ); [done|payload]|]. intros ?.
    eapply safe_of, hoare_spawn; [done|done|]. apply granted_here.
Qed.

Lemma safe_advance_success request workflow run :
  hoare (S := S) (holds D sid Φ) (advance_success sid request attempt workflow run) (λ _, AInv).
Proof.
  unfold advance_success. destruct (Workflow.advance_after_success run) as [run' advanced].
  hstep. hstep.
  - eapply hoare_bind; [apply (hoare_append_free D sid Φ); [done|payload]|]. intros ?.
    by eapply safe_of, hoare_conclude.
  - eapply hoare_bind; [apply (hoare_append_free D sid Φ); [done|apply transition_wf]|]. intros ?.
    eapply safe_of, hoare_spawn; [done|done|]. apply granted_here.
Qed.

Lemma safe_advance request findings :
  hoare (S := S) (holds D sid Φ) (advance_workflow_after_attempt sid request attempt findings)
    (λ _, AInv).
Proof.
  unfold advance_workflow_after_attempt. hstep.
  apply (hoare_know D _ _ Φ); [by left|by intros h _ []|]. hstep. hstep.
  - hstep. hstep; [apply safe_end; inert|]. hstep.
    destruct (findings && _); [apply safe_advance_findings|apply safe_advance_success].
  - by eapply safe_of, hoare_conclude.
Qed.
End stream.

Lemma safe_finish_fake (D : Prop) sid Φ `{!Mono Φ} :
  D → hoare (S := S) (holds D sid Φ) (finish_fake sid) (λ _, AInv).
Proof.
  intros HD. unfold finish_fake. hstep. destruct active as [active|]; [|apply safe_end; inert].
  set (attempt := ae_attempt_id active).
  apply (hoare_know D _ _ (λ h, started_in h (Some attempt))); [by left|by intros h _ []|].
  hstep; [apply safe_end; inert|]. hstep.
  apply (hoare_know D _ _ (λ h, started_in h (Some attempt))); [by left|by intros h _ []|].
  hstep. hstep; [apply safe_end; inert|]. hstep.
  eapply hoare_bind; [apply (hoare_append_free D sid _); [done|payload]|]. intros ?.
  eapply hoare_bind; [apply hoare_delete_active|]. intros ?. hstep.
  - by eapply safe_of, hoare_spawn.
  - eapply safe_of, hoare_conclude; [apply _|done].
Qed.

(** Dispatching the next step, after a grant. *)
Lemma safe_dispatch_step (D : Prop) sid Φ `{!Mono Φ} request run :
  D → (∀ h, good_history h → Φ h → granted h) →
  hoare (S := S) (holds D sid Φ) (dispatch_workflow_step sid request run) (λ _, AInv).
Proof.
  intros HD Hg. unfold dispatch_workflow_step. hstep; [apply safe_end; inert|]. hstep.
  apply (hoare_know D _ _ Φ); [by left|by intros h _ []|]. hstep. hstep. hstep.
  hstep.
  2,3: unfold fail_step; by eapply safe_of, hoare_conclude.
  hstep; [unfold fail_step; by eapply safe_of, hoare_conclude|].
  eapply hoare_bind; [apply (hoare_append_free D sid Φ); [done|payload]|]. intros ?. hstep. hstep.
  hevent. match goal with |- context [dispatch_events ?i ?j _ _ ?now ?attempt None] =>
    pose proof (dispatch_inputs_ok i j sid request now attempt None) as [Hsid Hok];
    pose proof (dispatch_recorded i j sid request now attempt None) as Hrec end.
  revert Hsid Hok Hrec. cbv zeta. unfold dispatch_events. cbn [st_for].
  set (planned := command_event _ _ _ _ EK_DispatchPlanned _ _ _).
  set (started := command_event _ _ _ _ EK_DispatchStarted _ _ _). intros Hsid Hok Hrec.
  set (Ψ := λ h, (Φ h ∧ recorded [planned] h) ∧ recorded [started] h).
  eapply hoare_bind with (Q := λ _, holds D sid Ψ).
  { eapply hoare_bind with (Q := λ _, holds D sid (λ h, Φ h ∧ recorded [planned] h)).
    - eapply hoare_bind; [apply hoare_convert, hoare_append_event; [done|]|].
      + apply batch_granted; [done|..]; apply Forall_singleton;
          [apply (Forall_inv Hsid)|apply (Forall_inv Hok)].
      + intros ?. apply hoare_inert. inert.
    - intros ?. eapply hoare_bind with (Q := λ _, holds D sid Ψ); [|by intros ? a Ha].
      eapply hoare_bind; [apply hoare_convert, hoare_append_event; [apply _|]|].
      + apply batch_granted; [|apply (Forall_inv_tail Hsid)|apply (Forall_inv_tail Hok)].
        intros h Hh [HΦ _]. by apply Hg.
      + intros ?. apply hoare_inert. inert. }
  intros ?. hstep. hstep. eapply safe_of, hoare_spawn; [done|done|].
  intros h _ [[_ Hr1] Hr2]. apply (Hrec h []). intros e [->|[->|?%not_elem_of_nil]%elem_of_cons]%elem_of_cons;
    [apply Hr1|apply Hr2|done]; by apply list_elem_of_singleton.
Qed.

(** ** Cancellation *)

(** What a cancellation needs to know. *)
Definition cancellable (attempt : option Uuid) (h : list StoredEvent) : Prop :=
  match attempt with Some x => started_in h (Some x) | None => granted h end.

#[export] Instance mono_cancellable attempt : Mono (cancellable attempt).
Proof. intros h k. destruct attempt; [apply started_app|apply granted_app]. Qed.

Lemma cancellable_granted attempt h : good_history h → cancellable attempt h → granted h.
Proof. intros Hh. destruct attempt; [apply gated_started, Hh|done]. Qed.

Lemma safe_request_cancellation (D : Prop) sid request control attempt answer :
  D → hoare (S := S) (holds D sid (cancellable attempt))
    (request_cancellation sid request control attempt answer) (λ _, AInv).
Proof.
  intros HD. unfold request_cancellation. hstep.
  assert (∀ confirmed summary, hoare (S := S)
    (holds (D ∨ active ≠ None) sid (λ h, cancellable attempt h ∧ backed active h))
    (spawn (E := DaemonError) (TK_ResolveCancel sid request control attempt confirmed summary)) (λ _, AInv)) as Hresolve.
  { intros. eapply safe_of, hoare_spawn; [by left|done|]. intros h _ [Hc _]. by destruct attempt. }
  destruct active as [e|]; [|apply Hresolve].
  destruct (bool_decide _); [|apply Hresolve].
  hstep; [apply safe_end; inert|]. eapply hoare_bind.
  { apply hoare_insert_active; [by left|]. by intros h _ [_ Hb]. }
  intros ?. hstep. destruct (ae_backend e); apply Hresolve.
Qed.

Lemma safe_resolve_cancel (D : Prop) sid request control attempt confirmed summary :
  hoare (S := S) (holds D sid (cancellable attempt))
    (resolve_cancel sid request control attempt confirmed summary) (λ _, AInv).
Proof.
  unfold resolve_cancel. hstep.
  apply (hoare_know D _ _ (cancellable attempt)); [by left|by intros h _ []|].
  hstep. hstep; [apply safe_end; inert|]. hstep.
  eapply hoare_bind with (Q := λ settled a, (batch_ok (cancellable attempt) sid settled ∧ settled ≠ []) ∧
    holds D sid (cancellable attempt) a).
  { destruct confirmed.
    - hevent. hevent. hevent. intros a Ha. split; [split; [|done]|done]. apply batch_free. free_events.
    - hstep. hevent. intros a Ha. split; [split; [|done]|done]. apply batch_granted.
      + apply cancellable_granted.
      + by apply Forall_singleton.
      + apply Forall_singleton. by apply command_input_ok. }
  intros settled. apply hoare_pure. intros [Hb Hne].
  eapply hoare_bind; [apply hoare_convert; by apply (hoare_append_events D sid (cancellable attempt))|]. intros persisted.
  hstep. eapply safe_of, hoare_delete_active.
Qed.

(** ** Recovery *)

Lemma inert_system_event sid kind request attempt effect payload :
  inert (S := S) (system_event sid kind request attempt effect payload).
Proof. unfold system_event. inert. Qed.

Lemma hoare_system_event D sid Φ kind request attempt effect payload :
  hoare (S := S) (holds D sid Φ) (system_event sid kind request attempt effect payload)
    (λ e a, (ei_session_id e = sid ∧ ei_kind e = event_kind_name kind ∧ ei_payload e = payload) ∧
            holds D sid Φ a).
Proof. unfold system_event. do 2 hstep. by intros a Ha. Qed.

Lemma hoare_recovered_terminal D sid Φ summary :
  hoare (S := S) (holds D sid Φ) (recovered_terminal summary)
    (λ p a, value_wf p = true ∧ holds D sid Φ a).
Proof. unfold recovered_terminal. hstep. by intros a Ha. Qed.

Lemma free_system sid e kind payload :
  free_kind kind = true → value_wf payload = true →
  ei_session_id e = sid ∧ ei_kind e = event_kind_name kind ∧ ei_payload e = payload → free sid e.
Proof. intros Hk Hw (Hs & Hkind & <-). by eapply (free_input sid _ kind). Qed.

Lemma safe_append_one (D : Prop) sid Φ `{!Mono Φ} e (x : bool) :
  free sid e →
  hoare (S := S) (holds D sid Φ) (let! _ := backend (be_append_event e) in st_ret x) (λ _, AInv).
Proof.
  intros Hf. apply safe_then; [|inert]. eapply safe_of, hoare_append_event; [done|].
  apply batch_free. by constructor.
Qed.

(** Recovering a cancellation that was requested last. *)
Lemma safe_recover_cancel sid l request control :
  (l ≠ [] → good_history l) → l ≠ [] →
  hoare (S := S) (holds True sid (λ h, l `prefix_of` h))
    (let! settled := match latest_started_attempt l with
       | None =>
           let! confirmed := system_event sid EK_CancelConfirmed request None None
             (VObject [("control_id", option_value uuid_value control)]) in
           let! payload := recovered_terminal "provider cancellation recovered" in
           let! cancelled := system_event sid EK_SessionCancelled request None None payload in
           st_ret [confirmed; cancelled]
       | Some attempt =>
           let! unknown := system_event sid EK_OutcomeUnknown request (Some attempt) None
             (unknown_payload attempt
                "cancellation recovery could not confirm provider outcome") in
           st_ret [unknown]
       end in
     let! _ := backend (be_append_events settled) in st_ret true) (λ _, AInv).
Proof.
  intros Hgood Hne.
  eapply hoare_bind with (Q := λ settled a, (batch_ok (λ h, l `prefix_of` h) sid settled ∧ settled ≠ []) ∧
    holds True sid (λ h, l `prefix_of` h) a).
  - destruct (latest_started_attempt l) as [attempt|] eqn:Hl.
    + eapply hoare_bind; [apply hoare_system_event|]. intros e. apply hoare_pure. intros (Hs & Hk & Hp).
      intros a Ha. split; [split; [|done]|done]. apply batch_granted.
      * intros h Hh Hpre. eapply gated_started; [apply Hh|].
        eapply prefix_started; [by apply latest_started_in|done].
      * by apply Forall_singleton.
      * apply Forall_singleton. split; [by rewrite Hp|]. by exists EK_OutcomeUnknown.
    + eapply hoare_bind; [apply hoare_system_event|]. intros e. apply hoare_pure. intros He.
      eapply hoare_bind; [apply hoare_recovered_terminal|]. intros payload. apply hoare_pure. intros Hw.
      eapply hoare_bind; [apply hoare_system_event|]. intros e'. apply hoare_pure. intros He'.
      intros a Ha. split; [split; [|done]|done]. apply batch_free. repeat apply Forall_cons_2; [| |done].
      * eapply free_system; [| |exact He]; [done|payload].
      * by eapply free_system; [| |exact He'].
  - intros settled. apply hoare_pure. intros [Hb Hs]. apply safe_then; [|inert].
    by eapply safe_of, (hoare_append_events _ sid (λ h, l `prefix_of` h)).
Qed.

Lemma safe_recover_control sid : safe (S := S) AInv (recover_control sid).
Proof.
  apply (safe_session sid). unfold recover_control.
  eapply hoare_bind; [apply hoare_backend_replay|]. intros l. apply hoare_pure. intros Hgood.
  destruct (last l) as [e|] eqn:Hlast; [|apply safe_end; inert].
  assert (l ≠ []) as Hne by (by intros ->).
  apply (hoare_know True _ _ (λ h, l `prefix_of` h)); [by right|intros h _ [_ Hp]; by apply Hp|].
  hstep.
  - eapply hoare_bind; [apply hoare_system_event|]. intros paused. apply hoare_pure. intros Hp.
    apply safe_append_one; [apply _|]. eapply free_system; [| |exact Hp]; [done|].
    pose proof (gh_events _ (Hgood Hne)) as Hev. rewrite Forall_forall in Hev.
    apply Hev. apply last_Some in Hlast as [l' ->]. set_solver.
  - hstep; [by apply safe_recover_cancel|]. hstep; [|apply safe_end; inert].
    eapply hoare_bind; [apply hoare_recovered_terminal|]. intros payload. apply hoare_pure. intros Hw.
    eapply hoare_bind; [apply hoare_system_event|]. intros cancelled. apply hoare_pure. intros Hc.
    apply safe_append_one; [apply _|]. by eapply free_system; [| |exact Hc].
Qed.

Lemma safe_for {E A} (body : A → AM (S := S) E unit) l :
  (∀ x, safe AInv (body x)) → safe AInv (st_for body l).
Proof.
  intros Hb. induction l as [|x l IH]; simpl; [apply safe_inert; inert|]. by apply safe_bind.
Qed.

Lemma safe_map {E A B} (body : A → AM (S := S) E B) l :
  (∀ x, safe AInv (body x)) → safe AInv (st_map body l).
Proof.
  intros Hb. induction l as [|x l IH]; simpl; [apply safe_inert; inert|].
  apply safe_bind; [done|]. intros y. apply safe_bind; [done|]. intros ys. apply safe_inert. inert.
Qed.

Lemma safe_recover `{!ExportLaws S} : safe (S := S) AInv recover.
Proof.
  unfold recover. apply safe_bind; [apply safe_inert; inert|]. intros ?.
  apply safe_bind; [apply safe_resume_exports|]. intros exported.
  apply safe_bind; [apply safe_inert; unfold publish_recovered; inert|]. intros ?.
  apply safe_bind; [apply safe_resume_deletions|]. intros ?.
  do 2 (apply safe_bind; [apply safe_inert; inert|]; intros ?).
  apply safe_bind.
  { unfold recover_incomplete_controls. apply safe_bind; [apply safe_map; intros; apply safe_recover_control|].
    intros ?. apply safe_inert. inert. }
  intros ?. apply safe_bind; [apply safe_inert; inert|]. intros now.
  apply safe_bind; [apply safe_recover_attempts|]. intros ?. apply safe_inert. inert.
Qed.

(** ** Maintenance *)

Lemma inert_retention_due session now : inert (S := S) (retention_due session now).
Proof. unfold retention_due. inert. Qed.

Lemma inert_retention_pass now room sessions : inert (S := S) (retention_pass now room sessions).
Proof.
  revert room. induction sessions as [|session sessions IH]; intros room; simpl; [apply inert_ret|].
  destruct room as [|room]; [apply inert_ret|].
  apply inert_bind; [inert|]. intros ?. apply inert_bind; [apply inert_retention_due|].
  intros []; [|apply (IH (Datatypes.S room))]. apply inert_bind; [apply IH|]. inert.
Qed.

Lemma safe_retire now sid : safe (S := S) AInv (retire_locked now sid).
Proof.
  unfold retire_locked. apply safe_bind; [apply safe_inert; inert|]. intros [];
    [apply safe_inert; inert|].
  unfold retire. apply safe_bind; [apply safe_inert; inert|]. intros [stored|e];
    [|apply safe_inert; inert].
  apply safe_bind; [apply safe_inert; inert|]. intros ?.
  apply safe_bind; [apply safe_inert, inert_retention_due|]. intros []; simpl;
    [|apply safe_inert; inert].
  apply safe_bind; [apply safe_inert; inert|]. intros [?|e]; [|apply safe_inert; inert].
  do 2 (apply safe_bind; [apply safe_inert; inert|]; intros ?).
  apply safe_bind; [apply safe_deletion|]. intros ?.
  apply safe_bind; [apply safe_delete_active|]. intros ?. apply safe_inert. inert.
Qed.

Lemma safe_maintenance now : safe (S := S) AInv (run_maintenance now).
Proof.
  unfold run_maintenance. apply safe_bind; [apply safe_inert; inert|]. intros sessions.
  apply safe_bind; [apply safe_inert, inert_retention_pass|]. intros candidates.
  apply safe_bind; [apply safe_map; intros; apply safe_retire|]. intros ?. apply safe_inert. inert.
Qed.

(** ** Shutdown *)

(** The executions that were active have started. *)
Definition all_started (l : list (Uuid * ActiveExecution)) a : Prop :=
  ∀ entry h, entry ∈ l → hist a entry.1 h → started_in h (Some (ae_attempt_id entry.2)).

Lemma all_started_same_core l a a' : same_core a a' → all_started l a → all_started l a'.
Proof. intros Hc Hl entry h Hin Hh. apply (Hl entry h Hin). by apply (sc_quiet _ _ Hc). Qed.

Lemma hoare_started_inert {E A} l (m : AM (S := S) E A) :
  inert m → hoare (λ a, AInv a ∧ all_started l a) m (λ _ a, AInv a ∧ all_started l a).
Proof.
  intros Hm a [Ha Hl]. specialize (Hm _ a (ai_ok _ Ha)).
  destruct (m a) as [a' [x|e]]; simpl in Hm; [split|]; by eauto using AInv_same_core, all_started_same_core.
Qed.

Lemma settle_extends l entry a s e persisted :
  AInv a → all_started l a → entry ∈ l → backend_ok (drawn a) s →
  ei_session_id e = entry.1 → input_ok e →
  extends history_of entry.1 persisted (ap_storage a) s →
  (∀ h, hist a entry.1 h → persisted = stored_after (length h) [e]) →
  AInv (set_storage s a) ∧ all_started l (set_storage s a).
Proof.
  intros Ha Hl Hin Hok Hs He Hx Hp.
  set (Φ := λ h, started_in h (Some (ae_attempt_id entry.2))).
  assert (holds False entry.1 Φ a) as Hh.
  { split; [done|done|]. intros h Hh. by apply (Hl entry). }
  split.
  - eapply ho_inv, (holds_extends False entry.1 Φ a s [e] persisted); [exact Hh|done| |done|done].
    apply batch_granted; [|by apply Forall_singleton|by apply Forall_singleton].
    intros h Hgh. apply gated_started, Hgh.
  - intros x h' Hxin Hh'. apply Hx in Hh'. case_decide as Heq; [|by apply (Hl x)].
    destruct Hh' as (h & Hh' & ->). apply started_app. by apply (Hl x).
Qed.

Lemma hoare_settle_active l entry :
  entry ∈ l → hoare (λ a, AInv a ∧ all_started l a) (settle_active entry)
    (λ _ a, AInv a ∧ all_started l a).
Proof.
  intros Hin. unfold settle_active, system_event.
  eapply hoare_bind with (Q := λ e a, (ei_session_id e = entry.1 ∧ input_ok e) ∧ AInv a ∧ all_started l a).
  { eapply hoare_bind; [apply hoare_started_inert; inert|]. intros id.
    eapply hoare_bind; [apply hoare_started_inert; inert|]. intros now.
    intros a Ha. split; [|done]. split; [done|]. split; [done|]. by exists EK_OutcomeUnknown. }
  intros e. apply hoare_pure. intros [Hs He].
  eapply hoare_bind with (Q := λ _ a, AInv a ∧ all_started l a); [|by intros ? a Ha].
  intros a [Ha Hl]. unfold backend. destruct (be_append_event e (ap_storage a)) as [s r] eqn:Happ.
  eapply law_append_event in Happ as [Hok Hr]; [|apply Ha|apply He]. destruct r as [x|err]; simpl.
  - rewrite Hs in Hr. destruct Hr as [Hx Hp]. by eapply settle_extends.
  - by apply AInv_quiet.
Qed.

Lemma safe_shutdown : safe (S := S) AInv prepare_shutdown.
Proof.
  intros a Ha. unfold prepare_shutdown, st_bind, st_gets, st_modify. simpl.
  set (a' := set_active ∅ _). set (l := map_to_list (ap_active a)).
  assert (AInv a' ∧ all_started l a') as Ha'.
  { split.
    - apply AInv_sub_active; [|apply map_empty_subseteq]. eapply AInv_same_core; [|exact Ha].
      by split.
    - intros [sid e] h Hin%elem_of_map_to_list Hh. simpl. eapply ai_active; [exact Ha|done|done]. }
  clearbody a' l. assert (∀ k, k ⊆ l → hoare (λ a, AInv a ∧ all_started l a) (st_for settle_active k)
    (λ _, AInv)) as Hall.
  { induction k as [|entry k IH]; intros Hk; simpl; [by intros s []|].
    eapply hoare_bind; [apply hoare_settle_active; set_solver|]. intros ?. apply IH. set_solver. }
  apply (Hall l (reflexivity l) a' Ha').
Qed.

(** ** Tasks *)

Lemma safe_task t answer :
  hoare (S := S) (holds True (task_session t) (λ h, supported h t)) (run_task t answer) (λ _, AInv).
Proof.
  unfold run_task. hstep. hstep; [apply safe_end; inert|]. destruct t; simpl.
  - by apply safe_finish_fake; [apply _|].
  - by apply safe_activate_provider.
  - by apply safe_activation_failure; [apply _|].
  - by apply safe_consume; [|apply _|].
  - by apply safe_advance; [|apply _|].
  - by apply safe_dispatch_step; [apply _|..].
  - by apply safe_activate_step; [|apply _|].
  - by apply safe_request_cancellation.
  - by apply safe_resolve_cancel.
Qed.

Lemma AInv_task t answer before after a :
  AInv a → ap_tasks a = before ++ t :: after →
  AInv (run_task t answer (set_tasks (before ++ after) a)).1.
Proof.
  intros Ha Ht. apply (safe_inv _ _ _ (safe_task t answer)).
  assert (t ∈ ap_tasks a) as Hin by (rewrite Ht; set_solver).
  destruct (ai_tasks _ Ha t Hin) as [Hd Hs]. split; [|by intros _|done].
  destruct Ha as [Hok Hgood Hids Hact Htasks Hcalls]. split; simpl; try done.
  intros t' Ht'. apply Htasks. rewrite Ht. set_solver.
Qed.
End tasks.
