(* ===== verification/DaemonSteps.v ===== *)
(** * DaemonSteps: the daemon as a transition system, and what it never does

    A step is a command of a client, one turn of a task, maintenance, shutdown, a
    client that reads or leaves, a change of the storage that no history shows, or a
    restart with recovery. Sections under the lock of a session are single steps; a
    provider is awaited between steps. Any storage that satisfies [BackendLaws] will
    do, in particular [LockedStorage]. *)

From S2P Require Import StorageKeys StorageTables StorageDb StorageDisk StorageExport.
From S2P Require Import Prelude StateResult Text BTree Errors Value Attempt Policy Routing.
From S2P Require Import Event Workflow Ports Json Wire ProtoCommand ProtoReply Subscription.
From S2P Require Import ConfigModel ConfigValidate ConfigMerge ConfigPreflight FileSystem ConfigLock.
From S2P Require Import StorageKeys StorageTables StorageDb StorageOps.
From S2P Require Import DaemonModel DaemonWorkflow DaemonHub DaemonBackend DaemonApp.
From S2P Require Import DaemonHandlers DaemonTasks DaemonHistory DaemonInv DaemonLogic DaemonPayload.
From S2P Require Import DaemonSafe DaemonCommands DaemonTaskSafe.

Section steps.
Context `{StorageEnvLaws} `{DaemonEnvLaws} `{FileSystem} {S : Type} `{BackendLaws S}.
Context `{!ExportBackend S} `{!ExportLaws S}.
Implicit Types a : Application S.

(** The storage changed, but no history did: other connections, failures to come. *)
Definition moved a (s : S) : Prop :=
  backend_ok (drawn a) s ∧ quiet history_of (ap_storage a) s.

Definition set_hub (hub : SubscriptionHub) a : Application S :=
  set_outside hub (ap_tasks a) (ap_calls a) (ap_draws a) a.

Inductive astep : Application S → Application S → Prop :=
| as_command command context a : astep a (dispatch command context a).1
| as_task before t after answer a :
    ap_tasks a = before ++ t :: after →
    (task_locks t = true → task_session t ∉ ap_blocked a) →
    astep a (run_task t answer (set_tasks (before ++ after) a)).1
| as_maintenance now a : astep a (run_maintenance now a).1
| as_shutdown a :
    ap_blocked a = ∅ → Forall (λ t, task_continues t = false) (ap_tasks a) →
    astep a (prepare_shutdown a).1
| as_next id a : astep a (set_hub (next id (ap_subscriptions a)).1 a)
| as_drop id a : astep a (set_hub (drop_subscription id (ap_subscriptions a)) a)
| as_storage s a : moved a s → astep a (set_storage s a)
| as_restart s startup fake catalog a :
    moved a s → astep a (recover (compose s startup fake catalog (ap_draws a))).1.

(** States reached from a storage without sessions. *)
Inductive areachable : Application S → Prop :=
| ar_start s startup fake catalog draws :
    backend_ok (λ _, False) s → (∀ x h, ¬ history_of s x h) →
    areachable (compose s startup fake catalog draws)
| ar_step a a' : areachable a → astep a a' → areachable a'.

(** ** The invariant holds in every state *)

Lemma AInv_compose s startup fake catalog draws :
  backend_ok (λ _, False) s → (∀ x h, ¬ history_of s x h) →
  AInv (compose s startup fake catalog draws).
Proof.
  intros Hok Hno. split; simpl.
  - by eapply backend_mono; [|exact Hok].
  - intros sid h Hh. by destruct (Hno sid h).
  - intros sid h Hh. by destruct (Hno sid h).
  - intros sid e He. by rewrite lookup_empty in He.
  - by intros t ?%elem_of_nil.
  - by intros c ?%elem_of_nil.
Qed.

(** Nothing but the storage and the drawn identifiers survives a restart. *)
Lemma AInv_restart s startup fake catalog a :
  AInv a → moved a s → AInv (compose s startup fake catalog (ap_draws a)).
Proof.
  intros Ha [Hok Hq]. split; simpl.
  - by eapply backend_mono; [|exact Hok].
  - intros sid h Hh%Hq. by eapply ai_good.
  - intros sid h Hh%Hq. by apply (ai_ids _ Ha _ _ Hh).
  - intros sid e He. by rewrite lookup_empty in He.
  - by intros t ?%elem_of_nil.
  - by intros c ?%elem_of_nil.
Qed.

Lemma AInv_hub hub a : AInv a → AInv (set_hub hub a).
Proof. intros Ha. eapply AInv_same_core; [|exact Ha]. by split. Qed.

Lemma AInv_step a a' : astep a a' → AInv a → AInv a'.
Proof.
  destruct 1 as [command context a|before t after answer a Ht Hb|now a|a Hb Ht|id a|id a|s a Hm
    |s startup fake catalog a Hm]; intros Ha.
  - by apply AInv_dispatch.
  - by apply AInv_task.
  - by apply (safe_inv _ _ _ (safe_maintenance now)).
  - by apply (safe_inv _ _ _ safe_shutdown).
  - by apply AInv_hub.
  - by apply AInv_hub.
  - by apply AInv_quiet; [|apply Hm..].
  - apply (safe_inv _ _ _ safe_recover). by apply AInv_restart.
Qed.

Lemma areachable_AInv a : areachable a → AInv a.
Proof.
  induction 1 as [s startup fake catalog draws Hok Hno|a a' _ IH Hs];
    [by apply AInv_compose|by eapply AInv_step].
Qed.

(** ** Approvals come first *)

(** C3: In every history the daemon can produce, through commands, tasks, maintenance,
    shutdown, storage failures and restarts, an attempt that was started, or whose
    outcome is unknown, is preceded by a recorded approval that grants. *)
Theorem attempts_are_granted a sid h before e after :
  areachable a → history_of (ap_storage a) sid h → h = before ++ e :: after →
  se_kind e = "dispatch_started" ∨ se_kind e = "outcome_unknown" →
  ∃ x approval, x ∈ before ∧ se_kind x = "approval_recorded" ∧
    recorded_decision x = Ok (approval, AD_Grant).
Proof.
  intros Ha Hh Heq Hk. pose proof (ai_good _ (areachable_AInv _ Ha) _ _ Hh) as [_ _ Hg].
  destruct (Hg before e after Heq) as (x & Hx & Hkind & approval & Hd); [|by exists x, approval].
  by destruct Hk as [-> | ->].
Qed.

(** C4: Write-ahead: a provider is started or prompted only for an attempt whose start is
    already durable in the history of its session, after a grant; and the same holds
    for everything that is running or scheduled to continue. *)
Theorem calls_are_recorded a sid h :
  areachable a → history_of (ap_storage a) sid h →
  (∀ c, c ∈ ap_calls a → call_session c = sid →
     started_in h (Some (call_attempt c)) ∧ granted h) ∧
  (∀ e, ap_active a !! sid = Some e → started_in h (Some (ae_attempt_id e)) ∧ granted h) ∧
  (∀ t, t ∈ ap_tasks a → task_session t = sid → supported h t).
Proof.
  intros Ha%areachable_AInv Hh. pose proof (ai_good _ Ha _ _ Hh) as [_ _ Hg].
  assert (∀ attempt, started_in h (Some attempt) → started_in h (Some attempt) ∧ granted h) as Hboth
    by (intros attempt Hs; split; [done|by eapply gated_started]).
  split_and!.
  - intros c Hc <-. apply Hboth. by apply (ai_calls _ Ha c Hc).
  - intros e He. apply Hboth. by apply (ai_active _ Ha sid e He).
  - intros t Ht <-. by apply (ai_tasks _ Ha t Ht).
Qed.

(** C5: Every history the daemon can produce is one it can use: it folds to a state that
    accounts for all its events, each of which has a kind of the protocol, is published
    under the sequence that is its position, and has a JSON payload; and the session
    has an identifier the daemon drew. *)
Theorem histories_are_readable a sid h :
  areachable a → history_of (ap_storage a) sid h →
  (∃ f, fold_session h = Ok f ∧ fs_last_sequence f = N.of_nat (length h)) ∧
  (∀ i e, h !! i = Some e → value_wf (se_payload e) = true ∧
     ∃ p, protocol_event e = Ok p ∧ sev_sequence p = N.of_nat (i + 1)) ∧
  (∃ i, (i < ap_draws a)%N ∧ sid = daemon_v7 i).
Proof.
  intros Ha%areachable_AInv Hh. pose proof (ai_good _ Ha _ _ Hh) as [(f & Hf & Hl & _) He _].
  split_and!; [by exists f| |by apply (ai_ids _ Ha _ _ Hh)].
  intros i e Hi. rewrite Forall_lookup in He. destruct (He i e Hi) as (Hw & (kind & Hk) & _).
  split; [done|]. unfold protocol_event. rewrite Hk. eexists. split; [done|]. simpl.
  by apply (fold_session_numbered _ _ Hf).
Qed.
End steps.
