(* ===== verification/DaemonWitness.v ===== *)
(** * DaemonWitness: the daemon on the SQLite storage, at a concrete run

    One configured agent behind an ACP adapter, a storage over the in-memory key store,
    a client that creates a session, prompts and grants the approval. *)

From S2P Require Import StorageKeys StorageTables StorageDb StorageDisk StorageExport.
From S2P Require Import Prelude StateResult Text BTree Errors Value Attempt Policy Routing.
From S2P Require Import Event Workflow Ports Json Wire ProtoCommand ProtoReply Subscription.
From S2P Require Import ConfigModel ConfigValidate ConfigMerge ConfigPreflight FileSystem ConfigLock.
From S2P Require Import StorageKeys StorageSample StorageTables StorageDb StorageInv StorageOps.
From S2P Require Import StorageProps StorageView.
From S2P Require Import DaemonModel DaemonWorkflow DaemonHub DaemonBackend DaemonSqlite DaemonLocked.
From S2P Require Import DaemonMachine StorageExportProps.
From S2P Require Import DaemonApp DaemonHandlers DaemonTasks DaemonHistory DaemonInv DaemonLogic.
From S2P Require Import DaemonPayload DaemonSafe DaemonCommands DaemonTaskSafe DaemonSteps.

#[local] Existing Instance plain_machine.
#[local] Existing Instance sample_age.

(** A daemon whose agent answers everything. *)
#[local] Instance willing_world : DaemonEnv := {
  daemon_v7 i := (100 + i)%N;
  clock i := Z.of_N i;
  has_adapter _ := true;
  provider_start _ _ := Ok "handle";
  provider_prompt _ _ _ _ := Ok tt;
  provider_available _ _ := true;
  overrides_yaml _ := None;
  encoded_len _ := Some 100%N;
}.

#[local] Instance willing_world_laws : DaemonEnvLaws.
Proof. intros i j Heq. simpl in Heq. lia. Qed.

(** ** A run *)

Definition work_config : WorkbenchConfiguration :=
  {| cf_version := 1; cf_providers := [("agent", agent_provider)];
     cf_models := [("agent-model", {| md_provider := "agent"; md_runtime_model := "agent-1" |})];
     cf_roles := [("workspace-coordinator",
       {| ro_model := "agent-model"; ro_tools := []; ro_data_sources := [];
          ro_required_capabilities := []; ro_fallback_models := [] |})];
     cf_tools := []; cf_data_sources := []; cf_mcp_servers := [];
     cf_workflows := []; cf_routing := cf_routing safe_builtins;
     cf_policies := cf_policies safe_builtins; cf_storage := cf_storage safe_builtins;
     cf_protocol := cf_protocol safe_builtins |}.

Definition work_snapshot : ConfigurationSnapshot :=
  snapshot_create config_json blake3_hex work_config [].

Definition work_startup : StartupConfiguration :=
  {| su_resolved := work_config; su_snapshot := work_snapshot;
     su_base_lock :=
       {| wl_version := 1; wl_scope := LS_Repository; wl_base_lock_hash := None;
          wl_configuration := locked_configuration work_snapshot;
          wl_protocol := wl_protocol agent_lock; wl_adapters := wl_adapters agent_lock;
          wl_models := lock_models work_config; wl_mcps := [] |};
     su_sources := [] |}.

Definition work_catalog : BTreeMap PreflightCapabilities :=
  [("agent", {| pf_adapter_id := "agent"; pf_adapter_version := "1"; pf_protocol := "acp/1";
                pf_authentication := AS_Available; pf_capabilities := [CAP_Streaming];
                pf_context_window_tokens := None;
                pf_operations := [{| po_name := "prompt"; po_effect_class := CE_PaidInference;
                                     po_idempotent := false; po_material_cost := true;
                                     po_approval := AM_Never |}] |})].

Definition Daemon : Type := Application (Machine MemoryKeyStore).

Definition booted : Daemon :=
  compose {| mc_storage := opened MemoryKeyStore_new 3%N "here" 0%N; mc_disk := sample_disk |} work_startup
    {| fb_confirms_cancellation := true; fb_report_findings := false |} work_catalog 0%N.

Definition client : ClientContext := {| cx_uid := 501; cx_client_name := "tui" |}.

Definition send (request : Uuid) (sid : option Uuid) (c : Command) (a : Daemon) : Daemon :=
  (dispatch {| cc_protocol := PROTOCOL_V1; cc_request_id := request; cc_session_id := sid;
               cc_command := c |} client a).1.

Definition prompted : Daemon :=
  send 501%N (Some 100%N) (SessionPrompt {| text := "do it"; explicit_target := None |})
    (send 500%N None (SessionCreate {| persistent := true; configuration_overrides := None;
                                       workflow := None |}) booted).

Definition running : Daemon :=
  send 502%N (Some 100%N)
    (SessionApprovalResolve {| ap_approval_id := 106%N; ap_decision := AD_Grant |}) prompted.

Lemma booted_reachable : areachable booted.
Proof.
  apply ar_start.
  - split.
    + apply opened_SInv. intros sid Hk. by apply Hk.
    + intros sid Hk. by destruct Hk.
    + intros x Hx. by apply Hx.
  - intros x h [Hx _]. by apply Hx.
Qed.

Lemma running_reachable : areachable running.
Proof.
  unfold running, prompted, send.
  do 3 (eapply ar_step; [|apply as_command]). apply booted_reachable.
Qed.

(** The histories of a state that can be reached, under a key that is at hand. *)
Lemma cached_history (a : Daemon) sid key h :
  areachable a → km_cache (keys (mc_storage (ap_storage a))) !! sid = Some key →
  StorageInv.history key sid (connection (mc_storage (ap_storage a))) = Ok h → h ≠ [] →
  history_of (ap_storage a) sid h.
Proof.
  intros Ha Hk Hh Hne. pose proof (so_inv _ _ (ai_ok _ (areachable_AInv _ Ha))) as Hi.
  split; [by eapply history_session|]. exists key. split; [by apply (inv_cache _ _ Hi)|done].
Qed.

Definition work_key : SecretKey := sample_random 1%N 32%N.

(** What a key opens. *)
Definition opens_to (key : SecretKey) (sid : Uuid) (t : Tables) : list StoredEvent :=
  match StorageInv.history key sid t with Ok h => h | Err _ => [] end.

Definition running_history : list StoredEvent :=
  opens_to work_key 100%N (connection (mc_storage (ap_storage running))).

Lemma running_stored : history_of (ap_storage running) 100%N running_history.
Proof.
  apply (cached_history running 100%N work_key); [apply running_reachable|..].
  - vm_compute. reflexivity.
  - vm_compute. reflexivity.
  - vm_compute. discriminate.
Qed.

Lemma running_started : se_kind <$> running_history !! 6 = Some "dispatch_started".
Proof. vm_compute. reflexivity. Qed.

Lemma running_length : length running_history = 7%nat.
Proof. vm_compute. reflexivity. Qed.

Lemma running_calls : PC_Prompt 100%N 110%N "agent" ∈ ap_calls running.
Proof.
  assert (ap_calls running = [PC_Start 100%N 110%N "agent"; PC_Prompt 100%N 110%N "agent"]) as ->
    by (vm_compute; reflexivity). right. left.
Qed.

(** ** Witnesses *)

Lemma attempts_are_granted_witness :
  ∃ x approval, x ∈ take 6 running_history ∧ se_kind x = "approval_recorded" ∧
    recorded_decision x = Ok (approval, AD_Grant).
Proof.
  pose proof running_started as Hk. destruct (running_history !! 6) as [e|] eqn:He; [|discriminate].
  injection Hk as Hk.
  apply (attempts_are_granted running 100%N running_history (take 6 running_history) e
           (drop 7 running_history)).
  - exact running_reachable.
  - exact running_stored.
  - symmetry. apply take_drop_middle. exact He.
  - left. exact Hk.
Defined.

Lemma calls_are_recorded_witness :
  started_in running_history (Some 110%N) ∧ granted running_history.
Proof.
  apply (proj1 (calls_are_recorded running 100%N running_history running_reachable running_stored)
           (PC_Prompt 100%N 110%N "agent")).
  - exact running_calls.
  - reflexivity.
Defined.

Lemma histories_are_readable_witness :
  ∃ f, fold_session running_history = Ok f ∧ fs_last_sequence f = 7%N.
Proof.
  destruct (histories_are_readable running 100%N running_history running_reachable running_stored)
    as ((f & Hf & Hl) & _). exists f. split; [exact Hf|]. rewrite Hl, running_length. reflexivity.
Defined.

(** ** An export *)

Definition created : Daemon :=
  send 500%N None (SessionCreate {| persistent := true; configuration_overrides := None;
                                    workflow := None |}) booted.

Definition work_export : ExportCommand :=
  {| xc_session_id := 100%N; xc_request_id := 600%N; xc_export_id := 601%N; xc_occurred_at := 30%Z;
     xc_parameters := VObject [("age_recipients", VArray [VString "age1alice"]);
                               ("output_path", VString "/home/out.age")];
     xc_output_path := "/home/out.age"; xc_age_recipients := ["age1alice"];
     xc_outcome := VObject [("exported", VBool true)]; xc_event_payload := VObject [] |}.

Definition exported : Machine MemoryKeyStore := (execute_export work_export (ap_storage created)).1.

Definition work_exported : StoredEvent :=
  {| se_event_id := 1007%N; se_session_id := 100%N; se_sequence := 2%N; se_occurred_at := 30%Z;
     se_kind := "session_exported"; se_causation_request_id := Some 600%N; se_attempt_id := None;
     se_effect_class := None; se_payload := VObject [] |}.

Lemma work_export_recorded :
  execute_export work_export (ap_storage created) =
  (exported, Ok (CEO_Recorded work_exported (xc_outcome work_export))).
Proof. vm_compute. reflexivity. Qed.

Lemma created_exports : export_journal (connection (mc_storage (ap_storage created))) = [].
Proof. vm_compute. reflexivity. Qed.

Lemma work_output : (normalized_output_path "/home/out.age" (mc_disk (ap_storage created))).2 = Ok "/home/out.age".
Proof. vm_compute. reflexivity. Qed.

Lemma work_staging : staging_path "/home/out.age" 601%N ≠ Ok "/home/out.age".
Proof. vm_compute. discriminate. Qed.

Lemma export_is_published_witness :
  published (connection (mc_storage (ap_storage created))) 100%N 601%N ["age1alice"] "/home/out.age" exported.
Proof.
  destruct (export_is_published work_export (ap_storage created) exported work_exported
              (xc_outcome work_export)) as (_ & output & Ho & _ & Hp).
  - intros r Hr. rewrite created_exports in Hr. by apply not_elem_of_nil in Hr.
  - intros output Ho. change (xc_output_path work_export) with "/home/out.age" in Ho.
    rewrite work_output in Ho. injection Ho as <-. apply work_staging.
  - apply work_export_recorded.
  - change (xc_output_path work_export) with "/home/out.age" in Ho. rewrite work_output in Ho.
    injection Ho as <-. exact Hp.
Defined.
