(* ===== verification/AgentFrames.v ===== *)
(** * AgentFrames: lines of JSON from a child process
      (codec.rs of workbench-claude, workbench-codex and workbench-acp)

    The three crates share this code up to their error types, which are arguments
    here. A reader is its buffer and the part of it known to hold no newline; what the
    pipe delivers is a list of reads, an empty one at the end of the stream. When the
    list is exhausted the reader waits. *)

From S2P Require Import Prelude Text BTree Errors Json Wire Codec.

Definition MAX_FRAME_BYTES : N := 8388608.

(** [char::is_whitespace] *)
Definition is_whitespace (c : N) : bool :=
  (9 <=? c)%N && (c <=? 13)%N || (c =? 32)%N || (c =? 133)%N || (c =? 160)%N || (c =? 5760)%N
  || (8192 <=? c)%N && (c <=? 8202)%N || (c =? 8232)%N || (c =? 8233)%N || (c =? 8239)%N
  || (c =? 8287)%N || (c =? 12288)%N.

Fixpoint take_bytes (n : nat) (s : string) : string :=
  match n, s with
  | S n, String c s => String c (take_bytes n s)
  | _, _ => EmptyString
  end.

Fixpoint drop_bytes (n : nat) (s : string) : string :=
  match n, s with
  | O, s => s
  | S n, String _ s => drop_bytes n s
  | S _, EmptyString => EmptyString
  end.

(** [iter().position] of a newline *)
Fixpoint find_newline (s : string) : option nat :=
  match s with
  | EmptyString => None
  | String c s => if is_byte NEWLINE c then Some 0%nat else S <$> find_newline s
  end.

Record FrameReader : Type := {
  fr_buffered : string;
  fr_searched_until : nat;
}.

Definition FrameReader_new : FrameReader := {| fr_buffered := EmptyString; fr_searched_until := 0 |}.

(** What one read of the pipe delivers: bytes, none at the end, or an error. *)
Inductive Read : Type := RD_Bytes (chunk : string) | RD_Failed.

Section frames.
Context {E : Type} (frame_too_large invalid_frame transport_closed : E).
Context (parse_json : string → option Value) (print_json : Value → string).

Definition encode_frame (value : Value) : Result string E :=
  let encoded := print_json value in
  if (MAX_FRAME_BYTES <? len encoded)%N then Err frame_too_large else Ok encoded.

(** What [write_frame] writes, in order. *)
Definition write_frame (value : Value) : Result (list string) E :=
  let? encoded := encode_frame value in Ok [encoded; String LF EmptyString].

Definition decode_frame (bytes : string) : Result Value E :=
  if is_empty bytes then Err invalid_frame
  else if (MAX_FRAME_BYTES <? len bytes)%N then Err frame_too_large
  else if negb (utf8_valid bytes) then Err invalid_frame
  else if forallb is_whitespace (chars bytes) then Err invalid_frame
  else
    let? doc := ok_or (parse_json bytes) invalid_frame in
    map_err (λ _, invalid_frame) (strict_value doc).

(** [next_frame]; no result means that it still waits. *)
Fixpoint next_frame (reads : list Read) (r : FrameReader)
    : FrameReader * list Read * option (Result (option Value) E) :=
  match find_newline (drop_bytes (fr_searched_until r) (fr_buffered r)) with
  | Some relative =>
      let newline := (fr_searched_until r + relative)%nat in
      if (MAX_FRAME_BYTES <? N.of_nat newline)%N then (r, reads, Some (Err frame_too_large))
      else ({| fr_buffered := drop_bytes (newline + 1) (fr_buffered r); fr_searched_until := 0 |}, reads,
            Some (result_map Some (decode_frame (take_bytes newline (fr_buffered r)))))
  | None =>
      let r := {| fr_buffered := fr_buffered r;
                  fr_searched_until := String.length (fr_buffered r) |} in
      if (MAX_FRAME_BYTES <? len (fr_buffered r))%N then (r, reads, Some (Err frame_too_large))
      else
        match reads with
        | [] => (r, [], None)
        | RD_Failed :: reads => (r, reads, Some (Err transport_closed))
        | RD_Bytes EmptyString :: reads =>
            (r, reads, Some (if is_empty (fr_buffered r) then Ok None else Err invalid_frame))
        | RD_Bytes chunk :: reads =>
            next_frame reads {| fr_buffered := fr_buffered r +:+ chunk;
                                fr_searched_until := fr_searched_until r |}
        end
  end.

(** Successive calls, until one fails, ends or waits. *)
Fixpoint next_frames (calls : nat) (reads : list Read) (r : FrameReader) : list Value :=
  match calls with
  | O => []
  | S calls =>
      match next_frame reads r with
      | (r, reads, Some (Ok (Some value))) => value :: next_frames calls reads r
      | _ => []
      end
  end.
End frames.

(** ** Lemmas *)

Lemma newline_free_app a b : newline_free (a +:+ b) ↔ newline_free a ∧ newline_free b.
Proof.
  unfold newline_free. induction a as [|c a IH]; simpl; [naive_solver|].
  rewrite !andb_true_iff, IH. naive_solver.
Qed.

Lemma find_newline_free s : newline_free s ↔ find_newline s = None.
Proof.
  unfold newline_free. induction s as [|c s IH]; simpl; [done|]. rewrite andb_true_iff, IH, negb_true_iff.
  destruct (is_byte NEWLINE c); simpl; [naive_solver|]. destruct (find_newline s); simpl; naive_solver.
Qed.

Lemma find_newline_app a b :
  newline_free a → find_newline (a +:+ b) = (λ n, (String.length a + n)%nat) <$> find_newline b.
Proof.
  unfold newline_free. induction a as [|c a IH]; simpl; [intros _; change (EmptyString +:+ b) with b; by destruct (find_newline b)|].
  intros [Hc Ha]%andb_true_iff. apply negb_true_iff in Hc. rewrite Hc, (IH Ha). by destruct (find_newline b).
Qed.

Lemma take_bytes_app a b : take_bytes (String.length a) (a +:+ b) = a.
Proof. induction a as [|c a IH]; simpl; [done|]. by rewrite IH. Qed.

Lemma drop_bytes_app a b n : drop_bytes (String.length a + n) (a +:+ b) = drop_bytes n b.
Proof. induction a as [|c a IH]; simpl; done. Qed.

Lemma drop_bytes_all s : drop_bytes (String.length s) s = EmptyString.
Proof. induction s as [|c s IH]; simpl; done. Qed.

(** A text either holds no newline or has a first one. *)
Lemma first_newline s : newline_free s ∨ ∃ a b, newline_free a ∧ s = a +:+ String LF b.
Proof.
  unfold newline_free. induction s as [|c s IH]; [by left|]. simpl.
  destruct (is_byte NEWLINE c) eqn:Hc.
  - right. exists EmptyString, s. split; [done|]. simpl. f_equal. unfold is_byte, byte_of in Hc.
    apply N.eqb_eq in Hc. unfold LF. rewrite <-Hc. by rewrite ascii_N_embedding.
  - destruct IH as [IH|(a & b & Ha & ->)]; [by left|]. right. exists (String c a), b. simpl.
    by rewrite Hc, Ha.
Qed.

Lemma LF_newline : is_byte NEWLINE LF = true.
Proof. reflexivity. Qed.

(** The first line of a text is determined. *)
Lemma first_line_unique a b a' b' :
  newline_free a → newline_free a' → a +:+ String LF b = a' +:+ String LF b' → a = a' ∧ b = b'.
Proof.
  intros Ha Ha' Heq. pose proof (split_once_frame a b Ha) as H1. rewrite Heq in H1.
  rewrite split_once_frame in H1 by done. by injection H1 as -> ->.
Qed.

(** ** Reading what was written, however it is cut up *)

Section delivery.
Context {E : Type} (frame_too_large invalid_frame transport_closed : E).
Context (parse_json : string → option Value) (print_json : Value → string).
Local Abbreviation next_frame := (next_frame frame_too_large invalid_frame transport_closed parse_json).
Local Abbreviation decode_frame := (decode_frame frame_too_large invalid_frame parse_json).

Definition delivered (reads : list Read) : string :=
  String.concat "" (List.map (λ r, match r with RD_Bytes c => c | RD_Failed => EmptyString end) reads).

Definition plain_read (r : Read) : Prop := ∃ c, r = RD_Bytes c ∧ c ≠ EmptyString.

(** The part that was searched holds no newline. *)
Definition reader_ok (r : FrameReader) : Prop :=
  ∃ a b, fr_buffered r = a +:+ b ∧ fr_searched_until r = String.length a ∧ newline_free a.

Lemma concat_cons a l : String.concat "" (a :: l) = a +:+ String.concat "" l.
Proof. destruct l; simpl; [by rewrite string_app_nil|done]. Qed.

(** The search, whatever part was searched before, finds the first newline. *)
Lemma search_found r line more :
  reader_ok r → newline_free line → fr_buffered r = line +:+ String LF more →
  (λ n, (fr_searched_until r + n)%nat) <$> find_newline (drop_bytes (fr_searched_until r) (fr_buffered r)) =
  Some (String.length line).
Proof.
  intros (a & b & Hb & Hs & Ha) Hl Hr. pose proof (find_newline_app a b Ha) as Hf.
  rewrite <-Hb, Hr, find_newline_app in Hf by done. simpl in Hf. rewrite Nat.add_0_r in Hf.
  rewrite Hs, Hb, <-(Nat.add_0_r (String.length a)), drop_bytes_app. simpl. rewrite Nat.add_0_r. by rewrite Hf.
Qed.

Lemma search_failed r :
  reader_ok r → newline_free (fr_buffered r) →
  find_newline (drop_bytes (fr_searched_until r) (fr_buffered r)) = None.
Proof.
  intros (a & b & Hb & Hs & Ha) Hr. rewrite Hb in Hr. apply newline_free_app in Hr as [_ Hr].
  rewrite Hs, Hb, <-(Nat.add_0_r (String.length a)), drop_bytes_app. by apply find_newline_free.
Qed.

Lemma next_frame_found reads r line more :
  reader_ok r → newline_free line → (len line ≤ MAX_FRAME_BYTES)%N →
  fr_buffered r = line +:+ String LF more →
  next_frame reads r = ({| fr_buffered := more; fr_searched_until := 0 |}, reads,
                        Some (result_map Some (decode_frame line))).
Proof.
  intros Hok Hl Hmax Hr. pose proof (search_found r line more Hok Hl Hr) as Hf.
  destruct (find_newline _) as [n|] eqn:Hn; [|done]. injection Hf as Hf.
  destruct reads; simpl; rewrite Hn, Hf; unfold len in Hmax;
    (rewrite (proj2 (N.ltb_ge _ _)) by done); rewrite Hr, take_bytes_app, drop_bytes_app; done.
Qed.

Lemma next_frame_more reads r chunk :
  reader_ok r → newline_free (fr_buffered r) → (len (fr_buffered r) ≤ MAX_FRAME_BYTES)%N → chunk ≠ EmptyString →
  next_frame (RD_Bytes chunk :: reads) r =
  next_frame reads {| fr_buffered := fr_buffered r +:+ chunk;
                      fr_searched_until := String.length (fr_buffered r) |}.
Proof.
  intros Hok Hr Hmax Hc. simpl. rewrite (search_failed r Hok Hr), (proj2 (N.ltb_ge _ _)) by done.
  by destruct chunk.
Qed.

(** A text without newlines that starts a line and more is part of the line. *)
Lemma prefix_of_line p q line rest :
  newline_free p → p +:+ q = line +:+ String LF rest → (len p ≤ len line)%N.
Proof.
  revert line. unfold newline_free, len. induction p as [|c p IH]; simpl; [lia|]. intros line Hp Heq.
  apply andb_true_iff in Hp as [Hc Hp]. destruct line as [|d line].
  - simpl in Heq. injection Heq as -> _. by rewrite LF_newline in Hc.
  - injection Heq as -> Heq. specialize (IH line Hp Heq). simpl. lia.
Qed.

Lemma next_frame_line reads r line rest :
  reader_ok r → Forall plain_read reads → newline_free line → (len line ≤ MAX_FRAME_BYTES)%N →
  fr_buffered r +:+ delivered reads = line +:+ String LF rest →
  ∃ r' reads', next_frame reads r = (r', reads', Some (result_map Some (decode_frame line))) ∧
    reader_ok r' ∧ Forall plain_read reads' ∧ fr_buffered r' +:+ delivered reads' = rest.
Proof.
  revert r. induction reads as [|rd reads IH]; intros r Hok Hreads Hline Hmax Heq;
    destruct (first_newline (fr_buffered r)) as [Hr|(a & b & Ha & Hr)].
  - exfalso. unfold delivered in Heq. simpl in Heq. rewrite string_app_nil in Heq. rewrite Heq in Hr.
    apply newline_free_app in Hr as [_ Hr]. discriminate Hr.
  - rewrite Hr, string_app_assoc in Heq. apply (first_line_unique a _ line rest) in Heq as [-> <-]; [|done|done].
    eexists _, _. split; [by eapply next_frame_found|]. split_and!; [|done|done].
    by exists EmptyString, b.
  - apply Forall_cons in Hreads as [(chunk & -> & Hne) Hreads].
    assert (len (fr_buffered r) ≤ MAX_FRAME_BYTES)%N as Hlen.
    { pose proof (prefix_of_line _ _ _ _ Hr Heq). lia. }
    rewrite next_frame_more by done. apply IH; [|done|done|done|].
    + by exists (fr_buffered r), chunk.
    + simpl. rewrite <-Heq. unfold delivered. simpl List.map. rewrite concat_cons. by rewrite string_app_assoc.
  - rewrite Hr, string_app_assoc in Heq. apply (first_line_unique a _ line rest) in Heq as [-> <-]; [|done|done].
    eexists _, _. split; [by eapply next_frame_found|]. split_and!; [|done|done].
    by exists EmptyString, b.
Qed.

(** What JSON text promises of a value: it is read back, is one line of UTF-8 and is
    not blank. The value fits a frame. *)
Record printable (v : Value) : Prop := {
  pr_value : value_wf v = true;
  pr_read : parse_json (print_json v) = Some v;
  pr_line : newline_free (print_json v);
  pr_utf8 : utf8_valid (print_json v) = true;
  pr_visible : forallb is_whitespace (chars (print_json v)) = false;
  pr_fits : (len (print_json v) ≤ MAX_FRAME_BYTES)%N;
}.

Lemma decode_printed v : printable v → decode_frame (print_json v) = Ok v.
Proof.
  intros [Hwf Hread Hline Hutf Hvis Hfits]. unfold decode_frame.
  destruct (is_empty (print_json v)) eqn:He.
  { destruct (print_json v); [|done]. done. }
  rewrite (proj2 (N.ltb_ge _ _)) by done. rewrite Hutf, Hvis, Hread. simpl.
  assert (strict_value v = Ok v) as ->; [|done]. apply strict_value_Ok.
  split; [by apply value_wf_accepted|by rewrite canonical_id].
Qed.

(** The bytes a writer puts on the pipe. *)
Definition written (values : list Value) : string :=
  String.concat "" (List.map (λ v, print_json v +:+ String LF EmptyString) values).

End delivery.

