(* ===== verification/AgentProtocol.v ===== *)
(** * AgentProtocol: what the coding-agent adapters share
      (workbench-claude and workbench-codex: error.rs, helpers of protocol.rs and adapter.rs)

    The two crates have the same error kinds, the same readers of strings and
    identifiers, the same mapping of failures and the same output queue; their texts
    name the product. [AgentProtocol] is what their adapters differ in. *)

From S2P Require Import Prelude Text BTree Errors Value Json Ports.

(** [ClaudeErrorKind] and [CodexErrorKind]; the message of an error is fixed by the place
    that makes it and read by nobody. *)
Inductive AgentErrorKind : Type :=
| AG_InvalidConfiguration | AG_SpawnFailed | AG_AuthenticationRequired | AG_IncompatibleProtocol
| AG_CapabilityUnavailable | AG_FrameTooLarge | AG_InvalidFrame | AG_ProtocolViolation
| AG_TransportClosed | AG_Timeout | AG_ShuttingDown | AG_ReapFailed.

#[export] Instance AgentErrorKind_eq_dec : EqDecision AgentErrorKind.
Proof. solve_decision. Defined.

Definition MAX_IDENTIFIER_BYTES : N := 4096.
Definition MAX_TOOL_NAME_BYTES : N := 64.

Definition as_array (v : Value) : option (list Value) :=
  match v with VArray vs => Some vs | _ => None end.
Definition as_bool (v : Value) : option bool :=
  match v with VBool b => Some b | _ => None end.
Definition is_null (v : Value) : bool := match v with VNull => true | _ => false end.

Definition has_control (s : string) : bool := existsb is_control (chars s).

Definition required_string (value : option Value) : Result string AgentErrorKind :=
  ok_or (v ← value; as_str v) AG_ProtocolViolation.

Definition required_identifier (value : option Value) : Result string AgentErrorKind :=
  let? value := required_string value in
  if is_empty value || (MAX_IDENTIFIER_BYTES <? len value)%N || has_control value
  then Err AG_ProtocolViolation else Ok value.

Definition optional_identifier (value : option Value) : Result unit AgentErrorKind :=
  match value with
  | None | Some VNull => Ok tt
  | value => result_map (λ _, tt) (required_identifier value)
  end.

Definition required_object (value : option Value) : Result (BTreeMap Value) AgentErrorKind :=
  ok_or (v ← value; as_object v) AG_ProtocolViolation.

(** ** Failures *)

Definition definite_failure (category : FailureCategory) (message : string) : ProviderFailure :=
  {| pf_category := category; pf_user_safe_message := message; pf_definite := true |}.

Definition internal_failure (definite : bool) : ProviderFailure :=
  {| pf_category := FC_Internal; pf_user_safe_message := "provider adapter state is unavailable";
     pf_definite := definite |}.

(** [mapped_failure], with the name of the product in the texts. *)
Definition mapped_failure (product : string) (kind : AgentErrorKind) : FailureCategory * string :=
  match kind with
  | AG_InvalidConfiguration =>
      (FC_InvalidRequest, product +:+ " launch configuration is invalid")
  | AG_IncompatibleProtocol | AG_CapabilityUnavailable =>
      (FC_CapabilityUnavailable, product +:+ " provider is incompatible")
  | AG_Timeout => (FC_ProviderTimeout, product +:+ " provider operation timed out")
  | AG_ReapFailed => (FC_Internal, product +:+ " process could not be reaped")
  | _ => (FC_ProviderUnavailable, product +:+ " provider is unavailable")
  end.

Definition setup_failure (product : string) (kind : AgentErrorKind) : ProviderFailure :=
  let m := mapped_failure product kind in definite_failure m.1 m.2.

Definition uncertain_failure (product : string) : ProviderFailure :=
  {| pf_category := FC_OutcomeUnknown;
     pf_user_safe_message := product +:+ " outcome could not be confirmed"; pf_definite := false |}.

(** ** Normalized output *)

Definition Item : Type := Result ProviderOutput ProviderFailure.

Definition content_output (product event_type text : string) : Item :=
  map_err (λ _, uncertain_failure product)
    (result_map (PO_Content event_type) (NonEmptyText_parse text)).

(** [normalized_tool]: the first use of a tool, and the tools seen. *)
Definition normalized_tool (product name : string) (emitted : gset string)
    : gset string * option Item :=
  if decide (name ∈ emitted) then (emitted, None)
  else ({[name]} ∪ emitted,
        Some (map_err (λ _, uncertain_failure product)
                (result_map (PO_Tool "read_only_tool_started") (NonEmptyText_parse name)))).

Fixpoint normalized_tools (product : string) (names : list string) (emitted : gset string)
    : gset string * list Item :=
  match names with
  | [] => (emitted, [])
  | name :: names =>
      let '(emitted, item) := normalized_tool product name emitted in
      let '(emitted, items) := normalized_tools product names emitted in
      (emitted, option_list item ++ items)
  end.

Definition validate_runtime_model (product model : string) : Result unit ProviderFailure :=
  if is_empty model || (4096 <? len model)%N || starts_with "-" model || has_control model
  then Err (definite_failure FC_CapabilityUnavailable (product +:+ " runtime model is invalid"))
  else Ok tt.

(** ** What the adapters differ in *)

Class AgentProtocol : Type := {
  ap_product : string;
  ap_protocol : string;
  ap_inbound : Type;
  ap_normalization : Type;
  ap_initial : ap_normalization;
  (** [parse_inbound_with_policy] *)
  ap_parse : Value → bool → Result ap_inbound AgentErrorKind;
  ap_normalize : ap_inbound → ap_normalization → ap_normalization * list Item;
  (** what is checked of a prompt before the child is spawned; the argument is the
      identifier of the provider session *)
  ap_prepare : string → ProviderPrompt → Result unit AgentErrorKind;
  (** whether the prompt is written to the child once it runs *)
  ap_writes : bool;
  (** the body of [confirm_cancellation]: the identifier of the interrupt request, the
      outcome of writing it, and what arrives before the deadline *)
  ap_confirm : string → Result unit AgentErrorKind →
               list (Result (option ap_inbound) AgentErrorKind) → bool;
}.

(** [next] of the process: a frame, or the end of the stream. *)
Definition next `{AgentProtocol} (native_writes : bool) (frame : Result (option Value) AgentErrorKind)
    : Result (option ap_inbound) AgentErrorKind :=
  let? frame := frame in
  match frame with
  | None => Ok None
  | Some value => result_map Some (ap_parse value native_writes)
  end.
