(* ===== verification/AgentProcess.v ===== *)
(** * AgentProcess: the child process of a coding agent
      (process.rs of workbench-claude and workbench-codex)

    A child runs in a process group of its own. [ChildProcess] is what the operating
    system and tokio offer for it; [shutdown] escalates from closing the input over
    SIGTERM to SIGKILL and then does the same for what is left of the group. Durations
    are nanoseconds. *)

From S2P Require Import Prelude Text AgentProtocol.

Inductive Signal : Type := SIG_TERM | SIG_KILL.

#[export] Instance Signal_eq_dec : EqDecision Signal.
Proof. solve_decision. Defined.

Record ShutdownReport : Type := { sr_reaped : bool; sr_forced : bool }.

Definition DEFAULT_SHUTDOWN_GRACE : N := 100000000.
Definition AUTH_PROBE_TIMEOUT : N := 5000000000.
Definition POLL_INTERVAL : N := 5000000.

Class ChildProcess (C : Type) : Type := {
  (** [child.id()]: missing once the child was waited for *)
  cp_id : C → bool;
  (** the input of the child is dropped *)
  cp_close_stdin : C → C;
  (** [child.wait()] under a timeout *)
  cp_wait : N → C → C * bool;
  (** [kill_process_group], whose result is ignored *)
  cp_kill_group : Signal → C → C;
  (** [child.start_kill()] *)
  cp_start_kill : C → C;
  (** [test_kill_process_group]: a process of the group exists *)
  cp_group_alive : C → bool;
  (** an interval between two polls passes *)
  cp_sleep : C → C;
}.

(** What the shutdown relies on: a successful wait reaps the child for good, and every
    signal sent to the group is on record. *)
Class ChildProcessLaws (C : Type) `{ChildProcess C} : Type := {
  cp_reaped : C → Prop;
  cp_signals : C → list Signal;
  cp_wait_reaps : ∀ d c c', cp_wait d c = (c', true) → cp_reaped c';
  cp_wait_signals : ∀ d c, cp_signals (cp_wait d c).1 = cp_signals c;
  cp_close_signals : ∀ c, cp_signals (cp_close_stdin c) = cp_signals c;
  cp_kill_signals : ∀ s c, cp_signals (cp_kill_group s c) = cp_signals c ++ [s];
  cp_kill_reaped : ∀ s c, cp_reaped c → cp_reaped (cp_kill_group s c);
  cp_start_kill_signals : ∀ c, cp_signals (cp_start_kill c) = cp_signals c;
  cp_sleep_signals : ∀ c, cp_signals (cp_sleep c) = cp_signals c;
  cp_sleep_reaped : ∀ c, cp_reaped c → cp_reaped (cp_sleep c);
}.

Section process.
Context {C : Type} `{ChildProcess C}.

Definition wait_for_exit (timeout : N) (c : C) : C * bool := cp_wait timeout c.

Definition signal_process_group (process_group : bool) (signal : Signal) (c : C) : C :=
  if process_group then cp_kill_group signal c else c.

(** The polls of [wait_for_process_group_exit] *)
Fixpoint poll_group (polls : nat) (c : C) : C * bool :=
  if cp_group_alive c then
    match polls with
    | O => (c, false)
    | S polls => poll_group polls (cp_sleep c)
    end
  else (c, true).

Definition wait_for_process_group_exit (timeout : N) (c : C) : C * bool :=
  poll_group (N.to_nat (timeout / POLL_INTERVAL)) c.

(** The result is the child, whether its group is gone, and whether force was used. *)
Definition reap_remaining_process_group (process_group : bool) (grace : N) (forced : bool) (c : C)
    : C * bool * bool :=
  if negb process_group then (c, false, forced)
  else if negb (cp_group_alive c) then (c, true, forced)
  else
    let c := cp_kill_group SIG_TERM c in
    let '(c, gone) := wait_for_process_group_exit grace c in
    if gone then (c, true, forced)
    else
      let c := cp_kill_group SIG_KILL c in
      let '(c, gone) := wait_for_process_group_exit grace c in
      (c, gone, true).

(** The stage of [shutdown] that waits for the child itself. *)
Definition child_stage (process_group : bool) (grace : N) (c : C) : C * bool * bool :=
  let '(c, exited) := wait_for_exit grace c in
  if exited then (c, true, false)
  else
    let c := signal_process_group process_group SIG_TERM c in
    let '(c, exited) := wait_for_exit grace c in
    if exited then (c, true, false)
    else
      let c := signal_process_group process_group SIG_KILL c in
      let c := cp_start_kill c in
      let '(c, exited) := wait_for_exit grace c in
      (c, exited, true).

Definition shutdown (grace : N) (c : C) : C * ShutdownReport :=
  let process_group := cp_id c in
  let c := cp_close_stdin c in
  let '(c, child_reaped, forced) := child_stage process_group grace c in
  let '(c, group_reaped, forced) := reap_remaining_process_group process_group grace forced c in
  (c, {| sr_reaped := child_reaped && group_reaped; sr_forced := forced |}).

Definition reap_probe (process_group : bool) (c : C) : C * bool :=
  let c := signal_process_group process_group SIG_KILL c in
  let c := cp_start_kill c in
  let '(c, child_reaped) := wait_for_exit AUTH_PROBE_TIMEOUT c in
  if child_reaped then
    let '(c, gone, _) := reap_remaining_process_group process_group DEFAULT_SHUTDOWN_GRACE true c in
    (c, gone)
  else (c, false).

(** The error [error] of a child that must go: it is reported when the child is gone,
    and [ReapFailed] otherwise. *)
Definition shutdown_then {A} (grace : N) (c : C) (result : Result A AgentErrorKind)
    : C * Result A AgentErrorKind :=
  let '(c, report) := shutdown grace c in
  (c, if sr_reaped report then result else Err AG_ReapFailed).

(** What a probe's child says: the bytes read within the timeout, if the read did not
    fail, and whether the exit status was a success. *)
Record ProbeRun : Type := { pr_child : C; pr_read : option string; pr_success : bool }.

Definition MAX_AUTH_OUTPUT_BYTES : N := 4096.
Definition MAX_AUTH_READ_BYTES : nat := 4097.

(** The failing ends of a probe *)
Definition probe_failed (process_group : bool) (c : C) : C * Result string AgentErrorKind :=
  let '(c, reaped) := reap_probe process_group c in
  (c, Err (if reaped then AG_AuthenticationRequired else AG_ReapFailed)).

Definition run_bounded_probe (spawned : option ProbeRun) (timeout : N)
    : option C * Result string AgentErrorKind :=
  match spawned with
  | None => (None, Err AG_SpawnFailed)
  | Some run =>
      let c := pr_child run in
      let process_group := cp_id c in
      let '(c, result) :=
        match String.substring 0 MAX_AUTH_READ_BYTES <$> pr_read run with
        | Some bytes =>
            if (len bytes <=? MAX_AUTH_OUTPUT_BYTES)%N then
              let '(c, exited) := cp_wait timeout c in
              if exited && pr_success run then
                let '(c, gone, _) :=
                  reap_remaining_process_group process_group DEFAULT_SHUTDOWN_GRACE false c in
                (c, if gone then Ok bytes else Err AG_ReapFailed)
              else probe_failed process_group c
            else probe_failed process_group c
        | None => probe_failed process_group c
        end in
      (Some c, result)
  end.
End process.
Arguments ProbeRun : clear implicits.

(** ** Commands *)

Record Command : Type := {
  cmd_program : string;
  cmd_args : list string;
  cmd_env : list (string * string);
  cmd_env_removed : list string;
  cmd_current_dir : string;
}.

(** What [canonicalize] finds *)
Inductive FileKind : Type := FK_File | FK_Directory | FK_Other.

Section paths.
Context (canonicalize : string → option (string * FileKind)).

(** A canonical path is absolute. *)
Definition canonical_executable (path : string) : Result string AgentErrorKind :=
  let? canonical := ok_or (canonicalize path) AG_InvalidConfiguration in
  match canonical.2 with
  | FK_File => if starts_with "/" canonical.1 then Ok canonical.1 else Err AG_InvalidConfiguration
  | _ => Err AG_InvalidConfiguration
  end.

Definition canonical_workspace (path : string) : Result string AgentErrorKind :=
  let? canonical := ok_or (canonicalize path) AG_InvalidConfiguration in
  match canonical.2 with
  | FK_Directory =>
      if starts_with "/" canonical.1 then Ok canonical.1 else Err AG_InvalidConfiguration
  | _ => Err AG_InvalidConfiguration
  end.
End paths.

(** [initialization_timeout] of Claude Code is [preflight_timeout] of Codex. *)
Record LaunchProfile : Type := {
  lp_executable : string;
  lp_workspace : string;
  lp_timeout : N;
  lp_shutdown_grace : N;
  lp_native_writes : bool;
}.

Definition LaunchProfile_new (executable workspace : string) : LaunchProfile := {|
  lp_executable := executable; lp_workspace := workspace; lp_timeout := 5000000000;
  lp_shutdown_grace := DEFAULT_SHUTDOWN_GRACE; lp_native_writes := false |}.

(** The check of a model that both launches make. *)
Definition model_invalid (model : string) : bool :=
  is_empty model || (4096 <? len model)%N || starts_with "-" model || has_control model.

(** ** Lemmas *)

Section lemmas.
Context {C : Type} `{ChildProcessLaws C}.

(** What a stage sends: nothing, SIGTERM, or SIGTERM and then SIGKILL. *)
Definition escalation (sent : list Signal) : Prop :=
  sent = [] ∨ sent = [SIG_TERM] ∨ sent = [SIG_TERM; SIG_KILL].

Lemma poll_group_spec polls c c' gone :
  poll_group polls c = (c', gone) →
  cp_signals c' = cp_signals c ∧ (cp_reaped c → cp_reaped c') ∧
  (gone = true → cp_group_alive c' = false).
Proof.
  revert c. induction polls as [|polls IH]; intros c; simpl.
  - destruct (cp_group_alive c) eqn:Hc; intros [= <- <-]; done.
  - destruct (cp_group_alive c) eqn:Hc; [|by intros [= <- <-]].
    intros (Hs & Hr & Hg)%IH. rewrite cp_sleep_signals in Hs. eauto using cp_sleep_reaped.
Qed.

Lemma reap_remaining_spec pg grace forced c c' gone forced' :
  reap_remaining_process_group pg grace forced c = (c', gone, forced') →
  (cp_reaped c → cp_reaped c') ∧ (gone = true → cp_group_alive c' = false) ∧
  ∃ sent, cp_signals c' = cp_signals c ++ sent ∧ escalation sent ∧
          forced' = forced || bool_decide (SIG_KILL ∈ sent).
Proof.
  unfold reap_remaining_process_group, escalation.
  destruct pg; [|intros [= <- <- <-]; split_and!; [done|done|exists []; rewrite app_nil_r, orb_false_r; auto]].
  destruct (cp_group_alive c) eqn:Hc; simpl;
    [|intros [= <- <- <-]; split_and!; [done|done|exists []; rewrite app_nil_r, orb_false_r; auto]].
  destruct (wait_for_process_group_exit grace (cp_kill_group SIG_TERM c)) as [c1 g1] eqn:H1.
  apply poll_group_spec in H1 as (Hs1 & Hr1 & Hg1). rewrite cp_kill_signals in Hs1.
  destruct g1.
  - intros [= <- <- <-]. split_and!; [eauto using cp_kill_reaped|eauto|].
    exists [SIG_TERM]. rewrite bool_decide_false, orb_false_r by set_solver. auto.
  - destruct (wait_for_process_group_exit grace (cp_kill_group SIG_KILL c1)) as [c2 g2] eqn:H2.
    apply poll_group_spec in H2 as (Hs2 & Hr2 & Hg2). rewrite cp_kill_signals, Hs1 in Hs2.
    intros [= <- <- <-]. split_and!; [eauto using cp_kill_reaped|eauto|].
    exists [SIG_TERM; SIG_KILL]. rewrite bool_decide_true, orb_true_r by set_solver.
    rewrite Hs2, <- app_assoc. auto.
Qed.

Lemma wait_for_exit_spec grace c c' exited :
  wait_for_exit grace c = (c', exited) →
  (exited = true → cp_reaped c') ∧ cp_signals c' = cp_signals c.
Proof.
  intros Hw. split; [intros ->; by eapply cp_wait_reaps|].
  rewrite <- (cp_wait_signals grace c). unfold wait_for_exit in Hw. by rewrite Hw.
Qed.

Lemma child_stage_spec grace c c' exited forced :
  child_stage true grace c = (c', exited, forced) →
  (exited = true → cp_reaped c') ∧
  ∃ sent, cp_signals c' = cp_signals c ++ sent ∧ escalation sent ∧
          forced = bool_decide (SIG_KILL ∈ sent).
Proof.
  unfold child_stage, signal_process_group.
  destruct (wait_for_exit grace c) as [c1 e1] eqn:H1. apply wait_for_exit_spec in H1 as [Hr1 Hs1].
  destruct e1; [intros [= <- <- <-]; split; [done|exists []; rewrite app_nil_r; by unfold escalation; auto]|].
  destruct (wait_for_exit grace (cp_kill_group SIG_TERM c1)) as [c2 e2] eqn:H2.
  apply wait_for_exit_spec in H2 as [Hr2 Hs2]. rewrite cp_kill_signals, Hs1 in Hs2.
  destruct e2; [intros [= <- <- <-]; split; [done|exists [SIG_TERM]; by unfold escalation; auto]|].
  destruct (wait_for_exit grace (cp_start_kill (cp_kill_group SIG_KILL c2))) as [c3 e3] eqn:H3.
  apply wait_for_exit_spec in H3 as [Hr3 Hs3].
  rewrite cp_start_kill_signals, cp_kill_signals, Hs2, <- app_assoc in Hs3.
  intros [= <- <- <-]. split; [done|]. exists [SIG_TERM; SIG_KILL]. by unfold escalation; auto.
Qed.

Lemma shutdown_reaped grace c c' report :
  shutdown grace c = (c', report) → sr_reaped report = true →
  cp_reaped c' ∧ cp_group_alive c' = false.
Proof.
  unfold shutdown. destruct (cp_id c); simpl.
  - destruct (child_stage true grace (cp_close_stdin c)) as [[c1 e1] f1] eqn:H1.
    apply child_stage_spec in H1 as [Hr1 _].
    destruct (reap_remaining_process_group true grace _ c1) as [[c2 e2] f2] eqn:H2.
    apply reap_remaining_spec in H2 as (Hr2 & Hg2 & _).
    intros [= <- <-]; simpl. intros [-> ->]%andb_true_iff. auto.
  - destruct (child_stage false grace _) as [[c1 e1] f1]. intros [= <- <-]; simpl.
    by rewrite andb_false_r.
Qed.

(** Unless it says [ReapFailed], the child is gone. *)
Lemma shutdown_then_gone {A} grace c (result : Result A AgentErrorKind) c' r :
  shutdown_then grace c result = (c', r) → r ≠ Err AG_ReapFailed →
  r = result ∧ cp_reaped c' ∧ cp_group_alive c' = false.
Proof.
  unfold shutdown_then. destruct (shutdown grace c) as [c1 report] eqn:Hs.
  intros [= <- <-]. destruct (sr_reaped report) eqn:Hr; [|done]. intros _.
  split; [done|]. by eapply shutdown_reaped.
Qed.

Definition gone (c : C) : Prop := cp_reaped c ∧ cp_group_alive c = false.

Lemma probe_failed_gone pg c c' r :
  probe_failed pg c = (c', r) → r ≠ Err AG_ReapFailed → gone c'.
Proof.
  unfold probe_failed, reap_probe.
  destruct (wait_for_exit AUTH_PROBE_TIMEOUT _) as [c1 e1] eqn:H1. apply wait_for_exit_spec in H1 as [Hr1 _].
  destruct e1; [|by intros [= <- <-]].
  destruct (reap_remaining_process_group pg _ true c1) as [[c2 g2] f2] eqn:H2.
  apply reap_remaining_spec in H2 as (Hr2 & Hg2 & _). intros [= <- <-].
  destruct g2; [|done]. intros _. split; auto.
Qed.

(** A probe that does not say [ReapFailed] leaves nothing behind. *)
Lemma run_bounded_probe_gone spawned timeout c r :
  run_bounded_probe spawned timeout = (Some c, r) → r ≠ Err AG_ReapFailed → gone c.
Proof.
  unfold run_bounded_probe. destruct spawned as [run|]; [|done].
  destruct (match _ with Some _ => _ | None => _ end) as [c' r'] eqn:Hm. intros [= -> ->].
  destruct (pr_read run) as [bytes|]; simpl in Hm; [|by eapply probe_failed_gone].
  destruct (_ <=? _)%N; [|by eapply probe_failed_gone].
  destruct (cp_wait timeout (pr_child run)) as [c1 e1] eqn:H1. apply wait_for_exit_spec in H1 as [Hr1 _].
  destruct (e1 && pr_success run) eqn:He; [|by eapply probe_failed_gone].
  apply andb_true_iff in He as [-> _].
  destruct (reap_remaining_process_group _ _ false c1) as [[c2 g2] f2] eqn:H2.
  apply reap_remaining_spec in H2 as (Hr2 & Hg2 & _). simplify_eq/=.
  destruct g2; [|done]. intros _. split; auto.
Qed.

(** Shutting a child down tells the truth and escalates in order: a report that says
    the child was reaped means that it was waited for and that no process of its group
    is left; the signals sent are SIGTERM and then SIGKILL at most, once for the child
    and once for the rest of its group, and the report says forced exactly when SIGKILL
    was among them. *)
Theorem shutdown_reaps grace c c' report :
  cp_id c = true → shutdown grace c = (c', report) →
  (sr_reaped report = true → cp_reaped c' ∧ cp_group_alive c' = false) ∧
  ∃ for_child for_group,
    cp_signals c' = cp_signals c ++ for_child ++ for_group ∧
    escalation for_child ∧ escalation for_group ∧
    sr_forced report = bool_decide (SIG_KILL ∈ for_child ++ for_group).
Proof.
  intros Hid. unfold shutdown. rewrite Hid.
  destruct (child_stage true grace (cp_close_stdin c)) as [[c1 e1] f1] eqn:H1.
  apply child_stage_spec in H1 as (Hr1 & s1 & Hs1 & Hesc1 & ->). rewrite cp_close_signals in Hs1.
  destruct (reap_remaining_process_group true grace _ c1) as [[c2 e2] f2] eqn:H2.
  apply reap_remaining_spec in H2 as (Hr2 & Hg2 & s2 & Hs2 & Hesc2 & ->).
  intros [= <- <-]; simpl. split; [intros [-> ->]%andb_true_iff; auto|].
  exists s1, s2. split_and!; [by rewrite Hs2, Hs1, <- app_assoc|done|done|].
  apply eq_true_iff_eq. rewrite orb_true_iff, !bool_decide_eq_true, elem_of_app. done.
Qed.
End lemmas.

(** ** A child that ignores SIGTERM *)

Module Stubborn.
Record Child : Type := { waited : bool; killed : bool; orphans : nat; log : list Signal }.

#[global] Instance Child_process : ChildProcess Child := {
  cp_id c := negb (waited c);
  cp_close_stdin c := c;
  cp_wait _ c :=
    let gone := killed c || waited c in
    ({| waited := gone; killed := killed c; orphans := orphans c; log := log c |}, gone);
  cp_kill_group s c :=
    {| waited := waited c; killed := killed c || bool_decide (s = SIG_KILL); orphans := orphans c;
       log := log c ++ [s] |};
  cp_start_kill c := {| waited := waited c; killed := true; orphans := orphans c; log := log c |};
  cp_group_alive c := negb (waited c && (orphans c =? 0)%nat);
  cp_sleep c := {| waited := waited c; killed := killed c; orphans := Nat.pred (orphans c);
                   log := log c |};
}.

#[global] Instance Child_laws : ChildProcessLaws Child.
Proof.
  refine {| cp_reaped c := waited c = true; cp_signals := log |}; try done.
  intros d c c'. simpl. destruct (killed c || waited c) eqn:Hg; [|done]. by intros [= <-].
Defined.

Definition running : Child := {| waited := false; killed := false; orphans := 3; log := [] |}.
End Stubborn.

Lemma shutdown_reaps_witness :
  ∃ c' report, shutdown DEFAULT_SHUTDOWN_GRACE Stubborn.running = (c', report) ∧
    sr_reaped report = true ∧ sr_forced report = true ∧ cp_reaped c' ∧ cp_group_alive c' = false.
Proof.
  pose proof (shutdown_reaps DEFAULT_SHUTDOWN_GRACE Stubborn.running) as Hreaps.
  exists (shutdown DEFAULT_SHUTDOWN_GRACE Stubborn.running).1,
         (shutdown DEFAULT_SHUTDOWN_GRACE Stubborn.running).2.
  destruct (Hreaps _ _ eq_refl (surjective_pairing _)) as [Hr _].
  split_and!; [reflexivity|vm_compute; reflexivity|vm_compute; reflexivity|..];
    apply Hr; vm_compute; reflexivity.
Defined.
