(* ===== verification/ClaudeProtocol.v ===== *)
(** * ClaudeProtocol: the stream protocol of Claude Code, and its launch
      (workbench-claude/src/protocol.rs, process.rs and the normalization of adapter.rs)

    Frames are read with an allowlist of tools and everything unknown fails closed.
    What a child says before a deadline is a list of results; the end of the list is
    the deadline. *)

From S2P Require Import Prelude Text BTree Errors Value Json Ports AgentFrames AgentProtocol.
From S2P Require Import Wire AgentProcess.

Definition MAX_CONTENT_BLOCKS : N := 1024.
Definition READ_ONLY_TOOLS : list string := ["Read"; "Glob"; "Grep"].
Definition WRITE_TOOLS : list string := ["Read"; "Glob"; "Grep"; "Write"; "Edit"].

Inductive ClaudeInbound : Type :=
| CI_SystemInit (version : option string)
| CI_ControlResponse (request_id : string) (success : bool)
| CI_TextDelta (text : string)
| CI_Assistant (text tools : list string)
| CI_ToolStarted (name : string)
| CI_Result (is_error : bool) (subtype : string) (terminal_reason : option string)
| CI_Ignored.

(** ** Requests *)

Definition initialize_request (request_id : string) : Value :=
  VObject [("request", VObject [("agents", VObject []); ("hooks", VNull); ("skills", VArray []);
                                ("subtype", VString "initialize")]);
           ("request_id", VString request_id); ("type", VString "control_request")].

Definition interrupt_request (request_id : string) : Value :=
  VObject [("request", VObject [("subtype", VString "interrupt")]);
           ("request_id", VString request_id); ("type", VString "control_request")].

Definition user_message (session_id text : string) : Value :=
  VObject [("message", VObject [("content", VString text); ("role", VString "user")]);
           ("parent_tool_use_id", VNull); ("session_id", VString session_id); ("type", VString "user")].

(** ** Frames *)

Definition allowed_tools (native_writes : bool) : list string :=
  if native_writes then WRITE_TOOLS else READ_ONLY_TOOLS.

Definition validate_tool (name : string) (native_writes : bool) : Result string AgentErrorKind :=
  if is_empty name || (MAX_TOOL_NAME_BYTES <? len name)%N || has_control name
     || negb (set_contains name (allowed_tools native_writes))
  then Err AG_CapabilityUnavailable else Ok name.

(** The loop over the advertised tools. *)
Fixpoint advertised_tools (tools : list Value) (native_writes : bool) (advertised : gset string)
    : Result unit AgentErrorKind :=
  match tools with
  | [] => Ok tt
  | tool :: tools =>
      let? name := required_string (Some tool) in
      let? tool := validate_tool name native_writes in
      if decide (tool ∈ advertised) then Err AG_CapabilityUnavailable
      else advertised_tools tools native_writes ({[tool]} ∪ advertised)
  end.

Definition parse_system (object : BTreeMap Value) (native_writes : bool)
    : Result ClaudeInbound AgentErrorKind :=
  let? subtype := required_string (bt_get "subtype" object) in
  if negb (String.eqb subtype "init") then Ok CI_Ignored
  else
    let? _ := optional_identifier (bt_get "session_id" object) in
    let? version := match (match bt_get "claude_code_version" object with
                           | Some v => Some v
                           | None => bt_get "version" object
                           end) with
                    | Some v => result_map Some (required_string (Some v))
                    | None => Ok None
                    end in
    let? tools := ok_or (v ← bt_get "tools" object; as_array v) AG_CapabilityUnavailable in
    if negb (length tools =? length (allowed_tools native_writes))%nat then Err AG_CapabilityUnavailable
    else
      let? _ := advertised_tools tools native_writes ∅ in
      Ok (CI_SystemInit version).

Definition parse_control_response (object : BTreeMap Value) : Result ClaudeInbound AgentErrorKind :=
  let? response := required_object (bt_get "response" object) in
  let? request_id := required_identifier (bt_get "request_id" response) in
  let? subtype := required_string (bt_get "subtype" response) in
  if negb (set_contains subtype ["success"; "error"]) then Err AG_ProtocolViolation
  else Ok (CI_ControlResponse request_id (String.eqb subtype "success")).

Definition parse_stream_event (object : BTreeMap Value) (native_writes : bool)
    : Result ClaudeInbound AgentErrorKind :=
  let? _ := required_identifier (bt_get "session_id" object) in
  let? _ := required_identifier (bt_get "uuid" object) in
  let? event := required_object (bt_get "event" object) in
  let? kind := required_string (bt_get "type" event) in
  if String.eqb kind "content_block_delta" then
    let? delta := required_object (bt_get "delta" event) in
    let? kind := required_string (bt_get "type" delta) in
    if String.eqb kind "text_delta" then
      result_map CI_TextDelta (required_string (bt_get "text" delta))
    else if set_contains kind ["thinking_delta"; "signature_delta"; "input_json_delta"] then Ok CI_Ignored
    else Err AG_CapabilityUnavailable
  else if String.eqb kind "content_block_start" then
    let? block := required_object (bt_get "content_block" event) in
    let? kind := required_string (bt_get "type" block) in
    if String.eqb kind "tool_use" then
      let? name := required_string (bt_get "name" block) in
      result_map CI_ToolStarted (validate_tool name native_writes)
    else if set_contains kind ["text"; "thinking"; "redacted_thinking"] then Ok CI_Ignored
    else Err AG_CapabilityUnavailable
  else if set_contains kind ["message_start"; "message_delta"; "message_stop"; "content_block_stop"]
  then Ok CI_Ignored
  else Err AG_CapabilityUnavailable.

(** The loop over the blocks of an assistant message. *)
Fixpoint assistant_blocks (blocks : list Value) (native_writes : bool) (text tools : list string)
    : Result (list string * list string) AgentErrorKind :=
  match blocks with
  | [] => Ok (text, tools)
  | block :: blocks =>
      let? block := ok_or (as_object block) AG_ProtocolViolation in
      let? kind := required_string (bt_get "type" block) in
      if String.eqb kind "text" then
        let? value := required_string (bt_get "text" block) in
        assistant_blocks blocks native_writes (if is_empty value then text else text ++ [value]) tools
      else if String.eqb kind "tool_use" then
        let? name := required_string (bt_get "name" block) in
        let? tool := validate_tool name native_writes in
        assistant_blocks blocks native_writes text (tools ++ [tool])
      else if set_contains kind ["thinking"; "redacted_thinking"] then
        assistant_blocks blocks native_writes text tools
      else Err AG_CapabilityUnavailable
  end.

Definition parse_assistant (object : BTreeMap Value) (native_writes : bool)
    : Result ClaudeInbound AgentErrorKind :=
  let? _ := optional_identifier (bt_get "session_id" object) in
  let? message := required_object (bt_get "message" object) in
  let? role := required_string (bt_get "role" message) in
  if negb (String.eqb role "assistant") then Err AG_ProtocolViolation
  else
    let? blocks := ok_or (v ← bt_get "content" message; as_array v) AG_ProtocolViolation in
    if (MAX_CONTENT_BLOCKS <? N.of_nat (length blocks))%N then Err AG_ProtocolViolation
    else
      let? found := assistant_blocks blocks native_writes [] [] in
      Ok (CI_Assistant found.1 found.2).

(** A block of a user message is a tool result. *)
Definition user_block (block : Value) : Result unit AgentErrorKind :=
  let? block := ok_or (as_object block) AG_ProtocolViolation in
  let? kind := required_string (bt_get "type" block) in
  if negb (String.eqb kind "tool_result") then Err AG_CapabilityUnavailable
  else result_map (λ _, tt) (required_identifier (bt_get "tool_use_id" block)).

Definition parse_user (object : BTreeMap Value) : Result ClaudeInbound AgentErrorKind :=
  let? _ := optional_identifier (bt_get "session_id" object) in
  let? message := required_object (bt_get "message" object) in
  let? role := required_string (bt_get "role" message) in
  if negb (String.eqb role "user") then Err AG_ProtocolViolation
  else
    match bt_get "content" message with
    | Some (VString _) => Ok CI_Ignored
    | Some (VArray blocks) =>
        if (N.of_nat (length blocks) <=? MAX_CONTENT_BLOCKS)%N
        then let? _ := try_for_each user_block blocks in Ok CI_Ignored
        else Err AG_ProtocolViolation
    | _ => Err AG_ProtocolViolation
    end.

Definition parse_result (object : BTreeMap Value) : Result ClaudeInbound AgentErrorKind :=
  let? _ := optional_identifier (bt_get "session_id" object) in
  let? is_error := ok_or (v ← bt_get "is_error" object; as_bool v) AG_ProtocolViolation in
  let? subtype := required_identifier (bt_get "subtype" object) in
  let? terminal_reason := match bt_get "terminal_reason" object with
                          | None | Some VNull => Ok None
                          | value => result_map Some (required_identifier value)
                          end in
  Ok (CI_Result is_error subtype terminal_reason).

Definition parse_inbound_with_policy (value : Value) (native_writes : bool)
    : Result ClaudeInbound AgentErrorKind :=
  let? object := ok_or (as_object value) AG_ProtocolViolation in
  let? kind := required_string (bt_get "type" object) in
  if String.eqb kind "system" then parse_system object native_writes
  else if String.eqb kind "control_response" then parse_control_response object
  else if String.eqb kind "stream_event" then parse_stream_event object native_writes
  else if String.eqb kind "assistant" then parse_assistant object native_writes
  else if String.eqb kind "user" then parse_user object
  else if String.eqb kind "result" then parse_result object
  else if set_contains kind ["control_request"; "control_cancel_request"]
  then Err AG_CapabilityUnavailable
  else Err AG_ProtocolViolation.

(** ** Normalization *)

Definition PRODUCT : string := "Claude Code".

Record NormalizationState : Type := {
  ns_emitted_text_delta : bool;
  ns_emitted_tools : gset string;
}.

Definition aborted (reason : string) : bool :=
  set_contains reason ["aborted_streaming"; "aborted_tools"].

Definition normalize_result (is_error : bool) (subtype : string) (terminal_reason : option string)
    : Item :=
  if match terminal_reason with Some reason => aborted reason | None => false end
  then Err (uncertain_failure PRODUCT)
  else if negb is_error && String.eqb subtype "success"
          && bool_decide (terminal_reason = Some "completed")
  then Ok (PO_Completed "Claude Code completed the prompt")
  else if is_error
          && set_contains subtype ["error_during_execution"; "error_max_turns"; "error_max_budget_usd";
                                   "error_max_structured_output_retries"]
  then Err (definite_failure FC_ProviderUnavailable "Claude Code reported a provider failure")
  else Err (uncertain_failure PRODUCT).

Definition normalize (inbound : ClaudeInbound) (state : NormalizationState)
    : NormalizationState * list Item :=
  match inbound with
  | CI_TextDelta text =>
      if is_empty text then (state, [])
      else ({| ns_emitted_text_delta := true; ns_emitted_tools := ns_emitted_tools state |},
            [content_output PRODUCT "assistant_text_delta" text])
  | CI_ToolStarted name =>
      let '(emitted, item) := normalized_tool PRODUCT name (ns_emitted_tools state) in
      ({| ns_emitted_text_delta := ns_emitted_text_delta state; ns_emitted_tools := emitted |},
       option_list item)
  | CI_Assistant text tools =>
      let '(emitted, outputs) := normalized_tools PRODUCT tools (ns_emitted_tools state) in
      ({| ns_emitted_text_delta := ns_emitted_text_delta state; ns_emitted_tools := emitted |},
       outputs ++ if ns_emitted_text_delta state then []
                  else content_output PRODUCT "assistant_text"
                         <$> List.filter (λ value, negb (is_empty value)) text)
  | CI_Result is_error subtype terminal_reason =>
      (state, [normalize_result is_error subtype terminal_reason])
  | CI_SystemInit _ | CI_ControlResponse _ _ => (state, [Err (uncertain_failure PRODUCT)])
  | CI_Ignored => (state, [])
  end.

(** The loop of [confirm_cancellation] *)
Fixpoint confirm (request_id : string) (acknowledged : bool)
    (arriving : list (Result (option ClaudeInbound) AgentErrorKind)) : bool :=
  match arriving with
  | [] | Ok None :: _ | Err _ :: _ => false
  | Ok (Some inbound) :: arriving =>
      match inbound with
      | CI_ControlResponse response_id success =>
          if String.eqb response_id request_id then
            if success then confirm request_id true arriving else false
          else confirm request_id acknowledged arriving
      | CI_Result _ _ (Some reason) => acknowledged && aborted reason
      | CI_Result _ _ None => false
      | _ => confirm request_id acknowledged arriving
      end
  end.

(** ** Handshakes *)

(** The loop of [initialize] over the frames that arrive before the deadline. *)
Fixpoint initialize_loop (native_writes : bool) (expected_version request_id : string)
    (response_received init_received : bool) (frames : list (Result (option Value) AgentErrorKind))
    : Result unit AgentErrorKind :=
  if response_received && init_received then Ok tt
  else
    match frames with
    | [] => Err AG_Timeout
    | frame :: frames =>
        let? frame := frame in
        let? value := ok_or frame AG_TransportClosed in
        let? inbound := parse_inbound_with_policy value native_writes in
        match inbound with
        | CI_ControlResponse response_id success =>
            if String.eqb response_id request_id then
              if success
              then initialize_loop native_writes expected_version request_id true init_received frames
              else Err AG_IncompatibleProtocol
            else initialize_loop native_writes expected_version request_id response_received
                   init_received frames
        | CI_Ignored =>
            initialize_loop native_writes expected_version request_id response_received init_received
              frames
        | CI_SystemInit version =>
            if match version with
               | Some reported => negb (String.eqb reported expected_version)
               | None => false
               end
            then Err AG_IncompatibleProtocol
            else initialize_loop native_writes expected_version request_id response_received true frames
        | _ => Err AG_IncompatibleProtocol
        end
    end.

(** The loop of [verify_interrupt_receipt] *)
Fixpoint receipt_loop (native_writes : bool) (request_id : string)
    (frames : list (Result (option Value) AgentErrorKind)) : Result unit AgentErrorKind :=
  match frames with
  | [] => Err AG_Timeout
  | frame :: frames =>
      let? frame := frame in
      let? value := ok_or frame AG_TransportClosed in
      let? inbound := parse_inbound_with_policy value native_writes in
      match inbound with
      | CI_ControlResponse response_id success =>
          if String.eqb response_id request_id then
            if success then Ok tt else Err AG_IncompatibleProtocol
          else receipt_loop native_writes request_id frames
      | CI_SystemInit _ | CI_Ignored => receipt_loop native_writes request_id frames
      | _ => Err AG_IncompatibleProtocol
      end
  end.

(** ** The adapter's view *)

Section agent.
Context (print_json : Value → string).

Definition encode_message (value : Value) : Result string AgentErrorKind :=
  encode_frame AG_FrameTooLarge print_json value.

Definition ClaudeAgent : AgentProtocol := {|
  ap_product := PRODUCT;
  ap_protocol := "claude-code-stream-json/1";
  ap_inbound := ClaudeInbound;
  ap_normalization := NormalizationState;
  ap_initial := {| ns_emitted_text_delta := false; ns_emitted_tools := ∅ |};
  ap_parse := parse_inbound_with_policy;
  ap_normalize := normalize;
  ap_prepare session_id prompt :=
    result_map (λ _, tt) (encode_message (user_message session_id (pp_content prompt)));
  ap_writes := true;
  ap_confirm request_id written arriving :=
    match written with Ok _ => confirm request_id false arriving | Err _ => false end;
|}.
End agent.

(** ** Lemmas *)

Lemma required_string_Ok v s : required_string v = Ok s ↔ v = Some (VString s).
Proof.
  unfold required_string. split; [|by intros ->].
  destruct v as [[]|]; simpl; intros [=]; by subst.
Qed.

Lemma validate_tool_Ok name nw t :
  validate_tool name nw = Ok t → t = name ∧ name ∈ allowed_tools nw.
Proof.
  unfold validate_tool. destruct (_ || _) eqn:Hbad; [done|]. intros [= <-].
  apply orb_false_iff in Hbad as [_ Hin]. apply negb_false_iff, set_contains_true in Hin. done.
Qed.

(** The tools that passed the loop are distinct tools of the allowlist. *)
Lemma advertised_tools_Ok tools nw seen :
  advertised_tools tools nw seen = Ok tt →
  ∃ names, tools = VString <$> names ∧ NoDup names ∧
           ∀ n, n ∈ names → n ∈ allowed_tools nw ∧ n ∉ seen.
Proof.
  revert seen. induction tools as [|tool tools IH]; intros seen; simpl.
  - intros _. exists []. split_and!; [done|constructor|]. intros n Hn. by apply elem_of_nil in Hn.
  - destruct (required_string (Some tool)) as [name|] eqn:Hr; simpl; [|done].
    apply required_string_Ok in Hr as [= ->].
    destruct (validate_tool name nw) as [t|] eqn:Hv; simpl; [|done].
    apply validate_tool_Ok in Hv as [-> Hin]. case_decide as Hseen; [done|].
    intros (names & -> & Hnd & Hall)%IH. exists (name :: names). split_and!; [done| |].
    + constructor; [|done]. intros Hn%Hall. set_solver.
    + intros n [->|Hn]%elem_of_cons; [done|]. destruct (Hall n Hn) as [??]. set_solver.
Qed.

Lemma allowed_tools_NoDup nw : NoDup (allowed_tools nw).
Proof. destruct nw; apply (bool_decide_unpack _); vm_compute; exact I. Qed.

Lemma parse_inbound_SystemInit value nw version :
  parse_inbound_with_policy value nw = Ok (CI_SystemInit version) →
  ∃ object names, as_object value = Some object ∧
    bt_get "tools" object = Some (VArray (VString <$> names)) ∧ names ≡ₚ allowed_tools nw.
Proof.
  unfold parse_inbound_with_policy. destruct (as_object value) as [object|]; simpl; [|done].
  destruct (required_string (bt_get "type" object)) as [kind|]; simpl; [|done].
  destruct (String.eqb kind "system").
  2:{ unfold parse_control_response, parse_stream_event, parse_assistant, parse_user, parse_result,
        result_map.
      repeat first [progress simplify_eq/=|case_match]; done. }
  unfold parse_system. destruct (required_string _) as [subtype|]; simpl; [|done].
  destruct (negb (String.eqb subtype "init")); [done|].
  destruct (optional_identifier _) as [|]; simpl; [|done]. destruct (match _ with Some _ => _ | None => _ end)
    as [v|]; simpl; [|done].
  destruct (bt_get "tools" object) as [[| | | |tools|]|] eqn:Htools; simpl; try done.
  destruct (length tools =? length (allowed_tools nw))%nat eqn:Hlen; simpl; [|done].
  destruct (advertised_tools tools nw ∅) as [[]|] eqn:Hadv; simpl; [|done]. intros _.
  apply advertised_tools_Ok in Hadv as (names & -> & Hnd & Hall).
  exists object, names. split_and!; [done|done|]. apply Nat.eqb_eq in Hlen. rewrite length_fmap in Hlen.
  apply NoDup_Permutation_bis; [by apply NoDup_ListNoDup|lia|].
  intros n Hn%list_elem_of_In. apply list_elem_of_In. by apply Hall.
Qed.

(** ** Starting Claude Code (workbench-claude/src/process.rs)

    A child is launched with a fixed list of tools, completes a handshake under a
    deadline, and is shut down when it does not. What it says is a list of frames. *)

Definition MAX_VERSION_BYTES : N := 256.

Definition validate_profile (profile : LaunchProfile) (expected_version : string)
    (model : option string) (session_id : string) : Result unit AgentErrorKind :=
  if (lp_timeout profile =? 0)%N || (lp_shutdown_grace profile =? 0)%N
     || is_empty expected_version || (MAX_VERSION_BYTES <? len expected_version)%N
     || has_control expected_version
     || is_empty session_id || (64 <? len session_id)%N || has_control session_id
     || match model with Some model => model_invalid model | None => false end
  then Err AG_InvalidConfiguration else Ok tt.

Definition tools_argument (native_writes : bool) : string :=
  if native_writes then "Read,Glob,Grep,Write,Edit" else "Read,Glob,Grep".

(** The empty set of MCP servers, whose text has quotes in it. *)
Definition no_mcp_servers : string :=
  let quote := String (ascii_of_nat 34) EmptyString in
  "{" +:+ quote +:+ "mcpServers" +:+ quote +:+ ":{}}".

Definition launch_arguments (native_writes : bool) (model : option string) (session_id : string)
    : list string :=
  ["--print"; "--output-format"; "stream-json"; "--verbose"; "--input-format"; "stream-json";
   "--include-partial-messages";
   "--permission-mode"; (if native_writes then "default" else "dontAsk");
   "--tools"; tools_argument native_writes;
   "--allowedTools"; tools_argument native_writes;
   "--safe-mode"; "--disable-slash-commands"; "--no-chrome"; "--no-session-persistence";
   "--strict-mcp-config"; "--mcp-config"; no_mcp_servers; "--setting-sources="]
  ++ ["--session-id=" +:+ session_id]
  ++ match model with Some model => ["--model"; model] | None => [] end.

(** [sanitize_environment] *)
Definition removed_environment : list string :=
  ["ANTHROPIC_API_KEY"; "ANTHROPIC_AUTH_TOKEN"; "CLAUDE_CODE_OAUTH_TOKEN"; "ANTHROPIC_BASE_URL";
   "CLAUDE_CODE_USE_BEDROCK"; "CLAUDE_CODE_USE_VERTEX"; "CLAUDE_CODE_USE_FOUNDRY";
   "ANTHROPIC_BEDROCK_BASE_URL"; "ANTHROPIC_VERTEX_BASE_URL"; "ANTHROPIC_FOUNDRY_BASE_URL";
   "CLAUDECODE"; "CLAUDE_CODE_ENTRYPOINT"; "CLAUDE_AGENT_SDK_VERSION"].

(** ** Authentication *)

Record AuthStatus : Type := {
  as_logged_in : bool;
  as_auth_method : string;
  as_api_provider : string;
}.

Definition auth_status_fields : Fields (bool * (string * (string * unit))) :=
  required "loggedIn" bool_codec
    (required "authMethod" string_codec (required "apiProvider" string_codec no_fields)).

Definition auth_status_codec : Codec AuthStatus :=
  open_struct_codec auth_status_fields
    (λ s, (as_logged_in s, (as_auth_method s, (as_api_provider s, tt))))
    (λ t, {| as_logged_in := t.1; as_auth_method := t.2.1; as_api_provider := t.2.2.1 |}).

(** The derived reader refuses a field that occurs twice. *)
Definition fields_once (v : Value) : bool :=
  match v with
  | VObject es => all_distinct (List.filter (λ k, set_contains k (f_names auth_status_fields)) es.*1)
  | _ => true
  end.

Definition validate_subscription_auth (parse_json : string → option Value) (bytes : string)
    : Result unit AgentErrorKind :=
  let? doc := ok_or (parse_json bytes) AG_AuthenticationRequired in
  let? status := if fields_once doc
                 then map_err (λ _, AG_AuthenticationRequired) (dec auth_status_codec doc)
                 else Err AG_AuthenticationRequired in
  if as_logged_in status
     && set_contains (as_auth_method status) ["claude.ai"; "claudeai"]
     && String.eqb (as_api_provider status) "firstParty"
     && (len (as_auth_method status) <=? 64)%N && (len (as_api_provider status) <=? 64)%N
  then Ok tt else Err AG_AuthenticationRequired.

(** ** Launch *)

(** What the child says within a deadline *)
Definition Frames : Type := list (Result (option Value) AgentErrorKind).

Section launch.
Context {C : Type} `{ChildProcess C}.
Context (canonicalize : string → option (string * FileKind)).

Definition initialize (profile : LaunchProfile) (expected_version request_id : string)
    (written : Result unit AgentErrorKind) (frames : Frames) : Result unit AgentErrorKind :=
  let? _ := written in
  initialize_loop (lp_native_writes profile) expected_version request_id false false frames.

(** The child that was started, if any, as it is left, and the outcome. *)
Definition spawn_initialized (spawn : Command → option C) (profile : LaunchProfile)
    (expected_version : string) (model : option string) (session_id request_id : string)
    (written : Result unit AgentErrorKind) (frames : Frames)
    : option C * Result unit AgentErrorKind :=
  let command :=
    let? _ := validate_profile profile expected_version model session_id in
    let? executable := canonical_executable canonicalize (lp_executable profile) in
    let? workspace := canonical_workspace canonicalize (lp_workspace profile) in
    Ok {| cmd_program := executable;
          cmd_args := launch_arguments (lp_native_writes profile) model session_id;
          cmd_env := [("DISABLE_AUTOUPDATER", "1")];
          cmd_env_removed := removed_environment; cmd_current_dir := workspace |} in
  match command with
  | Err e => (None, Err e)
  | Ok command =>
      match spawn command with
      | None => (None, Err AG_SpawnFailed)
      | Some c =>
          match initialize profile expected_version request_id written frames with
          | Ok _ => (Some c, Ok tt)
          | Err e => let '(c, r) := shutdown_then (lp_shutdown_grace profile) c (Err e) in (Some c, r)
          end
      end
  end.

Definition verify_interrupt_receipt (profile : LaunchProfile) (request_id : string)
    (written : Result unit AgentErrorKind) (frames : Frames) : Result unit AgentErrorKind :=
  let? _ := written in receipt_loop (lp_native_writes profile) request_id frames.

Definition probe_subscription_auth (parse_json : string → option Value)
    (spawn_probe : Command → option (ProbeRun C)) (profile : LaunchProfile)
    : option C * Result unit AgentErrorKind :=
  let command :=
    let? executable := canonical_executable canonicalize (lp_executable profile) in
    let? workspace := canonical_workspace canonicalize (lp_workspace profile) in
    Ok {| cmd_program := executable; cmd_args := ["auth"; "status"; "--json"];
          cmd_env := [("DISABLE_AUTOUPDATER", "1")];
          cmd_env_removed := removed_environment; cmd_current_dir := workspace |} in
  match command with
  | Err e => (None, Err e)
  | Ok command =>
      let '(c, bytes) := run_bounded_probe (spawn_probe command) AUTH_PROBE_TIMEOUT in
      (c, let? bytes := bytes in validate_subscription_auth parse_json bytes)
  end.

(** The two handshakes of the preflight: the requests' identifiers, the outcomes of
    writing them and the answers. *)
Record Handshakes : Type := {
  hs_session_id : string;
  hs_initialize_id : string;
  hs_initialize_written : Result unit AgentErrorKind;
  hs_initialize_frames : Frames;
  hs_interrupt_id : string;
  hs_interrupt_written : Result unit AgentErrorKind;
  hs_interrupt_frames : Frames;
}.

(** The children of the preflight, as they are left, and the outcome. *)
Definition preflight_subscription (parse_json : string → option Value)
    (spawn_probe : Command → option (ProbeRun C)) (spawn : Command → option C)
    (profile : LaunchProfile) (expected_version : string) (hs : Handshakes)
    : list C * Result unit AgentErrorKind :=
  if (lp_timeout profile =? 0)%N || (lp_shutdown_grace profile =? 0)%N
  then ([], Err AG_InvalidConfiguration)
  else
    match probe_subscription_auth parse_json spawn_probe profile with
    | (probe, Err e) => (option_list probe, Err e)
    | (probe, Ok _) =>
        match spawn_initialized spawn profile expected_version None (hs_session_id hs)
                (hs_initialize_id hs) (hs_initialize_written hs) (hs_initialize_frames hs) with
        | (child, Err e) => (option_list probe ++ option_list child, Err e)
        | (None, Ok _) => (option_list probe, Ok tt)
        | (Some c, Ok _) =>
            let receipt := verify_interrupt_receipt profile (hs_interrupt_id hs)
                             (hs_interrupt_written hs) (hs_interrupt_frames hs) in
            let '(c, r) := shutdown_then (lp_shutdown_grace profile) c receipt in
            (option_list probe ++ [c], r)
        end
    end.
End launch.

(** ** What a launch guarantees *)

Lemma initialize_loop_Ok nw version request_id response init frames :
  initialize_loop nw version request_id response init frames = Ok tt →
  init = true ∨
  ∃ value reported, Ok (Some value) ∈ frames ∧
    parse_inbound_with_policy value nw = Ok (CI_SystemInit reported) ∧
    (reported = None ∨ reported = Some version).
Proof.
  revert response init. induction frames as [|frame frames IH]; intros response init; simpl.
  { destruct (response && init) eqn:Hd; [|done]. apply andb_true_iff in Hd as [_ ->]. by left. }
  destruct (response && init) eqn:Hd; [apply andb_true_iff in Hd as [_ ->]; by left|].
  assert (∀ r i, initialize_loop nw version request_id r i frames = Ok tt → i = init →
    init = true ∨ ∃ value reported, Ok (Some value) ∈ frame :: frames ∧
      parse_inbound_with_policy value nw = Ok (CI_SystemInit reported) ∧
      (reported = None ∨ reported = Some version)) as Hnext.
  { intros r i [->|(value & reported & Hin & Hrest)]%IH Heq; subst; [by left|].
    right. exists value, reported. split; [by right|done]. }
  destruct frame as [[value|]|]; simpl; try done.
  destruct (parse_inbound_with_policy value nw) as [inbound|] eqn:Hp; simpl; [|done].
  destruct inbound as [reported|response_id success| | | | |]; try done; eauto.
  - destruct reported as [reported|]; simpl.
    + destruct (String.eqb_spec reported version) as [->|]; simpl; [|done].
      intros _. right. exists value, (Some version). split; [by left|auto].
    + intros _. right. exists value, None. split; [by left|auto].
  - destruct (String.eqb response_id request_id); [destruct success; [|done]|]; eauto.
Qed.

Section laws.
Context {C : Type} `{ChildProcessLaws C}.
Context (canonicalize : string → option (string * FileKind)) (spawn : Command → option C).

Lemma spawn_initialized_gone profile version model session_id request_id written frames child e :
  spawn_initialized canonicalize spawn profile version model session_id request_id written frames
    = (child, Err e) → e ≠ AG_ReapFailed → Forall gone (option_list child).
Proof.
  unfold spawn_initialized. destruct (let? _ := _ in _) as [command|]; [|by intros [= <- _] _; constructor].
  destruct (spawn command) as [c|]; [|by intros [= <- _] _; constructor].
  destruct (initialize _ _ _ _ _) as [|e']; [done|].
  destruct (shutdown_then _ c _) as [c' r'] eqn:Hsh. intros [= <- ->] Hne.
  apply shutdown_then_gone in Hsh as (_ & Hgone); [by apply Forall_singleton|congruence].
Qed.

Lemma probe_auth_gone parse_json spawn_probe profile child r :
  probe_subscription_auth canonicalize parse_json spawn_probe profile = (child, r) →
  r ≠ Err AG_ReapFailed → Forall gone (option_list child).
Proof.
  unfold probe_subscription_auth. destruct (let? _ := _ in _) as [command|]; [|by intros [= <- _] _; constructor].
  destruct (run_bounded_probe _ _) as [c bytes] eqn:Hp. intros [= <- <-] Hne.
  destruct c as [c|]; [|by constructor]. apply Forall_singleton.
  eapply run_bounded_probe_gone; [done|]. by intros ->.
Qed.

(** What the advertisement of a child says of its tools *)
Definition advertises (value : Value) (tools : list string) : Prop :=
  ∃ object names, as_object value = Some object ∧
    bt_get "tools" object = Some (VArray (VString <$> names)) ∧ names ≡ₚ tools.


(** The preflight leaves nothing running: whatever it concludes, unless it says that a
    child could not be reaped, the child that was asked for the login and the child of
    the handshakes are gone, with all of their process groups. *)
Theorem claude_preflight_clean parse_json spawn_probe profile version hs children r :
  preflight_subscription canonicalize parse_json spawn_probe spawn profile version hs = (children, r) →
  r ≠ Err AG_ReapFailed → Forall gone children.
Proof.
  unfold preflight_subscription. destruct (_ || _); [by intros [= <- <-] _; constructor|].
  destruct (probe_subscription_auth _ _ _ _) as [probe [[]|e]] eqn:Hp.
  2:{ intros [= <- <-] Hne. eapply probe_auth_gone; [done|]. congruence. }
  apply probe_auth_gone in Hp; [|done].
  destruct (spawn_initialized _ _ _ _ _ _ _ _ _) as [[c|] [[]|e]] eqn:Hs.
  - destruct (shutdown_then _ c _) as [c' r'] eqn:Hsh. intros [= <- <-] Hne.
    apply shutdown_then_gone in Hsh as (_ & Hgone); [|done]. apply Forall_app. split; [done|by apply Forall_singleton].
  - intros [= <- <-] Hne. apply Forall_app; split; [done|].
    eapply (spawn_initialized_gone _ _ _ _ _ _ _ (Some c)); [done|]. congruence.
  - by intros [= <- <-] _.
  - intros [= <- <-] Hne. by rewrite app_nil_r.
Qed.
End laws.

(** ** A launch *)

Definition sample_canonicalize (path : string) : option (string * FileKind) :=
  Some (path, if String.eqb path "/work" then FK_Directory else FK_File).

Definition sample_profile : LaunchProfile := LaunchProfile_new "/usr/bin/claude" "/work".

Definition sample_init : Value :=
  VObject [("claude_code_version", VString "2.1.0"); ("subtype", VString "init");
           ("tools", VArray [VString "Grep"; VString "Read"; VString "Glob"]); ("type", VString "system")].

Definition sample_response : Value :=
  VObject [("response", VObject [("request_id", VString "initialize-1"); ("subtype", VString "success")]);
           ("type", VString "control_response")].

Definition sample_launch (frames : Frames) : option Stubborn.Child * Result unit AgentErrorKind :=
  spawn_initialized sample_canonicalize (λ _, Some Stubborn.running) sample_profile "2.1.0"
    (Some "opus") "session-1" "initialize-1" (Ok tt) frames.


Definition sample_hs : Handshakes := {|
  hs_session_id := "session-1"; hs_initialize_id := "initialize-1"; hs_initialize_written := Ok tt;
  hs_initialize_frames := [Ok (Some sample_response); Ok (Some sample_init)];
  hs_interrupt_id := "initialize-1"; hs_interrupt_written := Ok tt;
  hs_interrupt_frames := [Ok (Some sample_response)] |}.

Definition sample_login : Value :=
  VObject [("loggedIn", VBool true); ("authMethod", VString "claude.ai");
           ("apiProvider", VString "firstParty"); ("email", VString "user@example.org")].

(** A probe whose child exits by itself *)
Definition sample_probe (_ : Command) : option (ProbeRun Stubborn.Child) :=
  Some {| pr_child := {| Stubborn.waited := false; Stubborn.killed := true; Stubborn.orphans := 0;
                         Stubborn.log := [] |};
          pr_read := Some "login"; pr_success := true |}.

Definition sample_preflight : list Stubborn.Child * Result unit AgentErrorKind :=
  preflight_subscription sample_canonicalize (λ _, Some sample_login) sample_probe
    (λ _, Some Stubborn.running) sample_profile "2.1.0" sample_hs.

Lemma claude_preflight_clean_witness :
  sample_preflight.2 = Ok tt ∧ length sample_preflight.1 = 2%nat ∧ Forall gone sample_preflight.1.
Proof.
  split_and!; [vm_compute; reflexivity|vm_compute; reflexivity|].
  apply (claude_preflight_clean sample_canonicalize (λ _, Some Stubborn.running) (λ _, Some sample_login)
    sample_probe sample_profile "2.1.0" sample_hs _ sample_preflight.2 (surjective_pairing _)).
  vm_compute. discriminate.
Defined.
