(* ===== verification/CodexProtocol.v ===== *)
(** * CodexProtocol: the event stream of Codex, and its launch
      (workbench-codex/src/protocol.rs, process.rs and the normalization of adapter.rs)

    Unknown events are ignored, items that would prove elevated authority fail closed,
    and changes of files need native writes. *)

From S2P Require Import Prelude Text BTree Errors Value Json Ports AgentProtocol.
From S2P Require Import AgentFrames AgentProcess.

Definition MAX_TEXT_BYTES : N := 4194304.
Definition ALLOWED_TOOL_ITEM_TYPES : list string := ["command_execution"; "web_search"; "search"].
Definition WRITE_TOOL_ITEM_TYPES : list string := ["file_change"].
Definition FORBIDDEN_ITEM_TYPES : list string :=
  ["mcp_tool_call"; "mcp_tool_call_begin"; "mcp_tool_call_end"; "computer_use"].

Inductive CodexInbound : Type :=
| XI_ThreadStarted
| XI_TurnStarted
| XI_Text (text : string)
| XI_ToolStarted (name : string)
| XI_TurnCompleted
| XI_TurnFailed (cancelled : bool)
| XI_Error (cancelled : bool)
| XI_Ignored.

Definition cancelled_string (value : option Value) : bool :=
  match v ← value; as_str v with
  | Some text =>
      let lowered := to_ascii_lowercase text in contains "cancel" lowered || contains "abort" lowered
  | None => false
  end.

Definition cancelled_marker (value : option Value) : bool :=
  match value with
  | None => false
  | Some value =>
      match as_object value with
      | Some object =>
          cancelled_string (bt_get "type" object) || cancelled_string (bt_get "code" object)
          || cancelled_string (bt_get "message" object) || cancelled_string (bt_get "reason" object)
      | None => cancelled_string (Some value)
      end
  end.

Definition parse_item (kind : string) (object : BTreeMap Value) (native_writes : bool)
    : Result CodexInbound AgentErrorKind :=
  let? item := required_object (bt_get "item" object) in
  let? _ := optional_identifier (bt_get "id" item) in
  let? item_type := required_string (bt_get "type" item) in
  if is_empty item_type || (MAX_TOOL_NAME_BYTES <? len item_type)%N || has_control item_type
  then Err AG_ProtocolViolation
  else if set_contains item_type FORBIDDEN_ITEM_TYPES then Err AG_CapabilityUnavailable
  else if set_contains item_type WRITE_TOOL_ITEM_TYPES then
    if negb native_writes then Err AG_CapabilityUnavailable else Ok (XI_ToolStarted item_type)
  else if String.eqb item_type "agent_message" then
    if String.eqb kind "item.completed" then
      let? text := required_string (bt_get "text" item) in
      if is_empty text then Ok XI_Ignored
      else if (MAX_TEXT_BYTES <? len text)%N || any_byte (is_byte 0) text
      then Err AG_ProtocolViolation
      else Ok (XI_Text text)
    else Ok XI_Ignored
  else if set_contains item_type ["reasoning"; "plan_update"; "todo_list"] then Ok XI_Ignored
  else if set_contains item_type ALLOWED_TOOL_ITEM_TYPES then
    if String.eqb kind "item.started" then Ok (XI_ToolStarted item_type) else Ok XI_Ignored
  else Ok XI_Ignored.

Definition parse_inbound_with_policy (value : Value) (native_writes : bool)
    : Result CodexInbound AgentErrorKind :=
  let? object := ok_or (as_object value) AG_ProtocolViolation in
  let? kind := required_string (bt_get "type" object) in
  if String.eqb kind "thread.started" then
    let? _ := optional_identifier (bt_get "thread_id" object) in Ok XI_ThreadStarted
  else if String.eqb kind "turn.started" then Ok XI_TurnStarted
  else if String.eqb kind "turn.completed" then Ok XI_TurnCompleted
  else if String.eqb kind "turn.failed" then
    Ok (XI_TurnFailed (cancelled_marker (bt_get "error" object)
                       || cancelled_string (bt_get "reason" object)))
  else if set_contains kind ["item.started"; "item.completed"; "item.updated"]
  then parse_item kind object native_writes
  else if String.eqb kind "error" then
    Ok (XI_Error (cancelled_marker (Some value) || cancelled_string (bt_get "message" object)
                  || cancelled_string (bt_get "code" object)))
  else Ok XI_Ignored.

(** ** Normalization *)

Definition PRODUCT : string := "Codex".

Record NormalizationState : Type := {
  ns_emitted_text : gset string;
  ns_emitted_tools : gset string;
}.

Definition normalize (inbound : CodexInbound) (state : NormalizationState)
    : NormalizationState * list Item :=
  match inbound with
  | XI_Text text =>
      if is_empty text || bool_decide (text ∈ ns_emitted_text state) then (state, [])
      else ({| ns_emitted_text := {[text]} ∪ ns_emitted_text state;
               ns_emitted_tools := ns_emitted_tools state |},
            [content_output PRODUCT "assistant_text" text])
  | XI_ToolStarted name =>
      let '(emitted, item) := normalized_tool PRODUCT name (ns_emitted_tools state) in
      ({| ns_emitted_text := ns_emitted_text state; ns_emitted_tools := emitted |}, option_list item)
  | XI_TurnCompleted => (state, [Ok (PO_Completed "Codex completed the prompt")])
  | XI_TurnFailed true | XI_Error true => (state, [Err (uncertain_failure PRODUCT)])
  | XI_TurnFailed false | XI_Error false =>
      (state, [Err (definite_failure FC_ProviderUnavailable "Codex reported a provider failure")])
  | XI_ThreadStarted | XI_TurnStarted | XI_Ignored => (state, [])
  end.

(** The loop of [confirm_cancellation] *)
Fixpoint confirm (arriving : list (Result (option CodexInbound) AgentErrorKind)) : bool :=
  match arriving with
  | [] | Ok None :: _ | Err _ :: _ => false
  | Ok (Some inbound) :: arriving =>
      match inbound with
      | XI_TurnFailed true | XI_Error true => true
      | XI_TurnCompleted | XI_TurnFailed false | XI_Error false => false
      | _ => confirm arriving
      end
  end.

#[export] Instance CodexAgent : AgentProtocol := {
  ap_product := PRODUCT;
  ap_protocol := "codex-exec-jsonl/1";
  ap_inbound := CodexInbound;
  ap_normalization := NormalizationState;
  ap_initial := {| ns_emitted_text := ∅; ns_emitted_tools := ∅ |};
  ap_parse := parse_inbound_with_policy;
  ap_normalize := normalize;
  ap_prepare _ _ := Ok tt;
  ap_writes := false;
  ap_confirm _ _ := confirm;
}.

(** ** Starting Codex (workbench-codex/src/process.rs)

    A prompt is an argument of the command, so that a child is spawned per prompt
    without a handshake. The preflight asks for the version and for the login. *)

Definition MAX_PROMPT_BYTES : N := 262144.
Definition MAX_VERSION_BYTES : N := 256.

Definition validate_launch (profile : LaunchProfile) (model prompt : option string)
    : Result unit AgentErrorKind :=
  if (lp_timeout profile =? 0)%N || (lp_shutdown_grace profile =? 0)%N
     || match model with Some model => model_invalid model | None => false end
     || match prompt with
        | Some prompt =>
            is_empty prompt || (MAX_PROMPT_BYTES <? len prompt)%N || any_byte (is_byte 0) prompt
        | None => false
        end
  then Err AG_InvalidConfiguration else Ok tt.

Definition launch_arguments (native_writes : bool) (workspace model prompt : string) : list string :=
  ["exec"; "--json"; "--ephemeral"; "--sandbox";
   (if native_writes then "workspace-write" else "read-only");
   "-C"; workspace; "-m"; model; prompt].

(** [sanitize_environment] *)
Definition removed_environment : list string :=
  ["OPENAI_API_KEY"; "CODEX_API_KEY"; "OPENAI_BASE_URL"; "OPENAI_API_BASE"; "OPENAI_ORG_ID";
   "OPENAI_ORGANIZATION"; "OPENAI_PROJECT"; "CODEX_OSS_BASE_URL"; "OLLAMA_BASE_URL";
   "OPENAI_API_KEY_PATH"].

(** ** Texts *)

(** The number of bytes of a character *)
Definition char_len (n : N) : nat :=
  if (n <? 128)%N then 1 else if (n <? 2048)%N then 2 else if (n <? 65536)%N then 3 else 4.

(** The bytes of the leading white space of a list of characters *)
Fixpoint blank_bytes (cs : list N) : nat :=
  match cs with
  | [] => 0
  | c :: cs => if is_whitespace c then char_len c + blank_bytes cs else 0
  end.

(** [str::trim] *)
Definition trim (s : string) : string :=
  let leading := blank_bytes (chars s) in
  let trailing := blank_bytes (reverse (chars s)) in
  String.substring leading (String.length s - leading - trailing) s.

(** [lines().count()]: a last piece that is empty is not a line. *)
Definition line_count (s : string) : nat :=
  let pieces := split_byte 10 s in
  if match last pieces with Some piece => is_empty piece | None => true end
  then Nat.pred (length pieces) else length pieces.

Definition strip_prefix (prefix s : string) : option string :=
  if starts_with prefix s
  then Some (String.substring (String.length prefix) (String.length s - String.length prefix) s)
  else None.

(** [(major, minor, patch) < (0, 145, 0)] *)
Definition too_old (major minor patch : N) : bool := (major =? 0)%N && (minor <? 145)%N.

Definition normalize_version (bytes : string) : Result string AgentErrorKind :=
  if negb (utf8_valid bytes) then Err AG_IncompatibleProtocol
  else
    let output := trim bytes in
    if negb (line_count output =? 1)%nat then Err AG_IncompatibleProtocol
    else
      let version := trim (match strip_prefix "codex-cli " output with
                           | Some rest => rest
                           | None => default output (strip_prefix "codex " output)
                           end) in
      match split_byte 46 version with
      | [major; minor; patch] =>
          match parse_uint u64_max major, parse_uint u64_max minor, parse_uint u64_max patch with
          | Some major, Some minor, Some patch =>
              if is_empty version || (MAX_VERSION_BYTES <? len version)%N || has_control version
              then Err AG_IncompatibleProtocol
              else if too_old major minor patch then Err AG_IncompatibleProtocol
              else Ok version
          | _, _, _ => Err AG_IncompatibleProtocol
          end
      | _ => Err AG_IncompatibleProtocol
      end.

Definition validate_subscription_auth (bytes : string) : Result unit AgentErrorKind :=
  if negb (utf8_valid bytes) then Err AG_AuthenticationRequired
  else
    let output := trim bytes in
    if (8 <? line_count output)%nat || (MAX_AUTH_OUTPUT_BYTES <? len output)%N
    then Err AG_AuthenticationRequired
    else
      let normalized := to_ascii_lowercase output in
      if contains "logged in using chatgpt" normalized && negb (contains "api key" normalized)
         && negb (contains "api-key" normalized)
      then Ok tt else Err AG_AuthenticationRequired.

(** ** Launch *)

Section launch.
Context {C : Type} `{ChildProcess C}.
Context (canonicalize : string → option (string * FileKind)).

Definition command_of (profile : LaunchProfile) (args : string → list string)
    : Result Command AgentErrorKind :=
  let? executable := canonical_executable canonicalize (lp_executable profile) in
  let? workspace := canonical_workspace canonicalize (lp_workspace profile) in
  Ok {| cmd_program := executable; cmd_args := args workspace; cmd_env := [];
        cmd_env_removed := removed_environment; cmd_current_dir := workspace |}.

Definition spawn_prompt (spawn : Command → option C) (profile : LaunchProfile) (model prompt : string)
    : Result C AgentErrorKind :=
  let? _ := validate_launch profile (Some model) (Some prompt) in
  let? command := command_of profile (λ workspace,
    launch_arguments (lp_native_writes profile) workspace model prompt) in
  ok_or (spawn command) AG_SpawnFailed.

Definition probe (spawn_probe : Command → option (ProbeRun C)) (profile : LaunchProfile)
    (args : list string) (timeout : N) : option C * Result string AgentErrorKind :=
  match command_of profile (λ _, args) with
  | Err e => (None, Err e)
  | Ok command => run_bounded_probe (spawn_probe command) timeout
  end.

Definition probe_version (spawn_probe : Command → option (ProbeRun C)) (profile : LaunchProfile)
    : option C * Result string AgentErrorKind :=
  let '(c, bytes) := probe spawn_probe profile ["--version"] (lp_timeout profile) in
  (c, let? bytes := bytes in normalize_version bytes).

Definition probe_subscription_auth (spawn_probe : Command → option (ProbeRun C))
    (profile : LaunchProfile) : option C * Result unit AgentErrorKind :=
  let '(c, bytes) := probe spawn_probe profile ["login"; "status"] AUTH_PROBE_TIMEOUT in
  (c, let? bytes := bytes in validate_subscription_auth bytes).

(** The children of the preflight, as they are left, and the outcome. *)
Definition preflight_subscription (spawn_probe : Command → option (ProbeRun C))
    (profile : LaunchProfile) (expected_version : string)
    : list C * Result unit AgentErrorKind :=
  if (lp_timeout profile =? 0)%N || (lp_shutdown_grace profile =? 0)%N
  then ([], Err AG_InvalidConfiguration)
  else
    match probe_version spawn_probe profile with
    | (c, Err e) => (option_list c, Err e)
    | (c, Ok reported) =>
        if negb (String.eqb reported expected_version) then (option_list c, Err AG_IncompatibleProtocol)
        else
          let '(c', r) := probe_subscription_auth spawn_probe profile in
          (option_list c ++ option_list c', r)
    end.
End launch.

(** ** On inputs of the tests *)

Definition LF : string := String (ascii_of_nat 10) EmptyString.

Example normalizes_codex_cli_version :
  normalize_version ("codex-cli 0.145.0" +:+ LF) = Ok "0.145.0" ∧
  normalize_version ("0.145.1" +:+ LF) = Ok "0.145.1" ∧
  normalize_version ("codex-cli 0.144.9" +:+ LF) = Err AG_IncompatibleProtocol.
Proof. vm_compute. auto. Qed.

Example accepts_only_chatgpt_login_status :
  validate_subscription_auth ("Logged in using ChatGPT" +:+ LF) = Ok tt ∧
  validate_subscription_auth ("Logged in using an API key" +:+ LF) = Err AG_AuthenticationRequired ∧
  validate_subscription_auth ("Not logged in" +:+ LF) = Err AG_AuthenticationRequired.
Proof. vm_compute. auto. Qed.

(** A prompt may look like an option of the command. *)
Example prompt_may_be_an_option :
  validate_launch (LaunchProfile_new "/usr/bin/codex" "/work") (Some "gpt-5")
    (Some "--dangerously-bypass-approvals-and-sandbox") = Ok tt.
Proof. vm_compute. reflexivity. Qed.

(** ** What the preflight leaves *)

Section laws.
Context {C : Type} `{ChildProcessLaws C}.
Context (canonicalize : string → option (string * FileKind)).

Lemma probe_gone spawn_probe profile args timeout child r :
  probe canonicalize spawn_probe profile args timeout = (child, r) →
  r ≠ Err AG_ReapFailed → Forall gone (option_list child).
Proof.
  unfold probe. destruct (command_of _ _ _) as [command|]; [|by intros [= <- _] _; constructor].
  destruct child as [c|]; [|by constructor]. intros Hp Hne. apply Forall_singleton.
  by eapply run_bounded_probe_gone.
Qed.

(** A preflight that does not say [ReapFailed] leaves no child behind. *)
Lemma codex_preflight_clean spawn_probe profile version children r :
  preflight_subscription canonicalize spawn_probe profile version = (children, r) →
  r ≠ Err AG_ReapFailed → Forall gone children.
Proof.
  unfold preflight_subscription, probe_version, probe_subscription_auth.
  destruct (_ || _); [by intros [= <- <-] _; constructor|].
  destruct (probe _ _ _ ["--version"] _) as [c bytes] eqn:H1.
  destruct bytes as [bytes|e]; simpl; [|intros [= <- <-] Hne; eapply probe_gone; [done|congruence]].
  apply probe_gone in H1; [|done].
  destruct (normalize_version bytes) as [reported|]; [|by intros [= <- _]].
  destruct (negb _); [by intros [= <- _]|].
  destruct (probe _ _ _ ["login"; "status"] _) as [c' bytes'] eqn:H2. intros [= <- <-] Hne.
  apply Forall_app; split; [done|]. eapply probe_gone; [done|]. by intros ->.
Qed.
End laws.
