(* ===== verification/AgentAdapter.v ===== *)
(** * AgentAdapter: one child per attempt
      (adapter.rs of workbench-claude and workbench-codex)

    The two adapters are the same program over [AgentProtocol]. Sessions are shared
    objects, so that a handle names a place of a heap; a call that waits is an entry of
    the adapter's state, and an operation runs one call or task from one wait to the
    next. The guard of an attempt is dropped where its owner ends. What the child says,
    how long it takes to shut down and when a deadline passes are arguments of the
    operations, so that a run is a list of operations. Spawning Codex does not wait; its
    runs are those in which [Op_Spawned] follows [Op_Acquire] at once. A poisoned lock
    is not modelled. *)

From S2P Require Import Prelude Text BTree Errors Value Json Ports AgentProtocol AgentProcess.

Definition PROVIDER_STREAM_QUEUE_DEPTH : nat := 256.
Definition PROVIDER_STREAM_QUEUE_BYTES : N := 16777216.
Definition PROCESS_COMMAND_QUEUE_DEPTH : nat := 2.
Definition MAX_ADAPTER_VERSION_BYTES : N := 256.
Definition MAX_CANCELLATION_REAP_RESERVE : N := 450000000.

Definition cancellation_confirmation_budget (deadline : N) : N :=
  deadline - N.min (deadline / 3) MAX_CANCELLATION_REAP_RESERVE.

(** ** Sessions *)

Record ActiveAttempt : Type := {
  aa_attempt_id : Uuid;
  aa_task : nat;
  aa_cancellation_sent : bool;
}.

(** [ls_setup] is the call that holds the set-up lock. *)
Record LocalSession : Type := {
  ls_setup : option nat;
  ls_active : option ActiveAttempt;
  ls_pending_cancellations : gset Uuid;
}.

Definition LocalSession_default : LocalSession :=
  {| ls_setup := None; ls_active := None; ls_pending_cancellations := ∅ |}.

Definition set_setup (holder : option nat) (s : LocalSession) : LocalSession :=
  {| ls_setup := holder; ls_active := ls_active s;
     ls_pending_cancellations := ls_pending_cancellations s |}.

Definition set_active (active : option ActiveAttempt) (s : LocalSession) : LocalSession :=
  {| ls_setup := ls_setup s; ls_active := active;
     ls_pending_cancellations := ls_pending_cancellations s |}.

Definition set_pending (pending : gset Uuid) (s : LocalSession) : LocalSession :=
  {| ls_setup := ls_setup s; ls_active := ls_active s; ls_pending_cancellations := pending |}.

Definition clear_active_attempt (attempt_id : Uuid) (s : LocalSession) : LocalSession :=
  match ls_active s with
  | Some active => if decide (aa_attempt_id active = attempt_id) then set_active None s else s
  | None => s
  end.

(** [take_pending_cancellation] *)
Definition take_pending_cancellation (attempt_id : Uuid) (s : LocalSession) : LocalSession * bool :=
  (set_pending (ls_pending_cancellations s ∖ {[attempt_id]}) s,
   bool_decide (attempt_id ∈ ls_pending_cancellations s)).

(** ** Calls and tasks *)

(** Where a call of [prompt_stream] waits; from [PP_Spawning] on it holds the set-up
    lock and the guard. *)
Inductive PromptPhase : Type :=
| PP_Waiting
| PP_Spawning
| PP_Writing
| PP_Reaping (failure : ProviderFailure).

Record PromptCall : Type := {
  pc_handle : string;
  pc_session : nat;
  pc_prompt : ProviderPrompt;
  pc_phase : PromptPhase;
}.

Inductive ProcessCommand : Type :=
| PC_Cancel (attempt_id : Uuid) (confirm_by : N) (call : nat)
| PC_Shutdown (call : nat).

(** What [run_attempt] does once its child is shut down *)
Inductive Ending : Type :=
| EN_Cancel (call : nat) (status : CancellationStatus)
| EN_Shutdown (call : nat)
| EN_Terminal (item : Item)
| EN_Silent.

Inductive AttemptState : Type :=
| AS_Spawned
| AS_Running
| AS_Cancelling (call : nat) (confirm_by : N)
| AS_Reaping (ending : Ending)
| AS_Done.

(** A task of [run_attempt] with its two channels: [at_output] holds the items that were
    not received yet, and [at_open] says that the stream was not dropped. *)
Record AttemptTask {N : Type} : Type := {
  at_handle : string;
  at_session : nat;
  at_attempt_id : Uuid;
  at_normalization : N;
  at_commands : list ProcessCommand;
  at_output : list Item;
  at_open : bool;
  at_state : AttemptState;
}.
Arguments AttemptTask : clear implicits.

(** A call of [cancel] that waits to send its command or for the answer *)
Record CancelCall : Type := {
  cc_task : nat;
  cc_attempt_id : Uuid;
  cc_confirm_by : N;
  cc_sent : bool;
}.

(** The call of [shutdown]: the sessions to inspect, the attempts to tell, those told,
    and the reports. *)
Record ShutdownCall : Type := {
  sd_inspect : list nat;
  sd_send : list nat;
  sd_wait : list nat;
  sd_reports : list (option ShutdownReport);
}.

(** ** Output *)

Definition normalized_output_bytes (item : Item) : N :=
  match item with
  | Ok (PO_Acknowledged provider_request_id) =>
      match provider_request_id with Some id => len id | None => 0 end
  | Ok (PO_Content event_type content) | Ok (PO_Tool event_type content) =>
      N.min usize_max (len event_type + len content)
  | Ok (PO_Completed summary) => len summary
  | Err failure => len (pf_user_safe_message failure)
  end.

Definition permits (item : Item) : N := N.max (normalized_output_bytes item) 1.

(** The permits the queued items hold *)
Definition held_permits (queue : list Item) : N := foldr (λ item n, permits item + n)%N 0%N queue.

Definition u32_max : N := 4294967295.

(** [queue_output]: the new queue, or no room. *)
Definition queue_output (open : bool) (queue : list Item) (item : Item) : option (list Item) :=
  if (permits item <=? u32_max)%N
     && (held_permits queue + permits item <=? PROVIDER_STREAM_QUEUE_BYTES)%N
     && open && (length queue <? PROVIDER_STREAM_QUEUE_DEPTH)%nat
  then Some (queue ++ [item]) else None.

Definition terminal (item : Item) : bool :=
  match item with Ok (PO_Completed _) | Err _ => true | _ => false end.

(** ** Failures *)

Section failures.
Context (product : string).

Definition shutting_down_failure : ProviderFailure :=
  definite_failure FC_ProviderUnavailable (product +:+ " provider is shutting down").

Definition handle_failure : ProviderFailure :=
  definite_failure FC_ProviderUnavailable "provider session handle is unavailable".

Definition busy_failure : ProviderFailure :=
  definite_failure FC_ProviderUnavailable "provider session already has an active prompt".

Definition resume_failure : ProviderFailure :=
  definite_failure FC_CapabilityUnavailable (product +:+ " provider session resume is unavailable").
End failures.

(** ** The adapter *)

Section adapter.
Context `{AP : AgentProtocol}.

Abbreviation Task := (AttemptTask ap_normalization).

Record Adapter : Type := {
  ad_adapter_version : string;
  ad_native_writes : bool;
  ad_cancellation_deadline : N;
  ad_shutting_down : bool;
  ad_sessions : gmap string nat;
  ad_heap : gmap nat LocalSession;
  ad_prompts : gmap nat PromptCall;
  ad_attempts : gmap nat Task;
  ad_cancels : gmap nat CancelCall;
  ad_shutdowns : gmap nat ShutdownCall;
  ad_next : nat;
}.

(** [connect], given the outcome of the preflight *)
Definition connect (expected_adapter_version : string) (native_writes : bool)
    (cancellation_deadline : N) (preflight : Result unit AgentErrorKind)
    : Result Adapter NewError :=
  if (cancellation_deadline =? 0)%N || is_empty expected_adapter_version
     || (MAX_ADAPTER_VERSION_BYTES <? len expected_adapter_version)%N
  then Err (new_error FC_InvalidRequest (ap_product +:+ " adapter configuration is invalid"))
  else
    let? _ := map_err (λ kind, let m := mapped_failure ap_product kind in new_error m.1 m.2) preflight in
    Ok {| ad_adapter_version := expected_adapter_version; ad_native_writes := native_writes;
          ad_cancellation_deadline := cancellation_deadline; ad_shutting_down := false;
          ad_sessions := ∅; ad_heap := ∅; ad_prompts := ∅; ad_attempts := ∅; ad_cancels := ∅;
          ad_shutdowns := ∅; ad_next := 0 |}.

Definition update (a : Adapter) (shutting_down : bool) (sessions : gmap string nat)
    (heap : gmap nat LocalSession) (prompts : gmap nat PromptCall) (attempts : gmap nat Task)
    (cancels : gmap nat CancelCall) (shutdowns : gmap nat ShutdownCall) (next : nat) : Adapter :=
  {| ad_adapter_version := ad_adapter_version a; ad_native_writes := ad_native_writes a;
     ad_cancellation_deadline := ad_cancellation_deadline a; ad_shutting_down := shutting_down;
     ad_sessions := sessions; ad_heap := heap; ad_prompts := prompts; ad_attempts := attempts;
     ad_cancels := cancels; ad_shutdowns := shutdowns; ad_next := next |}.

Definition with_sessions (sessions : gmap string nat) (a : Adapter) : Adapter :=
  update a (ad_shutting_down a) sessions (ad_heap a) (ad_prompts a) (ad_attempts a) (ad_cancels a)
    (ad_shutdowns a) (ad_next a).
Definition with_heap (heap : gmap nat LocalSession) (a : Adapter) : Adapter :=
  update a (ad_shutting_down a) (ad_sessions a) heap (ad_prompts a) (ad_attempts a) (ad_cancels a)
    (ad_shutdowns a) (ad_next a).
Definition with_prompts (prompts : gmap nat PromptCall) (a : Adapter) : Adapter :=
  update a (ad_shutting_down a) (ad_sessions a) (ad_heap a) prompts (ad_attempts a) (ad_cancels a)
    (ad_shutdowns a) (ad_next a).
Definition with_attempts (attempts : gmap nat Task) (a : Adapter) : Adapter :=
  update a (ad_shutting_down a) (ad_sessions a) (ad_heap a) (ad_prompts a) attempts (ad_cancels a)
    (ad_shutdowns a) (ad_next a).
Definition with_cancels (cancels : gmap nat CancelCall) (a : Adapter) : Adapter :=
  update a (ad_shutting_down a) (ad_sessions a) (ad_heap a) (ad_prompts a) (ad_attempts a) cancels
    (ad_shutdowns a) (ad_next a).
Definition with_shutdowns (shutdowns : gmap nat ShutdownCall) (a : Adapter) : Adapter :=
  update a (ad_shutting_down a) (ad_sessions a) (ad_heap a) (ad_prompts a) (ad_attempts a)
    (ad_cancels a) shutdowns (ad_next a).
Definition with_next (next : nat) (a : Adapter) : Adapter :=
  update a (ad_shutting_down a) (ad_sessions a) (ad_heap a) (ad_prompts a) (ad_attempts a)
    (ad_cancels a) (ad_shutdowns a) next.
Definition shut (a : Adapter) : Adapter :=
  update a true (ad_sessions a) (ad_heap a) (ad_prompts a) (ad_attempts a) (ad_cancels a)
    (ad_shutdowns a) (ad_next a).

Definition on_session (s : nat) (f : LocalSession → LocalSession) (a : Adapter) : Adapter :=
  with_heap (alter f s (ad_heap a)) a.

(** The drop of an [ActiveAttemptGuard] *)
Definition drop_guard (handle : string) (s : nat) (attempt_id : Uuid) (a : Adapter) : Adapter :=
  let a := on_session s (clear_active_attempt attempt_id) a in
  let a := on_session s (λ l, (take_pending_cancellation attempt_id l).1) a in
  if decide (ad_sessions a !! handle = Some s) then with_sessions (delete handle (ad_sessions a)) a
  else a.

Definition require_dispatchable (a : Adapter) : Result unit ProviderFailure :=
  if ad_shutting_down a then Err (shutting_down_failure ap_product) else Ok tt.

Definition session (a : Adapter) (handle : string) : Result nat ProviderFailure :=
  ok_or (ad_sessions a !! handle) handle_failure.

(** [capabilities]: the version, the protocol and whether the provider is available *)
Definition capabilities (a : Adapter) : string * string * bool :=
  (ad_adapter_version a, ap_protocol, negb (ad_shutting_down a)).

(** What callers and readers of streams observe; a prompt that fails at once has no
    identifier. *)
Inductive Observation : Type :=
| Ob_Session (result : Result string ProviderFailure)
| Ob_PromptFailed (call : option nat) (failure : ProviderFailure)
| Ob_Streaming (call task : nat)
| Ob_Received (task : nat) (item : option Item)
| Ob_Cancelled (attempt_id : Uuid) (result : Result CancellationStatus NewError)
| Ob_ShutDown (call : nat) (report : ShutdownReport).

(** [start_session] with the handle that was generated *)
Definition start_session (a : Adapter) (handle : string) : Adapter * list Observation :=
  match require_dispatchable a with
  | Err failure => (a, [Ob_Session (Err failure)])
  | Ok _ =>
      let s := ad_next a in
      let a := with_next (S s) a in
      let a := with_heap (<[s := LocalSession_default]> (ad_heap a)) a in
      let a := with_sessions (<[handle := s]> (ad_sessions a)) a in
      (a, [Ob_Session (map_err (λ error, definite_failure (ne_category error) (ne_message error))
                         (ProviderSessionHandle_new handle))])
  end.

(** ** Prompts *)

(** A call that ends with a failure while it holds the guard and the lock *)
Definition fail_prompt (a : Adapter) (p : nat) (call : PromptCall) (failure : ProviderFailure)
    : Adapter * list Observation :=
  let a := drop_guard (pc_handle call) (pc_session call) (pp_attempt_id (pc_prompt call)) a in
  let a := on_session (pc_session call) (set_setup None) a in
  (with_prompts (delete p (ad_prompts a)) a, [Ob_PromptFailed (Some p) failure]).

Definition set_phase (a : Adapter) (p : nat) (call : PromptCall) (phase : PromptPhase) : Adapter :=
  with_prompts (<[p := {| pc_handle := pc_handle call; pc_session := pc_session call;
                          pc_prompt := pc_prompt call; pc_phase := phase |}]> (ad_prompts a)) a.

(** Up to the set-up lock *)
Definition prompt_begin (a : Adapter) (handle : string) (prompt : ProviderPrompt)
    : Adapter * list Observation :=
  let entered :=
    let? _ := require_dispatchable a in
    let? _ := validate_runtime_model ap_product (pp_runtime_model prompt) in
    session a handle in
  match entered with
  | Err failure => (a, [Ob_PromptFailed None failure])
  | Ok s =>
      let p := ad_next a in
      (with_prompts (<[p := {| pc_handle := handle; pc_session := s; pc_prompt := prompt;
                               pc_phase := PP_Waiting |}]> (ad_prompts a)) (with_next (S p) a), [])
  end.

(** From the lock to the spawn *)
Definition prompt_locked (a : Adapter) (p : nat) (call : PromptCall) (l : LocalSession)
    (provider_session_id : string) : Adapter * list Observation :=
  let attempt_id := pp_attempt_id (pc_prompt call) in
  match require_dispatchable a with
  | Err failure => (with_prompts (delete p (ad_prompts a)) a, [Ob_PromptFailed (Some p) failure])
  | Ok _ =>
      match ls_active l with
      | Some _ =>
          (with_prompts (delete p (ad_prompts a)) a, [Ob_PromptFailed (Some p) busy_failure])
      | None =>
          let '(l, cancelled) := take_pending_cancellation attempt_id l in
          let a := on_session (pc_session call) (λ _, set_setup (Some p) l) a in
          if cancelled then fail_prompt a p call (uncertain_failure ap_product)
          else
            match ap_prepare provider_session_id (pc_prompt call) with
            | Err kind => fail_prompt a p call (setup_failure ap_product kind)
            | Ok _ => (set_phase a p call PP_Spawning, [])
            end
      end
  end.

(** The attempt becomes the active one and its task is spawned. *)
Definition prompt_activate (a : Adapter) (p : nat) (call : PromptCall) (l : LocalSession)
    : Adapter * list Observation :=
  let attempt_id := pp_attempt_id (pc_prompt call) in
  let '(l, cancelled) := take_pending_cancellation attempt_id l in
  let a := on_session (pc_session call) (λ _, l) a in
  if cancelled then (set_phase a p call (PP_Reaping (uncertain_failure ap_product)), [])
  else
    let t := ad_next a in
    let a := with_next (S t) a in
    let active := {| aa_attempt_id := attempt_id; aa_task := t; aa_cancellation_sent := false |} in
    let a := on_session (pc_session call) (λ l, set_setup None (set_active (Some active) l)) a in
    let a := with_attempts (<[t := {| at_handle := pc_handle call; at_session := pc_session call;
                                      at_attempt_id := attempt_id; at_normalization := ap_initial;
                                      at_commands := []; at_output := []; at_open := true;
                                      at_state := AS_Spawned |}]> (ad_attempts a)) a in
    (with_prompts (delete p (ad_prompts a)) a, [Ob_Streaming p t]).

(** After the spawn *)
Definition prompt_spawned (a : Adapter) (p : nat) (call : PromptCall) (l : LocalSession)
    (spawned : Result unit AgentErrorKind) : Adapter * list Observation :=
  match spawned with
  | Err kind => fail_prompt a p call (setup_failure ap_product kind)
  | Ok _ =>
      match require_dispatchable a with
      | Err failure => (set_phase a p call (PP_Reaping failure), [])
      | Ok _ =>
          let '(l, cancelled) := take_pending_cancellation (pp_attempt_id (pc_prompt call)) l in
          let a := on_session (pc_session call) (λ _, l) a in
          if cancelled then (set_phase a p call (PP_Reaping (uncertain_failure ap_product)), [])
          else if ap_writes then (set_phase a p call PP_Writing, [])
          else prompt_activate a p call l
      end
  end.

(** After the write, which may fail or time out *)
Definition prompt_written (a : Adapter) (p : nat) (call : PromptCall) (l : LocalSession)
    (written : bool) : Adapter * list Observation :=
  if written then prompt_activate a p call l
  else (set_phase a p call (PP_Reaping (uncertain_failure ap_product)), []).

Definition prompt_reaped (a : Adapter) (p : nat) (call : PromptCall) (failure : ProviderFailure)
    (report : ShutdownReport) : Adapter * list Observation :=
  fail_prompt a p call (if sr_reaped report then failure else internal_failure false).

(** The caller drops the call: its child is killed with it. *)
Definition prompt_dropped (a : Adapter) (p : nat) (call : PromptCall) : Adapter :=
  match pc_phase call with
  | PP_Waiting => with_prompts (delete p (ad_prompts a)) a
  | _ => (fail_prompt a p call (internal_failure false)).1
  end.

(** ** Attempts *)

Definition set_task (a : Adapter) (t : nat) (task : Task) : Adapter :=
  with_attempts (<[t := task]> (ad_attempts a)) a.

Definition to_state (state : AttemptState) (task : Task) : Task :=
  {| at_handle := at_handle task; at_session := at_session task; at_attempt_id := at_attempt_id task;
     at_normalization := at_normalization task; at_commands := at_commands task;
     at_output := at_output task; at_open := at_open task; at_state := state |}.

Definition with_output (open : bool) (output : list Item) (task : Task) : Task :=
  {| at_handle := at_handle task; at_session := at_session task; at_attempt_id := at_attempt_id task;
     at_normalization := at_normalization task; at_commands := at_commands task;
     at_output := output; at_open := open; at_state := at_state task |}.

Definition with_commands (commands : list ProcessCommand) (task : Task) : Task :=
  {| at_handle := at_handle task; at_session := at_session task; at_attempt_id := at_attempt_id task;
     at_normalization := at_normalization task; at_commands := commands;
     at_output := at_output task; at_open := at_open task; at_state := at_state task |}.

Definition with_normalization (n : ap_normalization) (task : Task) : Task :=
  {| at_handle := at_handle task; at_session := at_session task; at_attempt_id := at_attempt_id task;
     at_normalization := n; at_commands := at_commands task;
     at_output := at_output task; at_open := at_open task; at_state := at_state task |}.

Definition queue (task : Task) (item : Item) : option Task :=
  (λ output, with_output (at_open task) output task)
    <$> queue_output (at_open task) (at_output task) item.

(** The acknowledgement, which a task queues first *)
Definition attempt_wake (task : Task) : Task :=
  match queue task (Ok (PO_Acknowledged None)) with
  | Some task => to_state AS_Running task
  | None => to_state (AS_Reaping EN_Silent) task
  end.

(** The loop over the items of a frame *)
Fixpoint deliver (task : Task) (items : list Item) : Task :=
  match items with
  | [] => task
  | item :: items =>
      if terminal item then to_state (AS_Reaping (EN_Terminal item)) task
      else
        match queue task item with
        | Some task => deliver task items
        | None => to_state (AS_Reaping EN_Silent) task
        end
  end.

Definition attempt_inbound (native_writes : bool) (task : Task)
    (frame : Result (option Value) AgentErrorKind) : Task :=
  match next native_writes frame with
  | Ok (Some inbound) =>
      let '(n, items) := ap_normalize inbound (at_normalization task) in
      deliver (with_normalization n task) items
  | Ok None | Err _ => deliver task [Err (uncertain_failure ap_product)]
  end.

(** The answer to a call of [cancel] that still waits *)
Definition respond_cancel (a : Adapter) (call : nat) (status : CancellationStatus)
    : Adapter * list Observation :=
  match ad_cancels a !! call with
  | Some c =>
      (with_cancels (delete call (ad_cancels a)) a, [Ob_Cancelled (cc_attempt_id c) (Ok status)])
  | None => (a, [])
  end.

Definition with_report (t : nat) (report : option ShutdownReport) (call : ShutdownCall) : ShutdownCall :=
  {| sd_inspect := sd_inspect call; sd_send := sd_send call;
     sd_wait := List.filter (λ t', negb (t' =? t)%nat) (sd_wait call);
     sd_reports := sd_reports call ++ [report] |}.

(** The answer to a call of [shutdown] that still waits *)
Definition respond_shutdown (a : Adapter) (call t : nat) (report : ShutdownReport) : Adapter :=
  with_shutdowns (alter (with_report t (Some report)) call (ad_shutdowns a)) a.

(** The next command of the channel *)
Definition attempt_command (a : Adapter) (t : nat) (task : Task) : Adapter * list Observation :=
  match at_commands task with
  | [] => (a, [])
  | PC_Cancel requested confirm_by call :: commands =>
      let task := with_commands commands task in
      if decide (requested = at_attempt_id task)
      then (set_task a t (to_state (AS_Cancelling call confirm_by) task), [])
      else respond_cancel (set_task a t task) call CS_Unconfirmed
  | PC_Shutdown call :: commands =>
      (set_task a t (to_state (AS_Reaping (EN_Shutdown call)) (with_commands commands task)), [])
  end.

(** Nobody can send a command any more: the session has another attempt or none, and no
    call is about to send. *)
Definition commands_closed (a : Adapter) (t : nat) (task : Task) : bool :=
  bool_decide (at_commands task = [])
  && match l ← ad_heap a !! at_session task; ls_active l with
     | Some active => negb (aa_task active =? t)%nat
     | None => true
     end
  && bool_decide (map_Forall (λ _ call, cc_task call ≠ t ∨ cc_sent call = true) (ad_cancels a))
  && bool_decide (map_Forall (λ _ call, t ∉ sd_send call) (ad_shutdowns a)).

(** [confirm_cancellation] *)
Definition confirm_cancellation (native_writes : bool) (remaining : N) (request_id : string)
    (written : Result unit AgentErrorKind) (frames : list (Result (option Value) AgentErrorKind))
    : CancellationStatus :=
  if (remaining =? 0)%N then CS_Unconfirmed
  else if ap_confirm request_id written (next native_writes <$> frames)
  then CS_Confirmed else CS_Unconfirmed.

(** The child is shut down and the guard dropped; what was waited for is answered. *)
Definition attempt_reaped (a : Adapter) (t : nat) (task : Task) (ending : Ending)
    (report : ShutdownReport) : Adapter * list Observation :=
  let a := drop_guard (at_handle task) (at_session task) (at_attempt_id task) a in
  let task := to_state AS_Done (with_commands [] task) in
  match ending with
  | EN_Cancel call status =>
      respond_cancel (set_task a t task) call (if sr_reaped report then status else CS_Unconfirmed)
  | EN_Shutdown call => (respond_shutdown (set_task a t task) call t report, [])
  | EN_Terminal item =>
      let item := if sr_reaped report then item else Err (uncertain_failure ap_product) in
      (set_task a t (default task (queue task item)), [])
  | EN_Silent => (set_task a t task, [])
  end.

(** The reader of the stream takes an item; the stream ends when its task has. *)
Definition receive (a : Adapter) (t : nat) (task : Task) : Adapter * list Observation :=
  if negb (at_open task) then (a, [])
  else
    match at_output task with
    | item :: output => (set_task a t (with_output true output task), [Ob_Received t (Some item)])
    | [] => match at_state task with AS_Done => (a, [Ob_Received t None]) | _ => (a, []) end
    end.

(** ** Cancellation *)

Definition mark_sent (active : ActiveAttempt) : ActiveAttempt :=
  {| aa_attempt_id := aa_attempt_id active; aa_task := aa_task active; aa_cancellation_sent := true |}.

(** Up to the first wait, at the time [now] *)
Definition cancel_begin (a : Adapter) (handle : string) (attempt_id : Uuid) (now : N)
    : Adapter * list Observation :=
  match session a handle with
  | Err failure =>
      (a, [Ob_Cancelled attempt_id (Err (new_error (pf_category failure) (pf_user_safe_message failure)))])
  | Ok s =>
      match l ← ad_heap a !! s; ls_active l with
      | None =>
          (on_session s (λ l, set_pending ({[attempt_id]} ∪ ls_pending_cancellations l) l) a,
           [Ob_Cancelled attempt_id (Ok CS_Unconfirmed)])
      | Some active =>
          if negb (bool_decide (aa_attempt_id active = attempt_id)) || aa_cancellation_sent active
          then (a, [Ob_Cancelled attempt_id (Ok CS_Unconfirmed)])
          else
            let c := ad_next a in
            let a := with_next (S c) a in
            let a := on_session s (set_active (Some (mark_sent active))) a in
            (with_cancels
               (<[c := {| cc_task := aa_task active; cc_attempt_id := attempt_id;
                          cc_confirm_by :=
                            now + cancellation_confirmation_budget (ad_cancellation_deadline a);
                          cc_sent := false |}]> (ad_cancels a)) a, [])
      end
  end.

(** There is room for a command and the task reads its channel. *)
Definition accepts (task : Task) : bool :=
  match at_state task with AS_Done => false | _ => true end
  && (length (at_commands task) <? PROCESS_COMMAND_QUEUE_DEPTH)%nat.

Definition cancel_send (a : Adapter) (c : nat) (call : CancelCall) : Adapter :=
  match ad_attempts a !! cc_task call with
  | Some task =>
      if accepts task && negb (cc_sent call) then
        let command := PC_Cancel (cc_attempt_id call) (cc_confirm_by call) c in
        let a := set_task a (cc_task call) (with_commands (at_commands task ++ [command]) task) in
        with_cancels (<[c := {| cc_task := cc_task call; cc_attempt_id := cc_attempt_id call;
                                cc_confirm_by := cc_confirm_by call; cc_sent := true |}]>
                        (ad_cancels a)) a
      else a
  | None => a
  end.

(** ** Shutdown *)

Definition shutdown_begin (a : Adapter) : Adapter * list Observation :=
  let d := ad_next a in
  let a := with_next (S d) (shut a) in
  (with_shutdowns (<[d := {| sd_inspect := (map_to_list (ad_sessions a)).*2; sd_send := [];
                             sd_wait := []; sd_reports := [] |}]> (ad_shutdowns a)) a, []).

(** A session is inspected once its set-up lock is free. *)
Definition shutdown_inspect (a : Adapter) (d : nat) (call : ShutdownCall) (s : nat) : Adapter :=
  match ad_heap a !! s with
  | Some l =>
      if bool_decide (s ∈ sd_inspect call) && bool_decide (ls_setup l = None) then
        with_shutdowns
          (<[d := {| sd_inspect := List.filter (λ s', negb (s' =? s)%nat) (sd_inspect call);
                     sd_send := sd_send call ++ option_list (aa_task <$> ls_active l);
                     sd_wait := sd_wait call; sd_reports := sd_reports call |}]> (ad_shutdowns a)) a
      else a
  | None => a
  end.

(** When every session was inspected, an attempt is told; one that has ended cannot be. *)
Definition shutdown_send (a : Adapter) (d : nat) (call : ShutdownCall) (t : nat) : Adapter :=
  match ad_attempts a !! t with
  | Some task =>
      if bool_decide (sd_inspect call = []) && bool_decide (t ∈ sd_send call) then
        let send := List.filter (λ t', negb (t' =? t)%nat) (sd_send call) in
        match at_state task with
        | AS_Done =>
            with_shutdowns
              (<[d := {| sd_inspect := []; sd_send := send; sd_wait := sd_wait call;
                         sd_reports := sd_reports call ++ [None] |}]> (ad_shutdowns a)) a
        | _ =>
            if accepts task then
              let a := set_task a t (with_commands (at_commands task ++ [PC_Shutdown d]) task) in
              with_shutdowns
                (<[d := {| sd_inspect := []; sd_send := send; sd_wait := t :: sd_wait call;
                           sd_reports := sd_reports call |}]> (ad_shutdowns a)) a
            else a
        end
      else a
  | None => a
  end.

(** An attempt that was told ends for another reason and drops the command. *)
Definition shutdown_lost (a : Adapter) (d : nat) (call : ShutdownCall) (t : nat) : Adapter :=
  match ad_attempts a !! t with
  | Some task =>
      match at_state task with
      | AS_Done =>
          if bool_decide (t ∈ sd_wait call)
          then with_shutdowns (<[d := with_report t None call]> (ad_shutdowns a)) a else a
      | _ => a
      end
  | None => a
  end.

Definition aggregate (reports : list (option ShutdownReport)) : ShutdownReport :=
  foldl (λ aggregate report,
           match report with
           | Some report => {| sr_reaped := sr_reaped aggregate && sr_reaped report;
                               sr_forced := sr_forced aggregate || sr_forced report |}
           | None => {| sr_reaped := false; sr_forced := sr_forced aggregate |}
           end)
        {| sr_reaped := true; sr_forced := false |} reports.

(** The sessions are forgotten and the report is returned. *)
Definition shutdown_return (a : Adapter) (d : nat) (report : ShutdownReport)
    : Adapter * list Observation :=
  (with_sessions ∅ (with_shutdowns (delete d (ad_shutdowns a)) a), [Ob_ShutDown d report]).

Definition shutdown_end (a : Adapter) (d : nat) (call : ShutdownCall) : Adapter * list Observation :=
  if bool_decide (sd_inspect call = [] ∧ sd_send call = [] ∧ sd_wait call = [])
  then shutdown_return a d (aggregate (sd_reports call)) else (a, []).

(** ** Runs *)

Inductive AdapterOp : Type :=
| Op_StartSession (handle : string)
| Op_Prompt (handle : string) (prompt : ProviderPrompt)
| Op_Acquire (p : nat) (provider_session_id : string)
| Op_Spawned (p : nat) (spawned : Result unit AgentErrorKind)
| Op_Written (p : nat) (written : bool)
| Op_PromptReaped (p : nat) (report : ShutdownReport)
| Op_PromptDropped (p : nat)
| Op_Wake (t : nat)
| Op_Inbound (t : nat) (frame : Result (option Value) AgentErrorKind)
| Op_Command (t : nat)
| Op_CommandsClosed (t : nat)
| Op_Confirm (t : nat) (now : N) (request_id : string) (written : Result unit AgentErrorKind)
    (frames : list (Result (option Value) AgentErrorKind))
| Op_Reaped (t : nat) (report : ShutdownReport)
| Op_Receive (t : nat)
| Op_DropStream (t : nat)
| Op_Cancel (handle : string) (attempt_id : Uuid) (now : N)
| Op_CancelSend (c : nat)
| Op_CancelFails (c : nat)
| Op_Shutdown
| Op_Inspect (d s : nat)
| Op_SendShutdown (d t : nat)
| Op_ShutdownLost (d t : nat)
| Op_ShutdownEnd (d : nat)
| Op_ShutdownTimeout (d : nat).

(** The call or task an operation is about, with the session of a call *)
Definition on_prompt (a : Adapter) (p : nat)
    (f : PromptCall → LocalSession → Adapter * list Observation) : Adapter * list Observation :=
  match ad_prompts a !! p with
  | Some call => match ad_heap a !! pc_session call with Some l => f call l | None => (a, []) end
  | None => (a, [])
  end.

Definition on_task (a : Adapter) (t : nat) (f : Task → Adapter * list Observation)
    : Adapter * list Observation :=
  match ad_attempts a !! t with Some task => f task | None => (a, []) end.

Definition on_shutdown (a : Adapter) (d : nat) (f : ShutdownCall → Adapter * list Observation)
    : Adapter * list Observation :=
  match ad_shutdowns a !! d with Some call => f call | None => (a, []) end.

Definition apply_op (a : Adapter) (op : AdapterOp) : Adapter * list Observation :=
  match op with
  | Op_StartSession handle => start_session a handle
  | Op_Prompt handle prompt => prompt_begin a handle prompt
  | Op_Acquire p id => on_prompt a p (λ call l,
      match pc_phase call, ls_setup l with
      | PP_Waiting, None => prompt_locked a p call l id
      | _, _ => (a, [])
      end)
  | Op_Spawned p spawned => on_prompt a p (λ call l,
      match pc_phase call with PP_Spawning => prompt_spawned a p call l spawned | _ => (a, []) end)
  | Op_Written p written => on_prompt a p (λ call l,
      match pc_phase call with PP_Writing => prompt_written a p call l written | _ => (a, []) end)
  | Op_PromptReaped p report => on_prompt a p (λ call l,
      match pc_phase call with
      | PP_Reaping failure => prompt_reaped a p call failure report
      | _ => (a, [])
      end)
  | Op_PromptDropped p => on_prompt a p (λ call l, (prompt_dropped a p call, []))
  | Op_Wake t => on_task a t (λ task,
      match at_state task with AS_Spawned => (set_task a t (attempt_wake task), []) | _ => (a, []) end)
  | Op_Inbound t frame => on_task a t (λ task,
      match at_state task with
      | AS_Running => (set_task a t (attempt_inbound (ad_native_writes a) task frame), [])
      | _ => (a, [])
      end)
  | Op_Command t => on_task a t (λ task,
      match at_state task with AS_Running => attempt_command a t task | _ => (a, []) end)
  | Op_CommandsClosed t => on_task a t (λ task,
      match at_state task with
      | AS_Running =>
          if commands_closed a t task then (set_task a t (to_state (AS_Reaping EN_Silent) task), [])
          else (a, [])
      | _ => (a, [])
      end)
  | Op_Confirm t now request_id written frames => on_task a t (λ task,
      match at_state task with
      | AS_Cancelling call confirm_by =>
          let status := confirm_cancellation (ad_native_writes a) (confirm_by - now) request_id
                          written frames in
          (set_task a t (to_state (AS_Reaping (EN_Cancel call status)) task), [])
      | _ => (a, [])
      end)
  | Op_Reaped t report => on_task a t (λ task,
      match at_state task with
      | AS_Reaping ending => attempt_reaped a t task ending report
      | _ => (a, [])
      end)
  | Op_Receive t => on_task a t (receive a t)
  | Op_DropStream t => on_task a t (λ task, (set_task a t (with_output false [] task), []))
  | Op_Cancel handle attempt_id now => cancel_begin a handle attempt_id now
  | Op_CancelSend c =>
      match ad_cancels a !! c with Some call => (cancel_send a c call, []) | None => (a, []) end
  | Op_CancelFails c => respond_cancel a c CS_Unconfirmed
  | Op_Shutdown => shutdown_begin a
  | Op_Inspect d s => on_shutdown a d (λ call, (shutdown_inspect a d call s, []))
  | Op_SendShutdown d t => on_shutdown a d (λ call, (shutdown_send a d call t, []))
  | Op_ShutdownLost d t => on_shutdown a d (λ call, (shutdown_lost a d call t, []))
  | Op_ShutdownEnd d => on_shutdown a d (shutdown_end a d)
  | Op_ShutdownTimeout d =>
      on_shutdown a d (λ _, shutdown_return a d {| sr_reaped := false; sr_forced := false |})
  end.

Fixpoint run (a : Adapter) (ops : list AdapterOp) : Adapter * list Observation :=
  match ops with
  | [] => (a, [])
  | op :: ops =>
      let '(a, seen) := apply_op a op in
      let '(a, rest) := run a ops in
      (a, seen ++ rest)
  end.
End adapter.
