(* ===== verification/AgentStream.v ===== *)
(** * AgentStream: what the stream of an attempt says
      (run_attempt and cancel of workbench-claude and workbench-codex)

    The transitions of one task are a relation; every operation of the adapter leaves a
    task alone, creates it, or takes one of these transitions. The last section is about
    the cancellations the adapter confirms. *)

From S2P Require Import Prelude Text BTree Errors Value Json Ports AgentProtocol AgentProcess AgentAdapter.

(** What the outcome of an attempt relies on: the frames that say that a prompt was
    completed or that it failed, and that an acknowledgement is never normalized. *)
Class AgentProtocolLaws `{AP : AgentProtocol} : Type := {
  ap_completes : Value → bool → Prop;
  ap_fails : Value → bool → Prop;
  normalize_completed : ∀ v nw i n s,
    ap_parse v nw = Ok i → Ok (PO_Completed s) ∈ (ap_normalize i n).2 → ap_completes v nw;
  normalize_failed : ∀ v nw i n f,
    ap_parse v nw = Ok i → Err f ∈ (ap_normalize i n).2 → pf_definite f = true → ap_fails v nw;
  normalize_acknowledged : ∀ i n r, Ok (PO_Acknowledged r) ∉ (ap_normalize i n).2;
}.

Section stream.
Context `{AgentProtocolLaws}.
Abbreviation Task := (AttemptTask ap_normalization).
Implicit Types (t : nat) (task : Task) (op : AdapterOp) (ops : list AdapterOp).

(** The items of a task that its reader received *)
Definition received t (trace : list Observation) : list Item :=
  omap (λ o, match o with
             | Ob_Received t' (Some item) => if (t' =? t)%nat then Some item else None
             | _ => None
             end) trace.

(** ** Transitions of a task *)

(** What is left of the commands of a task *)
Definition fewer (commands : list ProcessCommand) task : Prop :=
  ∀ command, command ∈ commands → command ∈ at_commands task.

(** The calls of [cancel] are those that wait; the last index is what is received. *)
Inductive task_step (nw : bool) (cancels : gmap nat CancelCall) (op : AdapterOp) t
    : Task → Task → list Item → Prop :=
| TS_Wake task :
    at_state task = AS_Spawned → task_step nw cancels op t task (attempt_wake task) []
| TS_Inbound task frame :
    op = Op_Inbound t frame → at_state task = AS_Running →
    task_step nw cancels op t task (attempt_inbound nw task frame) []
| TS_Commands task commands :
    (∀ requested confirm_by c, PC_Cancel requested confirm_by c ∈ commands →
       PC_Cancel requested confirm_by c ∈ at_commands task ∨
       ∃ call, cancels !! c = Some call ∧ cc_attempt_id call = requested) →
    task_step nw cancels op t task (with_commands commands task) []
| TS_Cancel task call confirm_by commands :
    at_state task = AS_Running → fewer commands task →
    PC_Cancel (at_attempt_id task) confirm_by call ∈ at_commands task →
    task_step nw cancels op t task (to_state (AS_Cancelling call confirm_by) (with_commands commands task)) []
| TS_Stop task ending commands :
    at_state task = AS_Running → fewer commands task →
    (∀ item, ending ≠ EN_Terminal item) → (∀ call status, ending ≠ EN_Cancel call status) →
    task_step nw cancels op t task (to_state (AS_Reaping ending) (with_commands commands task)) []
| TS_Confirm task call confirm_by now request_id written frames :
    op = Op_Confirm t now request_id written frames → at_state task = AS_Cancelling call confirm_by →
    task_step nw cancels op t task
      (to_state (AS_Reaping (EN_Cancel call
         (confirm_cancellation nw (confirm_by - now) request_id written frames))) task) []
| TS_Reaped task item report :
    op = Op_Reaped t report → at_state task = AS_Reaping (EN_Terminal item) →
    let done := to_state AS_Done (with_commands [] task) in
    task_step nw cancels op t task
      (default done (queue done (if sr_reaped report then item
                                 else Err (uncertain_failure ap_product)))) []
| TS_Ended task ending :
    at_state task = AS_Reaping ending →
    task_step nw cancels op t task (to_state AS_Done (with_commands [] task)) []
| TS_Receive task item output :
    at_open task = true → at_output task = item :: output →
    task_step nw cancels op t task (with_output true output task) [item]
| TS_Drop task : task_step nw cancels op t task (with_output false [] task) [].

Lemma received_app t trace1 trace2 : received t (trace1 ++ trace2) = received t trace1 ++ received t trace2.
Proof. apply omap_app. Qed.

Lemma drop_guard_attempts a handle s attempt_id :
  ad_attempts (drop_guard handle s attempt_id a) = ad_attempts a.
Proof. unfold drop_guard. by case_decide. Qed.

Lemma fail_prompt_attempts a p call failure : ad_attempts (fail_prompt a p call failure).1 = ad_attempts a.
Proof. unfold fail_prompt. simpl. apply drop_guard_attempts. Qed.

Lemma respond_cancel_spec a call status a' obs :
  respond_cancel a call status = (a', obs) →
  ad_attempts a' = ad_attempts a ∧ (∀ t, received t obs = []).
Proof. unfold respond_cancel. by destruct (ad_cancels a !! call); intros [= <- <-]. Qed.

(** A task as [prompt_stream] spawns it *)
Definition fresh_task task : Prop :=
  at_state task = AS_Spawned ∧ at_commands task = [] ∧ at_output task = [] ∧ at_open task = true.

(** What an operation does to the task [t] *)
Definition task_effect (a : Adapter) op t (a' : Adapter) (obs : list Observation) : Prop :=
  (ad_attempts a' !! t = ad_attempts a !! t ∧ received t obs = []) ∨
  (t = ad_next a ∧ (t < ad_next a')%nat ∧ received t obs = [] ∧ ∃ task, ad_attempts a' !! t = Some task ∧ fresh_task task) ∨
  (∃ task task' items, ad_attempts a !! t = Some task ∧ ad_attempts a' !! t = Some task' ∧
     received t obs = items ∧ task_step (ad_native_writes a) (ad_cancels a) op t task task' items).

Lemma effect_same a op t a' obs :
  ad_attempts a' = ad_attempts a → received t obs = [] → task_effect a op t a' obs.
Proof. intros Ha Ho. left. by rewrite Ha. Qed.

(** An operation on the task [u] *)
Lemma effect_task a op t u task task' a' obs :
  ad_attempts a !! u = Some task → ad_attempts a' = <[u := task']> (ad_attempts a) →
  (∀ t, t ≠ u → received t obs = []) →
  task_step (ad_native_writes a) (ad_cancels a) op u task task' (received u obs) → task_effect a op t a' obs.
Proof.
  intros Hu Ha Hobs Hstep. unfold task_effect. rewrite Ha. destruct (decide (t = u)) as [->|Hne].
  - right; right. exists task, task', (received u obs). by rewrite lookup_insert_eq.
  - left. rewrite lookup_insert_ne by done. auto.
Qed.

Lemma prompt_activate_effect a p call l a' obs op t :
  prompt_activate a p call l = (a', obs) → task_effect a op t a' obs.
Proof.
  unfold prompt_activate. destruct (take_pending_cancellation _ l) as [l' cancelled].
  destruct cancelled; intros [= <- <-]; [by apply effect_same|].
  unfold task_effect; simpl. destruct (decide (t = ad_next a)) as [->|Hne].
  - right; left. split_and!; [done|simpl; lia|done|]. eexists. by rewrite lookup_insert_eq.
  - left. by rewrite lookup_insert_ne.
Qed.

Lemma fail_prompt_effect a0 a p call failure a' obs op t :
  fail_prompt a p call failure = (a', obs) →
  ad_attempts a = ad_attempts a0 → task_effect a0 op t a' obs.
Proof.
  intros Hf Ha. apply effect_same.
  - rewrite <- Ha, <- (fail_prompt_attempts a p call failure). by rewrite Hf.
  - unfold fail_prompt in Hf. by simplify_eq.
Qed.

Lemma prompt_effect a p call l spawned id a' obs op t :
  (prompt_locked a p call l id = (a', obs) ∨ prompt_spawned a p call l spawned = (a', obs)) →
  task_effect a op t a' obs.
Proof.
  unfold prompt_locked, prompt_spawned.
  intros [Hp|Hp]; repeat first [progress simplify_eq/=|case_match];
    try (by apply effect_same); try (by eapply fail_prompt_effect);
    match goal with H : prompt_activate _ _ _ _ = _ |- _ =>
      apply (prompt_activate_effect _ _ _ _ _ _ op t) in H; exact H end.
Qed.

Lemma attempt_command_effect a u task a' obs op t :
  ad_attempts a !! u = Some task → at_state task = AS_Running →
  attempt_command a u task = (a', obs) → task_effect a op t a' obs.
Proof.
  intros Hu Hs. unfold attempt_command.
  destruct (at_commands task) as [|[requested confirm_by call|call] commands] eqn:Hc;
    [by intros [= <- <-]; apply effect_same| |].
  - case_decide.
    + intros [= <- <-]. eapply effect_task; [done|done|done|]. subst requested.
      apply TS_Cancel; [done| |rewrite Hc; by left]. intros x Hx. rewrite Hc. by right.
    + intros (Ha & Hr)%respond_cancel_spec.
      eapply effect_task; [done|by rewrite Ha|done|]. rewrite Hr. apply TS_Commands.
      intros ? ? ? Hx. left. rewrite Hc. by right.
  - intros [= <- <-]. eapply effect_task; [done|done|done|]. apply TS_Stop; try done.
    intros x Hx. rewrite Hc. by right.
Qed.

Lemma attempt_reaped_effect a u task ending report a' obs t :
  ad_attempts a !! u = Some task → at_state task = AS_Reaping ending →
  attempt_reaped a u task ending report = (a', obs) → task_effect a (Op_Reaped u report) t a' obs.
Proof.
  intros Hu Hs. unfold attempt_reaped. destruct ending as [call status|call|item|].
  - intros (Ha & Hr)%respond_cancel_spec. simpl in Ha. rewrite drop_guard_attempts in Ha.
    eapply effect_task; [done|done|done|]. rewrite Hr. by eapply TS_Ended.
  - intros [= <- <-]. eapply effect_task; [done|simpl; by rewrite drop_guard_attempts|done|].
    by eapply TS_Ended.
  - intros [= <- <-]. eapply effect_task; [done|simpl; by rewrite drop_guard_attempts|done|].
    by apply TS_Reaped.
  - intros [= <- <-]. eapply effect_task; [done|simpl; by rewrite drop_guard_attempts|done|].
    by eapply TS_Ended.
Qed.

Lemma apply_op_effect a op a' obs t :
  apply_op a op = (a', obs) → task_effect a op t a' obs.
Proof.
  destruct op; simpl; unfold on_prompt, on_task, on_shutdown.
  - unfold start_session. case_match; intros [= <- <-]; by apply effect_same.
  - unfold prompt_begin. case_match; intros [= <- <-]; by apply effect_same.
  - repeat case_match; try (intros [= <- <-]; by apply effect_same). intros. eapply (prompt_effect _ _ _ _ (Ok tt)); eauto.
  - repeat case_match; try (intros [= <- <-]; by apply effect_same). intros. eapply (prompt_effect _ _ _ _ _ EmptyString); eauto.
  - repeat case_match; try (intros [= <- <-]; by apply effect_same). unfold prompt_written.
    case_match; [apply prompt_activate_effect|intros [= <- <-]; by apply effect_same].
  - repeat case_match; try (intros [= <- <-]; by apply effect_same). intros.
    by eapply fail_prompt_effect.
  - repeat case_match; intros [= <- <-]; try by apply effect_same. unfold prompt_dropped.
    case_match; apply effect_same; try done; apply fail_prompt_attempts.
  - repeat case_match; intros [= <- <-]; try by apply effect_same.
    eapply effect_task; [done|done|done|]. by apply TS_Wake.
  - repeat case_match; intros [= <- <-]; try by apply effect_same.
    eapply effect_task; [done|done|done|]. by apply TS_Inbound.
  - repeat case_match; try (intros [= <- <-]; by apply effect_same). by apply attempt_command_effect.
  - destruct (ad_attempts a !! t0) as [task|] eqn:Hu; [|intros [= <- <-]; by apply effect_same].
    repeat case_match; intros [= <- <-]; try by apply effect_same.
    eapply effect_task; [done|done|done|].
    replace (to_state _ _) with (to_state (AS_Reaping EN_Silent) (with_commands (at_commands task) task))
      by by destruct task.
    apply TS_Stop; [done|by intros ?|done|done].
  - repeat case_match; intros [= <- <-]; try by apply effect_same.
    eapply effect_task; [done|done|done|]. by eapply TS_Confirm.
  - repeat case_match; try (intros [= <- <-]; by apply effect_same). by apply attempt_reaped_effect.
  - destruct (ad_attempts a !! t0) as [task|] eqn:Hu; [|intros [= <- <-]; by apply effect_same].
    unfold receive. destruct (at_open task) eqn:Ho; simpl; [|intros [= <- <-]; by apply effect_same].
    destruct (at_output task) as [|item output] eqn:Hq; [case_match; intros [= <- <-]; by apply effect_same|].
    intros [= <- <-]. eapply effect_task; [done|done|..].
    + intros t' Hne. simpl. by destruct (Nat.eqb_spec t0 t').
    + simpl. rewrite Nat.eqb_refl. by apply TS_Receive.
  - repeat case_match; intros [= <- <-]; try by apply effect_same.
    eapply effect_task; [done|done|done|]. apply TS_Drop.
  - unfold cancel_begin. repeat case_match; intros [= <- <-]; by apply effect_same.
  - repeat case_match; intros [= <- <-]; try by apply effect_same. unfold cancel_send.
    repeat case_match; try by apply effect_same.
    eapply effect_task; [done|done|done|]. apply TS_Commands.
    intros req cb c' [Hx|Hx%list_elem_of_singleton]%elem_of_app; [by left|]. right. simplify_eq. eauto.
  - intros (Ha & Hr)%respond_cancel_spec. by apply effect_same.
  - intros [= <- <-]. by apply effect_same.
  - repeat case_match; intros [= <- <-]; try by apply effect_same. unfold shutdown_inspect.
    repeat case_match; by apply effect_same.
  - repeat case_match; intros [= <- <-]; try by apply effect_same. unfold shutdown_send.
    repeat case_match; try (by apply effect_same);
      (eapply effect_task; [done|done|done|]; apply TS_Commands;
       intros req cb c' [Hx|Hx%list_elem_of_singleton]%elem_of_app; [by left|done]).
  - repeat case_match; intros [= <- <-]; try by apply effect_same. unfold shutdown_lost.
    repeat case_match; by apply effect_same.
  - unfold shutdown_end. repeat case_match; intros [= <- <-]; by apply effect_same.
  - repeat case_match; intros [= <- <-]; by apply effect_same.
Qed.

(** What no operation changes, and the counter of identifiers *)
Definition kept (a a' : Adapter) : Prop :=
  ad_native_writes a' = ad_native_writes a ∧ (ad_next a ≤ ad_next a')%nat.

Lemma apply_op_kept a op : kept a (apply_op a op).1.
Proof.
  unfold kept. destruct op; simpl; unfold on_prompt, on_task, on_shutdown, start_session, prompt_begin,
    prompt_locked, prompt_spawned, prompt_written, prompt_reaped, prompt_dropped, attempt_command, receive,
    cancel_begin, cancel_send, shutdown_begin, shutdown_inspect, shutdown_send, shutdown_lost, shutdown_end,
    attempt_reaped, prompt_activate, fail_prompt, respond_cancel, respond_shutdown, drop_guard;
    repeat case_match; simplify_eq/=; split; (reflexivity || lia).
Qed.

Lemma run_snoc a ops op :
  run a (ops ++ [op]) =
  ((apply_op (run a ops).1 op).1, (run a ops).2 ++ (apply_op (run a ops).1 op).2).
Proof.
  revert a. induction ops as [|o ops IH]; intros a; simpl.
  - destruct (apply_op a op) as [a' seen]. simpl. by rewrite app_nil_r.
  - destruct (apply_op a o) as [a1 seen]. rewrite IH. destruct (run a1 ops) as [a2 rest]. simpl.
    by rewrite app_assoc.
Qed.

(** ** The shape of a stream *)

Definition progress (item : Item) : Prop :=
  match item with Ok (PO_Content _ _) | Ok (PO_Tool _ _) => True | _ => False end.

Definition opened (l : list Item) : Prop :=
  ∃ mid, l = Ok (PO_Acknowledged None) :: mid ∧ Forall progress mid.

(** Nothing, an acknowledgement and progress, or this and one terminal item *)
Definition stream_ok (l : list Item) : Prop :=
  l = [] ∨ opened l ∨ ∃ l' item, l = l' ++ [item] ∧ opened l' ∧ terminal item = true.

(** The outcome is known: the prompt was completed, or it definitely failed. *)
Definition certain (item : Item) : Prop :=
  match item with Ok (PO_Completed _) => True | Err f => pf_definite f = true | _ => False end.

(** A frame of the child said so. *)
Definition said ops nw t (item : Item) : Prop :=
  match item with
  | Ok (PO_Completed _) => ∃ v, Op_Inbound t (Ok (Some v)) ∈ ops ∧ ap_completes v nw
  | Err _ => ∃ v, Op_Inbound t (Ok (Some v)) ∈ ops ∧ ap_fails v nw
  | _ => True
  end.

(** The child of the task was shut down and is gone. *)
Definition child_gone ops t : Prop := ∃ report, Op_Reaped t report ∈ ops ∧ sr_reaped report = true.

Definition justified ops nw t (item : Item) : Prop :=
  certain item → said ops nw t item ∧ child_gone ops t.

Definition started task (l : list Item) : Prop := (l = [] ∧ at_open task = false) ∨ opened l.

Definition task_ok ops nw t (seen : list Item) task : Prop :=
  let l := seen ++ at_output task in
  (at_open task = false → at_output task = []) ∧ Forall (justified ops nw t) l ∧
  match at_state task with
  | AS_Spawned => l = []
  | AS_Running | AS_Cancelling _ _ => started task l
  | AS_Reaping (EN_Terminal item) =>
      terminal item = true ∧ (certain item → said ops nw t item) ∧ started task l
  | AS_Reaping _ => l = [] ∨ opened l
  | AS_Done => stream_ok l
  end.

Lemma opened_snoc l item : opened l → progress item → opened (l ++ [item]).
Proof.
  intros (mid & -> & Hmid) Hp. exists (mid ++ [item]). split; [done|].
  apply Forall_app. split; [done|by apply Forall_singleton].
Qed.

Lemma opened_prefix l1 l2 : opened (l1 ++ l2) → l1 = [] ∨ opened l1.
Proof.
  intros (mid & Hl & Hmid). destruct l1 as [|x l1]; [by left|]. right. simplify_eq/=.
  exists l1. split; [done|]. by apply Forall_app in Hmid as [? _].
Qed.

Lemma stream_ok_prefix l1 l2 : stream_ok (l1 ++ l2) → stream_ok l1.
Proof.
  intros [[-> _]%app_nil|[Ho|(l' & item & Hl & Ho & Ht)]]; [by left| |].
  - destruct (opened_prefix _ _ Ho); [by left|by right; left].
  - destruct l2 as [|x l2 _] using rev_ind.
    + rewrite app_nil_r in Hl. subst. right; right. eauto.
    + rewrite app_assoc in Hl. apply app_inj_tail in Hl as [Hl _]. rewrite <- Hl in Ho.
      destruct (opened_prefix _ _ Ho); [by left|by right; left].
Qed.

Lemma queue_Some task item task' :
  queue task item = Some task' →
  at_open task = true ∧ task' = with_output true (at_output task ++ [item]) task.
Proof.
  unfold queue, queue_output. destruct (_ && _) eqn:Hq; simpl; [|done]. intros [= <-].
  apply andb_true_iff in Hq as [Hq _]. apply andb_true_iff in Hq as [_ ->]. done.
Qed.

Lemma justified_progress ops nw t item : progress item → justified ops nw t item.
Proof. destruct item as [[]|]; simpl; try done; by intros _ []. Qed.

Lemma justified_ack ops nw t r : justified ops nw t (Ok (PO_Acknowledged r)).
Proof. by intros []. Qed.

Lemma Forall_justified_mono ops op nw t l :
  Forall (justified ops nw t) l → Forall (justified (ops ++ [op]) nw t) l.
Proof.
  intros Hl. eapply Forall_impl; [exact Hl|]. intros item Hj Hc. destruct (Hj Hc) as [Hs (report & Hr & Hok)].
  split; [|exists report; set_solver].
  destruct item as [[]|]; simpl in *; try done; destruct Hs as (v & Hv & ?); exists v; set_solver.
Qed.

Lemma said_mono ops op nw t item : said ops nw t item → said (ops ++ [op]) nw t item.
Proof. destruct item as [[]|]; simpl; try done; intros (v & ? & ?); exists v; set_solver. Qed.

(** The loop over the items of a frame keeps the shape. *)
Lemma deliver_ok ops nw t seen items task :
  at_state task = AS_Running → task_ok ops nw t seen task →
  (∀ item, item ∈ items → (∀ r, item ≠ Ok (PO_Acknowledged r)) ∧ (certain item → said ops nw t item)) →
  task_ok ops nw t seen (deliver task items).
Proof.
  revert task. induction items as [|item items IH]; intros task Hs Hok Hitems; simpl; [done|].
  destruct (Hitems item) as [Hack Hsaid]; [by left|].
  destruct (terminal item) eqn:Ht.
  { unfold task_ok in *. simpl. rewrite Hs in Hok. naive_solver. }
  destruct (queue task item) as [task'|] eqn:Hq.
  2:{ unfold task_ok, started in *. simpl. rewrite Hs in Hok. naive_solver. }
  apply queue_Some in Hq as [Ho ->]. apply IH; [done| |intros ? ?; apply Hitems; by right].
  destruct Hok as (_ & Hj & Hst). rewrite Hs in Hst. destruct Hst as [[_ ?]|Hst]; [congruence|].
  assert (progress item) as Hp.
  { destruct item as [[r| | |]|]; simpl in *; try done. by destruct (Hack r). }
  unfold task_ok; simpl. rewrite Hs, app_assoc. split_and!; [done| |right; by apply opened_snoc].
  apply Forall_app. split; [done|]. apply Forall_singleton. by apply justified_progress.
Qed.

Lemma inbound_ok ops nw t seen task frame :
  Op_Inbound t frame ∈ ops → at_state task = AS_Running → task_ok ops nw t seen task →
  task_ok ops nw t seen (attempt_inbound nw task frame).
Proof.
  intros Hin Hs Hok. unfold attempt_inbound.
  assert (task_ok ops nw t seen (deliver task [Err (uncertain_failure ap_product)])) as Hlost.
  { apply deliver_ok; [done|done|]. intros item ->%list_elem_of_singleton. split; [done|]. by intros [=]. }
  destruct (next nw frame) as [[inbound|]|] eqn:Hn; [|done|done].
  destruct (ap_normalize inbound (at_normalization task)) as [n items] eqn:Hnorm.
  apply deliver_ok; [done|exact Hok|].
  destruct frame as [[v|]|]; simpl in Hn; [|done|done].
  destruct (ap_parse v nw) as [i|] eqn:Hparse; simpl in Hn; [|done]. injection Hn as ->.
  intros item Hitem.
  assert (item ∈ (ap_normalize inbound (at_normalization task)).2) as Hitem' by by rewrite Hnorm.
  split; [intros r ->; by apply normalize_acknowledged in Hitem'|].
  intros Hc. destruct item as [[]|f]; simpl in *; try done; exists v; split; try done.
  - by eapply normalize_completed.
  - by eapply normalize_failed.
Qed.

Lemma task_ok_mono ops op nw t seen task : task_ok ops nw t seen task → task_ok (ops ++ [op]) nw t seen task.
Proof.
  intros (Hcl & Hj & Hst). split_and!; [done|by apply Forall_justified_mono|].
  destruct (at_state task) as [| | |[]|]; try done. destruct Hst as (? & ? & ?).
  eauto using said_mono.
Qed.

Lemma reaped_ok ops nw t seen task item report :
  Op_Reaped t report ∈ ops → at_state task = AS_Reaping (EN_Terminal item) → task_ok ops nw t seen task →
  let done := to_state AS_Done (with_commands [] task) in
  task_ok ops nw t seen
    (default done (queue done (if sr_reaped report then item else Err (uncertain_failure ap_product)))).
Proof.
  intros Hin Hs (Hcl & Hj & Hst). rewrite Hs in Hst. destruct Hst as (Ht & Hsaid & Hstart).
  set (final := if sr_reaped report then item else Err (uncertain_failure ap_product)). intros done'.
  assert (task_ok ops nw t seen done') as Hdone.
  { split_and!; [done|done|]. simpl. destruct Hstart as [[-> _]|?]; [by left|by right; left]. }
  destruct (queue done' final) as [task'|] eqn:Hq; [|done]. simpl.
  apply queue_Some in Hq as [Ho ->]. simpl in Ho. destruct Hstart as [[_ ?]|Hop]; [congruence|].
  assert (terminal final = true) as Hfin by (unfold final; by destruct (sr_reaped report)).
  assert (justified ops nw t final) as Hjf.
  { intros Hc. unfold final in *. destruct (sr_reaped report) eqn:Hr; [|done].
    split; [by apply Hsaid|by exists report]. }
  unfold task_ok; simpl. rewrite app_assoc. split_and!; [done| |].
  - apply Forall_app. by rewrite Forall_singleton.
  - right; right. eauto.
Qed.

Lemma task_step_ok ops nw cancels op t seen task task' items :
  op ∈ ops → task_step nw cancels op t task task' items → task_ok ops nw t seen task →
  task_ok ops nw t (seen ++ items) task'.
Proof.
  intros Hop Hstep Hok. destruct Hstep; rewrite ?app_nil_r; subst.
  - unfold attempt_wake. destruct Hok as (Hcl & Hj & Hst).
    match goal with E : at_state _ = _ |- _ => rewrite E in Hst end. apply app_nil in Hst as [-> Hout].
    destruct (queue _ _) as [task'|] eqn:Hq.
    + apply queue_Some in Hq as [Ho ->]. unfold task_ok; simpl. rewrite Hout. split_and!; [done| |].
      * apply Forall_singleton, justified_ack.
      * right. by exists [].
    + unfold task_ok; simpl. rewrite Hout. split_and!; [done|constructor|by left].
  - by apply inbound_ok.
  - exact Hok.
  - destruct Hok as (Hcl & Hj & Hst).
    match goal with E : at_state _ = _ |- _ => rewrite E in Hst end. done.
  - destruct Hok as (Hcl & Hj & Hst).
    match goal with E : at_state _ = _ |- _ => rewrite E in Hst end. split_and!; [done|done|]. simpl.
    assert (∀ l, started task l → l = [] ∨ opened l) as Hl by (unfold started; naive_solver).
    destruct ending; [by apply Hl|by apply Hl|naive_solver|by apply Hl].
  - destruct Hok as (Hcl & Hj & Hst).
    match goal with E : at_state _ = _ |- _ => rewrite E in Hst end. split_and!; [done|done|]. simpl.
    unfold started in Hst. naive_solver.
  - by apply reaped_ok.
  - destruct Hok as (Hcl & Hj & Hst).
    match goal with E : at_state _ = _ |- _ => rewrite E in Hst end. split_and!; [done|done|]. simpl.
    assert (seen ++ at_output task = [] ∨ opened (seen ++ at_output task)) as [->|?].
    { destruct ending; try done. unfold started in Hst. naive_solver. }
    + by left.
    + by right; left.
  - destruct Hok as (Hcl & Hj & Hst).
    match goal with E : at_output _ = _ |- _ => rewrite E in Hcl, Hj, Hst end.
    unfold task_ok, started in *. simpl. rewrite <- app_assoc.
    match goal with E : at_open _ = _ |- _ => rewrite E in Hcl, Hst end. done.
  - destruct Hok as (Hcl & Hj & Hst). unfold task_ok, started in *. simpl. rewrite app_nil_r.
    apply Forall_app in Hj as [Hj _]. split_and!; [done|done|].
    assert (∀ l, opened (seen ++ l) → seen = [] ∨ opened seen) as Hpre by (intros l; apply opened_prefix).
    assert (∀ l, seen ++ l = [] → seen = []) as Hnil by (by intros ? [? _]%app_nil).
    destruct (at_state task) as [| | |[]|]; naive_solver eauto using stream_ok_prefix.
Qed.

(** ** Every run *)

Lemma connect_Ok version nw deadline preflight a :
  connect version nw deadline preflight = Ok a →
  ad_native_writes a = nw ∧ ad_shutting_down a = false ∧ ad_sessions a = ∅ ∧ ad_heap a = ∅ ∧
  ad_prompts a = ∅ ∧ ad_attempts a = ∅ ∧ ad_cancels a = ∅ ∧ ad_shutdowns a = ∅.
Proof.
  unfold connect. case_match; [done|]. destruct preflight; simpl; [|done]. by intros [= <-].
Qed.

Definition streams_ok nw ops (a : Adapter) (trace : list Observation) : Prop :=
  ad_native_writes a = nw ∧
  (∀ t task, ad_attempts a !! t = Some task →
     (t < ad_next a)%nat ∧ task_ok ops nw t (received t trace) task) ∧
  (∀ t, ad_attempts a !! t = None → received t trace = []).

Lemma run_streams_ok version nw deadline preflight a ops :
  connect version nw deadline preflight = Ok a → streams_ok nw ops (run a ops).1 (run a ops).2.
Proof.
  intros Hc. apply connect_Ok in Hc as (Hnw & _ & _ & _ & _ & Hat & _).
  induction ops as [|op ops IH] using rev_ind.
  { split_and!; [done| |done]. intros t task. simpl. by rewrite Hat, lookup_empty. }
  rewrite run_snoc. destruct (run a ops) as [a1 trace]. simpl in *. destruct IH as (Hnw1 & Hall & Hnone).
  pose proof (apply_op_kept a1 op) as [Hn Hle].
  destruct (apply_op a1 op) as [a2 obs] eqn:Hop. simpl in *.
  split_and!; [congruence| |].
  - intros t task' Ht. rewrite received_app.
    destruct (apply_op_effect _ _ _ _ t Hop)
      as [[Hsame ->]|[(-> & Hlt & -> & task & Hnew & Hs & _ & Hout & Ho)|(task & task1 & items & H1 & H2 & -> & Hst)]].
    + rewrite app_nil_r. rewrite Hsame in Ht. destruct (Hall _ _ Ht). split; [lia|by apply task_ok_mono].
    + rewrite app_nil_r. split; [done|]. rewrite Hnew in Ht. injection Ht as <-.
      rewrite Hnone by (destruct (ad_attempts a1 !! ad_next a1) eqn:E; [apply Hall in E; lia|done]).
      unfold task_ok. rewrite Hs, Hout. simpl. split_and!; [done|constructor|done].
    + rewrite Ht in H2. injection H2 as <-. destruct (Hall _ _ H1). split; [lia|].
      rewrite Hnw1 in Hst. eapply task_step_ok; [|done|by apply task_ok_mono]. set_solver.
  - intros t Ht. rewrite received_app.
    destruct (apply_op_effect _ _ _ _ t Hop)
      as [[Hsame ->]|[(-> & Hlt & -> & task & Hnew & _)|(task & task1 & items & H1 & H2 & -> & Hst)]].
    + rewrite app_nil_r. apply Hnone. by rewrite <- Hsame.
    + congruence.
    + congruence.
Qed.

Lemma task_ok_seen ops nw t seen task :
  task_ok ops nw t seen task → stream_ok seen ∧ Forall (justified ops nw t) seen.
Proof.
  intros (_ & Hj & Hst). apply Forall_app in Hj as [Hj _]. split; [|done].
  assert (∀ l, seen ++ l = [] ∨ opened (seen ++ l) → stream_ok seen) as Hpre.
  { intros l [[-> _]%app_nil|Ho]; [by left|]. by eapply stream_ok_prefix; right; left. }
  unfold started in Hst. destruct (at_state task) as [| | |[]|]; try (by eapply stream_ok_prefix);
    eapply (Hpre (at_output task)); naive_solver.
Qed.

(** C8: The stream of an attempt is honest, whatever calls, cancellations, shutdowns and
    frames of the child are interleaved: its reader receives an acknowledgement, then
    content and tools, then at most one terminal item and nothing after it; that the
    prompt was completed or definitely failed is received only when a frame of the child
    said exactly that and the child was shut down and is gone. *)
Theorem agent_stream_truthful version nw deadline preflight a ops t :
  connect version nw deadline preflight = Ok a →
  let items := received t (run a ops).2 in
  stream_ok items ∧
  ∀ item, item ∈ items → certain item → said ops nw t item ∧ child_gone ops t.
Proof.
  intros Hc items. destruct (run_streams_ok _ _ _ _ _ ops Hc) as (_ & Hall & Hnone).
  destruct (ad_attempts (run a ops).1 !! t) as [task|] eqn:Ht.
  - apply Hall in Ht as [_ [Hs Hj]%task_ok_seen]. split; [done|].
    rewrite Forall_forall in Hj. exact Hj.
  - unfold items. rewrite Hnone by done. split; [by left|]. intros item Hi. by apply elem_of_nil in Hi.
Qed.
End stream.

(** ** What a confirmed cancellation means
      (cancel, run_attempt and confirm_cancellation of workbench-claude and workbench-codex) *)

Section cancel.
Context `{AgentProtocolLaws}.
Abbreviation Task := (AttemptTask ap_normalization).
Implicit Types (t c : nat) (task : Task) (op : AdapterOp) (ops : list AdapterOp).
Implicit Types (cancels : gmap nat CancelCall).

(** The child of the task answered the interrupt as the protocol asks. *)
Definition confirmed ops nw t : Prop :=
  ∃ now request_id written frames,
    Op_Confirm t now request_id written frames ∈ ops ∧
    ap_confirm request_id written (next nw <$> frames) = true.

(** The call [c], if it still waits, is about the attempt. *)
Definition about cancels c (attempt_id : Uuid) : Prop :=
  ∀ call, cancels !! c = Some call → cc_attempt_id call = attempt_id.

Definition task_cancel ops nw cancels (next : nat) t task : Prop :=
  (∀ requested confirm_by c, PC_Cancel requested confirm_by c ∈ at_commands task →
     (c < next)%nat ∧ about cancels c requested) ∧
  match at_state task with
  | AS_Cancelling c _ => (c < next)%nat ∧ about cancels c (at_attempt_id task)
  | AS_Reaping (EN_Cancel c status) =>
      (c < next)%nat ∧ about cancels c (at_attempt_id task) ∧
      (status = CS_Confirmed → confirmed ops nw t)
  | _ => True
  end.

(** Identifiers that are in use keep their attempt, and later ones are not in use. *)
Definition refines (next : nat) cancels cancels' : Prop :=
  ∀ c call', (c < next)%nat → cancels' !! c = Some call' →
    ∃ call, cancels !! c = Some call ∧ cc_attempt_id call = cc_attempt_id call'.

Lemma refines_about next cancels cancels' c attempt_id :
  refines next cancels cancels' → (c < next)%nat → about cancels c attempt_id → about cancels' c attempt_id.
Proof.
  intros Href Hc Hab call' Hcall'. destruct (Href _ _ Hc Hcall') as (call & Hcall & <-). by apply Hab.
Qed.

Lemma confirmed_mono ops ops' nw t : ops ⊆ ops' → confirmed ops nw t → confirmed ops' nw t.
Proof. intros Hsub (now & id & w & frames & ? & ?). exists now, id, w, frames. set_solver. Qed.

Lemma task_cancel_mono ops ops' nw cancels cancels' next next' t task :
  ops ⊆ ops' → refines next cancels cancels' → (next ≤ next')%nat →
  task_cancel ops nw cancels next t task → task_cancel ops' nw cancels' next' t task.
Proof.
  intros Hops Href Hle [Hcmd Hst]. split.
  - intros requested cb c Hc. destruct (Hcmd _ _ _ Hc). split; [lia|by eapply refines_about].
  - destruct (at_state task) as [| |c cb|[]|]; try done.
    + destruct Hst. split; [lia|by eapply refines_about].
    + destruct Hst as (? & ? & ?). split_and!; [lia|by eapply refines_about|].
      eauto using confirmed_mono.
Qed.

(** ** The operations on the calls *)

Lemma refines_sub next cancels cancels' : cancels' ⊆ cancels → refines next cancels cancels'.
Proof. intros Hsub c call' _ Hc. exists call'. split; [|done]. by eapply lookup_weaken. Qed.

Lemma refines_refl next cancels : refines next cancels cancels.
Proof. by apply refines_sub. Qed.

Lemma respond_cancel_refines next a0 a c status :
  ad_cancels a = ad_cancels a0 → refines next (ad_cancels a0) (ad_cancels (respond_cancel a c status).1).
Proof.
  intros <-. unfold respond_cancel. destruct (ad_cancels a !! c); simpl; apply refines_sub; [apply delete_subseteq|done].
Qed.

Lemma apply_op_refines a op : refines (ad_next a) (ad_cancels a) (ad_cancels (apply_op a op).1).
Proof.
  destruct op; simpl; unfold on_prompt, on_task, on_shutdown.
  1-16, 19-24: unfold start_session, prompt_begin, prompt_locked, prompt_spawned, prompt_written, prompt_reaped,
    prompt_dropped, prompt_activate, fail_prompt, attempt_command, attempt_reaped, receive, cancel_begin,
    shutdown_begin, shutdown_inspect, shutdown_send, shutdown_lost, shutdown_end, respond_shutdown, drop_guard;
    repeat case_match; simplify_eq/=; try apply refines_refl; try (by apply respond_cancel_refines).
  - intros c call' Hlt. simpl. rewrite lookup_insert_ne by lia. eauto.
  - case_match; [|apply refines_refl]. unfold cancel_send. repeat case_match; simpl; try apply refines_refl.
    intros c' call' _ [[<- <-]|[_ ?]]%lookup_insert_Some; eauto.
  - by apply respond_cancel_refines.
Qed.

(** A confirmation is observed only when a task whose child confirmed is done with it. *)
Lemma respond_cancel_observed a c status attempt_id r :
  Ob_Cancelled attempt_id r ∈ (respond_cancel a c status).2 →
  r = Ok status ∧ ∃ call, ad_cancels a !! c = Some call ∧ cc_attempt_id call = attempt_id.
Proof.
  unfold respond_cancel. destruct (ad_cancels a !! c) as [call|]; simpl;
    [intros [= -> ->]%list_elem_of_singleton; eauto|by intros ?%elem_of_nil].
Qed.

Lemma apply_op_confirmed a op attempt_id :
  Ob_Cancelled attempt_id (Ok CS_Confirmed) ∈ (apply_op a op).2 →
  ∃ t task report c call, op = Op_Reaped t report ∧ sr_reaped report = true ∧
    ad_attempts a !! t = Some task ∧ at_state task = AS_Reaping (EN_Cancel c CS_Confirmed) ∧
    ad_cancels a !! c = Some call ∧ cc_attempt_id call = attempt_id.
Proof.
  destruct op; simpl; unfold on_prompt, on_task, on_shutdown.
  1-9, 11-12, 14-17, 19-24: unfold start_session, prompt_begin, prompt_locked, prompt_spawned, prompt_written,
    prompt_reaped, prompt_activate, fail_prompt, receive, cancel_begin, shutdown_begin, shutdown_end,
    shutdown_return; repeat case_match; simplify_eq/=; set_solver.
  - unfold attempt_command. repeat case_match; intros Hin;
      first [by apply elem_of_nil in Hin|by apply respond_cancel_observed in Hin as [? _]].
  - destruct (ad_attempts a !! t) as [task|] eqn:Ht; [|by intros ?%elem_of_nil].
    destruct (at_state task) as [| | |ending|] eqn:Hs; try by intros ?%elem_of_nil.
    unfold attempt_reaped. destruct ending as [c status| | |]; try by intros ?%elem_of_nil.
    intros [Heq (call & Hcall & Hid)]%respond_cancel_observed. simpl in Hcall.
    replace (ad_cancels (drop_guard _ _ _ a)) with (ad_cancels a) in Hcall
      by (unfold drop_guard; by case_decide).
    destruct (sr_reaped report) eqn:Hr; [|done]. injection Heq as <-.
    by exists t, task, report, c, call.
  - by intros [? _]%respond_cancel_observed.
Qed.

(** ** Every run *)

Lemma deliver_cancel task items :
  at_state task = AS_Running →
  at_attempt_id (deliver task items) = at_attempt_id task ∧
  at_commands (deliver task items) = at_commands task ∧
  (∀ c cb, at_state (deliver task items) ≠ AS_Cancelling c cb) ∧
  (∀ c status, at_state (deliver task items) ≠ AS_Reaping (EN_Cancel c status)).
Proof.
  revert task. induction items as [|item items IH]; intros task Hs; simpl;
    [split_and!; try done; by rewrite Hs|].
  destruct (terminal item); [done|].
  destruct (queue task item) as [task'|] eqn:Hq; [|done].
  apply queue_Some in Hq as [_ ->]. by apply (IH (with_output true _ task)).
Qed.

Lemma inbound_cancel nw task frame :
  at_state task = AS_Running →
  at_attempt_id (attempt_inbound nw task frame) = at_attempt_id task ∧
  at_commands (attempt_inbound nw task frame) = at_commands task ∧
  (∀ c cb, at_state (attempt_inbound nw task frame) ≠ AS_Cancelling c cb) ∧
  (∀ c status, at_state (attempt_inbound nw task frame) ≠ AS_Reaping (EN_Cancel c status)).
Proof.
  intros Hs. unfold attempt_inbound. destruct (next nw frame) as [[inbound|]|];
    [destruct (ap_normalize inbound _) as [n items]; by apply (deliver_cancel (with_normalization n task))|..];
    by apply deliver_cancel.
Qed.

Lemma task_step_attempt nw cancels op t task task' items :
  task_step nw cancels op t task task' items → at_attempt_id task' = at_attempt_id task.
Proof.
  destruct 1; try done.
  - unfold attempt_wake. destruct (queue task _) as [task'|] eqn:Hq; [|done].
    by apply queue_Some in Hq as [_ ->].
  - by apply inbound_cancel.
  - destruct (queue _ _) as [task'|] eqn:Hq; [|done]. by apply queue_Some in Hq as [_ ->].
Qed.

Lemma task_step_cancel ops nw cancels next op t task task' items :
  (∀ c call, cancels !! c = Some call → (c < next)%nat) → op ∈ ops →
  task_step nw cancels op t task task' items → task_cancel ops nw cancels next t task →
  task_cancel ops nw cancels next t task'.
Proof.
  intros Hfresh Hop Hstep [Hcmd Hst]. destruct Hstep; subst.
  - unfold attempt_wake. destruct (queue task _) as [task'|] eqn:Hq; [|done].
    by apply queue_Some in Hq as [_ ->].
  - destruct (inbound_cancel nw task frame) as (_ & Hc & Hn1 & Hn2); [done|]. split; [by rewrite Hc|].
    destruct (at_state (attempt_inbound nw task frame)) as [| | |[]|]; naive_solver.
  - split; [|done]. intros requested cb c Hc.
    match goal with Hor : ∀ _ _ _, _ → _ ∨ _ |- _ =>
      destruct (Hor _ _ _ Hc) as [Hin|(call & Hcall & Hid)] end; [by eapply Hcmd|].
    split; [by eapply Hfresh|]. intros call' Hcall'. congruence.
  - split; [|by eapply Hcmd]. intros requested cb c Hc. eapply Hcmd. eauto.
  - split; [intros requested cb c Hc; eapply Hcmd; eauto|]. simpl. destruct ending; naive_solver.
  - split; [done|]. simpl.
    match goal with E : at_state _ = _ |- _ => rewrite E in Hst end. destruct Hst.
    split_and!; [done|done|]. unfold confirm_cancellation. repeat case_match; try done.
    intros _. exists now, request_id, written, frames. done.
  - assert (task_cancel ops nw cancels next t (to_state AS_Done (with_commands [] task))) as Hdone.
    { split; [|done]. intros ? ? ? Hin. by apply elem_of_nil in Hin. }
    destruct (queue _ _) as [task'|] eqn:Hq; [|done]. by apply queue_Some in Hq as [_ ->].
  - split; [|done]. intros ? ? ? Hin. by apply elem_of_nil in Hin.
  - done.
  - done.
Qed.

Definition cancels_ok nw ops (a : Adapter) (trace : list Observation) : Prop :=
  ad_native_writes a = nw ∧
  (∀ t task, ad_attempts a !! t = Some task →
     task_cancel ops nw (ad_cancels a) (ad_next a) t task) ∧
  (∀ c call, ad_cancels a !! c = Some call → (c < ad_next a)%nat) ∧
  (∀ attempt_id, Ob_Cancelled attempt_id (Ok CS_Confirmed) ∈ trace →
     ∃ t task, ad_attempts a !! t = Some task ∧ at_attempt_id task = attempt_id ∧
       confirmed ops nw t ∧ child_gone ops t).

Definition bounded (a : Adapter) : Prop :=
  ∀ c call, ad_cancels a !! c = Some call → (c < ad_next a)%nat.

Lemma respond_cancel_bounded a c status : bounded a → bounded (respond_cancel a c status).1.
Proof.
  unfold bounded, respond_cancel. intros Hb. destruct (ad_cancels a !! c); simpl; [|done].
  intros c' call' [_ Hc]%lookup_delete_Some. eauto.
Qed.

Lemma apply_op_bounded a op : bounded a → bounded (apply_op a op).1.
Proof.
  intros Hb. destruct op; simpl; unfold on_prompt, on_task, on_shutdown.
  1-16, 19-24: unfold start_session, prompt_begin, prompt_locked, prompt_spawned, prompt_written, prompt_reaped,
    prompt_dropped, prompt_activate, fail_prompt, attempt_command, attempt_reaped, receive, cancel_begin,
    shutdown_begin, shutdown_inspect, shutdown_send, shutdown_lost, shutdown_end, respond_shutdown, drop_guard;
    repeat case_match; simplify_eq/=; try exact Hb; try (by apply respond_cancel_bounded);
    try (intros c call Hc; simpl in *; apply Hb in Hc; lia).
  - intros c call. simpl. intros [[<- _]|[_ Hc]]%lookup_insert_Some; [lia|]. apply Hb in Hc. lia.
  - case_match; [|done]. unfold cancel_send. repeat case_match; simpl; try done.
    intros c' call'. simpl. intros [[<- _]|[_ Hc]]%lookup_insert_Some; eauto.
  - by apply respond_cancel_bounded.
Qed.

Lemma run_cancels_ok version nw deadline preflight a ops :
  connect version nw deadline preflight = Ok a → cancels_ok nw ops (run a ops).1 (run a ops).2.
Proof.
  intros Hcon. pose proof (connect_Ok _ _ _ _ _ Hcon) as (Hnw & _ & _ & _ & _ & Hat & Hcan & _).
  induction ops as [|op ops IH] using rev_ind.
  { simpl. split_and!; [done| | |by intros ? ?%elem_of_nil].
    - intros t task. by rewrite Hat, lookup_empty.
    - intros c call. by rewrite Hcan, lookup_empty. }
  pose proof (run_streams_ok _ _ _ _ _ ops Hcon) as (_ & Hlt & _).
  rewrite run_snoc. destruct (run a ops) as [a1 trace]. simpl in *. destruct IH as (Hnw1 & Hall & Hb & Htr).
  pose proof (apply_op_kept a1 op) as [Hn Hle]. pose proof (apply_op_refines a1 op) as Href.
  pose proof (apply_op_bounded a1 op Hb) as Hb'. pose proof (apply_op_confirmed a1 op) as Hconf.
  destruct (apply_op a1 op) as [a2 obs] eqn:Hop. simpl in *.
  assert (∀ t task, ad_attempts a1 !! t = Some task → ∃ task', ad_attempts a2 !! t = Some task' ∧
    at_attempt_id task' = at_attempt_id task) as Hkeep.
  { intros t task Ht. destruct (apply_op_effect _ _ _ _ t Hop)
      as [[Hsame _]|[(-> & _)|(task0 & task1 & items & H1 & H2 & _ & Hst)]].
    - exists task. by rewrite Hsame.
    - apply Hlt in Ht as [? _]. lia.
    - exists task1. split; [done|]. apply task_step_attempt in Hst. congruence. }
  assert (ops ⊆ ops ++ [op]) as Hsub by set_solver.
  split_and!; [congruence| |done|].
  - intros t task' Ht. destruct (apply_op_effect _ _ _ _ t Hop)
      as [[Hsame _]|[(-> & _ & _ & task & Hnew & Hfresh)|(task & task1 & items & H1 & H2 & _ & Hst)]].
    + rewrite Hsame in Ht. eapply task_cancel_mono; eauto.
    + rewrite Hnew in Ht. injection Ht as <-. destruct Hfresh as (Hs & Hcmd & _). unfold task_cancel.
      rewrite Hs, Hcmd. split; [|done]. by intros ? ? ? ?%elem_of_nil.
    + rewrite Ht in H2. injection H2 as <-. rewrite Hnw1 in Hst.
      eapply (task_cancel_mono (ops ++ [op])); [done|done|done|].
      eapply (task_step_cancel _ _ _ _ op); [done|set_solver|done|].
      eapply task_cancel_mono; [exact Hsub|apply refines_refl|done|eauto].
  - intros attempt_id [Hin|Hin]%elem_of_app.
    + destruct (Htr _ Hin) as (t & task & Ht & Hid & Hcf & (report & Hr & Hok)).
      destruct (Hkeep _ _ Ht) as (task' & Ht' & Hid'). exists t, task'.
      split_and!; [done|congruence|by eapply confirmed_mono|exists report; set_solver].
    + destruct (Hconf _ Hin) as (t & task & report & c & call & -> & Hr & Ht & Hs & Hcall & Hid).
      destruct (Hall _ _ Ht) as [_ Hst]. rewrite Hs in Hst. destruct Hst as (_ & Hab & Hcf).
      destruct (Hkeep _ _ Ht) as (task' & Ht' & Hid'). exists t, task'.
      split_and!; [done|rewrite Hid', <- Hid; symmetry; by apply Hab| |exists report; set_solver].
      eapply confirmed_mono; [exact Hsub|by apply Hcf].
Qed.

End cancel.
