(* ===== verification/AgentShutdown.v ===== *)
(** * AgentShutdown: no child survives a shutdown that says so
      (shutdown, prompt_stream and the guard of workbench-claude and workbench-codex)

    A call that holds the guard of an attempt and a task that has not ended own a child.
    [Own] is what the argument needs of an owner; every operation either leaves the
    owners alone or is the step of one of them. *)

From S2P Require Import Prelude Text BTree Errors Value Json Ports AgentProtocol AgentProcess.
From S2P Require Import AgentAdapter AgentStream.

Inductive OwnKind : Type := OK_Waiting | OK_Guarded | OK_Running | OK_Done.

#[export] Instance OwnKind_eq_dec : EqDecision OwnKind.
Proof. solve_decision. Defined.

Record Own : Type := {
  ow_handle : string;
  ow_session : nat;
  ow_attempt : Uuid;
  ow_kind : OwnKind;
}.

(** A call or a task *)
Definition Key : Type := nat + nat.
Definition key_id (k : Key) : nat := match k with inl p => p | inr t => t end.

Section shutdown.
Context `{AgentProtocolLaws}.
Abbreviation Task := (AttemptTask ap_normalization).
Implicit Types (a : Adapter) (s : nat) (i j : Key) (o : Own) (op : AdapterOp) (ops : list AdapterOp).

Definition call_own (call : PromptCall) : Own := {|
  ow_handle := pc_handle call; ow_session := pc_session call;
  ow_attempt := pp_attempt_id (pc_prompt call);
  ow_kind := match pc_phase call with PP_Waiting => OK_Waiting | _ => OK_Guarded end |}.

Definition task_own (task : Task) : Own := {|
  ow_handle := at_handle task; ow_session := at_session task; ow_attempt := at_attempt_id task;
  ow_kind := match at_state task with AS_Done => OK_Done | _ => OK_Running end |}.

Definition owner a i : option Own :=
  match i with
  | inl p => call_own <$> ad_prompts a !! p
  | inr t => task_own <$> ad_attempts a !! t
  end.

(** An owner with a child *)
Definition live o : Prop := ow_kind o = OK_Guarded ∨ ow_kind o = OK_Running.

Definition no_children a : Prop := ∀ i o, owner a i = Some o → ¬ live o.

Definition started_handle op : option string :=
  match op with Op_StartSession handle => Some handle | _ => None end.
Definition prompted_handle op : option string :=
  match op with Op_Prompt handle _ => Some handle | _ => None end.
Definition is_shutdown op : bool := match op with Op_Shutdown => true | _ => false end.

(** Handles are generated once and prompted once, and the adapter is shut down once. *)
Definition used_once ops : Prop :=
  NoDup (omap started_handle ops) ∧ NoDup (omap prompted_handle ops) ∧
  (length (List.filter is_shutdown ops) ≤ 1)%nat.

(** ** What holds while the table of sessions was not cleared *)

Definition locks (l : LocalSession) : option nat * option (nat * Uuid) :=
  (ls_setup l, (λ active, (aa_task active, aa_attempt_id active)) <$> ls_active l).

(** What an owner holds *)
Definition holds a i o : Prop :=
  match ow_kind o with
  | OK_Waiting => True
  | OK_Guarded => fst <$> (locks <$> ad_heap a !! ow_session o) = Some (Some (key_id i))
  | OK_Running => snd <$> (locks <$> ad_heap a !! ow_session o) = Some (Some (key_id i, ow_attempt o))
  | OK_Done => True
  end ∧
  (ow_kind o ≠ OK_Done → ad_sessions a !! ow_handle o = Some (ow_session o)).

Record owners_ok ops a : Prop := {
  oo_bound : ∀ i o, owner a i = Some o → (key_id i < ad_next a)%nat ∧ ow_handle o ∈ omap prompted_handle ops;
  oo_unique : ∀ i j o1 o2, owner a i = Some o1 → owner a j = Some o2 → ow_handle o1 = ow_handle o2 → i = j;
  oo_holds : ∀ i o, owner a i = Some o → holds a i o;
  oo_listed : ∀ handle s, ad_sessions a !! handle = Some s →
    handle ∈ omap started_handle ops ∧ (s < ad_next a)%nat ∧ is_Some (ad_heap a !! s);
  oo_injective : ∀ h1 h2 s, ad_sessions a !! h1 = Some s → ad_sessions a !! h2 = Some s → h1 = h2;
}.

(** ** What an operation does to the owners *)

(** Nothing *)
Record quiet a a' : Prop := {
  qu_owner : ∀ j, owner a' j = owner a j;
  qu_sessions : ad_sessions a' = ad_sessions a;
  qu_heap : ∀ s, locks <$> ad_heap a' !! s = locks <$> ad_heap a !! s;
  qu_next : (ad_next a ≤ ad_next a')%nat;
}.

(** The owner [i] steps, and becomes [i'] when it goes on as a task. *)
Record acts a i o a' i' : Prop := {
  ac_owner : owner a i = Some o;
  ac_active : ow_kind o ≠ OK_Done;
  ac_id : i' = i ∨ key_id i' = ad_next a ∧ owner a' i = None ∧ ∃ p, i = inl p;
  ac_others : ∀ j, j ≠ i → j ≠ i' → owner a' j = owner a j;
  ac_heap : ∀ s, s ≠ ow_session o → ad_heap a' !! s = ad_heap a !! s;
  ac_session : is_Some (ad_heap a !! ow_session o) → is_Some (ad_heap a' !! ow_session o);
  ac_table : ad_sessions a' = ad_sessions a ∨ ad_sessions a' = delete (ow_handle o) (ad_sessions a);
  ac_next : (ad_next a ≤ ad_next a')%nat ∧ (i' = i ∨ key_id i' < ad_next a')%nat;
  ac_new : ∀ o', owner a' i' = Some o' →
    ow_handle o' = ow_handle o ∧ ow_session o' = ow_session o ∧
    (holds a i o → holds a' i' o') ∧ (live o' → live o ∨ ad_shutting_down a = false);
}.

(** A session is started with a handle that was not used. *)
Record starts a handle a' : Prop := {
  st_owner : ∀ j, owner a' j = owner a j;
  st_sessions : ad_sessions a' = <[handle := ad_next a]> (ad_sessions a);
  st_heap : ad_heap a' = <[ad_next a := LocalSession_default]> (ad_heap a);
  st_next : ad_next a' = S (ad_next a);
}.

(** A call enters with a session of the table. *)
Record enters a handle s a' : Prop := {
  en_listed : ad_sessions a !! handle = Some s;
  en_new : ∃ o, owner a' (inl (ad_next a)) = Some o ∧ ow_handle o = handle ∧
                ow_session o = s ∧ ow_kind o = OK_Waiting;
  en_others : ∀ j, j ≠ inl (ad_next a) → owner a' j = owner a j;
  en_sessions : ad_sessions a' = ad_sessions a;
  en_heap : ad_heap a' = ad_heap a;
  en_next : ad_next a' = S (ad_next a);
}.

Lemma omap_snoc {B} (f : AdapterOp → option B) ops op x :
  x ∈ omap f ops → x ∈ omap f (ops ++ [op]).
Proof. rewrite omap_app. set_solver. Qed.

Lemma holds_heap a a' i o :
  (ow_kind o ≠ OK_Done →
     locks <$> ad_heap a' !! ow_session o = locks <$> ad_heap a !! ow_session o ∧
     ad_sessions a' !! ow_handle o = ad_sessions a !! ow_handle o) →
  holds a i o → holds a' i o.
Proof.
  unfold holds. intros Heq [Hh Hs]. split; [|intros Hk; destruct (Heq Hk) as [_ ->]; auto].
  destruct (ow_kind o); try done; by destruct Heq as [-> _].
Qed.

Lemma owners_quiet ops op a a' : quiet a a' → owners_ok ops a → owners_ok (ops ++ [op]) a'.
Proof.
  intros [Ho Hs Hh Hn] [Hb Hu Hho Hl Hi]. split.
  - intros i o. rewrite Ho. intros [? ?]%Hb. split; [lia|by apply omap_snoc].
  - intros i j o1 o2. rewrite !Ho. apply Hu.
  - intros i o. rewrite Ho. intros Hi'%Hho. eapply holds_heap; [|done]. intros _. by rewrite Hh, Hs.
  - intros handle s. rewrite Hs. intros (? & ? & [l Hl'])%Hl. split_and!; [by apply omap_snoc|lia|].
    specialize (Hh s). rewrite Hl' in Hh. by destruct (ad_heap a' !! s).
  - intros h1 h2 s. rewrite Hs. apply Hi.
Qed.

Lemma owners_starts ops handle a a' :
  handle ∉ omap started_handle ops → starts a handle a' → owners_ok ops a →
  owners_ok (ops ++ [Op_StartSession handle]) a'.
Proof.
  intros Hnew [Ho Hs Hh Hn] [Hb Hu Hho Hl Hi].
  assert (∀ h s, ad_sessions a !! h = Some s → h ≠ handle ∧ s ≠ ad_next a) as Hother.
  { intros h s Hhs. destruct (Hl _ _ Hhs) as (Hin & Hlt & _). split; [by intros ->|lia]. }
  split.
  - intros i o. rewrite Ho. intros [? ?]%Hb. split; [lia|by apply omap_snoc].
  - intros i j o1 o2. rewrite !Ho. apply Hu.
  - intros i o. rewrite Ho. intros Hio. pose proof (Hho _ _ Hio) as Hh'. eapply holds_heap; [|done].
    intros Hk. destruct Hh' as [_ Hsess]. specialize (Hsess Hk). destruct (Hother _ _ Hsess).
    by rewrite Hs, Hh, !lookup_insert_ne.
  - intros h s. rewrite Hs, Hh, Hn. intros [[<- <-]|[Hne Hhs]]%lookup_insert_Some.
    + split_and!; [rewrite omap_app; set_solver|lia|by rewrite lookup_insert_eq].
    + destruct (Hl _ _ Hhs) as (? & ? & ?). destruct (Hother _ _ Hhs).
      split_and!; [by apply omap_snoc|lia|by rewrite lookup_insert_ne].
  - intros h1 h2 s. rewrite Hs.
    intros [[<- <-]|[? H1]]%lookup_insert_Some [[<- ?]|[? H2]]%lookup_insert_Some; try done.
    + by destruct (Hother _ _ H2).
    + subst. by destruct (Hother _ _ H1).
    + by eapply Hi.
Qed.

Lemma owners_enters ops handle prompt s a a' :
  handle ∉ omap prompted_handle ops → enters a handle s a' → owners_ok ops a →
  owners_ok (ops ++ [Op_Prompt handle prompt]) a'.
Proof.
  intros Hnew [Hlist (o' & Ho' & Hoh & Hos & Hok) Hoth Hs Hh Hn] [Hb Hu Hho Hl Hi].
  assert (∀ j o, owner a' j = Some o → j = inl (ad_next a) ∧ o = o' ∨ owner a j = Some o) as Hcase.
  { intros j o Hj. destruct (decide (j = inl (ad_next a))) as [->|]; [left; split; congruence|].
    right. by rewrite <- Hoth. }
  split.
  - intros j o [[-> ->]|[? ?]%Hb]%Hcase; simpl.
    + split; [lia|]. rewrite omap_app. set_solver.
    + split; [lia|by apply omap_snoc].
  - intros i j o1 o2 [[-> ->]|H1]%Hcase [[-> ->]|H2]%Hcase Heq; [done| | |by eapply Hu].
    + apply Hb in H2 as [_ H2]. by rewrite <- Heq, Hoh in H2.
    + apply Hb in H1 as [_ H1]. by rewrite Heq, Hoh in H1.
  - intros j o [[-> ->]|Hj]%Hcase.
    + unfold holds. rewrite Hok, Hs, Hoh, Hos. done.
    + eapply holds_heap; [|by apply Hho]. intros _. by rewrite Hs, Hh.
  - intros h s'. rewrite Hs, Hh, Hn. intros (? & ? & ?)%Hl. split_and!; [by apply omap_snoc|lia|done].
  - intros h1 h2 s'. rewrite Hs. apply Hi.
Qed.

Lemma owners_acts ops op a i o a' i' : acts a i o a' i' → owners_ok ops a → owners_ok (ops ++ [op]) a'.
Proof.
  intros [Hi Hlive Hid Hoth Hheap Hsess Htab [Hn1 Hn2] Hnew] [Hb Hu Hho Hl Hinj].
  destruct (Hho _ _ Hi) as [_ Hsi]. specialize (Hsi Hlive).
  assert (∀ j o2, owner a' j = Some o2 → j = i' ∨ j ≠ i ∧ owner a j = Some o2) as Hcase.
  { intros j o2 Hj. destruct (decide (j = i')) as [->|Hne']; [by left|]. right.
    destruct (decide (j = i)) as [->|Hne]; [|by rewrite <- Hoth].
    destruct Hid as [->|(_ & Hnone & _)]; [done|congruence]. }
  assert (∀ h s, ad_sessions a' !! h = Some s → ad_sessions a !! h = Some s) as Hsub.
  { intros h s Hhs. destruct Htab as [Htab|Htab]; rewrite Htab in Hhs; [done|].
    by apply lookup_delete_Some in Hhs as [_ ?]. }
  split.
  - intros j o2 Hj. destruct (Hcase _ _ Hj) as [->|[_ Hj']].
    + destruct (Hnew _ Hj) as (-> & _). destruct (Hb _ _ Hi).
      split; [destruct Hn2 as [->|]; lia|by apply omap_snoc].
    + destruct (Hb _ _ Hj'). split; [lia|by apply omap_snoc].
  - intros j1 j2 o1 o2 H1 H2 Heq. pose proof (Hcase _ _ H1) as [->|[Hne1 H1']];
      pose proof (Hcase _ _ H2) as [->|[Hne2 H2']]; [done| | |by eapply Hu].
    + destruct (Hnew _ H1) as (Hh1 & _). destruct Hne2. eapply Hu; [done|done|congruence].
    + destruct (Hnew _ H2) as (Hh2 & _). destruct Hne1. eapply Hu; [done|done|congruence].
  - intros j o2 Hj. destruct (Hcase _ _ Hj) as [->|[Hne Hj']].
    + destruct (Hnew _ Hj) as (_ & _ & Hho' & _). by apply Hho', Hho.
    + pose proof (Hho _ _ Hj') as Hold. eapply holds_heap; [|done]. intros Hk.
      destruct Hold as [_ Hsj]. specialize (Hsj Hk).
      assert (ow_handle o2 ≠ ow_handle o) as Hhne by (intros Heq; destruct Hne; by eapply Hu).
      assert (ow_session o2 ≠ ow_session o) as Hsne.
      { intros Heq. apply Hhne. eapply Hinj; [done|]. by rewrite Heq. }
      rewrite Hheap by done. split; [done|].
      destruct Htab as [Htab|Htab]; rewrite Htab; [done|by rewrite lookup_delete_ne].
  - intros h s Hhs%Hsub. destruct (Hl _ _ Hhs) as (? & ? & Hsome). split_and!; [by apply omap_snoc|lia|].
    destruct (decide (s = ow_session o)) as [->|]; [by apply Hsess|by rewrite Hheap].
  - intros h1 h2 s H1%Hsub H2%Hsub. by eapply Hinj.
Qed.

(** ** The operations *)

Lemma drop_guard_spec a handle s attempt_id :
  let a' := drop_guard handle s attempt_id a in
  ad_prompts a' = ad_prompts a ∧ ad_attempts a' = ad_attempts a ∧ ad_next a' = ad_next a ∧
  ad_shutdowns a' = ad_shutdowns a ∧ ad_shutting_down a' = ad_shutting_down a ∧
  (∀ s', s' ≠ s → ad_heap a' !! s' = ad_heap a !! s') ∧
  (is_Some (ad_heap a !! s) → is_Some (ad_heap a' !! s)) ∧
  (ad_sessions a' = ad_sessions a ∨ ad_sessions a' = delete handle (ad_sessions a)).
Proof.
  unfold drop_guard. case_decide; simpl; split_and!; auto;
    (intros s' Hne; by rewrite !lookup_alter_ne) ||
    (intros [l Hl]; by rewrite !lookup_alter_eq, Hl).
Qed.

(** A session is changed without touching its locks. *)
Lemma quiet_heap a s f :
  (∀ l, ad_heap a !! s = Some l → locks (f l) = locks l) → quiet a (on_session s f a).
Proof.
  intros Hf. split; try done. intros s'. simpl. destruct (decide (s' = s)) as [->|Hne].
  - rewrite lookup_alter_eq. destruct (ad_heap a !! s) as [l|] eqn:Hl; simpl; [|done]. by rewrite Hf.
  - by rewrite lookup_alter_ne.
Qed.

Lemma quiet_trans a1 a2 a3 : quiet a1 a2 → quiet a2 a3 → quiet a1 a3.
Proof.
  intros [H1 H2 H3 H4] [H1' H2' H3' H4']. split; [|congruence| |lia].
  - intros j. by rewrite H1', H1.
  - intros s. by rewrite H3', H3.
Qed.

(** A task changes, and whether it has ended does not. *)
Lemma quiet_task a t task task' :
  ad_attempts a !! t = Some task → task_own task' = task_own task → quiet a (set_task a t task').
Proof.
  intros Ht Hown. split; try done. intros [p|u]; simpl; [done|].
  destruct (decide (u = t)) as [->|Hne]; [by rewrite lookup_insert_eq, Ht; simpl; rewrite Hown|].
  by rewrite lookup_insert_ne.
Qed.

(** A call with the guard goes on with it. *)
Lemma quiet_phase a p call phase :
  ad_prompts a !! p = Some call → pc_phase call ≠ PP_Waiting → phase ≠ PP_Waiting →
  quiet a (set_phase a p call phase).
Proof.
  intros Hp Hph Hph'. split; try done. intros [q|u]; simpl; [|done].
  destruct (decide (q = p)) as [->|Hne].
  - rewrite lookup_insert_eq, Hp. simpl. unfold call_own. simpl.
    by destruct phase, (pc_phase call).
  - by rewrite lookup_insert_ne.
Qed.

(** The call ends. *)
Lemma acts_removed a a1 p call :
  ad_prompts a !! p = Some call →
  ad_prompts a1 = ad_prompts a → ad_attempts a1 = ad_attempts a → ad_next a1 = ad_next a →
  (∀ s, s ≠ pc_session call → ad_heap a1 !! s = ad_heap a !! s) →
  (is_Some (ad_heap a !! pc_session call) → is_Some (ad_heap a1 !! pc_session call)) →
  (ad_sessions a1 = ad_sessions a ∨ ad_sessions a1 = delete (pc_handle call) (ad_sessions a)) →
  acts a (inl p) (call_own call) (with_prompts (delete p (ad_prompts a1)) a1) (inl p).
Proof.
  intros Hp Hpr Hat Hn Hh1 Hh2 Hs. split; simpl; try done.
  - by rewrite Hp.
  - unfold call_own. simpl. by destruct (pc_phase call).
  - by left.
  - intros [q|u] Hne _; simpl; [|by rewrite Hat]. rewrite Hpr, lookup_delete_ne; [done|]. congruence.
  - rewrite Hn. auto.
  - intros o'. by rewrite lookup_delete_eq.
Qed.

Lemma acts_fail a a1 p call failure :
  ad_prompts a !! p = Some call →
  ad_prompts a1 = ad_prompts a → ad_attempts a1 = ad_attempts a → ad_next a1 = ad_next a →
  ad_sessions a1 = ad_sessions a →
  (∀ s, s ≠ pc_session call → ad_heap a1 !! s = ad_heap a !! s) →
  (is_Some (ad_heap a !! pc_session call) → is_Some (ad_heap a1 !! pc_session call)) →
  acts a (inl p) (call_own call) (fail_prompt a1 p call failure).1 (inl p).
Proof.
  intros Hp Hpr Hat Hn Hs Hh1 Hh2. unfold fail_prompt.
  destruct (drop_guard_spec a1 (pc_handle call) (pc_session call) (pp_attempt_id (pc_prompt call)))
    as (Dp & Da & Dn & _ & _ & Dh1 & Dh2 & Ds).
  apply acts_removed; simpl; [done|congruence|congruence|congruence| | |].
  - intros s Hne. rewrite lookup_alter_ne, Dh1 by done. by apply Hh1.
  - intros [l Hl]%Hh2%Dh2. by rewrite lookup_alter_eq, Hl.
  - rewrite <- Hs. done.
Qed.

Lemma call_own_guarded call : pc_phase call ≠ PP_Waiting → ow_kind (call_own call) = OK_Guarded.
Proof. unfold call_own. simpl. by destruct (pc_phase call). Qed.

(** A call gets the lock and the guard. *)
Lemma acts_locked a p call l l0 :
  ad_prompts a !! p = Some call → pc_phase call = PP_Waiting → ad_shutting_down a = false →
  ad_heap a !! pc_session call = Some l0 →
  acts a (inl p) (call_own call)
    (set_phase (on_session (pc_session call) (λ _, set_setup (Some p) l) a) p call PP_Spawning) (inl p).
Proof.
  intros Hp Hph Hflag Hl. split; simpl; try done.
  - by rewrite Hp.
  - unfold call_own. simpl. by rewrite Hph.
  - by left.
  - intros [q|u] Hne _; simpl; [|done]. rewrite lookup_insert_ne; [done|congruence].
  - intros s Hne. by rewrite lookup_alter_ne.
  - intros _. by rewrite lookup_alter_eq, Hl.
  - by left.
  - auto.
  - rewrite lookup_insert_eq. simpl. intros o' [= <-]. split_and!; [done|done| |by right].
    unfold holds, call_own; simpl. rewrite Hph, lookup_alter_eq, Hl. simpl. intros [_ Hs].
    split; [done|]. intros _. by apply Hs.
Qed.

(** A call with the guard goes on as a task. *)
Lemma acts_activate a a1 p call l a2 obs :
  ad_prompts a !! p = Some call → pc_phase call ≠ PP_Waiting →
  ad_prompts a1 = ad_prompts a → ad_attempts a1 = ad_attempts a → ad_next a1 = ad_next a →
  ad_sessions a1 = ad_sessions a →
  (∀ s, s ≠ pc_session call → ad_heap a1 !! s = ad_heap a !! s) →
  is_Some (ad_heap a1 !! pc_session call) → locks <$> ad_heap a !! pc_session call = Some (locks l) →
  prompt_activate a1 p call l = (a2, obs) →
  quiet a a2 ∨ acts a (inl p) (call_own call) a2 (inr (ad_next a)).
Proof.
  intros Hp Hph Hpr Hat Hn Hs Hh1 Hh2 Hl. unfold prompt_activate.
  destruct (take_pending_cancellation _ l) as [l' cancelled] eqn:Htake.
  assert (locks l' = locks l) as Hl' by (unfold take_pending_cancellation in Htake; by simplify_eq/=).
  destruct cancelled; intros [= <- _].
  - left. split; simpl; [|done| |lia].
    + intros [q|u]; simpl; [|by rewrite Hat]. rewrite Hpr. destruct (decide (q = p)) as [->|Hne].
      * rewrite lookup_insert_eq, Hp. unfold call_own; simpl. by destruct (pc_phase call).
      * by rewrite lookup_insert_ne.
    + intros s. destruct (decide (s = pc_session call)) as [->|Hne].
      * rewrite lookup_alter_eq. destruct Hh2 as [l1 ->]. simpl. by rewrite Hl, Hl'.
      * by rewrite lookup_alter_ne, Hh1.
  - right. split; simpl.
    + by rewrite Hp.
    + by destruct (pc_phase call).
    + right. split_and!; [done|by rewrite Hpr, lookup_delete_eq|eauto].
    + intros [q|u] Hne Hne'; simpl.
      * rewrite Hpr, lookup_delete_ne; [done|congruence].
      * rewrite Hat, Hn, lookup_insert_ne; [done|congruence].
    + intros s Hne. rewrite !lookup_alter_ne by done. by apply Hh1.
    + intros _. destruct Hh2 as [l1 Hl1]. by rewrite !lookup_alter_eq, Hl1.
    + by left.
    + rewrite Hn. split; [lia|right; lia].
    + rewrite Hn, lookup_insert_eq. simpl. intros o' [= <-]. split_and!; [done|done| |].
      * unfold holds; simpl. intros [_ Hss].
        destruct Hh2 as [l1 Hl1]. rewrite !lookup_alter_eq, Hl1. simpl. split; [done|].
        intros _. rewrite Hs. apply Hss. by destruct (pc_phase call).
      * intros _. left. left. by apply call_own_guarded.
Qed.

(** A task ends and drops its guard. *)
Lemma acts_ended a a' t task task' :
  ad_attempts a !! t = Some task → at_state task ≠ AS_Done →
  (let a1 := drop_guard (at_handle task) (at_session task) (at_attempt_id task) a in
   ad_prompts a' = ad_prompts a1 ∧ ad_attempts a' = <[t := task']> (ad_attempts a1) ∧
   ad_next a' = ad_next a1 ∧ ad_heap a' = ad_heap a1 ∧ ad_sessions a' = ad_sessions a1) →
  at_handle task' = at_handle task → at_session task' = at_session task → at_state task' = AS_Done →
  acts a (inr t) (task_own task) a' (inr t).
Proof.
  intros Ht Hst (Hpr & Hat & Hn & Hheap & Hs) Hh Hses Hdone.
  destruct (drop_guard_spec a (at_handle task) (at_session task) (at_attempt_id task))
    as (Dp & Da & Dn & _ & _ & Dh1 & Dh2 & Ds).
  split; simpl.
  - by rewrite Ht.
  - unfold task_own. simpl. by destruct (at_state task).
  - by left.
  - intros [q|u] Hne _; simpl; [by rewrite Hpr, Dp|].
    rewrite Hat, Da, lookup_insert_ne; [done|congruence].
  - intros s Hne. rewrite Hheap. by apply Dh1.
  - rewrite Hheap. done.
  - rewrite Hs. done.
  - rewrite Hn, Dn. auto.
  - rewrite Hat, lookup_insert_eq. simpl. intros o' [= <-]. split_and!; [done|done| |].
    + intros _. unfold holds, task_own; simpl. by rewrite Hdone.
    + unfold live, task_own; simpl. rewrite Hdone. by intros [?|?].
Qed.

Definition own_effect a op a' : Prop :=
  quiet a a' ∨
  (∃ handle, op = Op_StartSession handle ∧ starts a handle a') ∨
  (∃ handle prompt s, op = Op_Prompt handle prompt ∧ enters a handle s a') ∨
  (∃ i o i', acts a i o a' i').

Lemma quiet_refl a : quiet a a.
Proof. by split. Qed.

(** Calls of [cancel] and [shutdown] own nothing. *)
Lemma quiet_calls a a' :
  ad_prompts a' = ad_prompts a → ad_attempts a' = ad_attempts a → ad_sessions a' = ad_sessions a →
  ad_heap a' = ad_heap a → (ad_next a ≤ ad_next a')%nat → quiet a a'.
Proof.
  intros Hp Ha Hs Hh Hn. split; [|done|by rewrite Hh|done].
  intros [p|t]; simpl; by rewrite ?Hp, ?Ha.
Qed.

Lemma quiet_respond a0 a c status : quiet a0 a → quiet a0 (respond_cancel a c status).1.
Proof.
  intros Hq. eapply quiet_trans; [done|]. unfold respond_cancel.
  destruct (ad_cancels a !! c); simpl; [by apply quiet_calls|apply quiet_refl].
Qed.

Lemma locked_own a p call l id op :
  ad_prompts a !! p = Some call → pc_phase call = PP_Waiting → ad_heap a !! pc_session call = Some l →
  own_effect a op (prompt_locked a p call l id).1.
Proof.
  intros Hp Hph Hl. unfold prompt_locked. right; right; right.
  destruct (require_dispatchable a) as [[]|] eqn:Hd; simpl.
  2:{ eexists _, _, _. by apply acts_removed; try done; [left]. }
  assert (ad_shutting_down a = false) as Hflag by (unfold require_dispatchable in Hd; by case_match).
  destruct (ls_active l); simpl.
  { eexists _, _, _. by apply acts_removed; try done; [left]. }
  assert (∀ failure l1, acts a (inl p) (call_own call)
    (fail_prompt (on_session (pc_session call) (λ _, l1) a) p call failure).1 (inl p)) as Hfail.
  { intros failure l1. apply acts_fail; try done; simpl.
    - intros s Hne. by rewrite lookup_alter_ne.
    - intros _. by rewrite lookup_alter_eq, Hl. }
  destruct (bool_decide _); [eexists _, _, _; apply Hfail|].
  destruct (ap_prepare id (pc_prompt call)); [|eexists _, _, _; apply Hfail].
  eexists _, _, _. by eapply acts_locked.
Qed.

Lemma spawned_own a p call l spawned op :
  ad_prompts a !! p = Some call → pc_phase call = PP_Spawning → ad_heap a !! pc_session call = Some l →
  own_effect a op (prompt_spawned a p call l spawned).1.
Proof.
  intros Hp Hph Hl. unfold prompt_spawned.
  assert (pc_phase call ≠ PP_Waiting) as Hne by by rewrite Hph.
  destruct spawned; [|right; right; right; eexists _, _, _; by apply acts_fail].
  destruct (require_dispatchable a) as [[]|]; [|left; by apply quiet_phase].
  destruct (take_pending_cancellation _ l) as [l' cancelled] eqn:Htake.
  assert (locks l' = locks l) as Hl' by (unfold take_pending_cancellation in Htake; by simplify_eq/=).
  assert (quiet a (on_session (pc_session call) (λ _, l') a)) as Hq.
  { apply quiet_heap. intros l1 Hl1. rewrite Hl in Hl1. by injection Hl1 as <-. }
  destruct cancelled; [left; eapply quiet_trans; [done|by apply quiet_phase]|].
  destruct ap_writes; [left; eapply quiet_trans; [done|by apply quiet_phase]|].
  destruct (prompt_activate _ p call l') as [a2 obs] eqn:Hact. simpl.
  eapply (acts_activate a) in Hact as [?|?]; try done; simpl.
  - by left.
  - right; right; right. eauto.
  - intros s Hne'. by rewrite lookup_alter_ne.
  - by rewrite lookup_alter_eq, Hl.
  - by rewrite Hl, Hl'.
Qed.

Lemma reaped_own a t task ending report op :
  ad_attempts a !! t = Some task → at_state task = AS_Reaping ending →
  own_effect a op (attempt_reaped a t task ending report).1.
Proof.
  intros Ht Hs. right; right; right. exists (inr t), (task_own task), (inr t).
  assert (at_state task ≠ AS_Done) as Hne by by rewrite Hs.
  unfold attempt_reaped. destruct ending as [c status|d|item|]; simpl.
  - unfold respond_cancel. case_match; simpl; by eapply acts_ended; [done|done|by split_and!|..].
  - by eapply acts_ended; [done|done|by split_and!|..].
  - destruct (queue _ _) as [task'|] eqn:Hq; simpl; [|by eapply acts_ended; [done|done|by split_and!|..]].
    apply queue_Some in Hq as [_ ->]. by eapply acts_ended; [done|done|by split_and!|..].
  - by eapply acts_ended; [done|done|by split_and!|..].
Qed.

Lemma task_own_running task state :
  at_state task ≠ AS_Done → state ≠ AS_Done → task_own (to_state state task) = task_own task.
Proof. intros H1 H2. unfold task_own. simpl. by destruct state, (at_state task). Qed.

Lemma deliver_own task items :
  at_state task = AS_Running → task_own (deliver task items) = task_own task.
Proof.
  revert task. induction items as [|item items IH]; intros task Hs; simpl; [done|].
  case_match; [by apply task_own_running; rewrite ?Hs|].
  destruct (queue task item) as [task'|] eqn:Hq; [|by apply task_own_running; rewrite ?Hs].
  apply queue_Some in Hq as [_ ->]. by rewrite IH.
Qed.

Lemma inbound_own nw task frame :
  at_state task = AS_Running → task_own (attempt_inbound nw task frame) = task_own task.
Proof.
  intros Hs. unfold attempt_inbound. destruct (next nw frame) as [[inbound|]|]; try by apply deliver_own.
  destruct (ap_normalize inbound _) as [n items]. by rewrite deliver_own.
Qed.

Lemma wake_own task : at_state task = AS_Spawned → task_own (attempt_wake task) = task_own task.
Proof.
  intros Hs. unfold attempt_wake. destruct (queue task _) as [task'|] eqn:Hq.
  - apply queue_Some in Hq as [_ ->]. unfold task_own. simpl. by rewrite Hs.
  - by apply task_own_running; rewrite ?Hs.
Qed.

Lemma command_own a t task op :
  ad_attempts a !! t = Some task → at_state task = AS_Running →
  own_effect a op (attempt_command a t task).1.
Proof.
  intros Ht Hs. left. unfold attempt_command.
  destruct (at_commands task) as [|[requested cb c|d] commands]; [apply quiet_refl| |].
  - case_decide; simpl.
    + eapply quiet_task; [done|]. unfold task_own; simpl. by rewrite Hs.
    + apply quiet_respond. eapply quiet_task; [done|]. done.
  - eapply quiet_task; [done|]. unfold task_own; simpl. by rewrite Hs.
Qed.

(** A command is put into the channel of a task. *)
Lemma quiet_commands a a' t task commands :
  ad_attempts a !! t = Some task → quiet (set_task a t (with_commands commands task)) a' → quiet a a'.
Proof. intros Ht. apply quiet_trans. by eapply quiet_task. Qed.

Lemma quiet_send a c call : quiet a (cancel_send a c call).
Proof.
  unfold cancel_send. destruct (ad_attempts a !! cc_task call) as [task|] eqn:Ht; [|apply quiet_refl].
  case_match; [|apply quiet_refl]. eapply quiet_commands; [done|]. by apply quiet_calls.
Qed.

Lemma quiet_shutdown_send a d call t : quiet a (shutdown_send a d call t).
Proof.
  unfold shutdown_send. destruct (ad_attempts a !! t) as [task|] eqn:Ht; [|apply quiet_refl].
  case_match; [|apply quiet_refl].
  destruct (at_state task); try (by apply quiet_calls);
    (case_match; [|apply quiet_refl]; eapply quiet_commands; [done|]; by apply quiet_calls).
Qed.

(** The return of [shutdown] clears the table. *)
Definition returns op : bool :=
  match op with Op_ShutdownEnd _ | Op_ShutdownTimeout _ => true | _ => false end.

Lemma apply_op_own a op : returns op = false → own_effect a op (apply_op a op).1.
Proof.
  assert (own_effect a op a) as Hrefl by (left; apply quiet_refl).
  intros Hret. destruct op; simpl; unfold on_prompt, on_task, on_shutdown; try done.
  - unfold start_session. case_match; [|done]. right; left. eexists. by split.
  - unfold prompt_begin. destruct (let? _ := _ in _) as [s|] eqn:He; [|done]. simpl.
    assert (ad_sessions a !! handle = Some s) as Hs.
    { unfold session in He. repeat first [progress simplify_eq/=|case_match]; try done.
      destruct (ad_sessions a !! handle); by simplify_eq/=. }
    right; right; left. exists handle, prompt, s. split; [done|]. split; try done; simpl.
    + eexists. by rewrite lookup_insert_eq.
    + intros [q|u] Hne; simpl; [|done]. rewrite lookup_insert_ne; [done|congruence].
  - repeat case_match; try done. by apply locked_own.
  - repeat case_match; try done. by apply spawned_own.
  - repeat case_match; try done. unfold prompt_written. case_match; [|left; by apply quiet_phase; [|congruence|]].
    destruct (prompt_activate _ _ _ _) as [a2 obs] eqn:Hact. simpl.
    match goal with E : ad_heap a !! _ = _ |- _ => rename E into Hl end.
    eapply (acts_activate a) in Hact as [?|?]; try done; [by left|right; right; right; eauto|..];
      first [congruence|by rewrite Hl].
  - repeat case_match; try done. right; right; right. eexists _, _, _. by apply acts_fail.
  - repeat case_match; try done. right; right; right. eexists _, _, _. unfold prompt_dropped.
    case_match; try (by apply acts_fail). by apply acts_removed; try done; [left].
  - repeat case_match; try done. left. by eapply quiet_task, wake_own.
  - repeat case_match; try done. left. by eapply quiet_task, inbound_own.
  - repeat case_match; try done. by apply command_own.
  - repeat case_match; try done. left. eapply quiet_task; [done|]. by apply task_own_running; [congruence|].
  - repeat case_match; try done. left. eapply quiet_task; [done|]. by apply task_own_running; [congruence|].
  - repeat case_match; try done. by apply reaped_own.
  - unfold receive. repeat case_match; try done. left. by eapply quiet_task.
  - repeat case_match; try done. left. by eapply quiet_task.
  - unfold cancel_begin. repeat case_match; try done.
    + left. match goal with E : (_ ≫= _) = Some _ |- _ => rename E into Hact end.
      apply bind_Some in Hact as (l & Hl & Hact).
      eapply (quiet_trans _ (on_session _ (set_active (Some (mark_sent _))) a));
        [|apply quiet_calls; simpl; [done|done|done|done|lia]].
      apply quiet_heap. intros l1 Hl1. rewrite Hl in Hl1. injection Hl1 as <-.
      unfold locks. simpl. by rewrite Hact.
    + left. by apply quiet_heap.
  - case_match; [|done]. left. by apply quiet_send.
  - left. apply quiet_respond, quiet_refl.
  - left. apply quiet_calls; simpl; [done|done|done|done|lia].
  - case_match; [|done]. left. unfold shutdown_inspect. repeat case_match; try apply quiet_refl.
    by apply quiet_calls.
  - case_match; [|done]. left. by apply quiet_shutdown_send.
  - case_match; [|done]. left. unfold shutdown_lost. repeat case_match; try apply quiet_refl.
    by apply quiet_calls.
Qed.

(** ** While a shutdown is under way *)

Lemma live_before a op a' j o' :
  own_effect a op a' → ad_shutting_down a = true → owner a' j = Some o' → live o' →
  ∃ i o, owner a i = Some o ∧ live o ∧ ow_session o = ow_session o' ∧ (i = j ∨ ∃ p, i = inl p).
Proof.
  intros [[Ho _ _ _]|[(h & _ & [Ho _ _ _])|[(h & prompt & s & _ & Hen)|(i & o & i' & Hac)]]] Hflag Hj Hlive.
  - rewrite Ho in Hj. eauto 10.
  - rewrite Ho in Hj. eauto 10.
  - destruct Hen as [_ (o1 & Ho1 & _ & _ & Hk) Hoth _ _ _].
    destruct (decide (j = inl (ad_next a))) as [->|Hne]; [|rewrite Hoth in Hj by done; eauto 10].
    simplify_eq. destruct Hlive; congruence.
  - destruct Hac as [Hi _ Hid Hoth _ _ _ _ Hnew].
    destruct (decide (j = i')) as [->|Hne'].
    + destruct (Hnew _ Hj) as (_ & Hs & _ & Hl). destruct (Hl Hlive) as [Hl'|]; [|congruence].
      exists i, o. split_and!; [done|done|done|]. destruct Hid as [->|(_ & _ & Hp)]; auto.
    + destruct (decide (j = i)) as [->|Hne].
      * destruct Hid as [->|(_ & Hnone & _)]; [done|congruence].
      * rewrite Hoth in Hj by done. eauto 10.
Qed.

Definition bad (call : ShutdownCall) : Prop := sr_reaped (aggregate (sd_reports call)) = false.

(** Every child is of a session to inspect, or of a task that will be told or was. *)
Definition tracked a (call : ShutdownCall) : Prop :=
  bad call ∨
  ∀ i o, owner a i = Some o → live o →
    ow_session o ∈ sd_inspect call ∨ ∃ t, i = inr t ∧ (t ∈ sd_send call ∨ t ∈ sd_wait call).

Lemma aggregate_snoc reports report :
  sr_reaped (aggregate (reports ++ [report])) =
  sr_reaped (aggregate reports) && match report with Some r => sr_reaped r | None => false end.
Proof. unfold aggregate. rewrite foldl_app. simpl. destruct report; simpl; [done|]. by rewrite andb_false_r. Qed.

Lemma bad_report t report call : bad call → bad (with_report t report call).
Proof. unfold bad. simpl. rewrite aggregate_snoc. by intros ->. Qed.

Lemma bad_lost t call : bad (with_report t None call).
Proof. unfold bad. simpl. by rewrite aggregate_snoc, andb_false_r. Qed.

Lemma tracked_step a op a' call :
  own_effect a op a' → ad_shutting_down a = true → tracked a call → tracked a' call.
Proof.
  intros Heff Hflag [Hbad|Htr]; [by left|right]. intros j o' Hj Hlive.
  destruct (live_before _ _ _ _ _ Heff Hflag Hj Hlive) as (i & o & Hi & Hl & Hs & Hij).
  destruct (Htr _ _ Hi Hl) as [Hin|(t & -> & Hin)]; [left; by rewrite <- Hs|right].
  destruct Hij as [<-|[p Hp]]; [eauto|done].
Qed.

Lemma tracked_reaped a op a' call t report o1 :
  own_effect a op a' → ad_shutting_down a = true → tracked a call →
  owner a' (inr t) = Some o1 → ow_kind o1 = OK_Done → tracked a' (with_report t report call).
Proof.
  intros Heff Hflag Htr H1 Hdone.
  destruct (tracked_step _ _ _ _ Heff Hflag Htr) as [?|Htr']; [left; by apply bad_report|right].
  intros i o Hi Hl. destruct (Htr' _ _ Hi Hl) as [?|(t' & -> & [?|Hin])]; [by left|right; eauto|].
  right. exists t'. split; [done|]. right. apply list_elem_of_In, filter_In. apply list_elem_of_In in Hin.
  split; [done|]. destruct (Nat.eqb_spec t' t) as [->|]; [|done].
  rewrite H1 in Hi. simplify_eq. destruct Hl; congruence.
Qed.

Lemma owner_running a i o : owner a i = Some o → ow_kind o = OK_Running → ∃ t, i = inr t.
Proof.
  destruct i as [p|t]; [|eauto]. simpl. destruct (ad_prompts a !! p) as [call|]; [|done].
  intros [= <-]. unfold call_own. simpl. by destruct (pc_phase call).
Qed.

Lemma tracked_inspect ops a d call s :
  owners_ok ops a → tracked a call → ad_shutdowns a = {[d := call]} →
  ∃ call', ad_shutdowns (shutdown_inspect a d call s) = {[d := call']} ∧
           tracked (shutdown_inspect a d call s) call'.
Proof.
  intros Hok Htr Hd. unfold shutdown_inspect. destruct (ad_heap a !! s) as [l|] eqn:Hl; [|eauto].
  case_bool_decide as Hin; [|eauto]. case_bool_decide as Hfree; [|eauto]. simpl.
  rewrite Hd. eexists. rewrite insert_singleton_eq. split; [done|].
  destruct Htr as [Hbad|Htr]; [by left|right]. intros i o Hi Hlive.
  change (owner a i = Some o) in Hi. simpl.
  destruct (Htr _ _ Hi Hlive) as [Hs|(t & -> & [?|?])]; [|right; set_solver|right; set_solver].
  destruct (decide (ow_session o = s)) as [<-|Hne].
  - right. destruct (oo_holds _ _ Hok _ _ Hi) as [Hh _]. rewrite Hl in Hh.
    destruct Hlive as [Hk|Hk]; rewrite Hk in Hh; simpl in Hh; [congruence|].
    destruct (owner_running _ _ _ Hi Hk) as [t ->]. exists t. split; [done|]. left.
    destruct (ls_active l) as [act|]; simplify_eq/=. set_solver.
  - left. apply list_elem_of_In, filter_In. split; [by apply list_elem_of_In|].
    by destruct (Nat.eqb_spec (ow_session o) s).
Qed.

Lemma tracked_send a d call t :
  tracked a call → ad_shutdowns a = {[d := call]} →
  ∃ call', ad_shutdowns (shutdown_send a d call t) = {[d := call']} ∧ tracked a call'.
Proof.
  intros Htr Hd. unfold shutdown_send. destruct (ad_attempts a !! t) as [task|] eqn:Ht; [|eauto].
  case_bool_decide as Hi; [|eauto]. case_bool_decide as Hin; [|eauto]. simpl.
  assert (∃ call', ad_shutdowns (if accepts task then
      with_shutdowns (<[d := {| sd_inspect := []; sd_send := List.filter (λ t', negb (t' =? t)%nat) (sd_send call);
                                sd_wait := t :: sd_wait call; sd_reports := sd_reports call |}]>
        (ad_shutdowns a)) (set_task a t (with_commands (at_commands task ++ [PC_Shutdown d]) task))
      else a) = {[d := call']} ∧ tracked a call') as Hsend.
  { destruct (accepts task); [|eauto]. simpl. rewrite Hd. eexists. rewrite insert_singleton_eq.
    split; [done|]. destruct Htr as [Hbad|Htr]; [by left|right]. intros i o Hio Hlive.
    destruct (Htr _ _ Hio Hlive) as [Hs|(u & -> & Hu)]; [rewrite Hi in Hs; by apply elem_of_nil in Hs|].
    right. exists u. split; [done|]. simpl. destruct (decide (u = t)) as [->|Hne]; [right; by left|].
    destruct Hu as [Hu|Hu]; [left|right; by right].
    apply list_elem_of_In, filter_In. split; [by apply list_elem_of_In|]. by destruct (Nat.eqb_spec u t). }
  destruct (at_state task); try exact Hsend. simpl. rewrite Hd. eexists. rewrite insert_singleton_eq.
  split; [done|]. left. unfold bad. simpl. by rewrite aggregate_snoc, andb_false_r.
Qed.

(** ** Every run *)

Lemma apply_op_flag a op :
  ad_shutting_down (apply_op a op).1 = ad_shutting_down a || is_shutdown op.
Proof.
  destruct op; simpl; unfold on_prompt, on_task, on_shutdown, start_session, prompt_begin,
    prompt_locked, prompt_spawned, prompt_written, prompt_reaped, prompt_dropped, attempt_command, receive,
    cancel_begin, cancel_send, shutdown_begin, shutdown_inspect, shutdown_send, shutdown_lost, shutdown_end,
    attempt_reaped, prompt_activate, fail_prompt, respond_cancel, respond_shutdown, drop_guard;
    repeat case_match; simplify_eq/=; rewrite ?orb_false_r, ?orb_true_r; done.
Qed.

(** An operation that is not about [shutdown] itself *)
Definition ordinary op : bool :=
  match op with
  | Op_Shutdown | Op_Inspect _ _ | Op_SendShutdown _ _ | Op_ShutdownLost _ _ | Op_ShutdownEnd _
  | Op_ShutdownTimeout _ => false
  | _ => true
  end.

Lemma apply_op_observed a op d report :
  returns op = false → Ob_ShutDown d report ∉ (apply_op a op).2.
Proof.
  destruct op; simpl; intros Hret; try done; unfold on_prompt, on_task, on_shutdown, start_session, prompt_begin,
    prompt_locked, prompt_spawned, prompt_written, prompt_reaped, attempt_command, receive, cancel_begin,
    attempt_reaped, prompt_activate, fail_prompt, respond_cancel;
    repeat case_match; simplify_eq/=; set_solver.
Qed.

Lemma drop_guard_shutdowns a handle s attempt_id :
  ad_shutdowns (drop_guard handle s attempt_id a) = ad_shutdowns a.
Proof. apply drop_guard_spec. Qed.

(** Only a task that ends because it was told answers. *)
Lemma apply_op_shutdowns a op :
  ordinary op = true →
  let a' := (apply_op a op).1 in
  ad_shutdowns a' = ad_shutdowns a ∨
  ∃ t report d o, ad_shutdowns a' = alter (with_report t (Some report)) d (ad_shutdowns a) ∧
    owner a' (inr t) = Some o ∧ ow_kind o = OK_Done.
Proof.
  destruct op; simpl; intros Hord; try done.
  1-12, 14-18: left; unfold on_prompt, on_task, on_shutdown, start_session, prompt_begin, prompt_locked,
    prompt_spawned, prompt_written, prompt_reaped, prompt_dropped, attempt_command, receive, cancel_begin,
    cancel_send, prompt_activate, fail_prompt, respond_cancel, drop_guard; repeat case_match; simplify_eq/=; done.
  unfold on_task. destruct (ad_attempts a !! t) as [task|] eqn:Ht; [|by left].
  destruct (at_state task) as [| | |ending|] eqn:Hs; try by left.
  unfold attempt_reaped. destruct ending as [c status|d|item|]; simpl.
  - left. unfold respond_cancel. case_match; simpl; apply drop_guard_shutdowns.
  - right. exists t, report, d. eexists. rewrite drop_guard_shutdowns, lookup_insert_eq. done.
  - left. apply drop_guard_shutdowns.
  - left. apply drop_guard_shutdowns.
Qed.

(** Before, during and after the call of [shutdown] *)
Definition phase_ok ops a (trace : list Observation) : Prop :=
  let calls := length (List.filter is_shutdown ops) in
  (calls = 0%nat ∧ ad_shutting_down a = false ∧ ad_shutdowns a = ∅ ∧ owners_ok ops a ∧
     ∀ d report, Ob_ShutDown d report ∉ trace) ∨
  (calls = 1%nat ∧ ad_shutting_down a = true ∧ owners_ok ops a ∧
     (∃ d call, ad_shutdowns a = {[d := call]} ∧ tracked a call) ∧
     ∀ d report, Ob_ShutDown d report ∉ trace) ∨
  (calls = 1%nat ∧ ad_shutting_down a = true ∧ ad_shutdowns a = ∅ ∧
     ∀ d report, Ob_ShutDown d report ∈ trace → sr_reaped report = true → no_children a).

Lemma no_children_step a op a' :
  own_effect a op a' → ad_shutting_down a = true → no_children a → no_children a'.
Proof.
  intros Heff Hflag Hno j o' Hj Hlive.
  destruct (live_before _ _ _ _ _ Heff Hflag Hj Hlive) as (i & o & Hi & Hl & _). by eapply Hno.
Qed.

Lemma owners_step ops op a :
  used_once (ops ++ [op]) → returns op = false → owners_ok ops a → owners_ok (ops ++ [op]) (apply_op a op).1.
Proof.
  intros (Hst & Hpr & _) Hret Hok. rewrite !omap_app in *. apply NoDup_app in Hst as (_ & Hst & _).
  apply NoDup_app in Hpr as (_ & Hpr & _).
  destruct (apply_op_own a op Hret) as [Hq|[(h & -> & Hs)|[(h & prompt & s & -> & Hen)|(i & o & i' & Hac)]]].
  - by eapply owners_quiet.
  - eapply owners_starts; [|done|done]. intros Hin. apply (Hst h Hin). simpl. by left.
  - eapply owners_enters; [|done|done]. intros Hin. apply (Hpr h Hin). simpl. by left.
  - by eapply owners_acts.
Qed.

Lemma used_once_prefix ops op : used_once (ops ++ [op]) → used_once ops.
Proof.
  intros (Hst & Hpr & Hlen). rewrite !omap_app in *. rewrite List.filter_app, length_app in Hlen.
  apply NoDup_app in Hst as (? & _ & _). apply NoDup_app in Hpr as (? & _ & _).
  split_and!; [done|done|lia].
Qed.

Lemma calls_snoc ops op :
  length (List.filter is_shutdown (ops ++ [op])) =
  (length (List.filter is_shutdown ops) + (if is_shutdown op then 1 else 0))%nat.
Proof. rewrite List.filter_app, length_app. simpl. by destruct (is_shutdown op). Qed.

(** No call of [shutdown] is under way: the operations about it do nothing. *)
Lemma no_shutdown a op :
  ad_shutdowns a = ∅ → ordinary op = false → is_shutdown op = false → apply_op a op = (a, []).
Proof.
  intros Hd. destruct op; simpl; intros Ho Hs; try done; unfold on_shutdown; by rewrite Hd, lookup_empty.
Qed.

Lemma ordinary_shutdowns_empty a op :
  ordinary op = true → ad_shutdowns a = ∅ → ad_shutdowns (apply_op a op).1 = ∅.
Proof.
  intros Ho Hd. destruct (apply_op_shutdowns a op Ho) as [->|(t & report & d & o & -> & _)]; [done|].
  rewrite Hd. apply map_eq. intros i. destruct (decide (i = d)) as [->|];
    [rewrite lookup_alter_eq|rewrite lookup_alter_ne by done]; by rewrite lookup_empty.
Qed.

Lemma ordinary_facts op : ordinary op = true → returns op = false ∧ is_shutdown op = false.
Proof. by destruct op. Qed.

(** The table lists the session of every child when the shutdown begins. *)
Lemma shutdown_begin_tracked ops a :
  owners_ok ops a → ad_shutdowns a = ∅ →
  ∃ d call, ad_shutdowns (shutdown_begin a).1 = {[d := call]} ∧ tracked (shutdown_begin a).1 call.
Proof.
  intros Hok Hd. simpl. rewrite Hd. eexists _, _. split; [by rewrite insert_empty|]. right.
  intros i o Hi Hlive. left. simpl. change (owner a i = Some o) in Hi.
  destruct (oo_holds _ _ Hok _ _ Hi) as [_ Hs].
  assert (ad_sessions a !! ow_handle o = Some (ow_session o)) as Hl
    by (apply Hs; destruct Hlive as [-> | ->]; done).
  apply list_elem_of_fmap. exists (ow_handle o, ow_session o). split; [done|].
  by apply elem_of_map_to_list.
Qed.

(** One step of the call of [shutdown] *)
Lemma during_step ops op a d call :
  owners_ok ops a → ad_shutting_down a = true → ad_shutdowns a = {[d := call]} → tracked a call →
  is_shutdown op = false → returns op = false →
  ∃ call', ad_shutdowns (apply_op a op).1 = {[d := call']} ∧ tracked (apply_op a op).1 call'.
Proof.
  intros Hok Hflag Hd Htr Hsh Hret. pose proof (apply_op_own a op Hret) as Heff.
  destruct (ordinary op) eqn:Hord.
  - destruct (apply_op_shutdowns a op Hord) as [Heq|(t & report & d' & o & Heq & Ho & Hk)]; rewrite Heq, Hd.
    + exists call. split; [done|]. by eapply tracked_step.
    + destruct (decide (d' = d)) as [->|Hne].
      * rewrite alter_singleton_eq. eexists. split; [done|]. by eapply tracked_reaped.
      * rewrite alter_singleton_ne by done. exists call. split; [done|]. by eapply tracked_step.
  - assert (∀ f : ShutdownCall → Adapter * list Observation,
      on_shutdown a d f = f call) as Hon by (intros f; unfold on_shutdown; by rewrite Hd, lookup_singleton_eq).
    assert (∀ d' (f : ShutdownCall → Adapter * list Observation), d' ≠ d → on_shutdown a d' f = (a, [])) as Hoff
      by (intros d' f Hne; unfold on_shutdown; by rewrite Hd, lookup_singleton_ne).
    destruct op as [| | | | | | | | | | | | | | | | | | |d' s|d' t|d' t|d'|d']; try done; simpl in *;
      (destruct (decide (d' = d)) as [->|Hne]; [rewrite Hon in *; simpl in *|rewrite Hoff by done; eauto]).
    + by eapply tracked_inspect.
    + destruct (tracked_send a d call t Htr Hd) as (call' & Hd' & Htr'). exists call'. split; [done|].
      by eapply tracked_step.
    + unfold shutdown_lost in *. repeat case_match; eauto. simpl. rewrite Hd. eexists.
      rewrite insert_singleton_eq. split; [done|]. left. apply bad_lost.
Qed.

(** The return of [shutdown]: a good report leaves no child. *)
Lemma return_step ops op a d call :
  owners_ok ops a → ad_shutdowns a = {[d := call]} → tracked a call → returns op = true →
  apply_op a op = (a, []) ∨
  (ad_shutdowns (apply_op a op).1 = ∅ ∧ (∀ i, owner (apply_op a op).1 i = owner a i) ∧
   ∃ report, (apply_op a op).2 = [Ob_ShutDown d report] ∧ (sr_reaped report = true → no_children a)).
Proof.
  intros Hok Hd Htr Hret. destruct op as [| | | | | | | | | | | | | | | | | | | | | |d'|d']; try done; simpl;
    unfold on_shutdown; rewrite Hd;
    (destruct (decide (d' = d)) as [->|Hne]; [rewrite lookup_singleton_eq|rewrite lookup_singleton_ne by done; by left]).
  - unfold shutdown_end. case_bool_decide as He; [right|by left]. destruct He as (Hi & Hs & Hw). simpl.
    rewrite Hd, delete_singleton_eq. split_and!; [done|done|]. eexists. split; [done|]. intros Hr.
    destruct Htr as [Hbad|Htr]; [unfold bad in Hbad; congruence|]. intros i o Hio Hlive.
    destruct (Htr _ _ Hio Hlive) as [Hin|(t & _ & [Hin|Hin])]; rewrite ?Hi, ?Hs, ?Hw in Hin;
      by apply elem_of_nil in Hin.
  - right. simpl. rewrite Hd, delete_singleton_eq. split_and!; [done|done|]. by eexists.
Qed.

Lemma phase_step ops op a trace :
  used_once (ops ++ [op]) → phase_ok ops a trace →
  phase_ok (ops ++ [op]) (apply_op a op).1 (trace ++ (apply_op a op).2).
Proof.
  intros Hused Hph. pose proof (apply_op_flag a op) as Hflag'. pose proof (calls_snoc ops op) as Hcalls.
  destruct Hused as (Hst & Hpr & Hlen). unfold phase_ok in *. rewrite Hcalls in *.
  assert (∀ d report, returns op = false → Ob_ShutDown d report ∉ trace →
    Ob_ShutDown d report ∉ trace ++ (apply_op a op).2) as Hobs.
  { intros d report Hret Hno [?|Hin]%elem_of_app; [done|]. by apply apply_op_observed in Hin. }
  destruct Hph as [(Hn & Hf & Hd & Hok & Hno)|[(Hn & Hf & Hok & (d & call & Hd & Htr) & Hno)|(Hn & Hf & Hd & Hno)]].
  - destruct (ordinary op) eqn:Hord.
    + destruct (ordinary_facts op Hord) as [Hret Hsh]. left. rewrite Hflag', Hsh, Hf, Hn.
      split_and!; [done|done|by apply ordinary_shutdowns_empty|by apply owners_step; [split_and!; rewrite ?Hcalls|..]|eauto].
    + destruct (is_shutdown op) eqn:Hsh.
      * right; left. rewrite Hflag', Hn, orb_true_r. destruct op; try done.
        split_and!; [done|done|by apply owners_step; [split_and!; rewrite ?Hcalls|..]| |eauto].
        by eapply shutdown_begin_tracked.
      * rewrite no_shutdown in * by done. left. simpl. rewrite app_nil_r, Hn, Hf.
        split_and!; try done. by eapply owners_quiet, Hok; apply quiet_refl.
  - destruct (is_shutdown op) eqn:Hsh; [lia|]. destruct (returns op) eqn:Hret.
    + destruct (return_step _ _ _ _ _ Hok Hd Htr Hret) as [Heq|(Hd' & Ho & report & Heq & Hgood)].
      * rewrite Heq in *. right; left. simpl. rewrite app_nil_r, Hn. split_and!; [done|done| |eauto|done].
        by eapply owners_quiet, Hok; apply quiet_refl.
      * right; right. rewrite Hflag', Hn, Hf, Heq. split_and!; [done|done|done|].
        intros d1 r1 [Hin|[= -> ->]%list_elem_of_singleton]%elem_of_app Hr; [by apply Hno in Hin|].
        intros i o. rewrite Ho. by apply Hgood.
    + right; left. rewrite Hflag', Hn, Hf.
      destruct (during_step _ _ _ _ _ Hok Hf Hd Htr Hsh Hret) as (call' & Hd' & Htr').
      split_and!; [done|done|by apply owners_step; [split_and!; rewrite ?Hcalls|..]|eauto|eauto].
  - destruct (is_shutdown op) eqn:Hsh; [lia|]. right; right. rewrite Hflag', Hn, Hf.
    destruct (ordinary op) eqn:Hord.
    + destruct (ordinary_facts op Hord) as [Hret _].
      split_and!; [done|done|by apply ordinary_shutdowns_empty|].
      intros d report [Hin|Hin]%elem_of_app Hr; [|by apply apply_op_observed in Hin].
      eapply no_children_step; [by apply apply_op_own|done|eauto].
    + rewrite no_shutdown in * by done. simpl. by rewrite app_nil_r.
Qed.

Lemma run_phase_ok version nw deadline preflight a ops :
  connect version nw deadline preflight = Ok a → used_once ops → phase_ok ops (run a ops).1 (run a ops).2.
Proof.
  intros Hc. pose proof (connect_Ok _ _ _ _ _ Hc) as (_ & Hf & Hs & _ & Hp & Hat & _ & Hd).
  induction ops as [|op ops IH] using rev_ind; intros Hused.
  - left. simpl. split_and!; [done|done|done| |by intros ? ? ?%elem_of_nil].
    assert (∀ i, owner a i = None) as Hnone by (intros [p|t]; simpl; rewrite ?Hp, ?Hat; by rewrite lookup_empty).
    split; [intros i o|intros i j o1 o2|intros i o|intros h s|intros h1 h2 s];
      rewrite ?Hnone, ?Hs, ?lookup_empty; done.
  - rewrite run_snoc. apply phase_step; [done|]. apply IH. by eapply used_once_prefix.
Qed.

End shutdown.
