(* ===== verification/AgentLaws.v ===== *)
(** * AgentLaws: what Claude Code and Codex say of an outcome
      (parse_inbound_with_policy and normalize of workbench-claude and workbench-codex)

    Both protocols discharge [AgentProtocolLaws], so that what is proved of the adapter
    holds of both products. *)

From S2P Require Import Prelude Text BTree Errors Value Json Ports AgentProtocol AgentProcess.
From S2P Require Import AgentAdapter AgentStream AgentShutdown ClaudeProtocol CodexProtocol.

(** ** Shared parts *)

(** Neither an outcome nor an acknowledgement *)
Definition plain (item : Item) : Prop :=
  match item with
  | Ok (PO_Completed _) | Ok (PO_Acknowledged _) => False
  | Ok _ => True
  | Err f => pf_definite f = false
  end.

Lemma content_output_plain product event_type text : plain (content_output product event_type text).
Proof. unfold content_output. by destruct (NonEmptyText_parse text). Qed.

Lemma normalized_tool_plain product name emitted :
  Forall plain (option_list (normalized_tool product name emitted).2).
Proof.
  unfold normalized_tool. case_decide; simpl; [constructor|]. apply Forall_singleton.
  by destruct (NonEmptyText_parse name).
Qed.

Lemma normalized_tools_plain product names emitted :
  Forall plain (normalized_tools product names emitted).2.
Proof.
  revert emitted. induction names as [|name names IH]; intros emitted; simpl; [constructor|].
  pose proof (normalized_tool_plain product name emitted) as Ht.
  destruct (normalized_tool product name emitted) as [emitted1 item].
  specialize (IH emitted1). destruct (normalized_tools product names emitted1) as [emitted2 items].
  simpl in *. by apply Forall_app.
Qed.

Lemma plain_not items item :
  Forall plain items → item ∈ items →
  (∀ s, item ≠ Ok (PO_Completed s)) ∧ (∀ r, item ≠ Ok (PO_Acknowledged r)) ∧
  (∀ f, item = Err f → pf_definite f ≠ true).
Proof.
  intros Hall Hin. rewrite Forall_forall in Hall. specialize (Hall _ Hin).
  destruct item as [[]|]; simpl in Hall; split_and!; try done. intros f [= ->]. by rewrite Hall.
Qed.

(** ** Claude Code *)

(** The fields of a [result] frame *)
Definition claude_result (v : Value) (is_error : bool) (subtype : string)
    (terminal_reason : option string) : Prop :=
  ∃ object, as_object v = Some object ∧ bt_get "type" object = Some (VString "result") ∧
    bt_get "is_error" object = Some (VBool is_error) ∧
    bt_get "subtype" object = Some (VString subtype) ∧
    match terminal_reason with
    | Some reason => bt_get "terminal_reason" object = Some (VString reason)
    | None => bt_get "terminal_reason" object = None ∨ bt_get "terminal_reason" object = Some VNull
    end.

Definition provider_failures : list string :=
  ["error_during_execution"; "error_max_turns"; "error_max_budget_usd";
   "error_max_structured_output_retries"].

Lemma required_identifier_Ok v s : required_identifier v = Ok s → v = Some (VString s).
Proof.
  unfold required_identifier. destruct (required_string v) as [s'|] eqn:Hr; simpl; [|done].
  case_match; [done|]. intros [= <-]. by apply required_string_Ok.
Qed.

Lemma parse_result_Ok object e s r :
  parse_result object = Ok (CI_Result e s r) →
  bt_get "is_error" object = Some (VBool e) ∧ bt_get "subtype" object = Some (VString s) ∧
  match r with
  | Some reason => bt_get "terminal_reason" object = Some (VString reason)
  | None => bt_get "terminal_reason" object = None ∨ bt_get "terminal_reason" object = Some VNull
  end.
Proof.
  unfold parse_result. destruct (optional_identifier _); simpl; [|done].
  destruct (bt_get "is_error" object) as [[]|]; simpl; try done.
  destruct (required_identifier (bt_get "subtype" object)) as [subtype|] eqn:Hs; simpl; [|done].
  apply required_identifier_Ok in Hs.
  destruct (match bt_get "terminal_reason" object with Some _ => _ | None => _ end) as [reason|] eqn:Hr;
    simpl; [|done].
  intros [= <- <- <-]. split_and!; [done|done|].
  destruct (bt_get "terminal_reason" object) as [v|]; [|by simplify_eq; left].
  assert (v = VNull ∧ reason = None ∨ ∃ t, v = VString t ∧ reason = Some t) as [[-> ->]|(t & -> & ->)].
  { destruct v; simplify_eq; auto; right;
      (destruct (required_identifier _) as [t|] eqn:Ht; simpl in Hr; [|done]); simplify_eq;
      apply required_identifier_Ok in Ht; simplify_eq; eauto. }
  - by right.
  - done.
Qed.

Lemma claude_parse_result v nw e s r :
  ClaudeProtocol.parse_inbound_with_policy v nw = Ok (CI_Result e s r) → claude_result v e s r.
Proof.
  unfold ClaudeProtocol.parse_inbound_with_policy, claude_result.
  destruct (as_object v) as [object|]; simpl; [|done].
  destruct (required_string (bt_get "type" object)) as [kind|] eqn:Hk; simpl; [|done].
  apply required_string_Ok in Hk.
  destruct (String.eqb_spec kind "result") as [->|Hne].
  - simpl. intros Hr%parse_result_Ok. by exists object.
  - unfold parse_system, parse_control_response, parse_stream_event, parse_assistant, parse_user, result_map.
    repeat first [progress simplify_eq/=|case_match]; done.
Qed.

Lemma claude_normalize_cases i n :
  Forall plain (ClaudeProtocol.normalize i n).2 ∨
  ∃ e s r, i = CI_Result e s r ∧ (ClaudeProtocol.normalize i n).2 = [normalize_result e s r].
Proof.
  destruct i as [| |text|text tools|name|e s r|]; simpl.
  - left. by apply Forall_singleton.
  - left. by apply Forall_singleton.
  - left. case_match; simpl; [constructor|]. apply Forall_singleton, content_output_plain.
  - left. pose proof (normalized_tools_plain ClaudeProtocol.PRODUCT tools
                        (ClaudeProtocol.ns_emitted_tools n)) as Ht.
    destruct (normalized_tools _ _ _) as [emitted outputs]. simpl in *. apply Forall_app. split; [done|].
    case_match; [constructor|]. apply Forall_fmap, Forall_true. intros text'. apply content_output_plain.
  - left. pose proof (normalized_tool_plain ClaudeProtocol.PRODUCT name
                        (ClaudeProtocol.ns_emitted_tools n)) as Ht.
    by destruct (normalized_tool _ _ _).
  - right. eauto.
  - left. constructor.
Qed.

(** Completed: a [result] that is no error, a success, and ended because it was complete.
    Failed: a [result] that is an error of one of the four kinds the provider reports. *)
#[export] Instance Claude_laws (print_json : Value → string) :
  AgentProtocolLaws (AP := ClaudeAgent print_json).
Proof.
  refine {| ap_completes v _ := claude_result v false "success" (Some "completed");
            ap_fails v _ := ∃ subtype reason, claude_result v true subtype reason ∧
                                              subtype ∈ provider_failures |}; simpl.
  - intros v nw i n s Hp Hin.
    destruct (claude_normalize_cases i n) as [Hplain|(e & sub & r & -> & Heq)].
    { destruct (plain_not _ _ Hplain Hin) as (Hc & _). by destruct (Hc s). }
    apply claude_parse_result in Hp. rewrite Heq in Hin. apply list_elem_of_singleton in Hin.
    unfold normalize_result in Hin. case_match; [done|].
    destruct (negb e && String.eqb sub "success" && bool_decide (r = Some "completed")) eqn:Hok;
      [|by case_match].
    apply andb_true_iff in Hok as [[He%negb_true_iff Hs%String.eqb_eq]%andb_true_iff
                                   Hr%bool_decide_eq_true]. by subst.
  - intros v nw i n f Hp Hin Hdef.
    destruct (claude_normalize_cases i n) as [Hplain|(e & sub & r & -> & Heq)].
    { destruct (plain_not _ _ Hplain Hin) as (_ & _ & Hf). by destruct (Hf f). }
    apply claude_parse_result in Hp. rewrite Heq in Hin. apply list_elem_of_singleton in Hin.
    unfold normalize_result in Hin. case_match; [by simplify_eq|]. case_match; [done|].
    destruct (e && set_contains sub _) eqn:Hfail; [|by simplify_eq].
    apply andb_true_iff in Hfail as [-> Hsub%set_contains_true]. eauto.
  - intros i n r Hin. destruct (claude_normalize_cases i n) as [Hplain|(e & sub & t & -> & Heq)].
    { destruct (plain_not _ _ Hplain Hin) as (_ & Ha & _). by destruct (Ha r). }
    rewrite Heq in Hin. apply list_elem_of_singleton in Hin. unfold normalize_result in Hin.
    repeat case_match; done.
Defined.

(** ** Codex *)

Definition codex_type (v : Value) (kind : string) : Prop :=
  ∃ object, as_object v = Some object ∧ bt_get "type" object = Some (VString kind).

Lemma codex_parse_outcome v nw i :
  CodexProtocol.parse_inbound_with_policy v nw = Ok i →
  match i with
  | XI_TurnCompleted => codex_type v "turn.completed"
  | XI_TurnFailed _ => codex_type v "turn.failed"
  | XI_Error _ => codex_type v "error"
  | _ => True
  end.
Proof.
  unfold CodexProtocol.parse_inbound_with_policy, codex_type, parse_item.
  destruct (as_object v) as [object|]; simpl; [|done].
  destruct (required_string (bt_get "type" object)) as [kind|] eqn:Hk; simpl; [|done].
  apply required_string_Ok in Hk. rename v into value.
  destruct (String.eqb_spec kind "thread.started"); [by destruct (optional_identifier _); intros [= <-]|].
  destruct (String.eqb_spec kind "turn.started"); [by intros [= <-]|].
  destruct (String.eqb_spec kind "turn.completed") as [->|]; [intros [= <-]; by exists object|].
  destruct (String.eqb_spec kind "turn.failed") as [->|]; [intros [= <-]; by exists object|].
  destruct (set_contains kind _); [repeat first [progress simplify_eq/=|case_match]; done|].
  destruct (String.eqb_spec kind "error") as [->|]; [intros [= <-]; by exists object|].
  by intros [= <-].
Qed.

Lemma codex_normalize_cases i n :
  Forall plain (CodexProtocol.normalize i n).2 ∨ i = XI_TurnCompleted ∨
  i = XI_TurnFailed false ∨ i = XI_Error false.
Proof.
  destruct i as [| |text|name| |[]|[]|]; simpl; try (by left; repeat constructor); auto.
  - left. case_match; simpl; [constructor|]. apply Forall_singleton, content_output_plain.
  - left. pose proof (normalized_tool_plain CodexProtocol.PRODUCT name
                        (CodexProtocol.ns_emitted_tools n)) as Ht.
    by destruct (normalized_tool _ _ _).
Qed.

(** Completed and failed as the type of the event says; an event that mentions a
    cancellation is neither. *)
#[export] Instance Codex_laws : AgentProtocolLaws (AP := CodexAgent).
Proof.
  refine {| ap_completes v _ := codex_type v "turn.completed";
            ap_fails v nw := (codex_type v "turn.failed" ∨ codex_type v "error") ∧
              (CodexProtocol.parse_inbound_with_policy v nw = Ok (XI_TurnFailed false) ∨
               CodexProtocol.parse_inbound_with_policy v nw = Ok (XI_Error false)) |}; simpl.
  - intros v nw i n s Hp Hin. pose proof (codex_parse_outcome v nw i Hp) as Ho.
    destruct (codex_normalize_cases i n) as [Hplain|[->|[->| ->]]]; simpl in *.
    + destruct (plain_not _ _ Hplain Hin) as (Hc & _). by destruct (Hc s).
    + done.
    + by apply list_elem_of_singleton in Hin.
    + by apply list_elem_of_singleton in Hin.
  - intros v nw i n f Hp Hin Hdef. pose proof (codex_parse_outcome v nw i Hp) as Ho.
    destruct (codex_normalize_cases i n) as [Hplain|[->|[->| ->]]]; simpl in *.
    + destruct (plain_not _ _ Hplain Hin) as (_ & _ & Hf). by destruct (Hf f).
    + by apply list_elem_of_singleton in Hin.
    + auto.
    + auto.
  - intros i n r Hin. destruct (codex_normalize_cases i n) as [Hplain|[->|[->| ->]]]; simpl in *;
      try (by apply list_elem_of_singleton in Hin).
    destruct (plain_not _ _ Hplain Hin) as (_ & Ha & _). by destruct (Ha r).
Defined.

(** ** Runs *)

Module Sample.
#[local] Instance Claude : AgentProtocol := ClaudeAgent (λ _, "frame").

Definition attempt : Uuid := 7%N.
Definition prompt : ProviderPrompt :=
  {| pp_session_id := 1%N; pp_attempt_id := attempt; pp_runtime_model := "opus"; pp_content := "hello" |}.

Definition delta (text : string) : Value :=
  VObject [("event", VObject [("delta", VObject [("text", VString text); ("type", VString "text_delta")]);
                              ("type", VString "content_block_delta")]);
           ("session_id", VString "s"); ("type", VString "stream_event"); ("uuid", VString "u")].

Definition result (reason : string) : Value :=
  VObject [("is_error", VBool false); ("subtype", VString "success");
           ("terminal_reason", VString reason); ("type", VString "result")].

Definition acknowledged : Value :=
  VObject [("response", VObject [("request_id", VString "interrupt-1"); ("subtype", VString "success")]);
           ("type", VString "control_response")].

Definition reaped : ShutdownReport := {| sr_reaped := true; sr_forced := false |}.

(** The prompt of the session 0 is the call 1 and becomes the task 2. *)
Definition begin : list AdapterOp :=
  [Op_StartSession "h"; Op_Prompt "h" prompt; Op_Acquire 1 "s"; Op_Spawned 1 (Ok tt); Op_Written 1 true;
   Op_Wake 2; Op_Inbound 2 (Ok (Some (delta "hi")))].

Definition completed : list AdapterOp :=
  begin ++ [Op_Inbound 2 (Ok (Some (result "completed"))); Op_Reaped 2 reaped;
            Op_Receive 2; Op_Receive 2; Op_Receive 2; Op_Receive 2].

Definition cancelled : list AdapterOp :=
  begin ++ [Op_Cancel "h" attempt 0; Op_CancelSend 3; Op_Command 2;
            Op_Confirm 2 1 "interrupt-1" (Ok tt)
              [Ok (Some acknowledged); Ok (Some (result "aborted_streaming"))];
            Op_Reaped 2 reaped].

Definition shut_down : list AdapterOp :=
  begin ++ [Op_Shutdown; Op_Inspect 3 0; Op_SendShutdown 3 2; Op_Command 2; Op_Reaped 2 reaped;
            Op_ShutdownEnd 3].

Definition adapter : Adapter := {|
  ad_adapter_version := "2.1.0"; ad_native_writes := false; ad_cancellation_deadline := 1000000000;
  ad_shutting_down := false; ad_sessions := ∅; ad_heap := ∅; ad_prompts := ∅; ad_attempts := ∅;
  ad_cancels := ∅; ad_shutdowns := ∅; ad_next := 0 |}.

Lemma connected : connect "2.1.0" false 1000000000 (Ok tt) = Ok adapter.
Proof. reflexivity. Qed.

Lemma agent_stream_truthful_witness :
  received 2 (run adapter completed).2 =
    [Ok (PO_Acknowledged None); Ok (PO_Content "assistant_text_delta" "hi");
     Ok (PO_Completed "Claude Code completed the prompt")] ∧
  said completed false 2 (Ok (PO_Completed "Claude Code completed the prompt")) ∧
  child_gone completed 2.
Proof.
  assert (received 2 (run adapter completed).2 =
    [Ok (PO_Acknowledged None); Ok (PO_Content "assistant_text_delta" "hi");
     Ok (PO_Completed "Claude Code completed the prompt")]) as Hr by (vm_compute; reflexivity).
  split; [exact Hr|].
  apply (agent_stream_truthful "2.1.0" false 1000000000 (Ok tt) adapter completed 2 connected);
    [|exact I]. rewrite Hr. right. right. left.
Defined.


End Sample.
