(* ===== verification/AcpServer.v ===== *)
(** * AcpServer: the daemon behind an ACP agent
      (workbench-acp-server/src/bridge.rs, frame.rs and error.rs)

    [handle_line] answers one line of an ACP client over a [BridgeBackend]: the socket
    of the daemon, or the application in the same process. What arrives at the socket is
    a list that ends when the daemon disconnects; [AR_Idle] is a wait of a tenth of a
    second in which nothing arrives. Messages of errors are cut at byte 256, which
    panics inside a character. JSON text and the text of identifiers are parameters. *)

From S2P Require Import Prelude Text BTree Errors Value Attempt Policy Event Json Wire.
From S2P Require Import ProtoCommand ProtoReply Subscription.

Inductive AcpServerErrorKind : Type :=
| AK_FrameTooLarge | AK_MalformedFrame | AK_InvalidRequest | AK_SessionNotFound | AK_Backend
| AK_ShuttingDown.

Record AcpServerError : Type := { ae_kind : AcpServerErrorKind; ae_message : string }.

(** How a call ends other than by returning *)
Inductive Fault : Type := FT_Error (error : AcpServerError) | FT_Panic.

(** [AcpServerError::new] *)
Definition AcpServerError_new (kind : AcpServerErrorKind) (message : string) : Fault :=
  match truncate 256 message with
  | Some message => FT_Error {| ae_kind := kind; ae_message := message |}
  | None => FT_Panic
  end.

Definition MAX_FRAME_BYTES : N := 8388608.
Definition AGENT_NAME : string := "workbench".
Definition ACP_PROTOCOL_VERSION : N := 1.

(** ** Frames *)

Section frames.
Context (parse_json : string → option Value) (print_json : Value → string).

Definition decode_line (line : string) : Result Value Fault :=
  if is_empty line then Err (AcpServerError_new AK_MalformedFrame "ACP frame is empty")
  else if (MAX_FRAME_BYTES <? len line)%N
  then Err (AcpServerError_new AK_FrameTooLarge "ACP frame exceeds the encoded size ceiling")
  else if negb (utf8_valid line)
  then Err (AcpServerError_new AK_MalformedFrame "ACP frame is not valid UTF-8")
  else
    match parse_json line with
    | Some doc =>
        if numbers_finite doc then Ok (canonical doc)
        else Err (AcpServerError_new AK_MalformedFrame "ACP frame is not valid JSON")
    | None => Err (AcpServerError_new AK_MalformedFrame "ACP frame is not valid JSON")
    end.

Definition encode_message (value : Value) : Result string Fault :=
  let bytes := print_json value in
  if (MAX_FRAME_BYTES <? len bytes)%N
  then Err (AcpServerError_new AK_FrameTooLarge "ACP frame exceeds the encoded size ceiling")
  else Ok bytes.
End frames.

(** ** Backends *)

(** [BridgeBackend] *)
Class BridgeBackend (B : Type) : Type := {
  bb_initialize : B → B * Result Value Fault;
  bb_create_session : B → B * Result Uuid Fault;
  bb_prompt : B → Uuid → string → B * Result (list string) Fault;
  bb_cancel : B → Uuid → B * Result unit Fault;
}.

Definition v_get (key : string) (v : Value) : option Value :=
  object ← as_object v; bt_get key object.

Definition v_get_str (key : string) (v : Value) : option string := v_get key v ≫= as_str.

(** ** The server *)

Record AcpAgentServer : Type := {
  as_sessions : gmap string Uuid;
  as_shutting_down : bool;
}.

Definition AcpAgentServer_new : AcpAgentServer := {| as_sessions := ∅; as_shutting_down := false |}.

Definition shutdown (sv : AcpAgentServer) : AcpAgentServer :=
  {| as_sessions := as_sessions sv; as_shutting_down := true |}.

Definition success (id : option Value) (result : Value) : Value :=
  VObject (match id with Some id => [("id", id)] | None => [] end
           ++ [("jsonrpc", VString "2.0"); ("result", result)]).

Definition non_empty (text : string) : Result string Fault :=
  if is_empty text then Err (AcpServerError_new AK_InvalidRequest "session/prompt text must not be empty")
  else Ok text.

(** The text of a block of a prompt *)
Definition block_text (block : Value) : string :=
  match v_get_str "text" block with
  | Some chunk => chunk
  | None => default EmptyString (v_get "content" block ≫= v_get_str "text")
  end.

Definition extract_prompt_text (params : Value) : Result string Fault :=
  match v_get "prompt" params with
  | Some (VString text) => non_empty text
  | Some (VArray blocks) => non_empty (foldl (λ text block, text +:+ block_text block) EmptyString blocks)
  | _ =>
      match v_get_str "text" params with
      | Some text => non_empty text
      | None => Err (AcpServerError_new AK_InvalidRequest "session/prompt is missing text")
      end
  end.

(** A [session/update] notification *)
Definition update_message (session_key chunk : string) : Value :=
  VObject [("jsonrpc", VString "2.0"); ("method", VString "session/update");
           ("params", VObject [("sessionId", VString session_key);
             ("update", VObject [("content", VObject [("text", VString chunk); ("type", VString "text")]);
                                 ("sessionUpdate", VString "agent_message_chunk")])])].

(** The method of a request *)
Definition request_method (message : Value) : Result (BTreeMap Value * string) Fault :=
  let? object := ok_or (as_object message)
    (AcpServerError_new AK_InvalidRequest "ACP message must be an object") in
  if negb (bool_decide ((v ← bt_get "jsonrpc" object; as_str v) = Some "2.0"))
  then Err (AcpServerError_new AK_InvalidRequest "ACP message requires jsonrpc 2.0")
  else
    let? method := ok_or (v ← bt_get "method" object; as_str v)
      (AcpServerError_new AK_InvalidRequest "ACP request is missing method") in
    Ok (object, method).

Section server.
Context {B : Type} `{BridgeBackend B} (uuid_print : Uuid → string).

(** The parameters of a request and the session they name *)
Definition request_params (object : BTreeMap Value) : Value :=
  default (VObject []) (bt_get "params" object).

Definition session_key (params : Value) (missing : string) : Result string Fault :=
  ok_or (v_get_str "sessionId" params) (AcpServerError_new AK_InvalidRequest missing).

Definition handle_new (sv : AcpAgentServer) (b : B) (id : option Value)
    : AcpAgentServer * B * Result (list Value) Fault :=
  match bb_create_session b with
  | (b, Err e) => (sv, b, Err e)
  | (b, Ok session_id) =>
      let acp_id := uuid_print session_id in
      ({| as_sessions := <[acp_id := session_id]> (as_sessions sv);
          as_shutting_down := as_shutting_down sv |}, b,
       Ok [success id (VObject [("sessionId", VString acp_id)])])
  end.

(** What [session/prompt] checks before the backend is called *)
Definition prompt_target (sv : AcpAgentServer) (params : Value) : Result (string * Uuid * string) Fault :=
  let? key := session_key params "session/prompt requires sessionId" in
  let? session_id := ok_or (as_sessions sv !! key)
    (AcpServerError_new AK_SessionNotFound "unknown ACP session") in
  let? text := extract_prompt_text params in
  Ok (key, session_id, text).

Definition handle_prompt (sv : AcpAgentServer) (b : B) (id : option Value) (params : Value)
    : AcpAgentServer * B * Result (list Value) Fault :=
  match prompt_target sv params with
  | Err e => (sv, b, Err e)
  | Ok (key, session_id, text) =>
      let '(b, chunks) := bb_prompt b session_id text in
      (sv, b, let? chunks := chunks in
              Ok ((update_message key <$> chunks)
                  ++ [success id (VObject [("stopReason", VString "end_turn")])]))
  end.

(** The outcome of the cancellation is ignored, but for a panic. *)
Definition handle_cancel (sv : AcpAgentServer) (b : B) (id : option Value) (params : Value)
    : AcpAgentServer * B * Result (list Value) Fault :=
  match session_key params "session/cancel requires sessionId" with
  | Err e => (sv, b, Err e)
  | Ok key =>
      match as_sessions sv !! key with
      | Some session_id =>
          match bb_cancel b session_id with
          | (b, Err FT_Panic) => (sv, b, Err FT_Panic)
          | (b, _) => (sv, b, Ok [success id (VObject [])])
          end
      | None => (sv, b, Ok [success id (VObject [])])
      end
  end.

Definition handle_message (sv : AcpAgentServer) (b : B) (message : Value)
    : AcpAgentServer * B * Result (list Value) Fault :=
  if as_shutting_down sv
  then (sv, b, Err (AcpServerError_new AK_ShuttingDown "ACP agent is shutting down"))
  else
    match request_method message with
    | Err e => (sv, b, Err e)
    | Ok (object, method) =>
        let id := bt_get "id" object in
        if String.eqb method "initialize" then
          let '(b, result) := bb_initialize b in
          (sv, b, let? result := result in Ok [success id result])
        else if set_contains method ["session/new"; "session/newSession"] then handle_new sv b id
        else if String.eqb method "session/prompt" then handle_prompt sv b id (request_params object)
        else if String.eqb method "session/cancel" then handle_cancel sv b id (request_params object)
        else (sv, b, Err (AcpServerError_new AK_InvalidRequest ("unsupported ACP method: " +:+ method)))
    end.

Definition handle_line (parse_json : string → option Value) (print_json : Value → string)
    (sv : AcpAgentServer) (b : B) (line : string)
    : AcpAgentServer * B * Result (list string) Fault :=
  match decode_line parse_json line with
  | Err e => (sv, b, Err e)
  | Ok message =>
      let '(sv, b, responses) := handle_message sv b message in
      (sv, b, let? responses := responses in try_collect (encode_message print_json) responses)
  end.
End server.

(** ** The daemon behind a socket *)

Inductive Arrival : Type :=
| AR_Event (event : SessionEvent)
| AR_Reply (reply : ServerReply Value)
| AR_Broken (error : string)
| AR_Idle.

(** [SocketTransportState], with what arrives, what was sent, the identifiers that will be
    generated and the writes that will fail. *)
Record Socket : Type := {
  so_pending_events : list SessionEvent;
  so_arrivals : list Arrival;
  so_sent : list ClientCommand;
  so_next_id : Uuid;
  so_broken_writes : list (option string);
}.

Definition backend_error {A} (message : string) : Result A Fault :=
  Err (AcpServerError_new AK_Backend message).

(** The loop of [call_socket] *)
Fixpoint await_reply (expected : Uuid) (arrivals : list Arrival) (pending : list SessionEvent)
    : list Arrival * list SessionEvent * Result Value Fault :=
  match arrivals with
  | [] => ([], pending, backend_error "daemon disconnected before reply")
  | AR_Idle :: arrivals => await_reply expected arrivals pending
  | AR_Broken error :: arrivals =>
      (arrivals, pending, backend_error ("daemon framing failed: " +:+ error))
  | AR_Event event :: arrivals => await_reply expected arrivals (pending ++ [event])
  | AR_Reply (Success request_id result) :: arrivals =>
      (arrivals, pending,
       if decide (request_id = expected) then Ok result
       else backend_error "daemon reply correlation mismatch")
  | AR_Reply (Failure request_id error) :: arrivals =>
      (arrivals, pending,
       if decide (request_id = expected) then backend_error (er_message error)
       else backend_error "daemon failure correlation mismatch")
  end.

Definition call_socket (s : Socket) (session_id : option Uuid) (command : Command)
    : Socket * Result Value Fault :=
  let id := so_next_id s in
  let broken := match so_broken_writes s with Some error :: _ => Some error | _ => None end in
  let command := {| cc_protocol := PROTOCOL_V1; cc_request_id := id; cc_session_id := session_id;
                    cc_command := command |} in
  match broken with
  | Some error =>
      ({| so_pending_events := so_pending_events s; so_arrivals := so_arrivals s; so_sent := so_sent s;
          so_next_id := N.succ id; so_broken_writes := tail (so_broken_writes s) |},
       backend_error ("daemon write failed: " +:+ error))
  | None =>
      let '(arrivals, pending, result) := await_reply id (so_arrivals s) (so_pending_events s) in
      ({| so_pending_events := pending; so_arrivals := arrivals; so_sent := so_sent s ++ [command];
          so_next_id := N.succ id; so_broken_writes := tail (so_broken_writes s) |}, result)
  end.

Definition event_content (event : SessionEvent) : option string :=
  match sev_kind event with
  | EK_ProviderEvent | EK_SessionCompleted | EK_DispatchAcknowledged =>
      match v_get_str "content" (sev_data event) with
      | Some value => if is_empty value then None else Some value
      | None => None
      end
  | _ => None
  end.

Definition ends_prompt (kind : EventKind) : bool :=
  match kind with
  | EK_SessionCompleted | EK_SessionFailed | EK_SessionCancelled | EK_SessionAbandoned => true
  | _ => false
  end.

(** The inner loop of [collect_prompt_chunks] over the events that arrived *)
Fixpoint drain (pending : list SessionEvent) (chunks : list string)
    : list SessionEvent * list string * bool :=
  match pending with
  | [] => ([], chunks, false)
  | event :: pending =>
      let chunks := chunks ++ option_list (event_content event) in
      if ends_prompt (sev_kind event) then (pending, chunks, true) else drain pending chunks
  end.

Definition with_pending (pending : list SessionEvent) (arrivals : list Arrival) (s : Socket) : Socket :=
  {| so_pending_events := pending; so_arrivals := arrivals; so_sent := so_sent s;
     so_next_id := so_next_id s; so_broken_writes := so_broken_writes s |}.

Section socket.
Context (uuid_print : Uuid → string) (uuid_parse : string → option Uuid) (version : string).

(** [serde_json::from_value] with the message of its error *)
Definition from_value {A} (c : Codec A) (value : Value) (message : string) : Result A Fault :=
  map_err (λ _, AcpServerError_new AK_Backend message) (dec c value).

Definition initialize_command : Command :=
  Initialize {| client_name := "workbench-acp-server"; client_version := version;
                supported_protocols := [PROTOCOL_V1] |}.

Definition create_command : Command :=
  SessionCreate {| persistent := true; configuration_overrides := None; workflow := None |}.

Definition prompt_command (text : string) : Command :=
  SessionPrompt {| text := text; explicit_target := None |}.

Definition grant_command (approval_id : Uuid) : Command :=
  SessionApprovalResolve {| ap_approval_id := approval_id; ap_decision := AD_Grant |}.

(** What [initialize] answers *)
Definition agent_identity : Value :=
  VObject [("agentCapabilities", VObject [("loadSession", VBool false)]);
           ("agentInfo", VObject [("name", VString AGENT_NAME); ("version", VString version)]);
           ("protocolVersion", VNumber (PosInt ACP_PROTOCOL_VERSION))].

Definition open_transport (s : Socket) : Socket * Result unit Fault :=
  let '(s, result) := call_socket s None initialize_command in
  (s, let? result := result in
      let? _ := from_value InitializeResult_codec result "initialize result invalid" in Ok tt).

(** The last approval that an event asked for *)
Definition requested_approval (event : SessionEvent) : option Uuid :=
  if bool_decide (sev_kind event = EK_ApprovalRequested)
  then v_get_str "approval_id" (sev_data event) ≫= uuid_parse else None.

Fixpoint find_map {A B} (f : A → option B) (l : list A) : option B :=
  match l with
  | [] => None
  | x :: l => match f x with Some y => Some y | None => find_map f l end
  end.

Definition auto_grant_pending (s : Socket) (session_id : Uuid) : Socket * Result unit Fault :=
  let '(s, result) := call_socket s (Some session_id) SessionGet in
  match (let? result := result in
         from_value (SessionResult_codec uuid_print uuid_parse) result "session.get result invalid") with
  | Err e => (s, Err e)
  | Ok session =>
      match (match se_pending_approval_id session with
             | Some approval_id => Some approval_id
             | None => find_map requested_approval (reverse (so_pending_events s))
             end) with
      | Some approval_id =>
          let '(s, result) := call_socket s (Some session_id) (grant_command approval_id) in
          (s, result_map (λ _, tt) result)
      | None => (s, Ok tt)
      end
  end.

(** The outer loop of [collect_prompt_chunks]; [iterations] is how often it starts before
    the deadline. *)
Fixpoint collect_chunks (iterations : nat) (s : Socket) (session_id : Uuid) (chunks : list string)
    : Socket * Result (list string) Fault :=
  match iterations with
  | O => (s, Ok chunks)
  | S iterations =>
      let '(pending, chunks, terminal) := drain (so_pending_events s) chunks in
      if terminal then (with_pending pending (so_arrivals s) s, Ok chunks)
      else
        match so_arrivals s with
        | AR_Event event :: arrivals =>
            collect_chunks iterations (with_pending (pending ++ [event]) arrivals s) session_id chunks
        | AR_Reply _ :: arrivals =>
            collect_chunks iterations (with_pending pending arrivals s) session_id chunks
        | AR_Broken error :: arrivals =>
            (with_pending pending arrivals s, backend_error ("daemon framing failed: " +:+ error))
        | [] =>
            (with_pending pending [] s,
             backend_error "daemon disconnected while streaming prompt events")
        | AR_Idle :: arrivals =>
            match auto_grant_pending (with_pending pending arrivals s) session_id with
            | (s, Err e) => (s, Err e)
            | (s, Ok _) => collect_chunks iterations s session_id chunks
            end
        end
  end.

Definition collect_prompt_chunks (iterations : nat) (s : Socket) (session_id : Uuid)
    : Socket * Result (list string) Fault :=
  let '(s, attach) := call_socket s (Some session_id) (SessionAttach 0) in
  match (let? attach := attach in
         from_value (AttachSessionResult_codec uuid_print uuid_parse) attach
           "session.attach result invalid") with
  | Err e => (s, Err e)
  | Ok _ =>
      let '(s, chunks) := collect_chunks iterations s session_id [] in
      (s, let? chunks := chunks in
          Ok (match chunks with [] => ["workbench offline response"] | _ => chunks end))
  end.

(** [prompt] of the socket *)
Definition socket_prompt (iterations : nat) (s : Socket) (session_id : Uuid) (text : string)
    : Socket * Result (list string) Fault :=
  let '(s, result) := call_socket s (Some session_id) (prompt_command text) in
  match (let? result := result in
         from_value (PromptResult_codec uuid_print uuid_parse) result "prompt result invalid") with
  | Err e => (s, Err e)
  | Ok _ =>
      match auto_grant_pending s session_id with
      | (s, Err e) => (s, Err e)
      | (s, Ok _) => collect_prompt_chunks iterations s session_id
      end
  end.

Definition DaemonSocketBackend (iterations : nat) : BridgeBackend Socket := {|
  bb_initialize s :=
    let '(s, result) := call_socket s None StatusGet in
    (s, let? _ := result in Ok agent_identity);
  bb_create_session s :=
    let '(s, result) := call_socket s None create_command in
    (s, let? result := result in
        result_map cr_session_id
          (from_value (CreateSessionResult_codec uuid_print uuid_parse) result
             "create session result invalid"));
  bb_prompt := socket_prompt iterations;
  bb_cancel s session_id :=
    let '(s, result) := call_socket s (Some session_id) SessionCancel in
    (s, result_map (λ _, tt) result);
|}.
End socket.

(** ** The application in the same process *)

(** What the backend uses of [Application]: [dispatch], the history of a session as kinds
    and payloads, and the time that passes while its tasks run. *)
Class LocalApplication (A : Type) : Type := {
  la_dispatch : A → ClientCommand → A * ServerReply Value;
  la_history : A → Uuid → option (list (string * Value));
  la_sleep : A → A;
}.

(** [InProcessBackend], with the next request identifier *)
Record InProcess (A : Type) : Type := { ip_application : A; ip_next_id : Uuid }.
Arguments ip_application {A}.
Arguments ip_next_id {A}.

Section in_process.
Context {A : Type} `{LocalApplication A}.
Context (uuid_print : Uuid → string) (uuid_parse : string → option Uuid) (version : string).

Definition dispatch (b : InProcess A) (session_id : option Uuid) (command : Command)
    : InProcess A * Result Value Fault :=
  let '(app, reply) := la_dispatch (ip_application b)
    {| cc_protocol := PROTOCOL_V1; cc_request_id := ip_next_id b; cc_session_id := session_id;
       cc_command := command |} in
  ({| ip_application := app; ip_next_id := N.succ (ip_next_id b) |},
   match reply with
   | Success _ result => Ok result
   | Failure _ error => backend_error (er_message error)
   end).

Definition local_history (b : InProcess A) (session_id : Uuid) : Result (list (string * Value)) Fault :=
  ok_or (la_history (ip_application b) session_id) (AcpServerError_new AK_Backend "history unavailable").

Definition local_approval (event : string * Value) : option Uuid :=
  if String.eqb event.1 "approval_requested"
  then v_get_str "approval_id" event.2 ≫= uuid_parse else None.

Definition local_auto_grant (b : InProcess A) (session_id : Uuid) : InProcess A * Result unit Fault :=
  match local_history b session_id with
  | Err e => (b, Err e)
  | Ok history =>
      match find_map local_approval (reverse history) with
      | None => (b, Ok tt)
      | Some approval_id =>
          let '(b, result) := dispatch b (Some session_id) (grant_command approval_id) in
          (b, result_map (λ _, tt) result)
      end
  end.

Definition local_content (event : string * Value) : option string :=
  if set_contains event.1 ["provider_event"; "session_completed"; "dispatch_acknowledged"] then
    match v_get_str "content" event.2 with
    | Some value => if is_empty value then None else Some value
    | None => None
    end
  else None.

Definition local_prompt (b : InProcess A) (session_id : Uuid) (text : string)
    : InProcess A * Result (list string) Fault :=
  let '(b, result) := dispatch b (Some session_id) (prompt_command text) in
  match (let? result := result in
         from_value (PromptResult_codec uuid_print uuid_parse) result "prompt result invalid") with
  | Err e => (b, Err e)
  | Ok _ =>
      match local_auto_grant b session_id with
      | (b, Err e) => (b, Err e)
      | (b, Ok _) =>
          let b := {| ip_application := la_sleep (ip_application b); ip_next_id := ip_next_id b |} in
          (b, let? history := local_history b session_id in
              let chunks := omap local_content history in
              Ok (match chunks with [] => ["workbench offline response"] | _ => chunks end))
      end
  end.

Definition InProcessBackend : BridgeBackend (InProcess A) := {|
  bb_initialize b :=
    let '(b, result) := dispatch b None (initialize_command version) in
    (b, let? result := result in
        let? _ := from_value InitializeResult_codec result "initialize result invalid" in
        Ok (agent_identity version));
  bb_create_session b :=
    let '(b, result) := dispatch b None create_command in
    (b, let? result := result in
        result_map cr_session_id
          (from_value (CreateSessionResult_codec uuid_print uuid_parse) result
             "create session result invalid"));
  bb_prompt := local_prompt;
  bb_cancel b session_id :=
    let '(b, result) := dispatch b (Some session_id) SessionCancel in
    (b, result_map (λ _, tt) result);
|}.
End in_process.

(** ** The agent on standard input and output (workbench-cli/src/main.rs) *)

Section agent.
Context {B : Type} `{BridgeBackend B} (uuid_print : Uuid → string).
Context (parse_json : string → option Value) (print_json : Value → string).

(** [run_agent_stdio] over the lines of its input: the frames it writes, and the fault
    that ends it, if any. *)
Fixpoint run_agent_stdio (sv : AcpAgentServer) (b : B) (lines : list string)
    : AcpAgentServer * B * list string * option Fault :=
  match lines with
  | [] => (shutdown sv, b, [], None)
  | line :: lines =>
      match handle_line uuid_print parse_json print_json sv b line with
      | (sv, b, Err e) => (sv, b, [], Some e)
      | (sv, b, Ok frames) =>
          let '(sv, b, rest, fault) := run_agent_stdio sv b lines in
          (sv, b, frames ++ rest, fault)
      end
  end.
End agent.

(** A backend with a record of the calls it got *)
Inductive BackendCall : Type :=
| BC_Created (session_id : Uuid)
| BC_Prompt (session_id : Uuid) (text : string)
| BC_Cancel (session_id : Uuid).

Definition Recorded {B} (H : BridgeBackend B) : BridgeBackend (B * list BackendCall) := {|
  bb_initialize b := let '(b', r) := bb_initialize b.1 in ((b', b.2), r);
  bb_create_session b :=
    let '(b', r) := bb_create_session b.1 in
    ((b', b.2 ++ match r with Ok id => [BC_Created id] | Err _ => [] end), r);
  bb_prompt b id text := let '(b', r) := bb_prompt b.1 id text in ((b', b.2 ++ [BC_Prompt id text]), r);
  bb_cancel b id := let '(b', r) := bb_cancel b.1 id in ((b', b.2 ++ [BC_Cancel id]), r);
|}.

Section isolation.
Context {B : Type} (HB : BridgeBackend B) (uuid_print : Uuid → string).
Context (parse_json : string → option Value) (print_json : Value → string).
#[local] Existing Instance Recorded.

(** The session a call is about was created before. *)
Definition own_calls (log : list BackendCall) : Prop :=
  ∀ i call, log !! i = Some call →
    match call with
    | BC_Created _ => True
    | BC_Prompt id _ | BC_Cancel id => BC_Created id ∈ take i log
    end.

Definition isolated (sv : AcpAgentServer) (log : list BackendCall) : Prop :=
  own_calls log ∧ ∀ key id, as_sessions sv !! key = Some id → BC_Created id ∈ log.

Lemma own_calls_snoc log call :
  own_calls log →
  match call with BC_Created _ => True | BC_Prompt id _ | BC_Cancel id => BC_Created id ∈ log end →
  own_calls (log ++ [call]).
Proof.
  intros Hown Hcall i c [Hi|[Hle Hi]]%lookup_app_Some.
  - rewrite take_app_le by (apply lookup_lt_Some in Hi; lia). by apply Hown.
  - apply list_lookup_singleton_Some in Hi as [Hi ->].
    rewrite take_app_ge, (proj2 (Nat.sub_0_le _ _)) by lia. simpl. rewrite app_nil_r. done.
Qed.

Lemma isolated_call sv log call :
  isolated sv log →
  match call with BC_Created _ => True | BC_Prompt id _ | BC_Cancel id => BC_Created id ∈ log end →
  isolated sv (log ++ [call]).
Proof. intros [Ho Hs] Hc. split; [by apply own_calls_snoc|]. intros key id Hk%Hs. set_solver. Qed.

Lemma prompt_target_Ok sv params key id text :
  prompt_target sv params = Ok (key, id, text) → as_sessions sv !! key = Some id.
Proof.
  unfold prompt_target. destruct (session_key _ _) as [k|]; simpl; [|done].
  destruct (as_sessions sv !! k) eqn:Hk; simpl; [|done].
  destruct (extract_prompt_text params); simpl; [|done]. by intros [= <- <- _].
Qed.

Lemma handle_message_isolated sv b message sv' b' r :
  handle_message (H := Recorded HB) uuid_print sv b message = (sv', b', r) →
  isolated sv b.2 → isolated sv' b'.2.
Proof.
  unfold handle_message, handle_new, handle_prompt, handle_cancel. intros Hm Hi.
  destruct (as_shutting_down sv); [by simplify_eq|].
  destruct (request_method message) as [[object m]|]; [|by simplify_eq].
  destruct (String.eqb m "initialize").
  { simpl in Hm. destruct (bb_initialize b.1). by simplify_eq. }
  destruct (set_contains m _).
  { simpl in Hm. destruct (bb_create_session b.1) as [b1 [id|e]]; simplify_eq/=; [|by rewrite app_nil_r].
    apply (isolated_call _ _ (BC_Created id)) in Hi as [Ho Hs]; [|done]. split; [done|].
    intros key id'. simpl. intros [[_ <-]|[_ Hk]]%lookup_insert_Some; [set_solver|by eapply Hs]. }
  destruct (String.eqb m "session/prompt").
  { destruct (prompt_target sv _) as [[[key id] text]|] eqn:Hf; [|by simplify_eq]. simpl in Hm.
    destruct (bb_prompt b.1 id text) as [b1 chunks]. simplify_eq/=. apply isolated_call; [done|].
    destruct Hi as [_ Hs]. by eapply Hs, prompt_target_Ok. }
  destruct (String.eqb m "session/cancel"); [|by simplify_eq].
  destruct (session_key _ _) as [key|]; [|by simplify_eq].
  destruct (as_sessions sv !! key) as [id|] eqn:Hk; [|by simplify_eq].
  simpl in Hm. destruct (bb_cancel b.1 id) as [b1 r1].
  assert (sv' = sv ∧ b'.2 = b.2 ++ [BC_Cancel id]) as [-> ->] by (repeat case_match; by simplify_eq/=).
  apply isolated_call; [done|]. destruct Hi as [_ Hs]. by eapply Hs.
Qed.

Lemma run_isolated lines sv b sv' b' out fault :
  run_agent_stdio (H := Recorded HB) uuid_print parse_json print_json sv b lines = (sv', b', out, fault) →
  isolated sv b.2 → isolated sv' b'.2.
Proof.
  revert sv b out. induction lines as [|line lines IH]; intros sv b out; simpl; [by intros [= <- <- _ _]|].
  unfold handle_line. destruct (decode_line parse_json line) as [message|]; [|by intros [= <- <- _ _]].
  destruct (handle_message uuid_print sv b message) as [[sv1 b1] responses] eqn:Hm.
  intros Hrun Hi. pose proof (handle_message_isolated _ _ _ _ _ _ Hm Hi) as Hi1.
  destruct (let? _ := _ in _) as [frames|]; [|by simplify_eq].
  destruct (run_agent_stdio uuid_print parse_json print_json sv1 b1 lines) as [[[sv2 b2] rest] f] eqn:Hr.
  simplify_eq. by eapply IH.
Qed.

(** C18: An ACP client reaches only sessions it created over its own connection: whatever
    lines it sends, every prompt and every cancellation that the bridge passes to the
    daemon is for a session that the daemon created before for this connection. *)
Theorem acp_client_isolated b lines :
  own_calls (run_agent_stdio (H := Recorded HB) uuid_print parse_json print_json
               AcpAgentServer_new (b, []) lines).1.1.2.2.
Proof.
  destruct (run_agent_stdio _ _ _ _ _ lines) as [[[sv' b'] out] fault] eqn:Hr. simpl.
  apply run_isolated in Hr; [by destruct Hr|]. split; [by intros i call|]. intros key id. simpl.
  by rewrite lookup_empty.
Qed.
End isolation.

(** ** Panics *)

Section panics.
Context {B : Type} `{BridgeBackend B} (uuid_print : Uuid → string).

(** No call of the backend panics. *)
Definition backend_total : Prop :=
  (∀ b, (bb_initialize b).2 ≠ Err FT_Panic) ∧
  (∀ b, (bb_create_session b).2 ≠ Err FT_Panic) ∧
  (∀ b id text, (bb_prompt b id text).2 ≠ Err FT_Panic) ∧
  (∀ b id, (bb_cancel b id).2 ≠ Err FT_Panic).

Definition supported_methods : list string :=
  ["initialize"; "session/new"; "session/newSession"; "session/prompt"; "session/cancel"].

(** The 257th byte of the message for a method continues a character. *)
Definition method_breaks (method : string) : Prop :=
  ∃ c, String.get 256 ("unsupported ACP method: " +:+ method) = Some c ∧ is_continuation c = true.

Lemma extract_prompt_total params : extract_prompt_text params ≠ Err FT_Panic.
Proof.
  unfold extract_prompt_text, non_empty.
  repeat case_match; by intros [=].
Qed.

Lemma prompt_target_total sv params : prompt_target sv params ≠ Err FT_Panic.
Proof.
  unfold prompt_target, session_key. destruct (v_get_str _ _) as [key|]; simpl; [|done].
  destruct (as_sessions sv !! key); simpl; [|done].
  pose proof (extract_prompt_total params). destruct (extract_prompt_text params); simpl; congruence.
Qed.

Lemma request_method_total message : request_method message ≠ Err FT_Panic.
Proof.
  unfold request_method. destruct (as_object message); simpl; [|done].
  case_match; [done|]. by destruct (bt_get "method" _ ≫= _).
Qed.

Lemma handle_prompt_total sv b id params :
  backend_total → (handle_prompt sv b id params).2 ≠ Err FT_Panic.
Proof.
  intros (_ & _ & Hp & _). unfold handle_prompt. pose proof (prompt_target_total sv params).
  destruct (prompt_target sv params) as [[[key sid] text]|e]; simpl; [|congruence].
  specialize (Hp b sid text). destruct (bb_prompt b sid text) as [b' [chunks|e]]; simpl in *; congruence.
Qed.

Lemma handle_cancel_total sv b id params :
  backend_total → (handle_cancel sv b id params).2 ≠ Err FT_Panic.
Proof.
  intros (_ & _ & _ & Hc). unfold handle_cancel, session_key.
  destruct (v_get_str _ _) as [key|]; simpl; [|done]. destruct (as_sessions sv !! key) as [sid|]; [|done].
  specialize (Hc b sid). destruct (bb_cancel b sid) as [b' [|[]]]; simpl in *; congruence.
Qed.

Lemma handle_new_total sv b id : backend_total → (handle_new uuid_print sv b id).2 ≠ Err FT_Panic.
Proof.
  intros (_ & Hn & _). unfold handle_new. specialize (Hn b).
  destruct (bb_create_session b) as [b' [|e]]; simpl in *; congruence.
Qed.

Lemma unsupported_breaks method :
  AcpServerError_new AK_InvalidRequest ("unsupported ACP method: " +:+ method) = FT_Panic ↔ method_breaks method.
Proof.
  unfold method_breaks. rewrite <-(truncate_panics 256). unfold AcpServerError_new.
  by destruct (truncate 256 _).
Qed.

(** C20: Over a backend that does not panic, a message makes the bridge panic exactly when
    the bridge is not shutting down and the message is a JSON-RPC request whose method
    is not supported and long enough that byte 256 of the error message falls inside a
    character: the client chooses the method, so it can end the agent. *)
Theorem acp_request_panics sv b message :
  backend_total →
  (handle_message uuid_print sv b message).2 = Err FT_Panic ↔
  as_shutting_down sv = false ∧
  ∃ object method, request_method message = Ok (object, method) ∧
    (method ∉ supported_methods) ∧ method_breaks method.
Proof.
  intros Htot. unfold handle_message, supported_methods.
  destruct (as_shutting_down sv); [split; [done|by intros [? _]]|].
  destruct (request_method message) as [[object m]|e] eqn:Hm; simpl.
  2: { split; [|by intros (_ & ? & ? & ? & _)]. intros [= ->]. by apply request_method_total in Hm. }
  assert (∀ P : Prop, (¬ P) → m ∈ supported_methods →
            P ↔ false = false ∧ ∃ object' method, Ok (E := Fault) (object, m) = Ok (object', method) ∧
                  (method ∉ supported_methods) ∧ method_breaks method) as Hsup.
  { intros P HP Hin. split; [done|]. intros (_ & ? & ? & [= <- <-] & Hno & _). done. }
  destruct (String.eqb_spec m "initialize") as [->|N1].
  { apply Hsup; [|set_solver]. destruct Htot as (Hi & _). specialize (Hi b).
    destruct (bb_initialize b) as [b' [|e]]; simpl in *; congruence. }
  destruct (set_contains m _) eqn:N2.
  { apply Hsup; [by apply handle_new_total|].
    apply set_contains_true in N2. set_solver. }
  destruct (String.eqb_spec m "session/prompt") as [->|N3].
  { apply Hsup; [by apply handle_prompt_total|set_solver]. }
  destruct (String.eqb_spec m "session/cancel") as [->|N4].
  { apply Hsup; [by apply handle_cancel_total|set_solver]. }
  simpl. apply bool_decide_eq_false in N2.
  split.
  - intros [= Hp]. split; [done|]. exists object, m. split_and!; [done|set_solver|by apply unsupported_breaks].
  - intros (_ & ? & ? & [= <- <-] & _ & Hb). f_equal. by apply unsupported_breaks.
Qed.
End panics.

(** ** The content of a prompt *)

Section content.
Context (uuid_print : Uuid → string) (uuid_parse : string → option Uuid) (version : string).

Definition arrival_event (arrival : Arrival) : option SessionEvent :=
  match arrival with AR_Event event => Some event | _ => None end.

(** From [s] to [s'] the events [taken] left the queue; those that arrived joined it. *)
Definition moved (s : Socket) (taken : list SessionEvent) (s' : Socket) : Prop :=
  ∃ used, so_arrivals s = used ++ so_arrivals s' ∧
    so_pending_events s ++ omap arrival_event used = taken ++ so_pending_events s'.

(** No event but the last ends the prompt. *)
Definition ends_only_last (taken : list SessionEvent) : Prop :=
  ∀ before event after, taken = before ++ event :: after → ends_prompt (sev_kind event) = true → after = [].

Lemma moved_trans s taken s1 taken' s2 :
  moved s taken s1 → moved s1 taken' s2 → moved s (taken ++ taken') s2.
Proof.
  intros (u & Ha & Hp) (u' & Ha' & Hp'). exists (u ++ u'). rewrite <-app_assoc, <-Ha'. split; [done|].
  by rewrite omap_app, app_assoc, Hp, <-!app_assoc, Hp'.
Qed.

Lemma await_reply_moved expected arrivals pending arrivals' pending' r :
  await_reply expected arrivals pending = (arrivals', pending', r) →
  ∃ used, arrivals = used ++ arrivals' ∧ pending' = pending ++ omap arrival_event used.
Proof.
  revert pending. induction arrivals as [|a arrivals IH]; intros pending; simpl.
  { intros [= <- <- _]. exists []. simpl. by rewrite app_nil_r. }
  assert (∀ used, arrivals = used ++ arrivals' → pending' = pending ++ omap arrival_event (a :: used) →
    ∃ used, a :: arrivals = used ++ arrivals' ∧ pending' = pending ++ omap arrival_event used) as Hc.
  { intros used -> ->. by exists (a :: used). }
  destruct a as [event|[]| |]; intros Hr.
  - apply IH in Hr as (used & Hu & Hq). apply (Hc used Hu). rewrite Hq, <-app_assoc. done.
  - simplify_eq. apply (Hc []); [done|]. simpl. by rewrite app_nil_r.
  - simplify_eq. apply (Hc []); [done|]. simpl. by rewrite app_nil_r.
  - simplify_eq. apply (Hc []); [done|]. simpl. by rewrite app_nil_r.
  - apply IH in Hr as (used & Hu & Hq). by apply (Hc used Hu).
Qed.

Lemma call_socket_moved s id command s' r : call_socket s id command = (s', r) → moved s [] s'.
Proof.
  unfold call_socket. case_match.
  - intros [= <- _]. exists []. split; [done|]. simpl. by rewrite app_nil_r.
  - destruct (await_reply _ _ _) as [[arrivals pending] r'] eqn:Hw. intros [= <- _].
    apply await_reply_moved in Hw as (used & Hu & Hq). by exists used.
Qed.

Lemma auto_grant_moved s id s' r : auto_grant_pending uuid_print uuid_parse s id = (s', r) → moved s [] s'.
Proof.
  unfold auto_grant_pending. destruct (call_socket s _ _) as [s1 r1] eqn:H1. apply call_socket_moved in H1.
  destruct (let? _ := _ in _) as [session|]; [|by intros [= <- _]].
  case_match; [|by intros [= <- _]].
  destruct (call_socket s1 _ _) as [s2 r2] eqn:H2. apply call_socket_moved in H2. intros [= <- _].
  exact (moved_trans _ _ _ _ _ H1 H2).
Qed.

Lemma drain_moved pending chunks pending' chunks' terminal :
  drain pending chunks = (pending', chunks', terminal) →
  ∃ taken, pending = taken ++ pending' ∧ chunks' = chunks ++ omap event_content taken ∧
    if terminal then ends_only_last taken
    else pending' = [] ∧ Forall (λ event, ends_prompt (sev_kind event) = false) taken.
Proof.
  revert chunks. induction pending as [|event pending IH]; intros chunks; simpl.
  { intros [= <- <- <-]. exists []. simpl. by rewrite app_nil_r. }
  destruct (ends_prompt (sev_kind event)) eqn:He.
  - intros [= <- <- <-]. exists [event]. split; [done|]. split.
    + simpl. by destruct (event_content event).
    + intros [|? before] e after; [by intros [= _ <-]|]. intros [= _ Hn]. by destruct before.
  - intros (taken & -> & -> & Ht)%IH. exists (event :: taken). split; [done|]. split.
    + simpl. rewrite <-app_assoc. by destruct (event_content event).
    + destruct terminal; [|destruct Ht; split; [done|by constructor]].
      intros [|? before] e after; [intros [= <- _]; congruence|]. intros [= _ Hn]. by eapply Ht.
Qed.

Lemma ends_only_last_app taken taken' :
  Forall (λ event, ends_prompt (sev_kind event) = false) taken → ends_only_last taken' →
  ends_only_last (taken ++ taken').
Proof.
  intros Hf Hl before event after Heq He.
  apply app_eq_inv in Heq as [(k & -> & Hk)|(k & -> & Hk)].
  - destruct k as [|e k]; simpl in Hk; [by eapply (Hl [])|]. simplify_eq.
    rewrite Forall_app, Forall_cons in Hf. destruct Hf as (_ & Hf & _). congruence.
  - by eapply Hl.
Qed.

Lemma collect_chunks_moved n s id chunks s' chunks' :
  collect_chunks uuid_print uuid_parse n s id chunks = (s', Ok chunks') →
  ∃ taken, moved s taken s' ∧ chunks' = chunks ++ omap event_content taken ∧ ends_only_last taken.
Proof.
  revert s chunks. induction n as [|n IH]; intros s chunks; simpl.
  { intros [= <- <-]. exists []. simpl. rewrite app_nil_r. split_and!; [|done|by intros []].
    exists []. simpl. by rewrite app_nil_r. }
  destruct (drain (so_pending_events s) chunks) as [[pending c1] terminal] eqn:Hd.
  apply drain_moved in Hd as (taken & Hp & -> & Ht). destruct terminal.
  { intros [= <- <-]. exists taken. split_and!; [|done|done]. exists []. simpl. by rewrite app_nil_r. }
  destruct Ht as [-> Hf]. rewrite app_nil_r in Hp.
  assert (∀ used arrivals pending s1, so_arrivals s = used ++ arrivals → omap arrival_event used = pending →
    moved (with_pending pending arrivals s) [] s1 →
    collect_chunks uuid_print uuid_parse n s1 id (chunks ++ omap event_content taken) = (s', Ok chunks') →
    ∃ taken, moved s taken s' ∧ chunks' = chunks ++ omap event_content taken ∧ ends_only_last taken) as Hstep.
  { intros used arrivals pending s1 Ha <- Hm (taken' & Hm' & -> & He)%IH. exists (taken ++ taken').
    split_and!; [|by rewrite omap_app, app_assoc|by apply ends_only_last_app].
    eapply (moved_trans _ _ (with_pending (omap arrival_event used) arrivals s)).
    - exists used. by rewrite <-Hp.
    - exact (moved_trans _ _ _ _ _ Hm Hm'). }
  assert (∀ s, moved s [] s) as Hrefl by (intros s0; exists []; simpl; by rewrite app_nil_r).
  destruct (so_arrivals s) as [|[event|reply|error|] arrivals]; [done| | |done|].
  - by eapply (Hstep [AR_Event event]).
  - by eapply (Hstep [AR_Reply reply]).
  - destruct (auto_grant_pending _ _ _ id) as [s1 [|]] eqn:Hg; [|done]. apply auto_grant_moved in Hg.
    by eapply (Hstep [AR_Idle]).
Qed.

(** C19: A prompt over the socket that succeeds returns the content of the events it takes
    from the queue, in order and each once, or one line in place of no content at all.
    The events it takes are the first of those that were queued or arrived; every other
    one stays queued, none is lost or moved, and none after the first event that ends a
    session is taken. *)
Theorem socket_prompt_content iterations s id text s' chunks :
  socket_prompt uuid_print uuid_parse iterations s id text = (s', Ok chunks) →
  ∃ taken, moved s taken s' ∧ ends_only_last taken ∧
    chunks = match omap event_content taken with
             | [] => ["workbench offline response"]
             | content => content
             end.
Proof.
  unfold socket_prompt, collect_prompt_chunks.
  destruct (call_socket s _ _) as [s1 r1] eqn:H1. apply call_socket_moved in H1.
  destruct (let? _ := _ in _); [|done].
  destruct (auto_grant_pending _ _ s1 id) as [s2 [|]] eqn:H2; [|done]. apply auto_grant_moved in H2.
  destruct (call_socket s2 _ _) as [s3 r3] eqn:H3. apply call_socket_moved in H3.
  destruct (let? _ := _ in _); [|done].
  destruct (collect_chunks _ _ iterations s3 id []) as [s4 [c|]] eqn:H4; simpl; [|done].
  apply collect_chunks_moved in H4 as (taken & H4 & -> & He). intros [= <- <-].
  exists taken. split; [|split; [done|by destruct (omap event_content taken)]].
  exact (moved_trans _ _ _ _ _ H1 (moved_trans _ _ _ _ _ H2 (moved_trans _ _ _ _ _ H3 H4))).
Qed.
End content.

(** ** A daemon with one session *)

Module Sample.

Definition silent : BridgeBackend unit := {|
  bb_initialize b := (b, Ok VNull);
  bb_create_session b := (b, Ok 1%N);
  bb_prompt b _ _ := (b, Ok []);
  bb_cancel b _ := (b, Ok tt);
|}.

(** A method of 231 letters and a letter of two bytes *)
Definition long_method : string :=
  String.string_of_list_ascii (repeat "a"%char 231 ++ ["195"%char; "169"%char]).

Definition long_request : Value :=
  VObject [("jsonrpc", VString "2.0"); ("method", VString long_method)].

Lemma acp_request_panics_witness :
  (handle_message (H := silent) binary_print AcpAgentServer_new tt long_request).2 = Err FT_Panic.
Proof.
  apply (acp_request_panics (H := silent) binary_print AcpAgentServer_new tt long_request).
  { split_and!; by intros. }
  split; [done|]. exists [("jsonrpc", VString "2.0"); ("method", VString long_method)], long_method.
  split_and!; [by vm_compute| |exists "169"%char; by vm_compute].
  apply (bool_decide_unpack _). by vm_compute.
Defined.

Definition event (session_id : Uuid) (sequence : N) (kind : EventKind) (data : Value) : SessionEvent :=
  {| sev_protocol := PROTOCOL_V1; sev_event_id := sequence; sev_session_id := session_id;
     sev_sequence := sequence; sev_causation_request_id := None; sev_kind := kind;
     sev_occurred_at := "2026-01-01T00:00:00Z"; sev_data := data |}.

Definition text_event (session_id : Uuid) (sequence : N) (text : string) : SessionEvent :=
  event session_id sequence EK_ProviderEvent (VObject [("content", VString text)]).

Definition session (approval : option Uuid) : Value :=
  enc (SessionResult_codec binary_print binary_parse)
    {| se_session_id := 1%N; se_state := WS_Running; se_last_sequence := 3%N;
       se_pending_approval_id := approval; se_uncertain_attempt_id := None |}.

Definition prompted : Value :=
  enc (PromptResult_codec binary_print binary_parse) {| pr_input_id := 9%N; pr_sequence := 1%N |}.

Definition attached : Value :=
  enc (AttachSessionResult_codec binary_print binary_parse)
    {| at_session_id := 1%N; at_state := WS_Running; at_replay_after_sequence := 0%N; at_last_sequence := 3%N |}.

(** The daemon answers the prompt, tells that no approval is pending, attaches, and sends
    [events]. *)
Definition daemon (approval : option Uuid) (events : list SessionEvent) : Socket :=
  {| so_pending_events := [];
     so_arrivals :=
       [AR_Reply (Success 0%N prompted); AR_Reply (Success 1%N (session approval))]
       ++ match approval with Some _ => [AR_Reply (Success 2%N VNull)] | None => [] end
       ++ [AR_Reply (Success (match approval with Some _ => 3 | None => 2 end)%N attached)]
       ++ (AR_Event <$> events);
     so_sent := []; so_next_id := 0%N; so_broken_writes := [] |}.

Definition answer : list SessionEvent :=
  [text_event 1%N 2%N "one"; event 1%N 3%N EK_SessionCompleted (VObject [("content", VString "two")]);
   text_event 1%N 4%N "late"].

Lemma socket_prompt_content_witness :
  ∃ s', socket_prompt binary_print binary_parse 5 (daemon None answer) 1%N "hi" = (s', Ok ["one"; "two"]) ∧
    ∃ taken, moved (daemon None answer) taken s' ∧ ends_only_last taken ∧
      ["one"; "two"] = match omap event_content taken with
                       | [] => ["workbench offline response"]
                       | content => content
                       end.
Proof.
  eexists. split; [by vm_compute|].
  apply (socket_prompt_content binary_print binary_parse 5 (daemon None answer) 1%N "hi"). by vm_compute.
Defined.

(** The events are not filtered by session: a prompt of session 1 returns the content of
    session 2 of the same connection and ends with it. *)
Example prompt_of_other_session :
  (socket_prompt binary_print binary_parse 5
     (daemon None [text_event 2%N 2%N "secret"; event 2%N 3%N EK_SessionCompleted VNull; text_event 1%N 2%N "own"])
     1%N "hi").2 = Ok ["secret"].
Proof. by vm_compute. Qed.

(** A pending approval is granted without a question to the client. *)
Example prompt_grants_approval :
  cc_command <$> so_sent (socket_prompt binary_print binary_parse 5 (daemon (Some 7%N) answer) 1%N "hi").1 =
  [prompt_command "hi"; SessionGet; grant_command 7%N; SessionAttach 0%N].
Proof. by vm_compute. Qed.

End Sample.
