(* ===== verification/AcpClient.v ===== *)
(** * AcpClient: an ACP agent as a provider
      (workbench-acp/src/error.rs, protocol.rs, transport.rs and supervisor.rs)

    One connection is shared by the calls of its clients, the tasks that wait for the
    outcomes of prompts, the reader and the writer of the pipe, and the supervisor of the
    child. A step is what one of them does between two points at which others may run:
    a section under a lock, an operation on an atomic flag or on a channel. [fail] is
    four such steps, so prompts start and end in the middle of it.

    Generated identifiers are new; a step that would reuse one does not exist. *)

From S2P Require Import Prelude Text BTree Errors Json Wire AgentFrames.

Inductive AcpErrorKind : Type :=
| AE_InvalidConfiguration | AE_SpawnFailed | AE_FrameTooLarge | AE_InvalidFrame
| AE_ProtocolViolation | AE_IncompatibleProtocol | AE_CapabilityUnavailable
| AE_AuthenticationRequired | AE_RequestFailed | AE_TransportClosed | AE_Timeout
| AE_ShuttingDown | AE_ReapFailed.

Record AcpError : Type := { ac_kind : AcpErrorKind; ac_message : string }.

Definition protocol_violation : AcpError :=
  {| ac_kind := AE_ProtocolViolation; ac_message := "ACP peer violated the protocol" |}.
Definition transport_closed : AcpError :=
  {| ac_kind := AE_TransportClosed; ac_message := "ACP transport is unavailable" |}.
Definition shutting_down : AcpError :=
  {| ac_kind := AE_ShuttingDown; ac_message := "ACP adapter is shutting down" |}.
Definition request_expired : AcpError :=
  {| ac_kind := AE_Timeout; ac_message := "ACP request deadline expired" |}.
Definition frame_too_large : AcpError :=
  {| ac_kind := AE_FrameTooLarge; ac_message := "ACP frame exceeds the configured limit" |}.

(** ** Messages *)

Inductive AuthenticationStatus : Type := AS_Available | AS_InteractiveRequired | AS_Unavailable.

Inductive AdapterHealth : Type :=
| AH_Starting | AH_Available | AH_AuthenticationRequired | AH_Incompatible | AH_Unavailable
| AH_Crashed | AH_ShuttingDown.

#[export] Instance AuthenticationStatus_eq_dec : EqDecision AuthenticationStatus.
Proof. solve_decision. Defined.
#[export] Instance AdapterHealth_eq_dec : EqDecision AdapterHealth.
Proof. solve_decision. Defined.

Record AcpCapabilities : Type := {
  acp_load_session : bool;
  acp_authentication : AuthenticationStatus;
  acp_agent_name : option string;
  acp_agent_version : option string;
}.

Inductive UpdateKind : Type :=
| UK_Acknowledged | UK_AgentMessage | UK_AgentThought | UK_ToolCall | UK_ToolCallUpdate | UK_Plan.

Record NormalizedUpdate : Type := { nu_kind : UpdateKind; nu_content : option Value }.

Definition acknowledged : NormalizedUpdate := {| nu_kind := UK_Acknowledged; nu_content := None |}.

Inductive StopReason : Type :=
| SR_EndTurn | SR_MaxTokens | SR_MaxTurnRequests | SR_Refusal | SR_Cancelled.

#[export] Instance StopReason_eq_dec : EqDecision StopReason.
Proof. solve_decision. Defined.

Definition ACP_PROTOCOL_VERSION : N := 1.

Definition as_bool (v : Value) : option bool := match v with VBool b => Some b | _ => None end.
Definition as_u64 (v : Value) : option N := match v with VNumber (PosInt n) => Some n | _ => None end.
Definition as_array (v : Value) : option (list Value) := match v with VArray vs => Some vs | _ => None end.
Definition is_integer (v : Value) : bool :=
  match v with VNumber (PosInt _) | VNumber (NegInt _) => true | _ => false end.

Definition validate_jsonrpc (value : Value) : Result (BTreeMap Value) AcpError :=
  let? object := ok_or (as_object value) protocol_violation in
  if bool_decide ((v ← bt_get "jsonrpc" object; as_str v) = Some "2.0") then Ok object
  else Err protocol_violation.

Definition validate_jsonrpc_id (value : Value) : Result unit AcpError :=
  match as_str value with
  | Some _ => Ok tt
  | None => if is_integer value then Ok tt else Err protocol_violation
  end.

Definition bounded_string (value : Value) : Result string AcpError :=
  let? value := ok_or (as_str value) protocol_violation in
  if is_empty value || (4096 <? len value)%N then Err protocol_violation else Ok value.

(** [Option::map] and [transpose] *)
Definition bounded_option (value : option Value) : Result (option string) AcpError :=
  match value with
  | Some value => result_map Some (bounded_string value)
  | None => Ok None
  end.

Definition method_id (method : Value) : Result string AcpError :=
  let? id := ok_or (object ← as_object method; bt_get "id" object) protocol_violation in
  bounded_string id.

Definition not_null (value : Value) : option Value :=
  match value with VNull => None | _ => Some value end.

Definition parse_auth_methods (object : BTreeMap Value) : Result (list string) AcpError :=
  let? auth_methods :=
    match bt_get "authMethods" object with
    | Some value => ok_or (as_array value) protocol_violation
    | None => Ok []
    end in
  try_collect method_id auth_methods.

Definition parse_default_method (object : BTreeMap Value) (method_ids : list string)
    : Result (option string) AcpError :=
  let? default_auth_method :=
    bounded_option (metadata ← (meta ← bt_get "_meta" object; as_object meta);
                    value ← bt_get "defaultAuthMethodId" metadata; not_null value) in
  match default_auth_method with
  | Some method => if set_contains method method_ids then Ok (Some method) else Err protocol_violation
  | None => Ok None
  end.

Definition parse_agent_info (object : BTreeMap Value)
    : Result (option string * option string) AcpError :=
  let? agent_info :=
    match bt_get "agentInfo" object with
    | Some value => result_map Some (ok_or (as_object value) protocol_violation)
    | None => Ok None
    end in
  let? agent_name := bounded_option (info ← agent_info; bt_get "name" info) in
  let? agent_version := bounded_option (info ← agent_info; bt_get "version" info) in
  Ok (agent_name, agent_version).

Definition parse_initialize (value : Value) : Result (AcpCapabilities * option string) AcpError :=
  let? object := ok_or (as_object value) protocol_violation in
  if negb (bool_decide ((v ← bt_get "protocolVersion" object; as_u64 v) = Some ACP_PROTOCOL_VERSION))
  then Err {| ac_kind := AE_IncompatibleProtocol; ac_message := "ACP protocol version is incompatible" |}
  else
    let? capabilities := ok_or (v ← bt_get "agentCapabilities" object; as_object v) protocol_violation in
    if negb (bool_decide ((v ← bt_get "loadSession" capabilities; as_bool v) = Some true))
    then Err {| ac_kind := AE_CapabilityUnavailable;
                ac_message := "required ACP capability is unavailable" |}
    else
      let? method_ids := parse_auth_methods object in
      let? default_auth_method := parse_default_method object method_ids in
      let authentication :=
        match default_auth_method, method_ids with
        | Some _, _ | None, [] => AS_Available
        | None, _ => AS_InteractiveRequired
        end in
      let? info := parse_agent_info object in
      Ok ({| acp_load_session := true; acp_authentication := authentication;
             acp_agent_name := info.1; acp_agent_version := info.2 |}, default_auth_method).

Definition session_from_id (session_id : string) : Result string AcpError :=
  if is_empty session_id || (4096 <? len session_id)%N then Err protocol_violation else Ok session_id.

Definition parse_session (value : Value) : Result string AcpError :=
  let? session_id := ok_or (object ← as_object value; bt_get "sessionId" object) protocol_violation in
  let? session_id := bounded_string session_id in
  session_from_id session_id.

Definition parse_prompt_outcome (value : Value) : Result StopReason AcpError :=
  let? stop_reason :=
    ok_or (object ← as_object value; reason ← bt_get "stopReason" object; as_str reason)
      protocol_violation in
  if String.eqb stop_reason "end_turn" then Ok SR_EndTurn
  else if String.eqb stop_reason "max_tokens" then Ok SR_MaxTokens
  else if String.eqb stop_reason "max_turn_requests" then Ok SR_MaxTurnRequests
  else if String.eqb stop_reason "refusal" then Ok SR_Refusal
  else if String.eqb stop_reason "cancelled" then Ok SR_Cancelled
  else Err protocol_violation.

Definition content_update (kind : UpdateKind) (update : BTreeMap Value)
    : Result (option NormalizedUpdate) AcpError :=
  let? content := ok_or (bt_get "content" update) protocol_violation in
  Ok (Some {| nu_kind := kind; nu_content := Some content |}).

Definition whole_update (kind : UpdateKind) (update : BTreeMap Value)
    : Result (option NormalizedUpdate) AcpError :=
  Ok (Some {| nu_kind := kind; nu_content := Some (VObject update) |}).

Definition parse_session_update (value : Value) : Result (string * option NormalizedUpdate) AcpError :=
  let? object := ok_or (as_object value) protocol_violation in
  let? session_id := ok_or (bt_get "sessionId" object) protocol_violation in
  let? session_id := bounded_string session_id in
  let? _ := session_from_id session_id in
  let? update := ok_or (v ← bt_get "update" object; as_object v) protocol_violation in
  let? kind := ok_or (v ← bt_get "sessionUpdate" update; as_str v) protocol_violation in
  let? normalized :=
    if String.eqb kind "agent_message_chunk" then content_update UK_AgentMessage update
    else if String.eqb kind "agent_thought_chunk" then content_update UK_AgentThought update
    else if String.eqb kind "tool_call" then whole_update UK_ToolCall update
    else if String.eqb kind "tool_call_update" then whole_update UK_ToolCallUpdate update
    else if String.eqb kind "plan" then whole_update UK_Plan update
    else Ok None in
  Ok (session_id, normalized).

(** ** The connection *)

Definition WRITE_QUEUE_DEPTH : nat := 64.
Definition UPDATE_QUEUE_DEPTH : nat := 256.
Definition FATAL_QUEUE_DEPTH : nat := 4.

Inductive WriteCommand : Type := WC_Frame (frame : string) | WC_Close (close : nat).

Inductive PromptState : Type := PS_Pending | PS_Terminal (outcome : Result StopReason AcpError).

(** The senders of the execution of a prompt call *)
Record PromptSink : Type := { sk_call : nat; sk_acknowledged : bool }.

Record Connection : Type := {
  cn_writer : list WriteCommand;
  cn_pending : gset string;
  cn_prompts : gmap string PromptSink;
  cn_closed : bool;
  cn_health : AdapterHealth;
  cn_fatal : list AcpError;
}.

Definition Connection_new : Connection :=
  {| cn_writer := []; cn_pending := ∅; cn_prompts := ∅; cn_closed := false; cn_health := AH_Starting;
     cn_fatal := [] |}.

(** [PromptExecution] and the flag of its [PromptControl]. [ex_receiving] tells that the
    execution was not dropped; [ex_taken] are the updates that [next] returned, and
    [ex_from] and [ex_until] count the frames handled when the prompt began and ended. *)
Record Execution : Type := {
  ex_updates : list NormalizedUpdate;
  ex_taken : list NormalizedUpdate;
  ex_state : PromptState;
  ex_finished : bool;
  ex_receiving : bool;
  ex_cancel_sent : bool;
  ex_from : nat;
  ex_until : option nat;
}.

Definition Execution_new (handled : nat) : Execution :=
  {| ex_updates := []; ex_taken := []; ex_state := PS_Pending; ex_finished := false;
     ex_receiving := true; ex_cancel_sent := false; ex_from := handled; ex_until := None |}.

(** A call of [request] or of [start_prompt] *)
Inductive Purpose : Type :=
| PU_Request (method : string) (params : Value)
| PU_Prompt (session_id : string) (prompt : Value).

(** How far the call is: before the check of the flag, the insertion of its identifier
    and the write of its frame; before the identifier of a failed write is removed; before
    the prompt of a failed request ends; waiting for the answer; over, with a prompt that
    was started or not; dropped by its caller. *)
Inductive Stage : Type :=
| ST_Check
| ST_Insert (id frame : string)
| ST_Enqueue (id frame : string)
| ST_Remove (id : string) (error : AcpError)
| ST_Abort (error : AcpError)
| ST_Await (id : string)
| ST_Done (started : bool)
| ST_Dropped.

Record Call : Type := { cl_purpose : Purpose; cl_stage : Stage }.

(** A call of [PromptControl::cancel] *)
Inductive CancelStage : Type := CT_Swap | CT_Check | CT_Send (frame : string) | CT_Wait.
Record Cancel : Type := { ca_call : nat; ca_stage : CancelStage }.

(** A call of [fail] and what its caller does next *)
Inductive FailStage : Type := FS_Close | FS_Health | FS_Pending | FS_Prompts | FS_Fatal.
Inductive FailCaller : Type := FB_Reader | FB_Writer | FB_Supervisor | FB_CloseWriter.
Record Failing : Type := {
  fl_error : AcpError;
  fl_health : AdapterHealth;
  fl_caller : FailCaller;
  fl_stage : FailStage;
}.

(** The task of the writer; once it ended the queue takes no more commands. *)
Inductive Writer : Type := WR_Running | WR_Failing | WR_Ended.

(** A call of [close_writer] *)
Inductive CloseStage : Type := CW_Send | CW_Wait.

(** The connection with the channels and calls around it. [w_responses] are the answers
    sent to the calls that wait; [w_ids] the identifiers generated; [w_handled] the frames
    the reader handled without an error; [w_drained] tells that a call of [fail] ended all
    prompts. *)
Record World : Type := {
  w_connection : Connection;
  w_responses : gmap string (Result Value AcpError);
  w_executions : gmap nat Execution;
  w_calls : gmap nat Call;
  w_cancels : gmap nat Cancel;
  w_fails : gmap nat Failing;
  w_closes : gmap nat CloseStage;
  w_reading : bool;
  w_writer : Writer;
  w_ids : gset string;
  w_handled : list Value;
  w_drained : bool;
}.

Definition World_new : World :=
  {| w_connection := Connection_new; w_responses := ∅; w_executions := ∅; w_calls := ∅; w_cancels := ∅;
     w_fails := ∅; w_closes := ∅; w_reading := true; w_writer := WR_Running; w_ids := ∅; w_handled := [];
     w_drained := false |}.

Inductive CancellationOutcome : Type := CO_Confirmed | CO_Unconfirmed.

Inductive PromptEvent : Type := PE_Update (update : NormalizedUpdate) | PE_Finished (reason : StopReason).

(** What callers see *)
Inductive Observation : Type :=
| Ob_Response (call : nat) (result : Result Value AcpError)
| Ob_PromptStarted (call : nat)
| Ob_PromptFailed (call : nat) (error : AcpError)
| Ob_Next (call : nat) (event : Result (option PromptEvent) AcpError)
| Ob_Cancellation (call : nat) (outcome : CancellationOutcome).

Inductive Op : Type :=
| Op_Request (call : nat) (method : string) (params : Value)
| Op_Start (call : nat) (session_id : string) (prompt : Value)
| Op_Check (call : nat) (id : string)
| Op_Insert (call : nat)
| Op_Enqueue (call : nat)
| Op_Expire (call : nat)
| Op_Remove (call : nat)
| Op_Abort (call : nat)
| Op_Respond (call : nat)
| Op_Next (call : nat)
| Op_Drop (call : nat)
| Op_Cancel (cancel call : nat)
| Op_CancelStep (cancel : nat)
| Op_CancelExpire (cancel : nat)
| Op_Read (fail : nat) (frame : Result (option Value) AcpError)
| Op_Write (fail : nat) (written : bool)
| Op_ChildExited (fail : nat) (status : bool)
| Op_Fail (fail : nat)
| Op_Close (close : nat)
| Op_CloseSend (close fail : nat)
| Op_CloseReceive (close fail : nat)
| Op_Health (health : AdapterHealth).

Definition on_connection f (x : World) : World :=
  {| w_connection := f (w_connection x); w_responses := w_responses x; w_executions := w_executions
     x; w_calls := w_calls x; w_cancels := w_cancels x; w_fails := w_fails x; w_closes := w_closes
     x; w_reading := w_reading x; w_writer := w_writer x; w_ids := w_ids x; w_handled := w_handled
     x; w_drained := w_drained x |}.
Definition on_responses f (x : World) : World :=
  {| w_connection := w_connection x; w_responses := f (w_responses x); w_executions := w_executions
     x; w_calls := w_calls x; w_cancels := w_cancels x; w_fails := w_fails x; w_closes := w_closes
     x; w_reading := w_reading x; w_writer := w_writer x; w_ids := w_ids x; w_handled := w_handled
     x; w_drained := w_drained x |}.
Definition on_executions f (x : World) : World :=
  {| w_connection := w_connection x; w_responses := w_responses x; w_executions := f (w_executions
     x); w_calls := w_calls x; w_cancels := w_cancels x; w_fails := w_fails x; w_closes := w_closes
     x; w_reading := w_reading x; w_writer := w_writer x; w_ids := w_ids x; w_handled := w_handled
     x; w_drained := w_drained x |}.
Definition on_calls f (x : World) : World :=
  {| w_connection := w_connection x; w_responses := w_responses x; w_executions := w_executions x;
     w_calls := f (w_calls x); w_cancels := w_cancels x; w_fails := w_fails x; w_closes := w_closes
     x; w_reading := w_reading x; w_writer := w_writer x; w_ids := w_ids x; w_handled := w_handled
     x; w_drained := w_drained x |}.
Definition on_cancels f (x : World) : World :=
  {| w_connection := w_connection x; w_responses := w_responses x; w_executions := w_executions x;
     w_calls := w_calls x; w_cancels := f (w_cancels x); w_fails := w_fails x; w_closes := w_closes
     x; w_reading := w_reading x; w_writer := w_writer x; w_ids := w_ids x; w_handled := w_handled
     x; w_drained := w_drained x |}.
Definition on_fails f (x : World) : World :=
  {| w_connection := w_connection x; w_responses := w_responses x; w_executions := w_executions x;
     w_calls := w_calls x; w_cancels := w_cancels x; w_fails := f (w_fails x); w_closes := w_closes
     x; w_reading := w_reading x; w_writer := w_writer x; w_ids := w_ids x; w_handled := w_handled
     x; w_drained := w_drained x |}.
Definition on_closes f (x : World) : World :=
  {| w_connection := w_connection x; w_responses := w_responses x; w_executions := w_executions x;
     w_calls := w_calls x; w_cancels := w_cancels x; w_fails := w_fails x; w_closes := f (w_closes
     x); w_reading := w_reading x; w_writer := w_writer x; w_ids := w_ids x; w_handled := w_handled
     x; w_drained := w_drained x |}.
Definition on_reading f (x : World) : World :=
  {| w_connection := w_connection x; w_responses := w_responses x; w_executions := w_executions x;
     w_calls := w_calls x; w_cancels := w_cancels x; w_fails := w_fails x; w_closes := w_closes x;
     w_reading := f (w_reading x); w_writer := w_writer x; w_ids := w_ids x; w_handled := w_handled
     x; w_drained := w_drained x |}.
Definition on_writer f (x : World) : World :=
  {| w_connection := w_connection x; w_responses := w_responses x; w_executions := w_executions x;
     w_calls := w_calls x; w_cancels := w_cancels x; w_fails := w_fails x; w_closes := w_closes x;
     w_reading := w_reading x; w_writer := f (w_writer x); w_ids := w_ids x; w_handled := w_handled
     x; w_drained := w_drained x |}.
Definition on_ids f (x : World) : World :=
  {| w_connection := w_connection x; w_responses := w_responses x; w_executions := w_executions x;
     w_calls := w_calls x; w_cancels := w_cancels x; w_fails := w_fails x; w_closes := w_closes x;
     w_reading := w_reading x; w_writer := w_writer x; w_ids := f (w_ids x); w_handled := w_handled
     x; w_drained := w_drained x |}.
Definition on_handled f (x : World) : World :=
  {| w_connection := w_connection x; w_responses := w_responses x; w_executions := w_executions x;
     w_calls := w_calls x; w_cancels := w_cancels x; w_fails := w_fails x; w_closes := w_closes x;
     w_reading := w_reading x; w_writer := w_writer x; w_ids := w_ids x; w_handled := f (w_handled
     x); w_drained := w_drained x |}.
Definition on_drained f (x : World) : World :=
  {| w_connection := w_connection x; w_responses := w_responses x; w_executions := w_executions x;
     w_calls := w_calls x; w_cancels := w_cancels x; w_fails := w_fails x; w_closes := w_closes x;
     w_reading := w_reading x; w_writer := w_writer x; w_ids := w_ids x; w_handled := w_handled x;
     w_drained := f (w_drained x) |}.

Definition conn_writer f (x : Connection) : Connection :=
  {| cn_writer := f (cn_writer x); cn_pending := cn_pending x; cn_prompts := cn_prompts x; cn_closed
     := cn_closed x; cn_health := cn_health x; cn_fatal := cn_fatal x |}.
Definition conn_pending f (x : Connection) : Connection :=
  {| cn_writer := cn_writer x; cn_pending := f (cn_pending x); cn_prompts := cn_prompts x; cn_closed
     := cn_closed x; cn_health := cn_health x; cn_fatal := cn_fatal x |}.
Definition conn_prompts f (x : Connection) : Connection :=
  {| cn_writer := cn_writer x; cn_pending := cn_pending x; cn_prompts := f (cn_prompts x); cn_closed
     := cn_closed x; cn_health := cn_health x; cn_fatal := cn_fatal x |}.
Definition conn_closed f (x : Connection) : Connection :=
  {| cn_writer := cn_writer x; cn_pending := cn_pending x; cn_prompts := cn_prompts x; cn_closed :=
     f (cn_closed x); cn_health := cn_health x; cn_fatal := cn_fatal x |}.
Definition conn_health f (x : Connection) : Connection :=
  {| cn_writer := cn_writer x; cn_pending := cn_pending x; cn_prompts := cn_prompts x; cn_closed :=
     cn_closed x; cn_health := f (cn_health x); cn_fatal := cn_fatal x |}.
Definition conn_fatal f (x : Connection) : Connection :=
  {| cn_writer := cn_writer x; cn_pending := cn_pending x; cn_prompts := cn_prompts x; cn_closed :=
     cn_closed x; cn_health := cn_health x; cn_fatal := f (cn_fatal x) |}.

Definition with_stage (call : nat) (stage : Stage) : World → World :=
  on_calls (alter (λ c, {| cl_purpose := cl_purpose c; cl_stage := stage |}) call).

Definition with_outcome (outcome : Result StopReason AcpError) (handled : nat) (e : Execution) : Execution :=
  {| ex_updates := ex_updates e; ex_taken := ex_taken e; ex_state := PS_Terminal outcome;
     ex_finished := ex_finished e; ex_receiving := ex_receiving e; ex_cancel_sent := ex_cancel_sent e;
     ex_from := ex_from e; ex_until := Some handled |}.

Definition with_updates (updates taken : list NormalizedUpdate) (e : Execution) : Execution :=
  {| ex_updates := updates; ex_taken := taken; ex_state := ex_state e;
     ex_finished := ex_finished e; ex_receiving := ex_receiving e; ex_cancel_sent := ex_cancel_sent e;
     ex_from := ex_from e; ex_until := ex_until e |}.

Definition with_flags (finished receiving cancel_sent : bool) (e : Execution) : Execution :=
  {| ex_updates := ex_updates e; ex_taken := ex_taken e; ex_state := ex_state e;
     ex_finished := finished; ex_receiving := receiving; ex_cancel_sent := cancel_sent;
     ex_from := ex_from e; ex_until := ex_until e |}.

Section world.
Context (print_json : Value → string).

(** A command enters the queue of the writer: [None] when it is full, [Some false] when
    the writer is gone. *)
Definition writer_send (command : WriteCommand) (w : World) : option (World * bool) :=
  match w_writer w with
  | WR_Ended => Some (w, false)
  | _ =>
      if decide (length (cn_writer (w_connection w)) < WRITE_QUEUE_DEPTH)
      then Some (on_connection (conn_writer (λ q, q ++ [command])) w, true) else None
  end.

(** [updates.try_send] *)
Definition try_send (call : nat) (update : NormalizedUpdate) (w : World) : World * bool :=
  match w_executions w !! call with
  | Some e =>
      if ex_receiving e && bool_decide (length (ex_updates e) < UPDATE_QUEUE_DEPTH)
      then (on_executions (alter (λ e, with_updates (ex_updates e ++ [update]) (ex_taken e) e) call) w, true)
      else (w, false)
  | None => (w, false)
  end.

(** *** Prompts *)

Definition finish_prompt (session_id : string) (outcome : Result StopReason AcpError) (w : World) : World :=
  match cn_prompts (w_connection w) !! session_id with
  | None => w
  | Some sink =>
      let w := on_connection (conn_prompts (delete session_id)) w in
      let w := if sk_acknowledged sink then w else (try_send (sk_call sink) acknowledged w).1 in
      on_executions (alter (with_outcome outcome (length (w_handled w))) (sk_call sink)) w
  end.

(** The start of [start_prompt] *)
Definition start_prompt (call : nat) (session_id : string) (prompt : Value) (w : World)
    : World * list Observation :=
  let purpose := PU_Prompt session_id prompt in
  match cn_prompts (w_connection w) !! session_id with
  | Some _ =>
      (on_calls <[call := {| cl_purpose := purpose; cl_stage := ST_Done false |}]> w,
       [Ob_PromptFailed call {| ac_kind := AE_ProtocolViolation;
                                ac_message := "ACP session already has an active prompt" |}])
  | None =>
      let w := on_connection
        (conn_prompts <[session_id := {| sk_call := call; sk_acknowledged := false |}]>) w in
      let w := on_executions <[call := Execution_new (length (w_handled w))]> w in
      (on_calls <[call := {| cl_purpose := purpose; cl_stage := ST_Check |}]> w, [])
  end.

(** *** Requests *)

Definition request_frame (id method : string) (params : Value) : Value :=
  VObject [("id", VString id); ("jsonrpc", VString "2.0"); ("method", VString method); ("params", params)].

Definition purpose_frame (id : string) (purpose : Purpose) : Value :=
  match purpose with
  | PU_Request method params => request_frame id method params
  | PU_Prompt _ prompt => request_frame id "session/prompt" prompt
  end.

(** [begin_request] returns an error. *)
Definition request_failed (call : nat) (purpose : Purpose) (error : AcpError) (w : World)
    : World * list Observation :=
  match purpose with
  | PU_Request _ _ => (with_stage call (ST_Done false) w, [Ob_Response call (Err error)])
  | PU_Prompt _ _ => (with_stage call (ST_Abort error) w, [])
  end.

(** The answer of a request, to the call or to the task of the prompt *)
Definition deliver (call : nat) (purpose : Purpose) (result : Result Value AcpError) (w : World)
    : World * list Observation :=
  match purpose with
  | PU_Request _ _ => (with_stage call (ST_Done false) w, [Ob_Response call result])
  | PU_Prompt session_id _ =>
      (with_stage call (ST_Done true)
         (finish_prompt session_id (let? value := result in parse_prompt_outcome value) w), [])
  end.

Definition remove_pending (id : string) : World → World :=
  on_connection (conn_pending (λ ids, ids ∖ {[id]})).

(** A step of a call; [id] is the identifier that is generated next. *)
Definition check_step (call : nat) (id : string) (w : World) : option (World * list Observation) :=
  c ← w_calls w !! call;
  match cl_stage c with
  | ST_Check =>
      if cn_closed (w_connection w) then Some (request_failed call (cl_purpose c) shutting_down w)
      else if decide (id ∈ w_ids w) then None
      else
        let w := on_ids (λ ids, {[id]} ∪ ids) w in
        match encode_frame frame_too_large print_json (purpose_frame id (cl_purpose c)) with
        | Err error => Some (request_failed call (cl_purpose c) error w)
        | Ok frame => Some (with_stage call (ST_Insert id frame) w, [])
        end
  | _ => None
  end.

Definition insert_step (call : nat) (w : World) : option (World * list Observation) :=
  c ← w_calls w !! call;
  match cl_stage c with
  | ST_Insert id frame =>
      Some (with_stage call (ST_Enqueue id frame)
              (on_connection (conn_pending (λ ids, {[id]} ∪ ids)) w), [])
  | _ => None
  end.

Definition enqueue_step (call : nat) (w : World) : option (World * list Observation) :=
  c ← w_calls w !! call;
  match cl_stage c with
  | ST_Enqueue id frame =>
      '(w, sent) ← writer_send (WC_Frame frame) w;
      if sent : bool
      then Some (with_stage call (ST_Await id) w,
                 match cl_purpose c with PU_Prompt _ _ => [Ob_PromptStarted call] | _ => [] end)
      else Some (with_stage call (ST_Remove id transport_closed) w, [])
  | _ => None
  end.

Definition expire_step (call : nat) (w : World) : option (World * list Observation) :=
  c ← w_calls w !! call;
  match cl_stage c, cl_purpose c with
  | ST_Enqueue id _, _ => Some (with_stage call (ST_Remove id request_expired) w, [])
  | ST_Await id, PU_Request _ _ =>
      Some (with_stage call (ST_Done false) (remove_pending id w), [Ob_Response call (Err request_expired)])
  | _, _ => None
  end.

Definition remove_step (call : nat) (w : World) : option (World * list Observation) :=
  c ← w_calls w !! call;
  match cl_stage c with
  | ST_Remove id error => Some (request_failed call (cl_purpose c) error (remove_pending id w))
  | _ => None
  end.

Definition abort_step (call : nat) (w : World) : option (World * list Observation) :=
  c ← w_calls w !! call;
  match cl_stage c, cl_purpose c with
  | ST_Abort error, PU_Prompt session_id _ =>
      Some (with_stage call (ST_Done false) (finish_prompt session_id (Err error) w),
            [Ob_PromptFailed call error])
  | _, _ => None
  end.

Definition respond_step (call : nat) (w : World) : option (World * list Observation) :=
  c ← w_calls w !! call;
  match cl_stage c with
  | ST_Await id => result ← w_responses w !! id; Some (deliver call (cl_purpose c) result w)
  | _ => None
  end.

(** The caller of a request or of [start_prompt] drops it, or drops the execution. *)
Definition drop_step (call : nat) (w : World) : option (World * list Observation) :=
  c ← w_calls w !! call;
  let w := on_executions (alter (λ e, with_flags (ex_finished e) false (ex_cancel_sent e) e) call) w in
  match cl_stage c, cl_purpose c with
  | ST_Done _, _ | ST_Await _, PU_Prompt _ _ => Some (w, [])
  | _, _ => Some (with_stage call ST_Dropped w, [])
  end.

(** *** Executions and their controls *)

(** [start_prompt] returned the execution. *)
Definition started (call : nat) (w : World) : bool :=
  match w_calls w !! call with
  | Some {| cl_purpose := PU_Prompt _ _; cl_stage := ST_Await _ |}
  | Some {| cl_purpose := PU_Prompt _ _; cl_stage := ST_Done true |} => true
  | _ => false
  end.

(** [PromptExecution::next] returns; while it waits there is no step. *)
Definition next_step (call : nat) (w : World) : option (World * list Observation) :=
  e ← w_executions w !! call;
  if negb (started call w && ex_receiving e) then None
  else if ex_finished e then Some (w, [Ob_Next call (Ok None)])
  else
    match ex_updates e, ex_state e with
    | update :: updates, _ =>
        Some (on_executions (alter (λ e, with_updates updates (ex_taken e ++ [update]) e) call) w,
              [Ob_Next call (Ok (Some (PE_Update update)))])
    | [], PS_Terminal outcome =>
        Some (on_executions (alter (λ e, with_flags true (ex_receiving e) (ex_cancel_sent e) e) call) w,
              [Ob_Next call (result_map (λ reason, Some (PE_Finished reason)) outcome)])
    | [], PS_Pending => None
    end.

Definition cancel_frame (session_id : string) : Value :=
  VObject [("jsonrpc", VString "2.0"); ("method", VString "session/cancel");
           ("params", VObject [("sessionId", VString session_id)])].

Definition cancelled (outcome : Result StopReason AcpError) : CancellationOutcome :=
  match outcome with Ok SR_Cancelled => CO_Confirmed | _ => CO_Unconfirmed end.

Definition cancel_ends (cancel call : nat) (outcome : CancellationOutcome) (w : World)
    : World * list Observation :=
  (on_cancels (delete cancel) w, [Ob_Cancellation call outcome]).

Definition cancel_moves (cancel call : nat) (stage : CancelStage) (w : World) : World * list Observation :=
  (on_cancels <[cancel := {| ca_call := call; ca_stage := stage |}]> w, []).

(** [PromptControl::cancel] *)
Definition cancel_step (cancel : nat) (w : World) : option (World * list Observation) :=
  k ← w_cancels w !! cancel;
  let call := ca_call k in
  e ← w_executions w !! call;
  match ca_stage k with
  | CT_Swap =>
      let w' := on_executions (alter (λ e, with_flags (ex_finished e) (ex_receiving e) true e) call) w in
      Some (cancel_moves cancel call (if ex_cancel_sent e then CT_Wait else CT_Check) w')
  | CT_Check =>
      if cn_closed (w_connection w) then Some (cancel_ends cancel call CO_Unconfirmed w)
      else
        match w_calls w !! call with
        | Some {| cl_purpose := PU_Prompt session_id _ |} =>
            match encode_frame frame_too_large print_json (cancel_frame session_id) with
            | Ok frame => Some (cancel_moves cancel call (CT_Send frame) w)
            | Err _ => Some (cancel_ends cancel call CO_Unconfirmed w)
            end
        | _ => None
        end
  | CT_Send frame =>
      '(w, sent) ← writer_send (WC_Frame frame) w;
      Some (if sent : bool then cancel_moves cancel call CT_Wait w
            else cancel_ends cancel call CO_Unconfirmed w)
  | CT_Wait =>
      match ex_state e with
      | PS_Terminal outcome => Some (cancel_ends cancel call (cancelled outcome) w)
      | PS_Pending => None
      end
  end.

(** *** Frames of the agent *)

Definition handle_reverse_request (id : Value) (method : string) (w : World) : World * Result unit AcpError :=
  let value :=
    VObject (if String.eqb method "session/request_permission"
             then [("id", id); ("jsonrpc", VString "2.0");
                   ("result", VObject [("outcome", VObject [("outcome", VString "cancelled")])])]
             else [("error", VObject [("code", VNumber (NegInt (-32601)));
                                      ("message", VString "method not found")]);
                   ("id", id); ("jsonrpc", VString "2.0")]) in
  match (let? _ := validate_jsonrpc_id id in encode_frame frame_too_large print_json value) with
  | Err error => (w, Err error)
  | Ok frame =>
      match writer_send (WC_Frame frame) w with
      | Some (w, true) => (w, Ok tt)
      | _ => (w, Err transport_closed)
      end
  end.

(** What a response says *)
Definition response_result (object : BTreeMap Value) : Result (Result Value AcpError) AcpError :=
  match bt_get "result" object, bt_get "error" object with
  | Some result, None => Ok (Ok result)
  | None, Some (VObject _) =>
      Ok (Err {| ac_kind := AE_RequestFailed; ac_message := "ACP request was rejected" |})
  | _, _ => Err protocol_violation
  end.

Definition handle_response (id : Value) (object : BTreeMap Value) (w : World) : World * Result unit AcpError :=
  match (let? id := ok_or (as_str id) protocol_violation in
         let? result := response_result object in Ok (id, result)) with
  | Err error => (w, Err error)
  | Ok (id, result) =>
      if decide (id ∈ cn_pending (w_connection w))
      then (on_responses <[id := result]> (remove_pending id w), Ok tt)
      else (w, Err protocol_violation)
  end.

Definition acknowledge_sink (session_id : string) : World → World :=
  on_connection (conn_prompts
    (alter (λ sink, {| sk_call := sk_call sink; sk_acknowledged := true |}) session_id)).

Definition handle_notification (method : string) (params : option Value) (w : World)
    : World * Result unit AcpError :=
  if negb (String.eqb method "session/update") then (w, Ok tt)
  else
    match (let? params := ok_or params protocol_violation in parse_session_update params) with
    | Err error => (w, Err error)
    | Ok (session_id, update) =>
        match cn_prompts (w_connection w) !! session_id with
        | None => (w, Ok tt)
        | Some sink =>
            let '(w, sent) :=
              if sk_acknowledged sink then (w, true) else try_send (sk_call sink) acknowledged w in
            if negb sent then (w, Err transport_closed)
            else
              let w := acknowledge_sink session_id w in
              match update with
              | None => (w, Ok tt)
              | Some update =>
                  let '(w, sent) := try_send (sk_call sink) update w in
                  (w, if sent then Ok tt else Err transport_closed)
              end
        end
    end.

Definition handle_incoming (value : Value) (w : World) : World * Result unit AcpError :=
  match validate_jsonrpc value with
  | Err error => (w, Err error)
  | Ok object =>
      match bt_get "id" object, (v ← bt_get "method" object; as_str v) with
      | Some id, Some method => handle_reverse_request id method w
      | Some id, None => handle_response id object w
      | None, Some method => handle_notification method (bt_get "params" object) w
      | None, None => (w, Err protocol_violation)
      end
  end.

(** *** Failures *)

Definition begin_fail (fail : nat) (error : AcpError) (health : AdapterHealth) (caller : FailCaller)
    (w : World) : option (World * list Observation) :=
  match w_fails w !! fail with
  | Some _ => None
  | None =>
      let f := {| fl_error := error; fl_health := health; fl_caller := caller; fl_stage := FS_Close |} in
      Some (on_fails <[fail := f]> w, [])
  end.

(** [spawn_reader] *)
Definition read_step (fail : nat) (frame : Result (option Value) AcpError) (w : World)
    : option (World * list Observation) :=
  if negb (w_reading w) then None
  else
    let stop error w := begin_fail fail error AH_Crashed FB_Reader (on_reading (λ _, false) w) in
    match frame with
    | Ok (Some value) =>
        match handle_incoming value w with
        | (w, Ok _) => Some (on_handled (λ handled, handled ++ [value]) w, [])
        | (w, Err error) => stop error w
        end
    | Ok None => stop transport_closed w
    | Err error => stop error w
    end.

(** [spawn_writer]; [written] tells that the pipe took the frame. *)
Definition write_step (fail : nat) (written : bool) (w : World) : option (World * list Observation) :=
  match w_writer w, cn_writer (w_connection w) with
  | WR_Running, WC_Frame _ :: queue =>
      let w := on_connection (conn_writer (λ _, queue)) w in
      if written then Some (w, [])
      else begin_fail fail transport_closed AH_Crashed FB_Writer (on_writer (λ _, WR_Failing) w)
  | WR_Running, WC_Close _ :: _ =>
      Some (on_writer (λ _, WR_Ended) (on_connection (conn_writer (λ _, [])) w), [])
  | _, _ => None
  end.

Definition drain_pending (error : AcpError) (w : World) : World :=
  let ids := elements (cn_pending (w_connection w)) in
  on_responses (λ r, foldr (λ id, <[id := Err error]>) r ids) (on_connection (conn_pending (λ _, ∅)) w).

Definition drain_prompts (error : AcpError) (w : World) : World :=
  let calls := (λ s : string * PromptSink, sk_call s.2) <$> map_to_list (cn_prompts (w_connection w)) in
  on_drained (λ _, true)
    (on_executions (λ e, foldr (alter (with_outcome (Err error) (length (w_handled w)))) e calls)
       (on_connection (conn_prompts (λ _, ∅)) w)).

(** What follows [fail] in the task that called it *)
Definition after_fail (f : Failing) (w : World) : World :=
  let report := on_connection (conn_fatal (λ fatal,
    if decide (length fatal < FATAL_QUEUE_DEPTH) then fatal ++ [fl_error f] else fatal)) in
  match fl_caller f with
  | FB_Reader => report w
  | FB_Writer => on_writer (λ _, WR_Ended) (on_connection (conn_writer (λ _, [])) (report w))
  | FB_Supervisor | FB_CloseWriter => w
  end.

(** [Connection::fail] *)
Definition fail_step (fail : nat) (w : World) : option (World * list Observation) :=
  f ← w_fails w !! fail;
  let moves stage := on_fails <[fail :=
    {| fl_error := fl_error f; fl_health := fl_health f; fl_caller := fl_caller f; fl_stage := stage |}]> in
  match fl_stage f with
  | FS_Close =>
      let next := if cn_closed (w_connection w) then FS_Pending else FS_Health in
      Some (moves next (on_connection (conn_closed (λ _, true)) w), [])
  | FS_Health => Some (moves FS_Pending (on_connection (conn_health (λ _, fl_health f)) w), [])
  | FS_Pending => Some (moves FS_Prompts (drain_pending (fl_error f) w), [])
  | FS_Prompts => Some (moves FS_Fatal (drain_prompts (fl_error f) w), [])
  | FS_Fatal => Some (on_fails (delete fail) (after_fail f w), [])
  end.

(** [close_writer]: the command enters the queue, or the writer is gone. *)
Definition close_send (close fail : nat) (w : World) : option (World * list Observation) :=
  stage ← w_closes w !! close;
  match stage with
  | CW_Send =>
      '(w, sent) ← writer_send (WC_Close close) w;
      if sent : bool then Some (on_closes <[close := CW_Wait]> w, [])
      else begin_fail fail shutting_down AH_ShuttingDown FB_CloseWriter (on_closes (delete close) w)
  | CW_Wait => None
  end.

(** The writer answered the command, or ended without. *)
Definition close_receive (close fail : nat) (w : World) : option (World * list Observation) :=
  stage ← w_closes w !! close;
  match stage, w_writer w with
  | CW_Wait, WR_Ended =>
      begin_fail fail shutting_down AH_ShuttingDown FB_CloseWriter (on_closes (delete close) w)
  | _, _ => None
  end.

(** *** Steps *)

Definition is_new {A} (key : nat) (m : gmap nat A) : bool := bool_decide (m !! key = None).

Definition step (op : Op) (w : World) : option (World * list Observation) :=
  match op with
  | Op_Request call method params =>
      if is_new call (w_calls w)
      then Some (on_calls <[call := {| cl_purpose := PU_Request method params; cl_stage := ST_Check |}]> w, [])
      else None
  | Op_Start call session_id prompt =>
      if is_new call (w_calls w) then Some (start_prompt call session_id prompt w) else None
  | Op_Check call id => check_step call id w
  | Op_Insert call => insert_step call w
  | Op_Enqueue call => enqueue_step call w
  | Op_Expire call => expire_step call w
  | Op_Remove call => remove_step call w
  | Op_Abort call => abort_step call w
  | Op_Respond call => respond_step call w
  | Op_Next call => next_step call w
  | Op_Drop call => drop_step call w
  | Op_Cancel cancel call =>
      if started call w && is_new cancel (w_cancels w) then Some (cancel_moves cancel call CT_Swap w) else None
  | Op_CancelStep cancel => cancel_step cancel w
  | Op_CancelExpire cancel =>
      k ← w_cancels w !! cancel; Some (cancel_ends cancel (ca_call k) CO_Unconfirmed w)
  | Op_Read fail frame => read_step fail frame w
  | Op_Write fail written => write_step fail written w
  | Op_ChildExited fail status =>
      begin_fail fail transport_closed (if status then AH_Unavailable else AH_Crashed) FB_Supervisor w
  | Op_Fail fail => fail_step fail w
  | Op_Close close =>
      if is_new close (w_closes w)
      then Some (on_closes <[close := CW_Send]> (on_connection (conn_closed (λ _, true)) w), []) else None
  | Op_CloseSend close fail => close_send close fail w
  | Op_CloseReceive close fail => close_receive close fail w
  | Op_Health health => Some (on_connection (conn_health (λ _, health)) w, [])
  end.

(** A run of the connection, with what its callers see *)
Inductive runs : list Op → World → list Observation → Prop :=
| runs_nil : runs [] World_new []
| runs_snoc ops w obs op w' obs' :
    runs ops w obs → step op w = Some (w', obs') → runs (ops ++ [op]) w' (obs ++ obs').
End world.
