(* ===== verification/AcpClientProps.v ===== *)
(** * AcpClientProps: what callers of an ACP connection can rely on

    Over every interleaving of calls, frames, failures and timeouts of [AcpClient]:
    outcomes and answers come from the agent, prompts that were started do not wait
    for ever once the connection failed, and updates arrive complete and in order. *)

From S2P Require Import Prelude Text BTree Errors Json Wire AgentFrames AcpClient.

(** ** Prompts and their sinks *)

Definition state_of (w : World) (call : nat) : option PromptState := ex_state <$> w_executions w !! call.
Definition sink_of (w : World) (session_id : string) : option nat :=
  sk_call <$> cn_prompts (w_connection w) !! session_id.

Definition live (stage : Stage) : Prop := match stage with ST_Done _ => False | _ => True end.
Definition early (stage : Stage) : Prop :=
  match stage with ST_Check | ST_Abort _ | ST_Dropped => True | _ => False end.
(** The flag was found unset. *)
Definition begun (stage : Stage) : Prop :=
  match stage with
  | ST_Insert _ _ | ST_Enqueue _ _ | ST_Remove _ _ | ST_Await _ | ST_Done true => True
  | _ => False
  end.
Definition stage_id (stage : Stage) : option string :=
  match stage with
  | ST_Insert id _ | ST_Enqueue id _ | ST_Remove id _ | ST_Await id => Some id
  | _ => None
  end.

Definition is_prompt (purpose : Purpose) : Prop := match purpose with PU_Prompt _ _ => True | _ => False end.

(** The frame answers the request [id] with [result]. *)
Definition is_answer (frame : Value) (id : string) (result : Value) : Prop :=
  ∃ object, as_object frame = Some object ∧ bt_get "id" object = Some (VString id) ∧
    bt_get "result" object = Some result ∧ bt_get "error" object = None.

(** The agent answered the request [id] with [result]. *)
Definition answered (ops : list Op) (id : string) (result : Value) : Prop :=
  ∃ fail frame, Op_Read fail (Ok (Some frame)) ∈ ops ∧ is_answer frame id result.

(** The agent answered the request that the call sent. *)
Definition call_answered (ops : list Op) (call : nat) (result : Value) : Prop :=
  ∃ id, Op_Check call id ∈ ops ∧ answered ops id result.

Definition outcome_answered (ops : list Op) (call : nat) (reason : StopReason) : Prop :=
  ∃ result, call_answered ops call result ∧ parse_prompt_outcome result = Ok reason.

(** What an observation says is what the agent said. *)
Definition truthful (ops : list Op) (observation : Observation) : Prop :=
  match observation with
  | Ob_Response call (Ok result) => call_answered ops call result
  | Ob_Next call (Ok (Some (PE_Finished reason))) => outcome_answered ops call reason
  | Ob_Cancellation call CO_Confirmed => outcome_answered ops call SR_Cancelled
  | _ => True
  end.

Record Good (ops : list Op) (w : World) : Prop := {
  G_live call session_id prompt stage :
    w_calls w !! call = Some {| cl_purpose := PU_Prompt session_id prompt; cl_stage := stage |} →
    live stage → sink_of w session_id = Some call ∨ w_drained w = true;
  G_sink session_id call :
    sink_of w session_id = Some call →
    state_of w call = Some PS_Pending ∧ ∃ prompt stage,
      w_calls w !! call = Some {| cl_purpose := PU_Prompt session_id prompt; cl_stage := stage |} ∧
      live stage ∧ (w_drained w = true → early stage);
  G_pending call :
    state_of w call = Some PS_Pending → ∃ session_id, sink_of w session_id = Some call;
  G_execution call :
    is_Some (state_of w call) → ∃ c, w_calls w !! call = Some c ∧ is_prompt (cl_purpose c);
  G_closed : w_drained w = true → cn_closed (w_connection w) = true;
  G_fail fail f :
    w_fails w !! fail = Some f →
    (fl_stage f ≠ FS_Close → cn_closed (w_connection w) = true) ∧
    (fl_stage f = FS_Fatal → w_drained w = true);
  G_reading : w_reading w = false → w_drained w = true ∨ w_fails w ≠ ∅;
  G_ids call c id :
    w_calls w !! call = Some c → stage_id (cl_stage c) = Some id → Op_Check call id ∈ ops;
  G_answers id result : w_responses w !! id = Some (Ok result) → answered ops id result;
  G_outcome call c reason :
    w_calls w !! call = Some c → begun (cl_stage c) →
    state_of w call = Some (PS_Terminal (Ok reason)) → outcome_answered ops call reason;
  G_cancel cancel c : w_cancels w !! cancel = Some c → started (ca_call c) w = true;
}.

(** The worlds differ in nothing the invariant speaks of. *)
Record same (w w' : World) : Prop := {
  same_sink session_id : sink_of w' session_id = sink_of w session_id;
  same_state call : state_of w' call = state_of w call;
  same_calls : w_calls w' = w_calls w;
  same_drained : w_drained w' = w_drained w;
  same_closed : cn_closed (w_connection w') = cn_closed (w_connection w);
  same_fails : w_fails w' = w_fails w;
  same_reading : w_reading w' = w_reading w;
  same_responses : w_responses w' = w_responses w;
  same_cancels : w_cancels w' = w_cancels w;
}.

#[global] Instance same_refl : Reflexive same.
Proof. done. Qed.
#[global] Instance same_trans : Transitive same.
Proof. intros ??? [] []. split; intros; etrans; eauto. Qed.

Lemma answered_mono ops op id result : answered ops id result → answered (ops ++ [op]) id result.
Proof. intros (f & fr & ? & ?). exists f, fr. split; [set_solver|done]. Qed.

Lemma call_answered_mono ops op call result : call_answered ops call result → call_answered (ops ++ [op]) call result.
Proof. intros (id & ? & ?%(answered_mono _ op)). exists id. split; [set_solver|done]. Qed.

Lemma outcome_mono ops op call reason :
  outcome_answered ops call reason → outcome_answered (ops ++ [op]) call reason.
Proof. intros (r & ?%(call_answered_mono _ op) & ?). by exists r. Qed.

Lemma truthful_mono ops op ob : truthful ops ob → truthful (ops ++ [op]) ob.
Proof.
  destruct ob as [? []| | |? [[[]|]|]|? []]; simpl; auto using call_answered_mono, outcome_mono.
Qed.

Create HintDb acp.
#[export] Hint Resolve answered_mono call_answered_mono outcome_mono : acp.

Lemma started_same w w' call : w_calls w' = w_calls w → started call w' = started call w.
Proof. unfold started. by intros ->. Qed.

Lemma good_same ops w w' : same w w' → Good ops w → Good ops w'.
Proof.
  intros [Hsi Hst Hca Hdr Hcl Hfa Hre Hrs Hcn] []. split.
  - intros ????. rewrite Hca, Hsi, Hdr. eauto.
  - intros ??. rewrite Hsi, Hst, Hca, Hdr. eauto.
  - intros ?. rewrite Hst. intros [s Hs]%G_pending0. exists s. by rewrite Hsi.
  - intros ?. rewrite Hst, Hca. eauto.
  - rewrite Hdr, Hcl. eauto.
  - intros ??. rewrite Hfa, Hdr, Hcl. eauto.
  - rewrite Hre, Hdr, Hfa. eauto.
  - intros ???. rewrite Hca. eauto.
  - intros ??. rewrite Hrs. eauto.
  - intros ???. rewrite Hca, Hst. eauto.
  - intros ??. rewrite Hcn, (started_same w w') by done. eauto.
Qed.

Lemma good_mono ops op w : Good ops w → Good (ops ++ [op]) w.
Proof.
  intros []. split; eauto with acp. intros call c id Hc Hid. apply elem_of_app. left. by eapply G_ids0.
Qed.

(** ** Steps that keep prompts and calls *)

Lemma state_alter call f w i :
  (∀ e, ex_state (f e) = ex_state e) → state_of (on_executions (alter f call) w) i = state_of w i.
Proof.
  intros Hf. unfold state_of. simpl. rewrite lookup_alter. case_decide; [subst|done].
  destruct (w_executions w !! i); simpl; [by rewrite Hf|done].
Qed.

Lemma same_executions call f w :
  (∀ e, ex_state (f e) = ex_state e) → same w (on_executions (alter f call) w).
Proof. intros Hf. split; try done. intros i. by apply state_alter. Qed.

Lemma same_connection f w :
  (∀ c, cn_prompts (f c) = cn_prompts c ∧ cn_closed (f c) = cn_closed c) → same w (on_connection f w).
Proof.
  intros Hf. destruct (Hf (w_connection w)) as [Hp Hc]. split; try done.
  intros s. unfold sink_of. simpl. by rewrite Hp.
Qed.

Lemma same_acknowledge session_id w : same w (acknowledge_sink session_id w).
Proof.
  split; try done. intros s. unfold sink_of, acknowledge_sink. simpl. rewrite lookup_alter.
  case_decide; [subst|done]. by destruct (cn_prompts _ !! s).
Qed.

Lemma same_try_send call update w : same w (try_send call update w).1.
Proof. unfold try_send. repeat case_match; simpl; try done. by apply same_executions. Qed.

Lemma same_writer_send command w w' sent : writer_send command w = Some (w', sent) → same w w'.
Proof. unfold writer_send. intros. repeat case_match; simplify_eq; try done; by apply same_connection. Qed.

#[export] Hint Resolve same_refl same_executions same_connection same_acknowledge same_try_send
  same_writer_send : acp.

Lemma same_notification method params w : same w (handle_notification method params w).1.
Proof.
  unfold handle_notification. case_match; [done|]. destruct (let? _ := _ in _) as [[s update]|]; [|done].
  destruct (cn_prompts _ !! s) as [sink|]; [|done].
  assert (same w (if sk_acknowledged sink then (w, true) else try_send (sk_call sink) acknowledged w).1) as H1
    by (case_match; auto with acp).
  destruct (if sk_acknowledged sink then _ else _) as [w1 [|]]; simpl in *; [|done].
  destruct update as [u|]; simpl; [|etrans; [done|apply same_acknowledge]].
  pose proof (same_try_send (sk_call sink) u (acknowledge_sink s w1)).
  destruct (try_send _ _ (acknowledge_sink s w1)). simpl in *. etrans; [done|].
  etrans; [apply same_acknowledge|done].
Qed.

Lemma same_reverse_request print_json id method w : same w (handle_reverse_request print_json id method w).1.
Proof.
  unfold handle_reverse_request. destruct (let? _ := _ in _); [|done].
  destruct (writer_send _ w) as [[w' []]|] eqn:Hs; try done. eauto with acp.
Qed.

(** ** Calls *)

Lemma lookup_stage w call stage i :
  w_calls (with_stage call stage w) !! i =
  if decide (call = i) then (λ c, {| cl_purpose := cl_purpose c; cl_stage := stage |}) <$> w_calls w !! i
  else w_calls w !! i.
Proof. unfold with_stage. simpl. rewrite lookup_alter. case_decide; by subst. Qed.

Lemma started_stage w call stage i :
  (started call w = true → match stage with ST_Await _ | ST_Done true => True | _ => False end) →
  started i w = true → started i (with_stage call stage w) = true.
Proof.
  intros Hs. unfold started. rewrite lookup_stage. case_decide as Hi; [subst i|done].
  unfold started in Hs. destruct (w_calls w !! call) as [[[] st]|]; simpl; try done.
  intros Hold. specialize (Hs Hold). by destruct stage as [| | | | | |[]|].
Qed.

(** A call moves on without an effect on prompts. *)
Lemma good_stage ops op w call c stage :
  w_calls w !! call = Some c → live (cl_stage c) → Good ops w →
  (is_prompt (cl_purpose c) → live stage ∧ (∀ id, cl_stage c ≠ ST_Await id) ∧
     (w_drained w = true → early (cl_stage c) → early stage) ∧
     (begun stage → begun (cl_stage c) ∨ w_drained w = false)) →
  (begun stage → live stage) →
  (∀ id, stage_id stage = Some id → stage_id (cl_stage c) = Some id ∨ op = Op_Check call id) →
  Good (ops ++ [op]) (with_stage call stage w).
Proof.
  intros Hc Hlive Hg Hprompt Hbl Hid. pose proof (good_mono _ op _ Hg) as Hm. split.
  - intros i s p st. rewrite lookup_stage. case_decide; [subst i|apply Hm]. rewrite Hc. simpl.
    intros [= Hp <-] _. destruct c as [pu st']; simpl in *. subst pu. by eapply (G_live _ _ Hg).
  - intros s i Hs. apply (G_sink _ _ Hg) in Hs as (Hst & p & st & Hi & Hl & He). split; [done|].
    rewrite lookup_stage. case_decide; [subst i|by exists p, st]. rewrite Hi. simpl.
    rewrite Hc in Hi. simplify_eq/=. destruct (Hprompt I) as (? & _ & Hearly & _). exists p, stage. eauto.
  - apply Hm.
  - intros i (c' & Hi & Hp)%(G_execution _ _ Hg). rewrite lookup_stage. case_decide; [|by exists c'].
    rewrite Hi. by eexists.
  - apply Hm.
  - apply Hm.
  - apply Hm.
  - intros i c' id. rewrite lookup_stage. case_decide; [subst i|apply Hm]. rewrite Hc. intros [= <-]. simpl.
    intros Hs. apply elem_of_app. destruct (Hid _ Hs) as [Ho| ->]; [left; by eapply (G_ids _ _ Hg)|right; set_solver].
  - apply Hm.
  - intros i c' r. rewrite lookup_stage. case_decide; [subst i|apply Hm]. rewrite Hc. intros [= <-]. simpl.
    intros Hb Hr. destruct c as [[m ps|s p] st]; simpl in *.
    + apply mk_is_Some, (G_execution _ _ Hg) in Hr as (c' & Hc' & Hp). by rewrite Hc in Hc'; simplify_eq.
    + destruct (Hprompt I) as (_ & _ & _ & [Ho|Hd]%(λ H, H Hb)); [by eapply (G_outcome _ _ Hm)|].
      destruct (G_live _ _ Hg _ _ _ _ Hc Hlive) as [Hs|]; [|congruence].
      apply (G_sink _ _ Hg) in Hs as [Hs _]. change (state_of w call = Some (PS_Terminal (Ok r))) in Hr. congruence.
  - intros k c' Hk%(G_cancel _ _ Hg). apply started_stage; [|done].
    unfold started. rewrite Hc. destruct c as [[m ps|s p] st]; simpl in *; [done|].
    destruct (Hprompt I) as (_ & Hno & _). destruct st; try done. by edestruct Hno.
Qed.

(** What is left of [same] when prompts change *)
Record same_rest (w w' : World) : Prop := {
  rest_calls : w_calls w' = w_calls w;
  rest_drained : w_drained w' = w_drained w;
  rest_closed : cn_closed (w_connection w') = cn_closed (w_connection w);
  rest_fails : w_fails w' = w_fails w;
  rest_reading : w_reading w' = w_reading w;
  rest_responses : w_responses w' = w_responses w;
  rest_cancels : w_cancels w' = w_cancels w;
}.

Lemma finish_prompt_view s outcome w :
  (∀ s', sink_of (finish_prompt s outcome w) s' = if decide (s = s') then None else sink_of w s') ∧
  (∀ i, state_of (finish_prompt s outcome w) i =
        if decide (sink_of w s = Some i) then (λ _, PS_Terminal outcome) <$> state_of w i else state_of w i) ∧
  same_rest w (finish_prompt s outcome w).
Proof.
  destruct (sink_of w s) as [call|] eqn:Hsink; unfold sink_of in Hsink |- *; unfold finish_prompt.
  2: { destruct (cn_prompts (w_connection w) !! s) eqn:Hs; [done|]. split_and!; [|done|done].
       intros s'. case_decide; [subst s'|done]. by rewrite Hs. }
  destruct (cn_prompts (w_connection w) !! s) as [sink|] eqn:Hs; simpl in *; [|done]. injection Hsink as <-.
  set (w1 := on_connection (conn_prompts (delete s)) w).
  set (w2 := if sk_acknowledged sink then w1 else (try_send (sk_call sink) acknowledged w1).1).
  assert (same w1 w2) as H12 by (unfold w2; case_match; auto with acp).
  split_and!.
  - intros s'. transitivity (sink_of w1 s'); [by rewrite <-(same_sink _ _ H12)|].
    unfold w1, sink_of. simpl. rewrite lookup_delete. by case_decide.
  - intros i. change (state_of w i) with (state_of w1 i). rewrite <-(same_state _ _ H12).
    unfold state_of. simpl. rewrite lookup_alter. case_decide; [subst i|]; rewrite ?decide_True, ?decide_False by congruence; [|done].
    by destruct (w_executions w2 !! _).
  - destruct H12. by split.
Qed.

(** The call of a prompt ends: its own sink is gone with it, or the connection failed and
    the sink of a call that will not start is. *)
Lemma good_finish ops op w call s p stage outcome ok :
  w_calls w !! call = Some {| cl_purpose := PU_Prompt s p; cl_stage := stage |} → live stage → Good ops w →
  (∀ id, stage = ST_Await id → ok = true) →
  (∀ reason, outcome = Ok reason → outcome_answered (ops ++ [op]) call reason) →
  (ok = true → begun stage) →
  Good (ops ++ [op]) (with_stage call (ST_Done ok) (finish_prompt s outcome w)).
Proof.
  intros Hc Hlive Hg Hawait Hans Hbeg. pose proof (good_mono _ op _ Hg) as Hm.
  destruct (finish_prompt_view s outcome w) as (Hsink & Hstate & [Hca Hdr Hcl Hfa Hre Hrs Hcn]).
  set (w1 := finish_prompt s outcome w) in *. pose proof (G_live _ _ Hg _ _ _ _ Hc Hlive) as Hown.
  split.
  - intros i s' p' st. rewrite lookup_stage, Hca. case_decide.
    { subst i. rewrite Hc. intros [= _ _ <-]. done. }
    intros Hi Hl. destruct (G_live _ _ Hg _ _ _ _ Hi Hl) as [Hs|Hd]; [|right; simpl; by rewrite Hdr].
    destruct Hown as [Hs'|Hd]; [|right; simpl; by rewrite Hdr]. left.
    change (sink_of w1 s' = Some i). rewrite Hsink. case_decide; [subst s'; congruence|done].
  - intros s' i. change (sink_of w1 s' = Some i → state_of w1 i = Some PS_Pending ∧ ∃ p st,
      w_calls (with_stage call (ST_Done ok) w1) !! i = Some {| cl_purpose := PU_Prompt s' p; cl_stage := st |} ∧
      live st ∧ (w_drained w1 = true → early st)).
    rewrite Hsink. case_decide as Hne; [done|]. intros Hs.
    destruct (G_sink _ _ Hg _ _ Hs) as (Hst & p' & st & Hi & Hl & He).
    assert (sink_of w s ≠ Some i) as Hni.
    { intros Hs'. apply (G_sink _ _ Hg) in Hs' as (_ & p2 & st2 & Hi2 & _). congruence. }
    split; [by rewrite Hstate, decide_False by done|]. exists p', st.
    rewrite lookup_stage, Hca, Hdr, decide_False by congruence. done.
  - intros i. change (state_of w1 i = Some PS_Pending → ∃ s, sink_of w1 s = Some i).
    rewrite Hstate. case_decide as Hne; [by destruct (state_of w i)|]. intros [s' Hs]%(G_pending _ _ Hg).
    exists s'. rewrite Hsink. case_decide; [congruence|done].
  - intros i. change (is_Some (state_of w1 i) → ∃ c, w_calls (with_stage call (ST_Done ok) w1) !! i = Some c ∧
      is_prompt (cl_purpose c)). rewrite Hstate, lookup_stage, Hca. intros Hi.
    assert (is_Some (state_of w i)) as (c' & Hi' & Hp)%(G_execution _ _ Hg).
    { revert Hi. case_decide; [|done]. by destruct (state_of w i). }
    rewrite Hi'. destruct (decide (call = i)); by eexists.
  - simpl. rewrite Hdr, Hcl. apply Hm.
  - simpl. intros ??. rewrite Hfa, Hdr, Hcl. by eapply (G_fail _ _ Hm).
  - simpl. rewrite Hre, Hdr, Hfa. apply Hm.
  - intros i c' id. rewrite lookup_stage, Hca. case_decide; [subst i; rewrite Hc; by intros [= <-]|apply Hm].
  - simpl. intros id r. rewrite Hrs. apply Hm.
  - intros i c' r. rewrite lookup_stage, Hca. change (state_of (with_stage _ _ w1) i) with (state_of w1 i).
    rewrite Hstate. intros Hi Hb Hr. case_decide as Hs.
    + assert (outcome = Ok r) as -> by (destruct (state_of w i); by simplify_eq/=).
      destruct Hown as [Hs'|Hd].
      * assert (i = call) as -> by congruence. by apply Hans.
      * destruct (G_sink _ _ Hg _ _ Hs) as (_ & p' & st & Hi' & _ & He). specialize (He Hd).
        case_decide; [subst i; by apply Hans|]. rewrite Hi' in Hi. simplify_eq/=. by destruct st.
    + case_decide; [subst i|by eapply (G_outcome _ _ Hm)]. rewrite Hc in Hi. simplify_eq/=.
      destruct ok; [|done]. eapply (G_outcome _ _ Hm); [done| |done]. by apply Hbeg.
  - intros k c' Hk. simpl in Hk. rewrite Hcn in Hk. apply (G_cancel _ _ Hg) in Hk.
    rewrite <-(started_same w w1) in Hk by done. apply started_stage; [|done].
    rewrite (started_same w w1) by done. unfold started. rewrite Hc. destruct stage; try done.
    by rewrite (Hawait _ eq_refl).
Qed.

(** A call that starts without a prompt *)
Lemma good_new_call ops op w call c :
  w_calls w !! call = None → Good ops w →
  (is_prompt (cl_purpose c) → ¬ live (cl_stage c)) → ¬ begun (cl_stage c) → stage_id (cl_stage c) = None →
  Good (ops ++ [op]) (on_calls <[call := c]> w).
Proof.
  intros Hnew Hg Hp Hb Hid. pose proof (good_mono _ op _ Hg) as Hm.
  assert (∀ i c', w_calls w !! i = Some c' → <[call := c]> (w_calls w) !! i = Some c') as Hold.
  { intros i c' Hi. by rewrite lookup_insert_ne by congruence. }
  split; simpl; try apply Hm.
  - intros i s p st [[<- ->]|[_ Hi]]%lookup_insert_Some Hl; [by destruct (Hp I)|by eapply (G_live _ _ Hm)].
  - intros s i (Hst & p & st & Hi & Hr)%(G_sink _ _ Hm). split; [done|]. exists p, st. split; [by apply Hold|done].
  - intros i (c' & Hi & Hc)%(G_execution _ _ Hm). exists c'. split; [by apply Hold|done].
  - intros i c' id [[<- ->]|[_ Hi]]%lookup_insert_Some Hs; [congruence|by eapply (G_ids _ _ Hm)].
  - intros i c' r [[<- ->]|[_ Hi]]%lookup_insert_Some Hs; [done|by eapply (G_outcome _ _ Hm)].
  - intros k c' Hk%(G_cancel _ _ Hg). unfold started in *. simpl.
    destruct (w_calls w !! ca_call c') eqn:Hi; [by rewrite (Hold _ _ Hi)|done].
Qed.

(** A call that starts with a prompt *)
Lemma good_start ops op w call s prompt :
  w_calls w !! call = None → Good ops w → Good (ops ++ [op]) (start_prompt call s prompt w).1.
Proof.
  intros Hnew Hg. pose proof (good_mono _ op _ Hg) as Hm. unfold start_prompt.
  destruct (cn_prompts (w_connection w) !! s) as [sink|] eqn:Hs.
  { by apply good_new_call; simpl; auto. }
  set (w' := (_, _).1). assert (sink_of w s = None) as Hs0 by (unfold sink_of; by rewrite Hs).
  assert (∀ i c', w_calls w !! i = Some c' → w_calls w' !! i = Some c') as Hold.
  { intros i c' Hi. simpl. by rewrite lookup_insert_ne by congruence. }
  assert (∀ s', sink_of w' s' = if decide (s = s') then Some call else sink_of w s') as Hsink.
  { intros s'. unfold sink_of. simpl. rewrite lookup_insert. by case_decide. }
  assert (∀ i, state_of w' i = if decide (call = i) then Some PS_Pending else state_of w i) as Hstate.
  { intros i. unfold state_of. simpl. rewrite lookup_insert. by case_decide. }
  assert (∀ i, is_Some (state_of w i) → call ≠ i) as Hne.
  { intros i (c & Hc & _)%(G_execution _ _ Hg). congruence. }
  split.
  - intros i s' p st. simpl. intros [[<- [= <- _ _]]|[_ Hi]]%lookup_insert_Some Hl.
    + left. by rewrite Hsink, decide_True.
    + destruct (G_live _ _ Hg _ _ _ _ Hi Hl) as [Ho|?]; [|by right]. left. rewrite Hsink.
      case_decide; [congruence|done].
  - intros s' i. rewrite Hsink, Hstate. case_decide as Hss.
    + subst s'. intros [= <-]. rewrite decide_True by done. split; [done|]. exists prompt, ST_Check.
      simpl. by rewrite lookup_insert_eq.
    + intros (Hst & p & st & Hi & Hr)%(G_sink _ _ Hg). rewrite decide_False by eauto. split; [done|].
      exists p, st. split; [by apply Hold|done].
  - intros i. rewrite Hstate. case_decide; [subst i; intros _; exists s; by rewrite Hsink, decide_True|].
    intros [s' Hs']%(G_pending _ _ Hg). exists s'. rewrite Hsink. case_decide; [congruence|done].
  - intros i. rewrite Hstate. case_decide as Hi.
    + subst i. intros _. eexists. simpl. by rewrite lookup_insert_eq.
    + intros (c & Hc & Hp)%(G_execution _ _ Hg). exists c. split; [by apply Hold|done].
  - apply Hm.
  - apply Hm.
  - apply Hm.
  - intros i c' id. simpl. intros [[<- <-]|[_ Hi]]%lookup_insert_Some Hx; [done|by eapply (G_ids _ _ Hm)].
  - apply Hm.
  - intros i c' r. rewrite Hstate. simpl.
    intros [[<- <-]|[Hi Hi']]%lookup_insert_Some Hx; [done|]. rewrite decide_False by done. by apply (G_outcome _ _ Hm i c').
  - intros k c' Hk%(G_cancel _ _ Hg). unfold started in *.
    destruct (w_calls w !! ca_call c') eqn:Hi; [by rewrite (Hold _ _ Hi)|done].
Qed.

(** ** Failures, answers and cancellations *)

Lemma good_fails ops op w fails :
  Good ops w →
  (∀ fail f, fails !! fail = Some f →
    (fl_stage f ≠ FS_Close → cn_closed (w_connection w) = true) ∧ (fl_stage f = FS_Fatal → w_drained w = true)) →
  (w_reading w = false → w_drained w = true ∨ fails ≠ ∅) →
  Good (ops ++ [op]) (on_fails (λ _, fails) w).
Proof. intros Hg%(good_mono _ op) Hf Hr. by split; simpl; try apply Hg. Qed.

Lemma good_cancels ops op w cancels :
  Good ops w → (∀ k c, cancels !! k = Some c → started (ca_call c) w = true) →
  Good (ops ++ [op]) (on_cancels (λ _, cancels) w).
Proof. intros Hg%(good_mono _ op) Hc. by split; simpl; try apply Hg. Qed.

Lemma good_responses ops op w responses :
  Good ops w → (∀ id result, responses !! id = Some (Ok result) → answered (ops ++ [op]) id result) →
  Good (ops ++ [op]) (on_responses (λ _, responses) w).
Proof. intros Hg%(good_mono _ op) Hc. by split; simpl; try apply Hg. Qed.

Lemma good_closed ops w : Good ops w → Good ops (on_connection (conn_closed (λ _, true)) w).
Proof. intros Hg. split; simpl; try apply Hg; [done|]. intros f fl Hf%(G_fail _ _ Hg). naive_solver. Qed.

Lemma begin_fail_good ops op w w1 w' obs fail error health caller reading :
  Good ops w → same (on_reading reading w) w1 →
  begin_fail fail error health caller w1 = Some (w', obs) → Good (ops ++ [op]) w' ∧ obs = [].
Proof.
  intros Hg Hs. unfold begin_fail. destruct (w_fails w1 !! fail) eqn:Hf; [done|]. intros [= <- <-].
  split; [|done]. pose proof (good_mono _ op _ Hg) as Hm.
  change (on_fails <[fail:=_]> w1) with (on_fails (λ _, <[fail := {| fl_error := error; fl_health := health;
    fl_caller := caller; fl_stage := FS_Close |}]> (w_fails w1)) w1).
  assert (∀ x, x ∈ ops → x ∈ ops ++ [op]) as Hin by set_solver.
  destruct Hs as [Hsi Hst Hca Hdr Hcl Hfa _ Hrs Hcn]. split; simpl.
  - intros ????. rewrite Hca, Hdr. change (sink_of (on_fails _ w1)) with (sink_of w1). rewrite Hsi. by apply (G_live _ _ Hm).
  - intros ??. change (sink_of (on_fails _ w1)) with (sink_of w1). change (state_of (on_fails _ w1)) with (state_of w1).
    rewrite Hca, Hdr, Hsi, Hst. apply (G_sink _ _ Hm).
  - intros ?. change (state_of (on_fails _ w1)) with (state_of w1). rewrite Hst.
    intros [s Hs]%(G_pending _ _ Hm). exists s. change (sink_of (on_fails _ w1)) with (sink_of w1). by rewrite Hsi.
  - intros ?. change (state_of (on_fails _ w1)) with (state_of w1). rewrite Hst, Hca. apply (G_execution _ _ Hm).
  - rewrite Hdr, Hcl. apply Hm.
  - intros i f [[<- <-]|[_ Hi]]%lookup_insert_Some; [done|]. rewrite Hdr, Hcl. rewrite Hfa in Hi. by eapply (G_fail _ _ Hm).
  - intros _. right. apply insert_non_empty.
  - intros ???. rewrite Hca. apply (G_ids _ _ Hm).
  - intros ??. rewrite Hrs. apply (G_answers _ _ Hm).
  - intros ???. change (state_of (on_fails _ w1)) with (state_of w1). rewrite Hca, Hst. apply (G_outcome _ _ Hm).
  - intros ??. rewrite Hcn. intros Hk%(G_cancel _ _ Hm). by rewrite <-Hk; apply started_same.
Qed.

Lemma drained_responses error (ids : list string) (r : gmap string (Result Value AcpError)) id result :
  foldr (λ id, <[id := Err error]>) r ids !! id = Some (Ok result) → r !! id = Some (Ok result).
Proof.
  induction ids as [|i ids IH]; simpl; [done|]. rewrite lookup_insert. case_decide; [done|apply IH].
Qed.

Lemma drained_state error n calls (m : gmap nat Execution) i :
  ex_state <$> foldr (alter (with_outcome (Err error) n)) m calls !! i =
  if decide (i ∈ calls) then (λ _, PS_Terminal (Err error)) <$> (ex_state <$> m !! i) else ex_state <$> m !! i.
Proof.
  induction calls as [|c calls IH]; simpl; [done|]. rewrite lookup_alter.
  destruct (decide (c = i)) as [->|Hc].
  - rewrite decide_True by set_solver. revert IH.
    destruct (foldr _ _ _ !! i), (m !! i); simpl; by case_decide.
  - rewrite IH. destruct (decide (i ∈ calls)); [rewrite decide_True by set_solver|rewrite decide_False by set_solver]; done.
Qed.

Lemma good_drain_prompts ops op w error :
  Good ops w → cn_closed (w_connection w) = true → Good (ops ++ [op]) (drain_prompts error w).
Proof.
  intros Hg Hcl. pose proof (good_mono _ op _ Hg) as Hm. set (w' := drain_prompts error w).
  assert (∀ i, state_of w' i = state_of w i ∨
            state_of w' i = (λ _, PS_Terminal (Err error)) <$> state_of w i) as Hst.
  { intros i. unfold state_of, w', drain_prompts. simpl. rewrite drained_state. case_decide; auto. }
  split; try apply Hm; simpl.
  - intros. by right.
  - intros s i. unfold sink_of. simpl. by rewrite lookup_empty.
  - intros i. unfold state_of at 1, w', drain_prompts. simpl. rewrite drained_state. fold (state_of w i).
    case_decide as Hi; [by destruct (state_of w i)|]. intros [s Hs]%(G_pending _ _ Hg). exfalso. apply Hi.
    unfold sink_of in Hs. destruct (cn_prompts (w_connection w) !! s) as [sink|] eqn:Hp; simplify_eq/=.
    apply list_elem_of_fmap. exists (s, sink). split; [done|]. by apply elem_of_map_to_list.
  - intros i Hi. apply (G_execution _ _ Hm). revert Hi. destruct (Hst i) as [->| ->]; [done|].
    by destruct (state_of w i).
  - done.
  - intros f fl Hf%(G_fail _ _ Hm). naive_solver.
  - intros _. by left.
  - intros i c r Hi Hb. destruct (Hst i) as [->| ->]; [by apply (G_outcome _ _ Hm i c)|]. by destruct (state_of w i).
Qed.

Section steps.
Context (print_json : Value → string).

Lemma fail_step_good ops op w fail w' obs :
  Good ops w → fail_step fail w = Some (w', obs) → Good (ops ++ [op]) w' ∧ obs = [].
Proof.
  intros Hg. unfold fail_step. destruct (w_fails w !! fail) as [f|] eqn:Hf; simpl; [|done].
  pose proof (G_fail _ _ Hg _ _ Hf) as [Hclosed Hfatal].
  assert (∀ w1 stage, Good (ops ++ [op]) w1 → w_fails w1 = w_fails w → cn_closed (w_connection w1) = true →
    (stage = FS_Fatal → w_drained w1 = true) →
    Good (ops ++ [op]) (on_fails <[fail := {| fl_error := fl_error f; fl_health := fl_health f;
      fl_caller := fl_caller f; fl_stage := stage |}]> w1)) as Hmove.
  { intros w1 stage Hg1 Hf1 Hc1 Hd1.
    change (on_fails _ w1) with (on_fails (λ _, <[fail := {| fl_error := fl_error f; fl_health := fl_health f;
      fl_caller := fl_caller f; fl_stage := stage |}]> (w_fails w1)) w1).
    split; simpl; try apply Hg1.
    - intros i f' [[<- <-]|[_ Hi]]%lookup_insert_Some; [done|by eapply (G_fail _ _ Hg1)].
    - intros _. right. apply insert_non_empty. }
  destruct (fl_stage f) eqn:Hst; intros [= <- <-]; (split; [|done]).
  - apply Hmove; try done; [by apply good_closed, good_mono|by case_match].
  - apply Hmove; try done; [|by apply Hclosed]. eapply good_same; [by apply same_connection|by apply good_mono].
  - apply Hmove; try done; [|by apply Hclosed].
    assert (Good ops (on_connection (conn_pending (λ _, ∅)) w)) as Hg1.
    { destruct Hg. by split. }
    apply (good_responses _ op _ (foldr (λ id, <[id := Err (fl_error f)]>) (w_responses w)
      (elements (cn_pending (w_connection w)))) Hg1).
    intros id result Hr%drained_responses. by apply answered_mono, (G_answers _ _ Hg).
  - apply Hmove; try done; [|by apply Hclosed]. by apply good_drain_prompts, Hclosed.
  - specialize (Hfatal eq_refl). specialize (Hclosed ltac:(done)).
    assert (same w (after_fail f w)) as Hs.
    { unfold after_fail. by destruct (fl_caller f). }
    apply (good_same (ops ++ [op])) in Hs; [|by apply good_mono].
    assert (w_fails (after_fail f w) = w_fails w ∧ w_drained (after_fail f w) = true) as [Hf' Hd']
      by (unfold after_fail; by destruct (fl_caller f)).
    split; simpl; try apply Hs.
    + intros i fl [_ Hi]%lookup_delete_Some. by eapply (G_fail _ _ Hs).
    + intros _. left. done.
Qed.

(** The request of a call fails before it is sent. *)
Lemma request_failed_good ops op w call c error :
  w_calls w !! call = Some c → live (cl_stage c) → (∀ id, cl_stage c ≠ ST_Await id) → Good ops w →
  let r := request_failed call (cl_purpose c) error w in
  Good (ops ++ [op]) r.1 ∧ Forall (truthful (ops ++ [op])) r.2.
Proof.
  intros Hc Hl Hno Hg. unfold request_failed.
  destruct c as [[m ps|s p] st]; simpl in *; (split; [|by repeat constructor]).
  - by eapply good_stage.
  - by eapply good_stage.
Qed.

(** The answer arrives. *)
Lemma deliver_good ops op w call c id result :
  w_calls w !! call = Some c → cl_stage c = ST_Await id → w_responses w !! id = Some result → Good ops w →
  let r := deliver call (cl_purpose c) result w in
  Good (ops ++ [op]) r.1 ∧ Forall (truthful (ops ++ [op])) r.2.
Proof.
  intros Hc Hst Hr Hg.
  assert (∀ value, result = Ok value → call_answered (ops ++ [op]) call value) as Hans.
  { intros value ->. apply call_answered_mono. exists id. split.
    - eapply (G_ids _ _ Hg); [done|by rewrite Hst].
    - by apply (G_answers _ _ Hg). }
  unfold deliver. destruct c as [[m ps|s p] st]; simpl in *; subst st; split.
  - by eapply good_stage.
  - constructor; [|done]. destruct result; simpl; auto.
  - eapply good_finish; try done. intros reason.
    destruct result as [value|]; simpl; [|done]. intros Hp. exists value. auto.
  - done.
Qed.

Lemma drop_step_good ops op w call w' obs :
  Good ops w → drop_step call w = Some (w', obs) → Good (ops ++ [op]) w' ∧ obs = [].
Proof.
  intros Hg. unfold drop_step. destruct (w_calls w !! call) as [c|] eqn:Hc; simpl; [|done].
  set (w1 := on_executions _ w). assert (Good ops w1) as Hg1.
  { eapply good_same; [by apply same_executions|done]. }
  change (w_calls w !! call) with (w_calls w1 !! call) in Hc.
  destruct c as [[] []]; simpl; intros [= <- <-]; (split; [|done]);
    first [by apply good_mono|by eapply good_stage].
Qed.

Lemma cancel_step_good ops op w cancel w' obs :
  Good ops w → cancel_step print_json cancel w = Some (w', obs) →
  Good (ops ++ [op]) w' ∧ Forall (truthful (ops ++ [op])) obs.
Proof.
  intros Hg. unfold cancel_step. destruct (w_cancels w !! cancel) as [k|] eqn:Hk; simpl; [|done].
  destruct (w_executions w !! ca_call k) as [e|] eqn:He; simpl; [|done].
  pose proof (G_cancel _ _ Hg _ _ Hk) as Hst.
  assert (∀ w1 stage, same w w1 → Good (ops ++ [op]) (cancel_moves cancel (ca_call k) stage w1).1) as Hmove.
  { intros w1 stage Hs. pose proof (good_same _ _ _ Hs Hg) as Hg1.
    apply (good_cancels _ op _ (<[cancel := {| ca_call := ca_call k; ca_stage := stage |}]> (w_cancels w1)) Hg1).
    intros i c [[<- <-]|[_ Hi]]%lookup_insert_Some; [|by eapply (G_cancel _ _ Hg1)].
    simpl. rewrite (started_same w w1); [done|apply Hs]. }
  assert (∀ w1 outcome, same w w1 → Good (ops ++ [op]) (cancel_ends cancel (ca_call k) outcome w1).1) as Hend.
  { intros w1 outcome Hs. pose proof (good_same _ _ _ Hs Hg) as Hg1.
    apply (good_cancels _ op _ (delete cancel (w_cancels w1)) Hg1).
    intros i c [_ Hi]%lookup_delete_Some. by eapply (G_cancel _ _ Hg1). }
  destruct (ca_stage k).
  - intros [= <- <-]. split; [|done]. eapply Hmove. by apply same_executions.
  - destruct (cn_closed (w_connection w)); [intros [= <- <-]; split; [by apply (Hend w CO_Unconfirmed)|by repeat constructor]|].
    destruct (w_calls w !! ca_call k) as [[[] ?]|]; try done.
    destruct (encode_frame _ _ _); intros [= <- <-]; (split; [|by repeat constructor]);
      [by eapply Hmove|by apply (Hend w CO_Unconfirmed)].
  - destruct (writer_send _ w) as [[w1 sent]|] eqn:Hw; simpl; [|done]. apply same_writer_send in Hw.
    destruct sent; intros [= <- <-]; (split; [|by repeat constructor]);
      [by apply (Hmove w1)|by apply (Hend w1 CO_Unconfirmed)].
  - destruct (ex_state e) as [|outcome] eqn:Hes; [done|]. intros [= <- <-]. split; [by apply (Hend w CO_Unconfirmed)|].
    constructor; [|done]. destruct outcome as [[]|]; simpl; try done. apply outcome_mono.
    unfold started in Hst. destruct (w_calls w !! ca_call k) as [c|] eqn:Hc; [|done].
    eapply (G_outcome _ _ Hg); [done| |unfold state_of; rewrite He; simpl; by rewrite Hes].
    by destruct c as [[] [| | | | | |[]|]].
Qed.

Lemma handle_incoming_good ops fail value w w' r :
  Good ops w → handle_incoming print_json value w = (w', r) →
  Good (ops ++ [Op_Read fail (Ok (Some value))]) w' ∧ (r ≠ Ok tt → same w w').
Proof.
  intros Hg. unfold handle_incoming. set (op := Op_Read fail (Ok (Some value))).
  assert (∀ w1 : World, same w w1 → Good (ops ++ [op]) w1 ∧ (r ≠ Ok tt → same w w1)) as Hsame.
  { intros w1 Hs. split; [|done]. apply good_mono. by eapply good_same. }
  destruct (validate_jsonrpc value) as [object|] eqn:Hv; [|intros [= <- <-]; by apply Hsame].
  destruct (bt_get "id" object) as [id|] eqn:Hid, (bt_get "method" object ≫= _) as [method|].
  - intros Heq. apply Hsame. pose proof (same_reverse_request print_json id method w) as Hs. by rewrite Heq in Hs.
  - unfold handle_response. destruct (as_str id) as [id'|] eqn:Hs; simpl; [|intros [= <- <-]; by apply Hsame].
    destruct (response_result object) as [result|] eqn:Hr; simpl; [|intros [= <- <-]; by apply Hsame].
    case_decide; [|intros [= <- <-]; by apply Hsame]. intros [= <- <-]. split; [|done].
    assert (Good ops (remove_pending id' w)) as Hg1 by (eapply good_same; [by apply same_connection|done]).
    apply (good_responses _ op _ (<[id' := result]> (w_responses w)) Hg1).
    intros i v [[<- ->]|[_ Hi]]%lookup_insert_Some; [|by apply answered_mono, (G_answers _ _ Hg)].
    exists fail, value. split; [set_solver|]. exists object.
    unfold validate_jsonrpc in Hv. destruct (as_object value); simplify_eq/=. case_match; simplify_eq.
    unfold response_result in Hr. destruct id; simplify_eq/=.
    destruct (bt_get "result" object), (bt_get "error" object) as [[]|]; by simplify_eq.
  - intros Heq. apply Hsame. pose proof (same_notification method (bt_get "params" object) w) as Hs.
    by rewrite Heq in Hs.
  - intros [= <- <-]. by apply Hsame.
Qed.

Lemma same_on_reading g w w1 : same w w1 → same (on_reading g w) (on_reading g w1).
Proof. intros []. split; try done. simpl. by f_equal. Qed.

Lemma read_step_good ops fail frame w w' obs :
  Good ops w → read_step print_json fail frame w = Some (w', obs) →
  Good (ops ++ [Op_Read fail frame]) w' ∧ obs = [].
Proof.
  intros Hg. unfold read_step. case_match; [done|].
  destruct frame as [[value|]|error].
  - destruct (handle_incoming print_json value w) as [w1 [[]|error]] eqn:Hh;
      destruct (handle_incoming_good _ fail _ _ _ _ Hg Hh) as [Hg1 Hs].
    + intros [= <- <-]. split; [|done]. eapply good_same; [|done]. done.
    + apply begin_fail_good with (w := w) (reading := λ _, false); [done|]. by apply same_on_reading, Hs.
  - by eapply begin_fail_good with (w := w) (reading := λ _, false).
  - by eapply begin_fail_good with (w := w) (reading := λ _, false).
Qed.

Lemma begin_fail_good' ops op w w1 w' obs fail error health caller :
  Good ops w → same w w1 →
  begin_fail fail error health caller w1 = Some (w', obs) →
  Good (ops ++ [op]) w' ∧ Forall (truthful (ops ++ [op])) obs.
Proof.
  intros Hg Hs Hf. assert (same (on_reading id w) w1) as Hs'.
  { destruct Hs. by split. }
  by destruct (begin_fail_good _ op _ _ _ _ _ _ _ _ _ Hg Hs' Hf) as [? ->].
Qed.

Lemma next_step_good ops op w call w' obs :
  Good ops w → next_step call w = Some (w', obs) →
  Good (ops ++ [op]) w' ∧ Forall (truthful (ops ++ [op])) obs.
Proof.
  intros Hg. unfold next_step. destruct (w_executions w !! call) as [e|] eqn:He; simpl; [|done].
  destruct (started call w) eqn:Hst; [|done]. destruct (ex_receiving e); [|done]. simpl.
  assert (∀ f, (∀ e, ex_state (f e) = ex_state e) →
    Good (ops ++ [op]) (on_executions (alter f call) w)) as Hsame.
  { intros f Hf. apply good_mono. eapply good_same; [by apply same_executions|done]. }
  destruct (ex_finished e); [intros [= <- <-]; split; [by apply good_mono|by repeat constructor]|].
  destruct (ex_updates e) as [|u us].
  - destruct (ex_state e) as [|outcome] eqn:Hes; [done|]. intros [= <- <-]. split; [by apply Hsame|].
    constructor; [|done]. destruct outcome as [reason|]; simpl; [|done]. apply outcome_mono.
    unfold started in Hst. destruct (w_calls w !! call) as [c|] eqn:Hc; [|done].
    eapply (G_outcome _ _ Hg); [done| |unfold state_of; rewrite He; simpl; by rewrite Hes].
    by destruct c as [[] [| | | | | |[]|]].
  - intros [= <- <-]. split; [by apply Hsame|by repeat constructor].
Qed.

Lemma call_step_good ops op w w' obs :
  Good ops w → step print_json op w = Some (w', obs) →
  match op with
  | Op_Check _ _ | Op_Insert _ | Op_Enqueue _ | Op_Expire _ | Op_Remove _ | Op_Abort _ | Op_Respond _ => True
  | _ => False
  end →
  Good (ops ++ [op]) w' ∧ Forall (truthful (ops ++ [op])) obs.
Proof.
  intros Hg Hstep Hop. destruct op as [| |call id|call|call|call|call|call|call| | | | | | | | | | | | |]; try done;
    simpl in Hstep; unfold check_step, insert_step, enqueue_step, expire_step, remove_step, abort_step,
      respond_step in Hstep; destruct (w_calls w !! call) as [c|] eqn:Hc; simpl in Hstep; try done;
    destruct (cl_stage c) eqn:Hst; try done.
  - destruct (cn_closed (w_connection w)) eqn:Hcl.
    { injection Hstep as Hstep. pose proof (request_failed_good ops (Op_Check call id) w call c shutting_down Hc).
      rewrite Hst, Hstep in *. naive_solver. }
    case_decide; [done|]. set (w1 := on_ids _ w) in *.
    assert (Good ops w1) as Hg1 by by apply (good_same ops w).
    assert (w_drained w = false) as Hd.
    { destruct (w_drained w) eqn:Hd; [|done]. apply (G_closed _ _ Hg) in Hd. congruence. }
    destruct (encode_frame _ _ _) as [frame|error].
    + simplify_eq. split; [|done]. apply (good_stage _ _ w1 call c); try done; rewrite ?Hst; simpl; try done.
      * intros _. change (w_drained w1) with (w_drained w). rewrite Hd. naive_solver.
      * intros id' [= ->]. by right.
    + injection Hstep as Hstep. pose proof (request_failed_good ops (Op_Check call id) w1 call c error Hc).
      rewrite Hst, Hstep in *. naive_solver.
  - simplify_eq. split; [|done]. set (w1 := on_connection _ w).
    assert (Good ops w1) as Hg1 by (eapply good_same; [by apply same_connection|done]).
    apply (good_stage _ _ w1 call c); try done; rewrite ?Hst; simpl; naive_solver.
  - destruct (writer_send _ w) as [[w1 sent]|] eqn:Hw; simpl in Hstep; [|done]. apply same_writer_send in Hw.
    assert (Good ops w1) as Hg1 by by apply (good_same ops w). rewrite <-(same_calls _ _ Hw) in Hc.
    destruct sent; simplify_eq; (split; [|by repeat case_match; repeat constructor]);
      (apply (good_stage _ _ w1 call c); try done; rewrite ?Hst; simpl; naive_solver).
  - simplify_eq. split; [|done]. apply (good_stage _ _ w call c); try done; rewrite ?Hst; simpl; naive_solver.
  - destruct (cl_purpose c) eqn:Hp; simplify_eq. split; [|by repeat constructor]. set (w1 := remove_pending _ w).
    assert (Good ops w1) as Hg1 by (eapply good_same; [by apply same_connection|done]).
    apply (good_stage _ _ w1 call c); try done; rewrite ?Hst, ?Hp; simpl; naive_solver.
  - injection Hstep as Hstep. set (w1 := remove_pending _ w) in *.
    assert (Good ops w1) as Hg1 by (eapply good_same; [by apply same_connection|done]).
    pose proof (request_failed_good ops (Op_Remove call) w1 call c error Hc).
    rewrite Hst, Hstep in *. naive_solver.
  - destruct c as [[] st]; simplify_eq/=. split; [|by repeat constructor].
    by eapply good_finish.
  - destruct (w_responses w !! id) as [result|] eqn:Hr; simpl in Hstep; [|done]. injection Hstep as Hstep.
    pose proof (deliver_good ops (Op_Respond call) w call c id result Hc Hst Hr Hg) as Hd.
    by rewrite Hstep in Hd.
Qed.

Lemma step_good ops op w w' obs :
  Good ops w → step print_json op w = Some (w', obs) →
  Good (ops ++ [op]) w' ∧ Forall (truthful (ops ++ [op])) obs.
Proof.
  intros Hg Hstep.
  destruct op eqn:Hop; try (by eapply call_step_good; [..|exact I]); simpl in Hstep.
  - unfold is_new in Hstep. case_bool_decide; simplify_eq. split; [|done]. by apply good_new_call; simpl; auto.
  - unfold is_new in Hstep. case_bool_decide; [|done]. injection Hstep as Hstep.
    pose proof (good_start ops (Op_Start call session_id prompt) w call session_id prompt) as Hs.
    rewrite Hstep in Hs. split; [by apply Hs|]. unfold start_prompt in Hstep.
    case_match; simplify_eq; by repeat constructor.
  - by eapply next_step_good.
  - by edestruct drop_step_good as [? ->].
  - destruct (started call w) eqn:Hs; [|done]. simpl in Hstep. case_match; [|done].
    injection Hstep as <- <-. split; [|done].
    apply (good_cancels _ _ _ (<[cancel := {| ca_call := call; ca_stage := CT_Swap |}]> (w_cancels w)) Hg).
    intros i c [[<- <-]|[_ Hi]]%lookup_insert_Some; [done|by eapply (G_cancel _ _ Hg)].
  - by eapply cancel_step_good.
  - destruct (w_cancels w !! cancel) as [k|] eqn:Hk; [|done]. injection Hstep as <- <-.
    split; [|by repeat constructor].
    apply (good_cancels _ _ _ (delete cancel (w_cancels w)) Hg).
    intros i c [_ Hi]%lookup_delete_Some. by eapply (G_cancel _ _ Hg).
  - by edestruct read_step_good as [? ->].
  - unfold write_step in Hstep. destruct (w_writer w); try done.
    destruct (cn_writer (w_connection w)) as [|[frame|k] queue]; [done| |].
    + destruct written.
      * simplify_eq. split; [|done]. apply good_mono. eapply good_same; [by apply same_connection|done].
      * by eapply begin_fail_good'; [done| |done].
    + simplify_eq. split; [|done]. apply good_mono. by apply (good_same ops w).
  - by eapply begin_fail_good'.
  - by edestruct fail_step_good as [? ->].
  - case_match; simplify_eq. split; [|done]. apply good_mono. apply good_closed in Hg. by eapply good_same; [|done].
  - unfold close_send in Hstep. destruct (w_closes w !! close) as [[]|]; simpl in Hstep; try done.
    destruct (writer_send _ w) as [[w1 sent]|] eqn:Hw; simpl in Hstep; [|done]. apply same_writer_send in Hw.
    destruct sent.
    + simplify_eq. split; [|done]. apply good_mono. eapply good_same; [|done]. by destruct Hw.
    + eapply begin_fail_good'; [done| |done]. by destruct Hw.
  - unfold close_receive in Hstep. destruct (w_closes w !! close) as [[]|]; simpl in Hstep; try done.
    destruct (w_writer w); try done. by eapply begin_fail_good'; [done| |done].
  - simplify_eq. split; [|done]. apply good_mono. eapply good_same; [by apply same_connection|done].
Qed.

Lemma runs_good ops w obs : runs print_json ops w obs → Good ops w ∧ Forall (truthful ops) obs.
Proof.
  induction 1 as [|ops w obs op w' obs' _ [IH1 IH2] Hstep].
  - split; [|done]. split; unfold sink_of, state_of; simpl; try done; intros *; rewrite lookup_empty;
      simpl; done.
  - destruct (step_good _ _ _ _ _ IH1 Hstep) as [Hg Ht]. split; [done|]. apply Forall_app. split; [|done].
    eapply Forall_impl; [done|]. intros ob. apply truthful_mono.
Qed.

(** C13: Whatever calls, frames, failures and timeouts interleave on a connection: a request
    returns a result, a prompt a stop reason and a cancellation its confirmation only when
    the agent sent a response with just that content for the identifier of that very
    request. *)
Theorem acp_answers_truthful ops w obs : runs print_json ops w obs → Forall (truthful ops) obs.
Proof. intros Hr. apply (runs_good _ _ _ Hr). Qed.

(** C14: Once the reader ended and every call of [fail] is over, each prompt that was started
    has an outcome, although prompts start while [fail] drains the tables: no caller of a
    failed connection waits for ever. *)
Theorem acp_prompts_settle ops w obs call e :
  runs print_json ops w obs → w_reading w = false → w_fails w = ∅ → started call w = true →
  w_executions w !! call = Some e → ∃ outcome, ex_state e = PS_Terminal outcome.
Proof.
  intros [Hg _]%runs_good Hr Hf Hst He. destruct (G_reading _ _ Hg Hr) as [Hd|]; [|done].
  destruct (ex_state e) as [|outcome] eqn:Hs; [exfalso|by exists outcome].
  destruct (G_pending _ _ Hg call) as [s Hsink]; [unfold state_of; rewrite He; simpl; by rewrite Hs|].
  apply (G_sink _ _ Hg) in Hsink as (_ & p & stage & Hc & _ & Hearly). specialize (Hearly Hd).
  unfold started in Hst. rewrite Hc in Hst. by destruct stage.
Qed.
End steps.

(** ** Updates *)

(** The update that a frame of the agent brings to a session *)
Definition session_update (session_id : string) (frame : Value) : option NormalizedUpdate :=
  match validate_jsonrpc frame with
  | Ok object =>
      match bt_get "id" object, (v ← bt_get "method" object; as_str v), bt_get "params" object with
      | None, Some method, Some params =>
          if String.eqb method "session/update" then
            match parse_session_update params with
            | Ok (s, update) => if decide (s = session_id) then update else None
            | Err _ => None
            end
          else None
      | _, _, _ => None
      end
  | Err _ => None
  end.

(** The frames handled while the prompt was in the table *)
Definition window (e : Execution) (handled : list Value) : list Value :=
  drop (ex_from e) (take (default (length handled) (ex_until e)) handled).

(** The updates that a caller of [next] got *)
Definition received (call : nat) (obs : list Observation) : list NormalizedUpdate :=
  omap (λ ob, match ob with
              | Ob_Next c (Ok (Some (PE_Update update))) => if decide (c = call) then Some update else None
              | _ => None
              end) obs.

Record Updates (w : World) (call : nat) (e : Execution) (s : string) (ack : bool) : Prop := {
  U_until : match ex_until e with Some n => n ≤ length (w_handled w) | None => True end;
  U_from : ex_from e ≤ default (length (w_handled w)) (ex_until e);
  U_updates : ex_taken e ++ ex_updates e =
              (if ack then [acknowledged] else []) ++ omap (session_update s) (window e (w_handled w));
  U_head : ack = false → ex_taken e ++ ex_updates e = [];
  U_state : match ex_state e with
            | PS_Pending => ex_until e = None ∧
                cn_prompts (w_connection w) !! s = Some {| sk_call := call; sk_acknowledged := ack |}
            | PS_Terminal outcome => is_Some (ex_until e) ∧
                (∀ reason, outcome = Ok reason → ex_receiving e = true → ack = true)
            end;
}.

Definition has_updates (w : World) (call : nat) (e : Execution) : Prop :=
  ∃ c s p ack, w_calls w !! call = Some c ∧ cl_purpose c = PU_Prompt s p ∧ Updates w call e s ack.

Definition all_updates (w : World) : Prop :=
  ∀ call e, w_executions w !! call = Some e → has_updates w call e.

(** The executions differ at most in what the caller did with them. *)
Definition alike (e e' : Execution) : Prop :=
  ex_updates e' = ex_updates e ∧ ex_taken e' = ex_taken e ∧ ex_state e' = ex_state e ∧
  ex_from e' = ex_from e ∧ ex_until e' = ex_until e ∧ (ex_receiving e' = true → ex_receiving e = true).

Record quiet (w w' : World) : Prop := {
  quiet_handled : w_handled w' = w_handled w;
  quiet_prompts : cn_prompts (w_connection w') = cn_prompts (w_connection w);
  quiet_calls call c :
    w_calls w !! call = Some c → ∃ c', w_calls w' !! call = Some c' ∧ cl_purpose c' = cl_purpose c;
  quiet_executions call e' :
    w_executions w' !! call = Some e' → ∃ e, w_executions w !! call = Some e ∧ alike e e';
}.

#[global] Instance alike_refl : Reflexive alike.
Proof. by intros e. Qed.
#[global] Instance quiet_refl : Reflexive quiet.
Proof. split; [done|done|by eauto|]. intros call e He. by exists e. Qed.

Lemma has_updates_quiet w w' call e e' :
  quiet w w' → alike e e' → has_updates w call e → has_updates w' call e'.
Proof.
  intros [Hh Hp Hc _] (Hu & Ht & Hs & Hf & Hn & Hr) (c & s & p & ack & Hcall & Hpu & []).
  destruct (Hc _ _ Hcall) as (c' & Hc' & Hpu'). exists c', s, p, ack. split; [done|]. split; [congruence|].
  split; unfold window in *; rewrite ?Hh, ?Hu, ?Ht, ?Hs, ?Hf, ?Hn, ?Hp; try done.
  destruct (ex_state e); [done|]. naive_solver.
Qed.

Lemma all_updates_quiet w w' : quiet w w' → all_updates w → all_updates w'.
Proof.
  intros Hq Hall call e' (e & He & Ha)%(quiet_executions _ _ Hq).
  eapply has_updates_quiet; [done|done|by apply Hall].
Qed.

Lemma quiet_stage call stage w w1 : quiet w w1 → quiet w (with_stage call stage w1).
Proof.
  intros []. split; try done. intros i c Hi. destruct (quiet_calls0 _ _ Hi) as (c' & Hc' & Hp).
  rewrite lookup_stage, Hc'. destruct (decide (call = i)); eexists; split; try done; done.
Qed.

(** Nothing changes but what the updates do not depend on. *)
Lemma updates_frame w w' :
  all_updates w → w_handled w' = w_handled w →
  cn_prompts (w_connection w') = cn_prompts (w_connection w) → w_calls w' = w_calls w →
  w_executions w' = w_executions w → all_updates w'.
Proof.
  intros Hall Hh Hp Hc He. apply (all_updates_quiet w); [|done].
  split; [done|done|rewrite Hc; by eauto|rewrite He; by intros i e; exists e].
Qed.

Lemma quiet_flags call f w : (∀ e, alike e (f e)) → quiet w (on_executions (alter f call) w).
Proof.
  intros Hf. split; simpl; [done|done|eauto|]. intros i e'. rewrite lookup_alter.
  destruct (decide (call = i)) as [->|]; [|by intros; exists e'].
  destruct (w_executions w !! i) as [e|]; simpl; [intros [= <-]; eauto|done].
Qed.

Lemma quiet_new_call call c w : w_calls w !! call = None → quiet w (on_calls <[call := c]> w).
Proof.
  intros Hn. split; simpl; [done|done| |by intros i e'; exists e']. intros i c' Hi. exists c'.
  by rewrite lookup_insert_ne by congruence.
Qed.

(** An execution that is left alone, in a world where its sink is still there *)
Lemma has_updates_keep w w' call e :
  has_updates w call e → w_handled w' = w_handled w →
  (∀ c, w_calls w !! call = Some c → ∃ c', w_calls w' !! call = Some c' ∧ cl_purpose c' = cl_purpose c) →
  (∀ s ack, ex_state e = PS_Pending →
     cn_prompts (w_connection w) !! s = Some {| sk_call := call; sk_acknowledged := ack |} →
     cn_prompts (w_connection w') !! s = Some {| sk_call := call; sk_acknowledged := ack |}) →
  has_updates w' call e.
Proof.
  intros (c & s & p & ack & Hc & Hp & []) Hh Hcalls Hs. destruct (Hcalls _ Hc) as (c' & Hc' & Hp').
  exists c', s, p, ack. split; [done|]. split; [congruence|]. split; rewrite ?Hh; try done.
  destruct (ex_state e); [|done]. naive_solver.
Qed.

Lemma start_updates ops w call s prompt :
  Good ops w → w_calls w !! call = None → all_updates w → all_updates (start_prompt call s prompt w).1.
Proof.
  intros Hg Hnew Hall. unfold start_prompt.
  destruct (cn_prompts (w_connection w) !! s) as [sink|] eqn:Hs.
  { eapply all_updates_quiet; [by apply quiet_new_call|done]. }
  intros i e. simpl. intros [[<- <-]|[Hne He]]%lookup_insert_Some.
  - eexists _, s, prompt, false. simpl. rewrite lookup_insert_eq. split; [done|]. split; [done|].
    split; simpl; try done.
    + unfold window. simpl. rewrite firstn_all, drop_all. done.
    + by rewrite lookup_insert_eq.
  - eapply has_updates_keep; [by apply Hall|done| |].
    + intros c Hc. exists c. simpl. by rewrite lookup_insert_ne.
    + intros s' ack _ Hs'. simpl. by rewrite lookup_insert_ne by congruence.
Qed.

(** The execution of a sink *)
Lemma sink_updates ops w s sink :
  Good ops w → all_updates w → cn_prompts (w_connection w) !! s = Some sink →
  ∃ e c p, w_executions w !! sk_call sink = Some e ∧ ex_state e = PS_Pending ∧
    w_calls w !! sk_call sink = Some c ∧ cl_purpose c = PU_Prompt s p ∧
    Updates w (sk_call sink) e s (sk_acknowledged sink).
Proof.
  intros Hg Hall Hs. destruct (G_sink _ _ Hg s (sk_call sink)) as (Hst & p & st & Hc & _).
  { unfold sink_of. by rewrite Hs. }
  unfold state_of in Hst. destruct (w_executions w !! sk_call sink) as [e|] eqn:He; simplify_eq/=.
  destruct (Hall _ _ He) as (c & s' & p' & ack & Hc' & Hp & HU). rewrite Hc in Hc'. simplify_eq/=.
  exists e, {| cl_purpose := PU_Prompt s' p'; cl_stage := st |}, p'. split_and!; try done.
  pose proof (U_state _ _ _ _ _ HU) as Hx. rewrite Hst in Hx. destruct Hx as [_ Hx].
  rewrite Hs in Hx. apply (f_equal (fmap sk_acknowledged)) in Hx. injection Hx as ->. done.
Qed.

(** The session of a sink belongs to its call. *)
Lemma sink_session ops w s s' sink sink' :
  Good ops w → cn_prompts (w_connection w) !! s = Some sink → cn_prompts (w_connection w) !! s' = Some sink' →
  sk_call sink = sk_call sink' → s = s'.
Proof.
  intros Hg Hs Hs' Heq.
  destruct (G_sink _ _ Hg s (sk_call sink)) as (_ & p & st & Hc & _); [unfold sink_of; by rewrite Hs|].
  destruct (G_sink _ _ Hg s' (sk_call sink')) as (_ & p' & st' & Hc' & _); [unfold sink_of; by rewrite Hs'|].
  congruence.
Qed.

(** What [try_send] of the acknowledgement leaves of the execution *)
Definition acknowledged_execution (ack : bool) (e : Execution) : Execution :=
  if ack then e
  else if ex_receiving e then with_updates (ex_updates e ++ [acknowledged]) (ex_taken e) e else e.

Lemma finish_prompt_executions ops w s outcome sink :
  Good ops w → all_updates w → cn_prompts (w_connection w) !! s = Some sink →
  w_executions (finish_prompt s outcome w) =
  alter (λ e, with_outcome outcome (length (w_handled w)) (acknowledged_execution (sk_acknowledged sink) e))
    (sk_call sink) (w_executions w).
Proof.
  intros Hg Hall Hs. unfold finish_prompt. rewrite Hs.
  destruct (sink_updates _ _ _ _ Hg Hall Hs) as (e & c & p & He & _ & _ & _ & HU).
  destruct (sk_acknowledged sink) eqn:Hack; simpl; [done|].
  unfold try_send. simpl. rewrite He. pose proof (U_head _ _ _ _ _ HU eq_refl) as [_ Hu]%app_nil.
  rewrite Hu. unfold acknowledged_execution.
  rewrite bool_decide_true by (simpl; unfold UPDATE_QUEUE_DEPTH; lia). rewrite andb_true_r.
  destruct (ex_receiving e) eqn:Hr; simpl; apply map_eq; intros i; rewrite !lookup_alter;
    (destruct (decide (sk_call sink = i)) as [<-|]; [|done]);
    rewrite He, ?decide_True by done; simpl; by rewrite Hr.
Qed.

Lemma finish_updates ops w s outcome :
  Good ops w → all_updates w → all_updates (finish_prompt s outcome w).
Proof.
  intros Hg Hall. destruct (cn_prompts (w_connection w) !! s) as [sink|] eqn:Hs.
  2: { unfold finish_prompt. by rewrite Hs. }
  assert (w_handled (finish_prompt s outcome w) = w_handled w ∧ w_calls (finish_prompt s outcome w) = w_calls w ∧
    cn_prompts (w_connection (finish_prompt s outcome w)) = delete s (cn_prompts (w_connection w)))
    as (Hh & Hca & Hpr).
  { unfold finish_prompt. rewrite Hs. unfold try_send. by repeat case_match. }
  destruct (sink_updates _ _ _ _ Hg Hall Hs) as (e & c & p & He & Hst & Hc & Hp & HU).
  intros i e'. rewrite (finish_prompt_executions _ _ _ _ _ Hg Hall Hs), lookup_alter.
  destruct (decide (sk_call sink = i)) as [<-|Hne].
  - rewrite He. intros [= <-]. destruct HU as [_ Hfrom Hup Hhead Hstate]. rewrite Hst in Hstate.
    destruct Hstate as [Hun _]. unfold window in Hup. rewrite Hun in Hup, Hfrom. simpl in Hup, Hfrom.
    exists c, s, p, (sk_acknowledged sink || ex_receiving e). rewrite Hca. split; [done|]. split; [done|].
    unfold acknowledged_execution.
    destruct (sk_acknowledged sink) eqn:Hack; [|destruct (ex_receiving e) eqn:Hr]; simpl;
      split; unfold window; rewrite ?Hh; simpl; try done; try (split; [done|congruence]).
    rewrite app_assoc. rewrite (Hhead eq_refl) in Hup |- *. simpl in Hup. by rewrite <-Hup.
  - intros Hi. eapply has_updates_keep; [by apply Hall|done| |].
    + intros c' Hc'. exists c'. by rewrite Hca.
    + intros s' ack _ Hs'. rewrite Hpr, lookup_delete_ne; [done|]. intros <-. rewrite Hs in Hs'. by simplify_eq/=.
Qed.

Lemma drained_execution error n calls (m : gmap nat Execution) i e' :
  foldr (alter (with_outcome (Err error) n)) m calls !! i = Some e' →
  ∃ e, m !! i = Some e ∧ e' = if decide (i ∈ calls) then with_outcome (Err error) n e else e.
Proof.
  revert e'. induction calls as [|c calls IH]; intros e'; simpl; [by exists e'|]. rewrite lookup_alter.
  destruct (decide (c = i)) as [->|Hc].
  - destruct (foldr _ _ _ !! i) as [e1|] eqn:He; [|done]. intros [= <-].
    destruct (IH _ eq_refl) as (e & He' & ->). exists e. split; [done|].
    rewrite (decide_True (P := i ∈ i :: calls)) by set_solver. by case_decide.
  - intros (e & He & ->)%IH. exists e. split; [done|].
    destruct (decide (i ∈ calls)); [rewrite decide_True by set_solver|rewrite decide_False by set_solver]; done.
Qed.

Lemma drain_updates ops w error : Good ops w → all_updates w → all_updates (drain_prompts error w).
Proof.
  intros Hg Hall i e'. unfold drain_prompts. simpl. intros (e & He & ->)%drained_execution.
  destruct (Hall _ _ He) as (c & s & p & ack & Hc & Hp & [Hun Hfrom Hup Hhead Hstate]).
  case_decide as Hi.
  - apply list_elem_of_fmap in Hi as ([s' sink] & -> & Hs%elem_of_map_to_list).
    destruct (G_sink _ _ Hg s' (sk_call sink)) as (Hst & _); [unfold sink_of; by rewrite Hs|].
    unfold state_of in Hst. simpl in He. rewrite He in Hst. injection Hst as Hst. rewrite Hst in Hstate.
    destruct Hstate as [Hnone _]. unfold window in Hup. rewrite Hnone in Hup, Hfrom.
    exists c, s, p, ack. split; [done|]. split; [done|]. split; simpl; try done.
  - exists c, s, p, ack. split; [done|]. split; [done|]. split; try done.
    destruct (ex_state e) eqn:Hst; [exfalso|done]. apply Hi, list_elem_of_fmap.
    destruct Hstate as [_ Hs]. eexists (s, _). split; [|by apply elem_of_map_to_list]. done.
Qed.

Lemma next_updates w call e update updates :
  all_updates w → w_executions w !! call = Some e → ex_updates e = update :: updates →
  all_updates (on_executions (alter (λ e, with_updates updates (ex_taken e ++ [update]) e) call) w).
Proof.
  intros Hall He Hu i e'. simpl. rewrite lookup_alter. destruct (decide (call = i)) as [<-|].
  2: { intros Hi. eapply has_updates_keep; [by apply Hall|done|by eauto|done]. }
  rewrite He. intros [= <-]. destruct (Hall _ _ He) as (c & s & p & ack & Hc & Hp & []).
  exists c, s, p, ack. split; [done|]. split; [done|].
  split; simpl; try done; rewrite <-app_assoc; simpl; by rewrite <-Hu.
Qed.

(** A frame is handled that brings nothing to the execution. *)
Lemma window_more e handled value :
  match ex_until e with Some n => n ≤ length handled | None => True end →
  ex_from e ≤ default (length handled) (ex_until e) →
  window e (handled ++ [value]) = window e handled ++ match ex_until e with Some _ => [] | None => [value] end.
Proof.
  unfold window. intros Hn Hf. destruct (ex_until e) as [n|]; simpl in *.
  - by rewrite take_app_le, app_nil_r by lia.
  - by rewrite !firstn_all, drop_app_le by lia.
Qed.

Lemma window_with_updates updates taken e handled :
  window (with_updates updates taken e) handled = window e handled.
Proof. done. Qed.

Lemma has_updates_more w call e value :
  has_updates w call e →
  (∀ s ack, cn_prompts (w_connection w) !! s = Some {| sk_call := call; sk_acknowledged := ack |} →
     session_update s value = None) →
  has_updates (on_handled (λ handled, handled ++ [value]) w) call e.
Proof.
  intros (c & s & p & ack & Hc & Hp & [Hun Hfrom Hup Hhead Hstate]) Hno.
  exists c, s, p, ack. split; [done|]. split; [done|]. split; simpl; try done.
  - rewrite length_app. destruct (ex_until e); simpl in *; lia.
  - rewrite length_app. destruct (ex_until e); simpl in *; lia.
  - rewrite window_more by done. rewrite omap_app, Hup. f_equal.
    destruct (ex_until e) eqn:Hu; simpl; [by rewrite app_nil_r|].
    destruct (ex_state e); [|by destruct Hstate as [[? [=]] _]].
    rewrite (Hno s ack) by apply Hstate. by rewrite app_nil_r.
Qed.

Lemma try_send_sent call update w w' :
  try_send call update w = (w', true) →
  w' = on_executions (alter (λ e, with_updates (ex_updates e ++ [update]) (ex_taken e) e) call) w.
Proof. unfold try_send. by repeat case_match; intros [= <-]. Qed.

Lemma try_send_refused call update w w' : try_send call update w = (w', false) → w' = w.
Proof. unfold try_send. by repeat case_match; intros [= <-]. Qed.

Lemma acknowledge_updates ops w s sink w1 :
  Good ops w → all_updates w → cn_prompts (w_connection w) !! s = Some sink →
  (if sk_acknowledged sink then (w, true) else try_send (sk_call sink) acknowledged w) = (w1, true) →
  all_updates (acknowledge_sink s w1).
Proof.
  intros Hg Hall Hs Hsend. destruct (sink_updates _ _ _ _ Hg Hall Hs) as (e & c & p & He & Hst & Hc & Hp & HU).
  assert (∀ i s' ack, i ≠ sk_call sink →
    cn_prompts (w_connection w) !! s' = Some {| sk_call := i; sk_acknowledged := ack |} → s' ≠ s) as Hother.
  { intros i s' ack Hi Hs' ->. rewrite Hs in Hs'. by simplify_eq/=. }
  destruct (sk_acknowledged sink) eqn:Hack.
  - injection Hsend as <-. eapply all_updates_quiet; [|done]. split; try done; [|by eauto|by intros i e'; exists e'].
    simpl. apply map_eq. intros s'. rewrite lookup_alter. destruct (decide (s = s')) as [<-|]; [|done].
    rewrite Hs. simpl. f_equal. destruct sink; simpl in *. by subst.
  - apply try_send_sent in Hsend as ->. intros i e'. simpl. rewrite lookup_alter.
    destruct (decide (sk_call sink = i)) as [<-|Hne].
    + rewrite He. intros [= <-]. exists c, s, p, true. split; [done|]. split; [done|].
      destruct HU as [Hun Hfrom Hup Hhead Hstate]. rewrite Hst in Hstate.
      split; simpl; try done.
      * rewrite app_assoc, (Hhead eq_refl). unfold window in *. simpl in *. by rewrite <-Hup, (Hhead eq_refl).
      * rewrite Hst. rewrite lookup_alter_eq, Hs. simpl. naive_solver.
    + intros Hi. eapply has_updates_keep; [by apply Hall|done|by eauto|]. intros s' ack _ Hs'. simpl.
      rewrite lookup_alter_ne; [done|]. eapply not_eq_sym, Hother; [|done]. done.
Qed.

Lemma update_updates ops w s sink update value w' :
  Good ops w → all_updates w → cn_prompts (w_connection w) !! s = Some sink → sk_acknowledged sink = true →
  session_update s value = Some update → (∀ s', s' ≠ s → session_update s' value = None) →
  try_send (sk_call sink) update w = (w', true) →
  all_updates (on_handled (λ handled, handled ++ [value]) w').
Proof.
  intros Hg Hall Hs Hack Hval Hother ->%try_send_sent.
  destruct (sink_updates _ _ _ _ Hg Hall Hs) as (e & c & p & He & Hst & Hc & Hp & [Hun Hfrom Hup Hhead Hstate]).
  intros i e'. simpl. rewrite lookup_alter. destruct (decide (sk_call sink = i)) as [<-|Hne].
  - rewrite He. intros [= <-]. exists c, s, p, true. split; [done|]. split; [done|].
    rewrite Hst in Hstate. destruct Hstate as [Hnone Hs'].
    split; simpl; rewrite ?Hnone, ?Hst; try done.
    + rewrite Hnone in Hfrom. simpl in *. rewrite length_app. simpl. lia.
    + rewrite app_assoc, Hup, Hack, window_with_updates, window_more by done. rewrite Hnone, omap_app. simpl. by rewrite Hval.
    + by rewrite <-Hack.
  - intros Hi. apply has_updates_more; [eapply has_updates_keep; [by apply Hall|done|by eauto|done]|].
    intros s' ack Hs'. apply Hother. intros ->. simpl in Hs'. rewrite Hs in Hs'. by simplify_eq/=.
Qed.

Lemma handled_updates w value :
  all_updates w →
  (∀ s sink, cn_prompts (w_connection w) !! s = Some sink → session_update s value = None) →
  all_updates (on_handled (λ handled, handled ++ [value]) w).
Proof. intros Hall Hno i e Hi. apply has_updates_more; [by apply Hall|]. intros s ack Hs. by eapply Hno. Qed.

Lemma incoming_updates print_json ops value w w1 r :
  Good ops w → all_updates w → handle_incoming print_json value w = (w1, r) →
  all_updates (if r is Ok _ then on_handled (λ handled, handled ++ [value]) w1 else w1).
Proof.
  intros Hg Hall. unfold handle_incoming.
  destruct (validate_jsonrpc value) as [object|] eqn:Hv; [|by intros [= <- <-]].
  assert (∀ s, session_update s value =
    match bt_get "id" object, (v ← bt_get "method" object; as_str v), bt_get "params" object with
      | None, Some method, Some params =>
          if String.eqb method "session/update" then
            match parse_session_update params with
            | Ok (s', update) => if decide (s' = s) then update else None
            | Err _ => None
            end
          else None
      | _, _, _ => None
      end) as Hsu by (intros s; unfold session_update; by rewrite Hv).
  destruct (bt_get "id" object) as [id|], (bt_get "method" object ≫= _) as [method|].
  - intros Hh. assert (all_updates w1) as Hall1.
    { unfold handle_reverse_request in Hh. destruct (let? _ := _ in _); [|by simplify_eq].
      unfold writer_send in Hh. repeat case_match; simplify_eq; try done; by eapply updates_frame. }
    destruct r; [|done]. by apply handled_updates.
  - intros Hh. assert (all_updates w1) as Hall1.
    { unfold handle_response in Hh. destruct (let? _ := _ in _) as [[]|]; [|by simplify_eq].
      case_decide; simplify_eq; try done. by eapply updates_frame. }
    destruct r; [|done]. by apply handled_updates.
  - unfold handle_notification. destruct (String.eqb method "session/update") eqn:Hm; simpl.
    2: { intros [= <- <-]. apply handled_updates; [done|]. intros s sink _. rewrite Hsu. by case_match. }
    destruct (bt_get "params" object) as [params|]; simpl; [|by intros [= <- <-]].
    destruct (parse_session_update params) as [[s update]|]; simpl; [|by intros [= <- <-]].
    assert (∀ s', s' ≠ s → session_update s' value = None) as Hother.
    { intros s' Hne. rewrite Hsu. by rewrite decide_False by congruence. }
    assert (session_update s value = update) as Hown by (rewrite Hsu; by rewrite decide_True).
    destruct (cn_prompts (w_connection w) !! s) as [sink|] eqn:Hs.
    2: { intros [= <- <-]. apply handled_updates; [done|]. intros s' sink Hs'. apply Hother. congruence. }
    destruct (if sk_acknowledged sink then _ else _) as [w2 [|]] eqn:Hsend; simpl.
    2: { intros [= <- <-]. destruct (sk_acknowledged sink); [done|]. by apply try_send_refused in Hsend as ->. }
    pose proof (acknowledge_updates _ _ _ _ _ Hg Hall Hs Hsend) as Hall2.
    assert (same w w2) as Hw2.
    { destruct (sk_acknowledged sink); [by simplify_eq|]. pose proof (same_try_send (sk_call sink) acknowledged w).
      by rewrite Hsend in *. }
    assert (Good ops (acknowledge_sink s w2)) as Hg2.
    { eapply good_same; [|done]. etrans; [done|apply same_acknowledge]. }
    assert (cn_prompts (w_connection (acknowledge_sink s w2)) !! s =
      Some {| sk_call := sk_call sink; sk_acknowledged := true |}) as Hs2.
    { simpl. rewrite lookup_alter_eq. assert (cn_prompts (w_connection w2) = cn_prompts (w_connection w)) as ->.
      - destruct (sk_acknowledged sink); [by simplify_eq|]. by apply try_send_sent in Hsend as ->.
      - by rewrite Hs. }
    destruct update as [update|].
    + destruct (try_send (sk_call sink) update _) as [w3 [|]] eqn:Hsend2; intros [= <- <-].
      * by eapply (update_updates _ (acknowledge_sink s w2)).
      * by apply try_send_refused in Hsend2 as ->.
    + intros [= <- <-]. apply handled_updates; [done|]. intros s' sink' _.
      destruct (decide (s' = s)) as [->|]; [done|by apply Hother].
  - by intros [= <- <-].
Qed.

Section updates.
Context (print_json : Value → string).

Lemma stage_updates w call stage : all_updates w → all_updates (with_stage call stage w).
Proof. apply all_updates_quiet. by apply quiet_stage. Qed.

Lemma writer_send_updates command w w' sent :
  all_updates w → writer_send command w = Some (w', sent) → all_updates w'.
Proof. unfold writer_send. intros Hall ?. repeat case_match; simplify_eq; try done; by eapply updates_frame. Qed.

Lemma begin_fail_updates fail error health caller w w' obs :
  all_updates w → begin_fail fail error health caller w = Some (w', obs) → all_updates w'.
Proof. unfold begin_fail. intros Hall ?. case_match; simplify_eq. by eapply updates_frame. Qed.

Lemma call_updates ops op w w' obs :
  Good ops w → all_updates w → step print_json op w = Some (w', obs) →
  match op with
  | Op_Check _ _ | Op_Insert _ | Op_Enqueue _ | Op_Expire _ | Op_Remove _ | Op_Abort _ | Op_Respond _ => True
  | _ => False
  end → all_updates w'.
Proof.
  intros Hg Hall Hstep Hop.
  assert (∀ f, all_updates (on_connection (conn_pending f) w)) as Hpend by (intros f; by eapply updates_frame).
  assert (∀ f, all_updates (on_ids f w)) as Hids by (intros f; by eapply updates_frame).
  destruct op as [| |call id|call|call|call|call|call|call| | | | | | | | | | | | |]; try done;
    simpl in Hstep; unfold check_step, insert_step, enqueue_step, expire_step, remove_step, abort_step,
      respond_step, request_failed, deliver, remove_pending in Hstep;
    destruct (w_calls w !! call) as [[[m ps|s p] []]|] eqn:Hc; simpl in Hstep; try done.
  all: try (destruct (w_responses w !! id); simpl in Hstep; [|done]).
  all: try (destruct (writer_send _ w) as [[w1 []]|] eqn:Hw; simpl in Hstep; [| |done];
            apply (writer_send_updates _ _ _ _ Hall) in Hw).
  all: repeat case_match; simplify_eq; auto using stage_updates.
  all: apply stage_updates; by eapply finish_updates.
Qed.

Lemma step_updates ops op w w' obs :
  Good ops w → all_updates w → step print_json op w = Some (w', obs) → all_updates w'.
Proof.
  intros Hg Hall Hstep. destruct op eqn:Hop;
    try (eapply call_updates; [exact Hg|exact Hall|exact Hstep|exact I]); simpl in Hstep.
  - unfold is_new in Hstep. case_bool_decide; [|done]. injection Hstep as <- _.
    apply (all_updates_quiet w); [by apply quiet_new_call|done].
  - unfold is_new in Hstep. case_bool_decide; [|done]. injection Hstep as Hstep.
    pose proof (start_updates _ _ _ session_id prompt Hg H Hall) as Hs. by rewrite Hstep in Hs.
  - unfold next_step in Hstep. destruct (w_executions w !! call) as [e|] eqn:He; simpl in Hstep; [|done].
    repeat case_match; simplify_eq; try done; [|by eapply next_updates].
    apply (all_updates_quiet w); [|done]. apply quiet_flags. by intros.
  - unfold drop_step in Hstep. destruct (w_calls w !! call) as [c|]; simpl in Hstep; [|done].
    set (w1 := on_executions _ w) in *. assert (all_updates w1) as H1.
    { apply (all_updates_quiet w); [|done]. apply quiet_flags. by intros. }
    repeat case_match; simplify_eq; auto using stage_updates.
  - unfold cancel_moves in Hstep. case_match; simplify_eq. by eapply updates_frame.
  - unfold cancel_step, cancel_moves, cancel_ends in Hstep. destruct (w_cancels w !! cancel) as [k|]; simpl in Hstep; [|done].
    destruct (w_executions w !! ca_call k) as [e|]; simpl in Hstep; [|done].
    set (w1 := on_executions _ w) in *. assert (all_updates w1) as H1.
    { apply (all_updates_quiet w); [|done]. apply quiet_flags. by intros. }
    destruct (ca_stage k); [by simplify_eq; eapply (updates_frame w1)| | |].
    + repeat case_match; simplify_eq; by eapply (updates_frame w).
    + destruct (writer_send _ w) as [[w2 sent]|] eqn:Hw; simpl in Hstep; [|done].
      apply (writer_send_updates _ _ _ _ Hall) in Hw. destruct sent; simplify_eq; by eapply (updates_frame w2).
    + repeat case_match; simplify_eq; by eapply (updates_frame w).
  - unfold cancel_ends in Hstep. destruct (w_cancels w !! cancel); simplify_eq/=. by eapply updates_frame.
  - unfold read_step in Hstep. case_match; [done|]. destruct frame as [[value|]|error].
    + destruct (handle_incoming print_json value w) as [w1 r] eqn:Hh.
      pose proof (incoming_updates _ _ _ _ _ _ Hg Hall Hh) as H1. destruct r as [[]|]; [by simplify_eq|].
      eapply begin_fail_updates; [|done]. by eapply (updates_frame w1).
    + eapply begin_fail_updates; [|done]. by eapply (updates_frame w).
    + eapply begin_fail_updates; [|done]. by eapply (updates_frame w).
  - unfold write_step in Hstep. destruct (w_writer w); try done.
    destruct (cn_writer (w_connection w)) as [|[] queue]; [done| |]; [destruct written|].
    + simplify_eq. by eapply updates_frame.
    + eapply begin_fail_updates; [|done]. by eapply (updates_frame w).
    + simplify_eq. by eapply (updates_frame w).
  - by eapply begin_fail_updates.
  - unfold fail_step in Hstep. destruct (w_fails w !! fail) as [f|]; simpl in Hstep; [|done].
    pose proof (drain_updates _ _ (fl_error f) Hg Hall) as Hd.
    destruct (fl_stage f); simplify_eq; try (by eapply (updates_frame w)).
    + by eapply (updates_frame (drain_prompts (fl_error f) w)).
    + eapply (updates_frame w); [done|..]; unfold after_fail; by destruct (fl_caller f).
  - case_match; simplify_eq. by eapply (updates_frame w).
  - unfold close_send in Hstep. destruct (w_closes w !! close) as [[]|]; simpl in Hstep; try done.
    destruct (writer_send _ w) as [[w1 sent]|] eqn:Hw; simpl in Hstep; [|done].
    apply (writer_send_updates _ _ _ _ Hall) in Hw. destruct sent.
    + simplify_eq. by eapply (updates_frame w1).
    + eapply begin_fail_updates; [|done]. by eapply (updates_frame w1).
  - unfold close_receive in Hstep. destruct (w_closes w !! close) as [[]|]; simpl in Hstep; try done.
    destruct (w_writer w); try done. eapply begin_fail_updates; [|done]. by eapply (updates_frame w).
  - simplify_eq. by eapply updates_frame.
Qed.

Definition taken_of (w : World) (call : nat) : list NormalizedUpdate :=
  default [] (ex_taken <$> w_executions w !! call).

Lemma taken_alter call f w i :
  (∀ e, ex_taken (f e) = ex_taken e) → taken_of (on_executions (alter f call) w) i = taken_of w i.
Proof.
  intros Hf. unfold taken_of. simpl. rewrite lookup_alter. destruct (decide (call = i)) as [->|]; [|done].
  destruct (w_executions w !! i); simpl; [by rewrite Hf|done].
Qed.

Lemma taken_try_send call update w i : taken_of (try_send call update w).1 i = taken_of w i.
Proof. unfold try_send. repeat case_match; simpl; try done. by apply taken_alter. Qed.

Lemma taken_finish s outcome w i : taken_of (finish_prompt s outcome w) i = taken_of w i.
Proof.
  unfold finish_prompt. destruct (cn_prompts _ !! s) as [sink|]; [|done].
  rewrite taken_alter by done. case_match; [done|].
  by rewrite taken_try_send.
Qed.

Lemma taken_drain error w i : taken_of (drain_prompts error w) i = taken_of w i.
Proof.
  unfold taken_of, drain_prompts. simpl. induction (_ <$> map_to_list _) as [|c calls IH]; simpl; [done|].
  rewrite lookup_alter. destruct (decide (c = i)) as [->|]; [|done]. rewrite <-IH. by destruct (foldr _ _ _ !! i).
Qed.

Lemma taken_incoming value w i : taken_of (handle_incoming print_json value w).1 i = taken_of w i.
Proof.
  unfold handle_incoming. destruct (validate_jsonrpc value) as [object|]; [|done].
  destruct (bt_get "id" object) as [id|], (bt_get "method" object ≫= _) as [method|]; [| | |done].
  - unfold handle_reverse_request, writer_send. by repeat case_match; simplify_eq/=.
  - unfold handle_response. by repeat case_match; simplify_eq/=.
  - unfold handle_notification. case_match; [done|]. destruct (let? _ := _ in _) as [[s update]|]; [|done].
    destruct (cn_prompts _ !! s) as [sink|]; [|done].
    assert (taken_of (if sk_acknowledged sink then (w, true) else try_send (sk_call sink) acknowledged w).1 i =
      taken_of w i) as H1 by (case_match; [done|apply taken_try_send]).
    destruct (if sk_acknowledged sink then _ else _) as [w1 [|]]; simpl in *; [|done].
    destruct update as [u|]; [|done].
    pose proof (taken_try_send (sk_call sink) u (acknowledge_sink s w1) i) as H2.
    destruct (try_send _ _ (acknowledge_sink s w1)). simpl in *. by rewrite H2.
Qed.

Lemma step_taken ops op w w' obs i :
  Good ops w → step print_json op w = Some (w', obs) → taken_of w' i = taken_of w i ++ received i obs.
Proof.
  intros Hg Hstep.
  assert (∀ f call, taken_of (on_calls f (on_executions
    (alter (λ e, with_flags (ex_finished e) false (ex_cancel_sent e) e) call) w)) i = taken_of w i) as Hdrop.
  { intros f call. apply (taken_alter call (λ e, with_flags (ex_finished e) false (ex_cancel_sent e) e)). done. }
  destruct op; simpl in Hstep; unfold check_step, insert_step, enqueue_step, expire_step, remove_step,
    abort_step, respond_step, request_failed, deliver, drop_step, cancel_moves, cancel_ends, write_step,
    begin_fail, close_send, close_receive, writer_send in Hstep.
  all: try (repeat (case_match || simplify_option_eq); simplify_eq/=; rewrite ?app_nil_r; done).
  - unfold is_new in Hstep. case_bool_decide as Hn; [|done].
    assert (w_executions w !! call = None) as He.
    { destruct (w_executions w !! call) eqn:He; [|done]. destruct (G_execution _ _ Hg call) as (c & Hc & _).
      - unfold state_of. by rewrite He.
      - congruence. }
    unfold start_prompt in Hstep. case_match; simplify_eq; rewrite app_nil_r; [done|].
    unfold taken_of. simpl. rewrite lookup_insert. destruct (decide (call = i)) as [<-|]; [by rewrite He|done].
  - destruct (w_calls w !! call) as [[[] []]|]; simplify_eq/=. rewrite app_nil_r. apply taken_finish.
  - destruct (w_calls w !! call) as [[[] []]|]; simplify_eq/=; destruct (w_responses w !! id); simplify_eq/=;
      rewrite app_nil_r; [done|apply taken_finish].
  - unfold next_step in Hstep. destruct (w_executions w !! call) as [e|] eqn:He; simpl in Hstep; [|done].
    repeat case_match; simplify_eq; simpl; rewrite ?app_nil_r; try done.
    + rewrite taken_alter by done. by destruct outcome; simpl; rewrite app_nil_r.
    + unfold taken_of. simpl. rewrite lookup_alter. destruct (decide (call = i)) as [<-|]; [|by rewrite app_nil_r].
      by rewrite He.
  - destruct (w_calls w !! call) as [[[] []]|]; simplify_eq/=; rewrite app_nil_r;
      first [by apply taken_alter|exact (Hdrop _ call)].
  - unfold cancel_step, cancel_moves, cancel_ends, writer_send in Hstep.
    destruct (w_cancels w !! cancel) as [k|]; simpl in Hstep; [|done].
    destruct (w_executions w !! ca_call k) as [e|]; simpl in Hstep; [|done].
    destruct (ca_stage k); [|by repeat (case_match || simplify_option_eq); simplify_eq/=; rewrite app_nil_r..].
    simplify_eq. rewrite app_nil_r. apply (taken_alter (ca_call k)). done.
  - unfold read_step, begin_fail in Hstep. case_match; [done|]. destruct frame as [[value|]|error].
    + pose proof (taken_incoming value w i) as Ht. destruct (handle_incoming print_json value w) as [w1 r].
      simpl in Ht. rewrite <-Ht. destruct r; [|case_match]; simplify_eq; by rewrite app_nil_r.
    + case_match; simplify_eq; by rewrite app_nil_r.
    + case_match; simplify_eq; by rewrite app_nil_r.
  - unfold fail_step in Hstep. destruct (w_fails w !! fail) as [f|]; simpl in Hstep; [|done].
    destruct (fl_stage f); simplify_eq; rewrite app_nil_r; try done; [apply taken_drain|].
    unfold after_fail. by destruct (fl_caller f).
  - destruct (w_closes w !! close) as [[]|]; simpl in Hstep; try done.
    destruct (w_writer w); try case_decide; simpl in Hstep; try done;
      unfold begin_fail in Hstep; repeat case_match; simplify_eq/=; by rewrite app_nil_r.
  - destruct (w_closes w !! close) as [[]|]; simpl in Hstep; try done.
    unfold begin_fail in Hstep. repeat case_match; simplify_eq; by rewrite app_nil_r.
Qed.

Lemma runs_updates ops w obs :
  runs print_json ops w obs → all_updates w ∧ ∀ call, received call obs = taken_of w call.
Proof.
  induction 1 as [|ops w obs op w' obs' Hr [IH1 IH2] Hstep]; [done|].
  destruct (runs_good _ _ _ _ Hr) as [Hg _]. split; [by eapply step_updates|].
  intros call. unfold received. rewrite omap_app. fold (received call obs) (received call obs').
  by rewrite IH2, (step_taken _ _ _ _ _ _ Hg Hstep).
Qed.

(** C15: The updates of a prompt are exact: those its caller received and those still queued
    are, in order, one acknowledgement and the updates of its session in the frames that
    were handled between its start and its end. None is lost, repeated or taken from
    another session; the acknowledgement is there unless the prompt was never answered or
    its execution was dropped. *)
Theorem acp_updates_exact ops w obs call e s prompt stage :
  runs print_json ops w obs → w_executions w !! call = Some e →
  w_calls w !! call = Some {| cl_purpose := PU_Prompt s prompt; cl_stage := stage |} →
  ∃ ack : bool,
    received call obs ++ ex_updates e =
      (if ack then [acknowledged] else []) ++ omap (session_update s) (window e (w_handled w)) ∧
    (∀ reason, ex_state e = PS_Terminal (Ok reason) → ex_receiving e = true → ack = true) ∧
    (ack = false → received call obs ++ ex_updates e = []).
Proof.
  intros [Hall Hrec]%runs_updates He Hc. rewrite Hrec. unfold taken_of. rewrite He. simpl.
  destruct (Hall _ _ He) as (c & s' & p & ack & Hc' & Hp & []). rewrite Hc in Hc'. simplify_eq/=.
  exists ack. split; [done|]. split; [|done]. intros reason Hst Hrecv. rewrite Hst in U_state0. naive_solver.
Qed.
End updates.

(** ** A prompt on a connection *)

Section execute.
Context (print_json : Value → string).

Fixpoint execute (ops : list Op) (w : World) : option (World * list Observation) :=
  match ops with
  | [] => Some (w, [])
  | op :: ops =>
      '(w, obs) ← step print_json op w; '(w, obs') ← execute ops w; Some (w, obs ++ obs')
  end.

Lemma execute_runs ops0 obs0 w0 ops w obs :
  runs print_json ops0 w0 obs0 → execute ops w0 = Some (w, obs) → runs print_json (ops0 ++ ops) w (obs0 ++ obs).
Proof.
  revert ops0 obs0 w0 obs. induction ops as [|op ops IH]; intros ops0 obs0 w0 obs Hr; simpl.
  { intros [= -> <-]. by rewrite !app_nil_r. }
  destruct (step print_json op w0) as [[w1 obs1]|] eqn:Hs; simpl; [|done].
  destruct (execute ops w1) as [[w2 obs2]|] eqn:He; simpl; [|done]. intros [= -> <-].
  rewrite (assoc_L (++) ops0 [op] ops : ops0 ++ op :: ops = _), assoc_L by apply _.
  eapply IH; [|done]. by econstructor.
Qed.
End execute.

Module AcpSample.

Definition print (value : Value) : string := "frame".

Definition prompt_ops : list Op :=
  [Op_Start 0 "s" VNull; Op_Check 0 "r1"; Op_Insert 0; Op_Enqueue 0].

Definition update : Value :=
  VObject [("jsonrpc", VString "2.0"); ("method", VString "session/update");
           ("params", VObject [("sessionId", VString "s");
             ("update", VObject [("content", VString "hi"); ("sessionUpdate", VString "agent_message_chunk")])])].

Definition response : Value :=
  VObject [("id", VString "r1"); ("jsonrpc", VString "2.0");
           ("result", VObject [("stopReason", VString "end_turn")])].

Definition answered_ops : list Op :=
  prompt_ops ++ [Op_Read 0 (Ok (Some update)); Op_Next 0; Op_Next 0; Op_Read 0 (Ok (Some response));
                 Op_Respond 0; Op_Next 0].

(** The connection fails while a second prompt is between its registration and its check. *)
Definition failed_ops : list Op :=
  prompt_ops ++ [Op_Read 0 (Ok None); Op_Fail 0; Op_Fail 0; Op_Start 1 "t" VNull; Op_Fail 0; Op_Fail 0;
                 Op_Check 1 "r2"; Op_Abort 1; Op_Fail 0].

Definition isSome {A} (o : option A) : bool := match o with Some _ => true | None => false end.

Definition end_of (ops : list Op) : World := default World_new (fst <$> execute print ops World_new).
Definition seen (ops : list Op) : list Observation := default [] (snd <$> execute print ops World_new).

Lemma sample_runs ops :
  isSome (execute print ops World_new) = true → runs print ops (end_of ops) (seen ops).
Proof.
  unfold end_of, seen. destruct (execute print ops World_new) as [[w obs]|] eqn:He; [intros _|done]. simpl.
  apply (execute_runs print [] [] World_new); [constructor|done].
Qed.

Lemma acp_answers_truthful_witness :
  seen answered_ops = [Ob_PromptStarted 0; Ob_Next 0 (Ok (Some (PE_Update acknowledged)));
    Ob_Next 0 (Ok (Some (PE_Update {| nu_kind := UK_AgentMessage; nu_content := Some (VString "hi") |})));
    Ob_Next 0 (Ok (Some (PE_Finished SR_EndTurn)))] ∧
  Forall (truthful answered_ops) (seen answered_ops).
Proof.
  split; [by vm_compute|].
  apply (acp_answers_truthful print answered_ops (end_of answered_ops)), sample_runs. by vm_compute.
Defined.

Lemma acp_prompts_settle_witness :
  ∃ e outcome, w_executions (end_of failed_ops) !! 0 = Some e ∧ ex_state e = PS_Terminal outcome.
Proof.
  destruct (w_executions (end_of failed_ops) !! 0) as [e|] eqn:He; [|by vm_compute in He].
  destruct (acp_prompts_settle print failed_ops (end_of failed_ops) (seen failed_ops) 0 e) as [outcome Ho].
  - apply sample_runs. by vm_compute.
  - by vm_compute.
  - by vm_compute.
  - by vm_compute.
  - done.
  - by exists e, outcome.
Defined.

Lemma acp_updates_exact_witness :
  ∃ e ack, w_executions (end_of answered_ops) !! 0 = Some e ∧
    received 0 (seen answered_ops) ++ ex_updates e =
      (if ack : bool then [acknowledged] else []) ++
      omap (session_update "s") (window e (w_handled (end_of answered_ops))).
Proof.
  destruct (w_executions (end_of answered_ops) !! 0) as [e|] eqn:He; [|by vm_compute in He].
  destruct (acp_updates_exact print answered_ops (end_of answered_ops) (seen answered_ops) 0 e "s" VNull
    (ST_Done true)) as (ack & Hu & _).
  - apply sample_runs. by vm_compute.
  - done.
  - by vm_compute.
  - by exists e, ack.
Defined.

End AcpSample.
