(* ===== verification/AcpAdapter.v ===== *)
(** * AcpAdapter: the provider adapter over an ACP connection
      (workbench-acp/src/adapter.rs and supervisor.rs)

    What the child process, its pipes and the deadlines do is given: the answers to
    requests, the outcomes of waiting for the child. The stream of a prompt is what the
    adapter makes of the results of [next] of [AcpClient]. *)

From S2P Require Import Prelude Text BTree Errors Value Json Wire Ports AgentProtocol AgentFrames.
From S2P Require Import AcpClient AcpClientProps.

Definition PROTOCOL_NAME : string := "acp/1".
Definition MAX_MODEL_ID_BYTES : N := 4096.
Definition MAX_ADAPTER_VERSION_BYTES : N := 256.

(** ** The client of the child *)

(** The paths of a profile are given as whether they resolve to a file and a directory. *)
Record GrokLaunchProfile : Type := {
  gl_executable_is_file : bool;
  gl_workspace_is_dir : bool;
  gl_shutdown_grace : N;
  gl_request_timeout : N;
}.

Record ShutdownReport : Type := { sr_reaped : bool; sr_forced : bool }.

(** How a wait for the child ends: with its status, with an error, at the deadline *)
Inductive Wait : Type := WT_Exited | WT_Failed | WT_Expired.

Definition force_reap (wait : Wait) : bool * bool :=
  (match wait with WT_Exited => true | _ => false end, true).

Definition reap (wait forced : Wait) : bool * bool :=
  match wait with
  | WT_Exited => (true, false)
  | WT_Failed => (false, false)
  | WT_Expired => force_reap forced
  end.

(** What the supervisor hears first: the end of the child, a shutdown, a fatal error *)
Inductive SupervisorEvent : Type :=
| SE_Exited (status : bool)
| SE_Shutdown (wait forced : Wait)
| SE_Fatal (forced : Wait).

Definition supervisor_report (event : SupervisorEvent) : ShutdownReport :=
  match event with
  | SE_Exited status => {| sr_reaped := status; sr_forced := false |}
  | SE_Shutdown wait forced => {| sr_reaped := (reap wait forced).1; sr_forced := (reap wait forced).2 |}
  | SE_Fatal forced => {| sr_reaped := (force_reap forced).1; sr_forced := (force_reap forced).2 |}
  end.

(** [GrokAcpClient::shutdown]; there is no report when the supervisor does not answer
    before its deadline. *)
Definition client_shutdown (event : option SupervisorEvent) : ShutdownReport :=
  match event with
  | Some event => supervisor_report event
  | None => {| sr_reaped := false; sr_forced := true |}
  end.

Definition invalid_configuration : AcpError :=
  {| ac_kind := AE_InvalidConfiguration; ac_message := "ACP launch configuration is invalid" |}.

(** What [GrokAcpClient::connect] checks before it spawns the child *)
Definition launch_checks (profile : GrokLaunchProfile) : Result unit AcpError :=
  if (gl_request_timeout profile =? 0)%N || (gl_shutdown_grace profile =? 0)%N
  then Err invalid_configuration
  else if negb (gl_executable_is_file profile) then Err invalid_configuration
  else if negb (gl_workspace_is_dir profile) then Err invalid_configuration
  else Ok tt.

(** The arguments of the child *)
Definition child_arguments : list string := ["agent"; "--no-leader"; "stdio"].

Definition initialize_params (version : string) : Value :=
  VObject [("clientCapabilities",
            VObject [("fs", VObject [("readTextFile", VBool false); ("writeTextFile", VBool false)]);
                     ("terminal", VBool false)]);
           ("clientInfo", VObject [("name", VString "workbench"); ("title", VString "Workbench");
                                   ("version", VString version)]);
           ("protocolVersion", VNumber (PosInt ACP_PROTOCOL_VERSION))].

(** [GrokAcpClient::initialize], from the answers to its two requests *)
Definition initialize (initialized authenticated : Result Value AcpError) : Result AcpCapabilities AcpError :=
  let? result := initialized in
  let? parsed := parse_initialize result in
  match parsed.2 with
  | Some _ => let? _ := authenticated in Ok parsed.1
  | None => Ok parsed.1
  end.

(** The end of [GrokAcpClient::connect]: the health it sets and what it returns *)
Definition connect_outcome (outcome : Result AcpCapabilities AcpError) (report : ShutdownReport)
    : AdapterHealth * Result AcpCapabilities AcpError :=
  match outcome with
  | Ok capabilities =>
      (match acp_authentication capabilities with
       | AS_Available => AH_Available
       | AS_InteractiveRequired => AH_AuthenticationRequired
       | AS_Unavailable => AH_Unavailable
       end, Ok capabilities)
  | Err error =>
      (match ac_kind error with
       | AE_IncompatibleProtocol | AE_CapabilityUnavailable => AH_Incompatible
       | _ => AH_Unavailable
       end,
       if sr_reaped report then Err error
       else Err {| ac_kind := AE_ReapFailed; ac_message := "ACP provider process could not be reaped" |})
  end.

Definition require_available (capabilities : AcpCapabilities) (health : AdapterHealth) : Result unit AcpError :=
  match acp_authentication capabilities with
  | AS_Available =>
      if decide (health = AH_Available) then Ok tt
      else Err {| ac_kind := AE_TransportClosed; ac_message := "ACP provider is unavailable" |}
  | AS_InteractiveRequired =>
      Err {| ac_kind := AE_AuthenticationRequired;
             ac_message := "ACP provider authentication requires user interaction" |}
  | AS_Unavailable => Err {| ac_kind := AE_TransportClosed; ac_message := "ACP provider is unavailable" |}
  end.

Definition new_session_params (workspace : string) (model_id : option string) : Value :=
  VObject [("_meta", VObject (match model_id with Some id => [("modelId", VString id)] | None => [] end));
           ("cwd", VString workspace); ("mcpServers", VArray [])].

(** [new_session], from the answer to its request *)
Definition new_session (capabilities : AcpCapabilities) (health : AdapterHealth)
    (answer : Result Value AcpError) : Result string AcpError :=
  let? _ := require_available capabilities health in
  let? result := answer in parse_session result.

Definition load_session_params (workspace session_id : string) : Value :=
  VObject [("cwd", VString workspace); ("mcpServers", VArray []); ("sessionId", VString session_id)].

Definition load_session (capabilities : AcpCapabilities) (health : AdapterHealth) (session_id : string)
    (answer : Result Value AcpError) : Result string AcpError :=
  let? _ := require_available capabilities health in
  if negb (acp_load_session capabilities)
  then Err {| ac_kind := AE_CapabilityUnavailable; ac_message := "ACP session loading is unavailable" |}
  else let? _ := answer in session_from_id session_id.

(** [GrokAcpClient::prompt] up to [start_prompt] *)
Definition prompt_params (capabilities : AcpCapabilities) (health : AdapterHealth) (session_id text : string)
    : Result Value AcpError :=
  let? _ := require_available capabilities health in
  if is_empty text
  then Err {| ac_kind := AE_ProtocolViolation; ac_message := "ACP prompt must not be empty" |}
  else Ok (VObject [("prompt", VArray [VObject [("text", VString text); ("type", VString "text")]]);
                    ("sessionId", VString session_id)]).

(** ** Failures *)

Definition mapped_failure (kind : AcpErrorKind) : FailureCategory * string :=
  match kind with
  | AE_InvalidConfiguration => (FC_InvalidRequest, "ACP launch configuration is invalid")
  | AE_IncompatibleProtocol | AE_CapabilityUnavailable =>
      (FC_CapabilityUnavailable, "ACP provider is incompatible")
  | AE_Timeout => (FC_ProviderTimeout, "ACP provider operation timed out")
  | AE_ReapFailed => (FC_Internal, "ACP provider process could not be reaped")
  | _ => (FC_ProviderUnavailable, "ACP provider is unavailable")
  end.

Definition provider_setup_failure (error : AcpError) : ProviderFailure :=
  let m := mapped_failure (ac_kind error) in definite_failure m.1 m.2.

Definition core_error (error : AcpError) : NewError :=
  let m := mapped_failure (ac_kind error) in new_error m.1 m.2.

Definition uncertain_failure : ProviderFailure :=
  {| pf_category := FC_OutcomeUnknown;
     pf_user_safe_message := "provider outcome is unknown after prompt dispatch"; pf_definite := false |}.

Definition cancelled_stream_failure : ProviderFailure :=
  {| pf_category := FC_OutcomeUnknown;
     pf_user_safe_message := "provider prompt ended through cancellation"; pf_definite := false |}.

Definition core_error_from_failure (failure : ProviderFailure) : NewError :=
  new_error (pf_category failure) (pf_user_safe_message failure).

(** ** The stream of a prompt *)

Section stream.
Context (print_json : Value → string).

Definition normalized_text (value : option Value) : option (Result NonEmptyText ProviderFailure) :=
  value ← value;
  match (content ← as_object value; text ← bt_get "text" content; as_str text) with
  | Some text =>
      if is_empty text then None
      else Some (map_err (λ _, internal_failure false) (NonEmptyText_parse text))
  | None => Some (map_err (λ _, internal_failure false) (NonEmptyText_parse (print_json value)))
  end.

Definition normalized_content (event_type : string) (value : option Value) : option Item :=
  result_map (PO_Content event_type) <$> normalized_text value.

Definition normalized_tool (event_type : string) (value : option Value) : option Item :=
  result_map (PO_Tool event_type) <$> normalized_text value.

Definition normalize_update (update : NormalizedUpdate) : option Item :=
  match nu_kind update with
  | UK_Acknowledged => Some (Ok (PO_Acknowledged None))
  | UK_AgentMessage => normalized_content "agent_message_chunk" (nu_content update)
  | UK_AgentThought => None
  | UK_Plan => normalized_content "plan" (nu_content update)
  | UK_ToolCall => normalized_tool "tool_call" (nu_content update)
  | UK_ToolCallUpdate => normalized_tool "tool_call_update" (nu_content update)
  end.

Definition normalize_outcome (stop_reason : StopReason) : Item :=
  match stop_reason with
  | SR_EndTurn => Ok (PO_Completed "provider completed the prompt")
  | SR_MaxTokens => Ok (PO_Completed "provider reached its token limit")
  | SR_MaxTurnRequests => Ok (PO_Completed "provider reached its turn request limit")
  | SR_Refusal => Ok (PO_Completed "provider ended the prompt with a refusal")
  | SR_Cancelled => Err cancelled_stream_failure
  end.

Definition is_terminal (item : Item) : bool :=
  match item with Ok (PO_Completed _) | Err _ => true | Ok _ => false end.

(** [forward_provider_stream] over the results of [next]; the consumer takes [open] items
    and is gone after that. *)
Fixpoint forward_provider_stream (nexts : list (Result (option PromptEvent) AcpError)) (open : nat)
    : list Item :=
  match nexts with
  | [] => []
  | event :: nexts =>
      let item :=
        match event with
        | Ok (Some (PE_Update update)) => Ok (normalize_update update)
        | Ok (Some (PE_Finished reason)) => Ok (Some (normalize_outcome reason))
        | Ok None => Err tt
        | Err _ => Ok (Some (Err uncertain_failure))
        end in
      match item with
      | Err _ => []
      | Ok None => forward_provider_stream nexts open
      | Ok (Some item) =>
          (if decide (open = 0) then [] else [item]) ++
          (if is_terminal item then [] else forward_provider_stream nexts (pred open))
      end
  end.
End stream.

(** ** The adapter *)

(** [LocalSession]: the session of the agent with its model, and the active attempt with
    the call of its prompt *)
Record LocalSession : Type := {
  lo_provider_session : option (string * string);
  lo_active : option (Uuid * nat);
}.

(** The map of sessions holds references: a session that was taken from it lives on when
    the map is cleared. *)
Record GrokProviderAdapter : Type := {
  ga_adapter_id : ProviderId;
  ga_adapter_version : string;
  ga_capabilities : AcpCapabilities;
  ga_sessions : gmap string nat;
  ga_locals : gmap nat LocalSession;
  ga_shutting_down : bool;
}.

Definition with_locals (f : gmap nat LocalSession → gmap nat LocalSession) (a : GrokProviderAdapter)
    : GrokProviderAdapter :=
  {| ga_adapter_id := ga_adapter_id a; ga_adapter_version := ga_adapter_version a;
     ga_capabilities := ga_capabilities a; ga_sessions := ga_sessions a; ga_locals := f (ga_locals a);
     ga_shutting_down := ga_shutting_down a |}.

(** [GrokProviderAdapter::connect], from what the connection of the client and its
    shutdown gave *)
Definition connect (adapter_id : ProviderId) (expected_adapter_version : string) (cancellation_deadline : N)
    (client : Result AcpCapabilities AcpError) (report : ShutdownReport) : Result GrokProviderAdapter NewError :=
  if (cancellation_deadline =? 0)%N
  then Err (new_error FC_InvalidRequest "provider cancellation deadline must be greater than zero")
  else if is_empty expected_adapter_version || (MAX_ADAPTER_VERSION_BYTES <? len expected_adapter_version)%N
  then Err (new_error FC_InvalidRequest "expected ACP adapter version is invalid")
  else
    let? capabilities := map_err core_error client in
    match acp_agent_version capabilities with
    | Some reported =>
        if String.eqb reported expected_adapter_version
        then Ok {| ga_adapter_id := adapter_id; ga_adapter_version := expected_adapter_version;
                   ga_capabilities := capabilities; ga_sessions := ∅; ga_locals := ∅; ga_shutting_down := false |}
        else if sr_reaped report
        then Err (new_error FC_CapabilityUnavailable "ACP provider version does not match the configured pin")
        else Err (new_error FC_Internal "ACP provider process could not be reaped")
    | None =>
        Ok {| ga_adapter_id := adapter_id; ga_adapter_version := expected_adapter_version;
              ga_capabilities := capabilities; ga_sessions := ∅; ga_locals := ∅; ga_shutting_down := false |}
    end.

(** The start of [shutdown] *)
Definition shutdown (a : GrokProviderAdapter) : GrokProviderAdapter :=
  {| ga_adapter_id := ga_adapter_id a; ga_adapter_version := ga_adapter_version a;
     ga_capabilities := ga_capabilities a; ga_sessions := ∅; ga_locals := ga_locals a;
     ga_shutting_down := true |}.

Definition map_authentication (status : AcpClient.AuthenticationStatus) : Ports.AuthenticationStatus :=
  match status with
  | AS_Available => Ports.AS_Available
  | AS_InteractiveRequired => Ports.AS_InteractiveRequired
  | AS_Unavailable => Ports.AS_Unavailable
  end.

Definition authentication (a : GrokProviderAdapter) (health : AdapterHealth) : Ports.AuthenticationStatus :=
  match health with
  | AH_Available => map_authentication (acp_authentication (ga_capabilities a))
  | AH_AuthenticationRequired => Ports.AS_InteractiveRequired
  | _ => Ports.AS_Unavailable
  end.

Definition capabilities (a : GrokProviderAdapter) (health : AdapterHealth) : ProviderCapabilities :=
  {| pc_adapter_id := ga_adapter_id a; pc_adapter_version := ga_adapter_version a;
     pc_protocol := PROTOCOL_NAME; pc_authentication := authentication a health;
     pc_capabilities := [PC_Streaming; PC_Cancellation; PC_Acp]
       ++ (if acp_load_session (ga_capabilities a) then [PC_SessionResume] else []);
     pc_context_window_tokens := None |}.

Definition require_dispatchable (a : GrokProviderAdapter) (health : AdapterHealth) : Result unit ProviderFailure :=
  if ga_shutting_down a
  then Err (definite_failure FC_ProviderUnavailable "ACP provider is shutting down")
  else
    match authentication a health with
    | Ports.AS_Available => Ok tt
    | Ports.AS_InteractiveRequired =>
        Err (definite_failure FC_ProviderUnavailable "ACP provider authentication requires user interaction")
    | Ports.AS_Unavailable | AS_Expired =>
        Err (definite_failure FC_ProviderUnavailable "ACP provider is unavailable")
    end.

Definition session (a : GrokProviderAdapter) (handle : string) : Result nat ProviderFailure :=
  ok_or (ga_sessions a !! handle)
    (definite_failure FC_ProviderUnavailable "provider session handle is unavailable").

Definition new_handle (handle : string) : Result ProviderSessionHandle ProviderFailure :=
  map_err (λ e, definite_failure (ne_category e) (ne_message e)) (ProviderSessionHandle_new handle).

(** [local_handle] is generated, [key] the reference to the session. *)
Definition start_session (a : GrokProviderAdapter) (health : AdapterHealth) (local_handle : string) (key : nat)
    : GrokProviderAdapter * Result ProviderSessionHandle ProviderFailure :=
  match require_dispatchable a health with
  | Err failure => (a, Err failure)
  | Ok _ =>
      ({| ga_adapter_id := ga_adapter_id a; ga_adapter_version := ga_adapter_version a;
          ga_capabilities := ga_capabilities a; ga_sessions := <[local_handle := key]> (ga_sessions a);
          ga_locals := <[key := {| lo_provider_session := None; lo_active := None |}]> (ga_locals a);
          ga_shutting_down := ga_shutting_down a |}, new_handle local_handle)
  end.

Definition resume_session (a : GrokProviderAdapter) (health : AdapterHealth) (opaque_handle : string)
    : Result ProviderSessionHandle ProviderFailure :=
  let? _ := require_dispatchable a health in
  let? _ := session a opaque_handle in
  new_handle opaque_handle.

Definition validate_runtime_model (model : string) : Result unit ProviderFailure :=
  if is_empty model || (MAX_MODEL_ID_BYTES <? len model)%N
  then Err (definite_failure FC_CapabilityUnavailable "provider runtime model is invalid")
  else Ok tt.

(** [prompt_stream] before it takes the lock of its session *)
Definition prompt_admit (a : GrokProviderAdapter) (health : AdapterHealth) (handle : string)
    (prompt : ProviderPrompt) : Result nat ProviderFailure :=
  let? _ := require_dispatchable a health in
  let? _ := validate_runtime_model (pp_runtime_model prompt) in
  session a handle.

Definition set_bound (bound : string * string) (l : LocalSession) : LocalSession :=
  {| lo_provider_session := Some bound; lo_active := lo_active l |}.
Definition set_active (active : option (Uuid * nat)) (l : LocalSession) : LocalSession :=
  {| lo_provider_session := lo_provider_session l; lo_active := active |}.

(** The session of the agent that the prompt goes to *)
Definition bind_session (l : LocalSession) (model : string) (fresh : Result string AcpError)
    : Result string ProviderFailure :=
  match lo_provider_session l with
  | Some bound =>
      if String.eqb bound.2 model then Ok bound.1
      else Err (definite_failure FC_CapabilityUnavailable "provider session runtime model cannot change")
  | None => map_err provider_setup_failure fresh
  end.

(** [prompt_stream] under the lock of its session: [fresh] is what [new_session] returns,
    [start] what [prompt] of the client does for a session. *)
Definition prompt_locked (a : GrokProviderAdapter) (key : nat) (prompt : ProviderPrompt)
    (fresh : Result string AcpError) (start : string → Result nat AcpError)
    : GrokProviderAdapter * Result nat ProviderFailure :=
  match ga_locals a !! key with
  | None => (a, Err (internal_failure true))
  | Some l =>
      match lo_active l with
      | Some _ =>
          (a, Err (definite_failure FC_ProviderUnavailable "provider session already has an active prompt"))
      | None =>
          match bind_session l (pp_runtime_model prompt) fresh with
          | Err failure => (a, Err failure)
          | Ok remote =>
              let a := with_locals (alter (set_bound (remote, pp_runtime_model prompt)) key) a in
              match start remote with
              | Err error => (a, Err (provider_setup_failure error))
              | Ok call =>
                  (with_locals (alter (set_active (Some (pp_attempt_id prompt, call))) key) a, Ok call)
              end
          end
      end
  end.

Definition clear_active_prompt (key : nat) (attempt_id : Uuid) : GrokProviderAdapter → GrokProviderAdapter :=
  with_locals (alter (λ l, match lo_active l with
                           | Some (active, _) => if decide (active = attempt_id) then set_active None l else l
                           | None => l
                           end) key).

(** [cancel] up to the cancellation of the prompt: the call it is for, if any *)
Definition cancel_control (a : GrokProviderAdapter) (handle : string) (attempt_id : Uuid)
    : Result (option (nat * nat)) NewError :=
  let? key := map_err core_error_from_failure (session a handle) in
  Ok (l ← ga_locals a !! key;
      active ← lo_active l;
      if decide (active.1 = attempt_id) then Some (key, active.2) else None).

(** [cancel] with what the control of the prompt returned *)
Definition cancel (a : GrokProviderAdapter) (handle : string) (attempt_id : Uuid)
    (control : nat → CancellationOutcome) : GrokProviderAdapter * Result CancellationStatus NewError :=
  match cancel_control a handle attempt_id with
  | Err error => (a, Err error)
  | Ok None => (a, Ok CS_Unconfirmed)
  | Ok (Some (key, call)) =>
      match control call with
      | CO_Confirmed => (clear_active_prompt key attempt_id a, Ok CS_Confirmed)
      | CO_Unconfirmed => (a, Ok CS_Unconfirmed)
      end
  end.

(** ** What the adapter keeps *)

(** An adapter exists only for a client whose version is the configured one, when it
    reports one. *)
Theorem connect_pinned adapter_id expected deadline client report a :
  connect adapter_id expected deadline client report = Ok a →
  ∃ capabilities, client = Ok capabilities ∧ ga_capabilities a = capabilities ∧
    (∀ reported, acp_agent_version capabilities = Some reported → reported = ga_adapter_version a).
Proof.
  unfold connect. destruct (deadline =? 0)%N; [done|]. destruct (_ || _); [done|].
  destruct client as [capabilities|]; simpl; [|done].
  destruct (acp_agent_version capabilities) as [reported|] eqn:Hv.
  - destruct (String.eqb_spec reported expected) as [->|]; [|by destruct (sr_reaped report)].
    intros [= <-]. exists capabilities. split_and!; try done. simpl. congruence.
  - intros [= <-]. exists capabilities. split_and!; try done. intros reported Hr. congruence.
Qed.

(** A session is bound to one session of the agent and one model for good; a prompt that
    starts goes to that session, becomes the active one, and no other was. *)
Theorem prompt_locked_bound a key prompt fresh start a' r l :
  ga_locals a !! key = Some l → prompt_locked a key prompt fresh start = (a', r) →
  ∃ l', ga_locals a' !! key = Some l' ∧
    (∀ bound, lo_provider_session l = Some bound → lo_provider_session l' = Some bound) ∧
    (∀ call, r = Ok call → lo_active l = None ∧ lo_active l' = Some (pp_attempt_id prompt, call) ∧
       ∃ remote, lo_provider_session l' = Some (remote, pp_runtime_model prompt) ∧ start remote = Ok call).
Proof.
  intros Hl. unfold prompt_locked. rewrite Hl.
  destruct (lo_active l) as [active|] eqn:Ha; [intros [= <- <-]; by exists l|].
  destruct (bind_session l _ fresh) as [remote|] eqn:Hb; [|intros [= <- <-]; by exists l].
  assert (∀ bound, lo_provider_session l = Some bound → (remote, pp_runtime_model prompt) = bound) as Hsame.
  { intros [s m] Hp. unfold bind_session in Hb. rewrite Hp in Hb. simpl in Hb.
    destruct (String.eqb_spec m (pp_runtime_model prompt)); by simplify_eq. }
  destruct (start remote) as [call|] eqn:Hs; intros [= <- <-]; simpl;
    rewrite ?lookup_alter_eq, Hl; simpl; eexists; (split; [done|]); simpl;
    (split; [intros bound Hp; f_equal; by apply Hsame|]); [|done].
  intros call' [= <-]. split; [done|]. split; [done|]. by exists remote.
Qed.

(** ** What a consumer of the stream can rely on *)

Definition nexts (call : nat) (obs : list Observation) : list (Result (option PromptEvent) AcpError) :=
  omap (λ ob, match ob with Ob_Next c event => if decide (c = call) then Some event else None | _ => None end) obs.

Section forwarded.
Context (print_json : Value → string).

Lemma normalized_text_total value r : normalized_text print_json value = Some (Err r) → pf_definite r = false.
Proof.
  unfold normalized_text, NonEmptyText_parse. destruct value as [v|]; simpl; [|done].
  by repeat case_match; intros [= <-].
Qed.

Lemma normalize_update_item update item :
  normalize_update print_json update = Some item →
  match item with Ok (PO_Completed _) => False | Ok _ => True | Err failure => pf_definite failure = false end.
Proof.
  unfold normalize_update, normalized_content, normalized_tool.
  destruct (nu_kind update); try done; try (by intros [= <-]);
    (destruct (normalized_text print_json (nu_content update)) as [[text|failure]|] eqn:Ht; [| |done]);
    intros [= <-]; simpl; try done; by eapply normalized_text_total.
Qed.

(** Where an item of the stream comes from *)
Lemma forwarded_item events open item :
  item ∈ forward_provider_stream print_json events open →
  match item with
  | Ok (PO_Completed _) => ∃ reason, Ok (Some (PE_Finished reason)) ∈ events ∧ normalize_outcome reason = item
  | Ok _ => True
  | Err failure => pf_definite failure = false
  end.
Proof.
  revert open. induction events as [|event events IH]; intros open; simpl; [set_solver|].
  assert (∀ o, item ∈ forward_provider_stream print_json events o →
    match item with
    | Ok (PO_Completed _) => ∃ reason, Ok (Some (PE_Finished reason)) ∈ event :: events ∧ normalize_outcome reason = item
    | Ok _ => True
    | Err failure => pf_definite failure = false
    end) as IH'.
  { intros o Ho. specialize (IH _ Ho). destruct item as [[]|]; try done.
    destruct IH as (reason & ? & ?). exists reason. split; [set_solver|done]. }
  destruct event as [[[update|reason]|]|error].
  - destruct (normalize_update print_json update) as [i|] eqn:Hu; [|apply IH'].
    apply normalize_update_item in Hu. intros [Hi|Hi]%elem_of_app.
    + case_decide; [set_solver|]. apply list_elem_of_singleton in Hi as ->. by destruct i as [[]|].
    + destruct (is_terminal i); [set_solver|by eapply IH'].
  - intros [Hi|Hi]%elem_of_app; [|by destruct reason; simpl in Hi; set_solver].
    case_decide; [set_solver|]. apply list_elem_of_singleton in Hi as ->.
    destruct reason; simpl; try done; (eexists; split; [by left|done]).
  - set_solver.
  - simpl. rewrite app_nil_r. case_decide; [set_solver|]. by intros ->%list_elem_of_singleton.
Qed.

(** The last item is the only one that can end the stream. *)
Lemma forwarded_terminal events open before item after :
  forward_provider_stream print_json events open = before ++ item :: after → is_terminal item = true →
  after = [].
Proof.
  revert open before. induction events as [|event events IH]; intros open before; simpl.
  { by destruct before. }
  assert (∀ i, (if decide (open = 0) then [] else [i]) ++
      (if is_terminal i then [] else forward_provider_stream print_json events (pred open))
      = before ++ item :: after → is_terminal item = true → after = []) as Hone.
  { intros i Heq Ht. case_decide; simpl in Heq.
    - destruct (is_terminal i); [by destruct before|by eapply IH].
    - destruct before as [|b before]; simplify_eq/=; [by rewrite Ht|].
      destruct (is_terminal b); [by destruct before|by eapply IH]. }
  destruct event as [[[update|reason]|]|error]; try apply Hone; [|by destruct before].
  destruct (normalize_update print_json update); [apply Hone|apply IH].
Qed.

(** C16: The stream of a prompt over an ACP connection, in every interleaving: it reports
    completion only with the stop reason that the agent sent for this very prompt and that
    is not a cancellation, reports no failure after dispatch as definite, and nothing
    follows the item that ends it. *)
Theorem acp_stream_truthful ops w obs call open :
  runs print_json ops w obs →
  let items := forward_provider_stream print_json (nexts call obs) open in
  (∀ summary, Ok (PO_Completed summary) ∈ items →
     ∃ reason, outcome_answered ops call reason ∧ normalize_outcome reason = Ok (PO_Completed summary)) ∧
  (∀ failure, Err failure ∈ items → pf_definite failure = false) ∧
  (∀ before item after, items = before ++ item :: after → is_terminal item = true → after = []).
Proof.
  intros Hr items. split_and!.
  - intros summary (reason & Hin & Hn)%forwarded_item. exists reason. split; [|done].
    apply list_elem_of_omap in Hin as (ob & Hob & Hev).
    destruct (runs_good _ _ _ _ Hr) as [_ Ht]. rewrite Forall_forall in Ht. specialize (Ht _ Hob).
    destruct ob; simplify_eq. case_decide; by simplify_eq/=.
  - intros failure Hf%forwarded_item. done.
  - apply forwarded_terminal.
Qed.
End forwarded.

Lemma acp_stream_truthful_witness :
  forward_provider_stream AcpSample.print (nexts 0 (AcpSample.seen AcpSample.answered_ops)) 9 =
    [Ok (PO_Acknowledged None); Ok (PO_Content "agent_message_chunk" "frame");
     Ok (PO_Completed "provider completed the prompt")] ∧
  ∃ reason, outcome_answered AcpSample.answered_ops 0 reason ∧
    normalize_outcome reason = Ok (PO_Completed "provider completed the prompt").
Proof.
  split; [by vm_compute|].
  apply (acp_stream_truthful AcpSample.print AcpSample.answered_ops (AcpSample.end_of AcpSample.answered_ops)
    (AcpSample.seen AcpSample.answered_ops) 0 9).
  - apply AcpSample.sample_runs. by vm_compute.
  - apply list_elem_of_In. vm_compute. tauto.
Defined.
