(* ===== verification/DaemonProviders.v ===== *)
(** * DaemonProviders: the providers the daemon starts with
      (workbench-daemon/src/providers.rs)

    [bootstrap_with_spend_store] starts the adapters the lock pins and the API adapters.
    What the operating system and the adapters do is given: the copy of an executable
    with its digest, the outcome of connecting, the capabilities and the report of a
    shutdown. The connections and shutdowns are logged in order; joined shutdowns are
    logged in the order they are started. Probing versions for a new lock is not
    modelled. *)

From S2P Require Import Prelude Text BTree Errors Value Json Ports ConfigModel ConfigValidate ConfigPreflight ConfigLock.

Inductive ProviderRuntimeError : Type :=
| PE_Configuration (error : ConfigError)
| PE_Core (error : NewError)
| PE_Incompatible (message : string)
| PE_Probe (message : string)
| PE_Snapshot
| PE_Reap
| PE_Task.

Inductive AdapterProbeKind : Type := AP_Acp | AP_ClaudeCode | AP_Codex.

Record ProviderDescriptor : Type := {
  ds_kind : AdapterProbeKind;
  ds_provider_id : ProviderId;
  ds_version : string;
  ds_protocol : string;
  ds_executable : string;
}.

(** [StartupConfiguration], as far as the providers use it *)
Record ProviderStartup : Type := {
  ps_resolved : WorkbenchConfiguration;
  ps_base_lock : WorkbenchLock;
  ps_lock_verified : bool;
}.

(** A connected adapter is a reference. *)
Record ProviderRuntime : Type := {
  rt_registry : BTreeMap nat;
  rt_catalog : BTreeMap PreflightCapabilities;
  rt_managed : list nat;
}.

Inductive ProviderEvent : Type :=
| PV_Connected (adapter : nat)
| PV_Shutdown (adapter : nat) (reaped : bool).

Definition CANCELLATION_FINALIZATION_RESERVE : N := 500.

(** Durations in milliseconds *)
Definition provider_cancellation_budget (public_deadline : N) : Result N ProviderRuntimeError :=
  if (CANCELLATION_FINALIZATION_RESERVE <? public_deadline)%N
  then Ok (public_deadline - CANCELLATION_FINALIZATION_RESERVE)%N
  else Err (PE_Incompatible "cancellation deadline leaves no finalization budget").

Definition config_capability (capability : ProviderCapability) : Capability :=
  match capability with
  | PC_Streaming => CAP_Streaming | PC_ToolCalling => CAP_ToolCalling
  | PC_StructuredOutput => CAP_StructuredOutput | PC_SessionResume => CAP_SessionResume
  | PC_Cancellation => CAP_Cancellation | PC_Vision => CAP_Vision | PC_Mcp => CAP_Mcp | PC_Acp => CAP_Acp
  end.

Definition prompt_operation : ProviderOperation :=
  {| po_name := "provider.prompt"; po_effect_class := CE_PaidInference; po_idempotent := false;
     po_material_cost := true; po_approval := AM_Policy |}.

Definition config_capabilities (capabilities : ProviderCapabilities) : PreflightCapabilities :=
  {| pf_adapter_id := pc_adapter_id capabilities; pf_adapter_version := pc_adapter_version capabilities;
     pf_protocol := pc_protocol capabilities; pf_authentication := pc_authentication capabilities;
     pf_capabilities := config_capability <$> pc_capabilities capabilities;
     pf_context_window_tokens := pc_context_window_tokens capabilities;
     pf_operations := [prompt_operation] |}.

Definition descriptor_kind (provider : Provider) : option AdapterProbeKind :=
  match pr_kind provider, pr_driver provider with
  | PT_Acp, None => Some AP_Acp
  | PT_SubscriptionCli, Some PD_ClaudeCode => Some AP_ClaudeCode
  | PT_SubscriptionCli, Some PD_Codex => Some AP_Codex
  | _, _ => None
  end.

Section bootstrap.
(** [copy_executable_snapshot]: the copy and its digest *)
Context (copy_executable_snapshot : string → string → Result (string * string) ProviderRuntimeError).
(** [connect] of the adapter of a descriptor, with its native writes *)
Context (connect_adapter : ProviderDescriptor → bool → Result nat NewError).
Context (connect_openrouter : ProviderId → Provider → string → Result nat NewError).
Context (capabilities : nat → Result ProviderCapabilities NewError).
Context (shutdown : nat → bool).

Definition snapshot_locked_executable (kind : AdapterProbeKind) (name source expected_sha256 : string)
    : Result string ProviderRuntimeError :=
  let? copied := copy_executable_snapshot name source in
  if negb (String.eqb copied.2 expected_sha256)
  then Err (PE_Incompatible (match kind with
                             | AP_Acp => "ACP executable differs from the lock"
                             | AP_ClaudeCode => "Claude Code executable differs from the lock"
                             | AP_Codex => "Codex executable differs from the lock"
                             end))
  else Ok copied.1.

Definition provider_descriptor (lock : WorkbenchLock) (name : string) (provider : Provider)
    (kind : AdapterProbeKind) : Result ProviderDescriptor ProviderRuntimeError :=
  let? provider_id := map_err PE_Core (Identifier_parse name) in
  let? executable := ok_or (pr_executable provider)
    (PE_Incompatible "provider executable is not configured") in
  let? locked := ok_or (bt_get name (wl_adapters lock))
    (PE_Incompatible "provider adapter is absent from the lock") in
  let? executable := snapshot_locked_executable kind name executable (la_executable_sha256 locked) in
  Ok {| ds_kind := kind; ds_provider_id := provider_id; ds_version := la_version locked;
        ds_protocol := la_protocol locked; ds_executable := executable |}.

(** The loop of [provider_descriptors] over the providers in order of their names *)
Fixpoint provider_descriptors (lock : WorkbenchLock) (providers : list (string * Provider))
    : Result (list (string * ProviderDescriptor)) ProviderRuntimeError :=
  match providers with
  | [] => Ok []
  | (name, provider) :: providers =>
      match descriptor_kind provider with
      | None => provider_descriptors lock providers
      | Some kind =>
          let? descriptor := provider_descriptor lock name provider kind in
          let? descriptors := provider_descriptors lock providers in
          Ok ((name, descriptor) :: descriptors)
      end
  end.

(** The loop of [connect_openrouter_providers]; the adapters connected before an error
    are dropped. *)
Fixpoint connect_openrouter_providers (cost : option CostPolicy) (providers : list (string * Provider))
    : Result (list (string * ProviderId * nat)) NewError :=
  match providers with
  | [] => Ok []
  | (name, provider) :: providers =>
      if negb (bool_decide (pr_kind provider = PT_Api)) then connect_openrouter_providers cost providers
      else
        let? _ := ok_or cost (new_error FC_InvalidRequest "API providers require policies.cost") in
        let? credential_ref := ok_or (pr_credential_ref provider)
          (new_error FC_InvalidRequest "API provider is missing credential_ref") in
        let? provider_id := Identifier_parse name in
        let? adapter := connect_openrouter provider_id provider credential_ref in
        let? connected := connect_openrouter_providers cost providers in
        Ok ((name, provider_id, adapter) :: connected)
  end.

(** [shutdown_managed]: every adapter is shut down, the last one first. *)
Definition shutdown_managed (managed : list nat) : list ProviderEvent * bool :=
  ((λ adapter, PV_Shutdown adapter (shutdown adapter)) <$> reverse managed, forallb shutdown (reverse managed)).

Definition reap_or (managed : list nat) (error : ProviderRuntimeError)
    : list ProviderEvent * Result ProviderRuntime ProviderRuntimeError :=
  let '(events, reaped) := shutdown_managed managed in
  (events, Err (if reaped then error else PE_Reap)).

Definition cleanup_after_startup_error (managed : list nat) (error : NewError)
    : list ProviderEvent * Result ProviderRuntime ProviderRuntimeError :=
  let '(events, reaped) := shutdown_managed managed in
  (events, Err (if negb reaped || bool_decide (ne_category error = FC_Internal)
                then PE_Reap else PE_Core error)).

Definition runtime_add (name : string) (provider_id : ProviderId) (adapter : nat)
    (c : ProviderCapabilities) (r : ProviderRuntime) : ProviderRuntime :=
  {| rt_registry := bt_insert provider_id adapter (rt_registry r);
     rt_catalog := bt_insert name (config_capabilities c) (rt_catalog r);
     rt_managed := rt_managed r ++ [adapter] |}.

(** The loop over the API adapters, which are connected already *)
Fixpoint add_openrouter (connected : list (string * ProviderId * nat)) (r : ProviderRuntime)
    : list ProviderEvent * Result ProviderRuntime ProviderRuntimeError :=
  match connected with
  | [] => ([], Ok r)
  | (name, provider_id, adapter) :: connected =>
      match capabilities adapter with
      | Err error => reap_or (rt_managed r ++ [adapter]) (PE_Core error)
      | Ok c => add_openrouter connected (runtime_add name provider_id adapter c r)
      end
  end.

(** The loop over the descriptors; [rest] is what follows it. *)
Fixpoint add_descriptors (native_writes : ProviderNativeWritePolicy)
    (descriptors : list (string * ProviderDescriptor)) (r : ProviderRuntime)
    (rest : ProviderRuntime → list ProviderEvent * Result ProviderRuntime ProviderRuntimeError)
    : list ProviderEvent * Result ProviderRuntime ProviderRuntimeError :=
  match descriptors with
  | [] => rest r
  | (name, descriptor) :: descriptors =>
      match connect_adapter descriptor (allows native_writes (ds_provider_id descriptor)) with
      | Err error => cleanup_after_startup_error (rt_managed r) error
      | Ok adapter =>
          let '(events, result) :=
            match capabilities adapter with
            | Err error => reap_or (rt_managed r ++ [adapter]) (PE_Core error)
            | Ok c =>
                if negb (String.eqb (pc_adapter_version c) (ds_version descriptor))
                   || negb (String.eqb (pc_protocol c) (ds_protocol descriptor))
                then reap_or (rt_managed r ++ [adapter])
                       (PE_Incompatible "provider adapter identity differs from the lock")
                else add_descriptors native_writes descriptors
                       (runtime_add name (ds_provider_id descriptor) adapter c r) rest
            end in
          (PV_Connected adapter :: events, result)
      end
  end.

(** [bootstrap_with_spend_store]; [snapshot_root] tells whether the directory for the
    copies is safe and writable, [ledger] whether the spent amounts could be restored. *)
Definition bootstrap_with_spend_store (startup : ProviderStartup)
    (snapshot_root ledger : Result unit ProviderRuntimeError)
    : list ProviderEvent * Result ProviderRuntime ProviderRuntimeError :=
  let configuration := ps_resolved startup in
  if negb (ps_lock_verified startup)
  then ([], Err (PE_Incompatible "provider startup requires a verified repository lock"))
  else
    match (let? _ := snapshot_root in
           let? descriptors := provider_descriptors (ps_base_lock startup) (cf_providers configuration) in
           let? _ := provider_cancellation_budget (pl_cancellation_deadline_ms (cf_protocol configuration)) in
           let? _ := ledger in
           Ok descriptors) with
    | Err error => ([], Err error)
    | Ok descriptors =>
        add_descriptors (po_provider_native_writes (cf_policies configuration)) descriptors
          {| rt_registry := []; rt_catalog := []; rt_managed := [] |}
          (λ r,
             match connect_openrouter_providers (po_cost (cf_policies configuration))
                     (cf_providers configuration) with
             | Err error => cleanup_after_startup_error (rt_managed r) error
             | Ok connected => add_openrouter connected r
             end)
    end.

(** [ProviderRuntime::shutdown] *)
Definition runtime_shutdown (r : ProviderRuntime) : list ProviderEvent * Result unit ProviderRuntimeError :=
  let '(events, reaped) := shutdown_managed (rt_managed r) in
  (events, if reaped then Ok tt else Err PE_Reap).

(** ** What a start guarantees *)

(** The descriptor is that of a configured provider: it runs a copy whose digest is the
    one in the lock and asks for the locked version and protocol. *)
Definition pinned (startup : ProviderStartup) (descriptor : ProviderDescriptor) : Prop :=
  ∃ name provider kind executable locked digest,
    (name, provider) ∈ cf_providers (ps_resolved startup) ∧ descriptor_kind provider = Some kind ∧
    pr_executable provider = Some executable ∧ bt_get name (wl_adapters (ps_base_lock startup)) = Some locked ∧
    copy_executable_snapshot name executable = Ok (ds_executable descriptor, digest) ∧
    digest = la_executable_sha256 locked ∧ ds_version descriptor = la_version locked ∧
    ds_protocol descriptor = la_protocol locked.

(** The adapter was connected for a pinned descriptor. *)
Definition connected_pinned (startup : ProviderStartup) (adapter : nat) : Prop :=
  ∃ descriptor native_writes, pinned startup descriptor ∧ connect_adapter descriptor native_writes = Ok adapter.

(** ... and says that it is what the lock names. *)
Definition identified (startup : ProviderStartup) (adapter : nat) : Prop :=
  ∃ descriptor native_writes c, pinned startup descriptor ∧ connect_adapter descriptor native_writes = Ok adapter ∧
    capabilities adapter = Ok c ∧ pc_adapter_version c = ds_version descriptor ∧
    pc_protocol c = ds_protocol descriptor.

(** What a failed start leaves behind: each of the adapters was shut down, and was reaped
    unless the error says that one was not. *)
Definition all_stopped (adapters : list nat) (events : list ProviderEvent) (error : ProviderRuntimeError) : Prop :=
  ∀ adapter, adapter ∈ adapters →
    PV_Shutdown adapter (shutdown adapter) ∈ events ∧ (error = PE_Reap ∨ shutdown adapter = true).

Lemma provider_descriptors_pinned startup providers descriptors :
  (∀ p, p ∈ providers → p ∈ cf_providers (ps_resolved startup)) →
  provider_descriptors (ps_base_lock startup) providers = Ok descriptors →
  Forall (λ d, pinned startup d.2) descriptors.
Proof.
  revert descriptors. induction providers as [|[name provider] providers IH]; intros descriptors Hin; simpl.
  { intros [= <-]. done. }
  destruct (descriptor_kind provider) as [kind|] eqn:Hk; [|apply IH; set_solver].
  destruct (provider_descriptor _ name provider kind) as [d|] eqn:Hd; simpl; [|done].
  destruct (provider_descriptors _ providers) as [ds|]; simpl; [|done]. intros [= <-].
  constructor; [|apply IH; [set_solver|done]].
  unfold provider_descriptor in Hd. destruct (Identifier_parse name); simpl in Hd; [|done].
  destruct (pr_executable provider) as [executable|] eqn:He; simpl in Hd; [|done].
  destruct (bt_get name _) as [locked|] eqn:Hl; simpl in Hd; [|done].
  unfold snapshot_locked_executable in Hd.
  destruct (copy_executable_snapshot name executable) as [[target digest]|] eqn:Hc; simpl in Hd; [|done].
  destruct (String.eqb_spec digest (la_executable_sha256 locked)); simpl in Hd; [|done]. simplify_eq/=.
  exists name, provider, kind, executable, locked, (la_executable_sha256 locked). split_and!; try done. apply Hin. by left.
Qed.

Lemma shutdown_managed_spec managed events reaped :
  shutdown_managed managed = (events, reaped) →
  (∀ a, PV_Connected a ∉ events) ∧
  ∀ a, a ∈ managed → PV_Shutdown a (shutdown a) ∈ events ∧ (reaped = true → shutdown a = true).
Proof.
  intros [= <- <-]. split.
  - intros a (b & [=] & _)%list_elem_of_fmap.
  - intros a Ha. apply elem_of_reverse in Ha. split; [apply list_elem_of_fmap; eauto|].
    rewrite forallb_forall. intros Hall. by apply Hall, list_elem_of_In.
Qed.

(** The result of a part of the start, from the runtime it begins with *)
Definition contained (startup : ProviderStartup) (r : ProviderRuntime)
    (x : list ProviderEvent * Result ProviderRuntime ProviderRuntimeError) : Prop :=
  (∀ a, PV_Connected a ∈ x.1 → connected_pinned startup a) ∧
  match x.2 with
  | Ok r' =>
      (∀ a reaped, PV_Shutdown a reaped ∉ x.1) ∧ (∀ a, a ∈ rt_managed r → a ∈ rt_managed r') ∧
      (∀ a, PV_Connected a ∈ x.1 → a ∈ rt_managed r' ∧ identified startup a)
  | Err error =>
      all_stopped (rt_managed r) x.1 error ∧ ∀ a, PV_Connected a ∈ x.1 → all_stopped [a] x.1 error
  end.

Lemma reap_or_contained startup r adapters error :
  (∀ a, a ∈ rt_managed r → a ∈ adapters) →
  contained startup r (reap_or adapters error) ∧
  ∀ a, a ∈ adapters → ∀ e, (reap_or adapters error).2 = Err e → all_stopped [a] (reap_or adapters error).1 e.
Proof.
  intros Hsub. unfold reap_or. destruct (shutdown_managed adapters) as [events reaped] eqn:Hs.
  destruct (shutdown_managed_spec _ _ _ Hs) as [Hno Hall].
  assert (∀ a, a ∈ adapters → PV_Shutdown a (shutdown a) ∈ events ∧
    ((if reaped then error else PE_Reap) = PE_Reap ∨ shutdown a = true)) as Hstop.
  { intros a [Hin Hr]%Hall. split; [done|]. destruct reaped; auto. }
  split; [split; simpl|].
  - intros a Ha. by apply Hno in Ha.
  - split; [intros a Ha; by apply Hstop, Hsub|]. intros a Ha. by apply Hno in Ha.
  - intros a Ha e [= <-] b ->%list_elem_of_singleton. by apply Hstop.
Qed.

Lemma cleanup_contained startup r error : contained startup r (cleanup_after_startup_error (rt_managed r) error).
Proof.
  unfold cleanup_after_startup_error. destruct (shutdown_managed _) as [events reaped] eqn:Hs.
  destruct (shutdown_managed_spec _ _ _ Hs) as [Hno Hall].
  split; simpl; [intros a Ha; by apply Hno in Ha|]. split; [|intros a Ha; by apply Hno in Ha].
  intros a [Hin Hr]%Hall. split; [done|]. destruct reaped; simpl; auto.
Qed.

Lemma add_openrouter_contained startup connected r : contained startup r (add_openrouter connected r).
Proof.
  revert r. induction connected as [|[[name provider_id] adapter] connected IH]; intros r; simpl.
  { split; simpl; [set_solver|]. split_and!; set_solver. }
  destruct (capabilities adapter) as [c|error]; [|apply reap_or_contained; set_solver].
  specialize (IH (runtime_add name provider_id adapter c r)). destruct IH as [H1 H2]. split; [done|].
  destruct (add_openrouter connected _).2 as [r'|e]; simpl in *.
  - destruct H2 as (? & Hsub & ?). split_and!; try done. intros a Ha. apply Hsub. set_solver.
  - destruct H2 as [Hs ?]. split; [|done]. intros a Ha. apply Hs. set_solver.
Qed.

Lemma add_descriptors_contained startup native_writes descriptors r rest :
  Forall (λ d, pinned startup d.2) descriptors → (∀ r, contained startup r (rest r)) →
  contained startup r (add_descriptors native_writes descriptors r rest).
Proof.
  intros Hpin Hrest. revert r. induction Hpin as [|[name d] descriptors Hd _ IH]; intros r; simpl; [apply Hrest|].
  destruct (connect_adapter d _) as [adapter|error] eqn:Hc; [|apply cleanup_contained].
  set (x := match capabilities adapter with Ok _ => _ | Err _ => _ end).
  assert (contained startup r x ∧ match x.2 with
    | Ok r' => adapter ∈ rt_managed r' ∧ identified startup adapter
    | Err e => all_stopped [adapter] x.1 e end) as [[H1 H2] H3].
  { assert (∀ error, contained startup r (reap_or (rt_managed r ++ [adapter]) error) ∧
      match (reap_or (rt_managed r ++ [adapter]) error).2 with
      | Ok r' => adapter ∈ rt_managed r' ∧ identified startup adapter
      | Err e => all_stopped [adapter] (reap_or (rt_managed r ++ [adapter]) error).1 e end) as Hreap.
    { intros error. destruct (reap_or_contained startup r (rt_managed r ++ [adapter]) error) as [H1 H2]; [set_solver|].
      split; [done|]. destruct (reap_or _ error).2 eqn:Hr; [unfold reap_or in Hr; by destruct (shutdown_managed _)|].
      apply H2; [set_solver|done]. }
    unfold x. destruct (capabilities adapter) as [c|error] eqn:Hcap; [|apply Hreap].
    destruct (String.eqb_spec (pc_adapter_version c) (ds_version d)) as [Hv|]; simpl; [|apply Hreap].
    destruct (String.eqb_spec (pc_protocol c) (ds_protocol d)) as [Hp|]; simpl; [|apply Hreap].
    specialize (IH (runtime_add name (ds_provider_id d) adapter c r)). destruct IH as [I1 I2].
    destruct (add_descriptors _ descriptors _ rest) as [events [r'|e]]; simpl in *.
    - destruct I2 as (Ino & Isub & Icon). split; [split; [done|]; simpl|].
      + split_and!; try done. intros a Ha. apply Isub. set_solver.
      + split; [apply Isub; set_solver|]. by exists d, (allows native_writes (ds_provider_id d)), c.
    - destruct I2 as [Is Ic]. split; [split; [done|]; simpl|].
      + split; [|done]. intros a Ha. apply Is. set_solver.
      + intros a ->%list_elem_of_singleton. apply Is. set_solver. }
  clearbody x. destruct x as [events result]. simpl in *. split; simpl.
  - intros a [[= ->]|Ha]%elem_of_cons; [by exists d, (allows native_writes (ds_provider_id d))|by apply H1].
  - destruct result as [r'|e].
    + destruct H2 as (Hno & Hsub & Hcon). split_and!; [|done|].
      * intros a reaped [?|Ha]%elem_of_cons; [done|by eapply Hno].
      * intros a [[= ->]|Ha]%elem_of_cons; [done|by apply Hcon].
    + destruct H2 as [Hs Hcon].
      assert (∀ l, all_stopped l events e → all_stopped l (PV_Connected adapter :: events) e) as Hmore.
      { intros l Hl a Ha. destruct (Hl a Ha). split; [by right|done]. }
      split; [by apply Hmore|]. intros a [[= ->]|Ha]%elem_of_cons; apply Hmore; [done|by apply Hcon].
Qed.

End bootstrap.

(** ** A start with one agent *)

Definition agent_startup : ProviderStartup :=
  {| ps_resolved := agent_config; ps_base_lock := agent_lock; ps_lock_verified := true |}.

Definition agent_capabilities (version : string) : ProviderCapabilities :=
  {| pc_adapter_id := "agent"; pc_adapter_version := version; pc_protocol := ACP_PROTOCOL;
     pc_authentication := AS_Available; pc_capabilities := [PC_Streaming]; pc_context_window_tokens := None |}.

Definition agent_start (version digest : string) : list ProviderEvent * Result ProviderRuntime ProviderRuntimeError :=
  bootstrap_with_spend_store (λ name _, Ok (name, digest)) (λ _ _, Ok 7%nat) (λ _ _ _, Ok 8%nat)
    (λ _, Ok (agent_capabilities version)) (λ _, true) agent_startup (Ok tt) (Ok tt).

Example agent_started :
  (agent_start "1.0" zeros).1 = [PV_Connected 7] ∧
  rt_managed <$> ok (agent_start "1.0" zeros).2 = Some [7%nat].
Proof. by vm_compute. Qed.

Example agent_of_other_version :
  agent_start "1.1" zeros =
  ([PV_Connected 7; PV_Shutdown 7 true],
   Err (PE_Incompatible "provider adapter identity differs from the lock")).
Proof. by vm_compute. Qed.

Example agent_with_other_bytes :
  agent_start "1.0" "ffff" = ([], Err (PE_Incompatible "ACP executable differs from the lock")).
Proof. by vm_compute. Qed.
